(* ===== verification/_CoqProject ===== *)
-Q . S2P
Prelude.v
RingBuffer.v
LinkedList.v
Math.v
Registers.v
Mpu.v
CortexMpu.v
CortexMpuSystem.v
Pmp.v
PmpSpec.v
PmpHw.v
PmpHwSpec.v
PmpEnforce.v
PmpProtect.v
RiscvPmp.v
Syscall.v
Tbf.v
TbfSpec.v
Permissions.v
ProcessBinary.v
Process.v
ProcessInv.v
ProcessSpec.v
Confine.v
Enforce.v
Grant.v
GrantSpec.v
Kernel.v
KernelSpec.v
Scheduler.v
SchedulerSpec.v
Checker.v
CheckerSpec.v
Loader.v
LoaderSpec.v
LoaderIso.v
LoaderMachine.v
Ticks.v
VirtualAlarm.v
VirtualAlarmSpec.v
Crc32.v
TicKV.v
TicKVObjects.v
TicKVProbe.v
TicKVSpec.v
TicKVRun.v
TicKVMap.v
AsyncTicKV.v
AsyncTicKVSpec.v
DeferredCall.v
ProcessTable.v
MainLoop.v
MainLoopSpec.v
AlarmDriver.v
AlarmDriverSpec.v
Ipc.v
IpcSpec.v
Leasable.v
ProcessBuffers.v
VirtualFlash.v
