(* ===== verification/Prelude.v ===== *)
(** * Verification of the core of the Tock kernel

    Tock is an operating system for microcontrollers: a kernel in Rust runs
    mutually distrustful processes, whose memory is protected by the hardware
    memory-protection unit (MPU).  This library models the kernel's core, the
    part that isolation rests on, and proves that it does what it promises.

    ** The program's parts and how they interact

    A process owns a block of RAM: app memory from the start to the app break,
    kernel-owned memory (grants, the task queue, the process structure) from the
    kernel break to the end.  The kernel moves the breaks on request (brk, grant
    allocation) and asks the MPU driver for a configuration that exposes the
    former and not the latter.  Drivers ("capsules") keep per-process state in
    grants; processes register upcalls and share buffers with drivers by system
    calls that the kernel records in the grant; upcalls wait in a ring buffer.
    The process loop switches to userspace, handles what it traps for, and
    returns to the scheduler when the timeslice, the work or the scheduler says
    so.  Processes come from flash: at boot the loader walks the binaries there,
    parses the header of each (Tock Binary Format, TBF), has its credentials
    checked by a policy when the board asks for that, and creates a process in
    the memory that is left.

    ** Files, in dependency order (sources under src/)

    - [Prelude]: outcomes of Rust code (return, panic, out of fuel) as a monad,
      32-bit arithmetic (checked: [add32], [sub32], [mul32]; wrapping), results,
      tactics and the lemmas all files share.
    - [RingBuffer] (module [Ring]; kernel/src/collections/ring_buffer.rs): every
      method of the queue, refined to a bounded FIFO list.
    - [LinkedList] (kernel/src/collections/list.rs): the intrusive list on link
      cells, refined to functional lists.
    - [Math] (kernel/src/utilities/math.rs): powers of two and logarithms.
    - [Registers] (module [Reg]; libraries/tock-register-interface): fields,
      field values and local register copies at any width.
    - [Mpu] (kernel/src/platform/mpu.rs): the [MPU] trait as a class, the class
      [MpuIsolation] of the laws the kernel relies on, the instance for [()].
    - [CortexMpu] (module [CortexM]; arch/cortex-m/src/mpu.rs): the Cortex-M
      driver down to register bits, and its instance of [MpuIsolation];
      [CortexMpuSystem] (module [CortexMSystem]): the driver with many
      configurations and one set of registers, as a step relation.
    - [Pmp] (arch/rv32i/src/pmp.rs, [PMPUserMPU]): the RISC-V driver over any PMP
      that offers top-of-range regions (the class [TORUserPMP]); [PmpSpec]: its
      instance of [MpuIsolation].  [PmpHw] (the same file, and
      arch/riscv/src/csr/mod.rs): the PMP registers with their locking rules, and
      the three PMPs of the source, the simple one, the one with kernel memory
      protection and the ePMP in machine-mode lockdown; [PmpHwSpec]: how the
      hardware checks an access, and what the register writes leave behind.
      [PmpEnforce]: the class [TORUserPMPEnforces] of PMPs that enforce what they
      are given, and the driver with many configurations over it as a step
      relation; [PmpProtect]: the three instances; [RiscvPmp]: the theorems.
    - [Syscall] (kernel/src/syscall.rs, errorcode.rs, syscall_driver.rs): the
      system-call ABI and error codes.
    - [Tbf] (libraries/tock-tbf): headers, entries and footers of binaries from
      their bytes; [TbfSpec]: the theorems.  [Permissions]
      (kernel/src/platform/platform.rs, storage_permissions.rs): the system-call
      filter and the storage permissions that a header grants, with the theorems.
    - [ProcessBinary] (kernel/src/process_binary.rs): binaries in flash.
    - [Process] (module [Proc]; kernel/src/process_standard.rs, process.rs,
      upcall.rs): the process record and every operation of it, against the
      classes [MPU] and [UKB] (the context-switch trait); [ProcessInv] (module
      [ProcInv]): the invariant [wf], the relation [step] of everything the
      kernel does to a process, and preservation; [ProcessSpec] (module
      [ProcSpec]): the theorems.  [Confine]: what a process can reach at most,
      with the class [MpuConfines] of MPUs that expose no more than asked for.
      [Enforce]: what the registers permit, with the class [MpuEnforces] of drivers that
      skip writing a configuration only when the registers hold it, its instances for
      both drivers, and how the operations on processes keep configurations and
      registers in step.
    - [Grant] (kernel/src/grant.rs): grants as raw bytes, and what the kernel and
      drivers do with them; [GrantSpec]: their layout and refinement to tables.
    - [Kernel] (module [Kern]; kernel/src/kernel.rs, memop.rs): system calls and
      the process loop, against a record [Board] of what a board supplies
      (drivers, filter, fault hook, scheduler, timer, IPC); [KernelSpec] (module
      [KernSpec]): the theorems.
    - [Scheduler] (module [Sched]; kernel/src/scheduler/): round robin,
      cooperative, priority and multi-level feedback queue; [SchedulerSpec]
      (module [SchedSpec]): the theorems.
    - [Checker] (kernel/src/process_checker.rs): the machine that checks
      credentials, against a policy with a state of its own; [CheckerSpec]: its
      refinement to a decision over the list of footers.
    - [Loader] (kernel/src/process_loading.rs): discovery, the synchronous loader
      and the asynchronous machine; [LoaderSpec]: discovery and termination;
      [LoaderIso]: where the synchronous loader puts processes; [LoaderMachine]:
      the asynchronous machine as a step relation, with its invariants.
    - [Ticks] (kernel/src/hil/time.rs): counter values of 16 to 64 bits, the traits
      [Ticks] and [Alarm] as classes with laws.  [VirtualAlarm]
      (capsules/core/src/virtualizers/virtual_alarm.rs): many alarms over one
      hardware alarm, with clients that call back; [VirtualAlarmSpec]: the
      theorems, against a hardware alarm with a true time.
    - [Crc32] (libraries/tickv/src/crc32.rs): the checksum, with its theorem.
      [TicKV] (libraries/tickv/src/tickv.rs, error_codes.rs, success_codes.rs,
      flash_controller.rs): the key-value store on the bytes of flash, as programs
      of a monad with state, errors and panics; [TicKVObjects]: regions as lists of
      objects and what the scans find in them; [TicKVProbe]: the order of regions;
      [TicKVSpec]: the operations on objects, the laws of flash memory (the classes
      [FlashView], [FlashWrites], [FlashLaws]) and the refinement of each operation;
      [TicKVRun]: sequences of calls; [TicKVMap]: the store as a finite map, and
      examples of what breaks it.  [AsyncTicKV] (libraries/tickv/src/async_ops.rs):
      the store that waits for its controller; [AsyncTicKVSpec]: its equivalence with
      the synchronous one.
    - [DeferredCall] (kernel/src/deferred_call.rs, scheduler.rs): deferred calls and
      the kernel work of the scheduler's default methods, with the theorems.
    - [ProcessTable] (kernel/src/kernel.rs, [ProcessId::index] of process.rs,
      [Grant::enter] of grant.rs): the array of all processes.
    - [MainLoop] (kernel/src/kernel.rs, [kernel_loop] and
      [kernel_loop_operation]): the main loop over that array, the scheduler,
      interrupts, deferred calls, sleep and the watchdog; [MainLoopSpec]: the
      theorem.
    - [AlarmDriver] (capsules/core/src/alarm.rs, with [Grant::iter] of grant.rs): the
      alarms of processes, kept in the raw memory of their grants;
      [AlarmDriverSpec]: the theorems.
    - [Ipc] (kernel/src/ipc.rs): inter-process communication over that array;
      [IpcSpec]: the theorems.
    - [Leasable] (kernel/src/utilities/leasable_buffer.rs): buffers of which layers
      see windows, with the theorems.
    - [ProcessBuffers] (kernel/src/processbuffer.rs): how drivers reach the memory that
      processes share with them, as slices of its cells, with the theorems.
    - [VirtualFlash] (capsules/core/src/virtualizers/virtual_flash.rs,
      kernel/src/hil/flash.rs): many users of one flash, with the theorems.

    ** What the theorems show

    - Isolation, top down.  Whatever the main loop does with all processes, at every
      switch to userspace the MPU registers permit the process that runs nothing of the
      kernel's and of the other processes' memory,
      and the chip sleeps only with nothing pending ([main_loop_isolates]).  Within
      the process loop every switch to userspace
      happens with the MPU enabled and registers that permit exactly what the
      configuration of the process exposes, its app memory and no kernel-owned byte
      ([userspace_runs_isolated]); if userspace writes only where the registers permit,
      that leaves the grants alone
      ([userspace_keeps_grants]).  It rests on the process invariant over all kernel
      operations ([process_isolation]) and on the bound on what a process reaches,
      its flash, its block and the regions added for it ([process_confined]), those on
      the driver interfaces [MpuIsolation], [MpuConfines] and [MpuEnforces], and the
      Cortex-M and the
      RISC-V driver discharge the interfaces ([pmp_app_memory_isolates],
      [allocate_app_memory_region_isolates],
      [update_app_memory_region_isolates], [allocate_region_exact]); skipping
      unchanged registers is sound over every interleaving
      ([configure_mpu_exact]).  On RISC-V this goes down to single accesses: the
      simple PMP and the ePMP allow a user access exactly when the configuration
      does ([simple_pmp_enforces], [mml_epmp_protects]).  All of this is for processes
      whose block has room for the initial app memory as the driver rounds it
      ([has_room]); RISC-V ensures that, the Cortex-M driver does not, and then the first
      kernel-owned byte is exposed ([allocate_app_memory_region_overlap]).
    - Loading: the header parser is total, round-trips with an encoder and
      detects any flipped bit ([tbf_parse_total], [tbf_roundtrip],
      [tbf_bit_flip_detected]); the checker refines its specification and lets no
      binary pass without the credentials the policy requires
      ([checker_refines], [checker_requires_credentials]); loaded processes are
      separate, approved and distinct, in every interleaving of the asynchronous
      loader ([loaded_processes_separate], [async_loaded_approved],
      [async_loaded_distinct]); loading ends ([loading_terminates]).  The
      permissions in a header are enforced as written ([filter_syscall_exact],
      [storage_permissions_exact]).
    - Processes: contracts of brk, restart, creation, stop and resume, upcall
      queueing and removal; shared buffers stay inside app memory and grant
      allocations stay disjoint for the life of an incarnation.  Drivers write to
      shared bytes of the incarnation that shared them, and to nothing else
      ([buffer_writes_confined]), and read back what was written ([slice_roundtrip]).
    - Grants: the raw memory behaves as one table per driver
      ([grants_refine_tables]); subscribe and allow calls on
      every branch ([subscribe_syscall], [allow_syscalls]).
    - The loop never runs an inactive process and Yield-WaitFor delivers one
      event; the round robin is fair, priorities are strict.
    - Virtual alarms never fire early ([virtual_alarm_never_early]) and, with
      bounded latency, fire in time ([virtual_alarm_in_time]); time values of any
      width convert to 32-bit ones ([left_justified_wraps]).
    - Alarms of processes: over the grants of all processes, the driver gives every
      expired alarm its upcall and arms the hardware in time for the others
      ([alarm_driver_serves], [alarm_command_serves]); requests are met to within a tick
      ([alarm_request_rounded]).
    - Inter-process communication: a notification is one task in the queue of the
      notified process ([ipc_notify_queues]); delivering it exposes the shared buffer
      to that process and nothing else ([ipc_shares_buffer]).
    - Virtual flash: every answer goes to its user; a request waits with its buffer while
      the flash has another, or for ever once the flash has refused one
      ([flash_requests_answered]); the first user in the
      list can keep the others waiting ([head_user_starves]).
    - Deferred calls: after the setup check every scheduled call reaches its client
      ([deferred_calls_delivered]), and the kernel work ends with all of them served
      ([kernel_work_serves_all]).
    - Key-value store: any sequence of calls refines the operations on objects
      ([tickv_refines_objects]); with values of fixed length and roomy regions it is
      a map, up to an object whose checksum does not fit ([tickv_is_map]); the asynchronous store equals the synchronous one
      ([async_equals_sync]); the checksum detects bursts ([crc32_detects_bursts]).
    - Leasable buffers: after reset the whole buffer is back ([lease_paid_back]).
    - Data: ring buffer and list refinements, ABI round trips, register fields.
    - Error theorems state where the code panics or deviates from its own
      comments: [allocate_app_memory_region_overlap], [brk_start_panics],
      [allocate_region_overflows], [reset_break_position],
      [grant_enter_unallocated], [memop_flash_region_overflow],
      [mlfq_timeslice_inverted], [empty_entry_hangs],
      [truncated_permissions_allow], [kernel_protection_machine_open],
      [full_region_hides_key], [collection_hides_key], [shorter_value_shadows],
      [tight_object_loses_buffer], [longest_object_panics], [corrupt_entries],
      [is_pending_denies], [thirty_two_refused], [longest_request_fires_at_once],
      [uneven_reference_fires_early], [expired_can_be_earliest],
      [slice_widens], [refused_operation_blocks].

    ** Conventions, bounds and fuel

    Machine integers are [Z] with their 32-bit width written out; the target is
    32-bit and little-endian.  Checked Rust arithmetic that overflows, an index
    out of range, [unwrap] of [None] and [panic!] are the outcome [Panic], so a
    theorem with a [Ret] on the right says that none of them happens.  Pointers
    are addresses.  A [Cell] is a field of the state record, a [MapCell] or
    [OptionalCell] an [option].

    Loops that are not structural take fuel: the ring buffer's loops and the
    list walk use one more than the number of slots or links, which the theorems
    show to be enough; the schedulers' search is shown to finish with fuel one
    more than the length of the queue.  The header parser takes one unit per byte
    that is left, the checker one more than the number of footers, the loaders
    one more than the number of bytes of flash; totality and termination are
    theorems.  The scans of TicKV take one more than the bytes of a region, its
    walks over regions and the callbacks of an asynchronous call two per region and
    two more; the refinement theorems show that this is enough.  The loop over
    deferred calls takes one unit per pending call.  The process loop may run for ever in the
    source: [do_process_loop] runs a given number of iterations and says when it
    is still running, and its theorems hold for every number; [kernel_loop] takes the
    number of rounds in the same way.

    ** What is assumed

    Nothing is assumed globally.  Theorems about the process loop take [board_laws]:
    drivers, the fault hook and IPC act on the process by the kernel's own
    operations, drivers do not stop a process while they serve its call, and a
    trap's arguments are 32-bit; what all of them may do to
    the rest of the system is a preorder [R] of the theorem.  [userspace_keeps_grants]
    takes besides that userspace writes no byte which the registers of an MPU that is on
    do not permit.  The theorem about the
    main loop takes [platform_laws]: drivers, interrupt handlers and deferred calls
    change other processes by the kernel's operations, and do not write the MPU for
    them; the scheduler and the watchdog keep to
    their own state.  For RISC-V the
    hardware is a model of its own, after the privileged specification: locked
    entries ignore writes, the lowest matching entry decides.  The credential
    policy and the policy for identifiers are arbitrary functions.  Theorems about
    TicKV take the laws of a flash controller (a write may only clear bits), theorems
    about alarms those of a hardware alarm ([AlarmLaws]) and of a byte layout that can
    be read back ([AlarmCodec]), the theorem about virtual flash those of a flash that,
    when it is free, takes a request or refuses it with its buffer, and completes what it
    took ([FlashLaws]); handlers of deferred calls use the calls through
    their interface.  [UKB] is the
    context switch, with arbitrary behaviour.  Grant theorems take the declared
    grants of a board, with distinct numbers and well-formed types.  Each theorem
    with hypotheses has a witness on the Cortex-M driver with 8 regions of at
    least 32 bytes and one process.

    ** What is not modelled

    Contents of process memory other than grants and shared buffers,
    floating-point helpers, tracing and debug output, assembly, the other capsules,
    chips and boards: mostly register traffic with hardware whose behaviour the source
    does not state. *)

From stdpp Require Import base option list list_numbers numbers.

(** * Outcomes of Rust code

    Rust code can return, panic (index out of range, arithmetic overflow with
    overflow checks, division by zero, [unwrap] of [None], explicit [panic!]),
    or, for the loops that are modelled with fuel, fail to finish within the
    given number of iterations. *)
Inductive outcome (A : Type) : Type :=
  | Ret (a : A)
  | Panic
  | Diverge.
Arguments Ret {A} a.
Arguments Panic {A}.
Arguments Diverge {A}.

Definition obind {A B} (m : outcome A) (f : A -> outcome B) : outcome B :=
  match m with
  | Ret a => f a
  | Panic => Panic
  | Diverge => Diverge
  end.

Declare Scope rust_scope.
Delimit Scope rust_scope with rust.

Notation "'let!' x ':=' m 'in' k" := (obind m (fun x => k))
  (at level 10, x name, m at level 100, k at level 200,
   format "'[v' 'let!'  x  ':='  m  'in' '/' k ']'") : rust_scope.
Notation "'let!' ' p ':=' m 'in' k" :=
  (obind m (fun x => match x with p => k end))
  (at level 10, p pattern, m at level 100, k at level 200) : rust_scope.
Open Scope rust_scope.

(** A [Result<A, E>] of the source. *)
Inductive result (A E : Type) : Type :=
  | Ok (a : A)
  | Err (e : E).
Arguments Ok {A E} a.
Arguments Err {A E} e.

Definition is_err {A E} (r : result A E) : bool :=
  match r with Ok _ => false | Err _ => true end.

(** [let? x := m in k]: the [?] operator on a [Result]. *)
Definition rbind {A B E} (m : result A E) (f : A -> result B E) : result B E :=
  match m with Ok a => f a | Err e => Err e end.
Notation "'let?' x ':=' m 'in' k" := (rbind m (fun x => k))
  (at level 10, x name, m at level 100, k at level 200,
   format "'[v' 'let?'  x  ':='  m  'in' '/' k ']'") : rust_scope.
Notation "'let?' ' p ':=' m 'in' k" :=
  (rbind m (fun x => match x with p => k end))
  (at level 10, p pattern, m at level 100, k at level 200) : rust_scope.
Definition ok_or {A E} (o : option A) (e : E) : result A E :=
  match o with Some a => Ok a | None => Err e end.

Definition of_option {A} (o : option A) : outcome A :=
  match o with Some a => Ret a | None => Panic end.

#[export] Instance outcome_eq_dec `{EqDecision A} : EqDecision (outcome A).
Proof. solve_decision. Defined.
#[export] Instance result_eq_dec `{EqDecision A, EqDecision E} :
  EqDecision (result A E).
Proof. solve_decision. Defined.

(** A computation that returns: the form in which absence of panics and
    termination are stated. *)
Definition returns {A} (m : outcome A) : Prop := exists a, m = Ret a.

Lemma obind_Ret {A B} (m : outcome A) (f : A -> outcome B) b :
  obind m f = Ret b <-> exists a, m = Ret a /\ f a = Ret b.
Proof. destruct m; simpl; naive_solver. Qed.

(** A computation that does not loop for ever; it may panic. *)
Definition halts {A} (m : outcome A) : Prop := m <> Diverge.

Lemma halts_Ret {A} (a : A) : halts (Ret a).
Proof. done. Qed.
Lemma halts_Panic {A} : halts (Panic : outcome A).
Proof. done. Qed.
Lemma halts_bind {A B} (m : outcome A) (f : A -> outcome B) :
  halts m -> (forall a, m = Ret a -> halts (f a)) -> halts (obind m f).
Proof. intros Hm Hf. destruct m; cbn; [by apply Hf|done|by destruct Hm]. Qed.
Lemma halts_of_option {A} (o : option A) : halts (of_option o).
Proof. by destruct o. Qed.

Lemma obind_assoc {A B C} (m : outcome A) (f : A -> outcome B)
    (g : B -> outcome C) :
  obind (obind m f) g = obind m (fun a => obind (f a) g).
Proof. by destruct m. Qed.

Lemma of_option_Ret {A} (o : option A) a : of_option o = Ret a <-> o = Some a.
Proof. destruct o; simpl; naive_solver. Qed.

(** * Machine integers

    [usize] and [u32] have 32 bits on every target of the kernel that has an
    MPU driver in the tree (Cortex-M and RV32).  Plain [+], [-], [*] panic on
    overflow in the checked profile; a theorem that a computation returns
    therefore also says that the unchecked profile computes the same value. *)
Local Open Scope Z_scope.

Definition U8 : Z := 2 ^ 8.
Definition U16 : Z := 2 ^ 16.
Definition U32 : Z := 2 ^ 32.
Definition U64 : Z := 2 ^ 64.

Definition u8_range (z : Z) : Prop := 0 <= z < U8.
Definition u16_range (z : Z) : Prop := 0 <= z < U16.
Definition u32_range (z : Z) : Prop := 0 <= z < U32.
Definition u64_range (z : Z) : Prop := 0 <= z < U64.

Definition wrap32 (z : Z) : Z := z mod U32.
Definition wrap64 (z : Z) : Z := z mod U64.

Definition wrapping_add32 (a b : Z) : Z := wrap32 (a + b).
Definition wrapping_sub32 (a b : Z) : Z := wrap32 (a - b).

Definition checked32 (z : Z) : outcome Z :=
  if (0 <=? z) && (z <? U32) then Ret z else Panic.
Definition add32 (a b : Z) : outcome Z := checked32 (a + b).
Definition sub32 (a b : Z) : outcome Z := checked32 (a - b).
Definition mul32 (a b : Z) : outcome Z := checked32 (a * b).
Definition div32 (a b : Z) : outcome Z :=
  if b =? 0 then Panic else Ret (a / b).
Definition rem32 (a b : Z) : outcome Z :=
  if b =? 0 then Panic else Ret (a mod b).
Definition saturating_sub (a b : Z) : Z := Z.max 0 (a - b).

Lemma checked32_ok z : u32_range z -> checked32 z = Ret z.
Proof.
  intros [Hl Hu]. unfold checked32.
  destruct (Z.leb_spec 0 z); [|lia]. destruct (Z.ltb_spec z U32); [done|lia].
Qed.

Lemma checked32_Ret z r : checked32 z = Ret r <-> r = z /\ u32_range z.
Proof.
  unfold checked32, u32_range.
  destruct (Z.leb_spec 0 z), (Z.ltb_spec z U32); simpl;
    (split; [intros ?; simplify_eq; lia|intros [-> ?]; first [done|lia]]).
Qed.

Lemma checked32_Panic z : checked32 z = Panic <-> ~ u32_range z.
Proof.
  unfold checked32, u32_range.
  destruct (Z.leb_spec 0 z), (Z.ltb_spec z U32); simpl; split;
    intros; first [done | lia].
Qed.

Lemma halts_checked32 z : halts (checked32 z).
Proof. unfold checked32. by destruct (_ && _). Qed.
Lemma halts_add32 a b : halts (add32 a b).
Proof. apply halts_checked32. Qed.
Lemma halts_sub32 a b : halts (sub32 a b).
Proof. apply halts_checked32. Qed.
Lemma halts_mul32 a b : halts (mul32 a b).
Proof. apply halts_checked32. Qed.
Lemma halts_div32 a b : halts (div32 a b).
Proof. unfold div32. by destruct (_ =? _). Qed.
Lemma halts_rem32 a b : halts (rem32 a b).
Proof. unfold rem32. by destruct (_ =? _). Qed.

Lemma wrap32_range z : u32_range (wrap32 z).
Proof. apply Z.mod_pos_bound; reflexivity. Qed.

Lemma wrap32_small z : u32_range z -> wrap32 z = z.
Proof. intros H. by apply Z.mod_small. Qed.

Lemma div32_ok a b : b <> 0 -> div32 a b = Ret (a / b).
Proof. intros H. unfold div32. by destruct (Z.eqb_spec b 0). Qed.

Lemma rem32_ok a b : b <> 0 -> rem32 a b = Ret (a mod b).
Proof. intros H. unfold rem32. by destruct (Z.eqb_spec b 0). Qed.

Lemma div32_Ret a b r : div32 a b = Ret r <-> b <> 0 /\ r = a / b.
Proof.
  unfold div32. destruct (Z.eqb_spec b 0); split; [done|by intros []| |].
  - intros ?; by simplify_eq.
  - by intros [_ ->].
Qed.

Lemma rem32_Ret a b r : rem32 a b = Ret r <-> b <> 0 /\ r = a mod b.
Proof.
  unfold rem32. destruct (Z.eqb_spec b 0); split; [done|by intros []| |].
  - intros ?; by simplify_eq.
  - by intros [_ ->].
Qed.

(** Decomposes hypotheses of the form [computation = Ret v] into the steps of
    the computation and the range facts of its checked operations. *)
Ltac inv_ret_step :=
  match goal with
  | H : Ret _ = Ret _ |- _ =>
    first [discriminate H | injection H; clear H; intros; try subst]
  | H : Panic = Ret _ |- _ => discriminate H
  | H : Diverge = Ret _ |- _ => discriminate H
  | H : checked32 _ = Ret _ |- _ => apply checked32_Ret in H as [-> H]
  | H : add32 _ _ = Ret _ |- _ => apply checked32_Ret in H as [-> H]
  | H : sub32 _ _ = Ret _ |- _ => apply checked32_Ret in H as [-> H]
  | H : mul32 _ _ = Ret _ |- _ => apply checked32_Ret in H as [-> H]
  | H : div32 _ _ = Ret _ |- _ => apply div32_Ret in H as [H ->]
  | H : rem32 _ _ = Ret _ |- _ => apply rem32_Ret in H as [H ->]
  | H : obind _ _ = Ret _ |- _ =>
    let x := fresh "x" in let Hx := fresh "Hret" in
    apply obind_Ret in H as (x & Hx & H)
  end.
Ltac inv_ret := repeat inv_ret_step.

(** Discharges a checked operation whose result is in range. *)
Ltac ck :=
  unfold add32, sub32, mul32;
  rewrite checked32_ok by (unfold u32_range, U32 in *; lia); cbn [obind].

(** * Slices

    A slice index is a [nat]: a Rust slice is at most [isize::MAX] bytes long,
    so an index plus one never overflows.  Reads and writes out of range
    panic. *)
Local Close Scope Z_scope.

Definition rem_nat (a b : nat) : outcome nat :=
  if Nat.eqb b 0 then Panic else Ret (a mod b).
Definition sub_nat (a b : nat) : outcome nat :=
  if Nat.leb b a then Ret (a - b) else Panic.
Definition index {A} (l : list A) (i : nat) : outcome A := of_option (l !! i).
Definition set_index {A} (l : list A) (i : nat) (x : A) : outcome (list A) :=
  if Nat.ltb i (length l) then Ret (<[i:=x]> l) else Panic.
(** [&l[a..b]] *)
Definition slice {A} (l : list A) (a b : nat) : outcome (list A) :=
  if Nat.leb a b && Nat.leb b (length l) then Ret (take (b - a) (drop a l))
  else Panic.
(** [l.get(a..b)] and [l.get(a..)] *)
Definition get {A} (l : list A) (a b : nat) : option (list A) :=
  if Nat.leb a b && Nat.leb b (length l) then Some (take (b - a) (drop a l)) else None.
Definition get_from {A} (l : list A) (a : nat) : option (list A) :=
  if Nat.leb a (length l) then Some (drop a l) else None.
(** [l.split_at(i)] *)
Definition split_at {A} (l : list A) (i : nat) : outcome (list A * list A) :=
  if Nat.leb i (length l) then Ret (take i l, drop i l) else Panic.

Lemma rem_nat_ok a b : 0 < b -> rem_nat a b = Ret (a mod b).
Proof. intros H. unfold rem_nat. destruct (Nat.eqb_spec b 0); [lia|done]. Qed.

Lemma sub_nat_ok a b : b <= a -> sub_nat a b = Ret (a - b).
Proof. intros H. unfold sub_nat. destruct (Nat.leb_spec b a); [done|lia]. Qed.

Lemma index_ok {A} (l : list A) i x : l !! i = Some x -> index l i = Ret x.
Proof. intros H. unfold index. by rewrite H. Qed.

Lemma set_index_ok {A} (l : list A) i x :
  i < length l -> set_index l i x = Ret (<[i:=x]> l).
Proof.
  intros H. unfold set_index. destruct (Nat.ltb_spec i (length l)); [done|lia].
Qed.

(** Addition of an offset to a ring position, without division. *)
Lemma ring_add n h i : h < n -> i <= n ->
  (h + i) mod n = if Nat.ltb (h + i) n then h + i else h + i - n.
Proof.
  intros Hh Hi. destruct (Nat.ltb_spec (h + i) n).
  - by apply Nat.mod_small.
  - symmetry. apply (Nat.mod_unique _ _ 1); lia.
Qed.

Lemma get_Some {A} (l : list A) a b s :
  get l a b = Some s <-> a <= b <= length l /\ s = take (b - a) (drop a l).
Proof.
  unfold get. destruct (Nat.leb_spec a b), (Nat.leb_spec b (length l)); cbn;
    naive_solver lia.
Qed.

Lemma get_length {A} (l : list A) a b s : get l a b = Some s -> length s = b - a.
Proof. intros [? ->]%get_Some. rewrite length_take, length_drop. lia. Qed.

Lemma get_app {A} (l r : list A) : get (l ++ r) 0 (length l) = Some l.
Proof.
  apply get_Some. rewrite length_app, Nat.sub_0_r, drop_0, take_app_length. split; [lia|done].
Qed.

Lemma get_from_app {A} (l r : list A) : get_from (l ++ r) (length l) = Some r.
Proof.
  unfold get_from. rewrite length_app, drop_app_length.
  by destruct (Nat.leb_spec (length l) (length l + length r)); [|lia].
Qed.

(** * Little-endian integers *)
Local Open Scope Z_scope.

Definition bytes_ok (l : list Z) : Prop := Forall u8_range l.
Definition from_le_bytes (bs : list Z) : Z := foldr (fun b acc => b + 2 ^ 8 * acc) 0 bs.
Fixpoint to_le_bytes (n : nat) (v : Z) : list Z :=
  match n with
  | O => []
  | S n => v mod 2 ^ 8 :: to_le_bytes n (v / 2 ^ 8)
  end.

Lemma to_le_bytes_length n v : length (to_le_bytes n v) = n.
Proof. revert v. induction n as [|n IH]; intros v; cbn; [done|by rewrite IH]. Qed.

Lemma to_le_bytes_ok n v : bytes_ok (to_le_bytes n v).
Proof.
  revert v. induction n as [|n IH]; intros v; cbn; constructor; [|apply IH].
  apply Z.mod_pos_bound. reflexivity.
Qed.

Lemma from_to_le_bytes n v : 0 <= v < 2 ^ (8 * Z.of_nat n) -> from_le_bytes (to_le_bytes n v) = v.
Proof.
  revert v. induction n as [|n IH]; intros v Hv; cbn [to_le_bytes from_le_bytes foldr].
  - cbn in Hv. lia.
  - fold (from_le_bytes (to_le_bytes n (v / 2 ^ 8))).
    rewrite Nat2Z.inj_succ, Z.mul_succ_r, Z.pow_add_r in Hv by lia. rewrite IH.
    + pose proof (Z.div_mod v (2 ^ 8) ltac:(lia)). lia.
    + split; [apply Z.div_pos; lia|apply Z.div_lt_upper_bound; lia].
Qed.

Lemma from_le_bytes_range l :
  bytes_ok l -> 0 <= from_le_bytes l < 2 ^ (8 * Z.of_nat (length l)).
Proof.
  induction 1 as [|b l Hb _ IH]; cbn [from_le_bytes foldr length]; [done|].
  fold (from_le_bytes l). unfold u8_range, U8 in Hb.
  rewrite Nat2Z.inj_succ, Z.mul_succ_r, Z.pow_add_r by lia. lia.
Qed.

Lemma to_from_le_bytes l : bytes_ok l -> to_le_bytes (length l) (from_le_bytes l) = l.
Proof.
  induction 1 as [|b l Hb Hl IH]; cbn [from_le_bytes foldr length to_le_bytes]; [done|].
  fold (from_le_bytes l). unfold u8_range, U8 in Hb.
  rewrite (Z.mul_comm (2 ^ 8)), Z.mod_add, Z.div_add by lia.
  rewrite (Z.mod_small b), (Z.div_small b) by lia. by rewrite Z.add_0_l, IH.
Qed.
Local Close Scope Z_scope.

Create HintDb rust.
#[export] Hint Rewrite @set_index_ok @rem_nat_ok @sub_nat_ok using lia : rust.
#[export] Hint Resolve wrap32_range : rust.

(** Computations without loops halt. *)
Create HintDb halts.
#[export] Hint Resolve halts_Ret halts_Panic halts_of_option halts_add32 halts_sub32 halts_mul32
  halts_div32 halts_rem32 halts_checked32 : halts.
Lemma halts_set_index {A} (l : list A) i x : halts (set_index l i x).
Proof. unfold set_index. by destruct (_ <? _)%nat. Qed.
Lemma halts_index {A} (l : list A) i : halts (index l i).
Proof. apply halts_of_option. Qed.
Lemma halts_rem_nat a b : halts (rem_nat a b).
Proof. unfold rem_nat. by destruct (_ =? _)%nat. Qed.
Lemma halts_sub_nat a b : halts (sub_nat a b).
Proof. unfold sub_nat. by destruct (_ <=? _)%nat. Qed.
#[export] Hint Resolve halts_set_index halts_index halts_rem_nat halts_sub_nat : halts.
Ltac halts :=
  repeat first
    [ progress intros
    | solve [eauto with halts]
    | apply halts_bind
    | match goal with |- halts (match ?x with _ => _ end) => destruct x end
    | match goal with |- halts (let '(_, _) := ?x in _) => destruct x end ].
