(* ===== verification/RingBuffer.v ===== *)
(** The kernel's ring buffer ([kernel/src/collections/ring_buffer.rs]), which
    implements the [Queue] trait ([kernel/src/collections/queue.rs]) and holds
    the pending tasks of every process.

    [RingBuffer] is the struct; each method of the source is a definition of
    the same name.  [wf] is the representation invariant, [contents] the list
    of queued elements, oldest first, and the theorems state every method's
    effect on [contents].  Panics (remainder by a zero-length slice, index out
    of range) are outcomes of the definitions; the theorems show that none
    happens when [wf] holds.  The two loops run with fuel one more than the
    length of the slice, which the theorems show to be enough. *)

From stdpp Require Import base list.
From S2P Require Import Prelude.

Module Ring.

Record RingBuffer (A : Type) := mkRing {
  ring : list A;
  head : nat;
  tail : nat;
}.
Arguments mkRing {A} ring head tail.
Arguments ring {A} _.
Arguments head {A} _.
Arguments tail {A} _.

Section operations.
  Context {A : Type}.
  Implicit Types (rb : RingBuffer A) (f : A -> bool).

Definition new (l : list A) : RingBuffer A := mkRing l 0 0.

Definition has_elements rb : bool := negb (Nat.eqb (head rb) (tail rb)).

Definition is_full rb : outcome bool :=
  let! next := rem_nat (tail rb + 1) (length (ring rb)) in
  Ret (Nat.eqb (head rb) next).

Definition len rb : outcome nat :=
  if Nat.ltb (head rb) (tail rb) then sub_nat (tail rb) (head rb)
  else if Nat.ltb (tail rb) (head rb) then
    let! d := sub_nat (length (ring rb)) (head rb) in
    Ret (d + tail rb)
  else Ret 0.

Definition available_len rb : outcome nat :=
  let! n := len rb in
  Ret (length (ring rb) - (1 + n)).

Definition as_slices rb : outcome (option (list A) * option (list A)) :=
  if Nat.ltb (head rb) (tail rb) then
    let! s := slice (ring rb) (head rb) (tail rb) in
    Ret (Some s, None)
  else if Nat.ltb (tail rb) (head rb) then
    let! '(lhs, rhs) := split_at (ring rb) (head rb) in
    if Nat.eqb (tail rb) 0 then Ret (Some rhs, None)
    else
      let! l := slice lhs 0 (tail rb) in
      Ret (Some rhs, Some l)
  else Ret (None, None).

Definition enqueue rb (val : A) : outcome (bool * RingBuffer A) :=
  let! full := is_full rb in
  if full then Ret (false, rb)
  else
    let! r := set_index (ring rb) (tail rb) val in
    let! t := rem_nat (tail rb + 1) (length (ring rb)) in
    Ret (true, mkRing r (head rb) t).

Definition push rb (val : A) : outcome (option A * RingBuffer A) :=
  let! full := is_full rb in
  let! '(result, h) :=
    (if full then
       let! v := index (ring rb) (head rb) in
       let! h := rem_nat (head rb + 1) (length (ring rb)) in
       Ret (Some v, h)
     else Ret (None, head rb)) in
  let! r := set_index (ring rb) (tail rb) val in
  let! t := rem_nat (tail rb + 1) (length (ring rb)) in
  Ret (result, mkRing r h t).

Definition dequeue rb : outcome (option A * RingBuffer A) :=
  if has_elements rb then
    let! v := index (ring rb) (head rb) in
    let! h := rem_nat (head rb + 1) (length (ring rb)) in
    Ret (Some v, mkRing (ring rb) h (tail rb))
  else Ret (None, rb).

(** The inner [while next_slot != self.tail] loop: move everything past the
    removed element forward; returns the slice and the last [slot]. *)
Fixpoint shift_loop (fuel : nat) (r : list A) (t slot next_slot : nat)
    : outcome (list A * nat) :=
  match fuel with
  | 0 => Diverge
  | S fuel =>
    if Nat.eqb next_slot t then Ret (r, slot)
    else
      let! v := index r next_slot in
      let! r := set_index r slot v in
      let! next := rem_nat (next_slot + 1) (length r) in
      shift_loop fuel r t next_slot next
  end.

Fixpoint remove_loop (fuel : nat) rb f (slot : nat)
    : outcome (option A * RingBuffer A) :=
  match fuel with
  | 0 => Diverge
  | S fuel =>
    if Nat.eqb slot (tail rb) then Ret (None, rb)
    else
      let! v := index (ring rb) slot in
      if f v then
        let! next_slot := rem_nat (slot + 1) (length (ring rb)) in
        let! '(r, t) :=
          shift_loop (S (length (ring rb))) (ring rb) (tail rb) slot next_slot in
        Ret (Some v, mkRing r (head rb) t)
      else
        let! next := rem_nat (slot + 1) (length (ring rb)) in
        remove_loop fuel rb f next
  end.

Definition remove_first_matching rb f : outcome (option A * RingBuffer A) :=
  remove_loop (S (length (ring rb))) rb f (head rb).

Definition empty rb : RingBuffer A := mkRing (ring rb) 0 0.

Fixpoint retain_loop (fuel : nat) (r : list A) f (t src dst : nat)
    : outcome (list A * nat) :=
  match fuel with
  | 0 => Diverge
  | S fuel =>
    if Nat.eqb src t then Ret (r, dst)
    else
      let! v := index r src in
      let! '(r, dst) :=
        (if f v then
           let! r :=
             (if negb (Nat.eqb src dst) then
                let! w := index r src in set_index r dst w
              else Ret r) in
           let! d := rem_nat (dst + 1) (length r) in
           Ret (r, d)
         else Ret (r, dst)) in
      let! src := rem_nat (src + 1) (length r) in
      retain_loop fuel r f t src dst
  end.

Definition retain rb f : outcome (RingBuffer A) :=
  let! '(r, t) :=
    retain_loop (S (length (ring rb))) (ring rb) f (tail rb) (head rb) (head rb) in
  Ret (mkRing r (head rb) t).

End operations.

(** * The abstract queue *)

Section contents.
  Context {A : Type}.
  Implicit Types (rb : RingBuffer A) (r : list A).

(** The [k] elements of the ring [r] that start at position [h]. *)
Fixpoint window (r : list A) (h k : nat) : list A :=
  match k with
  | 0 => []
  | S k => option_list (r !! h) ++ window r ((h + 1) mod length r) k
  end.

(** Distance from [head] to [tail] around the ring. *)
Definition count rb : nat :=
  if Nat.leb (head rb) (tail rb) then tail rb - head rb
  else length (ring rb) - head rb + tail rb.

Definition contents rb : list A := window (ring rb) (head rb) (count rb).

Definition wf rb : Prop :=
  head rb < length (ring rb) /\ tail rb < length (ring rb).

Lemma window_nil r h : window r h 0 = [].
Proof. done. Qed.

Lemma window_S r h k x :
  r !! h = Some x ->
  window r h (S k) = x :: window r ((h + 1) mod length r) k.
Proof. intros Hx. simpl. by rewrite Hx. Qed.

Lemma window_length r h k : h < length r -> length (window r h k) = k.
Proof.
  revert h; induction k as [|k IH]; intros h Hh; [done|].
  destruct (lookup_lt_is_Some_2 r h Hh) as [x Hx].
  rewrite (window_S _ _ _ x), length_cons, IH; [done| |done].
  apply Nat.mod_upper_bound. lia.
Qed.

Lemma window_lookup r h k i :
  h < length r -> i < k -> window r h k !! i = r !! ((h + i) mod length r).
Proof.
  revert h i; induction k as [|k IH]; intros h i Hh Hi; [lia|].
  destruct (lookup_lt_is_Some_2 r h Hh) as [x Hx].
  rewrite (window_S _ _ _ x) by done. destruct i as [|i]; simpl.
  - by rewrite Nat.add_0_r, Nat.mod_small.
  - rewrite IH; [|apply Nat.mod_upper_bound; lia|lia].
    rewrite Nat.Div0.add_mod_idemp_l. do 2 f_equal. lia.
Qed.

(** A window is determined by its elements. *)
Lemma window_eq r h (l : list A) :
  h < length r ->
  (forall i, i < length l -> r !! ((h + i) mod length r) = l !! i) ->
  window r h (length l) = l.
Proof.
  intros Hh Hl. apply list_eq. intros i.
  destruct (decide (i < length l)) as [Hi|Hi].
  - rewrite window_lookup by done. auto.
  - rewrite !lookup_ge_None_2; [done|lia|rewrite window_length by done; lia].
Qed.

Lemma window_snoc r h k x :
  h < length r -> r !! ((h + k) mod length r) = Some x ->
  window r h (S k) = window r h k ++ [x].
Proof.
  intros Hh Hx.
  replace (S k) with (length (window r h k ++ [x]))
    by (rewrite length_app, window_length by done; simpl; lia).
  apply window_eq; [done|]. intros i.
  rewrite length_app, window_length by done. simpl. intros Hi.
  destruct (decide (i < k)).
  - rewrite lookup_app_l, window_lookup by (rewrite ?window_length; done). done.
  - assert (i = k) as -> by lia.
    rewrite lookup_app_r, window_length by (rewrite ?window_length; done).
    by rewrite Nat.sub_diag.
Qed.

(** Two rings of the same length that agree on the positions of a window. *)
Lemma window_ext r r' h k :
  length r = length r' -> h < length r ->
  (forall i, i < k -> r !! ((h + i) mod length r) = r' !! ((h + i) mod length r)) ->
  window r h k = window r' h k.
Proof.
  intros Hlen Hh Heq. pose proof (window_length r' h k) as Hk.
  rewrite <- Hlen in Hk. specialize (Hk Hh). rewrite <- Hk at 1.
  apply window_eq; [done|]. intros i Hi. rewrite Hk in Hi.
  rewrite window_lookup, <- Hlen by lia. auto.
Qed.

Lemma ring_inj n h i j :
  h < n -> i < n -> j < n -> (h + i) mod n = (h + j) mod n -> i = j.
Proof.
  intros Hh Hi Hj. rewrite !ring_add by lia.
  destruct (Nat.ltb_spec (h + i) n), (Nat.ltb_spec (h + j) n); lia.
Qed.

(** Writing at distance [d >= k] leaves the first [k] elements alone. *)
Lemma window_insert_out r h k d x :
  h < length r -> k <= d -> d < length r ->
  window (<[(h + d) mod length r := x]> r) h k = window r h k.
Proof.
  intros Hh Hk Hd. symmetry. apply window_ext; [by rewrite length_insert|done|].
  intros i Hi. rewrite list_lookup_insert_ne; [done|].
  intros Heq. apply ring_inj in Heq; lia.
Qed.

Lemma ring_step n h i : 0 < n -> ((h + i) mod n + 1) mod n = (h + S i) mod n.
Proof. intros Hn. rewrite Nat.Div0.add_mod_idemp_l. f_equal. lia. Qed.

Lemma wf_pos rb : wf rb -> 0 < length (ring rb).
Proof. intros [? _]. lia. Qed.

Lemma count_bound rb : wf rb -> count rb < length (ring rb).
Proof.
  intros [Hh Ht]. unfold count. destruct (Nat.leb_spec (head rb) (tail rb)); lia.
Qed.

Lemma tail_count rb :
  wf rb -> tail rb = (head rb + count rb) mod length (ring rb).
Proof.
  intros Hwf. pose proof (count_bound rb Hwf). destruct Hwf as [Hh Ht].
  rewrite ring_add by lia. unfold count in *.
  destruct (Nat.leb_spec (head rb) (tail rb));
    match goal with |- context [Nat.ltb ?a ?b] => destruct (Nat.ltb_spec a b) end;
    lia.
Qed.

Lemma contents_length rb : wf rb -> length (contents rb) = count rb.
Proof. intros [Hh _]. by apply window_length. Qed.

(** A ring whose tail is at distance [k] from its head holds that window. *)
Lemma contents_mk r h k :
  h < length r -> k < length r ->
  let rb := mkRing r h ((h + k) mod length r) in
  wf rb /\ contents rb = window r h k.
Proof.
  intros Hh Hk rb.
  assert (Hwf : wf rb) by (split; simpl; [done|apply Nat.mod_upper_bound; lia]).
  split; [done|]. unfold contents. simpl. f_equal.
  pose proof (tail_count rb Hwf) as Ht. simpl in Ht.
  symmetry. by apply (ring_inj (length r) h); [| |apply (count_bound rb Hwf)|].
Qed.

End contents.

(** * Functional correctness *)

Section correctness.
  Context {A : Type}.
  Implicit Types (rb : RingBuffer A) (f : A -> bool).

Lemma new_wf (l : list A) : 0 < length l -> wf (new l).
Proof. intros H. split; done. Qed.

Lemma new_contents (l : list A) : contents (new l) = [].
Proof. done. Qed.

Lemma empty_contents rb : contents (empty rb) = [].
Proof. done. Qed.

Lemma empty_wf rb : wf rb -> wf (empty rb).
Proof. intros H%wf_pos. split; done. Qed.

Lemma len_spec rb : wf rb -> len rb = Ret (length (contents rb)).
Proof.
  intros Hwf. rewrite contents_length by done. destruct Hwf as [Hh Ht].
  unfold len, count.
  destruct (Nat.ltb_spec (head rb) (tail rb)), (Nat.leb_spec (head rb) (tail rb)),
    (Nat.ltb_spec (tail rb) (head rb)); autorewrite with rust; simpl;
    try lia; f_equal; lia.
Qed.

Lemma has_elements_spec rb :
  wf rb -> has_elements rb = negb (bool_decide (contents rb = [])).
Proof.
  intros Hwf. unfold has_elements.
  pose proof (contents_length rb Hwf) as Hlen. destruct Hwf as [Hh Ht].
  unfold count in Hlen.
  destruct (Nat.eqb_spec (head rb) (tail rb)); simpl;
    case_bool_decide as Hc; try done.
  - destruct (Nat.leb_spec (head rb) (tail rb)); [|lia].
    destruct (contents rb); [done|]. simpl in Hlen. lia.
  - rewrite Hc in Hlen. simpl in Hlen.
    destruct (Nat.leb_spec (head rb) (tail rb)); lia.
Qed.

(** The queue is full when it holds one element less than the slice. *)
Lemma is_full_spec rb :
  wf rb ->
  is_full rb =
    Ret (Nat.eqb (S (length (contents rb))) (length (ring rb))).
Proof.
  intros Hwf. pose proof (wf_pos rb Hwf). unfold is_full.
  rewrite contents_length, rem_nat_ok by done.
  cbn [obind]. f_equal.
  pose proof (count_bound rb Hwf). pose proof (tail_count rb Hwf) as Ht.
  destruct Hwf as [Hh _]. rewrite Ht at 1.
  rewrite ring_step, ring_add by lia.
  apply eq_true_iff_eq. rewrite !Nat.eqb_eq.
  destruct (Nat.ltb_spec (head rb + S (count rb)) (length (ring rb))); lia.
Qed.

Lemma enqueue_full rb x :
  wf rb -> S (length (contents rb)) = length (ring rb) ->
  enqueue rb x = Ret (false, rb).
Proof.
  intros Hwf Hfull. unfold enqueue. rewrite is_full_spec by done.
  rewrite Hfull, Nat.eqb_refl. done.
Qed.

(** Advancing the tail over a freshly written slot. *)
Lemma write_tail rb x :
  wf rb -> S (count rb) < length (ring rb) ->
  let rb' := mkRing (<[tail rb := x]> (ring rb)) (head rb)
               ((tail rb + 1) mod length (ring rb)) in
  wf rb' /\ contents rb' = contents rb ++ [x].
Proof.
  intros Hwf Hc rb'. pose proof (tail_count rb Hwf) as Ht.
  destruct Hwf as [Hh Htl].
  destruct (contents_mk (<[tail rb := x]> (ring rb)) (head rb) (S (count rb)))
    as [Hwf' Hcont]; [by rewrite length_insert..|].
  rewrite length_insert in Hwf', Hcont.
  assert (rb' = mkRing (<[tail rb:=x]> (ring rb)) (head rb)
            ((head rb + S (count rb)) mod length (ring rb))) as ->.
  { unfold rb'. f_equal. rewrite Ht at 1. apply ring_step. lia. }
  split; [done|]. rewrite Hcont.
  rewrite (window_snoc _ _ _ x); rewrite ?length_insert; try done.
  - unfold contents. rewrite Ht. rewrite window_insert_out; [done|done|lia|lia].
  - rewrite <- Ht. by apply list_lookup_insert_eq.
Qed.

Lemma enqueue_space rb x :
  wf rb -> S (length (contents rb)) <> length (ring rb) ->
  exists rb', enqueue rb x = Ret (true, rb') /\ wf rb' /\
    contents rb' = contents rb ++ [x] /\ length (ring rb') = length (ring rb).
Proof.
  intros Hwf Hfull. pose proof (count_bound rb Hwf). pose proof (wf_pos rb Hwf).
  unfold enqueue. rewrite is_full_spec by done. cbn [obind].
  rewrite (proj2 (Nat.eqb_neq _ _) Hfull).
  rewrite contents_length in Hfull by done.
  destruct (write_tail rb x Hwf) as [Hwf' Hc]; [lia|].
  assert (tail rb < length (ring rb)) by apply Hwf.
  autorewrite with rust. simpl. autorewrite with rust. simpl.
  eexists; split_and!; [done|done|done|]. simpl. by rewrite length_insert.
Qed.

Lemma dequeue_empty rb :
  wf rb -> contents rb = [] -> dequeue rb = Ret (None, rb).
Proof.
  intros Hwf Hc. unfold dequeue. rewrite has_elements_spec by done.
  by rewrite bool_decide_eq_true_2.
Qed.

(** The element at the head is the oldest; dropping it advances the head. *)
Lemma read_head rb :
  wf rb -> 0 < count rb ->
  exists x, ring rb !! head rb = Some x /\
    let rb' := mkRing (ring rb) ((head rb + 1) mod length (ring rb)) (tail rb) in
    wf rb' /\ contents rb = x :: contents rb'.
Proof.
  intros Hwf Hpos. pose proof (tail_count rb Hwf) as Ht.
  pose proof (count_bound rb Hwf) as Hb. destruct Hwf as [Hh Htl].
  destruct (lookup_lt_is_Some_2 (ring rb) (head rb) Hh) as [x Hx].
  exists x; split; [done|]. intros rb'.
  destruct (count rb) as [|k] eqn:Hk; [lia|].
  destruct (contents_mk (ring rb) ((head rb + 1) mod length (ring rb)) k)
    as [Hwf' Hc]; [apply Nat.mod_upper_bound; lia|lia|].
  assert (rb' = mkRing (ring rb) ((head rb + 1) mod length (ring rb))
     (((head rb + 1) mod length (ring rb) + k) mod length (ring rb))) as ->.
  { unfold rb'. f_equal. rewrite Ht, Nat.Div0.add_mod_idemp_l. f_equal. lia. }
  split; [done|]. rewrite Hc. unfold contents. rewrite Hk. by apply window_S.
Qed.

Lemma dequeue_cons rb x q :
  wf rb -> contents rb = x :: q ->
  exists rb', dequeue rb = Ret (Some x, rb') /\ wf rb' /\ contents rb' = q /\
    ring rb' = ring rb.
Proof.
  intros Hwf Hc. pose proof (wf_pos rb Hwf).
  assert (Hpos : 0 < count rb).
  { rewrite <- contents_length, Hc by done. simpl. lia. }
  destruct (read_head rb Hwf Hpos) as (y & Hy & Hwf' & Hc').
  rewrite Hc in Hc'. simplify_eq.
  unfold dequeue. rewrite has_elements_spec, Hc by done. simpl.
  rewrite (index_ok _ _ _ Hy). simpl. autorewrite with rust. simpl.
  eexists; split_and!; done.
Qed.

(** [push] on a full queue drops the oldest element. *)
Lemma push_full rb x y q :
  wf rb -> S (length (contents rb)) = length (ring rb) -> contents rb = y :: q ->
  exists rb', push rb x = Ret (Some y, rb') /\ wf rb' /\
    contents rb' = q ++ [x] /\ length (ring rb') = length (ring rb).
Proof.
  intros Hwf Hfull Hc. pose proof (wf_pos rb Hwf).
  assert (Hpos : 0 < count rb).
  { rewrite <- contents_length, Hc by done. simpl. lia. }
  destruct (read_head rb Hwf Hpos) as (z & Hz & Hwf1 & Hc1).
  rewrite Hc in Hc1. simplify_eq.
  destruct (write_tail _ x Hwf1) as [Hwf2 Hc2].
  { rewrite <- contents_length by done. rewrite Hc in Hfull.
    cbn [length ring] in *. lia. }
  simpl in Hwf2, Hc2.
  unfold push. rewrite is_full_spec, Hfull, Nat.eqb_refl by done. simpl.
  rewrite (index_ok _ _ _ Hz). simpl.
  assert (tail rb < length (ring rb)) by apply Hwf.
  autorewrite with rust. simpl. autorewrite with rust. simpl.
  autorewrite with rust. simpl.
  eexists; split_and!; [done|done|done|]. simpl. by rewrite length_insert.
Qed.

Lemma push_space rb x :
  wf rb -> S (length (contents rb)) <> length (ring rb) ->
  exists rb', push rb x = Ret (None, rb') /\ wf rb' /\
    contents rb' = contents rb ++ [x] /\ length (ring rb') = length (ring rb).
Proof.
  intros Hwf Hfull. pose proof (count_bound rb Hwf). pose proof (wf_pos rb Hwf).
  unfold push. rewrite is_full_spec by done. cbn [obind].
  rewrite (proj2 (Nat.eqb_neq _ _) Hfull).
  rewrite contents_length in Hfull by done.
  destruct (write_tail rb x Hwf) as [Hwf' Hc]; [lia|].
  assert (tail rb < length (ring rb)) by apply Hwf.
  simpl. autorewrite with rust. simpl. autorewrite with rust. simpl.
  eexists; split_and!; [done|done|done|]. simpl. by rewrite length_insert.
Qed.

(** The shifting loop started at distance [s] copies the elements at distances
    [s+1 .. k-1] one place down and stops at distance [k-1]. *)
Lemma shift_loop_spec fuel (r : list A) h k s :
  h < length r -> k < length r -> s < k -> k - s <= fuel ->
  exists r', shift_loop fuel r ((h + k) mod length r) ((h + s) mod length r)
      ((h + S s) mod length r) = Ret (r', (h + (k - 1)) mod length r) /\
    length r' = length r /\
    (forall i, i < s -> r' !! ((h + i) mod length r) = r !! ((h + i) mod length r)) /\
    (forall i, s <= i < k - 1 ->
       r' !! ((h + i) mod length r) = r !! ((h + S i) mod length r)).
Proof.
  revert r s; induction fuel as [|fuel IH]; intros r s Hh Hk Hs Hf; [lia|].
  simpl. destruct (Nat.eqb_spec ((h + S s) mod length r) ((h + k) mod length r))
    as [Heq|Hne].
  - apply ring_inj in Heq; [|lia..].
    exists r. split_and!; [by replace (k - 1) with s by lia|done|done|intros; lia].
  - assert (S s < k) by (destruct (decide (S s = k)); [congruence|lia]).
    assert (Hb : forall i, (h + i) mod length r < length r)
      by (intros; apply Nat.mod_upper_bound; lia).
    destruct (lookup_lt_is_Some_2 r _ (Hb (S s))) as [v Hv].
    rewrite (index_ok _ _ _ Hv). simpl. rewrite set_index_ok by done. simpl.
    rewrite length_insert, rem_nat_ok by lia. simpl. rewrite ring_step by lia.
    set (r1 := <[(h + s) mod length r := v]> r).
    assert (Hl : length r1 = length r) by apply length_insert.
    destruct (IH r1 (S s)) as (r' & Hrun & Hlen & Hlow & Hmid); [lia..|].
    rewrite Hl in Hrun, Hlow, Hmid, Hlen. exists r'. split_and!; [done|done| |].
    + intros i Hi. rewrite Hlow by lia. unfold r1.
      rewrite list_lookup_insert_ne; [done|]. intros E%ring_inj; lia.
    + intros i Hi. destruct (decide (i = s)) as [->|].
      * rewrite Hlow by lia. unfold r1. by rewrite list_lookup_insert_eq.
      * rewrite Hmid by lia. unfold r1. rewrite list_lookup_insert_ne; [done|].
        intros E%ring_inj; lia.
Qed.

(** The list function that [remove_first_matching] refines. *)
Fixpoint remove_first f (l : list A) : option (A * list A) :=
  match l with
  | [] => None
  | x :: l =>
    if f x then Some (x, l)
    else match remove_first f l with
         | Some (y, l) => Some (y, x :: l)
         | None => None
         end
  end.

Lemma remove_first_split f (l : list A) :
  match remove_first f l with
  | Some (x, l') => exists l1 l2, l = l1 ++ x :: l2 /\ l' = l1 ++ l2 /\ f x = true /\
      Forall (fun y => f y = false) l1
  | None => Forall (fun y => f y = false) l
  end.
Proof.
  induction l as [|x l IH]; cbn; [by constructor|]. destruct (f x) eqn:E; [by exists [], l|].
  destruct (remove_first f l) as [ [y l']|]; [|by constructor].
  destruct IH as (l1 & l2 & -> & -> & Hy & Hall). exists (x :: l1), l2.
  split_and!; try done. by constructor.
Qed.

Lemma window_delete (r r' : list A) h k s :
  h < length r -> k < length r -> s < k -> length r' = length r ->
  (forall i, i < s -> r' !! ((h + i) mod length r) = r !! ((h + i) mod length r)) ->
  (forall i, s <= i < k - 1 ->
     r' !! ((h + i) mod length r) = r !! ((h + S i) mod length r)) ->
  window r' h (k - 1) = take s (window r h k) ++ drop (S s) (window r h k).
Proof.
  intros Hh Hk Hs Hl Hlow Hmid.
  assert (Hw : length (window r h k) = k) by by apply window_length.
  set (l := take s _ ++ _). assert (Hll : length l = k - 1).
  { unfold l. rewrite length_app, length_take, length_drop, Hw. lia. }
  rewrite <- Hll. apply window_eq; [lia|]. rewrite Hll, Hl. intros i Hi.
  unfold l. destruct (decide (i < s)).
  - rewrite lookup_app_l by (rewrite length_take; lia).
    rewrite lookup_take_lt, window_lookup by lia. auto.
  - rewrite lookup_app_r; rewrite length_take; [|lia].
    rewrite Nat.min_l, lookup_drop by lia.
    replace (S s + (i - s)) with (S i) by lia.
    rewrite window_lookup by lia. apply Hmid. lia.
Qed.

Lemma remove_loop_spec fuel rb f s :
  wf rb -> s <= count rb -> count rb - s < fuel ->
  match remove_first f (drop s (contents rb)) with
  | None => remove_loop fuel rb f ((head rb + s) mod length (ring rb))
              = Ret (None, rb)
  | Some (x, l) =>
    exists rb', remove_loop fuel rb f ((head rb + s) mod length (ring rb))
        = Ret (Some x, rb') /\ wf rb' /\
      contents rb' = take s (contents rb) ++ l /\
      length (ring rb') = length (ring rb)
  end.
Proof.
  intros Hwf. revert s; induction fuel as [|fuel IH]; intros s Hs Hf; [lia|].
  pose proof (tail_count rb Hwf) as Ht. pose proof (count_bound rb Hwf) as Hcb.
  pose proof (wf_pos rb Hwf). pose proof (contents_length rb Hwf) as Hlen.
  assert (Hh : head rb < length (ring rb)) by apply Hwf.
  cbn [remove_loop].
  destruct (Nat.eqb_spec ((head rb + s) mod length (ring rb)) (tail rb)) as [E|E].
  { rewrite Ht in E. apply ring_inj in E; [|lia..].
    by rewrite drop_ge by lia. }
  assert (s < count rb) by (destruct (decide (s = count rb)); [congruence|lia]).
  destruct (lookup_lt_is_Some_2 (contents rb) s) as [v Hv]; [lia|].
  assert (Hv' : ring rb !! ((head rb + s) mod length (ring rb)) = Some v).
  { unfold contents in Hv. by rewrite window_lookup in Hv. }
  rewrite (index_ok _ _ _ Hv'). cbn [obind].
  rewrite (drop_S _ _ _ Hv). cbn [remove_first].
  rewrite !rem_nat_ok by done. cbn [obind]. rewrite ring_step by done.
  destruct (f v) eqn:Efv.
  - destruct (shift_loop_spec (S (length (ring rb))) (ring rb) (head rb) (count rb) s)
      as (r' & Hrun & Hl & Hlow & Hmid); [done|lia..|].
    rewrite <- Ht in Hrun. rewrite Hrun. cbn [obind].
    destruct (contents_mk r' (head rb) (count rb - 1)) as [Hwf' Hc']; [lia..|].
    rewrite Hl in Hwf', Hc'. eexists; split_and!; [done|done| |done].
    rewrite Hc'. by apply window_delete.
  - specialize (IH (S s)). destruct (remove_first f (drop (S s) _)) as [[y l]|].
    + destruct IH as (rb' & Hrun & Hwf' & Hc' & Hl'); [lia..|].
      eexists; split_and!; [done|done| |done].
      rewrite Hc', (take_S_r _ _ _ Hv), <- app_assoc. done.
    + apply IH; lia.
Qed.

Lemma remove_first_matching_spec rb f :
  wf rb ->
  match remove_first f (contents rb) with
  | None => remove_first_matching rb f = Ret (None, rb)
  | Some (x, l) =>
    exists rb', remove_first_matching rb f = Ret (Some x, rb') /\ wf rb' /\
      contents rb' = l /\ length (ring rb') = length (ring rb)
  end.
Proof.
  intros Hwf. pose proof (count_bound rb Hwf).
  pose proof (remove_loop_spec (S (length (ring rb))) rb f 0 Hwf) as H1.
  rewrite Nat.add_0_r, Nat.mod_small in H1 by apply Hwf. apply H1; lia.
Qed.

(** The retaining loop: [s] elements read, [d <= s] of them kept. *)
Lemma retain_loop_spec fuel (r : list A) f h k s d :
  h < length r -> k < length r -> d <= s -> s <= k -> k - s < fuel ->
  exists r' d', retain_loop fuel r f ((h + k) mod length r)
      ((h + s) mod length r) ((h + d) mod length r)
      = Ret (r', (h + d') mod length r) /\
    length r' = length r /\ d' < length r /\
    window r' h d' =
      window r h d ++ filter f (drop s (window r h k)).
Proof.
  revert r s d; induction fuel as [|fuel IH]; intros r s d Hh Hk Hd Hs Hf; [lia|].
  cbn [retain_loop].
  assert (Hb : forall i, (h + i) mod length r < length r)
    by (intros; apply Nat.mod_upper_bound; lia).
  assert (Hw : length (window r h k) = k) by by apply window_length.
  destruct (Nat.eqb_spec ((h + s) mod length r) ((h + k) mod length r)) as [E|E].
  { apply ring_inj in E; [|lia..]. exists r, d.
    split_and!; [done|done|lia|]. rewrite drop_ge by lia.
    by rewrite filter_nil, app_nil_r. }
  assert (s < k) by (destruct (decide (s = k)); [congruence|lia]).
  destruct (lookup_lt_is_Some_2 r _ (Hb s)) as [v Hv].
  assert (Hv' : window r h k !! s = Some v) by by rewrite window_lookup.
  rewrite (index_ok _ _ _ Hv), (drop_S _ _ _ Hv'). cbn [obind].
  destruct (f v) eqn:Efv.
  2: { cbn [obind]. rewrite rem_nat_ok by lia. cbn [obind].
       rewrite ring_step by lia. rewrite filter_cons_False by (rewrite Efv; auto).
       apply IH; lia. }
  rewrite filter_cons_True by (rewrite Efv; done).
  set (r1 := <[(h + d) mod length r := v]> r).
  assert (Hr1 : (if negb (Nat.eqb ((h + s) mod length r) ((h + d) mod length r))
      then set_index r ((h + d) mod length r) v else Ret r) = Ret r1).
  { destruct (Nat.eqb_spec ((h + s) mod length r) ((h + d) mod length r)) as [E2|];
      simpl; [|by rewrite set_index_ok].
    unfold r1. rewrite <- E2. by rewrite list_insert_id. }
  rewrite Hr1. cbn [obind]. assert (Hl : length r1 = length r) by apply length_insert.
  rewrite Hl, !rem_nat_ok by lia. cbn [obind].
  rewrite Hl, !rem_nat_ok by lia. cbn [obind]. rewrite !ring_step by lia.
  destruct (IH r1 (S s) (S d)) as (r' & d' & Hrun & Hl' & Hd' & Hwin); [lia..|].
  rewrite Hl in Hrun, Hl', Hd'. exists r', d'. split_and!; [done|done|done|].
  rewrite Hwin, (window_snoc r1 h d v); [|lia|].
  2: { rewrite Hl. unfold r1. by rewrite list_lookup_insert_eq. }
  rewrite <- app_assoc. f_equal.
  { unfold r1. by apply window_insert_out; lia. }
  simpl. do 2 f_equal. apply list_eq. intros i. rewrite !lookup_drop.
  destruct (decide (S s + i < k)).
  - rewrite !window_lookup, Hl by lia. unfold r1.
    rewrite list_lookup_insert_ne; [done|]. intros E3%ring_inj; lia.
  - rewrite !lookup_ge_None_2; [done|rewrite window_length; lia..].
Qed.

Lemma retain_spec rb f :
  wf rb ->
  exists rb', retain rb f = Ret rb' /\ wf rb' /\
    contents rb' = filter f (contents rb) /\
    length (ring rb') = length (ring rb).
Proof.
  intros Hwf. pose proof (count_bound rb Hwf). pose proof (tail_count rb Hwf) as Ht.
  assert (Hh : head rb < length (ring rb)) by apply Hwf.
  destruct (retain_loop_spec (S (length (ring rb))) (ring rb) f (head rb) (count rb) 0 0)
    as (r' & d' & Hrun & Hl & Hd & Hwin); [lia..|].
  rewrite <- Ht, Nat.add_0_r, Nat.mod_small in Hrun by done.
  unfold retain. rewrite Hrun. simpl.
  destruct (contents_mk r' (head rb) d') as [Hwf' Hc]; [lia..|].
  rewrite Hl in Hwf', Hc. eexists; split_and!; [done|done| |done].
  by rewrite Hc, Hwin.
Qed.

Lemma as_slices_concat rb :
  wf rb ->
  exists a b, as_slices rb = Ret (a, b) /\
    default [] a ++ default [] b = contents rb.
Proof.
  intros Hwf. pose proof (contents_length rb Hwf) as Hlen.
  pose proof (count_bound rb Hwf) as Hcb.
  assert (Hlook : forall i, i < count rb ->
    contents rb !! i = ring rb !! ((head rb + i) mod length (ring rb)))
    by (intros i Hi; apply window_lookup; [apply Hwf|done]).
  assert (Hadd : forall i, i < count rb -> (head rb + i) mod length (ring rb) =
     if Nat.ltb (head rb + i) (length (ring rb)) then head rb + i
     else head rb + i - length (ring rb))
    by (intros; apply ring_add; [apply Hwf|lia]).
  destruct Hwf as [Hh Ht]. unfold as_slices, count, slice, split_at in *.
  destruct (Nat.ltb_spec (head rb) (tail rb)).
  - rewrite (proj2 (Nat.leb_le _ _)) in * by lia.
    rewrite (proj2 (Nat.leb_le (tail rb) _)) by lia. simpl.
    eexists _, _; split; [done|]. simpl. rewrite app_nil_r.
    apply list_eq_same_length with (tail rb - head rb);
      [done|by rewrite length_take, length_drop; lia|].
    intros i x y Hi. rewrite lookup_take_lt, lookup_drop, Hlook, Hadd by lia.
    destruct (Nat.ltb_spec (head rb + i) (length (ring rb))); [congruence|lia].
  - destruct (Nat.ltb_spec (tail rb) (head rb)).
    + rewrite (proj2 (Nat.leb_gt _ _)) in * by lia.
      rewrite (proj2 (Nat.leb_le (head rb) _)) by lia. cbn [obind].
      assert (Hgoal : drop (head rb) (ring rb) ++ take (tail rb) (take (head rb) (ring rb))
                = contents rb).
      { apply list_eq_same_length with (length (ring rb) - head rb + tail rb);
          [done|by rewrite length_app, !length_take, length_drop; lia|].
        intros i x y Hi. rewrite Hlook, Hadd by lia.
        destruct (Nat.ltb_spec (head rb + i) (length (ring rb))).
        - rewrite lookup_app_l by (rewrite length_drop; lia).
          rewrite lookup_drop. congruence.
        - rewrite lookup_app_r by (rewrite length_drop; lia).
          rewrite length_drop, !lookup_take_lt by lia.
          replace (head rb + i - length (ring rb))
            with (i - (length (ring rb) - head rb)) by lia. congruence. }
      destruct (Nat.eqb_spec (tail rb) 0) as [E|E].
      * eexists _, _; split; [done|]. rewrite E in Hgoal. simpl in *. done.
      * rewrite length_take, (proj2 (Nat.leb_le (tail rb) _)) by lia. simpl.
        eexists _, _; split; [done|]. by rewrite Nat.sub_0_r.
    + eexists _, _; split; [done|]. simpl.
      destruct (Nat.leb_spec (head rb) (tail rb)); [|lia].
      destruct (contents rb); [done|]. simpl in Hlen. lia.
Qed.

(** * Refinement of a bounded FIFO *)

Inductive op :=
  | OpEnqueue (x : A)
  | OpPush (x : A)
  | OpDequeue
  | OpRemoveFirst (f : A -> bool)
  | OpRetain (f : A -> bool)
  | OpEmpty
  | OpLen.

Inductive reply :=
  | RBool (b : bool)
  | RElem (o : option A)
  | RNat (n : nat)
  | RUnit.

Definition step rb (o : op) : outcome (reply * RingBuffer A) :=
  match o with
  | OpEnqueue x => let! '(b, rb) := enqueue rb x in Ret (RBool b, rb)
  | OpPush x => let! '(e, rb) := push rb x in Ret (RElem e, rb)
  | OpDequeue => let! '(e, rb) := dequeue rb in Ret (RElem e, rb)
  | OpRemoveFirst f => let! '(e, rb) := remove_first_matching rb f in Ret (RElem e, rb)
  | OpRetain f => let! rb := retain rb f in Ret (RUnit, rb)
  | OpEmpty => Ret (RUnit, empty rb)
  | OpLen => let! n := len rb in Ret (RNat n, rb)
  end.

(** The specification: a list of at most [cap] elements. *)
Definition spec_step (cap : nat) (q : list A) (o : op) : reply * list A :=
  match o with
  | OpEnqueue x =>
    if Nat.eqb (length q) cap then (RBool false, q) else (RBool true, q ++ [x])
  | OpPush x =>
    if Nat.eqb (length q) cap then (RElem (hd_error q), tl q ++ [x])
    else (RElem None, q ++ [x])
  | OpDequeue => (RElem (hd_error q), tl q)
  | OpRemoveFirst f =>
    match remove_first f q with
    | Some (x, l) => (RElem (Some x), l)
    | None => (RElem None, q)
    end
  | OpRetain f => (RUnit, filter f q)
  | OpEmpty => (RUnit, [])
  | OpLen => (RNat (length q), q)
  end.

Fixpoint run rb (os : list op) : outcome (list reply * RingBuffer A) :=
  match os with
  | [] => Ret ([], rb)
  | o :: os =>
    let! '(r, rb) := step rb o in
    let! '(rs, rb) := run rb os in
    Ret (r :: rs, rb)
  end.

Fixpoint spec_run (cap : nat) (q : list A) (os : list op) : list reply * list A :=
  match os with
  | [] => ([], q)
  | o :: os =>
    let '(r, q) := spec_step cap q o in
    let '(rs, q) := spec_run cap q os in
    (r :: rs, q)
  end.

(** A ring over a slice of at least two elements: with a slice of one element
    the capacity is zero and [push] on the empty, full ring would return a
    stale element. *)
Definition usable rb : Prop := wf rb /\ 1 < length (ring rb).

Lemma step_refines rb o :
  usable rb ->
  exists r rb', step rb o = Ret (r, rb') /\ usable rb' /\
    spec_step (length (ring rb) - 1) (contents rb) o = (r, contents rb') /\
    length (ring rb') = length (ring rb).
Proof.
  intros [Hwf Hl].
  assert (Hcap : forall b, Nat.eqb (length (contents rb)) (length (ring rb) - 1) = b ->
     (b = true /\ S (length (contents rb)) = length (ring rb)) \/
     (b = false /\ S (length (contents rb)) <> length (ring rb))).
  { intros b <-. destruct (Nat.eqb_spec (length (contents rb)) (length (ring rb) - 1));
      [left|right]; (split; [done|lia]). }
  destruct o as [x|x| |f|f| |]; simpl.
  - destruct (Hcap _ eq_refl) as [[-> Hf]|[-> Hf]].
    + rewrite enqueue_full by done. eexists _, _; split_and!; done.
    + destruct (enqueue_space rb x Hwf Hf) as (rb' & -> & Hwf' & Hc' & Hl'). simpl.
      eexists _, rb'; split_and!; [done|split; [done|lia]|by rewrite Hc'|done].
  - destruct (Hcap _ eq_refl) as [[-> Hf]|[-> Hf]].
    + destruct (contents rb) as [|y q] eqn:Hc; [simpl in Hf; lia|].
      destruct (push_full rb x y q) as (rb' & -> & Hwf' & Hc' & Hl');
        [done|by rewrite Hc|done|].
      simpl. eexists _, rb'; split_and!; [done|split; [done|lia]|by rewrite Hc'|done].
    + destruct (push_space rb x Hwf Hf) as (rb' & -> & Hwf' & Hc' & Hl'). simpl.
      eexists _, rb'; split_and!; [done|split; [done|lia]|by rewrite Hc'|done].
  - destruct (contents rb) as [|y q] eqn:Hc.
    + rewrite dequeue_empty by done.
      eexists _, _; split_and!; [done|done|by rewrite Hc|done].
    + destruct (dequeue_cons rb y q Hwf Hc) as (rb' & -> & Hwf' & Hc' & Hr). simpl.
      eexists _, rb'; split_and!; [done|split; [done|by rewrite Hr]|by rewrite Hc'|by rewrite Hr].
  - pose proof (remove_first_matching_spec rb f Hwf) as Hr.
    destruct (remove_first f (contents rb)) as [[x l]|].
    + destruct Hr as (rb' & -> & Hwf' & <- & Hl'). simpl.
      eexists _, rb'; split_and!; [done|split; [done|lia]|done..].
    + rewrite Hr. eexists _, _; split_and!; done.
  - destruct (retain_spec rb f Hwf) as (rb' & -> & Hwf' & Hc' & Hl'). simpl.
    eexists _, rb'; split_and!; [done|split; [done|lia]|by rewrite Hc'|done].
  - eexists _, _; split_and!; [done|split; [by apply empty_wf|done]|done..].
  - rewrite len_spec by done. eexists _, _; split_and!; done.
Qed.

Lemma run_refines rb os :
  usable rb ->
  exists rs rb', run rb os = Ret (rs, rb') /\ usable rb' /\
    spec_run (length (ring rb) - 1) (contents rb) os = (rs, contents rb').
Proof.
  revert rb; induction os as [|o os IH]; intros rb Hu; simpl.
  - by eexists _, _.
  - destruct (step_refines rb o Hu) as (r & rb1 & -> & Hu1 & -> & Hl). simpl.
    destruct (IH rb1 Hu1) as (rs & rb2 & -> & Hu2 & Hs). simpl.
    rewrite Hl in Hs. rewrite Hs. by eexists _, _.
Qed.

(** The operations on a usable queue, one by one, as clients use them. *)
Lemma usable_enqueue rb x :
  usable rb ->
  exists ok rb', enqueue rb x = Ret (ok, rb') /\ usable rb' /\
    length (ring rb') = length (ring rb) /\
    if ok : bool then contents rb' = contents rb ++ [x]
    else contents rb' = contents rb /\ S (length (contents rb)) = length (ring rb).
Proof.
  intros [Hwf Hl]. destruct (decide (S (length (contents rb)) = length (ring rb))) as [Hf|Hf].
  - rewrite enqueue_full by done. by exists false, rb.
  - destruct (enqueue_space rb x Hwf Hf) as (rb' & -> & Hwf' & Hc' & Hl').
    exists true, rb'. split_and!; [done|split; [done|lia]|done..].
Qed.

Lemma usable_dequeue rb :
  usable rb ->
  exists rb', dequeue rb = Ret (hd_error (contents rb), rb') /\ usable rb' /\
    contents rb' = tl (contents rb).
Proof.
  intros [Hwf Hl]. destruct (contents rb) as [|y q] eqn:Hc.
  - rewrite dequeue_empty by done. by exists rb.
  - destruct (dequeue_cons rb y q Hwf Hc) as (rb' & -> & Hwf' & Hc' & Hr).
    exists rb'. split_and!; [done|split; [done|by rewrite Hr]|done].
Qed.

Lemma usable_remove_first rb f :
  usable rb ->
  exists rb', remove_first_matching rb f = Ret (fst <$> remove_first f (contents rb), rb') /\
    usable rb' /\
    contents rb' = match remove_first f (contents rb) with
                   | Some (_, l) => l
                   | None => contents rb
                   end.
Proof.
  intros [Hwf Hl]. pose proof (remove_first_matching_spec rb f Hwf) as Hr.
  destruct (remove_first f (contents rb)) as [[x l]|].
  - destruct Hr as (rb' & -> & Hwf' & <- & Hl'). exists rb'.
    split_and!; [done|split; [done|lia]|done].
  - rewrite Hr. by exists rb.
Qed.

Lemma usable_retain rb f :
  usable rb ->
  exists rb', retain rb f = Ret rb' /\ usable rb' /\
    contents rb' = filter f (contents rb).
Proof.
  intros [Hwf Hl]. destruct (retain_spec rb f Hwf) as (rb' & -> & Hwf' & Hc' & Hl').
  exists rb'. split_and!; [done|split; [done|lia]|done].
Qed.

Lemma usable_empty rb : usable rb -> usable (empty rb).
Proof. intros [? ?]. split; [by apply empty_wf|done]. Qed.

Lemma usable_new (l : list A) : 1 < length l -> usable (new l).
Proof. intros Hl. split; [apply new_wf; lia|done]. Qed.

End correctness.
Arguments op A : clear implicits.
Arguments reply A : clear implicits.

(** C32: any sequence of queue operations on a ring buffer over a slice of [n >= 2]
    slots runs without panicking and without exhausting the loops' fuel, and
    returns exactly the replies of a FIFO list bounded by [n - 1] elements. *)
Theorem ring_refines_fifo {A} (rb : RingBuffer A) (os : list (op A)) :
  usable rb ->
  exists rs rb', run rb os = Ret (rs, rb') /\ usable rb' /\
    spec_run (length (ring rb) - 1) (contents rb) os = (rs, contents rb').
Proof. apply run_refines. Qed.

Lemma ring_refines_fifo_witness :
  exists rs rb',
    run (mkRing [10; 11; 12; 13] 2 1)
      [OpLen; OpPush 7; OpDequeue; OpEnqueue 8; OpRetain Nat.even;
       OpRemoveFirst (Nat.eqb 8)] = Ret (rs, rb') /\ usable rb' /\
    spec_run 3 [12; 13; 10]
      [OpLen; OpPush 7; OpDequeue; OpEnqueue 8; OpRetain Nat.even;
       OpRemoveFirst (Nat.eqb 8)] = (rs, contents rb').
Proof.
  apply (ring_refines_fifo (mkRing [10; 11; 12; 13] 2 1)).
  unfold usable, wf; simpl; lia.
Defined.

(** The slices returned by [as_slices] concatenate to the queue's contents,
    oldest element first, whether or not the contents wrap around the end of
    the underlying slice. *)
Theorem as_slices_contents {A} (rb : RingBuffer A) :
  wf rb ->
  exists a b, as_slices rb = Ret (a, b) /\
    default [] a ++ default [] b = contents rb.
Proof. apply as_slices_concat. Qed.

Lemma as_slices_contents_witness :
  exists a b, as_slices (mkRing [10; 11; 12; 13] 2 1) = Ret (a, b) /\
    default [] a ++ default [] b = [12; 13; 10].
Proof.
  apply (as_slices_contents (mkRing [10; 11; 12; 13] 2 1)).
  unfold wf; simpl; lia.
Defined.
End Ring.
