(* ===== verification/LinkedList.v ===== *)
(** Intrusive linked lists ([kernel/src/collections/list.rs]).

    A node keeps its own link cell, so a list is a head and the links of all
    nodes.  [LinkedList.chain] says which nodes are on a list; the operations
    refine functional lists as long as a node is only pushed when it is not on
    the list already. *)

From stdpp Require Import base numbers list gmap.
From S2P Require Import Prelude.

Module LinkedList.

(** A node is a number; [links] maps a node to the contents of its link cell. *)
Record LList := mkList { head_link : option nat; links : gmap nat nat }.

Definition new : LList := mkList None ∅.

Definition head (l : LList) : option nat := head_link l.

Definition push_head (l : LList) (node : nat) : LList :=
  mkList (Some node) (partial_alter (fun _ => head_link l) node (links l)).

(** [ListIterator], [fuel] steps of it. *)
Fixpoint iter_from (fuel : nat) (next : gmap nat nat) (cur : option nat) : outcome (list nat) :=
  match cur with
  | None => Ret []
  | Some res =>
    match fuel with
    | O => Diverge
    | S fuel => let! rest := iter_from fuel next (next !! res) in Ret (res :: rest)
    end
  end.
(** A walk that visits more nodes than have a link goes round in a circle. *)
Definition iter (l : LList) : outcome (list nat) :=
  iter_from (S (size (links l))) (links l) (head_link l).

Definition push_tail (l : LList) (node : nat) : outcome LList :=
  let l := mkList (head_link l) (delete node (links l)) in
  let! nodes := iter l in
  match last nodes with
  | Some last => Ret (mkList (head_link l) (<[last := node]> (links l)))
  | None => Ret (push_head l node)
  end.

Definition pop_head (l : LList) : option nat * LList :=
  let remove := head_link l in
  match remove with
  | Some node => (remove, mkList (links l !! node) (links l))
  | None => (remove, mkList None (links l))
  end.

(** * Refinement to functional lists *)

(** Following the links from [cur] visits exactly [ns]. *)
Fixpoint chain (next : gmap nat nat) (cur : option nat) (ns : list nat) : Prop :=
  match ns with
  | [] => cur = None
  | n :: ns => cur = Some n /\ chain next (next !! n) ns
  end.

Definition represents (l : LList) (ns : list nat) : Prop :=
  NoDup ns /\ chain (links l) (head_link l) ns.

Lemma chain_agree next next' cur ns :
  (forall n, n ∈ ns -> next' !! n = next !! n) -> chain next cur ns -> chain next' cur ns.
Proof.
  revert cur. induction ns as [|n ns IH]; intros cur Ha; cbn; [done|].
  intros [-> Hc]. split; [done|]. rewrite Ha by set_solver. apply IH; [set_solver|done].
Qed.

(** Every node but the last of a chain has a link. *)
Lemma chain_linked next cur ns n x :
  chain next cur (ns ++ [n]) -> x ∈ ns -> is_Some (next !! x).
Proof.
  revert cur. induction ns as [|y ns IH]; intros cur; cbn; [set_solver|].
  intros [-> Hc]. rewrite elem_of_cons. intros [-> | Hin]; [|by eapply IH].
  destruct ns as [|z ns]; cbn in Hc; destruct Hc as [-> _]; by eexists.
Qed.

Lemma chain_length next cur ns : NoDup ns -> chain next cur ns -> length ns <= S (size next).
Proof.
  intros Hnd Hc. destruct ns as [|n ns _] using rev_ind; [cbn; lia|].
  rewrite length_app. cbn. rewrite Nat.add_1_r. apply le_n_S.
  apply NoDup_app in Hnd as (Hnd & _ & _). rewrite <- (size_list_to_set (C := gset nat) ns Hnd).
  rewrite <- size_dom. apply subseteq_size. intros x Hx%elem_of_list_to_set.
  apply elem_of_dom. by eapply chain_linked.
Qed.

Lemma iter_from_chain fuel next cur ns :
  chain next cur ns -> length ns <= fuel -> iter_from fuel next cur = Ret ns.
Proof.
  revert fuel cur. induction ns as [|n ns IH]; intros fuel cur; cbn; [by intros -> _; destruct fuel|].
  intros [-> Hc] Hl. destruct fuel as [|fuel]; [lia|]. cbn. rewrite IH by (done || lia). done.
Qed.

Lemma iter_represents l ns : represents l ns -> iter l = Ret ns.
Proof.
  intros [Hnd Hc]. apply iter_from_chain; [done|]. by apply (chain_length _ (head_link l)).
Qed.

Lemma head_represents l ns : represents l ns -> head l = List.hd_error ns.
Proof. intros [_ Hc]. destruct ns; cbn in *; [done|]. by destruct Hc. Qed.

Lemma push_head_represents l ns n :
  represents l ns -> n ∉ ns -> represents (push_head l n) (n :: ns).
Proof.
  intros [Hnd Hc] Hn. split; [by constructor|]. cbn. split; [done|].
  rewrite lookup_partial_alter_eq. apply (chain_agree (links l)); [|done].
  intros x Hx. apply lookup_partial_alter_ne. set_solver.
Qed.

Lemma chain_append next cur ns n m :
  NoDup (ns ++ [n]) -> m ∉ ns ++ [n] -> next !! m = None ->
  chain next cur (ns ++ [n]) -> chain (<[n := m]> next) cur (ns ++ [n; m]).
Proof.
  revert cur. induction ns as [|x ns IH]; intros cur Hnd Hm Hnone; cbn.
  - intros [-> Hc]. rewrite lookup_insert_eq. split; [done|]. split; [done|].
    rewrite lookup_insert_ne by set_solver. done.
  - intros [-> Hc]. apply NoDup_cons in Hnd as [Hx Hnd].
    rewrite lookup_insert_ne by set_solver. split; [done|]. apply IH; [done|set_solver|done|done].
Qed.

Lemma push_tail_represents l ns n :
  represents l ns -> n ∉ ns -> exists l', push_tail l n = Ret l' /\ represents l' (ns ++ [n]).
Proof.
  intros [Hnd Hc] Hn. unfold push_tail.
  set (l0 := mkList (head_link l) (delete n (links l))).
  assert (Hr0 : represents l0 ns).
  { split; [done|]. apply (chain_agree (links l)); [|done].
    intros x Hx. apply lookup_delete_ne. set_solver. }
  rewrite (iter_represents l0 ns Hr0). cbn [obind].
  destruct ns as [|x ns _] using rev_ind.
  - cbn. eexists; split; [done|]. by apply push_head_represents.
  - rewrite last_snoc. eexists; split; [done|]. destruct Hr0 as [_ Hc0]. split.
    + rewrite NoDup_app. split; [done|]. split; [|by apply NoDup_singleton]. set_solver.
    + rewrite <- app_assoc. cbn [app links head_link].
      apply chain_append; [done|done|apply lookup_delete_eq|done].
Qed.

Lemma pop_head_represents l ns :
  represents l ns ->
  exists l', pop_head l = (List.hd_error ns, l') /\ represents l' (tail ns).
Proof.
  intros [Hnd Hc]. unfold pop_head. destruct ns as [|n ns]; cbn in *.
  - rewrite Hc. eexists; split; [done|]. by split.
  - destruct Hc as [-> Hc]. eexists; split; [done|]. split; [by apply NoDup_cons in Hnd as [_ ?]|done].
Qed.

(** * Sequences of operations *)

Inductive op := OPushHead (n : nat) | OPushTail (n : nat) | OPopHead | OHead | OIter.
Inductive reply := RUnit | RNode (n : option nat) | RNodes (ns : list nat).

Definition exec_op (o : op) (l : LList) : outcome (reply * LList) :=
  match o with
  | OPushHead n => Ret (RUnit, push_head l n)
  | OPushTail n => let! l := push_tail l n in Ret (RUnit, l)
  | OPopHead => let '(n, l) := pop_head l in Ret (RNode n, l)
  | OHead => Ret (RNode (head l), l)
  | OIter => let! ns := iter l in Ret (RNodes ns, l)
  end.
Fixpoint exec (ops : list op) (l : LList) : outcome (list reply * LList) :=
  match ops with
  | [] => Ret ([], l)
  | o :: ops =>
    let! '(r, l) := exec_op o l in
    let! '(rs, l) := exec ops l in
    Ret (r :: rs, l)
  end.

Definition spec_op (o : op) (ns : list nat) : reply * list nat :=
  match o with
  | OPushHead n => (RUnit, n :: ns)
  | OPushTail n => (RUnit, ns ++ [n])
  | OPopHead => (RNode (List.hd_error ns), tail ns)
  | OHead => (RNode (List.hd_error ns), ns)
  | OIter => (RNodes ns, ns)
  end.
Fixpoint spec_ops (ops : list op) (ns : list nat) : list reply * list nat :=
  match ops with
  | [] => ([], ns)
  | o :: ops =>
    let '(r, ns) := spec_op o ns in
    let '(rs, ns) := spec_ops ops ns in
    (r :: rs, ns)
  end.

(** No node is pushed while it is on the list. *)
Fixpoint fresh_pushes (ops : list op) (ns : list nat) : bool :=
  match ops with
  | [] => true
  | o :: ops =>
    match o with
    | OPushHead n | OPushTail n => bool_decide (n ∉ ns)
    | _ => true
    end && fresh_pushes ops (spec_op o ns).2
  end.

(** An intrusive list behaves as the functional list of its nodes: every
    sequence of operations that never pushes a node already on the list returns,
    without walking in a circle, the replies of the functional list, and leaves
    the links of the resulting list. *)
Theorem list_refines (ops : list op) l ns :
  represents l ns -> fresh_pushes ops ns = true ->
  exists l', exec ops l = Ret ((spec_ops ops ns).1, l') /\ represents l' (spec_ops ops ns).2.
Proof.
  revert l ns. induction ops as [|o ops IH]; intros l ns Hr Hf; [by exists l|].
  cbn in Hf. apply andb_true_iff in Hf as [Ho Hf].
  assert (Hstep : exists l1, exec_op o l = Ret ((spec_op o ns).1, l1) /\
    represents l1 (spec_op o ns).2).
  { destruct o as [n|n| | |]; cbn [exec_op spec_op fst snd] in *.
    - apply bool_decide_eq_true in Ho. eexists; split; [done|]. by apply push_head_represents.
    - apply bool_decide_eq_true in Ho. destruct (push_tail_represents l ns n Hr Ho) as (l1 & -> & ?).
      by exists l1.
    - destruct (pop_head_represents l ns Hr) as (l1 & -> & ?). by exists l1.
    - exists l. by rewrite (head_represents l ns Hr).
    - exists l. by rewrite (iter_represents l ns Hr). }
  destruct Hstep as (l1 & E1 & Hr1). destruct (IH l1 _ Hr1 Hf) as (l2 & E2 & Hr2).
  exists l2. cbn [exec spec_ops]. rewrite E1. cbn [obind]. rewrite E2. cbn [obind].
  destruct (spec_op o ns) as [r ns1]. cbn [fst snd] in *.
  by destruct (spec_ops ops ns1).
Qed.

Lemma list_refines_witness :
  let ops := [OPushTail 1; OPushTail 2; OPushHead 3; OPopHead; OPushTail 3; OIter] in
  exists l', exec ops new = Ret ([RUnit; RUnit; RUnit; RNode (Some 3); RUnit; RNodes [1; 2; 3]], l') /\
    represents l' [1; 2; 3].
Proof.
  apply (list_refines [OPushTail 1; OPushTail 2; OPushHead 3; OPopHead; OPushTail 3; OIter] new []).
  - split; [apply NoDup_nil_2|reflexivity].
  - reflexivity.
Defined.

End LinkedList.
