(* ===== verification/Math.v ===== *)
(** Integer helpers of the kernel ([kernel/src/utilities/math.rs]): rounding up
    to a power of two, integer logarithms and the [PowerOfTwo] wrapper.  The
    Cortex-M MPU driver sizes its regions with them.

    The floating-point helpers of the same file (the [log10] approximation) are
    not modelled. *)

From stdpp Require Import base numbers.
From S2P Require Import Prelude.
Local Open Scope Z_scope.

Module Math.

Definition closest_power_of_two (num : Z) : outcome Z :=
  let! num := sub32 num 1 in
  let num := Z.lor num (Z.shiftr num 1) in
  let num := Z.lor num (Z.shiftr num 2) in
  let num := Z.lor num (Z.shiftr num 4) in
  let num := Z.lor num (Z.shiftr num 8) in
  let num := Z.lor num (Z.shiftr num 16) in
  add32 num 1.

(** [u32::leading_zeros] and [u64::leading_zeros]. *)
Definition leading_zeros32 (num : Z) : Z :=
  if num =? 0 then 32 else 31 - Z.log2 num.
Definition leading_zeros64 (num : Z) : Z :=
  if num =? 0 then 64 else 63 - Z.log2 num.

Definition log_base_two (num : Z) : outcome Z :=
  if num =? 0 then Ret 0 else sub32 31 (leading_zeros32 num).

Definition log_base_two_u64 (num : Z) : outcome Z :=
  if num =? 0 then Ret 0 else sub32 63 (leading_zeros64 num).

Record PowerOfTwo := mkPowerOfTwo { pow_exp : Z }.

Definition exp (p : PowerOfTwo) : Z := pow_exp p.

Definition floor (f : Z) : outcome PowerOfTwo :=
  let! e := log_base_two f in Ret (mkPowerOfTwo e).

Definition ceiling (f : Z) : outcome PowerOfTwo :=
  let! c := closest_power_of_two f in
  let! e := log_base_two c in
  Ret (mkPowerOfTwo e).

Definition zero : PowerOfTwo := mkPowerOfTwo 0.

(** [1 << self.0] on [u32] panics when the shift amount is 32 or more. *)
Definition as_num (p : PowerOfTwo) : outcome Z :=
  if pow_exp p <? 32 then Ret (Z.shiftl 1 (pow_exp p)) else Panic.

(** * Smearing the top bit downwards *)

(** The bits above [L] are clear and the [w] bits up to [L] are set. *)
Definition smeared (n L w : Z) : Prop :=
  (forall i, L < i -> Z.testbit n i = false) /\
  (forall i, 0 <= i -> L - w < i <= L -> Z.testbit n i = true).

Lemma smear_step n L w :
  0 < w -> smeared n L w -> smeared (Z.lor n (Z.shiftr n w)) L (2 * w).
Proof.
  intros Hw [Hhi Hlo]. split; intros i Hi.
  - destruct (decide (0 <= i)).
    + rewrite Z.lor_spec, Z.shiftr_spec, !Hhi by lia. done.
    + by rewrite Z.testbit_neg_r by lia.
  - intros HiL. rewrite Z.lor_spec, Z.shiftr_spec by lia.
    destruct (decide (L - w < i)).
    + by rewrite Hlo by lia.
    + rewrite (Hlo (i + w)) by lia. apply orb_true_r.
Qed.

Lemma smeared_init n : 0 < n -> smeared n (Z.log2 n) 1.
Proof.
  intros Hn. split; intros i Hi.
  - by apply Z.bits_above_log2; lia.
  - intros ?. replace i with (Z.log2 n) by lia. by apply Z.bit_log2.
Qed.

Lemma smeared_ones n L w :
  0 <= n -> -1 <= L -> L < w -> smeared n L w -> n = Z.ones (L + 1).
Proof.
  intros Hn HL Hw [Hhi Hlo]. apply Z.bits_inj'. intros i Hi.
  rewrite Z.testbit_ones_nonneg by lia.
  destruct (Z.ltb_spec i (L + 1)); [apply Hlo|apply Hhi]; lia.
Qed.

Lemma closest_power_of_two_smear n :
  0 < n < U32 ->
  let m := Z.lor n (Z.shiftr n 1) in
  let m := Z.lor m (Z.shiftr m 2) in
  let m := Z.lor m (Z.shiftr m 4) in
  let m := Z.lor m (Z.shiftr m 8) in
  Z.lor m (Z.shiftr m 16) = Z.ones (Z.log2 n + 1).
Proof.
  intros [Hn Hu] m1 m2 m3 m4.
  assert (Z.log2 n < 32) by (apply Z.log2_lt_pow2; [lia|exact Hu]).
  pose proof (Z.log2_nonneg n).
  apply (smeared_ones _ _ 32); [|lia|lia|].
  - unfold m4, m3, m2, m1.
    repeat first [apply Z.lor_nonneg; split | apply Z.shiftr_nonneg]; lia.
  - apply (smear_step m4 _ 16); [lia|]. apply (smear_step m3 _ 8); [lia|].
    apply (smear_step m2 _ 4); [lia|]. apply (smear_step m1 _ 2); [lia|].
    apply (smear_step n _ 1); [lia|]. by apply smeared_init.
Qed.

Lemma log2_up_pred n : 1 < n -> Z.log2_up n = Z.log2 (n - 1) + 1.
Proof. intros H. rewrite Z.log2_up_eqn, Z.sub_1_r by done. lia. Qed.

Lemma closest_power_of_two_ok num :
  1 <= num <= 2 ^ 31 -> closest_power_of_two num = Ret (2 ^ Z.log2_up num).
Proof.
  intros Hnum. unfold closest_power_of_two, sub32.
  rewrite checked32_ok by (unfold u32_range, U32; lia). cbn [obind].
  destruct (decide (num = 1)) as [->|Hne]; [reflexivity|].
  rewrite closest_power_of_two_smear by (unfold U32; lia).
  unfold add32. rewrite log2_up_pred by lia.
  assert (Z.log2 (num - 1) < 31) by (apply Z.log2_lt_pow2; lia).
  pose proof (Z.log2_nonneg (num - 1)).
  rewrite Z.ones_equiv. replace (Z.pred _ + 1) with (2 ^ (Z.log2 (num - 1) + 1)) by lia.
  apply checked32_ok. split; [lia|].
  apply Z.pow_lt_mono_r; lia.
Qed.

Lemma closest_power_of_two_panics num :
  u32_range num -> num = 0 \/ 2 ^ 31 < num -> closest_power_of_two num = Panic.
Proof.
  intros [Hl Hu] [->|Hbig]; [reflexivity|].
  unfold closest_power_of_two, sub32.
  rewrite checked32_ok by (unfold u32_range, U32 in *; lia). cbn [obind].
  rewrite closest_power_of_two_smear by lia.
  assert (Z.log2 (num - 1) = 31) as ->.
  { apply Z.log2_unique; [lia|]. unfold U32 in Hu. split; [lia|]. simpl. lia. }
  reflexivity.
Qed.

Lemma log_base_two_ok num : u32_range num -> log_base_two num = Ret (Z.log2 num).
Proof.
  intros [Hl Hu]. unfold log_base_two, leading_zeros32.
  destruct (Z.eqb_spec num 0) as [->|]; [done|].
  assert (Z.log2 num < 32) by (apply Z.log2_lt_pow2; [lia|exact Hu]).
  pose proof (Z.log2_nonneg num). unfold sub32.
  rewrite checked32_ok; [f_equal; lia|unfold u32_range, U32; lia].
Qed.

Lemma log_base_two_u64_ok num :
  u64_range num -> log_base_two_u64 num = Ret (Z.log2 num).
Proof.
  intros [Hl Hu]. unfold log_base_two_u64, leading_zeros64.
  destruct (Z.eqb_spec num 0) as [->|]; [done|].
  assert (Z.log2 num < 64) by (apply Z.log2_lt_pow2; [lia|exact Hu]).
  pose proof (Z.log2_nonneg num). unfold sub32.
  rewrite checked32_ok; [f_equal; lia|unfold u32_range, U32; lia].
Qed.

Lemma as_num_ok e : 0 <= e < 32 -> as_num (mkPowerOfTwo e) = Ret (2 ^ e).
Proof.
  intros He. unfold as_num. cbn [pow_exp].
  rewrite (proj2 (Z.ltb_lt _ _)) by lia. by rewrite Z.shiftl_1_l.
Qed.

(** What the MPU driver needs of the rounding: a power of two, not smaller than
    the argument and less than twice as large. *)
Lemma log2_up_bounds num :
  1 <= num -> num <= 2 ^ Z.log2_up num < 2 * num.
Proof.
  intros Hn. destruct (decide (num = 1)) as [->|]; [done|].
  pose proof (Z.log2_up_spec num) as Hs. pose proof (Z.log2_up_pos num).
  assert (2 ^ Z.log2_up num = 2 * 2 ^ Z.pred (Z.log2_up num)) as Hp.
  { rewrite <- Z.pow_succ_r by lia. f_equal. lia. }
  lia.
Qed.

(** [closest_power_of_two] returns the least power of two that is not below
    its argument when the argument is between 1 and 2^31, and overflows (panics
    in the checked profile) for every other [u32]. *)
Theorem closest_power_of_two_correct num :
  u32_range num ->
  (1 <= num <= 2 ^ 31 /\
   exists k, closest_power_of_two num = Ret (2 ^ k) /\ 0 <= k /\
     num <= 2 ^ k /\ forall j, 0 <= j -> num <= 2 ^ j -> 2 ^ k <= 2 ^ j) \/
  (~ 1 <= num <= 2 ^ 31 /\ closest_power_of_two num = Panic).
Proof.
  intros Hr. destruct (decide (1 <= num <= 2 ^ 31)) as [Hn|Hn].
  - left. split; [done|]. exists (Z.log2_up num).
    split_and!; [by apply closest_power_of_two_ok|apply Z.log2_up_nonneg|
      apply log2_up_bounds; lia|].
    intros j Hj Hle. apply Z.pow_le_mono_r; [lia|].
    rewrite <- (Z.log2_up_pow2 j) by done. by apply Z.log2_up_le_mono.
  - right. split; [done|]. apply closest_power_of_two_panics; [done|].
    unfold u32_range in Hr. lia.
Qed.

Lemma closest_power_of_two_correct_witness :
  (1 <= 1000 <= 2 ^ 31 /\
   exists k, closest_power_of_two 1000 = Ret (2 ^ k) /\ 0 <= k /\
     1000 <= 2 ^ k /\ forall j, 0 <= j -> 1000 <= 2 ^ j -> 2 ^ k <= 2 ^ j) \/
  (~ 1 <= 1000 <= 2 ^ 31 /\ closest_power_of_two 1000 = Panic).
Proof.
  apply (closest_power_of_two_correct 1000). unfold u32_range, U32; lia.
Defined.

Lemma power_of_two_bracket_aux num :
  1 <= num <= 2 ^ 31 ->
  exists lo hi plo phi, floor num = Ret lo /\ ceiling num = Ret hi /\
    as_num lo = Ret plo /\ as_num hi = Ret phi /\
    plo <= num <= phi /\ phi < 2 * num /\ num < 2 * plo.
Proof.
  intros Hn. pose proof (log2_up_bounds num ltac:(lia)) as Hup.
  assert (Z.log2_up num <= 31).
  { rewrite <- (Z.log2_up_pow2 31) by lia. apply Z.log2_up_le_mono; lia. }
  pose proof (Z.log2_up_nonneg num). pose proof (Z.log2_nonneg num).
  pose proof (Z.log2_spec num ltac:(lia)) as Hlo.
  rewrite Z.pow_succ_r in Hlo by lia.
  assert (Z.log2 num < 32) by (apply Z.log2_lt_pow2; lia).
  unfold floor, ceiling. rewrite closest_power_of_two_ok by done. cbn [obind].
  rewrite !log_base_two_ok; cbn [obind].
  - rewrite Z.log2_pow2 by lia. eexists _, _, (2 ^ Z.log2 num), (2 ^ Z.log2_up num).
    split_and!; try done; try (apply as_num_ok; lia); lia.
  - split; [lia|]. apply Z.pow_lt_mono_r; lia.
  - unfold u32_range, U32. lia.
Qed.

(** [PowerOfTwo::floor] and [PowerOfTwo::ceiling] bracket their argument: the
    floor's value is the largest power of two not above it, the ceiling's the
    smallest not below it. *)
Theorem power_of_two_bracket num :
  1 <= num <= 2 ^ 31 ->
  exists lo hi plo phi, floor num = Ret lo /\ ceiling num = Ret hi /\
    as_num lo = Ret plo /\ as_num hi = Ret phi /\
    plo <= num <= phi /\ phi < 2 * num /\ num < 2 * plo.
Proof. apply power_of_two_bracket_aux. Qed.

Lemma power_of_two_bracket_witness :
  exists lo hi plo phi, floor 1000 = Ret lo /\ ceiling 1000 = Ret hi /\
    as_num lo = Ret plo /\ as_num hi = Ret phi /\
    plo <= 1000 <= phi /\ phi < 2 * 1000 /\ 1000 < 2 * plo.
Proof. apply (power_of_two_bracket 1000); lia. Defined.

End Math.
