(* ===== verification/Registers.v ===== *)
(** Register bit fields ([libraries/tock-register-interface]): [Field],
    [FieldValue] and [LocalRegisterCopy] at an arbitrary register width, with
    the laws that drivers rely on: a field reads back what was written to it,
    and writing one field leaves the disjoint ones alone. *)

From Stdlib Require Import Btauto.
From stdpp Require Import base numbers list.
From S2P Require Import Prelude.
Local Open Scope Z_scope.

Module Reg.

Section width.
  (** Width in bits of the register's integer type. *)
  Context (w : Z).

(** [x << n] on a [w]-bit integer drops the bits shifted out. *)
Definition shl (x n : Z) : Z := Z.land (Z.shiftl x n) (Z.ones w).
Definition bnot (x : Z) : Z := Z.land (Z.lnot x) (Z.ones w).

Record Field := mkField { mask : Z; shift : Z }.

Definition field_read (f : Field) (val : Z) : Z :=
  Z.shiftr (Z.land val (shl (mask f) (shift f))) (shift f).

Definition field_is_set (f : Field) (val : Z) : bool :=
  negb (Z.land val (shl (mask f) (shift f)) =? 0).

Record FieldValue := mkFieldValue { fv_mask : Z; fv_value : Z }.

Definition fv_new (mask shift value : Z) : FieldValue :=
  mkFieldValue (shl mask shift) (shl (Z.land value mask) shift).

Definition field_val (f : Field) (value : Z) : FieldValue :=
  fv_new (mask f) (shift f) value.

Definition fv_none : FieldValue := mkFieldValue 0 0.

Definition fv_read (fv : FieldValue) (f : Field) : Z := field_read f (fv_value fv).

Definition fv_modify (fv : FieldValue) (val : Z) : Z :=
  Z.lor (Z.land val (bnot (fv_mask fv))) (fv_value fv).

Definition fv_any_matching_bits_set (fv : FieldValue) (val : Z) : bool :=
  negb (Z.land (Z.land val (fv_mask fv)) (fv_value fv) =? 0).

Definition fv_matches_all (fv : FieldValue) (val : Z) : bool :=
  Z.land val (fv_mask fv) =? fv_value fv.

Definition fv_add (a b : FieldValue) : FieldValue :=
  mkFieldValue (Z.lor (fv_mask a) (fv_mask b)) (Z.lor (fv_value a) (fv_value b)).

(** The [bitmask!] macro and the constants that [register_bitmasks!] declares
    for a field [OFFSET(offset) NUMBITS(numbits)]. *)
Definition bitmask (numbits : Z) : Z :=
  Z.shiftl 1 (numbits - 1) + (Z.shiftl 1 (numbits - 1) - 1).
Definition register_field (offset numbits : Z) : Field :=
  mkField (bitmask numbits) offset.
Definition register_value (offset numbits value : Z) : FieldValue :=
  fv_new (bitmask numbits) offset value.
Definition register_SET (offset numbits : Z) : FieldValue :=
  fv_new (bitmask numbits) offset (bitmask numbits).
Definition register_CLEAR (offset numbits : Z) : FieldValue :=
  fv_new (bitmask numbits) offset 0.

Record LocalRegisterCopy := mkLocal { reg_value : Z }.

Definition reg_get (r : LocalRegisterCopy) : Z := reg_value r.
Definition reg_set (r : LocalRegisterCopy) (value : Z) : LocalRegisterCopy :=
  mkLocal value.
Definition reg_read (r : LocalRegisterCopy) (f : Field) : Z :=
  field_read f (reg_get r).
Definition reg_write (r : LocalRegisterCopy) (fv : FieldValue) : LocalRegisterCopy :=
  reg_set r (fv_value fv).
Definition reg_modify (r : LocalRegisterCopy) (fv : FieldValue) : LocalRegisterCopy :=
  reg_set r (fv_modify fv (reg_get r)).
Definition reg_is_set (r : LocalRegisterCopy) (f : Field) : bool :=
  field_is_set f (reg_get r).
Definition reg_matches_all (r : LocalRegisterCopy) (fv : FieldValue) : bool :=
  fv_matches_all fv (reg_get r).
Definition reg_any_matching_bits_set (r : LocalRegisterCopy) (fv : FieldValue) : bool :=
  fv_any_matching_bits_set fv (reg_get r).
Definition reg_matches_any (r : LocalRegisterCopy) (fvs : list FieldValue) : bool :=
  existsb (fun fv => Z.land (reg_get r) (fv_mask fv) =? fv_value fv) fvs.
Definition reg_bitand (r : LocalRegisterCopy) (rhs : Z) : LocalRegisterCopy :=
  mkLocal (Z.land (reg_value r) rhs).

End width.

(** * Bit-level laws *)

Section laws.
  Context (w : Z) (Hw : 0 <= w).

(** A field of [n] bits at offset [o] that fits the register. *)
Definition is_field (f : Field) (o n : Z) : Prop :=
  mask f = Z.ones n /\ shift f = o /\ 0 <= o /\ 0 < n /\ o + n <= w.

(** Two fields occupy disjoint bit ranges. *)
Definition disjoint (o n o' n' : Z) : Prop := o + n <= o' \/ o' + n' <= o.

Lemma bitmask_ones n : 0 < n -> bitmask n = Z.ones n.
Proof using.
  intros Hn. unfold bitmask. rewrite Z.shiftl_1_l, Z.ones_equiv.
  replace (2 ^ n) with (2 * 2 ^ (n - 1)); [lia|].
  rewrite <- Z.pow_succ_r by lia. f_equal. lia.
Qed.

Lemma register_field_is_field o n :
  0 <= o -> 0 < n -> o + n <= w -> is_field (register_field o n) o n.
Proof using. intros. unfold is_field. simpl. by rewrite bitmask_ones. Qed.

Lemma shl_testbit x o i :
  0 <= i ->
  Z.testbit (shl w x o) i = (i <? w) && Z.testbit x (i - o).
Proof using Hw.
  intros Hi. unfold shl. rewrite Z.land_spec, Z.shiftl_spec by done.
  rewrite Z.testbit_ones_nonneg by lia. apply andb_comm.
Qed.

Lemma bnot_testbit x i :
  0 <= i -> Z.testbit (bnot w x) i = (i <? w) && negb (Z.testbit x i).
Proof using Hw.
  intros Hi. unfold bnot. rewrite Z.land_spec, Z.lnot_spec by done.
  rewrite Z.testbit_ones_nonneg by lia. apply andb_comm.
Qed.

Lemma ones_testbit n i : 0 <= n -> Z.testbit (Z.ones n) i = (0 <=? i) && (i <? n).
Proof using. intros Hn. by apply Z.testbit_ones. Qed.

(** Reading a field extracts its bits. *)
Lemma field_read_testbit f o n x i :
  is_field f o n -> 0 <= i ->
  Z.testbit (field_read w f x) i = (i <? n) && Z.testbit x (i + o).
Proof using Hw.
  intros (Hm & Hs & Ho & Hn & Hfit) Hi. unfold field_read.
  rewrite Z.shiftr_spec, Z.land_spec, shl_testbit, Hm, Hs, ones_testbit by lia.
  replace (i + o - o) with i by lia.
  destruct (Z.leb_spec 0 i), (Z.ltb_spec i n), (Z.ltb_spec (i + o) w);
    try lia; simpl; btauto.
Qed.

(** The value part of [field.val(v)] carries [v]'s low bits at the offset. *)
Lemma field_val_testbit f o n v i :
  is_field f o n -> 0 <= i ->
  Z.testbit (fv_value (field_val w f v)) i =
    (o <=? i) && (i <? o + n) && Z.testbit v (i - o).
Proof using Hw.
  intros (Hm & Hs & Ho & Hn & Hfit) Hi. unfold field_val, fv_new. cbn [fv_value].
  rewrite shl_testbit, Z.land_spec, Hm, Hs, ones_testbit by lia.
  destruct (Z.leb_spec o i), (Z.leb_spec 0 (i - o)), (Z.ltb_spec (i - o) n),
    (Z.ltb_spec i (o + n)), (Z.ltb_spec i w); try lia; simpl; btauto.
Qed.

Lemma field_mask_testbit f o n v i :
  is_field f o n -> 0 <= i ->
  Z.testbit (fv_mask (field_val w f v)) i = (o <=? i) && (i <? o + n).
Proof using Hw.
  intros (Hm & Hs & Ho & Hn & Hfit) Hi. unfold field_val, fv_new. cbn [fv_mask].
  rewrite shl_testbit, Hm, Hs, ones_testbit by lia.
  destruct (Z.leb_spec o i), (Z.leb_spec 0 (i - o)), (Z.ltb_spec (i - o) n),
    (Z.ltb_spec i (o + n)), (Z.ltb_spec i w); try lia; simpl; btauto.
Qed.

Lemma field_read_lor f a b :
  field_read w f (Z.lor a b) = Z.lor (field_read w f a) (field_read w f b).
Proof using. unfold field_read. by rewrite Z.land_lor_distr_l, Z.shiftr_lor. Qed.

Lemma field_read_val_same f o n v :
  is_field f o n -> 0 <= v < 2 ^ n ->
  field_read w f (fv_value (field_val w f v)) = v.
Proof using Hw.
  intros Hf Hv. pose proof Hf as (_ & _ & Ho & Hn & _). apply Z.bits_inj'. intros i Hi.
  rewrite (field_read_testbit f o n), (field_val_testbit f o n) by (done || lia).
  replace (i + o - o) with i by lia.
  destruct (Z.ltb_spec i n), (Z.leb_spec o (i + o)), (Z.ltb_spec (i + o) (o + n));
    simpl; try lia; try done.
  symmetry. destruct (decide (v = 0)) as [->|]; [apply Z.bits_0|].
  apply Z.bits_above_log2; [lia|]. apply Z.log2_lt_pow2; [lia|].
  eapply Z.lt_le_trans; [apply Hv|]. apply Z.pow_le_mono_r; lia.
Qed.

Lemma field_read_val_other f o n g o' n' v :
  is_field f o n -> is_field g o' n' -> disjoint o n o' n' ->
  field_read w f (fv_value (field_val w g v)) = 0.
Proof using Hw.
  intros Hf Hg Hd. pose proof Hf as (_ & _ & Ho & Hn & _). apply Z.bits_inj'. intros i Hi.
  rewrite (field_read_testbit f o n), (field_val_testbit g o' n'), Z.bits_0
    by (done || lia). unfold disjoint in Hd.
  destruct (Z.ltb_spec i n), (Z.leb_spec o' (i + o)), (Z.ltb_spec (i + o) (o' + n'));
    simpl; first [lia|done].
Qed.

Lemma fv_modify_testbit f o n v x i :
  is_field f o n -> 0 <= i < w ->
  Z.testbit (fv_modify w (field_val w f v) x) i =
    if (o <=? i) && (i <? o + n) then Z.testbit v (i - o) else Z.testbit x i.
Proof using Hw.
  intros Hf Hi. unfold fv_modify.
  rewrite Z.lor_spec, Z.land_spec, bnot_testbit,
    (field_mask_testbit f o n), (field_val_testbit f o n) by (done || lia).
  rewrite (proj2 (Z.ltb_lt i w)) by lia.
  destruct ((o <=? i) && (i <? o + n)); simpl; btauto.
Qed.

Lemma field_read_modify_same f o n v x :
  is_field f o n -> 0 <= v < 2 ^ n ->
  field_read w f (fv_modify w (field_val w f v) x) = v.
Proof using Hw.
  intros Hf Hv. etransitivity; [|by apply (field_read_val_same f o n v)].
  pose proof Hf as (_ & _ & Ho & Hn & Hfit).
  apply Z.bits_inj'. intros i Hi.
  rewrite !(field_read_testbit f o n) by done.
  destruct (Z.ltb_spec i n); [|done]. cbn [andb].
  rewrite (fv_modify_testbit f o n), (field_val_testbit f o n) by (done || lia).
  destruct (Z.leb_spec o (i + o)), (Z.ltb_spec (i + o) (o + n)); try lia. done.
Qed.

Lemma field_read_modify_other f o n g o' n' v x :
  is_field f o n -> is_field g o' n' -> disjoint o n o' n' ->
  field_read w f (fv_modify w (field_val w g v) x) = field_read w f x.
Proof using Hw.
  intros Hf Hg Hd. pose proof Hf as (_ & _ & Ho & Hn & Hfit).
  apply Z.bits_inj'. intros i Hi. rewrite !(field_read_testbit f o n) by done.
  destruct (Z.ltb_spec i n); [|done]. cbn [andb].
  rewrite (fv_modify_testbit g o' n') by (done || lia). unfold disjoint in Hd.
  destruct (Z.leb_spec o' (i + o)), (Z.ltb_spec (i + o) (o' + n')); try lia; done.
Qed.

Lemma fv_add_modify f o n g o' n' u v x :
  is_field f o n -> is_field g o' n' -> disjoint o n o' n' ->
  forall i, 0 <= i < w ->
  Z.testbit (fv_modify w (fv_add (field_val w f u) (field_val w g v)) x) i =
  Z.testbit (fv_modify w (field_val w g v) (fv_modify w (field_val w f u) x)) i.
Proof using Hw.
  intros Hf Hg Hd i Hi.
  rewrite (fv_modify_testbit g o' n'), (fv_modify_testbit f o n) by done.
  unfold fv_modify, fv_add. cbn [fv_mask fv_value].
  rewrite !Z.lor_spec, Z.land_spec, bnot_testbit, Z.lor_spec,
    (field_mask_testbit f o n), (field_val_testbit f o n),
    (field_mask_testbit g o' n'), (field_val_testbit g o' n') by (done || lia).
  rewrite (proj2 (Z.ltb_lt i w)) by lia. unfold disjoint in Hd.
  destruct (Z.leb_spec o i), (Z.ltb_spec i (o + n)), (Z.leb_spec o' i),
    (Z.ltb_spec i (o' + n')); simpl; try lia; btauto.
Qed.
End laws.

(** In a [w]-bit register, modifying one field makes that field read back the
    written value and leaves every disjoint field as it was. *)
Theorem reg_modify_read w r f o n g o' n' v :
  0 <= w -> is_field w f o n -> is_field w g o' n' -> disjoint o n o' n' ->
  0 <= v < 2 ^ n ->
  reg_read w (reg_modify w r (field_val w f v)) f = v /\
  reg_read w (reg_modify w r (field_val w f v)) g = reg_read w r g.
Proof.
  intros Hw Hf Hg Hd Hv. unfold reg_read, reg_modify, reg_set, reg_get. simpl. split.
  - by apply (field_read_modify_same w Hw f o n).
  - apply (field_read_modify_other w Hw g o' n' f o n); [done..|].
    unfold disjoint in *. lia.
Qed.

Lemma reg_modify_read_witness :
  reg_read 32 (reg_modify 32 (mkLocal 4026531839) (field_val 32 (register_field 8 8) 165))
    (register_field 8 8) = 165 /\
  reg_read 32 (reg_modify 32 (mkLocal 4026531839) (field_val 32 (register_field 8 8) 165))
    (register_field 1 5) =
  reg_read 32 (mkLocal 4026531839) (register_field 1 5).
Proof.
  apply (reg_modify_read 32 (mkLocal 4026531839) (register_field 8 8) 8 8
           (register_field 1 5) 1 5 165);
    [lia|apply register_field_is_field; lia..|unfold disjoint; lia|lia].
Defined.

End Reg.
