(* ===== verification/Mpu.v ===== *)
(** The kernel's memory-protection interface ([kernel/src/platform/mpu.rs]): the
    [MPU] trait as a class of operations ([Mpu.MPU]), the trivial implementation
    for [()], and the class [Mpu.MpuIsolation] of the laws that the process
    implementation relies on.  [CortexMpu] discharges the laws for the Cortex-M
    driver, [Process] proves its memory-isolation theorems against them. *)

From stdpp Require Import base numbers list.
From S2P Require Import Prelude.
Local Open Scope Z_scope.

Module Mpu.

Inductive Permissions :=
  | ReadWriteExecute
  | ReadWriteOnly
  | ReadExecuteOnly
  | ReadOnly
  | ExecuteOnly.

Record Region := mkRegion { start_address : Z; region_size : Z }.

#[export] Instance Permissions_eq_dec : EqDecision Permissions.
Proof. solve_decision. Defined.
#[export] Instance Region_eq_dec : EqDecision Region.
Proof. solve_decision. Defined.

(** The operations of the trait.  [hw] is the state of the driver object (and of
    the hardware behind it), [config] the trait's [MpuConfig]. *)
Class MPU (hw config : Type) := {
  enable_app_mpu : hw -> outcome hw;
  disable_app_mpu : hw -> outcome hw;
  new_config : hw -> option config * hw;
  reset_config : config -> config;
  allocate_region : Z -> Z -> Z -> Permissions -> config ->
    outcome (option Region * config);
  remove_memory_region : Region -> config -> outcome (result unit unit * config);
  allocate_app_memory_region : Z -> Z -> Z -> Z -> Z -> Permissions -> config ->
    outcome (option (Z * Z) * config);
  update_app_memory_region : Z -> Z -> Permissions -> config ->
    outcome (result unit unit * config);
  configure_mpu : config -> hw -> outcome (config * hw);
}.

(** [impl MPU for ()]: no protection hardware. *)
Definition unit_allocate_region (unallocated_memory_start unallocated_memory_size
    min_region_size : Z) (_ : Permissions) (config : unit)
    : outcome (option Region * unit) :=
  if unallocated_memory_size <? min_region_size then Ret (None, config)
  else Ret (Some (mkRegion unallocated_memory_start min_region_size), config).

Definition unit_allocate_app_memory_region (unallocated_memory_start
    unallocated_memory_size min_memory_size initial_app_memory_size
    initial_kernel_memory_size : Z) (_ : Permissions) (config : unit)
    : outcome (option (Z * Z) * unit) :=
  let! sum := add32 initial_app_memory_size initial_kernel_memory_size in
  let memory_size := Z.max min_memory_size sum in
  if unallocated_memory_size <? memory_size then Ret (None, config)
  else Ret (Some (unallocated_memory_start, memory_size), config).

Definition unit_update_app_memory_region (app_memory_break kernel_memory_break : Z)
    (_ : Permissions) (config : unit) : outcome (result unit unit * unit) :=
  if kernel_memory_break <? app_memory_break then Ret (Err tt, config)
  else Ret (Ok tt, config).

#[export] Instance unit_mpu : MPU unit unit := {|
  enable_app_mpu := fun hw => Ret hw;
  disable_app_mpu := fun hw => Ret hw;
  new_config := fun hw => (Some tt, hw);
  reset_config := fun c => c;
  allocate_region := unit_allocate_region;
  remove_memory_region := fun _ c => Ret (Ok tt, c);
  allocate_app_memory_region := unit_allocate_app_memory_region;
  update_app_memory_region := unit_update_app_memory_region;
  configure_mpu := fun c hw => Ret (c, hw);
|}.

(** The allocation functions of a driver do not loop for ever. *)
Class MpuHalts (hw config : Type) `{!MPU hw config} := {
  allocate_region_halts : forall u n m p (c : config), halts (allocate_region u n m p c);
  allocate_app_halts : forall u n m app kern p (c : config),
    halts (allocate_app_memory_region u n m app kern p c);
}.
#[export] Hint Resolve allocate_region_halts allocate_app_halts : halts.

#[export] Instance unit_halts : MpuHalts unit unit.
Proof.
  split; intros; cbn; unfold unit_allocate_region, unit_allocate_app_memory_region; halts.
Qed.

(** A region that is not empty and lies beside a block. *)
Definition beside (start len : Z) (r : Region) : Prop :=
  0 < region_size r /\
  (start_address r + region_size r <= start \/ start + len <= start_address r).

(** What a driver promises to the process implementation.

    [valid c]: the configuration was made by the driver.
    [exposed c a]: the configuration lets unprivileged code touch address [a].
    [protecting h]: the hardware enforces what was last written to it.
    [manages c start len]: the configuration's app-memory region belongs to the
    process block [start, start + len).
    [layout_ok app kern len]: a block of [len] bytes has room for [app] bytes of
    app memory, at the driver's granularity, below [kern] bytes of kernel
    memory. *)
Class MpuIsolation (hw config : Type) `{!MPU hw config} := {
  valid : config -> Prop;
  exposed : config -> Z -> Prop;
  protecting : hw -> Prop;
  manages : config -> Z -> Z -> Prop;
  layout_ok : Z -> Z -> Z -> Prop;

  layout_ok_mono : forall app kern kern' len,
    layout_ok app kern len -> kern' <= kern -> layout_ok app kern' len;
  new_config_valid : forall h h' c, new_config h = (Some c, h') -> valid c;
  reset_config_valid : forall c, valid c -> valid (reset_config c);
  allocate_region_valid : forall c c' u n m p r,
    p <> ReadWriteExecute -> valid c -> u32_range u -> u32_range m ->
    allocate_region u n m p c = Ret (r, c') -> valid c';
  remove_region_valid : forall c c' r o,
    valid c -> remove_memory_region r c = Ret (o, c') -> valid c';
  configure_valid : forall c h c' h',
    valid c -> configure_mpu c h = Ret (c', h') -> valid c';
  configure_total : forall c h, valid c -> returns (configure_mpu c h);
  manages_valid : forall c start len, manages c start len -> valid c;

  (** The block that is allocated for a process lies in the offered memory and
      is large enough; with room at the driver's granularity, the app part is
      exposed and the kernel-owned end of the block is not. *)
  allocate_app_ok : forall c c' u n m app kern start len,
    valid c -> u32_range u -> u32_range m -> 0 <= app -> 0 <= kern ->
    allocate_app_memory_region u n m app kern ReadWriteOnly c
      = Ret (Some (start, len), c') ->
    u <= start /\ start + len <= u + n /\ m <= len /\ app + kern <= len /\
    manages c' start len /\
    (layout_ok app kern len ->
       (forall a, start <= a < start + app -> exposed c' a) /\
       (forall a, start + len - kern <= a < start + len -> ~ exposed c' a));

  (** A successful update exposes everything below the app break and nothing
      of the block from the kernel break on. *)
  update_ok : forall c c' start len app_break kernel_break,
    manages c start len ->
    start <= app_break -> kernel_break <= start + len ->
    update_app_memory_region app_break kernel_break ReadWriteOnly c = Ret (Ok tt, c') ->
    manages c' start len /\ app_break <= kernel_break /\
    (forall a, start <= a < app_break -> exposed c' a) /\
    (forall a, kernel_break <= a < start + len -> ~ exposed c' a);

  (** An update of a block in the low half of the address space does not
      panic, unless the app break is the start of the block. *)
  update_total : forall c start len app_break kernel_break,
    manages c start len -> start + len <= 2 ^ 31 ->
    start < app_break -> app_break <= start + len -> kernel_break <= start + len ->
    returns (update_app_memory_region app_break kernel_break ReadWriteOnly c);

  (** A refused update changes nothing. *)
  update_err : forall c c' app_break kernel_break p,
    update_app_memory_region app_break kernel_break p c = Ret (Err tt, c') -> c' = c;

  (** A region allocated outside the block (and not writeable and executable at
      the same time) leaves the block's exposure alone. *)
  allocate_region_ok : forall c c' start len u n m p r,
    p <> ReadWriteExecute -> manages c start len -> u32_range u -> u32_range m ->
    u + n <= start \/ start + len <= u ->
    allocate_region u n m p c = Ret (r, c') ->
    manages c' start len /\
    (forall a, start <= a < start + len -> (exposed c' a <-> exposed c a));

  (** A writeable region lies in the offered memory. *)
  allocate_region_beside : forall c c' start len u n m reg,
    valid c -> u32_range u -> u32_range m ->
    u + n <= start \/ start + len <= u ->
    allocate_region u n m ReadWriteOnly c = Ret (Some reg, c') -> beside start len reg;

  (** It exposes nothing but offered memory. *)
  allocate_region_only : forall c c' u n m reg,
    valid c -> u32_range u -> u32_range m ->
    allocate_region u n m ReadWriteOnly c = Ret (Some reg, c') ->
    forall a, exposed c' a -> exposed c a \/ u <= a < u + n;

  (** A refused region allocation changes nothing. *)
  allocate_region_none : forall c c' u n m p,
    allocate_region u n m p c = Ret (None, c') -> c' = c;

  (** A region beside the block can be removed without a trace in the block. *)
  remove_region_ok : forall c c' start len r o,
    manages c start len -> beside start len r ->
    remove_memory_region r c = Ret (o, c') ->
    manages c' start len /\
    (forall a, start <= a < start + len -> (exposed c' a <-> exposed c a));

  (** Writing the configuration to the hardware does not change what it
      exposes. *)
  configure_ok : forall c h c' h' start len,
    manages c start len -> configure_mpu c h = Ret (c', h') ->
    manages c' start len /\ (forall a, exposed c' a <-> exposed c a);

  (** The hardware is on after it was enabled. *)
  enable_ok : forall h h', enable_app_mpu h = Ret h' -> protecting h';
}.

End Mpu.
