(* ===== verification/CortexMpu.v ===== *)
(** The Cortex-M memory-protection driver ([arch/cortex-m/src/mpu.rs]). *)

From stdpp Require Import base numbers list list_numbers.
From S2P Require Import Prelude Math Registers Mpu.
Import Mpu.
Local Open Scope Z_scope.

Module CortexM.

(** * Registers (the [register_bitfields!] block, 32-bit registers) *)

Abbreviation val := (Reg.field_val 32).

Definition RBAR_ADDR : Reg.Field := Reg.register_field 5 27.
Definition RBAR_VALID_UseRBAR : Reg.FieldValue := Reg.register_value 32 4 1 1.
Definition RBAR_REGION : Reg.Field := Reg.register_field 0 4.
Definition RASR_XN_Enable : Reg.FieldValue := Reg.register_value 32 28 1 0.
Definition RASR_XN_Disable : Reg.FieldValue := Reg.register_value 32 28 1 1.
Definition RASR_AP_PrivilegedOnly : Reg.FieldValue := Reg.register_value 32 24 3 1.
Definition RASR_AP_UnprivilegedReadOnly : Reg.FieldValue := Reg.register_value 32 24 3 2.
Definition RASR_AP_ReadWrite : Reg.FieldValue := Reg.register_value 32 24 3 3.
Definition RASR_SRD : Reg.Field := Reg.register_field 8 8.
Definition RASR_SIZE : Reg.Field := Reg.register_field 1 5.
Definition CTRL_PRIVDEFENA_SET : Reg.FieldValue := Reg.register_SET 32 2 1.
Definition CTRL_HFNMIENA_CLEAR : Reg.FieldValue := Reg.register_CLEAR 32 1 1.
Definition CTRL_ENABLE_SET : Reg.FieldValue := Reg.register_SET 32 0 1.
Definition CTRL_ENABLE_CLEAR : Reg.FieldValue := Reg.register_CLEAR 32 0 1.
Definition RASR_ENABLE_SET : Reg.FieldValue := Reg.register_SET 32 0 1.
Definition RASR_ENABLE_CLEAR : Reg.FieldValue := Reg.register_CLEAR 32 0 1.

(** * Integer intrinsics used by the driver *)

Fixpoint pos_count_ones (p : positive) : Z :=
  match p with
  | xH => 1
  | xO p => pos_count_ones p
  | xI p => 1 + pos_count_ones p
  end.
Definition count_ones (z : Z) : Z :=
  match z with Zpos p => pos_count_ones p | _ => 0 end.

Fixpoint pos_trailing_zeros (p : positive) : Z :=
  match p with xO p => 1 + pos_trailing_zeros p | _ => 0 end.
Definition trailing_zeros (z : Z) : Z :=
  match z with Zpos p => pos_trailing_zeros p | _ => 32 end.

(** * Regions *)

Record CortexMRegion := mkCortexMRegion {
  location : option (Z * Z);
  base_address : Reg.FieldValue;
  attributes : Reg.FieldValue;
}.

Definition APP_MEMORY_REGION_MAX_NUM : nat := 1.

(** [impl PartialEq<mpu::Region> for CortexMRegion] *)
Definition region_eq (r : CortexMRegion) (other : Region) : bool :=
  match location r with
  | None => false
  | Some (addr, size) => (addr =? start_address other) && (size =? region_size other)
  end.

Definition access_bits (p : Permissions) : Reg.FieldValue * Reg.FieldValue :=
  match p with
  | ReadWriteExecute => (RASR_AP_ReadWrite, RASR_XN_Enable)
  | ReadWriteOnly => (RASR_AP_ReadWrite, RASR_XN_Disable)
  | ReadExecuteOnly => (RASR_AP_UnprivilegedReadOnly, RASR_XN_Enable)
  | ReadOnly => (RASR_AP_UnprivilegedReadOnly, RASR_XN_Disable)
  | ExecuteOnly => (RASR_AP_PrivilegedOnly, RASR_XN_Enable)
  end.

(** [(min..=max).fold(u8::MAX, |res, i| res ^ (1 << i))]: the shift panics when
    [i] is 8 or more. *)
Fixpoint srd_fold (n : nat) (i res : Z) : outcome Z :=
  match n with
  | O => Ret res
  | S n => if i <? 8 then srd_fold n (i + 1) (Z.lxor res (Z.shiftl 1 i)) else Panic
  end.
Definition srd_mask (min_subregion max_subregion : Z) : outcome Z :=
  srd_fold (Z.to_nat (max_subregion - min_subregion + 1)) min_subregion 255.

Definition region_new (logical_start logical_size region_start region_size
    region_num : Z) (subregions : option (Z * Z)) (permissions : Permissions)
    : outcome CortexMRegion :=
  let '(access, execute) := access_bits permissions in
  let base_address :=
    Reg.fv_add (Reg.fv_add (val RBAR_ADDR (Z.shiftr region_start 5))
                           RBAR_VALID_UseRBAR)
               (val RBAR_REGION region_num) in
  let! log := Math.log_base_two region_size in
  let! size_value := sub32 log 1 in
  let attributes :=
    Reg.fv_add (Reg.fv_add (Reg.fv_add RASR_ENABLE_SET (val RASR_SIZE size_value))
                           access) execute in
  let! attributes :=
    match subregions with
    | Some (min_subregion, max_subregion) =>
      let! mask := srd_mask min_subregion max_subregion in
      Ret (Reg.fv_add attributes (val RASR_SRD mask))
    | None => Ret attributes
    end in
  Ret (mkCortexMRegion (Some (logical_start, logical_size)) base_address attributes).

Definition region_empty (region_num : Z) : CortexMRegion :=
  mkCortexMRegion None
    (Reg.fv_add RBAR_VALID_UseRBAR (val RBAR_REGION region_num))
    RASR_ENABLE_CLEAR.

Definition overlaps (r : CortexMRegion) (other_start other_size : Z) : outcome bool :=
  let! other_end := add32 other_start other_size in
  match location r with
  | Some (region_start, region_size) =>
    let! region_end := add32 region_start region_size in
    Ret ((region_start <? other_end) && (other_start <? region_end))
  | None => Ret false
  end.

(** * Configurations *)

Record CortexMConfig := mkCortexMConfig {
  id : Z;
  regions : list CortexMRegion;
  is_dirty : bool;
}.

(** State of the driver object: the configuration counter, the optimisation
    cache and the hardware's region registers (RBAR, RASR), with the region
    number that RASR writes currently refer to, and the control register. *)
Record Mpu := mkMpu {
  config_count : Z;
  hardware_is_configured_for : option Z;
  hw_rnr : Z;
  hw_regions : list (Z * Z);
  hw_ctrl : Z;
}.

Section driver.
  (** The const generics [NUM_REGIONS] and [MIN_REGION_SIZE]. *)
  Context (NUM_REGIONS : nat) (MIN_REGION_SIZE : Z).

(** The first region above the app-memory ones that is not in use. *)
Fixpoint unused_from (number : nat) (rs : list CortexMRegion) : option nat :=
  match rs with
  | [] => None
  | r :: rs =>
    if Nat.leb number APP_MEMORY_REGION_MAX_NUM then unused_from (S number) rs
    else match location r with
         | None => Some number
         | Some _ => unused_from (S number) rs
         end
  end.
Definition unused_region_number (c : CortexMConfig) : option nat :=
  unused_from 0 (regions c).

Definition cm_reset_config (c : CortexMConfig) : CortexMConfig :=
  mkCortexMConfig (id c)
    (foldl (fun rs i => <[i := region_empty (Z.of_nat i)]> rs) (regions c)
       (seq 0 NUM_REGIONS)) true.

Definition cm_new_config (m : Mpu) : option CortexMConfig * Mpu :=
  let id := config_count m in
  if id + 1 <? U32 then
    let m := mkMpu (id + 1) (hardware_is_configured_for m) (hw_rnr m) (hw_regions m) (hw_ctrl m) in
    let ret := mkCortexMConfig id (replicate NUM_REGIONS (region_empty 0)) true in
    (Some (cm_reset_config ret), m)
  else (None, m).

(** [for region in config.regions.iter() { if region.overlaps(..) ... }] *)
Fixpoint any_overlap (rs : list CortexMRegion) (start size : Z) : outcome bool :=
  match rs with
  | [] => Ret false
  | r :: rs =>
    let! b := overlaps r start size in
    if b then Ret true else any_overlap rs start size
  end.

Definition subregion_size_for (start size : Z) : outcome Z :=
  let tz := trailing_zeros start in
  if tz <? 32 then Ret (Z.shiftl 1 tz)
  else
    let! ceil := Math.closest_power_of_two size in
    let ceil := if ceil <? 256 then 256 else ceil in
    Ret (ceil / 8).

(** The choice of logical region, physical region and subregions in
    [allocate_region]. *)
Definition plan_region (start size : Z)
    : outcome (Z * Z * Z * Z * option (Z * Z)) :=
  let! align := rem32 start size in
  if (1 <? count_ones size) || negb (align =? 0) then
    let! subregion_size := subregion_size_for start size in
    let! underlying_region_size := mul32 subregion_size 8 in
    let! off := rem32 start underlying_region_size in
    let! underlying_region_start := sub32 start off in
    let! part := rem32 size subregion_size in
    let! size :=
      (if negb (part =? 0) then
         let! d := sub32 subregion_size part in add32 size d
       else Ret size) in
    let! end_ := add32 start size in
    let! underlying_region_end := add32 underlying_region_start underlying_region_size in
    if (32 <=? subregion_size) && (end_ <=? underlying_region_end) then
      let! d := sub32 start underlying_region_start in
      let! min_subregion := div32 d subregion_size in
      let! k := div32 size subregion_size in
      let! mk := add32 min_subregion k in
      let! max_subregion := sub32 mk 1 in
      Ret (start, size, underlying_region_start, underlying_region_size,
           Some (min_subregion, max_subregion))
    else
      let! size := Math.closest_power_of_two size in
      let! r := rem32 start size in
      let! d := sub32 size r in
      let! start := add32 start d in
      Ret (start, size, start, size, None)
  else Ret (start, size, start, size, None).

Definition cm_allocate_region (unallocated_memory_start unallocated_memory_size
    min_region_size : Z) (permissions : Permissions) (config : CortexMConfig)
    : outcome (option Region * CortexMConfig) :=
  let! b := any_overlap (regions config) unallocated_memory_start unallocated_memory_size in
  if b then Ret (None, config)
  else match unused_region_number config with
  | None => Ret (None, config)
  | Some region_num =>
    let! r := rem32 unallocated_memory_start MIN_REGION_SIZE in
    let! start :=
      (if negb (r =? 0) then
         let! d := sub32 MIN_REGION_SIZE r in add32 unallocated_memory_start d
       else Ret unallocated_memory_start) in
    let size :=
      if min_region_size <? MIN_REGION_SIZE then MIN_REGION_SIZE else min_region_size in
    let! '(start, size, region_start, region_size, subregions) := plan_region start size in
    let! end_ := add32 start size in
    let! limit := add32 unallocated_memory_start unallocated_memory_size in
    if limit <? end_ then Ret (None, config)
    else
      let! region := region_new start size region_start region_size
                       (Z.of_nat region_num) subregions permissions in
      let! rs := set_index (regions config) region_num region in
      Ret (Some (mkRegion start size), mkCortexMConfig (id config) rs true)
  end.

Fixpoint find_region (idx : nat) (rs : list CortexMRegion) (region : Region) : option nat :=
  match rs with
  | [] => None
  | r :: rs => if region_eq r region then Some idx else find_region (S idx) rs region
  end.

Definition cm_remove_memory_region (region : Region) (config : CortexMConfig)
    : outcome (result unit unit * CortexMConfig) :=
  match find_region 0 (regions config) region with
  | None => Ret (Err tt, config)
  | Some idx =>
    if Nat.leb idx APP_MEMORY_REGION_MAX_NUM then Ret (Err tt, config)
    else
      let! rs := set_index (regions config) idx (region_empty (Z.of_nat idx)) in
      Ret (Ok tt, mkCortexMConfig (id config) rs true)
  end.

(** The two app-memory regions with their first [n] subregions enabled; common
    to [allocate_app_memory_region] and [update_app_memory_region]. *)
Definition app_regions (region_start region_size num_enabled_subregions : Z)
    (permissions : Permissions) (config : CortexMConfig) : outcome CortexMConfig :=
  let num_enabled_subregions0 := Z.min num_enabled_subregions 8 in
  let num_enabled_subregions1 := saturating_sub num_enabled_subregions 8 in
  let! last0 := sub32 num_enabled_subregions0 1 in
  let! region0 := region_new region_start region_size region_start region_size 0
                    (Some (0, last0)) permissions in
  let! region1 :=
    (if num_enabled_subregions1 =? 0 then Ret (region_empty 1)
     else
       let! s := add32 region_start region_size in
       let! last1 := sub32 num_enabled_subregions1 1 in
       region_new s region_size s region_size 1 (Some (0, last1)) permissions) in
  let! rs := set_index (regions config) 0 region0 in
  let! rs := set_index rs 1 region1 in
  Ret (mkCortexMConfig (id config) rs true).

(** Move [region_start] up to a multiple of [region_size]. *)
Definition align_up (region_start region_size : Z) : outcome Z :=
  let! r := rem32 region_start region_size in
  if negb (r =? 0) then
    let! d := sub32 region_size r in add32 region_start d
  else Ret region_start.

Definition cm_allocate_app_memory_region (unallocated_memory_start
    unallocated_memory_size min_memory_size initial_app_memory_size
    initial_kernel_memory_size : Z) (permissions : Permissions)
    (config : CortexMConfig) : outcome (option (Z * Z) * CortexMConfig) :=
  let! b := any_overlap (regions config) unallocated_memory_start unallocated_memory_size in
  if b then Ret (None, config)
  else
    let! sum := add32 initial_app_memory_size initial_kernel_memory_size in
    let memory_size := Z.max min_memory_size sum in
    let! memory_size_po2 := Math.closest_power_of_two memory_size in
    let! exponent := Math.log_base_two memory_size_po2 in
    if negb (exponent <? 9) && (32 <? exponent) then Ret (None, config)
    else
      let memory_size_po2 := if exponent <? 9 then 512 else memory_size_po2 in
      let region_size := memory_size_po2 / 2 in
      let! region_start := align_up unallocated_memory_start region_size in
      let! app8 := mul32 initial_app_memory_size 8 in
      let! q := div32 app8 region_size in
      let! num_enabled_subregions := add32 q 1 in
      let subregion_size := region_size / 8 in
      let! enabled := mul32 num_enabled_subregions subregion_size in
      let! subregions_enabled_end := add32 region_start enabled in
      let! top := add32 region_start memory_size_po2 in
      let! kernel_memory_break := sub32 top initial_kernel_memory_size in
      let! '(region_size, region_start, num_enabled_subregions) :=
        (if kernel_memory_break <? subregions_enabled_end then
           let! region_size := mul32 region_size 2 in
           let! region_start := align_up region_start region_size in
           let! app8 := mul32 initial_app_memory_size 8 in
           let! q := div32 app8 region_size in
           let! n := add32 q 1 in
           Ret (region_size, region_start, n)
         else Ret (region_size, region_start, num_enabled_subregions)) in
      let! top := add32 region_start memory_size_po2 in
      let! limit := add32 unallocated_memory_start unallocated_memory_size in
      if limit <? top then Ret (None, config)
      else
        let! config := app_regions region_start region_size num_enabled_subregions
                         permissions config in
        Ret (Some (region_start, memory_size_po2), config).

Definition cm_update_app_memory_region (app_memory_break kernel_memory_break : Z)
    (permissions : Permissions) (config : CortexMConfig)
    : outcome (result unit unit * CortexMConfig) :=
  let! r0 := index (regions config) 0 in
  match location r0 with
  | None => Ret (Err tt, config)
  | Some (region_start, region_size) =>
    if kernel_memory_break <? app_memory_break then Ret (Err tt, config)
    else
      let! app_memory_size := sub32 app_memory_break region_start in
      let subregion_size := region_size / 8 in
      let! s := add32 app_memory_size subregion_size in
      let! s := sub32 s 1 in
      let! num_enabled_subregions := div32 s subregion_size in
      let! enabled := mul32 subregion_size num_enabled_subregions in
      let! subregions_enabled_end := add32 region_start enabled in
      if kernel_memory_break <? subregions_enabled_end then Ret (Err tt, config)
      else
        let! config := app_regions region_start region_size num_enabled_subregions
                         permissions config in
        Ret (Ok tt, config)
  end.

(** Register writes: RBAR with VALID set selects the region named by its REGION
    field and sets its base address; RASR sets the selected region's
    attributes. *)
Definition write_rbar (v : Z) (m : Mpu) : Mpu :=
  let rnr := if Z.testbit v 4 then Reg.field_read 32 RBAR_REGION v else hw_rnr m in
  mkMpu (config_count m) (hardware_is_configured_for m) rnr
    (alter (fun '(_, a) => (v, a)) (Z.to_nat rnr) (hw_regions m)) (hw_ctrl m).
Definition write_rasr (v : Z) (m : Mpu) : Mpu :=
  mkMpu (config_count m) (hardware_is_configured_for m) (hw_rnr m)
    (alter (fun '(b, _) => (b, v)) (Z.to_nat (hw_rnr m)) (hw_regions m)) (hw_ctrl m).

Definition write_ctrl (v : Z) (m : Mpu) : Mpu :=
  mkMpu (config_count m) (hardware_is_configured_for m) (hw_rnr m) (hw_regions m) v.

Definition cm_enable_app_mpu (m : Mpu) : Mpu :=
  write_ctrl (Reg.fv_value (Reg.fv_add (Reg.fv_add CTRL_ENABLE_SET CTRL_HFNMIENA_CLEAR)
                              CTRL_PRIVDEFENA_SET)) m.
Definition cm_disable_app_mpu (m : Mpu) : Mpu := write_ctrl (Reg.fv_value CTRL_ENABLE_CLEAR) m.
Definition clear_mpu (m : Mpu) : Mpu := write_ctrl (Reg.fv_value CTRL_ENABLE_CLEAR) m.

Definition write_region (m : Mpu) (r : CortexMRegion) : Mpu :=
  write_rasr (Reg.fv_value (attributes r))
    (write_rbar (Reg.fv_value (base_address r)) m).

Definition cm_configure_mpu (config : CortexMConfig) (m : Mpu) : CortexMConfig * Mpu :=
  if negb (bool_decide (hardware_is_configured_for m = Some (id config)))
     || is_dirty config
  then
    let m := foldl write_region m (regions config) in
    (mkCortexMConfig (id config) (regions config) false,
     mkMpu (config_count m) (Some (id config)) (hw_rnr m) (hw_regions m) (hw_ctrl m))
  else (config, m).

End driver.

(** * What the hardware exposes

    Semantics of a region's registers, as documented beside the bit fields of
    the driver: an enabled region spans [2^(SIZE+1)] bytes from its base
    address, in eight equal subregions of which those with their SRD bit set
    are disabled. *)
Definition reg_base (rbar : Z) : Z := Z.shiftl (Reg.field_read 32 RBAR_ADDR rbar) 5.
Definition reg_bytes (rasr : Z) : Z := 2 ^ (Reg.field_read 32 RASR_SIZE rasr + 1).
Definition hw_covers (rbar rasr a : Z) : bool :=
  Z.testbit rasr 0 &&
  ((reg_base rbar <=? a) && (a <? reg_base rbar + reg_bytes rasr)) &&
  negb (Z.testbit (Reg.field_read 32 RASR_SRD rasr)
          ((a - reg_base rbar) / (reg_bytes rasr / 8))).

Definition covers (r : CortexMRegion) (a : Z) : bool :=
  hw_covers (Reg.fv_value (base_address r)) (Reg.fv_value (attributes r)) a.

(** Some region of the configuration is enabled at [a], whatever its permissions; where
    none is, the MPU refuses every unprivileged access. *)
Definition exposes (c : CortexMConfig) (a : Z) : Prop :=
  exists i r, regions c !! i = Some r /\ covers r a = true.

Lemma field_32 o n :
  0 <= o -> 0 < n -> o + n <= 32 -> Reg.is_field 32 (Reg.register_field o n) o n.
Proof. apply Reg.register_field_is_field. Qed.

Lemma read_same o n v :
  0 <= o -> 0 < n -> o + n <= 32 -> 0 <= v < 2 ^ n ->
  Reg.field_read 32 (Reg.register_field o n)
    (Reg.fv_value (val (Reg.register_field o n) v)) = v.
Proof.
  intros. by apply (Reg.field_read_val_same 32 ltac:(lia) _ o n); [apply field_32|].
Qed.

Lemma read_other o n o' n' v :
  0 <= o -> 0 < n -> o + n <= 32 -> 0 <= o' -> 0 < n' -> o' + n' <= 32 ->
  o + n <= o' \/ o' + n' <= o ->
  Reg.field_read 32 (Reg.register_field o n)
    (Reg.fv_value (val (Reg.register_field o' n') v)) = 0.
Proof.
  intros. by apply (Reg.field_read_val_other 32 ltac:(lia) _ o n _ o' n');
    [apply field_32..|].
Qed.

(** Evaluates the reading of a field of a sum of field values. *)
Ltac read_fields :=
  unfold RBAR_ADDR, RBAR_REGION, RASR_SRD, RASR_SIZE in *;
  cbn [Reg.fv_add Reg.fv_value];
  rewrite ?Reg.field_read_lor;
  rewrite ?read_same by lia;
  repeat (rewrite read_other by lia);
  repeat match goal with
  | |- context [Reg.field_read 32 ?f (Reg.fv_value ?c)] =>
    is_const c;
    let v := eval vm_compute in (Reg.field_read 32 f (Reg.fv_value c)) in
    change (Reg.field_read 32 f (Reg.fv_value c)) with v
  end;
  rewrite ?Z.lor_0_l, ?Z.lor_0_r.

Lemma srd_fold_spec n i res :
  0 <= i -> i + Z.of_nat n <= 8 ->
  exists m, srd_fold n i res = Ret m /\
    forall j, 0 <= j -> Z.testbit m j =
      if (i <=? j) && (j <? i + Z.of_nat n) then negb (Z.testbit res j)
      else Z.testbit res j.
Proof.
  revert i res; induction n as [|n IH]; intros i res Hi Hn; cbn [srd_fold].
  - exists res; split; [done|]. intros j Hj.
    destruct (Z.leb_spec i j), (Z.ltb_spec j (i + Z.of_nat 0)); simpl; try done; lia.
  - rewrite (proj2 (Z.ltb_lt i 8)) by lia.
    destruct (IH (i + 1) (Z.lxor res (Z.shiftl 1 i))) as (m & -> & Hm); [lia..|].
    exists m; split; [done|]. intros j Hj. rewrite (Hm j Hj).
    rewrite Z.lxor_spec, Z.shiftl_1_l.
    destruct (decide (i = j)) as [->|Hne].
    + rewrite Z.pow2_bits_true by lia.
      destruct (Z.leb_spec (j + 1) j); [lia|]. simpl.
      rewrite (proj2 (Z.leb_le j j)), (proj2 (Z.ltb_lt _ _)) by lia.
      by rewrite xorb_true_r.
    + rewrite Z.pow2_bits_false, xorb_false_r by lia.
      destruct (Z.leb_spec (i + 1) j), (Z.leb_spec i j),
        (Z.ltb_spec j (i + 1 + Z.of_nat n)), (Z.ltb_spec j (i + Z.of_nat (S n)));
        simpl; try done; lia.
Qed.

Lemma srd_mask_spec lo hi :
  0 <= lo -> lo <= hi < 8 ->
  exists m, srd_mask lo hi = Ret m /\ 0 <= m < 2 ^ 8 /\
    forall j, 0 <= j < 8 -> Z.testbit m j = negb ((lo <=? j) && (j <=? hi)).
Proof.
  intros Hlo Hhi. unfold srd_mask.
  destruct (srd_fold_spec (Z.to_nat (hi - lo + 1)) lo 255) as (m & Hm & Hbits); [lia..|].
  exists m; split; [done|].
  assert (H255 : forall j, 0 <= j -> Z.testbit 255 j = (j <? 8)).
  { intros j Hj. change 255 with (Z.ones 8). by apply Z.testbit_ones_nonneg. }
  assert (Hb : forall j, 0 <= j -> Z.testbit m j =
     (j <? 8) && negb ((lo <=? j) && (j <=? hi))).
  { intros j Hj. rewrite Hbits, H255 by done.
    destruct (Z.leb_spec lo j), (Z.ltb_spec j (lo + Z.of_nat (Z.to_nat (hi - lo + 1)))),
      (Z.ltb_spec j 8), (Z.leb_spec j hi); simpl; try done; lia. }
  split.
  - assert (m = Z.land m (Z.ones 8)) as ->.
    { apply Z.bits_inj'. intros j Hj.
      rewrite Z.land_spec, Z.testbit_ones_nonneg, Hb by lia.
      destruct (Z.ltb_spec j 8); simpl; [by rewrite andb_true_r|done]. }
    rewrite Z.land_ones by lia. apply Z.mod_pos_bound. lia.
  - intros j Hj. rewrite Hb by lia. by rewrite (proj2 (Z.ltb_lt j 8)) by lia.
Qed.

Definition subregions_ok (k : Z) (sub : option (Z * Z)) : Prop :=
  match sub with
  | Some (lo, hi) => 0 <= lo /\ lo <= hi < 8 /\ 3 <= k
  | None => True
  end.

Definition in_subregions (d k : Z) (sub : option (Z * Z)) : Prop :=
  match sub with
  | Some (lo, hi) => lo <= d / (2 ^ k / 8) <= hi
  | None => True
  end.

(** The region's registers name region [num] explicitly. *)
Definition numbered (r : CortexMRegion) (num : Z) : Prop :=
  Z.testbit (Reg.fv_value (base_address r)) 4 = true /\
  Reg.field_read 32 RBAR_REGION (Reg.fv_value (base_address r)) = num.

Lemma testbit_val o n v i :
  0 <= o -> 0 < n -> o + n <= 32 -> 0 <= i ->
  Z.testbit (Reg.fv_value (val (Reg.register_field o n) v)) i =
    (o <=? i) && (i <? o + n) && Z.testbit v (i - o).
Proof. intros. by apply (Reg.field_val_testbit 32 ltac:(lia)); [apply field_32|]. Qed.

Lemma region_empty_numbered num : 0 <= num < 16 -> numbered (region_empty num) num.
Proof.
  intros Hn. unfold numbered, region_empty. cbn [base_address]. split.
  - cbn [Reg.fv_add Reg.fv_value]. rewrite Z.lor_spec. reflexivity.
  - read_fields. done.
Qed.

Lemma region_empty_covers num a : covers (region_empty num) a = false.
Proof. reflexivity. Qed.

Lemma pow2_eighth k : 3 <= k -> 2 ^ k / 8 = 2 ^ (k - 3) /\ 2 ^ k = 2 ^ (k - 3) * 8.
Proof.
  intros Hk. change 8 with (2 ^ 3). rewrite <- Z.pow_sub_r, <- Z.pow_add_r by lia.
  split; [done|]. f_equal. lia.
Qed.

Lemma size_div8 k d :
  3 <= k -> 0 <= d < 2 ^ k -> 0 <= d / (2 ^ k / 8) < 8.
Proof.
  intros Hk Hd. pose proof (pow2_eighth k Hk) as [-> Hp].
  assert (0 < 2 ^ (k - 3)) by (apply Z.pow_pos_nonneg; lia).
  split; [apply Z.div_pos; lia|]. apply Z.div_lt_upper_bound; lia.
Qed.

Lemma shift5_roundtrip z : z mod 32 = 0 -> Z.shiftl (Z.shiftr z 5) 5 = z.
Proof.
  intros Hm. rewrite Z.shiftl_mul_pow2, Z.shiftr_div_pow2 by lia.
  change (2 ^ 5) with 32. pose proof (Z.div_mod z 32). lia.
Qed.

Lemma access_bits_clean p :
  Reg.field_read 32 RASR_SIZE (Reg.fv_value (fst (access_bits p))) = 0 /\
  Reg.field_read 32 RASR_SIZE (Reg.fv_value (snd (access_bits p))) = 0 /\
  Reg.field_read 32 RASR_SRD (Reg.fv_value (fst (access_bits p))) = 0 /\
  Reg.field_read 32 RASR_SRD (Reg.fv_value (snd (access_bits p))) = 0.
Proof. by destruct p. Qed.

(** The subregion mask of a region: a bit is clear where a subregion is used. *)
Lemma region_mask_spec k sub :
  subregions_ok k sub ->
  exists m, 0 <= m < 2 ^ 8 /\
    (match sub with
     | Some (lo, hi) => srd_mask lo hi = Ret m
     | None => m = 0 end) /\
    forall d, 0 <= d < 2 ^ k ->
      (negb (Z.testbit m (d / (2 ^ k / 8))) = true <-> in_subregions d k sub).
Proof.
  intros Hsub. destruct sub as [[lo hi]|]; simpl in *.
  - destruct Hsub as (? & ? & ?).
    destruct (srd_mask_spec lo hi) as (m & Hm & Hmr & Hb); [lia..|].
    exists m; split; [done|]; split; [done|]. intros d Hd.
    rewrite Hb by (by apply size_div8). rewrite negb_involutive.
    rewrite andb_true_iff, !Z.leb_le. done.
  - exists 0; split; [lia|]; split; [done|]. intros d Hd. rewrite Z.bits_0. done.
Qed.

(** The attribute register of a region. *)
Lemma region_attributes_spec access execute k sub m :
  1 <= k <= 31 -> 0 <= m < 2 ^ 8 ->
  Reg.field_read 32 RASR_SIZE (Reg.fv_value access) = 0 ->
  Reg.field_read 32 RASR_SIZE (Reg.fv_value execute) = 0 ->
  Reg.field_read 32 RASR_SRD (Reg.fv_value access) = 0 ->
  Reg.field_read 32 RASR_SRD (Reg.fv_value execute) = 0 ->
  match sub with Some (lo, hi) => srd_mask lo hi = Ret m | None => m = 0 end ->
  let attr := Reg.fv_add (Reg.fv_add (Reg.fv_add RASR_ENABLE_SET
                (val RASR_SIZE (k - 1))) access) execute in
  exists at', match sub with
      | Some (lo, hi) => let! mask := srd_mask lo hi in
                         Ret (Reg.fv_add attr (val RASR_SRD mask))
      | None => Ret attr end = Ret at' /\
    Z.testbit (Reg.fv_value at') 0 = true /\
    Reg.field_read 32 RASR_SIZE (Reg.fv_value at') = k - 1 /\
    Reg.field_read 32 RASR_SRD (Reg.fv_value at') = m.
Proof.
  intros Hk Hmr Ha1 Ha2 Ha3 Ha4 Hm attr. destruct sub as [[lo hi]|].
  - rewrite Hm. cbn [obind]. eexists; split; [done|]. unfold attr.
    split_and!.
    + cbn [Reg.fv_add Reg.fv_value]. rewrite !Z.lor_spec. reflexivity.
    + read_fields. by rewrite Ha1, Ha2, !Z.lor_0_r.
    + read_fields. by rewrite Ha3, Ha4, ?Z.lor_0_l.
  - eexists; split; [done|]. unfold attr. split_and!.
    + cbn [Reg.fv_add Reg.fv_value]. rewrite !Z.lor_spec. reflexivity.
    + read_fields. by rewrite Ha1, Ha2, !Z.lor_0_r.
    + read_fields. by rewrite Ha3, Ha4, Hm.
Qed.

(** [CortexMRegion::new] programs exactly the requested range. *)
Lemma region_new_spec ls lz rs k num sub p :
  0 <= rs < U32 -> rs mod 32 = 0 -> 1 <= k <= 31 -> 0 <= num < 16 ->
  subregions_ok k sub ->
  exists r, region_new ls lz rs (2 ^ k) num sub p = Ret r /\
    location r = Some (ls, lz) /\ numbered r num /\
    forall a, covers r a = true <->
      rs <= a < rs + 2 ^ k /\ in_subregions (a - rs) k sub.
Proof.
  intros Hrs Hal Hk Hnum Hsub. unfold region_new.
  destruct (access_bits_clean p) as (Ha1 & Ha2 & Ha3 & Ha4).
  destruct (access_bits p) as [access execute]. cbn [fst snd] in *.
  assert (Hpow : 2 ^ k < U32) by (apply Z.pow_lt_mono_r; lia).
  rewrite Math.log_base_two_ok, Z.log2_pow2 by first [lia|split; lia].
  cbn [obind]. unfold sub32. rewrite checked32_ok by (unfold u32_range, U32; lia).
  cbn [obind].
  destruct (region_mask_spec k sub Hsub) as (m & Hmr & Hm & Hmb).
  set (attr := Reg.fv_add (Reg.fv_add (Reg.fv_add RASR_ENABLE_SET
                  (val RASR_SIZE (k - 1))) access) execute).
  set (base := Reg.fv_add _ (val RBAR_REGION num)).
  destruct (region_attributes_spec access execute k sub m) as (at' & Heq & Hen & Hsz & Hsrd);
    [done..|]. fold attr in Heq. rewrite Heq. cbn [obind].
  eexists; split; [done|]. split; [done|].
  assert (Hsh : 0 <= Z.shiftr rs 5 < 2 ^ 27).
  { rewrite Z.shiftr_div_pow2 by lia. unfold U32 in Hrs. split.
    - apply Z.div_pos; lia.
    - apply Z.div_lt_upper_bound; lia. }
  assert (Hbase : reg_base (Reg.fv_value base) = rs).
  { unfold reg_base, base. read_fields. by apply shift5_roundtrip. }
  split.
  { split; cbn [base_address]; unfold base.
    - cbn [Reg.fv_add Reg.fv_value]. rewrite !Z.lor_spec. apply orb_true_iff. left.
      apply orb_true_iff. right. reflexivity.
    - read_fields. done. }
  intros a. unfold covers, hw_covers. cbn [base_address attributes].
  unfold reg_bytes. rewrite Hbase, Hsz, Hsrd, Hen.
  replace (k - 1 + 1) with k by lia. cbn [andb].
  rewrite !andb_true_iff, Z.leb_le, Z.ltb_lt. split.
  - intros [Hr Hb]. split; [done|]. apply Hmb; [lia|done].
  - intros [Hr Hb]. split; [done|]. apply Hmb; [lia|done].
Qed.

(** * Bit counting *)

Lemma pos_count_ones_pos p : 1 <= pos_count_ones p.
Proof. induction p; simpl; lia. Qed.

Lemma count_ones_pow2 z :
  0 < z -> count_ones z <= 1 -> exists k, 0 <= k /\ z = 2 ^ k.
Proof.
  destruct z as [|p|p]; simpl; try lia. intros _.
  induction p as [p IH|p IH|]; simpl; intros H.
  - pose proof (pos_count_ones_pos p). lia.
  - destruct (IH H) as (k & Hk & E). exists (k + 1). split; [lia|].
    rewrite Z.pow_add_r, <- E by lia. lia.
  - by exists 0.
Qed.

Lemma trailing_zeros_spec z :
  0 < z -> exists q, 0 <= trailing_zeros z /\ z = 2 ^ trailing_zeros z * q /\
    q mod 2 = 1.
Proof.
  destruct z as [|p|p]; simpl; try lia. intros _.
  induction p as [p IH|p IH|]; simpl.
  - exists (Zpos p~1). split; [lia|]. split; [by rewrite Z.pow_0_r, Z.mul_1_l|].
    rewrite Pos2Z.inj_xI, Z.add_comm, Z.mul_comm, Z.mod_add; done.
  - destruct IH as (q & H0 & E & Hq). exists q. split; [lia|]. split; [|done].
    rewrite Pos2Z.inj_xO, Z.pow_add_r, Z.pow_1_r by lia. rewrite E at 1. ring.
  - exists 1. done.
Qed.

Lemma closest_Ret num c :
  u32_range num -> Math.closest_power_of_two num = Ret c ->
  1 <= num <= 2 ^ 31 /\ c = 2 ^ Z.log2_up num.
Proof.
  intros Hr Hc. destruct (decide (1 <= num <= 2 ^ 31)) as [Hn|Hn].
  - rewrite Math.closest_power_of_two_ok in Hc by done. by simplify_eq.
  - rewrite Math.closest_power_of_two_panics in Hc;
      [done|done|unfold u32_range in Hr; lia].
Qed.

Lemma log2_up_ge k n : 0 <= k -> 2 ^ k <= n -> k <= Z.log2_up n.
Proof.
  intros Hk Hn. rewrite <- (Z.log2_up_pow2 k) by done. by apply Z.log2_up_le_mono.
Qed.

Lemma pow2_lt_U32 k : 0 <= k -> 2 ^ k < U32 -> k <= 31.
Proof. intros Hk H. apply (Z.pow_lt_mono_r_iff 2 k 32) in H; lia. Qed.

Lemma pow2_mod32 k q : 5 <= k -> (2 ^ k * q) mod 32 = 0.
Proof.
  intros Hk. replace k with (k - 5 + 5) by lia. rewrite Z.pow_add_r by lia.
  change (2 ^ 5) with 32. rewrite <- Z.mul_assoc, (Z.mul_comm 32), Z.mul_assoc.
  by apply Z.mod_mul.
Qed.

(** * Region planning *)

(** A plan for a logical region: power-of-two sized, aligned, and enabled
    exactly on the logical range. *)
Definition plan_ok (start size rs rz : Z) (sub : option (Z * Z)) : Prop :=
  exists k, rz = 2 ^ k /\ 5 <= k <= 31 /\ u32_range rs /\ rs mod 2 ^ k = 0 /\
    subregions_ok k sub /\
    forall a, rs <= a < rs + 2 ^ k /\ in_subregions (a - rs) k sub <->
      start <= a < start + size.

Lemma aligned_mod32 rs k : 5 <= k -> rs mod 2 ^ k = 0 -> rs mod 32 = 0.
Proof.
  intros Hk Hm. assert (0 < 2 ^ k) by (apply Z.pow_pos_nonneg; lia).
  pose proof (Z.div_mod rs (2 ^ k) ltac:(lia)) as E. rewrite Hm, Z.add_0_r in E.
  rewrite E. by apply pow2_mod32.
Qed.

Lemma plan_whole start k :
  5 <= k <= 31 -> u32_range start -> start mod 2 ^ k = 0 ->
  plan_ok start (2 ^ k) start (2 ^ k) None.
Proof.
  intros Hk Hs Hm. exists k. split_and!; try done; try lia.
  intros a. simpl. lia.
Qed.

(** Covering a range of subregions of size [2^t]. *)
Lemma plan_subregions start size t :
  5 <= t -> t + 3 <= 31 -> u32_range start -> 0 < size ->
  start mod 2 ^ t = 0 -> size mod 2 ^ t = 0 ->
  let rs := start - start mod 2 ^ (t + 3) in
  start + size <= rs + 2 ^ (t + 3) ->
  plan_ok start size rs (2 ^ (t + 3))
    (Some ((start - rs) / 2 ^ t, (start - rs) / 2 ^ t + size / 2 ^ t - 1)).
Proof.
  intros Ht1 Ht2 Hs Hz Hms Hmz rs Hfit.
  assert (HS : 0 < 2 ^ t) by (apply Z.pow_pos_nonneg; lia).
  assert (HU : 2 ^ (t + 3) = 2 ^ t * 8) by (by rewrite Z.pow_add_r by lia).
  pose proof (Z.mod_pos_bound start (2 ^ (t + 3)) ltac:(lia)) as Hmod.
  assert (Hd : (start - rs) = 2 ^ t * ((start - rs) / 2 ^ t)).
  { apply Z_div_exact_full_2; [lia|]. unfold rs.
    replace (start - (start - start mod 2 ^ (t + 3))) with (start mod 2 ^ (t + 3)) by lia.
    rewrite HU. rewrite (Z.rem_mul_r start (2 ^ t) 8) by lia.
    by rewrite (Z.mul_comm (2 ^ t)), Z.mod_add, Z.mod_mod by lia. }
  assert (Hq : size = 2 ^ t * (size / 2 ^ t)) by (apply Z_div_exact_full_2; lia).
  set (lo := (start - rs) / 2 ^ t) in *. set (q := size / 2 ^ t) in *.
  exists (t + 3). split; [done|]. split; [lia|]. unfold u32_range in *.
  split; [unfold rs; pose proof (Z.mod_le start (2 ^ (t + 3))); lia|].
  split.
  { unfold rs. apply Z.mod_divide; [lia|]. exists (start / 2 ^ (t + 3)).
    pose proof (Z.div_mod start (2 ^ (t + 3)) ltac:(lia)). lia. }
  assert (0 <= lo) by nia. assert (1 <= q) by nia. assert (lo + q <= 8) by nia.
  split; [simpl; lia|].
  intros a. unfold in_subregions. rewrite (proj1 (pow2_eighth (t + 3) ltac:(lia))).
  replace (t + 3 - 3) with t by lia.
  pose proof (Z.div_mod (a - rs) (2 ^ t) ltac:(lia)) as Ea.
  pose proof (Z.mod_pos_bound (a - rs) (2 ^ t) HS).
  set (i := (a - rs) / 2 ^ t) in *. rewrite HU. split; intros; nia.
Qed.

Lemma subregion_size_for_spec start size S :
  u32_range start -> u32_range size -> subregion_size_for start size = Ret S ->
  exists t, 0 <= t /\ S = 2 ^ t /\ start mod 2 ^ t = 0.
Proof.
  intros Hs Hz. unfold subregion_size_for.
  destruct (Z.ltb_spec (trailing_zeros start) 32) as [Htz|Htz]; intros H.
  - inv_ret. destruct (decide (start = 0)) as [->|].
    { simpl in Htz. lia. }
    destruct (trailing_zeros_spec start) as (q & H0 & E & _); [unfold u32_range in *; lia|].
    exists (trailing_zeros start). rewrite Z.shiftl_1_l. split_and!; [done..|].
    rewrite E at 1. rewrite Z.mul_comm. apply Z.mod_mul.
    pose proof (Z.pow_pos_nonneg 2 (trailing_zeros start)). lia.
  - inv_ret. apply closest_Ret in Hret as [Hn ->]; [|done].
    assert (start = 0) as ->.
    { destruct (decide (start = 0)) as [|Hne]; [done|exfalso].
      destruct (trailing_zeros_spec start) as (q & H0 & E & Hq);
        [unfold u32_range in *; lia|].
      assert (HP : 2 ^ 32 <= 2 ^ trailing_zeros start) by (apply Z.pow_le_mono_r; lia).
      unfold u32_range, U32 in *. revert E HP. generalize (2 ^ trailing_zeros start).
      clear - Hs Hne. intros P E HP. destruct (decide (1 <= q)); nia. }
    pose proof (Z.log2_up_nonneg size).
    destruct (Z.ltb_spec (2 ^ Z.log2_up size) 256).
    + exists 5. done.
    + assert (8 <= Z.log2_up size) by (apply (Z.pow_le_mono_r_iff 2); lia).
      destruct (pow2_eighth (Z.log2_up size)) as [-> _]; [lia|].
      exists (Z.log2_up size - 3). split_and!; [lia|done|by rewrite Z.mod_0_l by (apply Z.pow_nonzero; lia)].
Qed.

(** The size rounded up to a multiple of [S]. *)
Lemma round_up_spec size S :
  0 < S ->
  let size' := if negb (size mod S =? 0) then size + (S - size mod S) else size in
  size <= size' < size + S /\ size' mod S = 0.
Proof.
  intros HS. pose proof (Z.mod_pos_bound size S HS).
  destruct (Z.eqb_spec (size mod S) 0) as [E|E]; simpl.
  - split; [lia|done].
  - split; [lia|]. pose proof (Z.div_mod size S ltac:(lia)).
    apply Z.mod_divide; [lia|]. exists (size / S + 1). lia.
Qed.

Lemma plan_region_sound start size s' z' rs rz sub :
  u32_range start -> start mod 32 = 0 -> 32 <= size < U32 ->
  plan_region start size = Ret (s', z', rs, rz, sub) ->
  start <= s' /\ size <= z' /\ plan_ok s' z' rs rz sub.
Proof.
  intros Hs Hm32 Hsz. unfold plan_region. intros H. do 2 inv_ret_step.
  destruct ((1 <? count_ones size) || negb (start mod size =? 0)) eqn:Hb.
  2: { apply orb_false_iff in Hb as [Hc Ha].
       apply Z.ltb_ge in Hc. apply negb_false_iff, Z.eqb_eq in Ha.
       destruct (count_ones_pow2 size) as (k & Hk & ->); [lia..|].
       inv_ret. split; [lia|]. split; [lia|]. apply plan_whole; [|done..].
       split; [apply (Z.pow_le_mono_r_iff 2); lia|apply pow2_lt_U32; lia]. }
  inv_ret. rename x0 into size', x into S.
  apply subregion_size_for_spec in Hret0 as (t & Ht0 & -> & Hmt);
    [|done|unfold u32_range; lia].
  assert (HS : 0 < 2 ^ t) by (apply Z.pow_pos_nonneg; lia).
  assert (Hsize' : size <= size' /\ size' mod 2 ^ t = 0).
  { pose proof (round_up_spec size (2 ^ t) HS) as Hr. simpl in Hr.
    destruct (negb (size mod 2 ^ t =? 0)); inv_ret; split; (lia || apply Hr). }
  destruct Hsize' as [Hle Hmz]. unfold u32_range in *.
  change 8 with (2 ^ 3) in *. rewrite <- Z.pow_add_r in * by lia.
  destruct ((32 <=? 2 ^ t) && _) eqn:Hfit.
  - apply andb_true_iff in Hfit as [H32 Hfit].
    apply Z.leb_le in H32. apply Z.leb_le in Hfit.
    assert (5 <= t) by (apply (Z.pow_le_mono_r_iff 2); lia).
    assert (t + 3 <= 31) by (apply pow2_lt_U32; lia).
    inv_ret. split; [lia|]. split; [lia|]. apply plan_subregions; try done; lia.
  - inv_ret. apply closest_Ret in Hret0 as [Hn ->]; [|unfold u32_range; lia].
    pose proof (Math.log2_up_bounds size' ltac:(lia)) as Hup.
    set (P := 2 ^ Z.log2_up size') in *.
    pose proof (Z.mod_pos_bound start P ltac:(lia)).
    split; [lia|]. split; [lia|]. unfold P. apply plan_whole.
    + split; [apply log2_up_ge; lia|].
      rewrite <- (Z.log2_up_pow2 31) by lia. apply Z.log2_up_le_mono. lia.
    + fold P. unfold u32_range in *. lia.
    + apply Z.mod_divide; [lia|]. exists (start / P + 1).
      pose proof (Z.div_mod start P ltac:(lia)). fold P. lia.
Qed.
(** * Well-formed configurations *)

(** The registers of region [i] of a configuration name region [i] and enable
    nothing outside the region's logical location. *)
Definition region_wf (i : nat) (r : CortexMRegion) : Prop :=
  numbered r (Z.of_nat i) /\
  forall a, covers r a = true ->
    exists ls lz, location r = Some (ls, lz) /\ ls <= a < ls + lz.

Lemma region_wf_unused i r a :
  region_wf i r -> location r = None -> covers r a = false.
Proof.
  intros [_ Hr] Hl. destruct (covers r a) eqn:Hc; [|done].
  destruct (Hr a Hc) as (? & ? & ? & _). congruence.
Qed.

Definition config_wf (c : CortexMConfig) : Prop :=
  (2 <= length (regions c) <= 16)%nat /\
  forall i r, regions c !! i = Some r -> region_wf i r.

Lemma region_empty_wf i : (i < 16)%nat -> region_wf i (region_empty (Z.of_nat i)).
Proof. intros Hi. split; [apply region_empty_numbered; lia|done]. Qed.

Lemma config_wf_insert c i r d :
  config_wf c -> region_wf i r ->
  config_wf (mkCortexMConfig (id c) (<[i := r]> (regions c)) d).
Proof.
  intros [Hl Hwf] Hr. split; cbn [regions]; [by rewrite length_insert|].
  intros j r'. rewrite list_lookup_insert. case_decide as Hj; [|apply Hwf].
  intros ?; simplify_eq. destruct Hj as [-> _]. done.
Qed.

Lemma exposes_insert c i r r0 d a :
  regions c !! i = Some r0 -> covers r0 a = false ->
  exposes (mkCortexMConfig (id c) (<[i := r]> (regions c)) d) a <->
  exposes c a \/ covers r a = true.
Proof.
  intros Hi Hr0. pose proof (lookup_lt_Some _ _ _ Hi) as Hlt.
  unfold exposes. cbn [regions]. split.
  - intros (j & r' & Hj & Hc). destruct (decide (i = j)) as [<-|Hne].
    + rewrite list_lookup_insert_eq in Hj by done. simplify_eq. by right.
    + rewrite list_lookup_insert_ne in Hj by done. left. eauto.
  - intros [(j & r' & Hj & Hc)|Hc].
    + exists j, r'. split; [|done]. rewrite list_lookup_insert_ne; [done|].
      intros <-. rewrite Hi in Hj. simplify_eq. congruence.
    + exists i, r. by rewrite list_lookup_insert_eq.
Qed.

Lemma unused_from_spec k rs n :
  unused_from k rs = Some n ->
  (k <= n)%nat /\ (2 <= n)%nat /\
  exists r, rs !! (n - k)%nat = Some r /\ location r = None.
Proof.
  revert k; induction rs as [|r rs IH]; intros k; [done|]. simpl.
  assert (Hrec : unused_from (S k) rs = Some n ->
    (k <= n)%nat /\ (2 <= n)%nat /\
    exists r0, (r :: rs) !! (n - k)%nat = Some r0 /\ location r0 = None).
  { intros (Hk & H2 & r' & Hr & Hl)%IH. split_and!; [lia|lia|].
    exists r'; split; [|done]. by replace (n - k)%nat with (S (n - S k)) by lia. }
  unfold APP_MEMORY_REGION_MAX_NUM.
  destruct (Nat.leb_spec k 1); [done|].
  destruct (location r) eqn:El; [done|]. intros ?; simplify_eq.
  split_and!; [lia|lia|]. exists r. by rewrite Nat.sub_diag.
Qed.

Lemma any_overlap_false rs u n i r ls lz :
  any_overlap rs u n = Ret false -> rs !! i = Some r -> location r = Some (ls, lz) ->
  ls + lz <= u \/ u + n <= ls.
Proof.
  revert i; induction rs as [|r' rs IH]; intros i H; [done|].
  simpl in H. inv_ret_step. destruct x; [inv_ret|].
  destruct i as [|i]; simpl; [|by apply (IH i)].
  intros ? Hl; simplify_eq. unfold overlaps in Hret. rewrite Hl in Hret. inv_ret.
  apply andb_false_iff in H0. rewrite !Z.ltb_ge in H0. lia.
Qed.

Section with_generics.
  Context (NUM_REGIONS : nat) (MIN_REGION_SIZE : Z).
  Context (Hmin : 32 <= MIN_REGION_SIZE < U32) (Hmin32 : MIN_REGION_SIZE mod 32 = 0).

Lemma align_min u :
  u32_range u ->
  forall s, (if negb (u mod MIN_REGION_SIZE =? 0) then
               let! d := sub32 MIN_REGION_SIZE (u mod MIN_REGION_SIZE) in add32 u d
             else Ret u) = Ret s ->
  u <= s /\ u32_range s /\ s mod 32 = 0.
Proof using Hmin Hmin32.
  intros Hu s H. pose proof (Z.mod_pos_bound u MIN_REGION_SIZE ltac:(lia)).
  assert (Hs : s mod MIN_REGION_SIZE = 0 /\ u <= s /\ u32_range s).
  { destruct (Z.eqb_spec (u mod MIN_REGION_SIZE) 0); simpl in H; inv_ret; [by split_and!|].
    split_and!; [|lia|done]. apply Z.mod_divide; [lia|].
    exists (u / MIN_REGION_SIZE + 1).
    pose proof (Z.div_mod u MIN_REGION_SIZE ltac:(lia)). lia. }
  destruct Hs as (Hm & ? & ?). split_and!; [done..|].
  apply Z.mod_divide in Hm; [|lia]. apply Z.mod_divide; [lia|].
  apply Z.mod_divide in Hmin32; [|lia]. by transitivity MIN_REGION_SIZE.
Qed.

Lemma allocate_region_sound u n m p c reg c' :
  config_wf c -> u32_range u -> 0 <= m < U32 ->
  cm_allocate_region MIN_REGION_SIZE u n m p c = Ret (Some reg, c') ->
  config_wf c' /\
  u <= start_address reg /\ Z.max 1 m <= region_size reg /\
  start_address reg + region_size reg <= u + n /\
  (forall a, exposes c' a <-> exposes c a \/
     start_address reg <= a < start_address reg + region_size reg) /\
  exists i r, (2 <= i)%nat /\ regions c' = <[i := r]> (regions c) /\
    location r = Some (start_address reg, region_size reg).
Proof using Hmin Hmin32.
  intros Hwf Hu Hm. unfold cm_allocate_region. intros H. inv_ret_step.
  destruct x; [inv_ret|].
  destruct (unused_region_number c) as [num|] eqn:Hun; [|inv_ret].
  apply unused_from_spec in Hun as (_ & H2 & r0 & Hr0 & Hl0).
  rewrite Nat.sub_0_r in Hr0. do 2 inv_ret_step.
  inv_ret_step. apply align_min in Hret1 as (Hux & Hx & Hx32); [|done].
  inv_ret_step. destruct x0 as [[[[s' z'] rs] rz] sub].
  set (size := if m <? MIN_REGION_SIZE then MIN_REGION_SIZE else m) in *.
  assert (Hsize : 32 <= size < U32 /\ m <= size)
    by (unfold size; destruct (Z.ltb_spec m MIN_REGION_SIZE); lia).
  apply plan_region_sound in Hret1 as (Hs & Hz & k & -> & Hk & Hrs & Hal & Hsub & Hcov);
    [|done|done|lia].
  do 4 inv_ret_step.
  destruct (Z.ltb_spec (u + n) (s' + z')); [inv_ret|].
  pose proof (lookup_lt_Some _ _ _ Hr0) as Hlt. pose proof Hwf as [Hlen Hall].
  destruct (region_new_spec s' z' rs k (Z.of_nat num) sub p) as
    (r & Hr & Hloc & Hnum & Hc); [done|apply (aligned_mod32 _ k); [lia|done]|lia|lia|done|].
  rewrite Hr in H. cbn [obind] in H. rewrite set_index_ok in H by done.
  cbn [obind] in H. inv_ret. cbn [start_address region_size].
  split.
  { apply config_wf_insert; [done|]. split; [done|]. intros a Ha.
    exists s', z'. split; [done|]. by apply Hcov, Hc. }
  split_and!; [lia..| |].
  - intros a. rewrite (exposes_insert _ _ _ r0), Hc, Hcov; [done|done|].
    by apply (region_wf_unused num); [apply Hall|].
  - exists num, r. split_and!; [done|done|done].
Qed.

End with_generics.

(** * App memory *)

Lemma prefix_subregions rs k m a :
  3 <= k -> 1 <= m <= 8 ->
  (rs <= a < rs + 2 ^ k /\ in_subregions (a - rs) k (Some (0, m - 1))) <->
  rs <= a < rs + m * 2 ^ (k - 3).
Proof.
  intros Hk Hm. unfold in_subregions.
  destruct (pow2_eighth k Hk) as [-> HU]. rewrite HU.
  assert (HS : 0 < 2 ^ (k - 3)) by (apply Z.pow_pos_nonneg; lia).
  pose proof (Z.div_mod (a - rs) (2 ^ (k - 3)) ltac:(lia)).
  pose proof (Z.mod_pos_bound (a - rs) (2 ^ (k - 3)) HS).
  set (S := 2 ^ (k - 3)) in *. set (i := (a - rs) / S) in *. split; intros; nia.
Qed.

Lemma region_new_prefix ls rs k m num p :
  u32_range rs -> rs mod 32 = 0 -> 8 <= k <= 31 -> 0 <= num < 16 -> 1 <= m <= 8 ->
  exists r, region_new ls (2 ^ k) rs (2 ^ k) num (Some (0, m - 1)) p = Ret r /\
    location r = Some (ls, 2 ^ k) /\ numbered r num /\
    forall a, covers r a = true <-> rs <= a < rs + m * 2 ^ (k - 3).
Proof.
  intros Hrs Hm32 Hk Hnum Hm.
  destruct (region_new_spec ls (2 ^ k) rs k num (Some (0, m - 1)) p)
    as (r & Hr & Hl & Hn & Hc); [done|done|lia|done|simpl; lia|].
  exists r; split_and!; [done..|]. intros a. rewrite Hc. apply prefix_subregions; lia.
Qed.

Lemma app_regions_spec rs k n p c :
  config_wf c -> u32_range rs -> rs mod 32 = 0 -> 8 <= k <= 31 -> 1 <= n <= 16 ->
  (8 < n -> rs + 2 ^ k < U32) ->
  exists c' r0 r1, app_regions rs (2 ^ k) n p c = Ret c' /\ config_wf c' /\
    regions c' = <[1%nat := r1]> (<[0%nat := r0]> (regions c)) /\
    location r0 = Some (rs, 2 ^ k) /\
    (location r1 = None \/ location r1 = Some (rs + 2 ^ k, 2 ^ k)) /\
    forall a, covers r0 a = true \/ covers r1 a = true <->
      rs <= a < rs + n * 2 ^ (k - 3).
Proof.
  intros Hwf Hrs Hm32 Hk Hn Hfit. pose proof Hwf as [Hlen _].
  destruct (pow2_eighth k ltac:(lia)) as [_ HU].
  assert (HS : 0 < 2 ^ (k - 3)) by (apply Z.pow_pos_nonneg; lia).
  unfold app_regions, sub32.
  rewrite checked32_ok by (unfold u32_range, U32; lia). cbn [obind].
  destruct (region_new_prefix rs rs k (Z.min n 8) 0 p) as (r0 & -> & Hl0 & Hn0 & Hc0);
    [done|done|lia..|]. cbn [obind].
  assert (Hr1 : exists r1, (if saturating_sub n 8 =? 0 then Ret (region_empty 1)
     else
       let! s := add32 rs (2 ^ k) in
       let! last1 := checked32 (saturating_sub n 8 - 1) in
       region_new s (2 ^ k) s (2 ^ k) 1 (Some (0, last1)) p) = Ret r1 /\
     region_wf 1 r1 /\
     (location r1 = None \/ location r1 = Some (rs + 2 ^ k, 2 ^ k)) /\
     forall a, covers r1 a = true <->
       rs + 2 ^ k <= a < rs + 2 ^ k + saturating_sub n 8 * 2 ^ (k - 3)).
  { unfold saturating_sub in *. destruct (Z.eqb_spec (Z.max 0 (n - 8)) 0) as [E|E].
    - exists (region_empty 1). split; [done|]. split; [by apply (region_empty_wf 1); lia|].
      split; [by left|].
      intros a. rewrite region_empty_covers, E. split; [done|lia].
    - unfold add32. unfold u32_range in *.
      rewrite !checked32_ok by (unfold u32_range, U32 in *; lia). cbn [obind].
      destruct (region_new_prefix (rs + 2 ^ k) (rs + 2 ^ k) k (Z.max 0 (n - 8)) 1 p)
        as (r1 & -> & Hl & Hnm & Hc); [unfold u32_range; lia| |lia..|].
      + rewrite Z.add_mod, Hm32 by lia. rewrite <- (Z.mul_1_r (2 ^ k)), pow2_mod32 by lia.
        done.
      + exists r1. split; [done|]. split; [|split; [by right|done]].
        split; [done|]. intros a Ha%Hc. exists (rs + 2 ^ k), (2 ^ k).
        split; [done|]. nia. }
  destruct Hr1 as (r1 & -> & Hwf1 & Hl1 & Hc1). cbn [obind].
  rewrite set_index_ok by lia. cbn [obind].
  rewrite set_index_ok by (rewrite length_insert; lia). cbn [obind].
  eexists _, r0, r1. split; [done|]. split.
  { apply (config_wf_insert (mkCortexMConfig (id c) (<[0%nat:=r0]> (regions c)) true));
      [|done]. apply config_wf_insert; [done|]. split; [done|].
    intros a Ha%Hc0. exists rs, (2 ^ k). split; [done|]. nia. }
  split_and!; [done|done|done|]. intros a. rewrite Hc0, Hc1. rewrite HU.
  unfold saturating_sub. destruct (Z.le_ge_cases n 8).
  - rewrite Z.min_l, Z.max_l by lia. lia.
  - rewrite Z.min_r, Z.max_r by lia. nia.
Qed.

Lemma app_regions_sound rs k n p c c' :
  config_wf c -> u32_range rs -> rs mod 32 = 0 -> 8 <= k <= 31 -> 0 <= n <= 16 ->
  app_regions rs (2 ^ k) n p c = Ret c' ->
  1 <= n /\
  exists r0 r1, config_wf c' /\
    regions c' = <[1%nat := r1]> (<[0%nat := r0]> (regions c)) /\
    location r0 = Some (rs, 2 ^ k) /\
    (location r1 = None \/ location r1 = Some (rs + 2 ^ k, 2 ^ k)) /\
    forall a, covers r0 a = true \/ covers r1 a = true <->
      rs <= a < rs + n * 2 ^ (k - 3).
Proof.
  intros Hwf Hrs Hm32 Hk Hn Happ.
  assert (Hn1 : 1 <= n).
  { apply obind_Ret in Happ as (z & Hz & _).
    apply checked32_Ret in Hz as [_ Hz]. unfold u32_range in Hz. lia. }
  split; [done|]. destruct (app_regions_spec rs k n p c) as (c1 & r0 & r1 & Hrun & Hrest);
    [done|done|done|done|lia| |].
  - intros Hn8. unfold app_regions in Happ.
    apply obind_Ret in Happ as (? & _ & Happ).
    apply obind_Ret in Happ as (? & _ & Happ).
    apply obind_Ret in Happ as (? & Hr1 & _).
    unfold saturating_sub in Hr1. rewrite (proj2 (Z.eqb_neq _ _)) in Hr1 by lia.
    apply obind_Ret in Hr1 as (? & Hadd & _).
    apply checked32_Ret in Hadd as [_ Hadd]. apply Hadd.
  - rewrite Hrun in Happ. inv_ret. exists r0, r1. exact Hrest.
Qed.

(** The app-memory regions of [c] belong to the block [start, start + len), and
    no other region reaches into the block. *)
Definition cm_manages (c : CortexMConfig) (start len : Z) : Prop :=
  config_wf c /\ u32_range start /\ 0 <= len /\
  exists k r0, 8 <= k <= 31 /\ start mod 32 = 0 /\ len <= 2 * 2 ^ k /\
    regions c !! 0%nat = Some r0 /\ location r0 = Some (start, 2 ^ k) /\
    forall i r a, (2 <= i)%nat -> regions c !! i = Some r ->
      start <= a < start + len -> covers r a = false.

Lemma div_round_up a S : 0 < S -> 0 <= a -> a <= (a + S - 1) / S * S < a + S.
Proof.
  intros HS Ha. pose proof (Z.div_mod (a + S - 1) S ltac:(lia)).
  pose proof (Z.mod_pos_bound (a + S - 1) S HS). lia.
Qed.

(** After the app regions are set to the first [n] subregions, the block is
    exposed exactly below [start + n * S]. *)
Lemma app_regions_exposes c c' r0 r1 start len n S a :
  config_wf c ->
  regions c' = <[1%nat := r1]> (<[0%nat := r0]> (regions c)) ->
  (forall a, covers r0 a = true \/ covers r1 a = true <-> start <= a < start + n * S) ->
  (forall i r a, (2 <= i)%nat -> regions c !! i = Some r ->
      start <= a < start + len -> covers r a = false) ->
  start <= a < start + len ->
  (exposes c' a <-> a < start + n * S).
Proof.
  intros [Hl _] Hreg Hcov Hoth Ha. unfold exposes. rewrite Hreg. split.
  - intros (i & r & Hi & Hc).
    destruct (decide (i = 1%nat)) as [->|].
    { rewrite list_lookup_insert_eq in Hi by (rewrite length_insert; lia).
      simplify_eq. apply Hcov. by right. }
    rewrite list_lookup_insert_ne in Hi by done.
    destruct (decide (i = 0%nat)) as [->|].
    { rewrite list_lookup_insert_eq in Hi by lia. simplify_eq. apply Hcov. by left. }
    rewrite list_lookup_insert_ne in Hi by done.
    rewrite (Hoth i r a) in Hc; [done|lia|done|done].
  - intros Hlt. destruct (proj2 (Hcov a)) as [Hc|Hc]; [lia| |].
    + exists 0%nat, r0. rewrite list_lookup_insert_ne by done.
      by rewrite list_lookup_insert_eq by lia.
    + exists 1%nat, r1.
      by rewrite list_lookup_insert_eq by (rewrite length_insert; lia).
Qed.

Lemma app_regions_only c c' r0 r1 start e a :
  config_wf c ->
  regions c' = <[1%nat := r1]> (<[0%nat := r0]> (regions c)) ->
  (forall a, covers r0 a = true \/ covers r1 a = true <-> start <= a < e) ->
  exposes c' a -> exposes c a \/ start <= a < e.
Proof.
  intros [Hl _] Hreg Hcov (i & r & Hi & Hc). rewrite Hreg in Hi.
  destruct (decide (i = 1%nat)) as [->|].
  { rewrite list_lookup_insert_eq in Hi by (rewrite length_insert; lia).
    simplify_eq. right. apply Hcov. by right. }
  rewrite list_lookup_insert_ne in Hi by done. destruct (decide (i = 0%nat)) as [->|].
  { rewrite list_lookup_insert_eq in Hi by lia. simplify_eq. right. apply Hcov. by left. }
  rewrite list_lookup_insert_ne in Hi by done. left. by exists i, r.
Qed.

Lemma update_sound c c' start len abrk kbrk p :
  cm_manages c start len -> start <= abrk -> kbrk <= start + len ->
  cm_update_app_memory_region abrk kbrk p c = Ret (Ok tt, c') ->
  cm_manages c' start len /\ abrk <= kbrk /\
  (forall a, start <= a < abrk -> exposes c' a) /\
  (forall a, kbrk <= a < start + len -> ~ exposes c' a) /\
  (forall a, exposes c' a -> exposes c a \/ start <= a < start + len).
Proof.
  intros (Hwf & Hs & Hlen & k & r0 & Hk & H32 & Hle & Hr0 & Hl0 & Hoth) Hab Hkb.
  unfold cm_update_app_memory_region. rewrite (index_ok _ _ _ Hr0). cbn [obind].
  rewrite Hl0. destruct (Z.ltb_spec kbrk abrk); [intros; inv_ret|].
  destruct (pow2_eighth k ltac:(lia)) as [-> HU].
  assert (HS : 0 < 2 ^ (k - 3)) by (apply Z.pow_pos_nonneg; lia).
  intros H1. inv_ret.
  set (S := 2 ^ (k - 3)) in *. set (n := (abrk - start + S - 1) / S) in *.
  pose proof (div_round_up (abrk - start) S HS ltac:(lia)) as Hn. fold n in Hn.
  destruct (Z.ltb_spec kbrk (start + S * n)); [inv_ret|].
  apply obind_Ret in H1 as (c2 & Happ & H1). inv_ret.
  assert (0 <= n <= 16) by nia.
  destruct (app_regions_sound start k n p c c') as
    (Hn1 & r0' & r1 & Hwf1 & Hreg & Hl0' & Hl1 & Hcov); [done..|].
  pose proof (app_regions_exposes c c' r0' r1 start len n S) as Hexp.
  split_and!; [|done| | |].
  - split; [done|]. split; [done|]. split; [done|].
    exists k, r0'. split; [done|]. split; [done|]. split; [done|]. destruct Hwf as [Hl _].
    split_and!; [|done|].
    + rewrite Hreg, list_lookup_insert_ne by done. by rewrite list_lookup_insert_eq by lia.
    + intros i r a Hi. rewrite Hreg, !list_lookup_insert_ne by lia. by apply Hoth.
  - intros a Ha. apply Hexp; [done..|lia|nia].
  - intros a Ha Hx. apply Hexp in Hx; [nia|done..|lia].
  - intros a Hx. destruct (app_regions_only c c' r0' r1 start (start + n * S) a) as [?|?];
      [done..|by left|right; nia].
Qed.

Lemma align_up_sound rs rz r :
  0 < rz -> u32_range rs -> align_up rs rz = Ret r ->
  rs <= r /\ r mod rz = 0 /\ u32_range r.
Proof.
  intros Hz Hrs. unfold align_up. intros H. do 2 inv_ret_step.
  pose proof (Z.mod_pos_bound rs rz Hz).
  destruct (Z.eqb_spec (rs mod rz) 0); simpl in H; inv_ret.
  - done.
  - split_and!; [lia| |done]. apply Z.mod_divide; [lia|]. exists (rs / rz + 1).
    pose proof (Z.div_mod rs rz ltac:(lia)). lia.
Qed.

Lemma config_region_outside c u n i r a :
  config_wf c -> any_overlap (regions c) u n = Ret false ->
  regions c !! i = Some r -> u <= a < u + n -> covers r a = false.
Proof.
  intros [_ Hwf] Hov Hi Ha. destruct (covers r a) eqn:Hc; [|done].
  destruct (proj2 (Hwf i r Hi) a Hc) as (ls & lz & Hl & Hin).
  destruct (any_overlap_false _ _ _ _ _ _ _ Hov Hi Hl); lia.
Qed.

Lemma allocate_app_finish u n c c' rs len k num p :
  config_wf c -> any_overlap (regions c) u n = Ret false ->
  u32_range rs -> rs mod 2 ^ k = 0 -> 8 <= k <= 31 -> 0 <= len <= 2 * 2 ^ k ->
  u <= rs -> rs + len <= u + n -> 0 <= num <= 16 ->
  app_regions rs (2 ^ k) num p c = Ret c' ->
  cm_manages c' rs len /\
  (forall a, rs <= a < rs + len -> (exposes c' a <-> a < rs + num * 2 ^ (k - 3))) /\
  forall a, exposes c' a -> exposes c a \/ rs <= a < rs + num * 2 ^ (k - 3).
Proof.
  intros Hwf Hov Hrs Hal Hk Hlen Hu Hfit Hnum Happ.
  assert (H32 : rs mod 32 = 0) by (apply (aligned_mod32 _ k); [lia|done]).
  destruct (app_regions_sound rs k num p c c') as
    (Hn1 & r0 & r1 & Hwf' & Hreg & Hl0 & Hl1 & Hcov); [done..|].
  assert (Hoth : forall i r a, (2 <= i)%nat -> regions c !! i = Some r ->
      rs <= a < rs + len -> covers r a = false).
  { intros i r a _ Hi Ha. apply (config_region_outside c u n i); [done|done|done|lia]. }
  pose proof Hwf as [Hl _]. split_and!.
  - split; [done|]. split; [done|]. split; [lia|].
    exists k, r0. split; [done|]. split; [done|]. split; [lia|]. split_and!; [|done|].
    + rewrite Hreg, list_lookup_insert_ne by done. by rewrite list_lookup_insert_eq by lia.
    + intros i r a Hi. rewrite Hreg, !list_lookup_insert_ne by lia. by apply Hoth.
  - intros a Ha. by apply (app_regions_exposes c c' r0 r1 rs len).
  - intros a. by apply (app_regions_only c c' r0 r1).
Qed.

Lemma pow2_double j : 1 <= j -> 2 ^ j = 2 ^ (j - 1) * 2 /\ 2 ^ j / 2 = 2 ^ (j - 1).
Proof.
  intros Hj. split; [|rewrite Z.pow_sub_r by lia; done].
  rewrite <- (Z.pow_1_r 2) at 3. rewrite <- Z.pow_add_r by lia. f_equal. lia.
Qed.

(** Number of subregions of size [len / 16] (the first attempt of the driver)
    that are enabled for an app break of [app] bytes. *)
Definition enabled_bytes (app len : Z) : Z := (app * 8 / (len / 2) + 1) * (len / 16).

Lemma enabled_bytes_coarser app len j :
  len = 2 ^ j -> 9 <= j -> 0 <= app ->
  enabled_bytes app len <= (app * 8 / len + 1) * 2 ^ (j - 3).
Proof.
  intros -> Hj Happ. unfold enabled_bytes.
  destruct (pow2_double j) as [Hh ->]; [lia|].
  destruct (pow2_double (j - 3)) as [Hq _]; [lia|].
  replace (j - 3 - 1) with (j - 4) in Hq by lia.
  assert (2 ^ j / 16 = 2 ^ (j - 4)) as -> by (rewrite (Z.pow_sub_r 2 j 4) by lia; done).
  rewrite Hq, Hh. assert (0 < 2 ^ (j - 1)) by (apply Z.pow_pos_nonneg; lia).
  assert (0 < 2 ^ (j - 4)) by (apply Z.pow_pos_nonneg; lia).
  pose proof (Z.div_mod (app * 8) (2 ^ (j - 1)) ltac:(lia)) as E1.
  pose proof (Z.mod_pos_bound (app * 8) (2 ^ (j - 1)) ltac:(lia)).
  pose proof (Z.div_mod (app * 8) (2 ^ (j - 1) * 2) ltac:(lia)) as E2.
  pose proof (Z.mod_pos_bound (app * 8) (2 ^ (j - 1) * 2) ltac:(lia)).
  set (q1 := app * 8 / 2 ^ (j - 1)) in *. set (q2 := app * 8 / (2 ^ (j - 1) * 2)) in *.
  assert (q1 <= 2 * q2 + 1) by nia. nia.
Qed.

Lemma enabled_bytes_pow2 app j :
  9 <= j -> 0 <= app ->
  enabled_bytes app (2 ^ j) = (app * 8 / 2 ^ (j - 1) + 1) * 2 ^ (j - 4) /\
  app < enabled_bytes app (2 ^ j).
Proof.
  intros Hj Happ. unfold enabled_bytes.
  destruct (pow2_double j) as [_ ->]; [lia|].
  assert (2 ^ j / 16 = 2 ^ (j - 4)) as -> by (rewrite (Z.pow_sub_r 2 j 4) by lia; done).
  split; [done|]. destruct (pow2_eighth (j - 1)) as [_ H8]; [lia|].
  replace (j - 1 - 3) with (j - 4) in H8 by lia.
  assert (0 < 2 ^ (j - 4)) by (apply Z.pow_pos_nonneg; lia).
  pose proof (Z.div_mod (app * 8) (2 ^ (j - 1)) ltac:(lia)).
  pose proof (Z.mod_pos_bound (app * 8) (2 ^ (j - 1)) ltac:(lia)). nia.
Qed.

(** The driver's choice between the two layouts of the app regions. *)
Lemma allocate_app_choice app kern u rs0 j x :
  9 <= j <= 31 -> 0 <= app -> app <= 2 ^ j -> 0 <= kern -> u <= rs0 ->
  u32_range rs0 -> rs0 mod 2 ^ (j - 1) = 0 ->
  (if rs0 + 2 ^ j - kern <? rs0 + (app * 8 / 2 ^ (j - 1) + 1) * 2 ^ (j - 4) then
     let! region_size := mul32 (2 ^ (j - 1)) 2 in
     let! region_start := align_up rs0 region_size in
     let! app8 := mul32 app 8 in
     let! q := div32 app8 region_size in
     let! n := add32 q 1 in
     Ret (region_size, region_start, n)
   else Ret (2 ^ (j - 1), rs0, app * 8 / 2 ^ (j - 1) + 1)) = Ret x ->
  exists k rs num, x = (2 ^ k, rs, num) /\ 8 <= k <= 31 /\ 2 ^ j <= 2 * 2 ^ k /\
    u <= rs /\ u32_range rs /\ rs mod 2 ^ k = 0 /\ 0 <= num <= 16 /\
    enabled_bytes app (2 ^ j) <= num * 2 ^ (k - 3) /\
    (enabled_bytes app (2 ^ j) <= 2 ^ j - kern ->
       num * 2 ^ (k - 3) = enabled_bytes app (2 ^ j)) /\
    (app < 2 ^ j -> num * 2 ^ (k - 3) <= 2 ^ j).
Proof.
  intros Hj Happ Hle Hkern Hu Hrs Hal.
  destruct (pow2_double j) as [Hdbl _]; [lia|].
  destruct (enabled_bytes_pow2 app j) as [Hen _]; [lia..|]. rewrite <- Hen.
  assert (0 < 2 ^ (j - 1)) by (apply Z.pow_pos_nonneg; lia).
  destruct (Z.ltb_spec (rs0 + 2 ^ j - kern) (rs0 + enabled_bytes app (2 ^ j)));
    intros H1; inv_ret.
  - rewrite <- Hdbl in *.
    match goal with H : align_up _ _ = _ |- _ =>
      apply align_up_sound in H as (? & ? & ?); [|lia|done] end.
    pose proof (enabled_bytes_coarser app (2 ^ j) j eq_refl ltac:(lia) Happ).
    exists j. eexists _, _. split; [done|]. split_and!; try done; try lia.
    + apply Z.add_nonneg_nonneg; [|lia]. apply Z.div_pos; lia.
    + assert (app * 8 / 2 ^ j <= 8) by (apply Z.div_le_upper_bound; lia). lia.
    + intros Hlt. assert (app * 8 / 2 ^ j < 8) by (apply Z.div_lt_upper_bound; lia).
      destruct (pow2_eighth j) as [_ H8]; [lia|]. nia.
  - exists (j - 1). eexists _, _. split; [done|].
    replace (j - 1 - 3) with (j - 4) by lia. rewrite <- Hen.
    split_and!; try done; try lia.
    + apply Z.add_nonneg_nonneg; [|lia]. apply Z.div_pos; lia.
    + destruct (pow2_eighth (j - 1)) as [_ H8]; [lia|].
      replace (j - 1 - 3) with (j - 4) in H8 by lia. nia.
Qed.

Lemma allocate_app_sound u n m app kern p c start len c' :
  config_wf c -> u32_range u -> u32_range m -> 0 <= app -> 0 <= kern ->
  cm_allocate_app_memory_region u n m app kern p c = Ret (Some (start, len), c') ->
  u <= start /\ start + len <= u + n /\ m <= len /\ app + kern <= len /\
  cm_manages c' start len /\
  (enabled_bytes app len <= len - kern ->
     (forall a, start <= a < start + app -> exposes c' a) /\
     forall a, start + len - kern <= a < start + len -> ~ exposes c' a) /\
  (0 < kern -> len - kern < enabled_bytes app len -> exposes c' (start + len - kern)) /\
  (0 < kern -> forall a, exposes c' a -> exposes c a \/ start <= a < start + len).
Proof.
  intros Hwf Hu Hm Happ Hkern. unfold cm_allocate_app_memory_region. intros H.
  inv_ret_step. destruct x; [inv_ret|]. rename Hret into Hov. do 2 inv_ret_step.
  set (msize := Z.max m (app + kern)) in *.
  inv_ret_step. apply closest_Ret in Hret0 as [Hms ->];
    [|unfold msize, u32_range in *; lia].
  pose proof (Math.log2_up_bounds msize ltac:(lia)) as Hup.
  pose proof (Z.log2_up_nonneg msize) as Hj0.
  assert (Hj31 : Z.log2_up msize <= 31).
  { rewrite <- (Z.log2_up_pow2 31) by lia. apply Z.log2_up_le_mono. lia. }
  inv_ret_step. rewrite Math.log_base_two_ok in Hret0.
  2: { split; [lia|]. apply Z.pow_lt_mono_r; lia. }
  rewrite Z.log2_pow2 in Hret0 by lia. inv_ret_step.
  destruct (negb _ && _); [inv_ret|].
  assert (Hpo2 : exists j, 9 <= j <= 31 /\ msize <= 2 ^ j /\
    (if Z.log2_up msize <? 9 then 512 else 2 ^ Z.log2_up msize) = 2 ^ j).
  { destruct (Z.ltb_spec (Z.log2_up msize) 9).
    - exists 9. split_and!; [lia..| |done]. etransitivity; [apply Hup|].
      apply Z.pow_le_mono_r; lia.
    - exists (Z.log2_up msize). split_and!; [lia..|apply Hup|done]. }
  destruct Hpo2 as (j & Hj & Hmj & Hpo2). rewrite Hpo2 in H. clear Hpo2.
  destruct (pow2_double j) as [Hdbl Hhalf]; [lia|]. rewrite Hhalf in H.
  destruct (pow2_eighth (j - 1)) as [H8 _]; [lia|]. rewrite H8 in H.
  replace (j - 1 - 3) with (j - 4) in * by lia.
  assert (Hle : m <= 2 ^ j /\ app + kern <= 2 ^ j) by (unfold msize in Hmj; lia).
  inv_ret_step. apply align_up_sound in Hret0 as (Hux & Hxal & Hxr); [|lia|done].
  inv_ret. rename Hret7 into Hch. apply (allocate_app_choice _ _ u) in Hch as
    (k & rs & num & -> & Hk & Hjk & Hurs & Hrs & Hrsal & Hnum & Henle & Heneq & Hinb);
    [|lia..|done|done].
  destruct (enabled_bytes_pow2 app j) as [_ Hcov]; [lia..|].
  inv_ret. destruct (Z.ltb_spec (u + n) (rs + 2 ^ j)); [inv_ret|].
  apply obind_Ret in H as (c1 & Happr & H). inv_ret.
  destruct (allocate_app_finish u n c c' start (2 ^ j) k num p) as (Hman & Hexp & Honly);
    [done|done|done|done|done|lia|done|lia|lia|done|].
  split_and!; try lia; [done| | |].
  - intros Hok. rewrite (Heneq Hok) in Hexp. split.
    + intros a Ha. apply Hexp; lia.
    + intros a Ha Hx. apply Hexp in Hx; lia.
  - intros Hk0 Hov'. apply Hexp; lia.
  - intros Hk0 a [?|?]%Honly; [by left|right; lia].
Qed.

(** * The remaining operations *)

Lemma find_region_spec k rs reg i :
  find_region k rs reg = Some i -> (k <= i)%nat /\ (i - k < length rs)%nat.
Proof.
  revert k; induction rs as [|r rs IH]; intros k; [done|]. simpl.
  destruct (region_eq r reg).
  - intros ?; simplify_eq. lia.
  - intros [? ?]%IH. lia.
Qed.

Lemma remove_sound c c' reg o :
  config_wf c -> cm_remove_memory_region reg c = Ret (o, c') ->
  config_wf c' /\ (forall a, exposes c' a -> exposes c a) /\
  (c' = c \/ exists i, (2 <= i)%nat /\
     regions c' = <[i := region_empty (Z.of_nat i)]> (regions c)).
Proof.
  intros Hwf. unfold cm_remove_memory_region.
  destruct (find_region 0 (regions c) reg) as [i|] eqn:Hf; intros H; [|inv_ret; eauto].
  apply find_region_spec in Hf as [_ Hi]. rewrite Nat.sub_0_r in Hi.
  unfold APP_MEMORY_REGION_MAX_NUM in H.
  destruct (Nat.leb_spec i 1); [inv_ret; eauto|].
  rewrite set_index_ok in H by done. cbn [obind] in H. inv_ret.
  pose proof Hwf as [Hl _]. split_and!.
  - apply config_wf_insert; [done|]. apply region_empty_wf. lia.
  - intros a (j & r & Hj & Hc). cbn [regions] in Hj. rewrite list_lookup_insert in Hj.
    case_decide; [by simplify_eq|by exists j, r].
  - right. exists i. done.
Qed.

Lemma length_foldl_insert {A} (f : nat -> A) l js :
  length (foldl (fun l i => <[i := f i]> l) l js) = length l.
Proof.
  revert l; induction js as [|j js IH]; intros l; [done|].
  simpl. by rewrite IH, length_insert.
Qed.

Lemma foldl_insert_seq {A} (f : nat -> A) l n i :
  foldl (fun l i => <[i := f i]> l) l (seq 0 n) !! i =
  if decide (i < n /\ i < length l)%nat then Some (f i) else l !! i.
Proof.
  induction n as [|n IH]; [by rewrite decide_False by lia|].
  rewrite seq_S, foldl_app. simpl. rewrite list_lookup_insert.
  rewrite length_foldl_insert, IH. repeat case_decide; try lia; try done.
  destruct_and!; by subst.
Qed.



Lemma reset_config_wf NUM_REGIONS c :
  (2 <= NUM_REGIONS <= 16)%nat -> length (regions c) = NUM_REGIONS ->
  config_wf (cm_reset_config NUM_REGIONS c) /\
  length (regions (cm_reset_config NUM_REGIONS c)) = NUM_REGIONS /\
  forall a, ~ exposes (cm_reset_config NUM_REGIONS c) a.
Proof.
  intros HN Hl. unfold cm_reset_config.
  assert (Hr : forall i r, foldl (fun rs i => <[i:=region_empty (Z.of_nat i)]> rs)
     (regions c) (seq 0 NUM_REGIONS) !! i = Some r ->
     (i < 16)%nat /\ r = region_empty (Z.of_nat i)).
  { intros i r. rewrite foldl_insert_seq. case_decide; intros Hi.
    - simplify_eq. split; [lia|done].
    - apply lookup_lt_Some in Hi. lia. }
  split_and!.
  - split; cbn [regions]; [rewrite length_foldl_insert; lia|].
    intros i r [? ->]%Hr. by apply region_empty_wf.
  - cbn [regions]. by rewrite length_foldl_insert.
  - intros a (i & r & Hi & Hc). apply Hr in Hi as [_ ->].
    by rewrite region_empty_covers in Hc.
Qed.

Lemma update_refused c c' abrk kbrk p :
  cm_update_app_memory_region abrk kbrk p c = Ret (Err tt, c') -> c' = c.
Proof.
  unfold cm_update_app_memory_region. intros H. inv_ret_step.
  destruct (location x) as [[rs rz]|]; [|by inv_ret].
  destruct (kbrk <? abrk); [by inv_ret|]. inv_ret.
  match type of H with context [Z.ltb ?a ?b] => destruct (Z.ltb a b) end;
    [by inv_ret|]. inv_ret.
Qed.

Lemma allocate_region_refused MIN u n m p c c' :
  cm_allocate_region MIN u n m p c = Ret (None, c') -> c' = c.
Proof.
  unfold cm_allocate_region. intros H. inv_ret_step. destruct x; [by inv_ret|].
  destruct (unused_region_number c); [|by inv_ret]. inv_ret.
  match goal with x : (_ * option (Z * Z))%type |- _ =>
    destruct x as [[[[? ?] ?] ?] ?] end. inv_ret.
  match type of H with context [Z.ltb ?a ?b] => destruct (Z.ltb a b) end;
    [by inv_ret|]. inv_ret.
Qed.

(** The app break rounded up to the granularity of a region of [rz] bytes. *)
Definition rounded_break (start rz ab : Z) : Z :=
  start + rz / 8 * ((ab - start + rz / 8 - 1) / (rz / 8)).

Lemma update_returns c start len ab kb p :
  cm_manages c start len -> start + len <= 2 ^ 31 -> start < ab -> kb <= start + len ->
  exists o c', cm_update_app_memory_region ab kb p c = Ret (o, c') /\
    (forall e, o = Err e -> kb < ab \/
       exists r rz, regions c !! 0%nat = Some r /\ location r = Some (start, rz) /\
         kb < rounded_break start rz ab).
Proof.
  intros (Hwf & Hs & Hlen & k & r0 & Hk & H32 & Hle & Hr0 & Hl0 & Hoth) Htop Hab Hkb.
  unfold cm_update_app_memory_region. rewrite (index_ok _ _ _ Hr0). cbn [obind].
  rewrite Hl0. destruct (Z.ltb_spec kb ab); [eexists _, _; split; [done|by left]|].
  destruct (pow2_eighth k ltac:(lia)) as [H8 HU].
  assert (HS : 0 < 2 ^ (k - 3)) by (apply Z.pow_pos_nonneg; lia).
  assert (HS28 : 2 ^ (k - 3) <= 2 ^ 28) by (apply Z.pow_le_mono_r; lia).
  unfold u32_range, rounded_break in *. rewrite H8 in *. ck. ck. ck. rewrite div32_ok by lia. cbn [obind].
  pose proof (div_round_up (ab - start) (2 ^ (k - 3)) HS ltac:(lia)) as Hn.
  set (n := (ab - start + 2 ^ (k - 3) - 1) / 2 ^ (k - 3)) in *.
  ck. ck. destruct (Z.ltb_spec kb (start + 2 ^ (k - 3) * n)).
  { eexists _, _. split; [done|]. intros e _. right. exists r0, (2 ^ k).
    rewrite H8. done. }
  destruct (app_regions_spec start k n p c) as (c1 & ? & ? & -> & _);
    [done|done|done|done|nia|intros; unfold U32; nia|].
  cbn [obind]. eexists _, _. split; [done|]. done.
Qed.

(** An app break equal to the start of the process block makes
    [update_app_memory_region] underflow ([num_enabled_subregions0 - 1] with no
    subregion enabled), on every block it manages. *)
Lemma update_empty_panics c start len kb p :
  cm_manages c start len -> start + len <= 2 ^ 31 -> start <= kb ->
  cm_update_app_memory_region start kb p c = Panic.
Proof.
  intros (Hwf & Hs & Hlen & k & r0 & Hk & H32 & Hle & Hr0 & Hl0 & Hoth) Htop Hkb.
  unfold cm_update_app_memory_region. rewrite (index_ok _ _ _ Hr0). cbn [obind].
  rewrite Hl0. destruct (Z.ltb_spec kb start); [lia|].
  destruct (pow2_eighth k ltac:(lia)) as [-> HU].
  assert (HS : 0 < 2 ^ (k - 3)) by (apply Z.pow_pos_nonneg; lia).
  assert (HS28 : 2 ^ (k - 3) <= 2 ^ 28) by (apply Z.pow_le_mono_r; lia).
  unfold u32_range in *. ck. ck. ck. rewrite div32_ok by lia. cbn [obind].
  rewrite (Z.div_small (start - start + 2 ^ (k - 3) - 1)) by lia. ck. ck.
  rewrite (proj2 (Z.ltb_ge _ _)) by lia. reflexivity.
Qed.

Section block_lemmas.
  Context (MIN_REGION_SIZE : Z).
  Context (Hmin : 32 <= MIN_REGION_SIZE < U32) (Hmin32 : MIN_REGION_SIZE mod 32 = 0).

Lemma app_regions_length rs k n p c c' :
  app_regions rs k n p c = Ret c' -> length (regions c') = length (regions c).
Proof using.
  clear Hmin Hmin32.
  unfold app_regions, set_index. intros H. inv_ret.
  repeat match goal with
  | H : (if Nat.ltb ?a ?b then _ else _) = Ret _ |- _ =>
    destruct (Nat.ltb a b); inv_ret
  end. cbn [regions]. by rewrite !length_insert.
Qed.

Lemma allocate_region_length u n m p c c' r :
  cm_allocate_region MIN_REGION_SIZE u n m p c = Ret (r, c') ->
  length (regions c') = length (regions c).
Proof using.
  clear Hmin Hmin32.
  unfold cm_allocate_region, set_index. intros H. inv_ret_step.
  destruct x; [by inv_ret|]. destruct (unused_region_number c); [|by inv_ret]. inv_ret.
  match goal with x : (_ * option (Z * Z))%type |- _ =>
    destruct x as [[[[? ?] ?] ?] ?] end. inv_ret.
  match type of H with context [Z.ltb ?a ?b] => destruct (Z.ltb a b) end;
    [by inv_ret|]. inv_ret. destruct (Nat.ltb _ _); inv_ret.
  cbn [regions]. by rewrite length_insert.
Qed.

Lemma update_length abrk kbrk p c c' o :
  cm_update_app_memory_region abrk kbrk p c = Ret (o, c') ->
  length (regions c') = length (regions c).
Proof using.
  clear Hmin Hmin32.
  unfold cm_update_app_memory_region. intros H. inv_ret_step.
  destruct (location x) as [[rs rz]|]; [|by inv_ret].
  destruct (kbrk <? abrk); [by inv_ret|]. inv_ret.
  match type of H with context [Z.ltb ?a ?b] => destruct (Z.ltb a b) end;
    [by inv_ret|]. inv_ret. by eapply app_regions_length.
Qed.

Lemma allocate_app_length u n m app kern p c c' r :
  cm_allocate_app_memory_region u n m app kern p c = Ret (r, c') ->
  length (regions c') = length (regions c).
Proof using.
  clear Hmin Hmin32.
  unfold cm_allocate_app_memory_region. intros H. inv_ret_step.
  destruct x; [by inv_ret|]. inv_ret.
  destruct (negb _ && _); [by inv_ret|]. inv_ret.
  match goal with x : Z * Z * Z |- _ => destruct x as [[? ?] ?] end. inv_ret.
  match type of H with context [Z.ltb ?a ?b] => destruct (Z.ltb a b) end;
    [by inv_ret|]. inv_ret. by eapply app_regions_length.
Qed.

Lemma remove_length reg c c' o :
  cm_remove_memory_region reg c = Ret (o, c') -> length (regions c') = length (regions c).
Proof using.
  clear Hmin Hmin32.
  unfold cm_remove_memory_region, set_index. intros H.
  destruct (find_region _ _ _); [|by inv_ret].
  destruct (Nat.leb _ _); [by inv_ret|]. destruct (Nat.ltb _ _); inv_ret.
  cbn [regions]. by rewrite length_insert.
Qed.

(** Changing a region other than the two app regions keeps the block managed,
    provided the new region stays out of it. *)
Lemma manages_insert c start len i r d :
  cm_manages c start len -> (2 <= i)%nat -> region_wf i r ->
  (forall a, start <= a < start + len -> covers r a = false) ->
  cm_manages (mkCortexMConfig (id c) (<[i := r]> (regions c)) d) start len.
Proof using.
  clear Hmin Hmin32.
  intros (Hwf & Hs & Hl & k & r0 & Hk & H32 & Hle & Hr0 & Hl0 & Hoth) Hi Hr Hout.
  split; [by apply config_wf_insert|]. split; [done|]. split; [done|].
  exists k, r0. split; [done|]. split; [done|]. split; [done|]. cbn [regions].
  split_and!; [by rewrite list_lookup_insert_ne by lia|done|].
  intros j r' a Hj. rewrite list_lookup_insert. case_decide; [|by apply Hoth].
  intros ? Ha; simplify_eq. by apply Hout.
Qed.

Lemma allocate_region_manages c c' start len u n m p r :
  cm_manages c start len -> u32_range u -> u32_range m ->
  u + n <= start \/ start + len <= u ->
  cm_allocate_region MIN_REGION_SIZE u n m p c = Ret (r, c') ->
  cm_manages c' start len /\
  (forall a, start <= a < start + len -> (exposes c' a <-> exposes c a)).
Proof using Hmin Hmin32.
  intros Hman Hu Hm Hdis Hrun. destruct r as [reg|].
  2: { by rewrite (allocate_region_refused _ _ _ _ _ _ _ Hrun). }
  pose proof Hman as [Hwf _].
  destruct (allocate_region_sound MIN_REGION_SIZE Hmin Hmin32 u n m p c reg c')
    as (Hwf' & Hlo & _ & Hhi & Hexp & i & r & Hi & Hreg & Hloc); [done..|].
  assert (Hid : c' = mkCortexMConfig (id c') (<[i := r]> (regions c)) (is_dirty c'))
    by (destruct c'; cbn in *; by subst).
  pose proof Hwf as [Hlen _]. pose proof Hwf' as [_ Hall].
  split.
  2: { intros a Ha. rewrite Hexp. split; [|by left]. intros [?|?]; [done|lia]. }
  assert (Hlt : (i < length (regions c))%nat \/ regions c' = regions c).
  { destruct (decide (i < length (regions c))%nat); [by left|right].
    rewrite Hreg. apply list_insert_ge. lia. }
  destruct Hlt as [Hlt|Heq].
  - assert (Hr : region_wf i r) by (apply Hall; rewrite Hreg; by apply list_lookup_insert_eq).
    destruct Hman as (? & Hman'). destruct (manages_insert c start len i r (is_dirty c'))
      as (H1 & H2); [done|done|done| |].
    + intros a Ha. destruct (covers r a) eqn:Hc; [|done].
      destruct (proj2 Hr a Hc) as (ls & lz & Hl & ?). simplify_eq. lia.
    + split; [done|]. rewrite Hreg. exact H2.
  - destruct Hman as (? & ? & ? & k & r0 & ?). split; [done|]. split; [done|].
    split; [done|]. exists k, r0. by rewrite Heq.
Qed.

Lemma remove_manages c c' start len r o :
  cm_manages c start len -> cm_remove_memory_region r c = Ret (o, c') ->
  cm_manages c' start len.
Proof using.
  clear Hmin Hmin32.
  intros Hman Hrun. pose proof Hman as [Hwf _].
  destruct (remove_sound c c' r o Hwf Hrun) as (Hwf' & _ & [->|(i & Hi & Hreg)]); [done|].
  pose proof Hwf as [Hlen _].
  assert (Hlt : (i < 16)%nat \/ regions c' = regions c).
  { destruct (decide (i < length (regions c))%nat); [left; lia|right].
    rewrite Hreg. apply list_insert_ge. lia. }
  destruct Hlt as [Hlt|Heq].
  - destruct (manages_insert c start len i (region_empty (Z.of_nat i)) true) as [_ H2];
      [done|done|by apply region_empty_wf|done|].
    split; [done|]. rewrite Hreg. exact H2.
  - destruct Hman as (? & ? & ? & k & r0 & ?). split; [done|]. split; [done|].
    split; [done|]. exists k, r0. by rewrite Heq.
Qed.

Lemma remove_exposes c c' start len r o a :
  cm_manages c start len -> cm_remove_memory_region r c = Ret (o, c') ->
  start <= a < start + len -> (exposes c' a <-> exposes c a).
Proof using.
  clear Hmin Hmin32.
  intros (Hwf & _ & _ & _ & _ & _ & _ & _ & _ & _ & Hoth) Hrun Ha.
  destruct (remove_sound c c' r o Hwf Hrun) as (_ & Hsub & [->|(i & Hi & Hreg)]); [done|].
  split; [apply Hsub|]. intros (j & r0 & Hj & Hc). exists j, r0. split; [|done].
  rewrite Hreg, list_lookup_insert_ne; [done|]. intros <-.
  rewrite (Hoth i r0 a Hi Hj Ha) in Hc. done.
Qed.

End block_lemmas.

Section isolation.
  Context (NUM_REGIONS : nat) (MIN_REGION_SIZE : Z).
  Context (Hnum : (2 <= NUM_REGIONS <= 16)%nat).
  Context (Hmin : 32 <= MIN_REGION_SIZE < U32) (Hmin32 : MIN_REGION_SIZE mod 32 = 0).

Definition cortexm_mpu : MPU Mpu CortexMConfig := {|
  enable_app_mpu := fun m => Ret (cm_enable_app_mpu m);
  disable_app_mpu := fun m => Ret (cm_disable_app_mpu m);
  new_config := cm_new_config NUM_REGIONS;
  reset_config := cm_reset_config NUM_REGIONS;
  allocate_region := cm_allocate_region MIN_REGION_SIZE;
  remove_memory_region := cm_remove_memory_region;
  allocate_app_memory_region := cm_allocate_app_memory_region;
  update_app_memory_region := cm_update_app_memory_region;
  configure_mpu := fun c m => Ret (cm_configure_mpu c m);
|}.

Definition cm_valid (c : CortexMConfig) : Prop :=
  config_wf c /\ length (regions c) = NUM_REGIONS.

Definition cm_manages_block (c : CortexMConfig) (start len : Z) : Prop :=
  cm_manages c start len /\ length (regions c) = NUM_REGIONS.

(** The Cortex-M driver keeps the promises of the interface. *)
Definition cortexm_isolation : @MpuIsolation Mpu CortexMConfig cortexm_mpu.
Proof.
  refine (@Build_MpuIsolation _ _ cortexm_mpu cm_valid exposes (fun m => Z.testbit (hw_ctrl m) 0 = true) cm_manages_block
    (fun app kern len => enabled_bytes app len <= len - kern)
    _ _ _ _ _ _ _ _ _ _ _ _ _ _ _ _ _ _ _); simpl.
  - lia.
  - intros h h' c. unfold cm_new_config. destruct (_ <? _); intros ?; simplify_eq.
    destruct (reset_config_wf NUM_REGIONS
      (mkCortexMConfig (config_count h) (replicate NUM_REGIONS (region_empty 0)) true))
      as (? & ? & _); [done|apply length_replicate|done].
  - intros c [_ Hl]. destruct (reset_config_wf NUM_REGIONS c) as (? & ? & _); done.
  - intros c c' u n m p r _ [Hwf Hl] Hu Hm Hrun.
    split; [|by rewrite (allocate_region_length _ _ _ _ _ _ _ _ Hrun)].
    destruct r as [reg|].
    + by destruct (allocate_region_sound MIN_REGION_SIZE Hmin Hmin32 u n m p c reg c').
    + by rewrite (allocate_region_refused _ _ _ _ _ _ _ Hrun).
  - intros c c' r o [Hwf Hl] Hrun. split; [by destruct (remove_sound c c' r o Hwf Hrun)|].
    by rewrite (remove_length _ _ _ _ Hrun).
  - intros c h c' h' [Hwf Hl]. unfold cm_configure_mpu. destruct (_ || _); intros ?; by simplify_eq.
  - intros c h _. by eexists.
  - intros c start len [[Hwf _] Hl]. done.
  - intros c c' u n m app kern start len [Hwf Hl] Hu Hm Ha Hk Hrun.
    pose proof (allocate_app_length _ _ _ _ _ _ _ _ _ Hrun).
    destruct (allocate_app_sound u n m app kern ReadWriteOnly c start len c')
      as (? & ? & ? & ? & ? & Hiso & _); [done..|].
    split_and!; [done..|split; [done|congruence]|done].
  - intros c c' start len ab kb [Hman Hl] H1 H2 Hrun.
    pose proof (update_length _ _ _ _ _ _ Hrun).
    destruct (update_sound c c' start len ab kb ReadWriteOnly) as (? & ? & ? & ? & _); [done..|].
    split_and!; [split; [done|congruence]|done..].
  - intros c start len ab kb [Hman Hl] H1 H2 _ H3.
    destruct (update_returns c start len ab kb ReadWriteOnly) as (o & c' & Hrun & _);
      [done..|]. by exists (o, c').
  - intros c c' ab kb p. apply update_refused.
  - intros c c' start len u n m p r _ [Hman Hl] Hu Hm Hd Hrun.
    pose proof (allocate_region_length _ _ _ _ _ _ _ _ Hrun).
    destruct (allocate_region_manages MIN_REGION_SIZE Hmin Hmin32 c c' start len u n m p r)
      as [? ?]; [done..|].
    split; [split; [done|congruence]|done].
  - intros c c' start len u n m reg [Hwf _] Hu Hm Hd Hrun.
    destruct (allocate_region_sound MIN_REGION_SIZE Hmin Hmin32 u n m ReadWriteOnly c reg c')
      as (_ & Hlo & Hsz & Hhi & _); [done..|]. unfold beside. lia.
  - intros c c' u n m reg [Hwf _] Hu Hm Hrun a.
    destruct (allocate_region_sound MIN_REGION_SIZE Hmin Hmin32 u n m ReadWriteOnly c reg c')
      as (_ & Hlo & _ & Hhi & Hex & _); [done..|]. rewrite Hex. intros [?|?]; [by left|right; lia].
  - intros c c' u n m p. apply allocate_region_refused.
  - intros c c' start len r o [Hman Hl] _ Hrun.
    pose proof (remove_length _ _ _ _ Hrun).
    split; [split; [by eapply remove_manages|congruence]|].
    intros a. by apply (remove_exposes c c' start len r o).
  - intros c h c' h' start len [Hman Hl]. unfold cm_configure_mpu.
    destruct (_ || _); intros ?; by simplify_eq.
  - intros h h' ?. by simplify_eq.
Defined.

End isolation.

(** * The driver has no endless loops *)

Lemma srd_fold_halts n i res : halts (srd_fold n i res).
Proof. revert i res. induction n as [|n IH]; intros; cbn; halts. Qed.

Lemma any_overlap_halts rs start size : halts (any_overlap rs start size).
Proof. induction rs as [|r rs IH]; cbn; unfold overlaps; halts. Qed.
#[local] Hint Resolve srd_fold_halts any_overlap_halts : halts.

Lemma region_new_halts ls lsz rs rsz n sub p : halts (region_new ls lsz rs rsz n sub p).
Proof. unfold region_new, srd_mask, Math.log_base_two. halts. Qed.

Lemma plan_region_halts start size : halts (plan_region start size).
Proof. unfold plan_region, subregion_size_for, Math.closest_power_of_two. halts. Qed.
#[local] Hint Resolve region_new_halts plan_region_halts : halts.

Lemma app_regions_halts start size n p c : halts (app_regions start size n p c).
Proof. unfold app_regions. halts. Qed.
Lemma align_up_halts start size : halts (align_up start size).
Proof. unfold align_up. halts. Qed.
Lemma math_halts z : halts (Math.closest_power_of_two z) /\ halts (Math.log_base_two z).
Proof. unfold Math.closest_power_of_two, Math.log_base_two. split; halts. Qed.
#[local] Hint Resolve app_regions_halts align_up_halts : halts.
#[local] Hint Extern 1 (halts (Math.closest_power_of_two _)) => apply math_halts : halts.
#[local] Hint Extern 1 (halts (Math.log_base_two _)) => apply math_halts : halts.

#[export] Instance cortexm_halts n min : @MpuHalts Mpu CortexMConfig (cortexm_mpu n min).
Proof.
  split; intros; cbn; unfold cm_allocate_region, cm_allocate_app_memory_region; halts.
Qed.

End CortexM.
