(* ===== verification/CortexMpuSystem.v ===== *)
(** The Cortex-M memory-protection driver as a system: several processes'
    configurations and one set of hardware registers.

    [CortexMSystem.step] interleaves the driver's operations on the
    configurations with context switches ([configure_mpu]).  The invariant says
    that the driver's write-skipping optimisation is sound, and the theorems of
    this file state what the driver guarantees: exact regions, isolation of the
    kernel-owned memory, absence of panics, and that after a context switch the
    hardware exposes the memory of the scheduled process only. *)

From stdpp Require Import base numbers list list_numbers relations.
From S2P Require Import Prelude Math Registers Mpu CortexMpu.
Import Mpu CortexM.
Local Open Scope Z_scope.

Module CortexMSystem.

(** * Hardware contents *)

Definition region_regs (r : CortexMRegion) : Z * Z :=
  (Reg.fv_value (base_address r), Reg.fv_value (attributes r)).

(** The region registers hold the configuration. *)
Definition hw_matches (m : Mpu) (c : CortexMConfig) : Prop :=
  hw_regions m = map region_regs (regions c).

(** The hardware lets unprivileged code touch [a]. *)
Definition hw_exposes (m : Mpu) (a : Z) : Prop :=
  exists i rbar rasr, hw_regions m !! i = Some (rbar, rasr) /\ hw_covers rbar rasr a = true.

Lemma hw_matches_exposes m c a : hw_matches m c -> hw_exposes m a <-> exposes c a.
Proof.
  intros Hm. unfold hw_exposes, exposes, hw_matches in *. rewrite Hm. split.
  - intros (i & b & s & Hi & Hc). rewrite list_lookup_fmap in Hi.
    destruct (regions c !! i) as [r|] eqn:Hr; [|done]. unfold region_regs in Hi. simplify_eq/=. by exists i, r.
  - intros (i & r & Hr & Hc). exists i. eexists _, _. rewrite list_lookup_fmap, Hr. done.
Qed.

Lemma write_region_spec m r i :
  numbered r (Z.of_nat i) -> (i < length (hw_regions m))%nat ->
  config_count (write_region m r) = config_count m /\
  hw_regions (write_region m r) = <[i := region_regs r]> (hw_regions m).
Proof.
  intros [Hv Hn] Hi. unfold write_region, write_rasr, write_rbar.
  cbn [config_count hw_rnr hw_regions]. rewrite Hv, Hn, Nat2Z.id. split; [done|].
  apply list_eq. intros j. destruct (decide (j = i)) as [->|Hne].
  - rewrite list_lookup_insert_eq by done.
    destruct (lookup_lt_is_Some_2 _ _ Hi) as [[b a] Hb].
    by rewrite !list_lookup_alter_eq, Hb.
  - by rewrite list_lookup_insert_ne, !list_lookup_alter_ne by done.
Qed.

(** Writing the regions one after the other fills the registers. *)
Lemma write_regions_spec rs k m :
  (forall i r, rs !! i = Some r -> numbered r (Z.of_nat (k + i))) ->
  (k + length rs <= length (hw_regions m))%nat ->
  config_count (foldl write_region m rs) = config_count m /\
  hw_regions (foldl write_region m rs) =
    take k (hw_regions m) ++ map region_regs rs ++ drop (k + length rs) (hw_regions m).
Proof.
  revert k m; induction rs as [|r rs IH]; intros k m Hnum Hlen; simpl in *.
  - by rewrite Nat.add_0_r, take_drop.
  - destruct (write_region_spec m r k) as [Hc Hr].
    { specialize (Hnum 0%nat r eq_refl). by rewrite Nat.add_0_r in Hnum. }
    { lia. }
    destruct (IH (S k) (write_region m r)) as [Hc' Hr'].
    { intros i r' Hi. specialize (Hnum (S i) r' Hi). by rewrite Nat.add_succ_r in Hnum. }
    { rewrite Hr, length_insert. lia. }
    split; [congruence|]. rewrite Hr', Hr.
    rewrite (take_S_r _ _ (region_regs r)) by (rewrite list_lookup_insert_eq; [done|lia]).
    rewrite take_insert_ge, drop_insert_lt by lia.
    by rewrite <- app_assoc, Nat.add_succ_r.
Qed.

Lemma configure_spec c m c' m' :
  config_wf c -> length (hw_regions m) = length (regions c) ->
  (hardware_is_configured_for m = Some (id c) -> is_dirty c = false -> hw_matches m c) ->
  cm_configure_mpu c m = (c', m') ->
  regions c' = regions c /\ id c' = id c /\ is_dirty c' = false /\
  config_count m' = config_count m /\ hardware_is_configured_for m' = Some (id c) /\
  hw_matches m' c.
Proof.
  intros [_ Hwf] Hlen Hcoh. unfold cm_configure_mpu.
  destruct (negb _ || is_dirty c) eqn:Hb; intros ?; simplify_eq.
  - cbn [regions id is_dirty config_count hardware_is_configured_for].
    destruct (write_regions_spec (regions c) 0 m) as [Hc Hr].
    { intros i r Hi. by destruct (Hwf i r Hi). }
    { lia. }
    split_and!; try done. unfold hw_matches. cbn [hw_regions]. rewrite Hr.
    rewrite take_0, drop_ge by lia. by rewrite app_nil_r.
  - apply orb_false_iff in Hb as [Hid Hd]. apply negb_false_iff, bool_decide_eq_true in Hid.
    split_and!; auto.
Qed.

(** * The system of all processes' configurations *)

Record system := mkSystem { hw : Mpu; configs : list CortexMConfig }.

Section system.
  Context (NUM_REGIONS : nat) (MIN_REGION_SIZE : Z).

(** The operations on one configuration; [modify c c'] holds when one of them
    turns [c] into [c'] (successfully or not). *)
Inductive modify (c c' : CortexMConfig) : Prop :=
  | modify_reset : c' = cm_reset_config NUM_REGIONS c -> modify c c'
  | modify_allocate u n m p r :
      u32_range u -> u32_range m ->
      cm_allocate_region MIN_REGION_SIZE u n m p c = Ret (r, c') -> modify c c'
  | modify_remove r o :
      cm_remove_memory_region r c = Ret (o, c') -> modify c c'
  | modify_allocate_app u n m app kern p r :
      u32_range u -> u32_range m -> 0 <= app -> 0 <= kern ->
      cm_allocate_app_memory_region u n m app kern p c = Ret (r, c') -> modify c c'
  | modify_update start len ab kb p o :
      cm_manages c start len -> start <= ab -> kb <= start + len ->
      cm_update_app_memory_region ab kb p c = Ret (o, c') -> modify c c'.

Inductive step : system -> system -> Prop :=
  | step_new m m' c cs :
      cm_new_config NUM_REGIONS m = (Some c, m') ->
      step (mkSystem m cs) (mkSystem m' (cs ++ [c]))
  | step_modify m cs i c c' :
      cs !! i = Some c -> modify c c' ->
      step (mkSystem m cs) (mkSystem m (<[i := c']> cs))
  | step_configure m m' cs i c c' :
      cs !! i = Some c -> cm_configure_mpu c m = (c', m') ->
      step (mkSystem m cs) (mkSystem m' (<[i := c']> cs))
  | step_enable m cs : step (mkSystem m cs) (mkSystem (cm_enable_app_mpu m) cs)
  | step_disable m cs : step (mkSystem m cs) (mkSystem (cm_disable_app_mpu m) cs).

(** Every operation either leaves the configuration alone or marks it dirty. *)
Definition touched (c c' : CortexMConfig) : Prop :=
  c' = c \/ (id c' = id c /\ is_dirty c' = true).

Lemma app_regions_touched rs rz n p c c' :
  app_regions rs rz n p c = Ret c' -> touched c c'.
Proof. unfold app_regions. intros H. inv_ret. by right. Qed.

Lemma allocate_region_touched u n m p c r c' :
  cm_allocate_region MIN_REGION_SIZE u n m p c = Ret (r, c') -> touched c c'.
Proof.
  unfold cm_allocate_region. intros H. inv_ret_step. destruct x; [inv_ret; by left|].
  destruct (unused_region_number c); [|inv_ret; by left]. inv_ret.
  destruct x0 as [[[[? ?] ?] ?] ?]. inv_ret.
  match goal with H : (if ?b then _ else _) = Ret _ |- _ => destruct b end;
    inv_ret; [by left|by right].
Qed.

Lemma remove_touched r c o c' :
  cm_remove_memory_region r c = Ret (o, c') -> touched c c'.
Proof.
  unfold cm_remove_memory_region. destruct (find_region _ _ _); intros H;
    [|inv_ret; by left].
  destruct (Nat.leb _ _); inv_ret; [by left|by right].
Qed.

Lemma allocate_app_touched u n m app kern p c r c' :
  cm_allocate_app_memory_region u n m app kern p c = Ret (r, c') ->
  touched c c' /\ (r = None -> c' = c).
Proof.
  unfold cm_allocate_app_memory_region. intros H. inv_ret_step.
  destruct x; [inv_ret; by split; [left|]|].
  do 4 inv_ret_step. destruct (negb _ && _); [inv_ret; by split; [left|]|].
  inv_ret. match goal with x : Z * Z * Z |- _ => destruct x as [[? ?] ?] end. inv_ret.
  match goal with H : (if ?b then _ else _) = Ret _ |- _ => destruct b end;
    inv_ret; [by split; [left|]|].
  split; [by eapply app_regions_touched|done].
Qed.

Lemma update_touched ab kb p c o c' :
  cm_update_app_memory_region ab kb p c = Ret (o, c') -> touched c c'.
Proof.
  unfold cm_update_app_memory_region. intros H. inv_ret_step.
  destruct (location x) as [[? ?]|]; [|inv_ret; by left].
  destruct (_ <? _); [inv_ret; by left|]. inv_ret.
  match goal with H : (if ?b then _ else _) = Ret _ |- _ => destruct b end;
    inv_ret; [by left|by eapply app_regions_touched].
Qed.

(** The driver object as [MPU::new] makes it, with arbitrary register
    contents. *)
Definition initial (s : system) : Prop :=
  config_count (hw s) = 1 /\ hardware_is_configured_for (hw s) = None /\
  length (hw_regions (hw s)) = NUM_REGIONS /\ configs s = [].

Record inv (s : system) : Prop := mkInv {
  inv_hw : length (hw_regions (hw s)) = NUM_REGIONS;
  inv_wf : forall i c, configs s !! i = Some c ->
    config_wf c /\ length (regions c) = NUM_REGIONS;
  inv_ids : forall i c, configs s !! i = Some c -> id c < config_count (hw s);
  inv_cached : forall n, hardware_is_configured_for (hw s) = Some n -> n < config_count (hw s);
  inv_unique : forall i j c d, configs s !! i = Some c -> configs s !! j = Some d ->
    id c = id d -> i = j;
  inv_coherent : forall i c, configs s !! i = Some c ->
    hardware_is_configured_for (hw s) = Some (id c) -> is_dirty c = false ->
    hw_matches (hw s) c;
}.

Context (Hnum : (2 <= NUM_REGIONS <= 16)%nat).
Context (Hmin : 32 <= MIN_REGION_SIZE < U32) (Hmin32 : MIN_REGION_SIZE mod 32 = 0).

Lemma modify_spec c c' :
  config_wf c -> length (regions c) = NUM_REGIONS -> modify c c' ->
  config_wf c' /\ length (regions c') = NUM_REGIONS /\ touched c c'.
Proof using Hnum Hmin Hmin32.
  intros Hwf Hl [->|u n m p r Hu Hm H|r o H|u n m app kern p r Hu Hm Ha Hk H
                |start len ab kb p o Hman H1 H2 H].
  - destruct (reset_config_wf NUM_REGIONS c Hnum Hl) as (? & ? & _).
    split_and!; [done..|by right].
  - rewrite (allocate_region_length _ _ _ _ _ _ _ _ H).
    split_and!; [|done|by eapply allocate_region_touched].
    destruct r as [reg|].
    + by destruct (allocate_region_sound MIN_REGION_SIZE Hmin Hmin32 u n m p c reg c').
    + by rewrite (allocate_region_refused _ _ _ _ _ _ _ H).
  - rewrite (remove_length _ _ _ _ H). split_and!; [|done|by eapply remove_touched].
    by destruct (remove_sound c c' r o Hwf H).
  - rewrite (allocate_app_length _ _ _ _ _ _ _ _ _ H).
    destruct (allocate_app_touched _ _ _ _ _ _ _ _ _ H) as [Ht Hn].
    split_and!; [|done..]. destruct r as [[start len]|]; [|by rewrite Hn].
    by destruct (allocate_app_sound u n m app kern p c start len c')
      as (_ & _ & _ & _ & [? _] & _).
  - rewrite (update_length _ _ _ _ _ _ H).
    split_and!; [|done|by eapply update_touched]. destruct o as [[]|[]].
    + by destruct (update_sound c c' start len ab kb p) as ([? _] & _).
    + by rewrite (update_refused _ _ _ _ _ H).
Qed.

Lemma inv_initial s : initial s -> inv s.
Proof using.
  intros (Hc & Hh & Hl & Hcs). split; [done|..]; rewrite ?Hcs, ?Hh; done.
Qed.

Lemma inv_insert m cs i c c' :
  inv (mkSystem m cs) -> cs !! i = Some c ->
  config_wf c' -> length (regions c') = NUM_REGIONS -> touched c c' ->
  inv (mkSystem m (<[i := c']> cs)).
Proof using.
  intros [H1 H2 H3 H4 H5 H6] Hi Hwf Hl Ht. cbn [hw configs] in *.
  assert (Hid : id c' = id c) by (by destruct Ht as [->|[]]).
  split; cbn [hw configs]; [done| | |done| |].
  - intros j d [(<- & <- & _)|[_ ?]]%list_lookup_insert_Some; eauto.
  - intros j d [(<- & <- & _)|[_ ?]]%list_lookup_insert_Some; [rewrite Hid|]; eauto.
  - intros j k d e [(<- & <- & _)|[? ?]]%list_lookup_insert_Some
      [(<- & <- & _)|[? ?]]%list_lookup_insert_Some Hde; try done; eauto;
      rewrite ?Hid in Hde; eauto.
  - intros j d [(<- & <- & _)|[_ ?]]%list_lookup_insert_Some; eauto.
    destruct Ht as [->|[_ ->]]; eauto; done.
Qed.

Lemma inv_step s s' : inv s -> step s s' -> inv s'.
Proof using Hnum Hmin Hmin32.
  intros Hinv Hstep. destruct Hstep as [m m' c cs Hnew|m cs i c c' Hi Hmod
                                       |m m' cs i c c' Hi Hconf|m cs|m cs].
  - destruct Hinv as [H1 H2 H3 H4 H5 H6]. cbn [hw configs] in *.
    unfold cm_new_config in Hnew. destruct (_ <? _); simplify_eq. cbn [fst snd] in *.
    set (c0 := mkCortexMConfig (config_count m) (replicate NUM_REGIONS (region_empty 0)) true).
    destruct (reset_config_wf NUM_REGIONS c0) as (Hwf & Hl & _);
      [done|apply length_replicate|].
    split; cbn [hw configs config_count hardware_is_configured_for hw_regions]; [done|..].
    + intros j d [?|[_ Hj]]%lookup_app_Some; eauto.
      apply list_lookup_singleton_Some in Hj as [_ <-]. done.
    + intros j d [?%H3|[_ Hj]]%lookup_app_Some; [lia|].
      apply list_lookup_singleton_Some in Hj as [_ <-]. simpl. lia.
    + intros n ?%H4. lia.
    + intros j k d e [Hj|[? Hj]]%lookup_app_Some [Hk|[? Hk]]%lookup_app_Some Hde;
        eauto; try apply list_lookup_singleton_Some in Hj as [? <-];
        try apply list_lookup_singleton_Some in Hk as [? <-]; simpl in Hde;
        [apply H3 in Hj|apply H3 in Hk|]; lia.
    + intros j d [?|[_ Hj]]%lookup_app_Some Hcfg; eauto.
      apply list_lookup_singleton_Some in Hj as [_ <-]. done.
  - destruct (inv_wf _ Hinv i c Hi) as [Hwf Hl].
    destruct (modify_spec c c' Hwf Hl Hmod) as (? & ? & ?). by eapply inv_insert.
  - pose proof Hinv as [H1 H2 H3 H4 H5 H6]. cbn [hw configs] in *.
    destruct (H2 i c Hi) as [Hwf Hl].
    destruct (configure_spec c m c' m') as (Hr & Hid & Hd & Hcc & Hcf & Hm);
      [done|congruence|eauto|done|].
    assert (Hm' : hw_matches m' c') by (unfold hw_matches in *; congruence).
    split; cbn [hw configs].
    + unfold hw_matches in Hm. rewrite Hm, length_map. done.
    + intros j d [(<- & <- & _)|[_ ?]]%list_lookup_insert_Some; eauto.
      split; [|congruence]. destruct Hwf as [? ?]. unfold config_wf. by rewrite Hr.
    + intros j d [(<- & <- & _)|[_ ?]]%list_lookup_insert_Some; rewrite Hcc, ?Hid; eauto.
    + intros n. rewrite Hcf, Hcc. intros ?; simplify_eq. eauto.
    + intros j k d e [(<- & <- & _)|[? ?]]%list_lookup_insert_Some
        [(<- & <- & _)|[? ?]]%list_lookup_insert_Some Hde; try done; eauto;
        rewrite ?Hid in Hde; eauto.
    + intros j d [(<- & <- & _)|[Hne Hj]]%list_lookup_insert_Some Hc _; [done|].
      rewrite Hcf in Hc. simplify_eq. by destruct (Hne (H5 i j c d Hi Hj ltac:(done))).
  - by destruct Hinv.
  - by destruct Hinv.
Qed.

Lemma inv_reachable s s' : initial s -> rtc step s s' -> inv s'.
Proof using Hnum Hmin Hmin32.
  intros Hi%inv_initial Hs. induction Hs; [done|]. eauto using inv_step.
Qed.

End system.
(** * Absence of panics in [allocate_region] *)

Lemma log2_up_31 n k : 0 <= k -> 1 <= n <= 2 ^ k -> 0 <= Z.log2_up n <= k.
Proof.
  intros Hk Hn. split; [apply Z.log2_up_nonneg|].
  rewrite <- (Z.log2_up_pow2 k) by lia. apply Z.log2_up_le_mono. lia.
Qed.

Lemma trailing_zeros_bound start j :
  0 <= j -> 0 < start -> start mod 2 ^ j <> 0 -> 0 <= trailing_zeros start < j.
Proof.
  intros Hj Hs Hm. destruct (trailing_zeros_spec start Hs) as (q & H0 & E & _).
  split; [done|]. destruct (Z.lt_ge_cases (trailing_zeros start) j) as [|Hge]; [done|].
  destruct Hm. rewrite E.
  replace (trailing_zeros start) with (j + (trailing_zeros start - j)) by lia.
  rewrite Z.pow_add_r, <- Z.mul_assoc, Z.mul_comm by lia.
  apply Z.mod_mul. pose proof (Z.pow_pos_nonneg 2 j). lia.
Qed.

Lemma subregion_size_for_returns start size :
  0 <= start -> start = 0 \/ start mod 2 ^ 29 <> 0 -> 1 <= size <= 2 ^ 29 ->
  exists t, subregion_size_for start size = Ret (2 ^ t) /\ 0 <= t <= 28.
Proof.
  intros Hs Hm Hz. unfold subregion_size_for. destruct (decide (start = 0)) as [->|Hne].
  - simpl. rewrite Math.closest_power_of_two_ok by lia. cbn [obind].
    pose proof (log2_up_31 size 29 ltac:(lia) Hz).
    destruct (Z.ltb_spec (2 ^ Z.log2_up size) 256).
    + exists 5. split; [done|lia].
    + assert (8 <= Z.log2_up size) by (apply (Z.pow_le_mono_r_iff 2); lia).
      destruct (pow2_eighth (Z.log2_up size)) as [-> _]; [lia|].
      exists (Z.log2_up size - 3). split; [done|lia].
  - destruct (trailing_zeros_bound start 29) as [H0 H1]; [lia|lia|by destruct Hm|].
    rewrite (proj2 (Z.ltb_lt _ _)) by lia. exists (trailing_zeros start).
    rewrite Z.shiftl_1_l. split; [done|lia].
Qed.

Lemma plan_region_returns start size :
  0 <= start < 2 ^ 31 -> start = 0 \/ start mod 2 ^ 29 <> 0 -> 32 <= size <= 2 ^ 29 ->
  exists s' z' rs rz sub, plan_region start size = Ret (s', z', rs, rz, sub) /\
    s' + z' < U32.
Proof.
  intros Hs Hm Hz. unfold plan_region. rewrite rem32_ok by lia. cbn [obind].
  destruct (_ || _).
  2: { eexists _, _, _, _, _. split; [done|]. unfold U32. lia. }
  destruct (subregion_size_for_returns start size) as (t & -> & Ht); [lia|done|lia|].
  cbn [obind]. assert (HS : 0 < 2 ^ t) by (apply Z.pow_pos_nonneg; lia).
  assert (HS28 : 2 ^ t <= 2 ^ 28) by (apply Z.pow_le_mono_r; lia).
  unfold mul32. rewrite checked32_ok by (unfold u32_range, U32; lia). cbn [obind].
  rewrite rem32_ok by lia. cbn [obind].
  pose proof (Z.mod_pos_bound start (2 ^ t * 8) ltac:(lia)).
  pose proof (Z.mod_le start (2 ^ t * 8) ltac:(lia) ltac:(lia)).
  pose proof (Z.mod_pos_bound size (2 ^ t) HS).
  ck. rewrite rem32_ok by lia. cbn [obind].
  pose proof (round_up_spec size (2 ^ t) HS) as [Hr Hrm]. cbv zeta in Hr, Hrm.
  assert (Hsz : (if negb (size mod 2 ^ t =? 0)
            then let! d := checked32 (2 ^ t - size mod 2 ^ t) in checked32 (size + d)
            else Ret size) =
    Ret (if negb (size mod 2 ^ t =? 0) then size + (2 ^ t - size mod 2 ^ t) else size)).
  { destruct (negb _); [|done]. do 2 ck. done. }
  rewrite Hsz. cbn [obind]. clear Hsz.
  set (size' := if negb _ then _ else size) in *.
  ck. ck. destruct (_ && _).
  - assert (0 <= (start - (start - start mod (2 ^ t * 8))) / 2 ^ t <= start)
      by (split; [apply Z.div_pos; lia|apply Z.div_le_upper_bound; nia]).
    assert (1 <= size' / 2 ^ t <= size').
    { split; [|apply Z.div_le_upper_bound; nia].
      apply Z.mod_divide in Hrm as [q Hq]; [|lia]. rewrite Hq, Z.div_mul by lia. nia. }
    ck. rewrite !div32_ok by lia. cbn [obind]. ck. ck.
    eexists _, _, _, _, _. split; [done|]. unfold U32. lia.
  - rewrite Math.closest_power_of_two_ok by lia. cbn [obind].
    pose proof (log2_up_31 size' 30 ltac:(lia) ltac:(lia)).
    assert (0 < 2 ^ Z.log2_up size') by (apply Z.pow_pos_nonneg; lia).
    assert (2 ^ Z.log2_up size' <= 2 ^ 30) by (apply Z.pow_le_mono_r; lia).
    pose proof (Z.mod_pos_bound start (2 ^ Z.log2_up size') ltac:(lia)).
    rewrite rem32_ok by lia. cbn [obind]. ck. ck.
    eexists _, _, _, _, _. split; [done|]. unfold U32. lia.
Qed.

(** The logical locations of a configuration's regions end inside the address
    space. *)
Definition locations_fit (c : CortexMConfig) : Prop :=
  Forall (fun r => match location r with
                   | Some (s, z) => 0 <= s /\ 0 <= z /\ s + z < U32
                   | None => True
                   end) (regions c).

Lemma any_overlap_returns rs u n :
  Forall (fun r => match location r with
                   | Some (s, z) => 0 <= s /\ 0 <= z /\ s + z < U32
                   | None => True
                   end) rs ->
  u32_range (u + n) -> exists b, any_overlap rs u n = Ret b.
Proof.
  intros Hf Hun. induction Hf as [|r rs Hr _ [b IH]]; simpl; [eauto|].
  unfold overlaps, add32. rewrite (checked32_ok (u + n)) by done. cbn [obind].
  destruct (location r) as [[s z]|]; cbn [obind].
  - rewrite checked32_ok by (unfold u32_range; lia). cbn [obind].
    destruct (_ && _); eauto.
  - eauto.
Qed.

Lemma align_min_returns j u :
  5 <= j <= 8 -> 0 <= u < 2 ^ 31 -> u = 0 \/ 0 < u mod 2 ^ 29 <= 2 ^ 29 - 2 ^ j ->
  exists s, (if negb (u mod 2 ^ j =? 0) then
               let! d := sub32 (2 ^ j) (u mod 2 ^ j) in add32 u d
             else Ret u) = Ret s /\ 0 <= s < 2 ^ 31 /\ (s = 0 \/ s mod 2 ^ 29 <> 0).
Proof.
  intros Hj Hu Hm.
  assert (HP : 32 <= 2 ^ j <= 256)
    by (split; [apply (Z.pow_le_mono_r 2 5)|apply (Z.pow_le_mono_r 2 j 8)]; lia).
  assert (H29 : 2 ^ 29 = 2 ^ j * 2 ^ (29 - j)) by (rewrite <- Z.pow_add_r by lia; f_equal; lia).
  assert (HQ : 0 < 2 ^ (29 - j)) by (apply Z.pow_pos_nonneg; lia).
  pose proof (Z.mod_pos_bound u (2 ^ j) ltac:(lia)).
  pose proof (Z.div_mod u (2 ^ 29) ltac:(lia)) as E.
  pose proof (Z.mod_pos_bound u (2 ^ 29) ltac:(lia)) as Hb.
  destruct (Z.eqb_spec (u mod 2 ^ j) 0) as [Hz|Hz]; cbn [negb].
  { exists u. split_and!; [done|lia|lia|]. destruct Hm; [by left|right; lia]. }
  destruct Hm as [->|Hm]; [rewrite Z.mod_0_l in Hz by lia; done|].
  ck. ck. eexists; split; [done|].
  set (r := u mod 2 ^ 29) in *. set (q := u / 2 ^ 29) in *.
  assert (Hr : u mod 2 ^ j = r mod 2 ^ j).
  { rewrite E, H29, <- Z.mul_assoc, (Z.mul_comm (2 ^ j)), Z.add_comm, Z.mod_add by lia. done. }
  pose proof (Z.div_mod r (2 ^ j) ltac:(lia)) as Er.
  pose proof (Z.mod_pos_bound r (2 ^ j) ltac:(lia)). rewrite Hr in *.
  assert (r / 2 ^ j + 1 <= 2 ^ (29 - j) - 1 \/ 2 ^ (29 - j) - 1 <= r / 2 ^ j) as [Hd|Hd] by lia.
  2: { exfalso. assert (r mod 2 ^ j = 0) by nia. lia. }
  assert (Hs : u + (2 ^ j - r mod 2 ^ j) = (2 ^ j * (r / 2 ^ j + 1)) + q * 2 ^ 29) by lia.
  assert (0 <= r / 2 ^ j) by (apply Z.div_pos; lia).
  rewrite Hs. assert (q <= 3) by (unfold q; apply Z.lt_succ_r, Z.div_lt_upper_bound; lia).
  assert (0 <= q) by (unfold q; apply Z.div_pos; lia).
  split; [nia|]. right. rewrite Z.mod_add, Z.mod_small by nia. nia.
Qed.

Lemma allocate_region_returns j u n m p c :
  5 <= j <= 8 -> config_wf c -> locations_fit c ->
  0 <= u < 2 ^ 31 -> u = 0 \/ 0 < u mod 2 ^ 29 <= 2 ^ 29 - 2 ^ j ->
  0 <= n -> u + n < U32 -> 0 <= m <= 2 ^ 29 ->
  exists r c', cm_allocate_region (2 ^ j) u n m p c = Ret (r, c').
Proof.
  intros Hj Hwf Hfit Hu Hal Hn Hun Hm.
  assert (HP : 32 <= 2 ^ j <= 256)
    by (split; [apply (Z.pow_le_mono_r 2 5)|apply (Z.pow_le_mono_r 2 j 8)]; lia).
  unfold cm_allocate_region.
  destruct (any_overlap_returns (regions c) u n Hfit) as [b ->]; [unfold u32_range; lia|].
  cbn [obind]. destruct b; [by eexists _, _|].
  destruct (unused_region_number c) as [num|] eqn:Hun'; [|by eexists _, _].
  apply unused_from_spec in Hun' as (_ & _ & r0 & Hr0 & _). rewrite Nat.sub_0_r in Hr0.
  apply lookup_lt_Some in Hr0. rewrite rem32_ok by lia. cbn [obind].
  destruct (align_min_returns j u Hj Hu Hal) as (s & Hs & Hsr & Hs29).
  pose proof Hs as Hs'. apply align_min in Hs' as (_ & Hs32r & Hs32);
    [|unfold U32; lia|by rewrite <- (Z.mul_1_r (2 ^ j)); apply pow2_mod32; lia
     |unfold u32_range, U32; lia].
  rewrite Hs. cbn [obind].
  set (size := if m <? 2 ^ j then 2 ^ j else m).
  assert (Hsz : 32 <= size <= 2 ^ 29) by (unfold size; destruct (Z.ltb_spec m (2 ^ j)); lia).
  destruct (plan_region_returns s size) as (s' & z' & rs & rz & sub & Hplan & Hend); [done..|].
  rewrite Hplan. cbn [obind].
  apply plan_region_sound in Hplan as (Hss & Hzz & k & -> & Hk & Hrs & Hrsal & Hsub & _);
    [|done|done|unfold U32; lia].
  ck. ck. destruct (u + n <? s' + z'); [by eexists _, _|].
  destruct (region_new_spec s' z' rs k (Z.of_nat num) sub p) as (r & -> & _);
    [done|apply (aligned_mod32 _ k); [lia|done]|lia| |done|].
  { destruct Hwf as [? _]. lia. }
  cbn [obind]. rewrite set_index_ok by done. cbn [obind]. by eexists _, _.
Qed.

(** * What the driver guarantees *)

(** C6: after any interleaving of the driver's operations on any number of
    process configurations, scheduling a process leaves the MPU's region
    registers equal to that process's configuration, so the hardware exposes
    exactly the addresses its configuration exposes, even when the driver skips
    the register writes because the configuration is already loaded. *)
Theorem configure_mpu_exact NUM MIN s s' i c c' m' :
  (2 <= NUM <= 16)%nat -> 32 <= MIN < U32 -> MIN mod 32 = 0 ->
  initial NUM s -> rtc (step NUM MIN) s s' -> configs s' !! i = Some c ->
  cm_configure_mpu c (hw s') = (c', m') ->
  hw_matches m' c' /\ forall a, hw_exposes m' a <-> exposes c a.
Proof.
  intros HN HM HM32 Hinit Hs Hi Hc.
  destruct (inv_reachable NUM MIN HN HM HM32 s s' Hinit Hs) as [H1 H2 _ _ _ H6].
  destruct (H2 i c Hi) as [Hwf Hl].
  destruct (configure_spec c (hw s') c' m') as (Hr & _ & _ & _ & _ & Hm);
    [done|congruence|eauto|done|].
  split; [unfold hw_matches in *; congruence|]. intros a. by apply hw_matches_exposes.
Qed.

Definition demo_hw : Mpu := mkMpu 1 None 0 (replicate 8 (0, 0)) 0.
Definition demo_config : CortexMConfig :=
  mkCortexMConfig 1 (map (fun i => region_empty (Z.of_nat i)) (seq 0 8)) true.

Lemma configure_mpu_exact_witness :
  let m := mkMpu 2 None 0 (replicate 8 (0, 0)) 0 in
  hw_matches (snd (cm_configure_mpu demo_config m)) (fst (cm_configure_mpu demo_config m)) /\
  forall a, hw_exposes (snd (cm_configure_mpu demo_config m)) a <-> exposes demo_config a.
Proof.
  apply (configure_mpu_exact 8 32 (mkSystem demo_hw [])
    (mkSystem (mkMpu 2 None 0 (replicate 8 (0, 0)) 0) [demo_config]) 0%nat);
    [lia|split; reflexivity || (intros ?; discriminate)|reflexivity|done| |reflexivity
    |vm_compute; reflexivity].
  eapply rtc_once. apply (step_new 8 32 demo_hw _ _ []). vm_compute. reflexivity.
Defined.

(** C23: [allocate_region] with a power-of-two minimum region size returns for
    every request below 2^29 bytes whose start is zero or not at a 512 MiB
    boundary; a refusal leaves the configuration alone, and a region that is
    handed out lies inside the offered memory, is as large as asked, and adds
    exactly its own addresses to what the configuration exposes: the
    power-of-two sizes, alignments and subregion masks of the hardware never
    leak a byte beyond the region that is reported to the kernel. *)
Theorem allocate_region_exact j u n m p c :
  5 <= j <= 8 -> config_wf c -> locations_fit c ->
  0 <= u < 2 ^ 31 -> u = 0 \/ 0 < u mod 2 ^ 29 <= 2 ^ 29 - 2 ^ j ->
  0 <= n -> u + n < U32 -> 0 <= m <= 2 ^ 29 ->
  exists r c', cm_allocate_region (2 ^ j) u n m p c = Ret (r, c') /\ config_wf c' /\
    match r with
    | None => c' = c
    | Some reg =>
      u <= start_address reg /\ m <= region_size reg /\
      start_address reg + region_size reg <= u + n /\
      forall a, exposes c' a <-> exposes c a \/
        start_address reg <= a < start_address reg + region_size reg
    end.
Proof.
  intros Hj Hwf Hfit Hu Hal Hn Hun Hm.
  destruct (allocate_region_returns j u n m p c) as (r & c' & Hrun); [done..|].
  exists r, c'. split; [done|]. destruct r as [reg|].
  - assert (HP : 32 <= 2 ^ j <= 256)
      by (split; [apply (Z.pow_le_mono_r 2 5)|apply (Z.pow_le_mono_r 2 j 8)]; lia).
    destruct (allocate_region_sound (2 ^ j)) with (u := u) (n := n) (m := m) (p := p)
      (c := c) (reg := reg) (c' := c') as (? & ? & ? & ? & ? & _); unfold u32_range, U32;
      try done; try lia; try (by split_and!; done || lia).
    rewrite <- (Z.mul_1_r (2 ^ j)). apply pow2_mod32. lia.
  - rewrite (allocate_region_refused _ _ _ _ _ _ _ Hrun). done.
Qed.

Lemma demo_config_wf : config_wf demo_config.
Proof.
  split; [simpl; lia|]. intros i r. unfold demo_config. cbn [regions].
  rewrite list_lookup_fmap. destruct (seq 0 8 !! i) as [j|] eqn:E; [|done].
  apply lookup_seq in E as [-> ?]. cbn. intros ?; simplify_eq.
  apply region_empty_wf. lia.
Qed.

Lemma allocate_region_exact_witness :
  exists r c', cm_allocate_region (2 ^ 5) 65568 100000 3000 ReadOnly demo_config
      = Ret (r, c') /\ config_wf c' /\
    match r with
    | None => c' = demo_config
    | Some reg =>
      65568 <= start_address reg /\ 3000 <= region_size reg /\
      start_address reg + region_size reg <= 65568 + 100000 /\
      forall a, exposes c' a <-> exposes demo_config a \/
        start_address reg <= a < start_address reg + region_size reg
    end.
Proof.
  apply (allocate_region_exact 5 65568 100000 3000 ReadOnly demo_config);
    [lia|apply demo_config_wf|repeat constructor|lia|right; vm_compute; done
    |lia|unfold U32; lia|lia].
Defined.

(** At a nonzero multiple of 512 MiB (the start of SRAM on every Cortex-M,
    0x2000_0000) a region whose size is not a power of two makes
    [allocate_region] overflow: the computed subregion size is 2^29, and eight
    of them are 2^32 bytes. *)
Theorem allocate_region_overflows j k n m p c num :
  5 <= j <= 8 -> 1 <= k <= 3 -> 2 ^ j <= m <= 2 ^ 29 -> 1 < count_ones m ->
  any_overlap (regions c) (k * 2 ^ 29) n = Ret false ->
  unused_region_number c = Some num ->
  cm_allocate_region (2 ^ j) (k * 2 ^ 29) n m p c = Panic.
Proof.
  intros Hj Hk Hm Hc Hov Hun. unfold cm_allocate_region. rewrite Hov, Hun. cbn [obind].
  assert (H29 : 2 ^ 29 = 2 ^ (29 - j) * 2 ^ j) by (rewrite <- Z.pow_add_r by lia; f_equal; lia).
  assert (0 < 2 ^ j) by (apply Z.pow_pos_nonneg; lia).
  rewrite rem32_ok by lia. cbn [obind].
  assert (E : (k * 2 ^ 29) mod 2 ^ j = 0) by (rewrite H29, Z.mul_assoc; apply Z.mod_mul; lia).
  rewrite E. cbn [negb Z.eqb obind]. rewrite (proj2 (Z.ltb_ge _ _)) by lia.
  enough (plan_region (k * 2 ^ 29) m = Panic) as -> by done.
  unfold plan_region. rewrite rem32_ok by lia. cbn [obind].
  rewrite (proj2 (Z.ltb_lt _ _) Hc), orb_true_l. unfold subregion_size_for.
  assert (k = 1 \/ k = 2 \/ k = 3) as [-> | [-> | -> ] ] by lia; reflexivity.
Qed.

Lemma allocate_region_overflows_witness :
  cm_allocate_region (2 ^ 5) (1 * 2 ^ 29) 65536 96 ReadWriteOnly demo_config = Panic.
Proof.
  apply (allocate_region_overflows 5 1 65536 96 ReadWriteOnly demo_config 2%nat);
    [lia|lia|lia|reflexivity|vm_compute; reflexivity|vm_compute; reflexivity].
Defined.

(** * App memory *)

(** [update_app_memory_region] for a process block of at most 2^31 bytes
    always returns for an app break above the block's start.  It refuses,
    changing nothing, exactly when the app break (at subregion granularity)
    would pass the kernel break; otherwise the process can touch everything
    below its app break and nothing of the block from the kernel break up, which is where the
    kernel keeps its grants. *)
Theorem update_app_memory_region_isolates c start len ab kb p :
  cm_manages c start len -> start + len <= 2 ^ 31 -> start < ab -> kb <= start + len ->
  exists o c', cm_update_app_memory_region ab kb p c = Ret (o, c') /\
    match o with
    | Ok _ =>
      cm_manages c' start len /\ ab <= kb /\
      (forall a, start <= a < ab -> exposes c' a) /\
      (forall a, kb <= a < start + len -> ~ exposes c' a)
    | Err _ =>
      c' = c /\ (kb < ab \/
        exists r rz, regions c !! 0%nat = Some r /\ location r = Some (start, rz) /\
          kb < rounded_break start rz ab)
    end.
Proof.
  intros Hman Htop Hab Hkb.
  destruct (update_returns c start len ab kb p) as (o & c' & Hrun & Herr); [done..|].
  exists o, c'. split; [done|]. destruct o as [[]|[]].
  - destruct (update_sound c c' start len ab kb p) as (? & ? & ? & ? & _); [done|lia|done|done|by split_and!].
  - split; [by apply (update_refused c c' ab kb p)|]. by apply (Herr tt).
Qed.

Definition demo_app_start : Z := 536887296.
Definition demo_app : CortexMConfig :=
  match cm_allocate_app_memory_region demo_app_start 65536 4096 1024 512 ReadWriteOnly
          demo_config with
  | Ret (_, c) => c
  | _ => demo_config
  end.

Lemma demo_app_manages : cm_manages demo_app demo_app_start 4096.
Proof.
  destruct (allocate_app_sound demo_app_start 65536 4096 1024 512 ReadWriteOnly demo_config
    demo_app_start 4096 demo_app) as (_ & _ & _ & _ & H & _);
    [apply demo_config_wf|split; [discriminate|reflexivity]|split; [discriminate|reflexivity]
    |lia|lia|vm_compute; reflexivity|exact H].
Qed.

Lemma update_app_memory_region_isolates_witness :
  exists o c', cm_update_app_memory_region (demo_app_start + 2000) (demo_app_start + 3000)
      ReadWriteOnly demo_app = Ret (o, c') /\
    match o with
    | Ok _ =>
      cm_manages c' demo_app_start 4096 /\ demo_app_start + 2000 <= demo_app_start + 3000 /\
      (forall a, demo_app_start <= a < demo_app_start + 2000 -> exposes c' a) /\
      (forall a, demo_app_start + 3000 <= a < demo_app_start + 4096 -> ~ exposes c' a)
    | Err _ =>
      c' = demo_app /\ (demo_app_start + 3000 < demo_app_start + 2000 \/
        exists r rz, regions demo_app !! 0%nat = Some r /\
          location r = Some (demo_app_start, rz) /\
          demo_app_start + 3000 < rounded_break demo_app_start rz (demo_app_start + 2000))
    end.
Proof.
  apply (update_app_memory_region_isolates demo_app demo_app_start 4096
    (demo_app_start + 2000) (demo_app_start + 3000) ReadWriteOnly);
    [apply demo_app_manages|unfold demo_app_start; lia|lia|lia].
Defined.

Lemma align_up_returns rs rz :
  0 < rz <= 2 ^ 30 -> 0 <= rs <= 2 ^ 31 + 2 ^ 29 ->
  exists r, align_up rs rz = Ret r /\ rs <= r < rs + rz.
Proof.
  intros Hz Hs. unfold align_up. rewrite rem32_ok by lia. cbn [obind].
  pose proof (Z.mod_pos_bound rs rz ltac:(lia)).
  destruct (Z.eqb_spec (rs mod rz) 0); cbn [negb]; [exists rs; split; [done|lia]|].
  ck. ck. eexists; split; [done|lia].
Qed.

(** The region of the first attempt, or the one of twice its size. *)
Lemma app_candidates_return j rs0 app kern num :
  9 <= j <= 28 -> 0 <= rs0 <= 2 ^ 31 + 2 ^ 28 -> rs0 mod 2 ^ (j - 1) = 0 ->
  0 <= app <= 2 ^ j -> 0 <= kern -> 1 <= num ->
  exists k rs num',
    (if rs0 + 2 ^ j - kern <? rs0 + num * 2 ^ (j - 4) then
       let! region_size := mul32 (2 ^ (j - 1)) 2 in
       let! region_start := align_up rs0 region_size in
       let! app8 := mul32 app 8 in
       let! q := div32 app8 region_size in
       let! n := add32 q 1 in
       Ret (region_size, region_start, n)
     else Ret (2 ^ (j - 1), rs0, num)) = Ret (2 ^ k, rs, num') /\
    8 <= k <= j /\ 0 <= rs <= 2 ^ 31 + 2 ^ 29 /\ rs mod 2 ^ k = 0 /\ 1 <= num' <= 16.
Proof.
  intros Hj Hrs0 Hmod Happ Hkern Hnum. destruct (pow2_double j) as [Hdbl _]; [lia|].
  destruct (pow2_eighth (j - 1)) as [_ H8]; [lia|]. replace (j - 1 - 3) with (j - 4) in H8 by lia.
  assert (HP : 0 < 2 ^ (j - 4)) by (apply Z.pow_pos_nonneg; lia).
  assert (2 ^ j <= 2 ^ 28) by (apply Z.pow_le_mono_r; lia).
  destruct (Z.ltb_spec (rs0 + 2 ^ j - kern) (rs0 + num * 2 ^ (j - 4))).
  - unfold mul32 at 1. rewrite <- Hdbl, checked32_ok by (unfold u32_range, U32; lia). cbn [obind].
    destruct (align_up_returns rs0 (2 ^ j)) as (r & Hr & Hrb); [lia..|].
    rewrite Hr. cbn [obind]. apply align_up_sound in Hr as (_ & ? & _);
      [|lia|unfold u32_range, U32; lia].
    assert (0 <= app * 8 / 2 ^ j <= 8)
      by (split; [apply Z.div_pos; lia|apply Z.div_le_upper_bound; lia]).
    ck. rewrite div32_ok by lia. cbn [obind]. ck.
    exists j. eexists _, _. split; [done|]. split_and!; try lia; done.
  - exists (j - 1). eexists _, _. split; [done|]. split_and!; try lia; try done.
    apply (Z.mul_le_mono_pos_r _ _ (2 ^ (j - 4)) HP). lia.
Qed.

Lemma allocate_app_returns u n m app kern p c :
  config_wf c -> locations_fit c -> 0 <= u -> 0 <= n -> u + n <= 2 ^ 31 ->
  0 <= m <= 2 ^ 28 -> 0 <= app -> 0 <= kern -> app + kern <= 2 ^ 28 ->
  1 <= Z.max m (app + kern) ->
  exists r c', cm_allocate_app_memory_region u n m app kern p c = Ret (r, c').
Proof.
  intros Hwf Hfit Hu Hn Hun Hm Happ Hkern Hsum Hmax. unfold cm_allocate_app_memory_region.
  destruct (any_overlap_returns (regions c) u n Hfit) as [b ->];
    [unfold u32_range, U32; lia|].
  cbn [obind]. destruct b; [by eexists _, _|]. ck.
  set (msize := Z.max m (app + kern)) in *.
  rewrite Math.closest_power_of_two_ok by lia. cbn [obind].
  pose proof (log2_up_31 msize 28 ltac:(lia) ltac:(lia)) as Hj.
  pose proof (Math.log2_up_bounds msize ltac:(lia)) as Hup.
  rewrite Math.log_base_two_ok by (split; [lia|apply Z.pow_lt_mono_r; lia]).
  rewrite Z.log2_pow2 by lia. cbn [obind].
  rewrite (proj2 (Z.ltb_ge 32 _)), andb_false_r by lia.
  assert (Hpo2 : exists j, 9 <= j <= 28 /\ msize <= 2 ^ j /\
    (if Z.log2_up msize <? 9 then 512 else 2 ^ Z.log2_up msize) = 2 ^ j).
  { destruct (Z.ltb_spec (Z.log2_up msize) 9).
    - exists 9. split_and!; [lia..| |done]. etransitivity; [apply Hup|].
      apply Z.pow_le_mono_r; lia.
    - exists (Z.log2_up msize). split_and!; [lia..|apply Hup|done]. }
  destruct Hpo2 as (j & Hj' & Hmj & ->).
  destruct (pow2_double j) as [Hdbl ->]; [lia|].
  destruct (pow2_eighth (j - 1)) as [H8 H8']; [lia|]. rewrite H8.
  replace (j - 1 - 3) with (j - 4) in * by lia.
  assert (HP : 0 < 2 ^ (j - 4)) by (apply Z.pow_pos_nonneg; lia).
  assert (2 ^ j <= 2 ^ 28) by (apply Z.pow_le_mono_r; lia).
  destruct (align_up_returns u (2 ^ (j - 1))) as (rs0 & Hal0 & Hrs0); [lia..|].
  pose proof Hal0 as Hal0'. apply align_up_sound in Hal0' as (_ & Hmod0 & _);
    [|lia|unfold u32_range, U32; lia].
  rewrite Hal0. cbn [obind]. ck. rewrite div32_ok by lia. cbn [obind].
  assert (Hq : 0 <= app * 8 / 2 ^ (j - 1) <= 16)
    by (split; [apply Z.div_pos; lia|apply Z.div_le_upper_bound; lia]).
  ck. assert ((app * 8 / 2 ^ (j - 1) + 1) * 2 ^ (j - 4) <= 2 ^ 30) by nia.
  unfold mul32. rewrite checked32_ok by (unfold u32_range, U32; nia). cbn [obind].
  ck. ck. ck.
  destruct (app_candidates_return j rs0 app kern (app * 8 / 2 ^ (j - 1) + 1))
    as (k & rs & num & Hch & Hk & Hrs & Hal & Hnum); [lia..|].
  unfold add32, mul32 in Hch. rewrite (checked32_ok (app * 8)) in Hch by (unfold u32_range, U32; lia).
  cbn [obind] in Hch. rewrite Hch. cbn [obind].
  assert (2 ^ k <= 2 ^ 28) by (apply Z.pow_le_mono_r; lia).
  ck. ck. destruct (u + n <? rs + 2 ^ j); [by eexists _, _|].
  destruct (app_regions_spec rs k num p c) as (c1 & ? & ? & -> & _);
    [done|unfold u32_range, U32; lia|apply (aligned_mod32 _ k); [lia|done]|lia|lia|unfold U32; lia|].
  cbn [obind]. by eexists _, _.
Qed.

(** [allocate_app_memory_region] returns for every request of at most 2^28
    bytes in the low half of the address space; a refusal changes nothing.  A
    block it hands out lies in the offered memory, has room for the minimum
    size and for the app and kernel parts together, and, whenever the app part
    rounded up to subregions fits below the kernel part, exposes the app part
    and none of the kernel-owned part. *)
Theorem allocate_app_memory_region_isolates u n m app kern p c :
  config_wf c -> locations_fit c -> 0 <= u -> 0 <= n -> u + n <= 2 ^ 31 ->
  0 <= m <= 2 ^ 28 -> 0 <= app -> 0 <= kern -> app + kern <= 2 ^ 28 ->
  1 <= Z.max m (app + kern) ->
  exists r c', cm_allocate_app_memory_region u n m app kern p c = Ret (r, c') /\
    match r with
    | None => c' = c
    | Some (start, len) =>
      u <= start /\ start + len <= u + n /\ m <= len /\ app + kern <= len /\
      cm_manages c' start len /\
      (enabled_bytes app len <= len - kern ->
         (forall a, start <= a < start + app -> exposes c' a) /\
         forall a, start + len - kern <= a < start + len -> ~ exposes c' a)
    end.
Proof.
  intros Hwf Hfit Hu Hn Hun Hm Happ Hkern Hsum Hmax.
  destruct (allocate_app_returns u n m app kern p c) as (r & c' & Hrun); [done..|].
  exists r, c'. split; [done|]. destruct r as [[start len]|].
  - destruct (allocate_app_sound u n m app kern p c start len c')
      as (? & ? & ? & ? & ? & ? & _); unfold u32_range, U32; try done; lia.
  - by apply (allocate_app_touched u n m app kern p c None c').
Qed.

Lemma allocate_app_memory_region_isolates_witness :
  exists r c', cm_allocate_app_memory_region demo_app_start 65536 4096 1024 512
      ReadWriteOnly demo_config = Ret (r, c') /\
    match r with
    | None => c' = demo_config
    | Some (start, len) =>
      demo_app_start <= start /\ start + len <= demo_app_start + 65536 /\
      4096 <= len /\ 1024 + 512 <= len /\ cm_manages c' start len /\
      (enabled_bytes 1024 len <= len - 512 ->
         (forall a, start <= a < start + 1024 -> exposes c' a) /\
         forall a, start + len - 512 <= a < start + len -> ~ exposes c' a)
    end.
Proof.
  apply (allocate_app_memory_region_isolates demo_app_start 65536 4096 1024 512
    ReadWriteOnly demo_config); [apply demo_config_wf|repeat constructor
    |unfold demo_app_start; lia..].
Defined.

(** When the app part rounded up to subregions does not fit below the
    kernel part, [allocate_app_memory_region] doubles the region size but not
    the block, and the block it hands out exposes the first byte of the
    kernel-owned memory to the process. *)
Theorem allocate_app_memory_region_overlap u n m app kern p c start len c' :
  config_wf c -> u32_range u -> u32_range m -> 0 <= app -> 0 < kern ->
  cm_allocate_app_memory_region u n m app kern p c = Ret (Some (start, len), c') ->
  len - kern < enabled_bytes app len ->
  exposes c' (start + len - kern).
Proof.
  intros Hwf Hu Hm Happ Hkern Hrun.
  destruct (allocate_app_sound u n m app kern p c start len c')
    as (_ & _ & _ & _ & _ & _ & Hov & _); [done|done|done|done|lia|done|]. by apply Hov.
Qed.

Lemma allocate_app_memory_region_overlap_witness :
  exists c', cm_allocate_app_memory_region demo_app_start 65536 4096 3500 596 ReadWriteOnly
      demo_config = Ret (Some (demo_app_start, 4096), c') /\
    exposes c' (demo_app_start + 4096 - 596).
Proof.
  eexists. split; [vm_compute; reflexivity|].
  eapply (allocate_app_memory_region_overlap demo_app_start 65536 4096 3500 596 ReadWriteOnly
    demo_config demo_app_start 4096);
    [apply demo_config_wf|split; [discriminate|reflexivity]|split; [discriminate|reflexivity]
    |lia|lia|vm_compute; reflexivity|vm_compute; reflexivity].
Defined.

End CortexMSystem.
