(* ===== verification/Pmp.v ===== *)
(** The RISC-V memory protection driver ([arch/rv32i/src/pmp.rs]), module [Pmp]:
    [PMPUserMPU], which implements the kernel's MPU interface on top of any PMP
    that offers top-of-range (TOR) regions ([TORUserPMP], a class here).
    [PmpSpec] shows that it keeps the laws of the interface; the PMPs behind it
    are in [PmpHw]. *)

From stdpp Require Import base numbers list.
From S2P Require Import Prelude Registers Mpu.
Import Mpu.
Local Open Scope Z_scope.

Module Pmp.

(** * The octet of a PMP entry *)

Definition r_SET : Reg.FieldValue := Reg.register_SET 8 0 1.
Definition r_CLEAR : Reg.FieldValue := Reg.register_CLEAR 8 0 1.
Definition w_SET : Reg.FieldValue := Reg.register_SET 8 1 1.
Definition w_CLEAR : Reg.FieldValue := Reg.register_CLEAR 8 1 1.
Definition x_SET : Reg.FieldValue := Reg.register_SET 8 2 1.
Definition x_CLEAR : Reg.FieldValue := Reg.register_CLEAR 8 2 1.
Definition a_OFF : Reg.FieldValue := Reg.register_value 8 3 2 0.
Definition a_TOR : Reg.FieldValue := Reg.register_value 8 3 2 1.
Definition a_NAPOT : Reg.FieldValue := Reg.register_value 8 3 2 3.
Definition l_ : Reg.Field := Reg.register_field 7 1.
Definition l_SET : Reg.FieldValue := Reg.register_SET 8 7 1.
Definition l_CLEAR : Reg.FieldValue := Reg.register_CLEAR 8 7 1.

(** [TORUserPMPCFG]: an octet that is [OFF] or unlocked and top-of-range. *)
Definition TORUserPMPCFG : Type := Z.
Definition OFF : TORUserPMPCFG := 0.

Definition from_permissions (p : Permissions) : TORUserPMPCFG :=
  let fv :=
    match p with
    | ReadWriteExecute => Reg.fv_add (Reg.fv_add r_SET w_SET) x_SET
    | ReadWriteOnly => Reg.fv_add (Reg.fv_add r_SET w_SET) x_CLEAR
    | ReadExecuteOnly => Reg.fv_add (Reg.fv_add r_SET w_CLEAR) x_SET
    | ReadOnly => Reg.fv_add (Reg.fv_add r_SET w_CLEAR) x_CLEAR
    | ExecuteOnly => Reg.fv_add (Reg.fv_add r_CLEAR w_CLEAR) x_SET
    end in
  Reg.fv_value (Reg.fv_add (Reg.fv_add fv l_CLEAR) a_TOR).

(** [(TORUserPMPCFG, *const u8, *const u8)]: octet, start and end. *)
Record Tor := mkTor { t_cfg : TORUserPMPCFG; t_start : Z; t_end : Z }.
Definition tor_off : Tor := mkTor OFF 0 0.
Definition is_off (r : Tor) : bool := t_cfg r =? OFF.

(** [start..end], and [contains]. *)
Definition range_is_empty (s e : Z) : bool := negb (s <? e).
Definition range_contains (s e a : Z) : bool := (s <=? a) && (a <? e).

Definition region_overlaps (region : Tor) (other_start other_size : Z) : outcome bool :=
  let! other_end := add32 other_start other_size in
  Ret (negb (range_is_empty (t_start region) (t_end region))
       && negb (range_is_empty other_start other_end)
       && (range_contains (t_start region) (t_end region) other_start
           || range_contains (t_start region) (t_end region) (other_end - 1)
           || range_contains other_start other_end (t_start region)
           || range_contains other_start other_end (t_end region - 1))).

(** * The interface of a PMP *)

Class TORUserPMP (P : Type) := {
  configure_pmp : list Tor -> P -> outcome (result unit unit * P);
  enable_user_pmp : P -> outcome (result unit unit * P);
  disable_user_pmp : P -> outcome P;
}.

(** * The driver *)

Record PMPUserMPUConfig := mkConfig {
  id : Z;
  is_dirty : bool;
  regions : list Tor;
  app_memory_region : option nat;
}.

Record PMPUserMPU (P : Type) := mkPMPUserMPU {
  config_count : Z;
  last_configured_for : option Z;
  pmp : P;
}.
Arguments mkPMPUserMPU {P}.
Arguments config_count {P}.
Arguments last_configured_for {P}.
Arguments pmp {P}.

Section driver.
  Context {P : Type} {tor : TORUserPMP P}.
  (** The const generic [MAX_REGIONS]. *)
  Context (MAX_REGIONS : nat).
  Implicit Type h : PMPUserMPU P.

Definition new (p : P) : PMPUserMPU P := mkPMPUserMPU 1 None p.
Definition set_pmp (p : P) h : PMPUserMPU P := mkPMPUserMPU (config_count h) (last_configured_for h) p.

(** [Result::unwrap] *)
Definition unwrap {A} (r : result unit unit * A) : outcome A :=
  match r with (Ok _, a) => Ret a | (Err _, _) => Panic end.

Definition pmp_enable_app_mpu h : outcome (PMPUserMPU P) :=
  let! r := enable_user_pmp (pmp h) in
  let! p := unwrap r in
  Ret (set_pmp p h).
Definition pmp_disable_app_mpu h : outcome (PMPUserMPU P) :=
  let! p := disable_user_pmp (pmp h) in
  Ret (set_pmp p h).

Definition pmp_new_config h : option PMPUserMPUConfig * PMPUserMPU P :=
  let id := config_count h in
  if id + 1 <? U32 then
    (Some (mkConfig id true (replicate MAX_REGIONS tor_off) None),
     mkPMPUserMPU (id + 1) (last_configured_for h) (pmp h))
  else (None, h).

Definition pmp_reset_config (config : PMPUserMPUConfig) : PMPUserMPUConfig :=
  mkConfig (id config) true (map (fun _ => tor_off) (regions config)) None.

(** The first region that is off. *)
Fixpoint free_from (i : nat) (rs : list Tor) : option nat :=
  match rs with
  | [] => None
  | r :: rs => if is_off r then Some i else free_from (S i) rs
  end.
Definition free_region (config : PMPUserMPUConfig) : option nat := free_from 0 (regions config).

(** [if x % 4 != 0 { x += 4 - (x % 4); }] *)
Definition round_up4 (x : Z) : outcome Z :=
  if x mod 4 =? 0 then Ret x else add32 x (4 - x mod 4).

(** [for region in config.regions.iter() { if .. region_overlaps(..) .. }] *)
Fixpoint any_overlap (rs : list Tor) (start size : Z) : outcome bool :=
  match rs with
  | [] => Ret false
  | r :: rs =>
    let! o := (if is_off r then Ret false else region_overlaps r start size) in
    if o then Ret true else any_overlap rs start size
  end.

Definition writeable (p : Permissions) : bool :=
  match p with
  | ReadWriteExecute | ReadWriteOnly => true
  | ReadExecuteOnly | ReadOnly | ExecuteOnly => false
  end.

(** The region does not fit: [return None] unless the caller may be given up to
    three more bytes. *)
Definition too_large (start size unallocated_memory_start unallocated_memory_size : Z)
    (permissions : Permissions) : outcome bool :=
  let! end_ := add32 start size in
  let! limit := add32 unallocated_memory_start unallocated_memory_size in
  if limit <? end_ then
    if writeable permissions then Ret true
    else
      let! limit3 := add32 limit 3 in
      Ret (limit3 <? end_)
  else Ret false.

Definition pmp_allocate_region (unallocated_memory_start unallocated_memory_size
    min_region_size : Z) (permissions : Permissions) (config : PMPUserMPUConfig)
    : outcome (option Region * PMPUserMPUConfig) :=
  match free_region config with
  | None => Ret (None, config)
  | Some region_num =>
    let! start := round_up4 unallocated_memory_start in
    let! size := round_up4 min_region_size in
    let size := if size <? 4 then 4 else size in
    let! large := too_large start size unallocated_memory_start unallocated_memory_size permissions in
    if large then Ret (None, config)
    else
      let! overlap := any_overlap (regions config) start size in
      if overlap then Ret (None, config)
      else
        let! end_ := add32 start size in
        let! rs := set_index (regions config) region_num
                     (mkTor (from_permissions permissions) start end_) in
        Ret (Some (mkRegion start size),
             mkConfig (id config) true rs (app_memory_region config))
  end.

(** The first region that is on and has these bounds. *)
Fixpoint find_region_from (i : nat) (region : Region) (rs : list Tor) : outcome (option nat) :=
  match rs with
  | [] => Ret None
  | r :: rs =>
    let! found :=
      (if negb (is_off r) && (t_start r =? start_address region) then
         let! end_ := add32 (start_address region) (region_size region) in
         Ret (t_end r =? end_)
       else Ret false) in
    if found then Ret (Some i) else find_region_from (S i) region rs
  end.

Definition pmp_remove_memory_region (region : Region) (config : PMPUserMPUConfig)
    : outcome (result unit unit * PMPUserMPUConfig) :=
  let! found := find_region_from 0 region (regions config) in
  match found with
  | None => Ret (Err tt, config)
  | Some index_ =>
    let! r := index (regions config) index_ in
    Ret (Ok tt, mkConfig (id config) true
                  (<[index_ := mkTor OFF (t_start r) (t_end r)]> (regions config))
                  (app_memory_region config))
  end.

Definition pmp_allocate_app_memory_region (unallocated_memory_start unallocated_memory_size
    min_memory_size initial_app_memory_size initial_kernel_memory_size : Z)
    (permissions : Permissions) (config : PMPUserMPUConfig)
    : outcome (option (Z * Z) * PMPUserMPUConfig) :=
  match app_memory_region config with
  | Some _ => Ret (None, config)
  | None =>
    match free_region config with
    | None => Ret (None, config)
    | Some region_num =>
      let! start := round_up4 unallocated_memory_start in
      let! pmp_region_size := round_up4 initial_app_memory_size in
      let pmp_region_size := if pmp_region_size <? 4 then 4 else pmp_region_size in
      let! sum := add32 pmp_region_size initial_kernel_memory_size in
      let memory_block_size := Z.max min_memory_size sum in
      let! block_end := add32 start memory_block_size in
      let! limit := add32 unallocated_memory_start unallocated_memory_size in
      if limit <? block_end then Ret (None, config)
      else
        let! overlap := any_overlap (regions config) start memory_block_size in
        if overlap then Ret (None, config)
        else
          let! end_ := add32 start pmp_region_size in
          let! rs := set_index (regions config) region_num
                       (mkTor (from_permissions permissions) start end_) in
          Ret (Some (start, memory_block_size), mkConfig (id config) true rs (Some region_num))
    end
  end.

Definition pmp_update_app_memory_region (app_memory_break kernel_memory_break : Z)
    (permissions : Permissions) (config : PMPUserMPUConfig)
    : outcome (result unit unit * PMPUserMPUConfig) :=
  match app_memory_region config with
  | None => Ret (Err tt, config)
  | Some region_num =>
    let! app_memory_break := round_up4 app_memory_break in
    if kernel_memory_break <? app_memory_break then Ret (Err tt, config)
    else
      let! r := index (regions config) region_num in
      let! rs := set_index (regions config) region_num
                   (mkTor (from_permissions permissions) (t_start r) app_memory_break) in
      Ret (Ok tt, mkConfig (id config) true rs (app_memory_region config))
  end.

Definition pmp_configure_mpu (config : PMPUserMPUConfig) h
    : outcome (PMPUserMPUConfig * PMPUserMPU P) :=
  if negb (bool_decide (last_configured_for h = Some (id config))) || is_dirty config then
    let! r := configure_pmp (regions config) (pmp h) in
    let! p := unwrap r in
    Ret (mkConfig (id config) false (regions config) (app_memory_region config),
         mkPMPUserMPU (config_count h) (Some (id config)) p)
  else Ret (config, h).

Definition pmp_mpu : MPU (PMPUserMPU P) PMPUserMPUConfig := {|
  enable_app_mpu := pmp_enable_app_mpu;
  disable_app_mpu := pmp_disable_app_mpu;
  new_config := pmp_new_config;
  reset_config := pmp_reset_config;
  allocate_region := pmp_allocate_region;
  remove_memory_region := pmp_remove_memory_region;
  allocate_app_memory_region := pmp_allocate_app_memory_region;
  update_app_memory_region := pmp_update_app_memory_region;
  configure_mpu := pmp_configure_mpu;
|}.

End driver.
End Pmp.
