(* ===== verification/PmpSpec.v ===== *)
(** Theorems about the RISC-V driver of [Pmp] (module [PmpSpec]): what its
    operations do to the memory a configuration exposes, and its instance of
    [MpuIsolation], for every PMP that accepts the regions the driver makes. *)

From stdpp Require Import base numbers list.
From S2P Require Import Prelude Registers Mpu Pmp.
Import Mpu Pmp.
Local Open Scope Z_scope.

Module PmpSpec.

(** * Regions and configurations *)

(** Address [a] is in a region that is on. *)
Definition tor_covers (r : Tor) (a : Z) : Prop := is_off r = false /\ t_start r <= a < t_end r.
Definition pmp_exposed (c : PMPUserMPUConfig) (a : Z) : Prop :=
  exists i r, regions c !! i = Some r /\ tor_covers r a.

(** A region that is on has 32-bit bounds on four-byte boundaries and is not
    writeable and executable at the same time. *)
Definition tor_ok (r : Tor) : Prop :=
  is_off r = true \/
  exists p, p <> ReadWriteExecute /\ t_cfg r = from_permissions p /\
    u32_range (t_start r) /\ u32_range (t_end r) /\ (4 | t_start r) /\ (4 | t_end r).

Definition pmp_valid (MAX_REGIONS : nat) (c : PMPUserMPUConfig) : Prop :=
  length (regions c) = MAX_REGIONS /\ Forall tor_ok (regions c).

(** The app-memory region starts the block [start, start + len) and stays in
    it; no other region touches the block. *)
Definition pmp_manages (MAX_REGIONS : nat) (c : PMPUserMPUConfig) (start len : Z) : Prop :=
  pmp_valid MAX_REGIONS c /\ ((4 | start) /\ 0 <= start /\ start + len < U32) /\
  exists i r, app_memory_region c = Some i /\ regions c !! i = Some r /\
    is_off r = false /\ t_start r = start /\ t_end r <= start + len /\
    forall j r' a, j <> i -> regions c !! j = Some r' -> start <= a < start + len ->
      ~ tor_covers r' a.

Lemma from_permissions_on p : from_permissions p <> OFF.
Proof. by destruct p. Qed.
Lemma permissions_on p s e : is_off (mkTor (from_permissions p) s e) = false.
Proof. by destruct p. Qed.

Lemma round_up4_Ret x y : round_up4 x = Ret y -> x <= y < x + 4 /\ (4 | y) /\ (u32_range x -> u32_range y).
Proof.
  unfold round_up4. pose proof (Z.mod_pos_bound x 4 ltac:(lia)). pose proof (Z.div_mod x 4 ltac:(lia)).
  destruct (Z.eqb_spec (x mod 4) 0); intros Hr.
  - injection Hr as <-. split; [lia|]. split; [|done]. exists (x / 4). lia.
  - apply checked32_Ret in Hr as [-> Hu]. split; [lia|]. split; [|done]. exists (x / 4 + 1). lia.
Qed.

Lemma round_up4_returns x : 0 <= x -> x + 3 < U32 -> returns (round_up4 x).
Proof.
  intros H0 H1. unfold round_up4. pose proof (Z.mod_pos_bound x 4 ltac:(lia)).
  destruct (Z.eqb_spec (x mod 4) 0); [by eexists|].
  unfold add32. rewrite checked32_ok by (unfold u32_range; lia). by eexists.
Qed.

(** The least region is four bytes. *)
Lemma min_size x y : round_up4 x = Ret y ->
  let z := if y <? 4 then 4 else y in x <= z /\ 4 <= z /\ (4 | z).
Proof.
  intros (Hlo & Hdiv & _)%round_up4_Ret. cbn. destruct (Z.ltb_spec y 4).
  - split; [lia|]. split; [lia|]. by exists 1.
  - split; [lia|]. by split; [lia|].
Qed.

(** Overlap checks are exact. *)
Lemma region_overlaps_spec r s z :
  region_overlaps r s z = Ret false ->
  forall a, t_start r <= a < t_end r -> ~ s <= a < s + z.
Proof.
  unfold region_overlaps. intros H a Hr Ho. apply obind_Ret in H as (e & He & H).
  apply checked32_Ret in He as [-> _]. injection H as H.
  unfold range_is_empty, range_contains in H.
  destruct (Z.ltb_spec (t_start r) (t_end r)); [|lia]. destruct (Z.ltb_spec s (s + z)); [|lia].
  cbn [negb andb] in H. apply orb_false_iff in H as [H _]. apply orb_false_iff in H as [H G3].
  apply orb_false_iff in H as [G1 _].
  apply andb_false_iff in G1 as [G1%Z.leb_gt|G1%Z.ltb_ge]; [|lia].
  apply andb_false_iff in G3 as [G3%Z.leb_gt|G3%Z.ltb_ge]; lia.
Qed.

Lemma any_overlap_spec rs s z :
  any_overlap rs s z = Ret false ->
  forall i r a, rs !! i = Some r -> tor_covers r a -> ~ s <= a < s + z.
Proof.
  induction rs as [|r0 rs IH]; cbn [any_overlap]; [done|]. intros H.
  apply obind_Ret in H as (o & Ho & H). destruct o; [done|].
  intros [|i] r a Hr; cbn in Hr; [simplify_eq|by apply (IH H i)].
  intros [Hon Hc]. rewrite Hon in Ho. by apply (region_overlaps_spec r s z).
Qed.

Lemma free_from_spec i rs n :
  free_from i rs = Some n -> (i <= n)%nat /\ exists r, rs !! (n - i)%nat = Some r /\ is_off r = true.
Proof.
  revert i. induction rs as [|r rs IH]; intros i H; cbn in H; [done|].
  destruct (is_off r) eqn:E.
  - simplify_eq. split; [done|]. exists r. by rewrite Nat.sub_diag.
  - apply IH in H as (Hle & r0 & Hr0 & Hoff). split; [lia|]. exists r0.
    split; [|done]. by replace (n - i)%nat with (S (n - S i))%nat by lia.
Qed.

Lemma free_region_spec c n :
  free_region c = Some n -> exists r, regions c !! n = Some r /\ is_off r = true.
Proof. intros (_ & r & Hr & Ho)%free_from_spec. rewrite Nat.sub_0_r in Hr. by exists r. Qed.

(** A region that is switched on in a free place. *)
Lemma exposed_insert c n r0 r id' d' app' a :
  regions c !! n = Some r0 -> is_off r0 = true ->
  pmp_exposed (mkConfig id' d' (<[n := r]> (regions c)) app') a <->
  pmp_exposed c a \/ tor_covers r a.
Proof.
  intros Hn Hoff. unfold pmp_exposed. cbn [regions]. split.
  - intros (i & r1 & [(<- & <- & _)|[Hne Hi] ]%list_lookup_insert_Some & Hc); [by right|].
    left. by exists i, r1.
  - intros [(i & r1 & Hi & Hc)|Hc].
    + exists i, r1. split; [|done]. rewrite list_lookup_insert_ne; [done|]. intros <-.
      rewrite Hn in Hi. simplify_eq. destruct Hc as [Hc _]. congruence.
    + exists n, r. split; [|done]. apply list_lookup_insert_eq. by apply lookup_lt_Some in Hn.
Qed.

Lemma valid_insert N c n r id' d' app' :
  pmp_valid N c -> tor_ok r -> pmp_valid N (mkConfig id' d' (<[n := r]> (regions c)) app').
Proof.
  intros [Hl Hf] Hr. split; cbn [regions]; [by rewrite length_insert|by apply Forall_insert].
Qed.

Lemma tor_ok_new p s e :
  p <> ReadWriteExecute -> u32_range s -> u32_range e -> (4 | s) -> (4 | e) ->
  tor_ok (mkTor (from_permissions p) s e).
Proof. intros. right. exists p. by split_and!. Qed.

(** * Allocating a region *)

Lemma set_index_Ret {A} (l l' : list A) i x :
  set_index l i x = Ret l' -> l' = <[i := x]> l /\ (i < length l)%nat.
Proof.
  unfold set_index. destruct (decide (i < length l)%nat) as [Hi|Hi].
  - destruct (Nat.ltb_spec i (length l)); [|lia]. intros [= <-]. done.
  - destruct (Nat.ltb_spec i (length l)); [lia|done].
Qed.

(** What a successful allocation returns and records. *)
Lemma pmp_allocate_region_sound u n m p c reg c' :
  u32_range u -> pmp_allocate_region u n m p c = Ret (Some reg, c') ->
  exists i r0, regions c !! i = Some r0 /\ is_off r0 = true /\
    let e := start_address reg + region_size reg in
    c' = mkConfig (id c) true (<[i := mkTor (from_permissions p) (start_address reg) e]> (regions c))
           (app_memory_region c) /\
    (4 | start_address reg) /\ (4 | e) /\ u32_range (start_address reg) /\ u32_range e /\
    u <= start_address reg < u + 4 /\ Z.max 4 m <= region_size reg /\
    (if writeable p then e <= u + n else e <= u + n + 3) /\
    forall j r a, regions c !! j = Some r -> tor_covers r a -> ~ start_address reg <= a < e.
Proof.
  intros Hu. unfold pmp_allocate_region. destruct (free_region c) as [i|] eqn:Hfree; [|done].
  apply free_region_spec in Hfree as (r0 & Hr0 & Hoff). intros H.
  apply obind_Ret in H as (s & Hs & H). apply obind_Ret in H as (sz & Hsz & H).
  apply min_size in Hsz as (Hm & H4 & Hd4). apply round_up4_Ret in Hs as (Hs & Hsd & Hsu).
  set (z := if sz <? 4 then 4 else sz) in *.
  apply obind_Ret in H as (large & Hlarge & H). destruct large; [done|].
  apply obind_Ret in H as (o & Hov & H). destruct o; [done|].
  apply obind_Ret in H as (e & He & H). apply checked32_Ret in He as [-> He].
  apply obind_Ret in H as (rs & Hrs & H). apply set_index_Ret in Hrs as [-> _].
  injection H as <- <-. exists i, r0. cbn [start_address region_size].
  split; [done|]. split; [done|]. split; [done|]. split; [done|].
  split; [by apply Z.divide_add_r|]. split; [by apply Hsu|]. split; [done|]. split; [done|].
  split; [lia|]. split; [|by apply any_overlap_spec].
  unfold too_large in Hlarge.
  apply obind_Ret in Hlarge as (x1 & H1 & Hlarge). apply checked32_Ret in H1 as [-> _].
  apply obind_Ret in Hlarge as (x2 & H2 & Hlarge). apply checked32_Ret in H2 as [-> _].
  destruct (Z.ltb_spec (u + n) (s + z)); [|destruct (writeable p); lia].
  destruct (writeable p); [done|].
  apply obind_Ret in Hlarge as (x3 & H3 & Hlarge). apply checked32_Ret in H3 as [-> _].
  injection Hlarge as Hlarge. apply Z.ltb_ge in Hlarge. lia.
Qed.

Lemma pmp_allocate_region_refused u n m p c c' :
  pmp_allocate_region u n m p c = Ret (None, c') -> c' = c.
Proof.
  unfold pmp_allocate_region. destruct (free_region c) as [i|]; [|by intros [= <-] ].
  intros H. do 3 (apply obind_Ret in H as (? & _ & H)). destruct x1; [by injection H|].
  apply obind_Ret in H as (o & _ & H). destruct o; [by injection H|].
  apply obind_Ret in H as (? & _ & H). apply obind_Ret in H as (? & _ & H). done.
Qed.

Lemma allocate_region_pmp_valid N u n m p c r c' :
  p <> ReadWriteExecute -> pmp_valid N c -> u32_range u ->
  pmp_allocate_region u n m p c = Ret (r, c') -> pmp_valid N c'.
Proof.
  intros Hp Hv Hu Hrun. destruct r as [reg|]; [|by rewrite (pmp_allocate_region_refused _ _ _ _ _ _ Hrun)].
  apply pmp_allocate_region_sound in Hrun as (i & r0 & _ & _ & -> & ? & ? & ? & ? & _); [|done].
  apply valid_insert; [done|]. by apply tor_ok_new.
Qed.

(** * The block *)

Lemma manages_exposed N c start len a :
  pmp_manages N c start len -> start <= a < start + len ->
  pmp_exposed c a <-> exists i r, app_memory_region c = Some i /\ regions c !! i = Some r /\ a < t_end r.
Proof.
  intros (_ & _ & i & r & Happ & Hi & Hon & Hs & He & Hoth) Ha. split.
  - intros (j & r' & Hj & Hc). destruct (decide (j = i)) as [->|Hne].
    + rewrite Hi in Hj. simplify_eq. exists i, r'. destruct Hc as [_ Hc]. split_and!; [done|done|lia].
    + by destruct (Hoth j r' a Hne Hj Ha).
  - intros (j & r' & Happ' & Hj & Hlt). rewrite Happ in Happ'. injection Happ' as <-.
    rewrite Hi in Hj. injection Hj as <-. exists i, r. split; [done|]. split; [done|lia].
Qed.

Lemma pmp_allocate_region_manages N c c' start len u n m p r :
  p <> ReadWriteExecute -> pmp_manages N c start len -> u32_range u ->
  u + n <= start \/ start + len <= u ->
  pmp_allocate_region u n m p c = Ret (r, c') ->
  pmp_manages N c' start len /\
  (forall a, start <= a < start + len -> (pmp_exposed c' a <-> pmp_exposed c a)).
Proof.
  intros Hp Hman Hu Hd Hrun. destruct r as [reg|]; [|by rewrite (pmp_allocate_region_refused _ _ _ _ _ _ Hrun)].
  pose proof Hman as (Hv & Hal & i & ri & Happ & Hi & Hon & Hs & He & Hoth).
  pose proof (allocate_region_pmp_valid N _ _ _ _ _ _ _ Hp Hv Hu Hrun) as Hv'.
  apply pmp_allocate_region_sound in Hrun as (k & r0 & Hk & Hoff & -> & Hd1 & Hd2 & _ & _ & Hlo & _ & Hhi & _); [|done].
  set (reg' := mkTor _ _ _) in *.
  assert (Hout : forall a, start <= a < start + len -> ~ tor_covers reg' a).
  { intros a Ha [_ Hc]. cbn in Hc. destruct Hd as [Hd|Hd]; [|lia].
    assert (start_address reg + region_size reg <= start); [|lia].
    destruct Hd2 as [q Hq], Hal as [ [q' Hq'] _]. destruct (writeable p); lia. }
  assert (Hne : k <> i) by (intros ->; congruence).
  split.
  - split; [done|]. split; [done|]. exists i, ri. cbn [app_memory_region regions].
    rewrite list_lookup_insert_ne by done. split_and!; try done.
    intros j r' a Hj [(<- & <- & _)|[_ Hj'] ]%list_lookup_insert_Some Ha; [by apply Hout|by apply (Hoth j)].
  - intros a Ha. rewrite (exposed_insert c k r0) by done. split; [|by left].
    intros [?|Hc]; [done|by destruct (Hout a Ha)].
Qed.

Lemma pmp_find_region_spec i reg rs k :
  find_region_from i reg rs = Ret (Some k) ->
  (i <= k)%nat /\ exists r, rs !! (k - i)%nat = Some r /\ is_off r = false /\
    t_start r = start_address reg /\ t_end r = start_address reg + region_size reg.
Proof.
  revert i. induction rs as [|r rs IH]; intros i H; cbn [find_region_from] in H; [done|].
  apply obind_Ret in H as (f & Hf & H). destruct f.
  - simplify_eq. split; [done|]. exists r. rewrite Nat.sub_diag. split; [done|].
    destruct (is_off r) eqn:Ho; cbn in Hf; [done|].
    destruct (Z.eqb_spec (t_start r) (start_address reg)); [|done].
    apply obind_Ret in Hf as (e' & He & Hf). apply checked32_Ret in He as [-> _].
    injection Hf as Hf%Z.eqb_eq. done.
  - apply IH in H as (Hle & r0 & Hr0 & ?). split; [lia|]. exists r0.
    split; [|done]. by replace (k - i)%nat with (S (k - S i))%nat by lia.
Qed.

(** Removing switches one region off. *)
Lemma pmp_remove_sound reg c c' o :
  pmp_remove_memory_region reg c = Ret (o, c') ->
  (o = Err tt /\ c' = c) \/
  (o = Ok tt /\ exists i r, regions c !! i = Some r /\ is_off r = false /\
     t_start r = start_address reg /\ t_end r = start_address reg + region_size reg /\
     c' = mkConfig (id c) true (<[i := mkTor OFF (t_start r) (t_end r)]> (regions c))
            (app_memory_region c)).
Proof.
  unfold pmp_remove_memory_region. intros H. apply obind_Ret in H as (f & Hf & H).
  destruct f as [k|]; [|injection H as <- <-; by left].
  apply pmp_find_region_spec in Hf as (_ & r & Hr & Hon & Hs & He). rewrite Nat.sub_0_r in Hr.
  rewrite (index_ok _ _ _ Hr) in H. cbn [obind] in H. injection H as <- <-. right.
  split; [done|]. exists k, r. by split_and!.
Qed.

Lemma remove_valid N reg c c' o :
  pmp_valid N c -> pmp_remove_memory_region reg c = Ret (o, c') -> pmp_valid N c'.
Proof.
  intros Hv [ [_ ->]|(_ & i & r & _ & _ & _ & _ & ->)]%pmp_remove_sound; [done|].
  apply valid_insert; [done|]. by left.
Qed.

Lemma pmp_remove_manages N c c' start len reg o :
  pmp_manages N c start len -> beside start len reg ->
  pmp_remove_memory_region reg c = Ret (o, c') ->
  pmp_manages N c' start len /\
  (forall a, start <= a < start + len -> (pmp_exposed c' a <-> pmp_exposed c a)).
Proof.
  intros Hman [Hpos Hb] Hrun. pose proof Hman as (Hv & Hal & i & ri & Happ & Hi & Hon & Hs & He & Hoth).
  pose proof (remove_valid N _ _ _ _ Hv Hrun) as Hv'.
  apply pmp_remove_sound in Hrun as [ [_ ->]|(_ & k & r & Hk & Hron & Hrs & Hre & ->)]; [done|].
  assert (Hne : k <> i) by (intros ->; rewrite Hi in Hk; simplify_eq; lia).
  assert (Hman' : pmp_manages N (mkConfig (id c) true
    (<[k := mkTor OFF (t_start r) (t_end r)]> (regions c)) (app_memory_region c)) start len).
  { split; [done|]. split; [done|]. exists i, ri. cbn [app_memory_region regions].
    rewrite list_lookup_insert_ne by done. split_and!; try done.
    intros j r' a Hj [(<- & <- & _)|[_ Hj'] ]%list_lookup_insert_Some Ha; [by intros [? _]|by apply (Hoth j)]. }
  split; [done|]. intros a Ha. rewrite (manages_exposed N _ start len), (manages_exposed N c start len) by done.
  cbn [app_memory_region regions]. split; intros (j & r' & Hj & Hr' & Hlt); exists j, r';
    simplify_eq; rewrite list_lookup_insert_ne in *; done.
Qed.

(** * App memory *)

Lemma pmp_allocate_app_sound N u n m app kern p c start len c' :
  p <> ReadWriteExecute -> pmp_valid N c -> u32_range u -> 0 <= app -> 0 <= kern ->
  pmp_allocate_app_memory_region u n m app kern p c = Ret (Some (start, len), c') ->
  u <= start < u + 4 /\ start + len <= u + n /\ m <= len /\ app + kern <= len /\
  pmp_manages N c' start len /\
  (forall a, start <= a < start + app -> pmp_exposed c' a) /\
  (forall a, start + len - kern <= a < start + len -> ~ pmp_exposed c' a) /\
  (forall a, pmp_exposed c' a -> pmp_exposed c a \/ start <= a < start + len).
Proof.
  intros Hp Hv Hu Happ0 Hkern0. unfold pmp_allocate_app_memory_region.
  destruct (app_memory_region c) eqn:Hnone; [done|].
  destruct (free_region c) as [i|] eqn:Hfree; [|done].
  apply free_region_spec in Hfree as (r0 & Hr0 & Hoff). intros H.
  apply obind_Ret in H as (s & Hs & H). apply obind_Ret in H as (sz & Hsz & H).
  apply min_size in Hsz as (Hm & H4 & Hd4). apply round_up4_Ret in Hs as (Hs & Hsd & Hsu).
  set (z := if sz <? 4 then 4 else sz) in *.
  apply obind_Ret in H as (sum & Hsum & H). apply checked32_Ret in Hsum as [-> _].
  apply obind_Ret in H as (be & Hbe & H). apply checked32_Ret in Hbe as [-> Hbe].
  apply obind_Ret in H as (lim & Hlim & H). apply checked32_Ret in Hlim as [-> _].
  destruct (Z.ltb_spec (u + n) (s + Z.max m (z + kern))) as [|Hfit]; [done|].
  apply obind_Ret in H as (o & Hov & H). destruct o; [done|].
  apply obind_Ret in H as (e & He & H). apply checked32_Ret in He as [-> He].
  apply obind_Ret in H as (rs & Hrs & H). apply set_index_Ret in Hrs as [-> Hlt].
  injection H as <- <- <-.
  set (r := mkTor (from_permissions p) s (s + z)).
  set (c2 := mkConfig _ _ _ _).
  assert (Hman : pmp_manages N c2 s (Z.max m (z + kern))).
  { split; [apply valid_insert; [done|]; apply tor_ok_new; try done; [by apply Hsu|by apply Z.divide_add_r]|].
    split; [unfold u32_range in *; split_and!; [done|lia|lia]|]. exists i, r. cbn [c2 app_memory_region regions].
    rewrite list_lookup_insert_eq by done. split_and!; try done; [apply permissions_on|cbn; lia|].
    intros j r' a Hj Hr' Ha Hc. rewrite list_lookup_insert_ne in Hr' by done.
    by apply (any_overlap_spec _ _ _ Hov j r' a). }
  split; [done|]. split; [done|]. split; [lia|]. split; [lia|]. 
  split; [done|]. split; [|split]; intros a Ha.
  - apply (exposed_insert c i r0); [done..|]. right. split; [apply permissions_on|]. cbn. lia.
  - rewrite (manages_exposed N c2 s _ a Hman) by lia. intros (j & r' & Hj & Hr' & Hlt').
    cbn [c2 app_memory_region regions] in *. simplify_eq.
    rewrite list_lookup_insert_eq in Hr' by done. simplify_eq. cbn in Hlt'. lia.
  - apply (exposed_insert c i r0) in Ha as [?|[_ Hc] ]; [by left|right|done..]. cbn in Hc. lia.
Qed.

Lemma pmp_update_sound N c c' start len ab kb p :
  p <> ReadWriteExecute -> pmp_manages N c start len -> start <= ab -> kb <= start + len ->
  pmp_update_app_memory_region ab kb p c = Ret (Ok tt, c') ->
  pmp_manages N c' start len /\ ab <= kb /\
  (forall a, start <= a < start + len -> (pmp_exposed c' a <-> a < ab \/ a / 4 < (ab + 3) / 4)) /\
  (forall a, start <= a < ab -> pmp_exposed c' a) /\
  (forall a, kb <= a < start + len -> ~ pmp_exposed c' a) /\
  (forall a, pmp_exposed c' a -> pmp_exposed c a \/ start <= a < start + len).
Proof.
  intros Hp (Hv & (Hal & H0 & HU) & i & r & Happ & Hi & Hon & Hs & He & Hoth) Hab Hkb.
  unfold pmp_update_app_memory_region. rewrite Happ. intros H.
  apply obind_Ret in H as (e & Hre & H). apply round_up4_Ret in Hre as (Hre & Hed & _).
  destruct (Z.ltb_spec kb e) as [|Hle]; [done|].
  rewrite (index_ok _ _ _ Hi) in H. cbn [obind] in H.
  apply obind_Ret in H as (rs & Hrs & H). apply set_index_Ret in Hrs as [-> Hlt].
  injection H as <-. set (c2 := mkConfig _ _ _ _).
  assert (Hman : pmp_manages N c2 start len).
  { split; [apply valid_insert; [done|]; apply tor_ok_new; try done; unfold u32_range; try lia; by rewrite Hs|].
    split; [by split_and!|]. eexists i, _. cbn [c2 app_memory_region regions].
    rewrite list_lookup_insert_eq by done. split_and!; try done; [apply permissions_on|cbn; lia|].
    intros j r' a Hj Hr' Ha. rewrite list_lookup_insert_ne in Hr' by done. by apply (Hoth j). }
  assert (Hex : forall a, start <= a < start + len -> (pmp_exposed c2 a <-> a < e)).
  { intros a Ha. rewrite (manages_exposed N c2 start len a Hman Ha). cbn [c2 app_memory_region regions].
    rewrite ?Happ. split.
    - intros (j & r' & Hj & Hr' & Hlt'). simplify_eq. rewrite list_lookup_insert_eq in Hr' by done.
      by simplify_eq.
    - intros Hlt'. eexists i, _. rewrite list_lookup_insert_eq by done. by split_and!. }
  split; [done|]. split; [lia|]. split_and!.
  - intros a Ha. rewrite (Hex a Ha). destruct Hed as [q ->].
    assert ((ab + 3) / 4 = q) as -> by (symmetry; apply (Z.div_unique_pos _ _ _ (ab + 3 - 4 * q)); lia).
    split.
    + intros Hlt'. right. apply Z.div_lt_upper_bound; lia.
    + intros [?|Hq]; [lia|]. pose proof (Z.mod_pos_bound a 4). pose proof (Z.div_mod a 4). lia.
  - intros a Ha. apply Hex; lia.
  - intros a Ha. rewrite Hex by lia. lia.
  - intros a (j & r' & [(<- & <- & _)|[_ Hj] ]%list_lookup_insert_Some & Hc); [|left; by exists j, r'].
    right. destruct Hc as [_ Hc]. cbn in Hc. lia.
Qed.

Lemma pmp_update_refused c c' ab kb p :
  pmp_update_app_memory_region ab kb p c = Ret (Err tt, c') -> c' = c.
Proof.
  unfold pmp_update_app_memory_region. destruct (app_memory_region c) as [i|]; [|by intros [= <-] ].
  intros H. apply obind_Ret in H as (e & _ & H). destruct (_ <? _); [by injection H|].
  apply obind_Ret in H as (? & _ & H). by apply obind_Ret in H as (? & _ & H).
Qed.

Lemma pmp_update_returns N c start len ab kb p :
  pmp_manages N c start len -> 0 <= ab -> ab + 3 < U32 ->
  returns (pmp_update_app_memory_region ab kb p c).
Proof.
  intros (_ & _ & i & r & Happ & Hi & _) H0 H1. unfold pmp_update_app_memory_region. rewrite Happ.
  destruct (round_up4_returns ab H0 H1) as [e ->]. cbn [obind]. destruct (_ <? _); [by eexists|].
  rewrite (index_ok _ _ _ Hi). cbn [obind]. rewrite set_index_ok by (by apply lookup_lt_Some in Hi).
  by eexists.
Qed.

(** * The laws of the kernel's interface *)

(** What the driver needs of a PMP with [N] regions. *)
Class TORUserPMPLaws (P : Type) (N : nat) `{!TORUserPMP P} := {
  user_pmp_on : P -> Prop;
  configure_accepts : forall rs (p : P),
    length rs = N -> Forall tor_ok rs -> exists p', configure_pmp rs p = Ret (Ok tt, p');
  enable_user_on : forall p p' : P, enable_user_pmp p = Ret (Ok tt, p') -> user_pmp_on p';
}.

Section isolation.
  Context {P : Type} {tor : TORUserPMP P} (N : nat) {laws : TORUserPMPLaws P N}.

#[local] Existing Instance pmp_mpu.

(** The RISC-V driver keeps the promises of the interface. *)
Definition pmp_isolation : @MpuIsolation (PMPUserMPU P) PMPUserMPUConfig (pmp_mpu N).
Proof using laws.
  refine (@Build_MpuIsolation _ _ (pmp_mpu N) (pmp_valid N) pmp_exposed
    (fun h => user_pmp_on (pmp h)) (pmp_manages N) (fun _ _ _ => True)
    _ _ _ _ _ _ _ _ _ _ _ _ _ _ _ _ _ _ _); simpl.
  - done.
  - intros h h' c. unfold pmp_new_config. destruct (_ <? _); intros ?; simplify_eq.
    split; cbn [regions]; [apply length_replicate|]. apply Forall_replicate. by left.
  - intros c [Hl _]. split; cbn [regions pmp_reset_config]; [by rewrite length_map|].
    apply Forall_fmap, Forall_true. by left.
  - intros c c' u n m p r Hp Hv Hu _. by apply allocate_region_pmp_valid.
  - intros c c' r o. by apply remove_valid.
  - intros c h c' h' Hv. unfold pmp_configure_mpu. destruct (_ || _); intros H; [|by simplify_eq].
    apply obind_Ret in H as (r & _ & H). apply obind_Ret in H as (p & _ & H). by simplify_eq.
  - intros c h [Hl Hf]. unfold pmp_configure_mpu. destruct (_ || _); [|by eexists].
    destruct (configure_accepts (regions c) (pmp h) Hl Hf) as [p' ->]. by eexists.
  - by intros c start len [? _].
  - intros c c' u n m app kern start len Hv Hu Hm Ha Hk Hrun.
    apply (pmp_allocate_app_sound N) in Hrun as (? & ? & ? & ? & ? & ? & ? & _); [|done..].
    split_and!; try done. lia.
  - intros c c' start len ab kb Hman H1 H2 Hrun.
    apply (pmp_update_sound N) with (start := start) (len := len) in Hrun as (? & ? & _ & ? & ? & _); [|done..].
    by split_and!.
  - intros c start len ab kb Hman H1 H2 H3 H4. pose proof Hman as (_ & (_ & H0 & _) & _).
    apply (pmp_update_returns N _ start len); [done|lia|]. unfold U32. lia.
  - intros c c' ab kb p. apply pmp_update_refused.
  - intros c c' start len u n m p r Hp Hman Hu _. by apply pmp_allocate_region_manages.
  - intros c c' start len u n m reg _ Hu _ Hd Hrun.
    apply pmp_allocate_region_sound in Hrun as (i & r0 & _ & _ & _ & _ & _ & _ & _ & Hlo & Hsz & Hhi & _); [|done].
    cbn [writeable] in Hhi. unfold beside. lia.
  - intros c c' u n m reg _ Hu _ Hrun a.
    apply pmp_allocate_region_sound in Hrun as (i & r0 & Hi & Hoff & -> & _ & _ & _ & _ & Hlo & _ & Hhi & _); [|done].
    cbn [writeable] in Hhi. rewrite (exposed_insert c i r0) by done.
    intros [?|[_ Ha] ]; [by left|right]. cbn in Ha. lia.
  - intros c c' u n m p. apply pmp_allocate_region_refused.
  - intros c c' start len r o. apply pmp_remove_manages.
  - intros c h c' h' start len Hman. unfold pmp_configure_mpu. destruct (_ || _); intros H; [|by simplify_eq].
    apply obind_Ret in H as (r & _ & H). apply obind_Ret in H as (p & _ & H). by simplify_eq.
  - intros h h' H. unfold pmp_enable_app_mpu in H. apply obind_Ret in H as ([r p] & Hen & H).
    destruct r as [[]|]; cbn [unwrap obind] in H; [|done]. simplify_eq. cbn. by eapply enable_user_on.
Defined.

End isolation.

Lemma round_up4_halts x : halts (round_up4 x).
Proof. unfold round_up4. halts. Qed.
Lemma pmp_any_overlap_halts rs s z : halts (any_overlap rs s z).
Proof. induction rs as [|r rs IH]; cbn; unfold region_overlaps; halts. Qed.
Lemma too_large_halts s z u n p : halts (too_large s z u n p).
Proof. unfold too_large. halts. Qed.
#[local] Hint Resolve round_up4_halts pmp_any_overlap_halts too_large_halts : halts.

Lemma pmp_halts {P} {tor : TORUserPMP P} N : @MpuHalts (PMPUserMPU P) PMPUserMPUConfig (pmp_mpu N).
Proof.
  split; intros; cbn; unfold pmp_allocate_region, pmp_allocate_app_memory_region; halts.
Qed.

End PmpSpec.
