(* ===== verification/PmpHw.v ===== *)
(** The PMPs behind the RISC-V driver ([arch/rv32i/src/pmp.rs], modules [simple],
    [kernel_protection] and [kernel_protection_mml_epmp]), module [PmpHw]: region
    specifications, the accessors of the PMP registers
    ([arch/riscv/src/csr/mod.rs]) over a model of the registers, and the three
    implementations of [TORUserPMP].  [PmpHwSpec] proves what they make the
    hardware enforce. *)

From stdpp Require Import base numbers list vector.
From S2P Require Import Prelude Registers Mpu Pmp.
Import Mpu Pmp.
Local Open Scope Z_scope.

Module PmpHw.

(** * The registers

    One octet and one address for each entry that the hardware implements, and
    the register [mseccfg] of the ePMP extension if there is one.  As in the
    RISC-V privileged specification, writes to a locked entry, and to the
    address below a locked top-of-range entry, are ignored (unless rule locking
    is bypassed, [mseccfg.RLB]); entries that are not implemented read as zero;
    [mseccfg.MML] and [mseccfg.MMWP] cannot be cleared, and [mseccfg.RLB] cannot
    be set once there is a locked entry. *)
Record Csr := mkCsr {
  cfg : list Z;
  addr : list Z;
  epmp : bool;
  mseccfg : Z;
}.

Definition octet (e : nat) (h : Csr) : Z := default 0 (cfg h !! e).
Definition pmpaddr (e : nat) (h : Csr) : Z := default 0 (addr h !! e).
Definition mml (h : Csr) : bool := Z.testbit (mseccfg h) 0.
Definition mmwp (h : Csr) : bool := Z.testbit (mseccfg h) 1.
Definition rlb (h : Csr) : bool := Z.testbit (mseccfg h) 2.
Definition locked (e : nat) (h : Csr) : bool := Z.testbit (octet e h) 7 && negb (rlb h).
Definition mode (c : Z) : Z := Z.land (Z.shiftr c 3) 3.

Definition byte (k : nat) (v : Z) : Z := Z.land (Z.shiftr v (8 * Z.of_nat k)) 255.

(** A write of a locked octet is ignored.  (Under Smepmp the hardware also ignores a write
    that adds a locked executable rule once [MML] is set; the drivers write such rules only
    before they set it, so the model leaves this out.) *)
Definition write_octet (e : nat) (b : Z) (h : Csr) : Csr :=
  if locked e h then h
  else mkCsr (<[e := Z.land b 0x9f]> (cfg h)) (addr h) (epmp h) (mseccfg h).
Definition write_addr (e : nat) (v : Z) (h : Csr) : Csr :=
  if locked e h || (locked (S e) h && (mode (octet (S e) h) =? 1)) then h
  else mkCsr (cfg h) (<[e := v]> (addr h)) (epmp h) (mseccfg h).
Definition write_mseccfg (v : Z) (h : Csr) : Csr :=
  if epmp h then
    let rlb_ok := rlb h || negb (existsb (fun c => Z.testbit c 7) (cfg h)) in
    mkCsr (cfg h) (addr h) (epmp h)
      (Z.lor (Z.lor (Z.land (mseccfg h) 3) (Z.land v 3)) (if rlb_ok then Z.land v 4 else 0))
  else h.

(** * The accessors *)

Definition pmpconfig_get (index : nat) (h : Csr) : outcome Z :=
  if (index <? 16)%nat then
    Ret (from_le_bytes (map (fun k => octet (4 * index + k) h) [0; 1; 2; 3]%nat))
  else Panic.
Definition pmpconfig_set (index : nat) (value : Z) (h : Csr) : outcome Csr :=
  if (index <? 16)%nat then
    Ret (foldl (fun h k => write_octet (4 * index + k) (byte k value) h) h [0; 1; 2; 3]%nat)
  else Panic.
Definition pmpconfig_modify (index : nat) (field : Reg.FieldValue) (h : Csr) : outcome Csr :=
  let! v := pmpconfig_get index h in
  pmpconfig_set index (Reg.fv_modify 32 field v) h.
Definition pmpaddr_set (index : nat) (value : Z) (h : Csr) : outcome Csr :=
  if (index <? 64)%nat then Ret (write_addr index value h) else Panic.

Definition from_be_bytes (bs : list Z) : Z := from_le_bytes (rev bs).

(** * Region specifications *)

Definition is_power_of_two (n : Z) : bool := (0 <? n) && (Z.land n (n - 1) =? 0).

Record NAPOTRegionSpec := mkNapot { n_start : Z; n_size : Z }.
Definition napot_new (start size : Z) : option NAPOTRegionSpec :=
  if negb (is_power_of_two size) || negb (start mod size =? 0) || (size <? 8) then None
  else Some (mkNapot start size).
Definition napot_addr (r : NAPOTRegionSpec) : outcome Z :=
  let! size1 := sub32 (n_size r) 1 in
  let! sum := add32 (n_start r) (Z.shiftr size1 1) in
  Ret (Z.shiftr sum 2).

Record TORRegionSpec := mkTorSpec { s_start : Z; s_end : Z }.
Definition tor_new (start end_ : Z) : option TORRegionSpec :=
  if negb (start mod 4 =? 0) || negb (end_ mod 4 =? 0) || (end_ - start <? 4) then None
  else Some (mkTorSpec start end_).

(** * Probing the entries: the loop that opens all three [new] functions *)

Definition probe_entry (i : nat) (h : Csr) : outcome (result unit unit * Csr) :=
  let sh := Z.of_nat (i mod 4) * 8 in
  let! pmpcfg_csr := pmpconfig_get (i / 4) h in
  let pmpcfg := Z.land (Z.shiftr pmpcfg_csr sh) 255 in
  if Reg.field_is_set 8 l_ pmpcfg then Ret (Err tt, h)
  else
    let! h := pmpconfig_set (i / 4) (Z.lxor pmpcfg_csr (Z.shiftl 7 sh)) h in
    let! again := pmpconfig_get (i / 4) h in
    if pmpcfg_csr =? again then Ret (Err tt, h)
    else
      let! h := pmpconfig_set (i / 4) (Z.land pmpcfg_csr (Reg.bnot 32 (Z.shiftl 0x18 sh))) h in
      Ret (Ok tt, h).

Fixpoint probe (is_ : list nat) (h : Csr) : outcome (result unit unit * Csr) :=
  match is_ with
  | [] => Ret (Ok tt, h)
  | i :: is_ =>
    let! '(r, h) := probe_entry i h in
    match r with
    | Err _ => Ret (Err tt, h)
    | Ok _ => probe is_ h
    end
  end.

(** * The simple PMP *)

Definition simple_new (AVAILABLE_ENTRIES : nat) (h : Csr) : outcome (result unit unit * Csr) :=
  probe (seq 0 AVAILABLE_ENTRIES) h.

(** The addresses of a region, if it is on. *)
Definition set_addrs (e : nat) (region : Tor) (h : Csr) : outcome Csr :=
  if is_off region then Ret h
  else
    let! h := pmpaddr_set e (Z.shiftr (t_start region) 2) h in
    pmpaddr_set (e + 1) (Z.shiftr (t_end region) 2) h.

Fixpoint configure_loop (i : nat) (regions : list Tor) (h : Csr) : outcome Csr :=
  match regions with
  | [] => Ret h
  | [even_region] =>
    let! h := pmpconfig_modify (i / 2)
                (Reg.fv_new 32 0xffff 0 (from_be_bytes [0; 0; t_cfg even_region; OFF])) h in
    set_addrs (i * 2) even_region h
  | even_region :: odd_region :: regions =>
    let! h := pmpconfig_set (i / 2)
                (from_be_bytes [t_cfg odd_region; OFF; t_cfg even_region; OFF]) h in
    let! h := set_addrs (i * 2) even_region h in
    let! h := set_addrs (i * 2 + 2) odd_region h in
    configure_loop (i + 2) regions h
  end.

Definition simple_configure_pmp (regions : list Tor) (h : Csr) : outcome (result unit unit * Csr) :=
  let! h := configure_loop 0 regions h in
  Ret (Ok tt, h).

Definition simple_pmp : TORUserPMP Csr := {|
  configure_pmp := simple_configure_pmp;
  enable_user_pmp := fun h => Ret (Ok tt, h);
  disable_user_pmp := fun h => Ret h;
|}.

(** * The PMP with kernel memory protection *)

(** [pmpcfg_octet::a::..  + r + w + x + l], as a byte. *)
Definition octet_of (a r w x l : Reg.FieldValue) : Z :=
  Reg.fv_value (Reg.fv_add (Reg.fv_add (Reg.fv_add (Reg.fv_add a r) w) x) l).

Definition write_pmpaddr_pmpcfg (i : nat) (pmpcfg pmpaddr : Z) (h : Csr) : outcome Csr :=
  let! h := pmpaddr_set i pmpaddr h in
  pmpconfig_modify (i / 4)
    (Reg.fv_new 32 0xff (Z.of_nat (i mod 4) * 8) (from_be_bytes [0; 0; 0; pmpcfg])) h.

(** The kernel's regions. *)
Record KernelRegions := mkKernelRegions {
  flash : NAPOTRegionSpec;
  ram : NAPOTRegionSpec;
  mmio : NAPOTRegionSpec;
  kernel_text : TORRegionSpec;
}.

Definition kernel_protection_new (AVAILABLE_ENTRIES : nat) (k : KernelRegions) (h : Csr)
    : outcome (result unit unit * Csr) :=
  let n := AVAILABLE_ENTRIES in
  let! '(r, h) := probe (seq 0 n) h in
  match r with
  | Err _ => Ret (Err tt, h)
  | Ok _ =>
    let! e := sub_nat n 2 in
    let! a := napot_addr (mmio k) in
    let! h := write_pmpaddr_pmpcfg e (octet_of a_NAPOT r_SET w_SET x_CLEAR l_SET) a h in
    let! e := sub_nat n 3 in
    let! a := napot_addr (ram k) in
    let! h := write_pmpaddr_pmpcfg e (octet_of a_NAPOT r_SET w_SET x_CLEAR l_SET) a h in
    let! e := sub_nat n 6 in
    let! h := write_pmpaddr_pmpcfg e (octet_of a_OFF r_CLEAR w_CLEAR x_CLEAR l_SET)
                (Z.shiftr (s_start (kernel_text k)) 2) h in
    let! e := sub_nat n 5 in
    let! h := write_pmpaddr_pmpcfg e (octet_of a_TOR r_SET w_CLEAR x_SET l_SET)
                (Z.shiftr (s_end (kernel_text k)) 2) h in
    let! e := sub_nat n 4 in
    let! a := napot_addr (flash k) in
    let! h := write_pmpaddr_pmpcfg e (octet_of a_NAPOT r_SET w_CLEAR x_CLEAR l_SET) a h in
    let! e := sub_nat n 1 in
    let! h := write_pmpaddr_pmpcfg e (octet_of a_NAPOT r_CLEAR w_CLEAR x_CLEAR l_SET) 0x7fffffff h in
    let! e := sub_nat n 7 in
    let! h := write_pmpaddr_pmpcfg e (octet_of a_NAPOT r_CLEAR w_CLEAR x_CLEAR l_CLEAR) 0x7fffffff h in
    Ret (Ok tt, h)
  end.

(** Its [configure_pmp] is that of the simple PMP. *)
Definition kernel_protection_configure_pmp (regions : list Tor) (h : Csr)
    : outcome (result unit unit * Csr) :=
  let! h := configure_loop 0 regions h in
  Ret (Ok tt, h).

Definition kernel_protection_pmp : TORUserPMP Csr := {|
  configure_pmp := kernel_protection_configure_pmp;
  enable_user_pmp := fun h => Ret (Ok tt, h);
  disable_user_pmp := fun h => Ret h;
|}.

(** * The ePMP in machine-mode lockdown *)

Record KernelProtectionMMLEPMP (N : nat) := mkMML {
  user_pmp_enabled : bool;
  shadow_user_pmpcfgs : vec TORUserPMPCFG N;
  csr : Csr;
}.
Arguments mkMML {N}.
Arguments user_pmp_enabled {N}.
Arguments shadow_user_pmpcfgs {N}.
Arguments csr {N}.

Definition TOR_REGIONS_OFFSET : nat := 1.

Definition mml_new (AVAILABLE_ENTRIES N : nat) (k : KernelRegions) (h : Csr)
    : outcome (result (KernelProtectionMMLEPMP N) unit * Csr) :=
  let n := AVAILABLE_ENTRIES in
  let! '(r, h) := probe (seq 0 n) h in
  match r with
  | Err _ => Ret (Err tt, h)
  | Ok _ =>
    let! h := write_pmpaddr_pmpcfg 0 (octet_of a_OFF r_CLEAR w_CLEAR x_CLEAR l_SET)
                (Z.shiftr (s_start (kernel_text k)) 2) h in
    let! h := write_pmpaddr_pmpcfg 1 (octet_of a_TOR r_SET w_CLEAR x_SET l_SET)
                (Z.shiftr (s_end (kernel_text k)) 2) h in
    let! e := sub_nat n 1 in
    let! a := napot_addr (mmio k) in
    let! h := write_pmpaddr_pmpcfg e (octet_of a_NAPOT r_SET w_SET x_CLEAR l_SET) a h in
    let! e := sub_nat n 2 in
    let! a := napot_addr (ram k) in
    let! h := write_pmpaddr_pmpcfg e (octet_of a_NAPOT r_SET w_SET x_CLEAR l_SET) a h in
    let! e := sub_nat n 3 in
    let! a := napot_addr (flash k) in
    let! h := write_pmpaddr_pmpcfg e (octet_of a_NAPOT r_SET w_CLEAR x_CLEAR l_SET) a h in
    let h := write_mseccfg 3 h in
    if negb (mseccfg h =? 3) then Ret (Err tt, h)
    else Ret (Ok (mkMML false (vreplicate N OFF) h), h)
  end.

(** [enable_user_pmp]: from region place [i]. *)
Fixpoint enable_loop (i : nat) (cfgs : list TORUserPMPCFG) (h : Csr) : outcome Csr :=
  match cfgs with
  | [] => Ret h
  | first :: rest =>
    if (i mod 2 =? 0)%nat then
      match rest with
      | second :: rest =>
        let! h := pmpconfig_set (i / 2) (from_be_bytes [second; OFF; first; OFF]) h in
        enable_loop (i + 2) rest h
      | [] =>
        pmpconfig_modify (i / 2) (Reg.fv_new 32 0xffff 0 (from_be_bytes [0; 0; first; OFF])) h
      end
    else
      let! h := pmpconfig_modify (i / 2)
                  (Reg.fv_new 32 0xffff 16 (from_be_bytes [0; 0; first; OFF])) h in
      enable_loop (i + 1) rest h
  end.

Section mml.
  Context {N : nat}.
  Implicit Type s : KernelProtectionMMLEPMP N.

Definition mml_enable_user_pmp s : outcome (result unit unit * KernelProtectionMMLEPMP N) :=
  let! h := enable_loop TOR_REGIONS_OFFSET (shadow_user_pmpcfgs s) (csr s) in
  Ret (Ok tt, mkMML true (shadow_user_pmpcfgs s) h).

(** The loop of [configure_pmp] over the regions and the shadow octets. *)
Fixpoint mml_configure_loop (i : nat) (regions : list Tor) {n : nat} (shadow : vec TORUserPMPCFG n)
    (h : Csr) : outcome (result unit unit * vec TORUserPMPCFG n * Csr) :=
  match shadow, regions with
  | vnil, _ => Ret (Ok tt, vnil, h)
  | vcons b shadow, [] => Ret (Ok tt, vcons b shadow, h)
  | vcons b shadow, region :: regions =>
    if t_cfg region =? from_permissions ReadWriteExecute then Ret (Err tt, vcons b shadow, h)
    else
      let! h := set_addrs ((i + TOR_REGIONS_OFFSET) * 2) region h in
      let! '(r, shadow, h) := mml_configure_loop (S i) regions shadow h in
      Ret (r, vcons (t_cfg region) shadow, h)
  end.

Definition mml_configure_pmp (regions : list Tor) s
    : outcome (result unit unit * KernelProtectionMMLEPMP N) :=
  let! '(r, shadow, h) := mml_configure_loop 0 regions (shadow_user_pmpcfgs s) (csr s) in
  let s := mkMML (user_pmp_enabled s) shadow h in
  match r with
  | Err _ => Ret (Err tt, s)
  | Ok _ => if user_pmp_enabled s then mml_enable_user_pmp s else Ret (Ok tt, s)
  end.

End mml.

(** [disable_user_pmp]: [n] places from [i] on. *)
Fixpoint disable_loop (i n : nat) (h : Csr) : outcome Csr :=
  match n with
  | O => Ret h
  | S n =>
    if (i mod 2 =? 0)%nat then
      match n with
      | S n =>
        let! h := pmpconfig_set (i / 2) (from_be_bytes [OFF; OFF; OFF; OFF]) h in
        disable_loop (i + 2) n h
      | O => pmpconfig_modify (i / 2) (Reg.fv_new 32 0xffff 0 (from_be_bytes [0; 0; OFF; OFF])) h
      end
    else
      let! h := pmpconfig_modify (i / 2) (Reg.fv_new 32 0xffff 16 (from_be_bytes [0; 0; OFF; OFF])) h in
      disable_loop (i + 1) n h
  end.

Definition mml_disable_user_pmp {N} (s : KernelProtectionMMLEPMP N)
    : outcome (KernelProtectionMMLEPMP N) :=
  let! h := disable_loop TOR_REGIONS_OFFSET N (csr s) in
  Ret (mkMML false (shadow_user_pmpcfgs s) h).

Definition mml_pmp (N : nat) : TORUserPMP (KernelProtectionMMLEPMP N) := {|
  configure_pmp := mml_configure_pmp;
  enable_user_pmp := mml_enable_user_pmp;
  disable_user_pmp := mml_disable_user_pmp;
|}.

End PmpHw.
