(* ===== verification/PmpHwSpec.v ===== *)
(** Theorems about the PMPs of [PmpHw] (module [PmpHwSpec]): the hardware, as the
    RISC-V privileged specification describes it, lets user mode do what the
    configured regions allow and nothing else. *)

From stdpp Require Import base numbers list vector.
From S2P Require Import Prelude Registers Mpu Pmp PmpSpec PmpHw.
Import Mpu Pmp PmpSpec PmpHw.
Local Open Scope Z_scope.

Module PmpHwSpec.

(** * What the hardware checks *)

Inductive Access := Read | Write | Execute.
Definition access_bit (acc : Access) : Z := match acc with Read => 0 | Write => 1 | Execute => 2 end.

Fixpoint pos_trailing_ones (p : positive) : Z :=
  match p with
  | xH => 1
  | xI p => 1 + pos_trailing_ones p
  | xO _ => 0
  end.
Definition trailing_ones (v : Z) : Z := match v with Zpos p => pos_trailing_ones p | _ => 0 end.

(** Entry [e] matches address [a]. *)
Definition matches (h : Csr) (a : Z) (e : nat) : bool :=
  let top := 4 * pmpaddr e h in
  match mode (octet e h) with
  | 0 => false
  | 1 => ((match e with O => 0 | S e => 4 * pmpaddr e h end) <=? a) && (a <? top)
  | 2 => (top <=? a) && (a <? top + 4)
  | _ => a / 2 ^ (trailing_ones (pmpaddr e h) + 3) =? top / 2 ^ (trailing_ones (pmpaddr e h) + 3)
  end.

(** The first of the entries [is_] that matches. *)
Fixpoint first_match (h : Csr) (a : Z) (is_ : list nat) : option nat :=
  match is_ with
  | [] => None
  | e :: is_ => if matches h a e then Some e else first_match h a is_
  end.
Definition matching (h : Csr) (a : Z) : option nat := first_match h a (seq 0 (length (cfg h))).

Definition permits (c : Z) (acc : Access) : bool := Z.testbit c (access_bit acc).

(** The permissions of an octet under machine-mode lockdown (Smepmp): unlocked
    entries are for user mode and locked ones for machine mode, except for the
    encodings of shared regions. *)
Definition lockdown_user (c : Z) (acc : Access) : bool :=
  let r := Z.testbit c 0 in let w := Z.testbit c 1 in let x := Z.testbit c 2 in
  if Z.testbit c 7 then
    match acc with
    | Read => r && w && x
    | Write => false
    | Execute => negb r && w
    end
  else if negb r && w then match acc with Read => true | Write => x | Execute => false end
  else permits c acc.
Definition lockdown_machine (c : Z) (acc : Access) : bool :=
  let r := Z.testbit c 0 in let w := Z.testbit c 1 in let x := Z.testbit c 2 in
  if Z.testbit c 7 then
    if r && w && x then match acc with Read => true | _ => false end
    else if negb r && w then match acc with Read => x | Write => false | Execute => true end
    else permits c acc
  else negb r && w && match acc with Execute => false | _ => true end.

Definition user_allows (h : Csr) (a : Z) (acc : Access) : bool :=
  match matching h a with
  | None => false
  | Some e => if mml h then lockdown_user (octet e h) acc else permits (octet e h) acc
  end.
Definition machine_allows (h : Csr) (a : Z) (acc : Access) : bool :=
  match matching h a with
  | None => negb (mmwp h) && match acc with Execute => negb (mml h) | _ => true end
  | Some e =>
    if mml h then lockdown_machine (octet e h) acc
    else if Z.testbit (octet e h) 7 then permits (octet e h) acc else true
  end.

(** What a list of regions means: the first region that is on and contains the
    address decides. *)
Definition tor_contains (r : Tor) (a : Z) : bool :=
  negb (is_off r) && ((t_start r <=? a) && (a <? t_end r)).
Fixpoint regions_allow (rs : list Tor) (a : Z) (acc : Access) : bool :=
  match rs with
  | [] => false
  | r :: rs => if tor_contains r a then permits (t_cfg r) acc else regions_allow rs a acc
  end.

(** * Registers *)

Definition octet_ok (c : Z) : Prop := 0 <= c < 256 /\ Z.land c 0x9f = c.
Definition csr_wf (h : Csr) : Prop :=
  length (addr h) = length (cfg h) /\ Forall octet_ok (cfg h).

(** Writes to the octets leave the rest alone. *)
Definition same_rest (h h' : Csr) : Prop :=
  addr h' = addr h /\ epmp h' = epmp h /\ mseccfg h' = mseccfg h /\ length (cfg h') = length (cfg h).

Lemma same_rest_refl h : same_rest h h.
Proof. done. Qed.
Lemma same_rest_trans h1 h2 h3 : same_rest h1 h2 -> same_rest h2 h3 -> same_rest h1 h3.
Proof. unfold same_rest. intros. destruct_and!. split_and!; congruence. Qed.

Lemma octet_wf e h : csr_wf h -> octet_ok (octet e h).
Proof.
  intros [_ Hf]. unfold octet. destruct (cfg h !! e) as [c|] eqn:E; [|done].
  by apply (Forall_lookup_1 _ _ _ _ Hf E).
Qed.
Lemma octet_beyond e h : (length (cfg h) <= e)%nat -> octet e h = 0.
Proof. intros He. unfold octet. by rewrite lookup_ge_None_2. Qed.

Lemma land_octet b : octet_ok (Z.land b 0x9f).
Proof.
  assert (E : Z.land (Z.land b 0x9f) 255 = Z.land b 0x9f) by (by rewrite <- Z.land_assoc).
  split; [|by rewrite <- Z.land_assoc]. rewrite <- E. change 255 with (Z.ones 8).
  rewrite Z.land_ones by lia. apply Z.mod_pos_bound. lia.
Qed.

Lemma write_octet_spec e b h :
  csr_wf h ->
  csr_wf (write_octet e b h) /\ same_rest h (write_octet e b h) /\
  forall e', octet e' (write_octet e b h) =
    if decide (e' = e /\ (e < length (cfg h))%nat /\ locked e h = false) then Z.land b 0x9f
    else octet e' h.
Proof.
  intros [Hl Hf]. unfold write_octet. destruct (locked e h) eqn:Hlk.
  { split; [done|]. split; [done|]. intros e'. rewrite decide_False; [done|]. by intros (_ & _ & ?). }
  split; [|split].
  - split; cbn; [by rewrite length_insert|]. apply Forall_insert; [done|]. apply land_octet.
  - repeat split. cbn. by rewrite length_insert.
  - intros e'. unfold octet. cbn [cfg]. destruct (decide (e' = e /\ _)) as [(-> & Hlt & _)|Hno].
    + by rewrite list_lookup_insert_eq.
    + destruct (decide (e' = e)) as [->|Hne]; [|by rewrite list_lookup_insert_ne].
      rewrite !lookup_ge_None_2; [done| |rewrite length_insert];
        destruct (decide (e < length (cfg h))%nat); try lia; by destruct Hno.
Qed.

Lemma locked_same h h' e : same_rest h h' -> octet e h' = octet e h -> locked e h' = locked e h.
Proof. intros (_ & _ & E & _) Eo. unfold locked, rlb. by rewrite Eo, E. Qed.

(** Writing the octets of several entries. *)
Lemma write_octets_spec (es : list nat) (b : nat -> Z) h :
  csr_wf h -> NoDup es ->
  let h' := foldl (fun h e => write_octet e (b e) h) h es in
  csr_wf h' /\ same_rest h h' /\
  forall e, octet e h' =
    if decide (e ∈ es /\ (e < length (cfg h))%nat /\ locked e h = false) then Z.land (b e) 0x9f
    else octet e h.
Proof.
  revert h. induction es as [|e0 es IH]; intros h Hwf Hnd; cbn [foldl].
  { split; [done|]. split; [apply same_rest_refl|]. intros e. rewrite decide_False; [done|].
    intros [He _]. by apply elem_of_nil in He. }
  apply NoDup_cons in Hnd as [Hnew Hnd].
  destruct (write_octet_spec e0 (b e0) h Hwf) as (Hwf1 & Hs1 & Ho1).
  destruct (IH _ Hwf1 Hnd) as (Hwf2 & Hs2 & Ho2). split; [done|].
  split; [by eapply same_rest_trans|]. intros e. rewrite Ho2.
  pose proof Hs1 as (_ & _ & _ & Hlen). rewrite Hlen.
  destruct (decide (e = e0)) as [->|Hne].
  - rewrite (decide_False (P := e0 ∈ es /\ _)) by (by intros [? _]). rewrite Ho1.
    apply decide_ext. rewrite elem_of_cons. tauto.
  - assert (Eo : octet e (write_octet e0 (b e0) h) = octet e h)
      by (rewrite Ho1; rewrite decide_False; [done|]; by intros [? _]).
    rewrite (locked_same _ _ _ Hs1 Eo), Eo.
    apply decide_ext. rewrite elem_of_cons. tauto.
Qed.

(** The place of an entry in its register. *)
Lemma entry_index (e i : nat) :
  e ∈ [4 * i + 0; 4 * i + 1; 4 * i + 2; 4 * i + 3]%nat <-> (e / 4 = i)%nat.
Proof.
  rewrite !elem_of_cons, elem_of_nil. pose proof (Nat.div_mod_eq e 4).
  pose proof (Nat.mod_upper_bound e 4 ltac:(lia)). lia.
Qed.

Lemma pmpconfig_set_spec i v h h' :
  csr_wf h -> pmpconfig_set i v h = Ret h' ->
  csr_wf h' /\ same_rest h h' /\
  forall e, octet e h' =
    if decide ((e / 4 = i)%nat /\ (e < length (cfg h))%nat /\ locked e h = false)
    then Z.land (byte (e mod 4) v) 0x9f else octet e h.
Proof.
  intros Hwf. unfold pmpconfig_set. destruct (i <? 16)%nat; [|done]. intros [= <-].
  set (es := [4 * i + 0; 4 * i + 1; 4 * i + 2; 4 * i + 3]%nat).
  assert (Hnd : NoDup es) by (unfold es; repeat (constructor; [rewrite ?elem_of_cons, elem_of_nil; lia|]); constructor).
  destruct (write_octets_spec es (fun e => byte (e - 4 * i) v) h Hwf Hnd) as (Hwf' & Hs & Ho).
  cbn [foldl es] in Hwf', Hs, Ho.
  assert (Hk : forall k, (4 * i + k - 4 * i)%nat = k) by lia. rewrite !Hk in Hwf', Hs, Ho.
  split; [done|]. split; [done|]. intros e. cbn [foldl]. rewrite Ho. fold es.
  pose proof (entry_index e i) as Hiff. fold es in Hiff.
  rewrite (decide_ext (e ∈ es /\ _) ((e / 4)%nat = i /\ (e < length (cfg h))%nat /\ locked e h = false))
    by tauto.
  destruct (decide _) as [(He & _)|]; [|done].
  do 2 f_equal. pose proof (Nat.div_mod_eq e 4). lia.
Qed.

(** * Bytes of a register *)

Lemma pmp_byte_testbit k v j : 0 <= j -> Z.testbit (byte k v) j = (j <? 8) && Z.testbit v (j + 8 * Z.of_nat k).
Proof.
  intros Hj. unfold byte. change 255 with (Z.ones 8).
  rewrite Z.land_spec, Z.shiftr_spec, Z.testbit_ones_nonneg by lia. apply andb_comm.
Qed.

Lemma byte_range k v : 0 <= byte k v < 256.
Proof.
  unfold byte. change 255 with (Z.ones 8). rewrite Z.land_ones by lia.
  apply Z.mod_pos_bound. lia.
Qed.

Lemma byte_from_le b0 b1 b2 b3 :
  u8_range b0 -> u8_range b1 -> u8_range b2 -> u8_range b3 ->
  let v := from_le_bytes [b0; b1; b2; b3] in
  byte 0 v = b0 /\ byte 1 v = b1 /\ byte 2 v = b2 /\ byte 3 v = b3.
Proof.
  intros H0 H1 H2 H3 v. unfold u8_range, U8 in *. unfold byte. change 255 with (Z.ones 8).
  rewrite !Z.land_ones, !Z.shiftr_div_pow2 by lia. unfold v, from_le_bytes. cbn [foldr].
  change (2 ^ 8) with 256. change (2 ^ (8 * Z.of_nat 0)) with 1. change (2 ^ (8 * Z.of_nat 1)) with 256.
  change (2 ^ (8 * Z.of_nat 2)) with 65536. change (2 ^ (8 * Z.of_nat 3)) with 16777216.
  split_and!; Z.to_euclidean_division_equations; lia.
Qed.

Lemma octet_u8 e h : csr_wf h -> u8_range (octet e h).
Proof. intros Hwf. destruct (octet_wf e h Hwf). done. Qed.

Lemma byte_read i h v e :
  csr_wf h -> pmpconfig_get i h = Ret v -> (e / 4 = i)%nat -> byte (e mod 4) v = octet e h.
Proof.
  intros Hwf Hg He. unfold pmpconfig_get in Hg. destruct (i <? 16)%nat; [|done]. injection Hg as <-.
  destruct (byte_from_le (octet (4 * i + 0) h) (octet (4 * i + 1) h) (octet (4 * i + 2) h)
    (octet (4 * i + 3) h)) as (E0 & E1 & E2 & E3); [by apply octet_u8..|].
  pose proof (Nat.div_mod_eq e 4). pose proof (Nat.mod_upper_bound e 4 ltac:(lia)).
  assert (Hc : (e mod 4 = 0 \/ e mod 4 = 1 \/ e mod 4 = 2 \/ e mod 4 = 3)%nat) by lia.
  destruct Hc as [E|[E|[E|E] ] ]; rewrite E; [etrans; [exact E0|]|etrans; [exact E1|]|etrans; [exact E2|]|etrans; [exact E3|] ];
    f_equal; lia.
Qed.

Lemma byte_modify k fv v :
  (k < 4)%nat ->
  byte k (Reg.fv_modify 32 fv v) =
    Z.lor (Z.land (byte k v) (Z.lnot (byte k (Reg.fv_mask fv)))) (byte k (Reg.fv_value fv)).
Proof.
  intros Hk. apply Z.bits_inj'. intros j Hj.
  rewrite pmp_byte_testbit, Z.lor_spec, Z.land_spec, Z.lnot_spec, !pmp_byte_testbit by done.
  unfold Reg.fv_modify. rewrite Z.lor_spec, Z.land_spec, Reg.bnot_testbit by lia.
  destruct (Z.ltb_spec j 8); [|by rewrite !andb_false_l]. rewrite !andb_true_l.
  destruct (Z.ltb_spec (j + 8 * Z.of_nat k) 32); [by rewrite andb_true_l|lia].
Qed.

Lemma pmpconfig_modify_spec i fv h h' :
  csr_wf h -> pmpconfig_modify i fv h = Ret h' ->
  csr_wf h' /\ same_rest h h' /\
  forall e, octet e h' =
    if decide ((e / 4 = i)%nat /\ (e < length (cfg h))%nat /\ locked e h = false)
    then Z.land (Z.lor (Z.land (octet e h) (Z.lnot (byte (e mod 4) (Reg.fv_mask fv))))
                  (byte (e mod 4) (Reg.fv_value fv))) 0x9f
    else octet e h.
Proof.
  intros Hwf H. unfold pmpconfig_modify in H. apply obind_Ret in H as (v & Hv & H).
  destruct (pmpconfig_set_spec _ _ _ _ Hwf H) as (Hwf' & Hs & Ho). split; [done|]. split; [done|].
  intros e. rewrite Ho. destruct (decide _) as [(He & _)|]; [|done].
  rewrite byte_modify by (by apply Nat.mod_upper_bound). by rewrite (byte_read i h v e).
Qed.

Lemma octet_kept c : octet_ok c -> Z.land (Z.lor (Z.land c (Z.lnot 0)) 0) 0x9f = c.
Proof. intros [_ E]. by rewrite Z.lor_0_r, Z.lnot_0, Z.land_m1_r. Qed.
Lemma octet_replaced c b : octet_ok c -> octet_ok b -> Z.land (Z.lor (Z.land c (Z.lnot 255)) b) 0x9f = b.
Proof.
  intros [Hc _] [_ Hb]. replace (Z.land c (Z.lnot 255)) with 0; [by rewrite Z.lor_0_l|].
  symmetry. apply Z.bits_inj'. intros j Hj. rewrite Z.land_spec, Z.lnot_spec, Z.bits_0 by done.
  change 255 with (Z.ones 8). rewrite Z.testbit_ones_nonneg by lia.
  destruct (Z.ltb_spec j 8); [by rewrite andb_false_r|]. rewrite andb_true_r.
  destruct (decide (c = 0)) as [->|]; [apply Z.bits_0|].
  apply Z.bits_above_log2; [lia|]. apply Z.lt_le_trans with 8; [|done]. apply Z.log2_lt_pow2; lia.
Qed.

(** * Octets of user regions *)

Definition user_cfg (b : Z) : Prop :=
  b = OFF \/ exists p, p <> ReadWriteExecute /\ b = from_permissions p.

Lemma tor_ok_user r : tor_ok r -> user_cfg (t_cfg r).
Proof.
  intros [Ho|(p & Hp & E & _)]; [left|right; by exists p]. by apply Z.eqb_eq in Ho.
Qed.

Lemma user_cfg_ok b :
  user_cfg b -> octet_ok b /\ u8_range b /\ Z.testbit b 7 = false /\
    (b = OFF \/ b <> OFF /\ mode b = 1).
Proof.
  unfold octet_ok, u8_range, U8.
  intros [->|(p & _ & ->)]; [|destruct p]; (split_and!; [vm_compute; done..|]);
    (left; done) || (right; done).
Qed.

Lemma unlocked_user e h : user_cfg (octet e h) -> locked e h = false.
Proof. intros Hu. unfold locked. destruct (user_cfg_ok _ Hu) as (_ & _ & -> & _). done. Qed.

(** The octets of the regions [bs] from place [i] on are set: the first entry of
    each is off and the second has the octet. *)
Definition octets_set (i : nat) (bs : list Z) (h h' : Csr) : Prop :=
  (forall j b, bs !! j = Some b -> octet (2 * (i + j)) h' = OFF /\ octet (2 * (i + j) + 1) h' = b) /\
  (forall e, (e < 2 * i \/ 2 * (i + length bs) <= e)%nat -> octet e h' = octet e h).

(** The same for the addresses of the regions that are on. *)
Definition addrs_set (i : nat) (rs : list Tor) (h h' : Csr) : Prop :=
  (forall j r, rs !! j = Some r -> is_off r = false ->
     pmpaddr (2 * (i + j)) h' = Z.shiftr (t_start r) 2 /\
     pmpaddr (2 * (i + j) + 1) h' = Z.shiftr (t_end r) 2) /\
  (forall e, (e < 2 * i \/ 2 * (i + length rs) <= e)%nat -> pmpaddr e h' = pmpaddr e h).

Lemma octets_set_app i bs1 bs2 h h1 h2 :
  octets_set i bs1 h h1 -> octets_set (i + length bs1) bs2 h1 h2 -> octets_set i (bs1 ++ bs2) h h2.
Proof.
  intros [H1 F1] [H2 F2]. split.
  - intros j b [Hj|[Hge Hj] ]%lookup_app_Some.
    + pose proof (lookup_lt_Some _ _ _ Hj). rewrite !F2 by lia. by apply H1.
    + replace (i + j)%nat with (i + length bs1 + (j - length bs1))%nat by lia. by apply H2.
  - intros e. rewrite length_app. intros He. rewrite F2, F1 by lia. done.
Qed.

Lemma addrs_set_app i rs1 rs2 h h1 h2 :
  addrs_set i rs1 h h1 -> addrs_set (i + length rs1) rs2 h1 h2 -> addrs_set i (rs1 ++ rs2) h h2.
Proof.
  intros [H1 F1] [H2 F2]. split.
  - intros j r [Hj|[Hge Hj] ]%lookup_app_Some Hon.
    + pose proof (lookup_lt_Some _ _ _ Hj). rewrite !F2 by lia. by apply H1.
    + replace (i + j)%nat with (i + length rs1 + (j - length rs1))%nat by lia. by apply H2.
  - intros e. rewrite length_app. intros He. rewrite F2, F1 by lia. done.
Qed.

(** An entry is written if it is implemented and not locked. *)
Definition writable (h : Csr) (e : nat) : Prop := (e < length (cfg h))%nat /\ locked e h = false.

(** The address below entry [e] is written. *)
Definition passable (h : Csr) (e : nat) : Prop := locked e h && (mode (octet e h) =? 1) = false.

Lemma unlocked_passable h e : locked e h = false -> passable h e.
Proof. unfold passable. by intros ->. Qed.

Lemma entry_parts q k : (k < 4)%nat -> ((4 * q + k) / 4 = q)%nat /\ ((4 * q + k) mod 4 = k)%nat.
Proof.
  intros Hk. split; [symmetry; apply (Nat.div_unique _ _ _ k); lia|].
  symmetry. apply (Nat.mod_unique _ _ q); lia.
Qed.

Lemma user_off : user_cfg OFF.
Proof. by left. Qed.

Lemma pair_octets q b1 b2 h h' :
  csr_wf h -> user_cfg b1 -> user_cfg b2 -> (forall k, (k < 4)%nat -> writable h (4 * q + k)) ->
  pmpconfig_set q (from_be_bytes [b2; OFF; b1; OFF]) h = Ret h' ->
  csr_wf h' /\ same_rest h h' /\ octets_set (2 * q) [b1; b2] h h'.
Proof.
  intros Hwf H1 H2 Hw Hset. destruct (pmpconfig_set_spec _ _ _ _ Hwf Hset) as (Hwf' & Hs & Ho).
  split; [done|]. split; [done|].
  destruct (user_cfg_ok _ H1) as ((_ & E1) & Hu1 & _). destruct (user_cfg_ok _ H2) as ((_ & E2) & Hu2 & _).
  destruct (byte_from_le OFF b1 OFF b2) as (B0 & B1 & B2 & B3); [done..|].
  change (from_le_bytes [OFF; b1; OFF; b2]) with (from_be_bytes [b2; OFF; b1; OFF]) in *.
  assert (Hk : forall k, (k < 4)%nat -> octet (4 * q + k) h' = Z.land (byte k (from_be_bytes [b2; OFF; b1; OFF])) 0x9f).
  { intros k Hk. rewrite Ho. destruct (entry_parts q k Hk) as [Ed Em]. rewrite Em.
    rewrite decide_True; [done|]. split; [done|]. by apply Hw. }
  split.
  - intros [|[|j] ] b Hb; cbn in Hb; simplify_eq.
    + replace (2 * (2 * q + 0))%nat with (4 * q + 0)%nat by lia.
      replace (4 * q + 0 + 1)%nat with (4 * q + 1)%nat by lia. rewrite !Hk by lia. by rewrite B0, B1.
    + replace (2 * (2 * q + 1))%nat with (4 * q + 2)%nat by lia.
      replace (4 * q + 2 + 1)%nat with (4 * q + 3)%nat by lia. rewrite !Hk by lia. by rewrite B2, B3.
  - intros e He. rewrite Ho. rewrite decide_False; [done|]. intros [Hq _]. cbn in He.
    pose proof (Nat.div_mod_eq e 4). pose proof (Nat.mod_upper_bound e 4 ltac:(lia)). lia.
Qed.

(** Bytes of the fields with which one region is written. *)
Lemma half_bytes b (hi : bool) :
  user_cfg b ->
  let fv := Reg.fv_new 32 0xffff (if hi then 16 else 0) (from_be_bytes [0; 0; b; OFF]) in
  let o := (if hi then 2 else 0)%nat in
  byte o (Reg.fv_mask fv) = 255 /\ byte o (Reg.fv_value fv) = OFF /\
  byte (o + 1) (Reg.fv_mask fv) = 255 /\ byte (o + 1) (Reg.fv_value fv) = b /\
  byte (2 - o) (Reg.fv_mask fv) = 0 /\ byte (2 - o) (Reg.fv_value fv) = 0 /\
  byte (2 - o + 1) (Reg.fv_mask fv) = 0 /\ byte (2 - o + 1) (Reg.fv_value fv) = 0.
Proof.
  intros [->|(p & _ & ->)]; [|destruct p]; destruct hi; vm_compute; by split_and!.
Qed.

Lemma half_octets q b (hi : bool) h h' :
  csr_wf h -> user_cfg b ->
  let i := (2 * q + (if hi then 1 else 0))%nat in
  writable h (2 * i) -> writable h (2 * i + 1) ->
  pmpconfig_modify q (Reg.fv_new 32 0xffff (if hi then 16 else 0) (from_be_bytes [0; 0; b; OFF])) h = Ret h' ->
  csr_wf h' /\ same_rest h h' /\ octets_set i [b] h h'.
Proof.
  intros Hwf Hu i Hw0 Hw1 Hmod.
  destruct (pmpconfig_modify_spec _ _ _ _ Hwf Hmod) as (Hwf' & Hs & Ho). split; [done|]. split; [done|].
  destruct (half_bytes b hi Hu) as (M0 & V0 & M1 & V1 & M2 & V2 & M3 & V3).
  destruct (user_cfg_ok _ Hu) as (Hok & _). set (fv := Reg.fv_new _ _ _ _) in *.
  set (o := (if hi then 2 else 0)%nat) in *.
  assert (Ei : (2 * i = 4 * q + o)%nat) by (unfold i, o; destruct hi; lia).
  assert (Ho4 : (o + 1 < 4)%nat) by (unfold o; destruct hi; lia).
  split.
  - intros [|j] b' Hb; cbn in Hb; simplify_eq. rewrite Nat.add_0_r, Ei, <- Nat.add_assoc, !Ho.
    rewrite Ei in Hw0, Hw1. rewrite <- Nat.add_assoc in Hw1.
    destruct (entry_parts q o ltac:(lia)) as [D0 R0]. destruct (entry_parts q (o + 1) ltac:(lia)) as [D1 R1].
    rewrite D0, R0, D1, R1, !decide_True by (split; [done|]; done).
    rewrite M0, V0, M1, V1. by rewrite !octet_replaced by (done || by apply octet_wf).
  - intros e He. cbn [length] in He. rewrite Ho. destruct (decide _) as [(Hq & _)|]; [|done].
    pose proof (Nat.div_mod_eq e 4). pose proof (Nat.mod_upper_bound e 4 ltac:(lia)).
    assert (Hc : (e mod 4 = 2 - o \/ e mod 4 = 2 - o + 1)%nat) by (unfold i, o in *; destruct hi; lia).
    destruct Hc as [-> | ->]; [rewrite M2, V2|rewrite M3, V3]; apply octet_kept; by apply octet_wf.
Qed.

(** ** Addresses *)

Definition keeps_size (h h' : Csr) : Prop :=
  epmp h' = epmp h /\ mseccfg h' = mseccfg h /\ length (cfg h') = length (cfg h) /\
  length (addr h') = length (addr h).

Lemma keeps_size_trans h1 h2 h3 : keeps_size h1 h2 -> keeps_size h2 h3 -> keeps_size h1 h3.
Proof. unfold keeps_size. intros. destruct_and!. split_and!; congruence. Qed.
Lemma same_rest_size h h' : same_rest h h' -> keeps_size h h'.
Proof. intros (E1 & E2 & E3 & E4). split_and!; congruence. Qed.
Lemma locked_size h h' e : keeps_size h h' -> octet e h' = octet e h -> locked e h' = locked e h.
Proof. intros (_ & E & _) Eo. unfold locked, rlb. by rewrite Eo, E. Qed.
Lemma octet_cfg h h' e : cfg h' = cfg h -> octet e h' = octet e h.
Proof. unfold octet. by intros ->. Qed.
Lemma pmpaddr_addr h h' e : addr h' = addr h -> pmpaddr e h' = pmpaddr e h.
Proof. unfold pmpaddr. by intros ->. Qed.

Lemma pmpaddr_set_spec e v h :
  csr_wf h -> writable h e -> passable h (S e) -> (e < 64)%nat ->
  exists h', pmpaddr_set e v h = Ret h' /\ cfg h' = cfg h /\ keeps_size h h' /\
    (forall e', pmpaddr e' h' = if decide (e' = e) then v else pmpaddr e' h).
Proof.
  intros [Hl _] [Hlt Hlk] Hlk' H64. unfold pmpaddr_set. destruct (Nat.ltb_spec e 64); [|lia].
  eexists. split; [done|]. unfold write_addr, passable in *. rewrite Hlk, Hlk'. cbn [orb andb]. split; [done|].
  split; [repeat split; cbn; by rewrite length_insert|]. intros e'. unfold pmpaddr. cbn [addr].
  destruct (decide (e' = e)) as [->|Hne]; [|by rewrite list_lookup_insert_ne].
  by rewrite list_lookup_insert_eq by lia.
Qed.

Lemma set_addrs_spec i r h :
  csr_wf h -> writable h (2 * i) -> writable h (2 * i + 1) -> passable h (2 * i + 2) ->
  (2 * i + 1 < 64)%nat ->
  exists h', set_addrs (2 * i) r h = Ret h' /\ cfg h' = cfg h /\ keeps_size h h' /\ addrs_set i [r] h h'.
Proof.
  intros Hwf Hw0 Hw1 Hl2 H64. unfold set_addrs. destruct (is_off r) eqn:Hoff.
  { exists h. split; [done|]. split; [done|]. split; [done|]. split; [|done].
    intros [|j] r' Hr; cbn in Hr; simplify_eq. congruence. }
  destruct (pmpaddr_set_spec (2 * i) (Z.shiftr (t_start r) 2) h) as (h1 & -> & Ec1 & Hs1 & Ha1);
    [done|done| |lia|]; [rewrite <- Nat.add_1_r; apply unlocked_passable, Hw1|].
  cbn [obind].
  assert (Hwf1 : csr_wf h1).
  { destruct Hwf as [Hl Hf]. split; rewrite Ec1; [|done]. destruct Hs1 as (_ & _ & _ & ->). done. }
  assert (Hlk : forall e, locked e h1 = locked e h) by (intros e; by apply locked_size, octet_cfg).
  destruct (pmpaddr_set_spec (2 * i + 1) (Z.shiftr (t_end r) 2) h1) as (h2 & -> & Ec2 & Hs2 & Ha2);
    [done|unfold writable in *; by rewrite Ec1, Hlk|
     replace (S (2 * i + 1)) with (2 * i + 2)%nat by lia; unfold passable; by rewrite Hlk, (octet_cfg _ _ _ Ec1)|lia|].
  exists h2. split; [done|]. split; [congruence|]. split; [by eapply keeps_size_trans|]. split.
  - intros [|j] r' Hr _; cbn in Hr; simplify_eq. rewrite Nat.add_0_r, !Ha2, !Ha1.
    by rewrite decide_False, !decide_True by lia.
  - intros e He. cbn in He. rewrite Ha2, Ha1. by rewrite !decide_False by lia.
Qed.

(** The places [i] to [i + n] can be written. *)
Definition open (i n : nat) (h : Csr) : Prop :=
  (2 * (i + n) <= length (cfg h))%nat /\ (2 * (i + n) <= 64)%nat /\
  (forall e, (2 * i <= e < 2 * (i + n))%nat -> locked e h = false) /\
  passable h (2 * (i + n)).

Lemma open_writable i n h e : open i n h -> (2 * i <= e < 2 * (i + n))%nat -> writable h e.
Proof. intros (Hlen & _ & Hlk & _) He. split; [lia|apply Hlk; lia]. Qed.

Lemma open_passable i n h e : open i n h -> (2 * i <= e <= 2 * (i + n))%nat -> passable h e.
Proof.
  intros (_ & _ & Hlk & Hp) He. destruct (decide (e = 2 * (i + n))%nat) as [->|]; [done|].
  apply unlocked_passable, Hlk. lia.
Qed.

(** Setting the octets of user regions keeps the places open. *)
Lemma open_octets i n j bs h h' :
  open i n h -> Forall user_cfg bs -> keeps_size h h' -> octets_set j bs h h' -> open i n h'.
Proof.
  intros (Hlen & H64 & Hlk & Hp) Hu Hs [Hin Hout]. pose proof Hs as (_ & _ & El & _). unfold open. rewrite El.
  split; [done|]. split; [done|].
  assert (Hset : forall e, (2 * j <= e < 2 * (j + length bs))%nat -> locked e h' = false).
  2: { split.
       - intros e He. destruct (decide (2 * j <= e < 2 * (j + length bs))%nat) as [Hj|Hj]; [by apply Hset|].
         rewrite (locked_size h h' e Hs); [by apply Hlk|]. apply Hout. lia.
       - destruct (decide (2 * j <= 2 * (i + n) < 2 * (j + length bs))%nat) as [Hj|Hj].
         + by apply unlocked_passable, Hset.
         + unfold passable. rewrite (locked_size h h' _ Hs), Hout by (try apply Hout; lia). done. }
  intros e Hj. apply unlocked_user. pose proof (Nat.div_mod_eq e 2). pose proof (Nat.mod_upper_bound e 2 ltac:(lia)).
  destruct (lookup_lt_is_Some_2 bs (e / 2 - j)) as [b Hb]; [lia|].
  destruct (Hin _ _ Hb) as [E0 E1].
  assert (Hc : (e = 2 * (j + (e / 2 - j)) \/ e = 2 * (j + (e / 2 - j)) + 1)%nat) by lia.
  destruct Hc as [-> | ->]; [rewrite E0; apply user_off|rewrite E1; by apply (Forall_lookup_1 _ _ _ _ Hu Hb)].
Qed.

Lemma open_addrs i n h h' : open i n h -> cfg h' = cfg h -> keeps_size h h' -> open i n h'.
Proof.
  intros (Hlen & H64 & Hlk & Hp) Ec Hs. unfold open, passable. rewrite Ec. split; [done|]. split; [done|].
  split; [intros e He|]; rewrite (locked_size h h' _ Hs) by (by apply octet_cfg); [by apply Hlk|].
  by rewrite (octet_cfg h h').
Qed.
Lemma open_tail i n k h : open i (k + n) h -> open (i + k) n h.
Proof.
  intros (H1 & H2 & H3 & H4). split; [lia|]. split; [lia|]. rewrite <- Nat.add_assoc.
  split; [|done]. intros e He. apply H3. lia.
Qed.

Lemma csr_wf_addrs h h' : csr_wf h -> cfg h' = cfg h -> keeps_size h h' -> csr_wf h'.
Proof. intros [Hl Hf] Ec (_ & _ & _ & El). split; [congruence|by rewrite Ec]. Qed.

Lemma octets_set_cfg i bs h h' h2 : octets_set i bs h h' -> cfg h2 = cfg h' -> octets_set i bs h h2.
Proof.
  intros [H1 H2] Ec. split; [intros j b Hj|intros e He]; rewrite !(octet_cfg h' h2) by done; auto.
Qed.
Lemma addrs_set_addr i rs h h1 h2 : addrs_set i rs h1 h2 -> addr h1 = addr h -> addrs_set i rs h h2.
Proof.
  intros [H1 H2] Ea. split; [done|]. intros e He. rewrite H2 by done. by apply pmpaddr_addr.
Qed.
Lemma addrs_set_after i rs h h1 h2 : addrs_set i rs h h1 -> addr h2 = addr h1 -> addrs_set i rs h h2.
Proof.
  intros [H1 H2] Ea. split.
  - intros j r Hj Hon. rewrite !(pmpaddr_addr h1 h2) by done. by apply H1.
  - intros e He. rewrite (pmpaddr_addr h1 h2) by done. by apply H2.
Qed.

(** Regions are in the registers. *)
Definition programmed (i : nat) (rs : list Tor) (h h' : Csr) : Prop :=
  csr_wf h' /\ keeps_size h h' /\ octets_set i (map t_cfg rs) h h' /\ addrs_set i rs h h'.

Lemma programmed_app i rs1 rs2 h h1 h2 :
  programmed i rs1 h h1 -> programmed (i + length rs1) rs2 h1 h2 -> programmed i (rs1 ++ rs2) h h2.
Proof.
  intros (_ & S1 & O1 & A1) (W2 & S2 & O2 & A2). split; [done|]. split; [by eapply keeps_size_trans|].
  split; [|by eapply addrs_set_app]. rewrite map_app. eapply octets_set_app; [done|].
  by rewrite length_map.
Qed.

Lemma tor_ok_users rs : Forall tor_ok rs -> Forall user_cfg (map t_cfg rs).
Proof. intros Hf. apply Forall_fmap. eapply Forall_impl; [done|]. apply tor_ok_user. Qed.

(** One region, after its octets have been written. *)
Lemma region_addrs i n h0 h r bs :
  csr_wf h -> open i (S n) h -> octets_set i bs h0 h -> addr h = addr h0 ->
  exists h', set_addrs (2 * i) r h = Ret h' /\ csr_wf h' /\ cfg h' = cfg h /\ keeps_size h h' /\
    open i (S n) h' /\ addrs_set i [r] h0 h'.
Proof.
  intros Hwf Hop Ho Ea. pose proof Hop as (_ & H64 & _).
  destruct (set_addrs_spec i r h) as (h' & E & Ec & Hs & Ha);
    [done|by apply (open_writable i (S n)); [|lia]|by apply (open_writable i (S n)); [|lia]
    |apply (open_passable i (S n)); [done|lia]|lia|].
  exists h'. split; [done|]. split; [by eapply csr_wf_addrs|]. split; [done|]. split; [done|].
  split; [by eapply open_addrs|]. by eapply addrs_set_addr.
Qed.

Lemma configure_pair q r1 r2 n h :
  csr_wf h -> tor_ok r1 -> tor_ok r2 -> open (2 * q) (2 + n) h ->
  exists h',
    (let! h := pmpconfig_set q (from_be_bytes [t_cfg r2; OFF; t_cfg r1; OFF]) h in
     let! h := set_addrs (2 * q * 2) r1 h in set_addrs (2 * q * 2 + 2) r2 h) = Ret h' /\
    programmed (2 * q) [r1; r2] h h' /\ open (2 * q) (2 + n) h'.
Proof.
  intros Hwf Hr1 Hr2 Hop. pose proof Hop as (_ & H64 & _).
  assert (Hu : Forall user_cfg (map t_cfg [r1; r2])) by (apply tor_ok_users; rewrite ?Forall_cons; auto).
  destruct (pmpconfig_set q _ h) as [h1| |] eqn:Hset;
    [|unfold pmpconfig_set in Hset; destruct (Nat.ltb_spec q 16); [done|lia]..].
  destruct (pair_octets q (t_cfg r1) (t_cfg r2) h h1) as (Hwf1 & Hs1 & Ho1);
    [done|by apply tor_ok_user|by apply tor_ok_user|intros k Hk; apply (open_writable (2 * q) (2 + n)); [done|lia]|done|].
  pose proof (open_octets _ _ _ _ _ _ Hop Hu (same_rest_size _ _ Hs1) Ho1) as Hop1.
  destruct (region_addrs (2 * q) (1 + n) h h1 r1 _ Hwf1 Hop1 Ho1) as (h2 & E2 & Hwf2 & Ec2 & Hs2 & Hop2 & Ha2);
    [apply Hs1|].
  destruct (set_addrs_spec (2 * q + 1) r2 h2) as (h3 & E3 & Ec3 & Hs3 & Ha3);
    [done|by apply (open_writable (2 * q) (2 + n)); [|lia]|by apply (open_writable (2 * q) (2 + n)); [|lia]
    |apply (open_passable (2 * q) (2 + n)); [done|lia]|lia|].
  exists h3. cbn [obind]. replace (2 * q * 2)%nat with (2 * (2 * q))%nat by lia.
  replace (2 * (2 * q) + 2)%nat with (2 * (2 * q + 1))%nat by lia. rewrite E2. cbn [obind].
  split; [done|]. split; [|by eapply open_addrs].
  split; [by eapply csr_wf_addrs|]. split; [by repeat (eapply keeps_size_trans; [by eauto using same_rest_size|])|].
  split; [by apply (octets_set_cfg _ _ _ h1); [|congruence]|].
  by apply (addrs_set_app (2 * q) [r1] [r2] h h2 h3).
Qed.

Lemma configure_single q r h :
  csr_wf h -> tor_ok r -> open (2 * q) 1 h ->
  exists h', configure_loop (2 * q) [r] h = Ret h' /\ programmed (2 * q) [r] h h'.
Proof.
  intros Hwf Hr Hop. pose proof Hop as (_ & H64 & _). cbn [configure_loop].
  assert (Hu : Forall user_cfg (map t_cfg [r])) by (apply tor_ok_users; rewrite ?Forall_cons; auto).
  replace (2 * q / 2)%nat with q by (apply (Nat.div_unique _ _ _ 0); lia).
  destruct (pmpconfig_modify q _ h) as [h1| |] eqn:Hmod;
    [|unfold pmpconfig_modify, pmpconfig_get, pmpconfig_set in Hmod;
      destruct (Nat.ltb_spec q 16); [done|lia]..].
  destruct (half_octets q (t_cfg r) false h h1) as (Hwf1 & Hs1 & Ho1);
    [done|by apply tor_ok_user|apply (open_writable (2 * q) 1); [done|lia]
    |apply (open_writable (2 * q) 1); [done|lia]|done|].
  rewrite Nat.add_0_r in Ho1.
  pose proof (open_octets _ _ _ _ _ _ Hop Hu (same_rest_size _ _ Hs1) Ho1) as Hop1.
  destruct (region_addrs (2 * q) 0 h h1 r _ Hwf1 Hop1 Ho1) as (h2 & E2 & Hwf2 & Ec2 & Hs2 & Hop2 & Ha2);
    [apply Hs1|].
  exists h2. cbn [obind]. replace (2 * q * 2)%nat with (2 * (2 * q))%nat by lia. split; [done|].
  split; [done|]. split; [by eapply keeps_size_trans; [apply same_rest_size|]|].
  split; [by apply (octets_set_cfg _ _ _ h1)|done].
Qed.

Lemma configure_loop_spec rs q h :
  csr_wf h -> Forall tor_ok rs -> open (2 * q) (length rs) h ->
  exists h', configure_loop (2 * q) rs h = Ret h' /\ programmed (2 * q) rs h h'.
Proof.
  remember (length rs) as n eqn:En. revert rs q h En.
  induction n as [n IH] using lt_wf_ind. intros rs q h En Hwf Hok Hop.
  destruct rs as [|r1 [|r2 rs] ].
  - exists h. split; [done|]. split; [done|]. split; [done|].
    split; (split; [by intros ? ? ?|done]).
  - apply configure_single; [done|by apply Forall_singleton|by subst].
  - apply Forall_cons in Hok as [Hr1 Hok]. apply Forall_cons in Hok as [Hr2 Hok].
    cbn [length] in En. subst n.
    destruct (configure_pair q r1 r2 (length rs) h Hwf Hr1 Hr2 Hop) as (h1 & E1 & Hp1 & Hop1).
    destruct (IH (length rs) ltac:(lia) rs (q + 1)%nat h1) as (h2 & E2 & Hp2); [done|apply Hp1|done|..].
    { replace (2 * (q + 1))%nat with (2 * q + 2)%nat by lia. by apply (open_tail _ _ 2). }
    exists h2. split.
    + cbn [configure_loop]. replace (2 * q / 2)%nat with q by (apply (Nat.div_unique _ _ _ 0); lia).
      replace (2 * (q + 1))%nat with (2 * q + 2)%nat in E2 by lia. rewrite <- E2.
      apply obind_Ret in E1 as (ha & -> & E1). cbn [obind].
      apply obind_Ret in E1 as (hb & -> & E1). cbn [obind]. by rewrite E1.
    + apply (programmed_app _ [r1; r2] rs h h1 h2); [done|].
      cbn [length]. by replace (2 * q + 2)%nat with (2 * (q + 1))%nat by lia.
Qed.

(** * Matching *)

Lemma first_match_app h a l1 l2 :
  first_match h a (l1 ++ l2) =
    match first_match h a l1 with Some e => Some e | None => first_match h a l2 end.
Proof. induction l1 as [|e l1 IH]; cbn; [done|]. by destruct (matches h a e). Qed.

Lemma first_match_none h a l : (forall e, e ∈ l -> matches h a e = false) -> first_match h a l = None.
Proof.
  induction l as [|e l IH]; cbn; [done|]. intros Hl. rewrite Hl by (by left). apply IH.
  intros e' He'. apply Hl. by right.
Qed.

Lemma first_match_Some h a l e : first_match h a l = Some e -> e ∈ l /\ matches h a e = true.
Proof.
  induction l as [|e0 l IH]; cbn; [done|]. destruct (matches h a e0) eqn:Em.
  - intros [= <-]. split; [by left|done].
  - intros [? ?]%IH. split; [by right|done].
Qed.

(** The region that decides about an address. *)
Fixpoint region_at (rs : list Tor) (a : Z) : option Tor :=
  match rs with
  | [] => None
  | r :: rs => if tor_contains r a then Some r else region_at rs a
  end.

Lemma regions_allow_at rs a acc :
  regions_allow rs a acc = match region_at rs a with Some r => permits (t_cfg r) acc | None => false end.
Proof. induction rs as [|r rs IH]; cbn; [done|]. by destruct (tor_contains r a). Qed.

Lemma region_at_elem rs a r : region_at rs a = Some r -> r ∈ rs /\ tor_contains r a = true.
Proof.
  induction rs as [|r0 rs IH]; cbn; [done|]. destruct (tor_contains r0 a) eqn:E.
  - intros [= <-]. split; [by left|done].
  - intros [? ?]%IH. split; [by right|done].
Qed.

(** The registers hold the regions from place [i] on. *)
Definition holds (i : nat) (rs : list Tor) (h : Csr) : Prop :=
  forall j r, rs !! j = Some r ->
    octet (2 * (i + j)) h = OFF /\ octet (2 * (i + j) + 1) h = t_cfg r /\
    (is_off r = false -> pmpaddr (2 * (i + j)) h = Z.shiftr (t_start r) 2 /\
       pmpaddr (2 * (i + j) + 1) h = Z.shiftr (t_end r) 2).

Lemma programmed_holds i rs h h' : programmed i rs h h' -> holds i rs h'.
Proof.
  intros (_ & _ & [Ho _] & [Ha _]) j r Hj.
  destruct (Ho j (t_cfg r)) as [E1 E2]; [by rewrite list_lookup_fmap, Hj|].
  split; [done|]. split; [done|]. by apply Ha.
Qed.

Lemma holds_cons i r rs h :
  holds i (r :: rs) h ->
  (octet (2 * i) h = OFF /\ octet (2 * i + 1) h = t_cfg r /\
   (is_off r = false -> pmpaddr (2 * i) h = Z.shiftr (t_start r) 2 /\
      pmpaddr (2 * i + 1) h = Z.shiftr (t_end r) 2)) /\ holds (S i) rs h.
Proof.
  intros H. split; [pose proof (H 0%nat r eq_refl) as H0; by rewrite Nat.add_0_r in H0|].
  intros j r' Hj. specialize (H (S j) r' Hj). by rewrite Nat.add_succ_r in H.
Qed.

Lemma shiftr_times4 x : (4 | x) -> 4 * Z.shiftr x 2 = x.
Proof.
  intros [q ->]. rewrite Z.shiftr_div_pow2 by lia. change (2 ^ 2) with 4. rewrite Z.div_mul by lia. lia.
Qed.

Lemma off_no_match h a e : octet e h = OFF -> matches h a e = false.
Proof. unfold matches. by intros ->. Qed.

Lemma region_match i r h a :
  tor_ok r -> octet (2 * i + 1) h = t_cfg r ->
  (is_off r = false -> pmpaddr (2 * i) h = Z.shiftr (t_start r) 2 /\
     pmpaddr (2 * i + 1) h = Z.shiftr (t_end r) 2) ->
  matches h a (2 * i + 1) = tor_contains r a.
Proof.
  intros Hok Ho Ha. unfold tor_contains. destruct (is_off r) eqn:Hoff; cbn [negb andb].
  { apply off_no_match. rewrite Ho. by apply Z.eqb_eq. }
  destruct (Ha eq_refl) as [A0 A1].
  destruct (user_cfg_ok _ (tor_ok_user r Hok)) as (_ & _ & _ & [E|[_ Hm] ]).
  { apply Z.eqb_eq in E. unfold is_off in Hoff. congruence. }
  destruct Hok as [?|(p & _ & _ & _ & _ & D0 & D1)]; [congruence|].
  unfold matches. rewrite Ho, Hm, Nat.add_1_r. rewrite Nat.add_1_r in A1.
  by rewrite A0, A1, !shiftr_times4.
Qed.

(** The entries of the regions match like the regions. *)
Lemma first_user i rs h a :
  Forall tor_ok rs -> holds i rs h ->
  match region_at rs a with
  | None => first_match h a (seq (2 * i) (2 * length rs)) = None
  | Some r => exists e, first_match h a (seq (2 * i) (2 * length rs)) = Some e /\ octet e h = t_cfg r
  end.
Proof.
  revert i. induction rs as [|r rs IH]; intros i Hok Hh; [done|].
  apply Forall_cons in Hok as [Hr Hok]. apply holds_cons in Hh as [(E0 & E1 & Ha) Hh].
  replace (2 * length (r :: rs))%nat with (2 + 2 * length rs)%nat by (cbn; lia). cbn [seq Nat.add].
  cbn [first_match region_at]. rewrite (off_no_match h a _ E0).
  replace (S (2 * i)) with (2 * i + 1)%nat by lia. rewrite (region_match i r) by done.
  destruct (tor_contains r a); [by eexists|].
  replace (S (2 * i + 1)) with (2 * S i)%nat by lia. by apply IH.
Qed.

(** ** Natural power-of-two regions *)

Lemma trailing_ones_spec v :
  0 <= v -> exists q, 0 <= q /\ v = q * 2 ^ (trailing_ones v + 1) + (2 ^ trailing_ones v - 1) /\ 0 <= trailing_ones v.
Proof.
  intros Hv. destruct v as [|p|p]; [exists 0; cbn; lia| |lia]. clear Hv. cbn [trailing_ones].
  induction p as [p (q & Hq & E & H0)|p _|].
  - exists q. cbn [pos_trailing_ones]. split; [done|]. split; [|lia].
    rewrite (Pos2Z.inj_xI p), E at 1. replace (1 + pos_trailing_ones p + 1) with (pos_trailing_ones p + 1 + 1) by lia.
    rewrite (Z.add_comm 1), !Z.pow_add_r by lia. change (2 ^ 1) with 2. lia.
  - exists (Zpos p). cbn [pos_trailing_ones]. change (0 + 1) with 1. change (2 ^ 1) with 2. change (2 ^ 0) with 1.
    rewrite (Pos2Z.inj_xO p). lia.
  - exists 0. cbn. lia.
Qed.

Lemma trailing_ones_unique q k : 0 <= q -> 0 <= k -> trailing_ones (q * 2 ^ (k + 1) + (2 ^ k - 1)) = k.
Proof.
  intros Hq Hk. set (v := q * 2 ^ (k + 1) + (2 ^ k - 1)).
  assert (Hp : 0 < 2 ^ k) by (apply Z.pow_pos_nonneg; lia).
  assert (Hv : 0 <= v) by (unfold v; rewrite Z.pow_add_r by lia; change (2 ^ 1) with 2; nia).
  destruct (trailing_ones_spec v Hv) as (q' & Hq' & E & H0). set (t := trailing_ones v) in *.
  assert (Hbits : forall x m j, 0 <= x -> 0 <= m -> 0 <= j <= m ->
    Z.testbit (x * 2 ^ (m + 1) + (2 ^ m - 1)) j = (j <? m)).
  { intros x m j Hx Hm Hj. rewrite <- (Z.mod_pow2_bits_low _ (m + 1)) by lia.
    rewrite Z.add_comm, Z.mod_add by (apply Z.pow_nonzero; lia).
    rewrite Z.mod_small.
    - replace (2 ^ m - 1) with (Z.ones m) by (rewrite Z.ones_equiv; lia). apply Z.testbit_ones_nonneg; lia.
    - rewrite Z.pow_add_r by lia. change (2 ^ 1) with 2. pose proof (Z.pow_pos_nonneg 2 m). lia. }
  pose proof (Hbits q k) as B1. fold v in B1. pose proof (Hbits q' t) as B2. rewrite <- E in B2.
  destruct (Z.lt_trichotomy t k) as [Hlt|[->|Hlt] ]; [|done|].
  - specialize (B1 t Hq Hk ltac:(lia)). specialize (B2 t Hq' H0 ltac:(lia)).
    rewrite B1 in B2. destruct (Z.ltb_spec t k), (Z.ltb_spec t t); lia || done.
  - specialize (B1 k Hq Hk ltac:(lia)). specialize (B2 k Hq' H0 ltac:(lia)).
    rewrite B1 in B2. destruct (Z.ltb_spec k t), (Z.ltb_spec k k); lia || done.
Qed.

Lemma power_of_two_spec n : is_power_of_two n = true -> exists k, 0 <= k /\ n = 2 ^ k.
Proof.
  unfold is_power_of_two. intros [Hn%Z.ltb_lt Hl%Z.eqb_eq]%andb_true_iff.
  exists (Z.log2 n). split; [apply Z.log2_nonneg|]. pose proof (Z.log2_spec n Hn) as [H1 H2].
  destruct (Z.eq_dec n (2 ^ Z.log2 n)) as [|Hne]; [done|]. exfalso.
  assert (Hn1 : n <> 1) by (by intros ->).
  assert (Hb : Z.testbit (Z.land n (n - 1)) (Z.log2 n) = true).
  { rewrite Z.land_spec, Z.bit_log2 by done. rewrite andb_true_l.
    rewrite <- (Z.log2_unique (n - 1) (Z.log2 n)); [apply Z.bit_log2; lia|apply Z.log2_nonneg|].
    rewrite <- Z.add_1_r in *. lia. }
  rewrite Hl, Z.bits_0 in Hb. done.
Qed.

Lemma napot_new_spec start size r :
  napot_new start size = Some r ->
  r = mkNapot start size /\ exists k m, 3 <= k /\ size = 2 ^ k /\ start = m * 2 ^ k.
Proof.
  unfold napot_new. destruct (is_power_of_two size) eqn:Hp; [|done].
  apply power_of_two_spec in Hp as (k & Hk & ->). assert (Hpos : 0 < 2 ^ k) by (apply Z.pow_pos_nonneg; lia).
  destruct (Z.eqb_spec (start mod 2 ^ k) 0) as [Hm|]; [|done]. cbn [negb orb].
  destruct (Z.ltb_spec (2 ^ k) 8) as [|H8]; [done|]. intros [= <-]. split; [done|].
  exists k, (start / 2 ^ k). split; [|split; [done|]].
  - apply (Z.pow_le_mono_r_iff 2); [lia|lia|]. change (2 ^ 3) with 8. lia.
  - pose proof (Z.div_mod start (2 ^ k)). lia.
Qed.

(** The address of a region encodes its start and size. *)
Lemma napot_addr_spec start size r :
  napot_new start size = Some r -> 0 <= start -> start + size <= U32 ->
  exists k m, 0 <= k /\ 0 <= m /\ size = 2 ^ (k + 3) /\ start = m * 2 ^ (k + 3) /\
    napot_addr r = Ret (m * 2 ^ (k + 1) + (2 ^ k - 1)).
Proof.
  intros (-> & k' & m & Hk & -> & ->)%napot_new_spec H0 HU. exists (k' - 3), m.
  replace (k' - 3 + 3) with k' by lia. set (k := k' - 3) in *.
  assert (E : 2 ^ k' = 8 * 2 ^ k) by (replace k' with (3 + k) by lia; by rewrite Z.pow_add_r by lia).
  assert (E1 : 2 ^ (k + 1) = 2 * 2 ^ k) by (rewrite Z.pow_add_r by lia; change (2 ^ 1) with 2; lia).
  assert (Hpos : 0 < 2 ^ k) by (apply Z.pow_pos_nonneg; lia).
  assert (Hm : 0 <= m) by nia. split_and!; try lia.
  unfold napot_addr, sub32, add32. cbn [n_size n_start]. rewrite E, E1 in *.
  set (P := 2 ^ k) in *.
  rewrite checked32_ok by (unfold u32_range in *; nia). cbn [obind].
  rewrite Z.shiftr_div_pow2 by lia. change (2 ^ 1) with 2.
  assert (Eh : (8 * P - 1) / 2 = 4 * P - 1) by (symmetry; apply (Z.div_unique_pos _ _ _ 1); lia).
  rewrite Eh, checked32_ok by (unfold u32_range in *; nia). cbn [obind].
  rewrite Z.shiftr_div_pow2 by lia. change (2 ^ 2) with 4. f_equal.
  symmetry. apply (Z.div_unique_pos _ _ _ 3); lia.
Qed.

(** An entry with that address matches exactly the region. *)
Lemma napot_match start size r v h e a :
  napot_new start size = Some r -> 0 <= start -> start + size <= U32 -> napot_addr r = Ret v ->
  mode (octet e h) = 3 -> pmpaddr e h = v ->
  matches h a e = (start <=? a) && (a <? start + size).
Proof.
  intros Hr H0 HU Hv Hm Ha.
  destruct (napot_addr_spec start size r Hr H0 HU) as (k & m & Hk & Hm0 & -> & -> & E).
  rewrite Hv in E. injection E as ->. unfold matches. rewrite Hm, Ha, trailing_ones_unique by done.
  set (P := 2 ^ (k + 3)). assert (HP : 0 < P) by (apply Z.pow_pos_nonneg; lia).
  assert (EP : P = 8 * 2 ^ k) by (unfold P; rewrite Z.pow_add_r by lia; change (2 ^ 3) with 8; lia).
  assert (Et : (4 * (m * 2 ^ (k + 1) + (2 ^ k - 1))) / P = m).
  { rewrite Z.pow_add_r by lia. change (2 ^ 1) with 2. symmetry.
    apply (Z.div_unique_pos _ _ _ (4 * 2 ^ k - 4)); pose proof (Z.pow_pos_nonneg 2 k); lia. }
  rewrite Et. apply eq_true_iff_eq. rewrite Z.eqb_eq, andb_true_iff, Z.leb_le, Z.ltb_lt.
  pose proof (Z.div_mod a P ltac:(lia)). pose proof (Z.mod_pos_bound a P HP). split.
  - intros <-. lia.
  - intros Hin. symmetry. apply (Z.div_unique_pos _ _ _ (a - m * P)); lia.
Qed.

(** The whole address space. *)
Lemma all_match h e a :
  mode (octet e h) = 3 -> pmpaddr e h = 0x7fffffff -> 0 <= a < U32 -> matches h a e = true.
Proof.
  intros Hm Ha Hr. unfold matches. rewrite Hm, Ha.
  change (trailing_ones 0x7fffffff + 3) with 34. apply Z.eqb_eq.
  change (4 * 0x7fffffff / 2 ^ 34) with 0. unfold U32 in Hr. apply Z.div_small. lia.
Qed.

(** * Probing *)

Lemma byte_lxor k u v : byte k (Z.lxor u v) = Z.lxor (byte k u) (byte k v).
Proof.
  apply Z.bits_inj'. intros j Hj. rewrite Z.lxor_spec, !pmp_byte_testbit, Z.lxor_spec by done.
  by destruct (j <? 8).
Qed.
Lemma byte_land k u v : byte k (Z.land u v) = Z.land (byte k u) (byte k v).
Proof.
  apply Z.bits_inj'. intros j Hj. rewrite Z.land_spec, !pmp_byte_testbit, Z.land_spec by done.
  by destruct (j <? 8).
Qed.

(** Bytes of the constants of the probe. *)
Lemma probe_bytes m k :
  (m < 4)%nat -> (k < 4)%nat ->
  byte k (Z.shiftl 7 (Z.of_nat m * 8)) = (if decide (k = m) then 7 else 0) /\
  byte k (Reg.bnot 32 (Z.shiftl 0x18 (Z.of_nat m * 8))) = (if decide (k = m) then 0xe7 else 255).
Proof.
  intros Hm Hk. do 4 (destruct m as [|m]; [do 4 (destruct k as [|k]; [vm_compute; done|]); lia|]). lia.
Qed.

Lemma octet_flip c : octet_ok c -> Z.land (Z.lxor c 7) 0x9f <> c.
Proof.
  intros _ E. apply (f_equal (fun x => Z.testbit x 0)) in E.
  rewrite Z.land_spec, Z.lxor_spec in E. change (Z.testbit 7 0) with true in E.
  change (Z.testbit 0x9f 0) with true in E. by destruct (Z.testbit c 0).
Qed.

Lemma octet_land255 c : octet_ok c -> Z.land c 255 = c.
Proof. intros [_ E]. rewrite <- E at 1. rewrite <- Z.land_assoc. by change (Z.land 0x9f 255) with 0x9f. Qed.

Lemma l_bit c : octet_ok c -> Reg.field_is_set 8 l_ c = Z.testbit c 7.
Proof.
  intros [Hc _]. unfold Reg.field_is_set. change (Reg.shl 8 (Reg.mask l_) (Reg.shift l_)) with (2 ^ 7).
  destruct (Z.eqb_spec (Z.land c (2 ^ 7)) 0) as [E|E]; cbn [negb].
  - apply (f_equal (fun x => Z.testbit x 7)) in E. rewrite Z.land_spec, Z.bits_0 in E.
    change (Z.testbit (2 ^ 7) 7) with true in E. by destruct (Z.testbit c 7).
  - destruct (Z.testbit c 7) eqn:Hb; [done|]. destruct E. apply Z.bits_inj'. intros j Hj.
    rewrite Z.land_spec, Z.bits_0, Z.pow2_bits_eqb by lia.
    destruct (Z.eqb_spec 7 j) as [<-|]; [by rewrite Hb|by rewrite andb_false_r].
Qed.

(** Entry [e] is there and not locked. *)
Definition usable_entry (h : Csr) (e : nat) : Prop :=
  (e < length (cfg h))%nat /\ Z.testbit (octet e h) 7 = false.

Lemma pmpconfig_get_returns i h : (i < 16)%nat -> exists v, pmpconfig_get i h = Ret v.
Proof. intros Hi. unfold pmpconfig_get. destruct (Nat.ltb_spec i 16); [by eexists|lia]. Qed.
Lemma pmpconfig_set_returns i v h : (i < 16)%nat -> exists h', pmpconfig_set i v h = Ret h'.
Proof. intros Hi. unfold pmpconfig_set. destruct (Nat.ltb_spec i 16); [by eexists|lia]. Qed.

Lemma from_le_bytes_ext h h' i :
  (forall e, (e / 4 = i)%nat -> octet e h' = octet e h) -> pmpconfig_get i h' = pmpconfig_get i h.
Proof.
  intros Ho. unfold pmpconfig_get. destruct (i <? 16)%nat; [|done]. do 2 f_equal.
  apply map_ext_in. intros k Hk. apply Ho. symmetry. apply (Nat.div_unique _ _ _ k); [|lia].
  cbn in Hk. lia.
Qed.

(** Probing turns a usable entry off and keeps everything else. *)
Definition probed (is_ : list nat) (h h' : Csr) : Prop :=
  csr_wf h' /\ same_rest h h' /\
  forall e, octet e h' = if decide (e ∈ is_) then Z.land (octet e h) 0xe7 else octet e h.

Lemma probe_entry_spec i h :
  csr_wf h -> (i < 64)%nat ->
  exists r h', probe_entry i h = Ret (r, h') /\
    (r = Ok tt <-> usable_entry h i) /\ (r = Ok tt -> probed [i] h h').
Proof.
  intros Hwf Hi. unfold probe_entry.
  assert (Hq : (i / 4 < 16)%nat) by (apply Nat.Div0.div_lt_upper_bound; lia).
  assert (Hm : (i mod 4 < 4)%nat) by (apply Nat.mod_upper_bound; lia).
  destruct (pmpconfig_get_returns (i / 4) h Hq) as [v Hv]. rewrite Hv. cbn [obind].
  set (sh := Z.of_nat (i mod 4) * 8).
  pose proof (byte_read _ _ _ i Hwf Hv eq_refl) as Hbyte.
  assert (Hoct : Z.land (Z.shiftr v sh) 255 = octet i h).
  { rewrite <- Hbyte. unfold byte, sh. by rewrite (Z.mul_comm 8). }
  rewrite Hoct, l_bit by (by apply octet_wf).
  destruct (Z.testbit (octet i h) 7) eqn:Hbit.
  { exists (Err tt), h. split; [done|]. split; [|done]. split; [done|]. intros [_ ?]. congruence. }
  destruct (pmpconfig_set_returns (i / 4) (Z.lxor v (Z.shiftl 7 sh)) h Hq) as [h1 Hh1].
  rewrite Hh1. cbn [obind].
  destruct (pmpconfig_set_spec _ _ _ _ Hwf Hh1) as (Hwf1 & Hs1 & Ho1).
  assert (Hoth : forall e, e <> i -> octet e h1 = octet e h).
  { intros e Hne. rewrite Ho1. destruct (decide _) as [(Hd & _)|]; [|done].
    rewrite byte_lxor, (byte_read _ _ _ e Hwf Hv Hd). unfold sh.
    destruct (probe_bytes (i mod 4) (e mod 4)) as [-> _]; [done|by apply Nat.mod_upper_bound|].
    rewrite decide_False; [rewrite Z.lxor_0_r; by apply octet_wf|]. intros Hmod. apply Hne.
    rewrite (Nat.div_mod_eq e 4), (Nat.div_mod_eq i 4). congruence. }
  destruct (pmpconfig_get_returns (i / 4) h1 Hq) as [v1 Hv1]. rewrite Hv1. cbn [obind].
  assert (Hlk : locked i h = false) by (unfold locked; by rewrite Hbit).
  destruct (decide (i < length (cfg h))%nat) as [Hlen|Hlen].
  2: { assert (Hsame : pmpconfig_get (i / 4) h1 = pmpconfig_get (i / 4) h).
       { apply from_le_bytes_ext. intros e _. destruct (decide (e = i)) as [->|]; [|by apply Hoth].
         rewrite Ho1, decide_False; [done|]. intros (_ & ? & _). done. }
       rewrite Hsame, Hv in Hv1. injection Hv1 as <-. rewrite Z.eqb_refl.
       exists (Err tt), h1. split; [done|]. split; [|done]. split; [done|]. by intros [? _]. }
  assert (Hi1 : octet i h1 = Z.land (Z.lxor (octet i h) 7) 0x9f).
  { rewrite Ho1, decide_True by done. rewrite byte_lxor, Hbyte. unfold sh.
    destruct (probe_bytes (i mod 4) (i mod 4)) as [-> _]; [done..|]. by rewrite decide_True. }
  destruct (Z.eqb_spec v v1) as [<-|Hne].
  { pose proof (byte_read _ _ _ i Hwf1 Hv1 eq_refl) as E. rewrite Hbyte, Hi1 in E.
    by destruct (octet_flip (octet i h) (octet_wf i h Hwf)). }
  destruct (pmpconfig_set_returns (i / 4) (Z.land v (Reg.bnot 32 (Z.shiftl 24 sh))) h1 Hq) as [h2 Hh2].
  rewrite Hh2. cbn [obind]. exists (Ok tt), h2. split; [done|]. split; [by split|]. intros _.
  destruct (pmpconfig_set_spec _ _ _ _ Hwf1 Hh2) as (Hwf2 & Hs2 & Ho2).
  split; [done|]. split; [by eapply same_rest_trans|]. intros e. rewrite Ho2.
  pose proof Hs1 as (_ & _ & Ems & ->).
  destruct (decide (e = i)) as [->|Hne'].
  - rewrite (decide_True (P := i ∈ [i])) by (by left).
    rewrite decide_True, byte_land, Hbyte.
    2: { split_and!; try done. unfold locked. rewrite Hi1, Z.land_spec, Z.lxor_spec, Hbit. done. }
    unfold sh. destruct (probe_bytes (i mod 4) (i mod 4)) as [_ ->]; [done..|].
    rewrite decide_True by done. rewrite <- Z.land_assoc. rewrite (Z.land_comm 0xe7), Z.land_assoc.
    by destruct (octet_wf i h Hwf) as [_ ->].
  - rewrite (decide_False (P := e ∈ [i])) by (by rewrite elem_of_cons, elem_of_nil; intros [?|?]).
    destruct (decide _) as [(Hd & _)|]; [|by apply Hoth].
    rewrite byte_land, (byte_read _ _ _ e Hwf Hv Hd). unfold sh.
    destruct (probe_bytes (i mod 4) (e mod 4)) as [_ ->]; [done|by apply Nat.mod_upper_bound|].
    rewrite decide_False; [rewrite octet_land255; by apply octet_wf|]. intros Hmod. apply Hne'.
    rewrite (Nat.div_mod_eq e 4), (Nat.div_mod_eq i 4). congruence.
Qed.

Lemma usable_probed is_ h h' e : probed is_ h h' -> usable_entry h' e <-> usable_entry h e.
Proof.
  intros (_ & (_ & _ & _ & El) & Ho). unfold usable_entry. rewrite El, Ho.
  destruct (decide (e ∈ is_)); [|done]. rewrite Z.land_spec. change (Z.testbit 0xe7 7) with true.
  by rewrite andb_true_r.
Qed.

(** The probe succeeds if all entries are there and none is locked, and then it
    turns them all off. *)
Lemma probe_spec is_ h :
  csr_wf h -> NoDup is_ -> (forall e, e ∈ is_ -> (e < 64)%nat) ->
  exists r h', probe is_ h = Ret (r, h') /\
    (r = Ok tt <-> forall e, e ∈ is_ -> usable_entry h e) /\ (r = Ok tt -> probed is_ h h').
Proof.
  revert h. induction is_ as [|i is_ IH]; intros h Hwf Hnd H64; cbn [probe].
  { exists (Ok tt), h. split; [done|]. split.
    - split; [|done]. intros _ e He. by apply elem_of_nil in He.
    - intros _. split; [done|]. split; [done|]. intros e. rewrite decide_False; [done|]. apply not_elem_of_nil. }
  apply NoDup_cons in Hnd as [Hi Hnd].
  destruct (probe_entry_spec i h Hwf) as (r1 & h1 & -> & Hr1 & Hp1); [apply H64; by left|]. cbn [obind].
  destruct r1 as [ [] | [] ].
  2: { exists (Err tt), h1. split; [done|]. split; [|done]. split; [done|]. intros Hall.
       assert (Hu : usable_entry h i) by (apply Hall; by left). apply Hr1 in Hu. done. }
  specialize (Hp1 eq_refl). destruct (IH h1) as (r2 & h2 & -> & Hr2 & Hp2);
    [apply Hp1|done|intros e He; apply H64; by right|].
  exists r2, h2. split; [done|]. split.
  - rewrite Hr2. split.
    + intros Hall e [-> | He]%elem_of_cons; [by apply Hr1|]. apply (usable_probed [i] h h1 e Hp1). by apply Hall.
    + intros Hall e He. apply (usable_probed [i] h h1 e Hp1). apply Hall. by right.
  - intros E. destruct (Hp2 E) as (Hwf2 & Hs2 & Ho2). destruct Hp1 as (Hwf1 & Hs1 & Ho1).
    split; [done|]. split; [by eapply same_rest_trans|]. intros e. rewrite Ho2, Ho1.
    destruct (decide (e = i)) as [->|Hne].
    + rewrite (decide_False (P := i ∈ is_)) by done. by rewrite !decide_True by (by left).
    + rewrite (decide_False (P := e ∈ [i])) by (by rewrite elem_of_cons, elem_of_nil; intros [?|?]).
      apply decide_ext. rewrite elem_of_cons. tauto.
Qed.

End PmpHwSpec.
