(* ===== verification/PmpEnforce.v ===== *)
(** What the RISC-V driver makes the hardware enforce (module [PmpEnforce]): the
    driver with many configurations and one PMP as a step relation, for every PMP
    that keeps the laws of [TORUserPMPEnforces], and these laws for the simple
    PMP. *)

From stdpp Require Import base numbers list vector relations.
From S2P Require Import Prelude Registers Mpu Pmp PmpSpec PmpHw PmpHwSpec.
Import Mpu Pmp PmpSpec PmpHw PmpHwSpec.
Local Open Scope Z_scope.

Module PmpEnforce.

(** * A PMP that enforces the regions it is given

    [ready p]: the PMP is set up; [loaded rs p]: the regions [rs] were written to
    it; [allows p a acc]: user mode may access address [a]; [reserved p a]: the
    address is kept from user mode whatever the regions say. *)
Class TORUserPMPEnforces (P : Type) (N : nat) `{!TORUserPMP P} := {
  ready : P -> Prop;
  loaded : list Tor -> P -> Prop;
  enabled : P -> Prop;
  allows : P -> Z -> Access -> Prop;
  reserved : P -> Z -> Prop;

  configure_loads : forall rs (p : P),
    ready p -> length rs = N -> Forall tor_ok rs ->
    exists p', configure_pmp rs p = Ret (Ok tt, p') /\ ready p' /\ loaded rs p';
  enable_keeps : forall p : P, ready p ->
    exists p', enable_user_pmp p = Ret (Ok tt, p') /\ ready p' /\ enabled p' /\
      forall rs, length rs = N -> loaded rs p -> loaded rs p';
  disable_keeps : forall p : P, ready p ->
    exists p', disable_user_pmp p = Ret p' /\ ready p' /\
      forall rs, length rs = N -> loaded rs p -> loaded rs p';
  enforces : forall rs (p : P) a acc,
    ready p -> enabled p -> length rs = N -> Forall tor_ok rs -> loaded rs p -> 0 <= a < U32 ->
    (allows p a acc <-> regions_allow rs a acc = true /\ ~ reserved p a);
}.

(** * All processes' configurations on one PMP *)

Record system (P : Type) := mkSystem { hw : PMPUserMPU P; configs : list PMPUserMPUConfig }.
Arguments mkSystem {P}.
Arguments hw {P}.
Arguments configs {P}.

Section system.
  Context {P : Type} {tor : TORUserPMP P} (N : nat) {enf : TORUserPMPEnforces P N}.
  Implicit Type s : system P.

(** The operations on one configuration. *)
Inductive modify (c c' : PMPUserMPUConfig) : Prop :=
  | modify_reset : c' = pmp_reset_config c -> modify c c'
  | modify_allocate u n m p r :
      p <> ReadWriteExecute -> u32_range u ->
      pmp_allocate_region u n m p c = Ret (r, c') -> modify c c'
  | modify_remove r o : pmp_remove_memory_region r c = Ret (o, c') -> modify c c'
  | modify_allocate_app u n m app kern p r :
      p <> ReadWriteExecute -> u32_range u -> 0 <= app -> 0 <= kern ->
      pmp_allocate_app_memory_region u n m app kern p c = Ret (r, c') -> modify c c'
  | modify_update start len ab kb p o :
      p <> ReadWriteExecute -> pmp_manages N c start len -> start <= ab -> kb <= start + len ->
      pmp_update_app_memory_region ab kb p c = Ret (o, c') -> modify c c'.

Inductive step : system P -> system P -> Prop :=
  | step_new h h' c cs :
      pmp_new_config N h = (Some c, h') -> step (mkSystem h cs) (mkSystem h' (cs ++ [c]))
  | step_modify h cs i c c' :
      cs !! i = Some c -> modify c c' -> step (mkSystem h cs) (mkSystem h (<[i := c']> cs))
  | step_configure h h' cs i c c' :
      cs !! i = Some c -> pmp_configure_mpu c h = Ret (c', h') ->
      step (mkSystem h cs) (mkSystem h' (<[i := c']> cs))
  | step_enable h h' cs :
      pmp_enable_app_mpu h = Ret h' -> step (mkSystem h cs) (mkSystem h' cs)
  | step_disable h h' cs :
      pmp_disable_app_mpu h = Ret h' -> step (mkSystem h cs) (mkSystem h' cs).

(** A PMP that was set up, with a new driver on it. *)
Definition initial s : Prop :=
  exists p, ready p /\ s = mkSystem (new p) [].

(** The configuration that the PMP was written for is in the PMP, unless it has
    been changed since. *)
Record inv s : Prop := mkInv {
  inv_ready : ready (pmp (hw s));
  inv_valid : forall i c, configs s !! i = Some c -> pmp_valid N c;
  inv_ids : forall i c, configs s !! i = Some c -> id c < config_count (hw s);
  inv_last : forall n, last_configured_for (hw s) = Some n -> n < config_count (hw s);
  inv_unique : forall i j c d, configs s !! i = Some c -> configs s !! j = Some d ->
    id c = id d -> i = j;
  inv_loaded : forall i c, configs s !! i = Some c ->
    last_configured_for (hw s) = Some (id c) -> is_dirty c = false -> loaded (regions c) (pmp (hw s));
}.

(** Every operation either leaves the configuration alone or marks it dirty. *)
Definition touched (c c' : PMPUserMPUConfig) : Prop :=
  c' = c \/ (id c' = id c /\ is_dirty c' = true).

Lemma allocate_app_refused u n m app kern p c c' :
  pmp_allocate_app_memory_region u n m app kern p c = Ret (None, c') -> c' = c.
Proof using.
  unfold pmp_allocate_app_memory_region. destruct (app_memory_region c); [by intros [= <-]|].
  destruct (free_region c); [|by intros [= <-] ]. intros H.
  do 5 (apply obind_Ret in H as (? & _ & H)). destruct (_ <? _); [by injection H|].
  apply obind_Ret in H as (o & _ & H). destruct o; [by injection H|].
  do 2 (apply obind_Ret in H as (? & _ & H)). done.
Qed.

Lemma pmp_allocate_app_touched u n m app kern p c r c' :
  pmp_allocate_app_memory_region u n m app kern p c = Ret (r, c') -> touched c c'.
Proof using.
  destruct r as [x|]; [|intros ->%allocate_app_refused; by left].
  unfold pmp_allocate_app_memory_region. destruct (app_memory_region c); [done|].
  destruct (free_region c); [|done]. intros H.
  do 5 (apply obind_Ret in H as (? & _ & H)). destruct (_ <? _); [done|].
  apply obind_Ret in H as (o & _ & H). destruct o; [done|].
  do 2 (apply obind_Ret in H as (? & _ & H)). injection H as _ <-. by right.
Qed.

Lemma pmp_update_touched ab kb p c o c' :
  pmp_update_app_memory_region ab kb p c = Ret (o, c') -> touched c c'.
Proof using.
  destruct o as [ [] | [] ]; [|intros ->%pmp_update_refused; by left].
  unfold pmp_update_app_memory_region. destruct (app_memory_region c) as [i|]; [|done].
  intros H. apply obind_Ret in H as (e & _ & H). destruct (_ <? _); [done|].
  do 2 (apply obind_Ret in H as (? & _ & H)). injection H as <-. by right.
Qed.

Lemma reset_valid c : pmp_valid N c -> pmp_valid N (pmp_reset_config c).
Proof using.
  intros [Hl _]. split; cbn [regions pmp_reset_config]; [by rewrite length_map|].
  apply Forall_fmap, Forall_true. by left.
Qed.

Lemma pmp_modify_spec c c' : pmp_valid N c -> modify c c' -> pmp_valid N c' /\ touched c c'.
Proof using.
  intros Hv [->|u n m p r Hp Hu H|r o H|u n m app kern p r Hp Hu Ha Hk H
            |start len ab kb p o Hp Hman H1 H2 H].
  - split; [by apply reset_valid|by right].
  - split; [by eapply allocate_region_pmp_valid|].
    destruct r as [reg|]; [|left; by eapply pmp_allocate_region_refused].
    apply pmp_allocate_region_sound in H as (? & ? & _ & _ & -> & _); [by right|done].
  - split; [by eapply remove_valid|]. apply pmp_remove_sound in H as [ [_ ->]|(_ & ? & ? & _ & _ & _ & _ & ->)];
      [by left|by right].
  - split; [|by eapply pmp_allocate_app_touched]. destruct r as [ [start len]|].
    + apply (pmp_allocate_app_sound N) in H as (_ & _ & _ & _ & [? _] & _); done.
    + by rewrite (allocate_app_refused _ _ _ _ _ _ _ _ H).
  - split; [|by eapply pmp_update_touched]. destruct o as [ [] | [] ].
    + by apply (pmp_update_sound N) with (start := start) (len := len) in H as ([? _] & _).
    + by rewrite (pmp_update_refused _ _ _ _ _ H).
Qed.

(** Writing a configuration puts its regions into the PMP. *)
Lemma pmp_configure_spec c h c' h' :
  ready (pmp h) -> pmp_valid N c ->
  (last_configured_for h = Some (id c) -> is_dirty c = false -> loaded (regions c) (pmp h)) ->
  pmp_configure_mpu c h = Ret (c', h') ->
  regions c' = regions c /\ id c' = id c /\ config_count h' = config_count h /\
  last_configured_for h' = Some (id c) /\ ready (pmp h') /\ loaded (regions c) (pmp h').
Proof using.
  intros Hr [Hl Hf] Hcoh. unfold pmp_configure_mpu.
  destruct (negb _ || is_dirty c) eqn:Hb; intros H.
  - destruct (configure_loads (regions c) (pmp h) Hr Hl Hf) as (p' & E & Hr' & Hld).
    rewrite E in H. cbn [obind unwrap] in H. by simplify_eq.
  - apply orb_false_iff in Hb as [Hid Hd]. apply negb_false_iff, bool_decide_eq_true in Hid.
    simplify_eq. split_and!; auto.
Qed.

Lemma pmp_inv_insert h cs i c c' :
  inv (mkSystem h cs) -> cs !! i = Some c -> pmp_valid N c' -> touched c c' ->
  inv (mkSystem h (<[i := c']> cs)).
Proof using.
  intros [H1 H2 H3 H4 H5 H6] Hi Hv Ht. cbn [hw configs] in *.
  assert (Hid : id c' = id c) by (by destruct Ht as [->|[] ]).
  split; cbn [hw configs]; [done| | |done| |].
  - intros j d [(<- & <- & _)|[_ ?] ]%list_lookup_insert_Some; eauto.
  - intros j d [(<- & <- & _)|[_ ?] ]%list_lookup_insert_Some; [rewrite Hid|]; eauto.
  - intros j k d e [(<- & <- & _)|[? ?] ]%list_lookup_insert_Some
      [(<- & <- & _)|[? ?] ]%list_lookup_insert_Some Hde; try done; eauto;
      rewrite ?Hid in Hde; eauto.
  - intros j d [(<- & <- & _)|[_ ?] ]%list_lookup_insert_Some; eauto.
    destruct Ht as [->|[_ ->] ]; eauto; done.
Qed.

Lemma inv_pmp h cs p' :
  inv (mkSystem h cs) -> ready p' ->
  (forall rs, length rs = N -> loaded rs (pmp h) -> loaded rs p') -> inv (mkSystem (set_pmp p' h) cs).
Proof using.
  intros [H1 H2 H3 H4 H5 H6] Hr Hk. split; cbn [hw configs set_pmp pmp config_count last_configured_for] in *;
    try done. intros i c Hi Hlast Hd. apply Hk; [by apply (H2 i)|]. by apply (H6 i).
Qed.

Lemma pmp_inv_step s s' : inv s -> step s s' -> inv s'.
Proof using.
  intros Hinv Hstep. destruct Hstep as [h h' c cs Hnew|h cs i c c' Hi Hmod|h h' cs i c c' Hi Hconf
                                       |h h' cs Hen|h h' cs Hdis].
  - destruct Hinv as [H1 H2 H3 H4 H5 H6]. cbn [hw configs] in *.
    unfold pmp_new_config in Hnew. destruct (_ <? _); simplify_eq.
    split; cbn [hw configs pmp config_count last_configured_for]; [done|..].
    + intros j d [?|[_ Hj] ]%lookup_app_Some; eauto. apply list_lookup_singleton_Some in Hj as [_ <-].
      split; cbn [regions]; [apply length_replicate|]. apply Forall_replicate. by left.
    + intros j d [?%H3|[_ Hj] ]%lookup_app_Some; [lia|].
      apply list_lookup_singleton_Some in Hj as [_ <-]. cbn. lia.
    + intros n ?%H4. lia.
    + intros j k d e [Hj|[? Hj] ]%lookup_app_Some [Hk|[? Hk] ]%lookup_app_Some Hde;
        eauto; try apply list_lookup_singleton_Some in Hj as [? <-];
        try apply list_lookup_singleton_Some in Hk as [? <-]; cbn in Hde;
        [apply H3 in Hj|apply H3 in Hk|]; lia.
    + intros j d [?|[_ Hj] ]%lookup_app_Some Hcfg; eauto.
      apply list_lookup_singleton_Some in Hj as [_ <-]. done.
  - destruct (pmp_modify_spec c c' (inv_valid _ Hinv i c Hi) Hmod). by eapply pmp_inv_insert.
  - pose proof Hinv as [H1 H2 H3 H4 H5 H6]. cbn [hw configs] in *.
    destruct (pmp_configure_spec c h c' h') as (Hr & Hid & Hcc & Hcf & Hrd & Hld); [done|eauto|eauto|done|].
    split; cbn [hw configs]; [done|..].
    + intros j d [(<- & <- & _)|[_ ?] ]%list_lookup_insert_Some; eauto.
      unfold pmp_valid. rewrite Hr. by apply (H2 i).
    + intros j d [(<- & <- & _)|[_ ?] ]%list_lookup_insert_Some; rewrite Hcc, ?Hid; eauto.
    + intros n. rewrite Hcf, Hcc. intros ?; simplify_eq. eauto.
    + intros j k d e [(<- & <- & _)|[? ?] ]%list_lookup_insert_Some
        [(<- & <- & _)|[? ?] ]%list_lookup_insert_Some Hde; try done; eauto;
        rewrite ?Hid in Hde; eauto.
    + intros j d [(<- & <- & _)|[Hne Hj] ]%list_lookup_insert_Some Hc _; [by rewrite Hr|].
      rewrite Hcf in Hc. simplify_eq. by destruct (Hne (H5 i j c d Hi Hj ltac:(done))).
  - destruct (enable_keeps (pmp h) (inv_ready _ Hinv)) as (p' & E & Hr & _ & Hk).
    unfold pmp_enable_app_mpu in Hen. rewrite E in Hen. cbn [obind unwrap] in Hen. simplify_eq.
    by apply inv_pmp.
  - destruct (disable_keeps (pmp h) (inv_ready _ Hinv)) as (p' & E & Hr & Hk).
    unfold pmp_disable_app_mpu in Hdis. rewrite E in Hdis. cbn [obind] in Hdis. simplify_eq.
    by apply inv_pmp.
Qed.

Lemma pmp_inv_reachable s s' : initial s -> rtc step s s' -> inv s'.
Proof using.
  intros (p & Hr & ->) Hs. assert (Hi : inv (mkSystem (new p) [])).
  { split; cbn [hw configs pmp new last_configured_for]; done. }
  induction Hs; [done|]. eauto using pmp_inv_step.
Qed.

(** After a switch to a configuration, the hardware decides as the regions of
    that configuration say. *)
Lemma switch_enforces s s' i c :
  initial s -> rtc step s s' -> configs s' !! i = Some c ->
  exists c' h1 h2, pmp_configure_mpu c (hw s') = Ret (c', h1) /\ pmp_enable_app_mpu h1 = Ret h2 /\
    enabled (pmp h2) /\
    forall a acc, 0 <= a < U32 ->
      (allows (pmp h2) a acc <-> regions_allow (regions c) a acc = true /\ ~ reserved (pmp h2) a).
Proof using.
  intros H0 Hs Hi. destruct (pmp_inv_reachable s s' H0 Hs) as [H1 H2 H3 H4 H5 H6].
  pose proof (H2 i c Hi) as [Hl Hf].
  assert (Hret : exists c' h1, pmp_configure_mpu c (hw s') = Ret (c', h1)).
  { unfold pmp_configure_mpu. destruct (_ || _); [|by eexists _, _].
    destruct (configure_loads (regions c) (pmp (hw s')) H1 Hl Hf) as (p' & -> & _). by eexists _, _. }
  destruct Hret as (c' & h1 & Hconf).
  destruct (pmp_configure_spec c (hw s') c' h1) as (_ & _ & _ & _ & Hrd & Hld); [done|done|eauto|done|].
  destruct (enable_keeps (pmp h1) Hrd) as (p' & E & Hr & Hen & Hk).
  exists c', h1, (set_pmp p' h1). split; [done|].
  split; [unfold pmp_enable_app_mpu; rewrite E; done|]. split; [done|].
  intros a acc Ha. apply enforces; auto.
Qed.

(** What the operations on the PMP keep holds in every reachable state. *)
Lemma reachable_keeps (Q : P -> Prop) s s' :
  (forall rs p p', ready p -> Q p -> length rs = N -> Forall tor_ok rs ->
     configure_pmp rs p = Ret (Ok tt, p') -> Q p') ->
  (forall p p', ready p -> Q p -> enable_user_pmp p = Ret (Ok tt, p') -> Q p') ->
  (forall p p', ready p -> Q p -> disable_user_pmp p = Ret p' -> Q p') ->
  inv s -> Q (pmp (hw s)) -> rtc step s s' -> inv s' /\ Q (pmp (hw s')).
Proof using.
  intros Hconf Hen Hdis Hinv HQ Hs. induction Hs as [|s s1 s' Hstep _ IH]; [done|].
  apply IH; [by eapply pmp_inv_step|]. clear IH. pose proof (inv_ready _ Hinv) as Hr.
  destruct Hstep as [h h' c cs Hnew|h cs i c c' Hi Hmod|h h' cs i c c' Hi Hc|h h' cs He|h h' cs Hd];
    cbn [hw] in *.
  - unfold pmp_new_config in Hnew. destruct (_ <? _); by simplify_eq.
  - done.
  - pose proof (inv_valid _ Hinv i c Hi) as [Hl Hf].
    unfold pmp_configure_mpu in Hc. destruct (_ || _); [|by simplify_eq].
    apply obind_Ret in Hc as ([r p'] & E & Hc). destruct r as [ []|]; cbn [unwrap obind] in Hc; [|done].
    simplify_eq. cbn. by apply (Hconf (regions c) (pmp h)).
  - unfold pmp_enable_app_mpu in He. apply obind_Ret in He as ([r p'] & E & He).
    destruct r as [ []|]; cbn [unwrap obind] in He; [|done]. simplify_eq. cbn. by apply (Hen (pmp h)).
  - unfold pmp_disable_app_mpu in Hd. apply obind_Ret in Hd as (p' & E & Hd). simplify_eq. cbn.
    by apply (Hdis (pmp h)).
Qed.

Lemma inv_new p : ready p -> inv (mkSystem (new p) []).
Proof using. intros Hr. split; cbn [hw configs pmp new last_configured_for]; done. Qed.

End system.

End PmpEnforce.
