(* ===== verification/PmpProtect.v ===== *)
(** The three PMPs of [PmpHw] enforce the regions they are given (module
    [PmpProtect]): instances of [TORUserPMPEnforces] for the simple PMP, the PMP
    with kernel memory protection and the ePMP in machine-mode lockdown, what
    their [new] functions establish, and what they let machine mode do. *)

From stdpp Require Import base numbers list vector relations.
From S2P Require Import Prelude Registers Mpu Pmp PmpSpec PmpHw PmpHwSpec PmpEnforce.
Import Mpu Pmp PmpSpec PmpHw PmpHwSpec PmpEnforce.
Local Open Scope Z_scope.

Module PmpProtect.

(** * Without lockdown *)

(** The first [N] places are open for user regions.  After them, either every
    entry is off ([None]), or every entry up to [d] is off and entry [d] is an
    unlocked rule over all memory that permits nothing ([Some d]). *)
Record pmp_ready (d : option nat) (N : nat) (h : Csr) : Prop := mkReady {
  ready_wf : csr_wf h;
  ready_open : open 0 N h;
  ready_mml : mml h = false;
  ready_off : forall e, (2 * N <= e)%nat -> (forall e', d = Some e' -> (e < e')%nat) ->
    mode (octet e h) = 0;
  ready_deny : forall e, d = Some e -> (2 * N <= e < length (cfg h))%nat /\
    octet e h = octet_of a_NAPOT r_CLEAR w_CLEAR x_CLEAR l_CLEAR /\ pmpaddr e h = 0x7fffffff;
}.

Lemma mode_off_no_match h a e : mode (octet e h) = 0 -> matches h a e = false.
Proof. unfold matches. by intros ->. Qed.

(** The entries after the user regions. *)
Lemma tail_match d N h a :
  pmp_ready d N h -> 0 <= a < U32 ->
  first_match h a (seq (2 * N) (length (cfg h) - 2 * N)) = d.
Proof.
  intros Hr Ha. destruct d as [d|].
  - destruct (ready_deny _ _ _ Hr d eq_refl) as (Hd & Ho & Hv).
    replace (length (cfg h) - 2 * N)%nat with ((d - 2 * N) + S (length (cfg h) - S d))%nat by lia.
    rewrite seq_app, first_match_app, first_match_none.
    + cbn [seq first_match]. replace (2 * N + (d - 2 * N))%nat with d by lia.
      rewrite all_match; [done|by rewrite Ho|done|done].
    + intros e He. apply elem_of_seq in He. apply mode_off_no_match, (ready_off _ _ _ Hr); [lia|].
      intros e' [= <-]. lia.
  - apply first_match_none. intros e He. apply elem_of_seq in He.
    apply mode_off_no_match, (ready_off _ _ _ Hr); [lia|done].
Qed.

(** The entry that decides about an address. *)
Lemma ready_matching d N h rs a :
  pmp_ready d N h -> length rs = N -> Forall tor_ok rs -> holds 0 rs h -> 0 <= a < U32 ->
  match region_at rs a with
  | Some r => exists e, matching h a = Some e /\ octet e h = t_cfg r
  | None => matching h a = d
  end.
Proof.
  intros Hr Hl Hf Hh Ha. destruct (ready_open _ _ _ Hr) as (Hlen & _). unfold matching.
  replace (length (cfg h)) with (2 * N + (length (cfg h) - 2 * N))%nat by (cbn in Hlen; lia).
  rewrite seq_app, first_match_app. cbn [Nat.add].
  pose proof (first_user 0 rs h a Hf Hh) as Hu. rewrite Hl in Hu.
  destruct (region_at rs a) as [r|].
  - destruct Hu as (e & E & Ho). change (2 * 0)%nat with 0%nat in E. rewrite E. by exists e.
  - change (2 * 0)%nat with 0%nat in Hu. rewrite Hu. by apply tail_match.
Qed.

Lemma ready_user d N h rs a acc :
  pmp_ready d N h -> length rs = N -> Forall tor_ok rs -> holds 0 rs h -> 0 <= a < U32 ->
  user_allows h a acc = regions_allow rs a acc.
Proof.
  intros Hr Hl Hf Hh Ha. rewrite regions_allow_at. unfold user_allows. rewrite (ready_mml _ _ _ Hr).
  pose proof (ready_matching d N h rs a Hr Hl Hf Hh Ha) as Hm.
  destruct (region_at rs a) as [r|]; [by destruct Hm as (e & -> & ->)|]. rewrite Hm.
  destruct d as [d|]; [|done]. destruct (ready_deny _ _ _ Hr d eq_refl) as (_ & -> & _). by destruct acc.
Qed.

Lemma ready_configure d N h rs :
  pmp_ready d N h -> length rs = N -> Forall tor_ok rs ->
  exists h', configure_loop 0 rs h = Ret h' /\ pmp_ready d N h' /\ holds 0 rs h' /\ programmed 0 rs h h'.
Proof.
  intros Hr Hl Hf.
  destruct (configure_loop_spec rs 0 h) as (h' & E & Hp);
    [apply Hr|done|rewrite Hl; apply Hr|].
  exists h'. split; [done|]. split; [|by split; [eapply programmed_holds|] ].
  pose proof Hp as (Hwf & Hs & Ho & Ha). pose proof Hs as (_ & Ems & Ec & _).
  assert (Hbeyond : forall e, (2 * N <= e)%nat -> octet e h' = octet e h /\ pmpaddr e h' = pmpaddr e h).
  { intros e He. split; [apply Ho|apply Ha]; rewrite ?length_map, Hl; lia. }
  split; [done|..].
  - eapply open_octets; [apply Hr|by apply tor_ok_users|done|done].
  - unfold mml. rewrite Ems. apply Hr.
  - intros e He Hd. destruct (Hbeyond e He) as [-> _]. by apply (ready_off _ _ _ Hr).
  - intros e Hd. destruct (ready_deny _ _ _ Hr e Hd) as (Hr1 & Hr2 & Hr3).
    destruct (Hbeyond e ltac:(lia)) as [-> ->]. by rewrite Ec.
Qed.

(** The two PMPs have the same operations on regions. *)
Definition plain_enforces (d : option nat) (N : nat) : @TORUserPMPEnforces Csr N simple_pmp.
Proof.
  refine (@Build_TORUserPMPEnforces Csr N simple_pmp (pmp_ready d N) (fun rs h => holds 0 rs h)
    (fun _ => True) (fun h a acc => user_allows h a acc = true) (fun _ _ => False) _ _ _ _);
    cbn [configure_pmp enable_user_pmp disable_user_pmp simple_pmp].
  - intros rs h Hr Hl Hf. destruct (ready_configure d N h rs Hr Hl Hf) as (h' & E & Hr' & Hh & _).
    exists h'. unfold simple_configure_pmp. by rewrite E.
  - intros h Hr. exists h. by split_and!.
  - intros h Hr. exists h. by split_and!.
  - intros rs h a acc Hr _ Hl Hf Hh Ha. rewrite (ready_user d N h rs) by done.
    tauto.
Defined.

Definition kernel_protection_enforces (d : nat) (N : nat)
  : @TORUserPMPEnforces Csr N kernel_protection_pmp := plain_enforces (Some d) N.

(** All entries are there, unlocked and off. *)
Definition blank (n : nat) (h : Csr) : Prop :=
  csr_wf h /\ length (cfg h) = n /\
  forall e, mode (octet e h) = 0 /\ Z.testbit (octet e h) 7 = false.

Lemma probe_blank n h :
  csr_wf h -> length (cfg h) = n -> (n <= 64)%nat ->
  exists r h', probe (seq 0 n) h = Ret (r, h') /\
    (r = Ok tt <-> forall e, (e < n)%nat -> Z.testbit (octet e h) 7 = false) /\
    (r = Ok tt -> blank n h' /\ mseccfg h' = mseccfg h /\ epmp h' = epmp h).
Proof.
  intros Hwf Hlen H64. destruct (probe_spec (seq 0 n) h Hwf) as (r & h' & -> & Hr & Hp).
  { apply NoDup_seq. }
  { intros e He%elem_of_seq. lia. }
  exists r, h'. split; [done|]. split.
  - rewrite Hr. unfold usable_entry. rewrite Hlen. split.
    + intros Hu e He. apply Hu. apply elem_of_seq. lia.
    + intros Hu e He%elem_of_seq. split; [lia|]. apply Hu. lia.
  - intros ->. destruct (Hp eq_refl) as (Hwf' & (_ & Eep & Ems & El) & Ho).
    assert (Hu : forall e, Z.testbit (octet e h) 7 = false).
    { intros e. destruct (decide (e < n)%nat) as [He|He].
      - apply (proj1 Hr eq_refl e). apply elem_of_seq. lia.
      - by rewrite octet_beyond by lia. }
    split; [|done]. split; [done|]. split; [congruence|].
    intros e. rewrite Ho. destruct (decide _) as [He|He].
    + split; [|by rewrite Z.land_spec, Hu]. unfold mode. rewrite Z.shiftr_land, <- Z.land_assoc.
      apply Z.land_0_r.
    + rewrite octet_beyond; [done|]. rewrite elem_of_seq in He. lia.
Qed.

(** What [SimplePMP::new] establishes, on hardware with exactly the entries it is
    told about. *)
Lemma simple_new_ready n N h :
  csr_wf h -> length (cfg h) = n -> (n <= 64)%nat -> (2 * N <= n)%nat -> mml h = false ->
  exists r h', simple_new n h = Ret (r, h') /\
    (r = Ok tt <-> forall e, (e < n)%nat -> Z.testbit (octet e h) 7 = false) /\
    (r = Ok tt -> pmp_ready None N h').
Proof.
  intros Hwf Hlen H64 HN Hmml. unfold simple_new.
  destruct (probe_blank n h Hwf Hlen H64) as (r & h' & -> & Hr & Hb).
  exists r, h'. split; [done|]. split; [done|]. intros E.
  destruct (Hb E) as ((Hwf' & Hlen' & Hblank) & Ems & _). split; try done.
  - split; [lia|]. split; [lia|]. split; [intros e _|apply unlocked_passable];
      unfold locked; by rewrite (proj2 (Hblank _)).
  - unfold mml. by rewrite Ems.
  - intros e _ _. apply Hblank.
Qed.

(** * Kernel regions *)

(** Entry [e] has been given octet [c] and address [v]. *)
Definition entry_written (e : nat) (c v : Z) (h h' : Csr) : Prop :=
  csr_wf h' /\ keeps_size h h' /\
  (forall e', octet e' h' = if decide (e' = e) then c else octet e' h) /\
  (forall e', pmpaddr e' h' = if decide (e' = e) then v else pmpaddr e' h).

Lemma byte_shl k m x :
  (k < 4)%nat -> (m < 4)%nat -> 0 <= x < 256 ->
  byte k (Reg.shl 32 x (Z.of_nat m * 8)) = if decide (k = m) then x else 0.
Proof.
  intros Hk Hm Hx. apply Z.bits_inj'. intros j Hj. rewrite pmp_byte_testbit, Reg.shl_testbit by lia.
  assert (Hhigh : forall i, 8 <= i -> Z.testbit x i = false).
  { intros i Hi. destruct (decide (x = 0)) as [->|]; [apply Z.bits_0|].
    apply Z.bits_above_log2; [lia|]. apply Z.lt_le_trans with 8; [|done]. apply Z.log2_lt_pow2; lia. }
  destruct (Z.ltb_spec j 8) as [Hj8|Hj8]; cbn [andb].
  2: { destruct (decide (k = m)); [by rewrite Hhigh|by rewrite Z.bits_0]. }
  destruct (Z.ltb_spec (j + 8 * Z.of_nat k) 32); [cbn [andb]|lia].
  destruct (decide (k = m)) as [->|Hne]; [f_equal; lia|]. rewrite Z.bits_0.
  destruct (Nat.lt_trichotomy k m) as [|[?|] ]; [|lia|].
  - apply Z.testbit_neg_r. lia.
  - apply Hhigh. lia.
Qed.

Lemma write_entry_spec e c v h :
  csr_wf h -> writable h e -> (e < 64)%nat -> octet_ok c ->
  passable h (S e) ->
  exists h', write_pmpaddr_pmpcfg e c v h = Ret h' /\ entry_written e c v h h'.
Proof.
  intros Hwf [Hlen Hlk] H64 Hc Hnext. unfold write_pmpaddr_pmpcfg, pmpaddr_set.
  destruct (Nat.ltb_spec e 64); [|lia]. cbn [obind]. unfold write_addr. rewrite Hlk, Hnext. cbn [orb].
  set (h1 := mkCsr (cfg h) (<[e := v]> (addr h)) (epmp h) (mseccfg h)).
  assert (Hs1 : keeps_size h h1) by (repeat split; cbn; by rewrite length_insert).
  assert (Hwf1 : csr_wf h1) by (by eapply csr_wf_addrs).
  assert (Hq : (e / 4 < 16)%nat) by (apply Nat.Div0.div_lt_upper_bound; lia).
  set (fv := Reg.fv_new _ _ _ _).
  assert (Hret : exists h', pmpconfig_modify (e / 4) fv h1 = Ret h').
  { unfold pmpconfig_modify. destruct (pmpconfig_get_returns (e / 4) h1 Hq) as [x ->].
    cbn [obind]. by apply pmpconfig_set_returns. }
  destruct Hret as (h' & Hh'). exists h'. split; [done|].
  destruct (pmpconfig_modify_spec _ _ _ _ Hwf1 Hh') as (Hwf' & Hs' & Ho).
  assert (Ev : from_be_bytes [0; 0; 0; c] = c) by (unfold from_be_bytes; cbn; lia).
  assert (Hm : (e mod 4 < 4)%nat) by (apply Nat.mod_upper_bound; lia).
  assert (Hmask : forall k, (k < 4)%nat -> byte k (Reg.fv_mask fv) = if decide (k = e mod 4)%nat then 255 else 0)
    by (intros k Hk; by apply byte_shl).
  assert (Hval : forall k, (k < 4)%nat -> byte k (Reg.fv_value fv) = if decide (k = e mod 4)%nat then c else 0).
  { intros k Hk. cbn [fv Reg.fv_new Reg.fv_value]. rewrite Ev, octet_land255 by done.
    apply byte_shl; [done|done|apply Hc]. }
  split; [done|]. split; [eapply keeps_size_trans; [exact Hs1|by apply same_rest_size]|]. split.
  - intros e'. rewrite Ho. change (octet e' h1) with (octet e' h).
    assert (Hm' : (e' mod 4 < 4)%nat) by (apply Nat.mod_upper_bound; lia).
    rewrite Hmask, Hval by done. destruct (decide (e' = e)) as [->|Hne].
    + rewrite !(decide_True (P := (e mod 4 = e mod 4)%nat)) by done.
      rewrite decide_True by done. rewrite octet_replaced; [done|by apply octet_wf|done].
    + destruct (decide (_ /\ _)) as [(Hd & _)|]; [|done].
      rewrite !(decide_False (P := (e' mod 4 = e mod 4)%nat)).
      { apply octet_kept. by apply octet_wf. }
      all: intros Hmod; apply Hne; rewrite (Nat.div_mod_eq e' 4), (Nat.div_mod_eq e 4); congruence.
  - intros e'. rewrite (pmpaddr_addr h1) by apply Hs'. unfold pmpaddr. cbn [addr h1].
    destruct Hwf as [Hl _]. destruct (decide (e' = e)) as [->|Hne]; [|by rewrite list_lookup_insert_ne].
    by rewrite list_lookup_insert_eq by lia.
Qed.

Lemma write_entry_fresh e c v h :
  csr_wf h -> (e < length (cfg h))%nat -> (e < 64)%nat -> octet_ok c ->
  Z.testbit (octet e h) 7 = false -> mode (octet (S e) h) <> 1 ->
  exists h', write_pmpaddr_pmpcfg e c v h = Ret h' /\ entry_written e c v h h'.
Proof.
  intros Hwf Hlen H64 Hc Hb Hm. apply write_entry_spec; try done.
  - split; [done|]. unfold locked. by rewrite Hb.
  - unfold passable. destruct (Z.eqb_spec (mode (octet (S e) h)) 1); [done|apply andb_false_r].
Qed.

(** The regions were made by [NAPOTRegionSpec::new] and [TORRegionSpec::new] and
    lie in the address space. *)
Definition napot_ok (r : NAPOTRegionSpec) : Prop :=
  napot_new (n_start r) (n_size r) = Some r /\ 0 <= n_start r /\ n_start r + n_size r <= U32.
Definition text_ok (t : TORRegionSpec) : Prop :=
  tor_new (s_start t) (s_end t) = Some t /\ u32_range (s_start t) /\ u32_range (s_end t).
Definition kernel_ok (k : KernelRegions) : Prop :=
  napot_ok (flash k) /\ napot_ok (ram k) /\ napot_ok (mmio k) /\ text_ok (kernel_text k).

Lemma napot_ok_addr r : napot_ok r -> exists v, napot_addr r = Ret v.
Proof.
  intros (Hr & H0 & HU). destruct (napot_addr_spec _ _ _ Hr H0 HU) as (k & m & _ & _ & _ & _ & E).
  by eexists.
Qed.

(** Looking an entry up after some entries were written. *)
Ltac entry :=
  repeat match goal with
  | H : entry_written _ _ _ ?h ?h' |- context [octet _ ?h'] =>
      rewrite (proj1 (proj2 (proj2 H)))
  | H : entry_written _ _ _ ?h ?h' |- context [pmpaddr _ ?h'] =>
      rewrite (proj2 (proj2 (proj2 H)))
  end;
  repeat first [rewrite decide_False by lia | rewrite decide_True by lia].
Ltac entry_len :=
  repeat match goal with
  | H : entry_written _ _ _ ?h ?h' |- context [length (cfg ?h')] =>
      rewrite (proj1 (proj2 (proj2 (proj1 (proj2 H)))))
  end.
Ltac write_entry e c v h h' H :=
  destruct (write_entry_fresh e c v h) as (h' & -> & H);
  [ first [assumption | match goal with H' : entry_written _ _ _ _ h |- _ => apply H' end]
  | entry_len; lia | lia | unfold octet_ok; split_and!; vm_compute; done | entry; first [solve [auto] | reflexivity]
  | entry; first [solve [auto] | vm_compute; discriminate] | cbn [obind] ].

Lemma kernel_protection_new_ready n N k h :
  csr_wf h -> length (cfg h) = n -> (n <= 64)%nat -> (2 * N + 7 <= n)%nat -> mml h = false ->
  kernel_ok k ->
  exists r h', kernel_protection_new n k h = Ret (r, h') /\
    (r = Ok tt <-> forall e, (e < n)%nat -> Z.testbit (octet e h) 7 = false) /\
    (r = Ok tt -> pmp_ready (Some (n - 7)%nat) N h' /\
       forall e, (e <= n - 7)%nat -> Z.testbit (octet e h') 7 = false).
Proof.
  intros Hwf Hlen H64 HN Hmml (Hfl & Hram & Hmm & Htx). unfold kernel_protection_new.
  destruct (probe_blank n h Hwf Hlen H64) as (r & h0 & -> & Hr & Hb). cbn [obind].
  destruct r as [ [] | [] ]; [|exists (Err tt), h0; done].
  destruct (Hb eq_refl) as ((Hwf0 & Hlen0 & Hblank) & Ems & _).
  assert (Hm0 : forall e, mode (octet e h0) <> 1) by (intros e; by rewrite (proj1 (Hblank e))).
  assert (Hb0 : forall e, Z.testbit (octet e h0) 7 = false) by (intros e; apply Hblank).
  destruct (napot_ok_addr _ Hmm) as [amm Emm]. destruct (napot_ok_addr _ Hram) as [aram Eram].
  destruct (napot_ok_addr _ Hfl) as [afl Efl].
  rewrite (sub_nat_ok n 2) by lia. cbn [obind]. rewrite Emm. cbn [obind].
  write_entry (n - 2)%nat (octet_of a_NAPOT r_SET w_SET x_CLEAR l_SET) amm h0 h1 H1.
  rewrite (sub_nat_ok n 3) by lia. cbn [obind]. rewrite Eram. cbn [obind].
  write_entry (n - 3)%nat (octet_of a_NAPOT r_SET w_SET x_CLEAR l_SET) aram h1 h2 H2.
  rewrite (sub_nat_ok n 6) by lia. cbn [obind].
  write_entry (n - 6)%nat (octet_of a_OFF r_CLEAR w_CLEAR x_CLEAR l_SET)
    (Z.shiftr (s_start (kernel_text k)) 2) h2 h3 H3.
  rewrite (sub_nat_ok n 5) by lia. cbn [obind].
  write_entry (n - 5)%nat (octet_of a_TOR r_SET w_CLEAR x_SET l_SET)
    (Z.shiftr (s_end (kernel_text k)) 2) h3 h4 H4.
  rewrite (sub_nat_ok n 4) by lia. cbn [obind]. rewrite Efl. cbn [obind].
  write_entry (n - 4)%nat (octet_of a_NAPOT r_SET w_CLEAR x_CLEAR l_SET) afl h4 h5 H5.
  rewrite (sub_nat_ok n 1) by lia. cbn [obind].
  write_entry (n - 1)%nat (octet_of a_NAPOT r_CLEAR w_CLEAR x_CLEAR l_SET) 0x7fffffff h5 h6 H6.
  rewrite (sub_nat_ok n 7) by lia. cbn [obind].
  write_entry (n - 7)%nat (octet_of a_NAPOT r_CLEAR w_CLEAR x_CLEAR l_CLEAR) 0x7fffffff h6 h7 H7.
  exists (Ok tt), h7. split; [done|]. split; [done|]. intros _.
  assert (Hl7 : length (cfg h7) = n) by (entry_len; done).
  split; [|intros e He; destruct (decide (e = n - 7)%nat) as [->|]; entry; [done|apply Hb0] ].
  split.
  - apply H7.
  - split; [lia|]. split; [lia|]. split; [intros e He; unfold locked; entry; by rewrite Hb0|].
    apply unlocked_passable. unfold locked.
    destruct (decide (2 * (0 + N) = n - 7)%nat) as [->|]; entry; [done|by rewrite Hb0].
  - unfold mml. destruct H7 as (_ & (_ & -> & _) & _), H6 as (_ & (_ & -> & _) & _),
      H5 as (_ & (_ & -> & _) & _), H4 as (_ & (_ & -> & _) & _), H3 as (_ & (_ & -> & _) & _),
      H2 as (_ & (_ & -> & _) & _), H1 as (_ & (_ & -> & _) & _). by rewrite Ems.
  - intros e He Hd. specialize (Hd _ eq_refl). entry. apply Hblank.
  - intros e [= <-]. split; [lia|]. entry. done.
Qed.

(** * Machine-mode lockdown *)

(** Writing the octets of the user regions. *)
Lemma enable_loop_spec cfgs i h :
  csr_wf h -> Forall user_cfg cfgs -> open i (length cfgs) h ->
  exists h', enable_loop i cfgs h = Ret h' /\ csr_wf h' /\ same_rest h h' /\ octets_set i cfgs h h'.
Proof.
  remember (length cfgs) as n eqn:En. revert cfgs i h En.
  induction n as [n IH] using lt_wf_ind. intros cfgs i h En Hwf Hu Hop.
  destruct cfgs as [|b1 cfgs].
  { exists h. by split_and!. }
  apply Forall_cons in Hu as [Hb1 Hu]. pose proof Hop as (_ & H64 & _).
  pose proof (Nat.div_mod_eq i 2) as Hi. cbn [length] in En. cbn [enable_loop].
  destruct (Nat.eqb_spec (i mod 2) 0) as [Heven|Hodd].
  - rewrite Heven, Nat.add_0_r in Hi. set (q := (i / 2)%nat) in *. clearbody q. subst i.
    destruct cfgs as [|b2 cfgs].
    + destruct (pmpconfig_modify q _ h) as [h1| |] eqn:Hmod;
        [|unfold pmpconfig_modify, pmpconfig_get, pmpconfig_set in Hmod;
          destruct (Nat.ltb_spec q 16); [done|lia]..].
      destruct (half_octets q b1 false h h1) as (Hwf1 & Hs1 & Ho1);
        [done|done|apply (open_writable (2 * q) n); [done|lia]|apply (open_writable (2 * q) n); [done|lia]|done|].
      rewrite Nat.add_0_r in Ho1. by exists h1.
    + apply Forall_cons in Hu as [Hb2 Hu]. cbn [length] in En.
      destruct (pmpconfig_set q _ h) as [h1| |] eqn:Hset;
        [|unfold pmpconfig_set in Hset; destruct (Nat.ltb_spec q 16); [done|lia]..].
      destruct (pair_octets q b1 b2 h h1) as (Hwf1 & Hs1 & Ho1);
        [done|done|done|intros k Hk; apply (open_writable (2 * q) n); [done|lia]|done|]. cbn [obind].
      destruct (IH (length cfgs) ltac:(lia) cfgs (2 * q + 2)%nat h1) as (h2 & E2 & Hwf2 & Hs2 & Ho2); try done.
      { apply (open_tail _ _ 2). replace (2 + length cfgs)%nat with n by lia.
        apply (open_octets _ _ (2 * q) [b1; b2] h); [done|by rewrite !Forall_cons|by apply same_rest_size|done]. }
      exists h2. split; [done|]. split; [done|]. split; [by eapply same_rest_trans|].
      by apply (octets_set_app _ [b1; b2] cfgs h h1 h2).
  - assert (Hm : (i mod 2 = 1)%nat) by (pose proof (Nat.mod_upper_bound i 2 ltac:(lia)); lia).
    rewrite Hm in Hi. set (q := (i / 2)%nat) in *. clearbody q. subst i.
    destruct (pmpconfig_modify q _ h) as [h1| |] eqn:Hmod;
      [|unfold pmpconfig_modify, pmpconfig_get, pmpconfig_set in Hmod;
        destruct (Nat.ltb_spec q 16); [done|lia]..].
    destruct (half_octets q b1 true h h1) as (Hwf1 & Hs1 & Ho1);
      [done|done|apply (open_writable (2 * q + 1) n); [done|lia]|apply (open_writable (2 * q + 1) n); [done|lia]|done|].
    cbn [obind].
    destruct (IH (length cfgs) ltac:(lia) cfgs (2 * q + 1 + 1)%nat h1) as (h2 & E2 & Hwf2 & Hs2 & Ho2); try done.
    { apply (open_tail _ _ 1). replace (1 + length cfgs)%nat with n by lia.
      apply (open_octets _ _ (2 * q + 1) [b1] h); [done|by rewrite !Forall_cons|by apply same_rest_size|done]. }
    exists h2. split; [done|]. split; [done|]. split; [by eapply same_rest_trans|].
    by apply (octets_set_app _ [b1] cfgs h h1 h2).
Qed.

(** Disabling is enabling with every region off. *)
Lemma disable_loop_enable n i h : disable_loop i n h = enable_loop i (replicate n OFF) h.
Proof.
  revert i h. induction n as [n IH] using lt_wf_ind. intros i h.
  destruct n as [|n]; [done|]. cbn [disable_loop replicate enable_loop].
  destruct (i mod 2 =? 0)%nat.
  - destruct n as [|n]; [done|]. cbn [replicate].
    destruct (pmpconfig_set _ _ _); cbn [obind]; [apply IH; lia|done..].
  - destruct (pmpconfig_modify _ _ _); cbn [obind]; [apply IH; lia|done..].
Qed.

(** The loop of [configure_pmp]. *)
Lemma mml_configure_loop_spec i rs n (shadow : vec TORUserPMPCFG n) h :
  csr_wf h -> length rs = n -> Forall tor_ok rs -> open (i + 1) n h ->
  exists shadow' h', mml_configure_loop i rs shadow h = Ret (Ok tt, shadow', h') /\
    vec_to_list shadow' = map t_cfg rs /\ csr_wf h' /\ cfg h' = cfg h /\ keeps_size h h' /\
    addrs_set (i + 1) rs h h'.
Proof.
  revert i rs h. induction shadow as [|b n shadow IH]; intros i rs h Hwf Hl Hf Hop.
  { destruct rs; [|done]. exists vnil, h. by split_and!. }
  destruct rs as [|r rs]; [done|]. apply Forall_cons in Hf as [Hr Hf]. cbn [mml_configure_loop].
  destruct (Z.eqb_spec (t_cfg r) (from_permissions ReadWriteExecute)) as [E|_].
  { exfalso. destruct (tor_ok_user r Hr) as [E'|(p & Hp & E')]; rewrite E' in E; [done|].
    destruct p; try done. }
  pose proof Hop as (_ & H64 & _).
  destruct (set_addrs_spec (i + 1) r h) as (h1 & E1 & Ec1 & Hs1 & Ha1);
    [done|apply (open_writable (i + 1) (S n)); [done|lia]|apply (open_writable (i + 1) (S n)); [done|lia]
    |apply (open_passable (i + 1) (S n)); [done|lia]|lia|].
  unfold TOR_REGIONS_OFFSET. replace ((i + 1) * 2)%nat with (2 * (i + 1))%nat by lia. rewrite E1. cbn [obind].
  destruct (IH (S i) rs h1) as (sh & h2 & E2 & Esh & Hwf2 & Ec2 & Hs2 & Ha2);
    [by eapply csr_wf_addrs|by injection Hl|done|..].
  { replace (S i + 1)%nat with (i + 1 + 1)%nat by lia. apply (open_tail _ _ 1). by eapply open_addrs. }
  rewrite E2. cbn [obind]. exists (vcons (t_cfg r) sh), h2. split; [done|].
  split; [cbn; by rewrite Esh|]. split; [done|]. split; [congruence|].
  split; [by eapply keeps_size_trans|].
  apply (addrs_set_app (i + 1) [r] rs h h1 h2); [done|]. cbn [length].
  by replace (i + 1 + 1)%nat with (S i + 1)%nat by lia.
Qed.

(** The ePMP is in lockdown: entry 1 is the kernel's text, the places from 1 on
    are open, and no entry after them permits user mode anything. *)
Record mml_ready {N : nat} (s : KernelProtectionMMLEPMP N) : Prop := mkMmlReady {
  mr_wf : csr_wf (csr s);
  mr_open : open 1 N (csr s);
  mr_mml : mml (csr s) = true;
  mr_shadow : Forall user_cfg (shadow_user_pmpcfgs s);
  mr_first : octet 0 (csr s) = octet_of a_OFF r_CLEAR w_CLEAR x_CLEAR l_SET;
  mr_text : octet 1 (csr s) = octet_of a_TOR r_SET w_CLEAR x_SET l_SET;
  mr_rest : forall e acc, (2 * (1 + N) <= e)%nat ->
    mode (octet e (csr s)) = 0 \/ lockdown_user (octet e (csr s)) acc = false;
}.

Definition mml_loaded {N} (rs : list Tor) (s : KernelProtectionMMLEPMP N) : Prop :=
  vec_to_list (shadow_user_pmpcfgs s) = map t_cfg rs /\
  addrs_set 1 rs (csr s) (csr s) /\
  (user_pmp_enabled s = true -> octets_set 1 (map t_cfg rs) (csr s) (csr s)).

Lemma octets_set_self i bs h h' : octets_set i bs h h' -> octets_set i bs h' h'.
Proof. intros [H _]. by split. Qed.
Lemma addrs_set_self i rs h h' : addrs_set i rs h h' -> addrs_set i rs h' h'.
Proof. intros [H _]. by split. Qed.

(** Writing the user octets keeps the PMP ready. *)
Lemma mml_ready_octets {N} (s : KernelProtectionMMLEPMP N) b (sh : vec TORUserPMPCFG N) bs h' :
  mml_ready s -> Forall user_cfg (vec_to_list sh) -> length bs = N -> Forall user_cfg bs ->
  csr_wf h' -> keeps_size (csr s) h' -> octets_set 1 bs (csr s) h' ->
  mml_ready (mkMML b sh h').
Proof.
  intros [W O M S F T R] Hsh Hl Hu Hwf Hs [Ho1 Ho2]. split; cbn [csr shadow_user_pmpcfgs]; try done.
  - by apply (open_octets _ _ 1 bs (csr s)).
  - destruct Hs as (_ & Ems & _). unfold mml. by rewrite Ems.
  - by rewrite Ho2 by lia.
  - by rewrite Ho2 by lia.
  - intros e acc He. rewrite Ho2 by lia. by apply R.
Qed.

(** The kernel's entries and the rest of the PMP stay as they are. *)
Definition kernel_frame (N : nat) (h h' : Csr) : Prop :=
  keeps_size h h' /\
  forall e, (e < 2 \/ 2 * (1 + N) <= e)%nat -> octet e h' = octet e h /\ pmpaddr e h' = pmpaddr e h.

Lemma kernel_frame_trans N h1 h2 h3 : kernel_frame N h1 h2 -> kernel_frame N h2 h3 -> kernel_frame N h1 h3.
Proof.
  intros [S1 F1] [S2 F2]. split; [by eapply keeps_size_trans|]. intros e He.
  destruct (F1 e He), (F2 e He). split; congruence.
Qed.

Lemma octets_frame N bs h h' :
  length bs = N -> same_rest h h' -> octets_set 1 bs h h' -> kernel_frame N h h'.
Proof.
  intros Hl Hs [_ Ho]. split; [by apply same_rest_size|]. intros e He.
  split; [apply Ho; lia|]. apply pmpaddr_addr, Hs.
Qed.

Lemma mml_enable_spec {N} (s : KernelProtectionMMLEPMP N) :
  mml_ready s ->
  exists h', mml_enable_user_pmp s = Ret (Ok tt, mkMML true (shadow_user_pmpcfgs s) h') /\
    mml_ready (mkMML true (shadow_user_pmpcfgs s) h') /\ addr h' = addr (csr s) /\
    octets_set 1 (shadow_user_pmpcfgs s) (csr s) h' /\ kernel_frame N (csr s) h'.
Proof.
  intros Hr. pose proof Hr as [W O M S F T R]. unfold mml_enable_user_pmp, TOR_REGIONS_OFFSET.
  destruct (enable_loop_spec (shadow_user_pmpcfgs s) 1 (csr s)) as (h' & E & Hwf' & Hs & Ho);
    [done|done|by rewrite length_vec_to_list|].
  exists h'. rewrite E. split; [done|]. split; [|split; [apply Hs|split; [done|] ] ].
  - eapply mml_ready_octets; try done; [by rewrite length_vec_to_list|by apply same_rest_size].
  - by eapply octets_frame; [apply length_vec_to_list|..].
Qed.

Lemma mml_loaded_enabled {N} rs (s : KernelProtectionMMLEPMP N) (sh : vec TORUserPMPCFG N) h' :
  vec_to_list sh = map t_cfg rs -> addrs_set 1 rs (csr s) (csr s) -> addr h' = addr (csr s) ->
  octets_set 1 sh (csr s) h' -> mml_loaded rs (mkMML true sh h').
Proof.
  intros Esh Ha Ea Ho. split; [done|]. cbn [csr user_pmp_enabled shadow_user_pmpcfgs]. split.
  - eapply addrs_set_self, addrs_set_after; [done|done].
  - intros _. rewrite <- Esh. by eapply octets_set_self.
Qed.

Lemma replicate_off_user n : Forall user_cfg (replicate n OFF).
Proof. apply Forall_replicate. apply user_off. Qed.

Lemma lockdown_user_region c acc : user_cfg c -> lockdown_user c acc = permits c acc.
Proof. intros [->|(p & _ & ->)]; [|destruct p]; by destruct acc. Qed.

Lemma mml_configure_spec {N} rs (s : KernelProtectionMMLEPMP N) :
  mml_ready s -> length rs = N -> Forall tor_ok rs ->
  exists s', mml_configure_pmp rs s = Ret (Ok tt, s') /\ mml_ready s' /\ mml_loaded rs s' /\
    kernel_frame N (csr s) (csr s').
Proof.
  intros Hr Hl Hf. pose proof Hr as [W O M S F T R]. unfold mml_configure_pmp.
  destruct (mml_configure_loop_spec 0 rs N (shadow_user_pmpcfgs s) (csr s)) as
    (sh & h1 & -> & Esh & Hwf1 & Ec1 & Hs1 & Ha1); [done..|]. cbn [obind].
  set (s1 := mkMML (user_pmp_enabled s) sh h1).
  assert (Hfr : kernel_frame N (csr s) h1).
  { split; [done|]. intros e He. split; [by apply octet_cfg|]. apply Ha1. lia. }
  assert (Hr1 : mml_ready s1).
  { split; cbn [s1 csr shadow_user_pmpcfgs]; rewrite ?(octet_cfg _ _ _ Ec1); try done.
    - by eapply open_addrs.
    - destruct Hs1 as (_ & Ems & _). unfold mml. by rewrite Ems.
    - rewrite Esh. by apply tor_ok_users.
    - intros e acc He. rewrite (octet_cfg _ _ _ Ec1). by apply R. }
  destruct (user_pmp_enabled s) eqn:Hen; cbn [s1 user_pmp_enabled].
  - destruct (mml_enable_spec s1 Hr1) as (h2 & E2 & Hr2 & Ea2 & Ho2 & Hfr2). fold s1. rewrite E2.
    eexists. split; [done|]. split; [done|]. split; [|by eapply kernel_frame_trans].
    apply (mml_loaded_enabled rs s1); try done. cbn. by eapply addrs_set_self.
  - exists s1. split; [done|]. split; [done|]. split; [|done]. split; [done|]. split; [|done].
    by eapply addrs_set_self.
Qed.

Lemma mml_disable_spec {N} (s : KernelProtectionMMLEPMP N) :
  mml_ready s ->
  exists h', mml_disable_user_pmp s = Ret (mkMML false (shadow_user_pmpcfgs s) h') /\
    mml_ready (mkMML false (shadow_user_pmpcfgs s) h') /\ addr h' = addr (csr s) /\
    octets_set 1 (replicate N OFF) (csr s) h' /\ kernel_frame N (csr s) h'.
Proof.
  intros Hr. pose proof Hr as [W O M S F T R]. unfold mml_disable_user_pmp, TOR_REGIONS_OFFSET.
  rewrite disable_loop_enable.
  destruct (enable_loop_spec (replicate N OFF) 1 (csr s)) as (h' & E & Hwf' & Hs & Ho);
    [done|apply replicate_off_user|by rewrite length_replicate|]. rewrite E. cbn [obind].
  exists h'. split; [done|]. split; [|split; [apply Hs|split; [done|] ] ].
  - apply (mml_ready_octets s false _ (replicate N OFF)); try done;
      [apply length_replicate|apply replicate_off_user|by apply same_rest_size].
  - by eapply octets_frame; [apply length_replicate|..].
Qed.

Definition mml_enforces (N : nat) : @TORUserPMPEnforces (KernelProtectionMMLEPMP N) N (mml_pmp N).
Proof.
  refine (@Build_TORUserPMPEnforces _ N (mml_pmp N) mml_ready mml_loaded
    (fun s => user_pmp_enabled s = true) (fun s a acc => user_allows (csr s) a acc = true)
    (fun s a => matches (csr s) a 1 = true) _ _ _ _);
    cbn [configure_pmp enable_user_pmp disable_user_pmp mml_pmp].
  - intros rs s Hr Hl Hf. destruct (mml_configure_spec rs s Hr Hl Hf) as (s' & E & Hr' & Hld & _).
    by exists s'.
  - intros s Hr. destruct (mml_enable_spec s Hr) as (h' & E & Hr' & Ea & Ho & _).
    eexists. split; [done|]. split; [done|]. split; [done|]. intros rs _ (Esh & Ha & _).
    by apply (mml_loaded_enabled rs s).
  - intros s Hr. destruct (mml_disable_spec s Hr) as (h' & E & Hr' & Ea & _).
    eexists. split; [done|]. split; [done|]. intros rs _ (Esh & Ha & _). split; [done|]. split; [|done].
    cbn. by eapply addrs_set_self, addrs_set_after.
  - intros rs s a acc [W O M S F T R] Hen Hl Hf (Esh & [Ha _] & Hoct) Hrng.
    destruct (Hoct Hen) as [Ho _].
    assert (Hh : holds 1 rs (csr s)).
    { intros j r Hj. destruct (Ho j (t_cfg r)) as [E1 E2]; [by rewrite list_lookup_fmap, Hj|].
      split; [done|]. split; [done|]. by apply Ha. }
    pose proof O as (Hlen & _). unfold user_allows, matching. rewrite M.
    replace (length (cfg (csr s))) with (2 + (2 * N + (length (cfg (csr s)) - 2 - 2 * N)))%nat by lia.
    rewrite !seq_app, !first_match_app. cbn [Nat.add seq first_match].
    rewrite mode_off_no_match by (by rewrite F). rewrite regions_allow_at.
    destruct (matches (csr s) a 1) eqn:Htext.
    { rewrite T. split; [by destruct acc|]. by intros [_ ?]. }
    pose proof (first_user 1 rs (csr s) a Hf Hh) as Hu. rewrite Hl in Hu. change (2 * 1)%nat with 2%nat in Hu.
    destruct (region_at rs a) as [r|] eqn:Hat.
    + destruct Hu as (e & -> & ->). apply region_at_elem in Hat as [Hin _].
      rewrite lockdown_user_region by (apply tor_ok_user; by apply (Forall_forall tor_ok rs)).
      split; [by intros ->|by intros [-> _] ].
    + rewrite Hu. cbv iota. split; [|by intros [? _] ]. intros Hm. exfalso.
      destruct (first_match (csr s) a _) as [e|] eqn:Hfm in Hm; [|done].
      apply first_match_Some in Hfm as [He%elem_of_seq Hmat].
      destruct (R e acc ltac:(lia)) as [Hoff|Hno]; [|congruence].
      rewrite mode_off_no_match in Hmat by done. done.
Defined.

(** ** The kernel's entries *)

(** [n] entries, of which those of the kernel are in place and those between the
    user regions and the kernel's are off. *)
Record kernel_entries (n N : nat) (k : KernelRegions) (h : Csr) : Prop := mkKernelEntries {
  ke_size : length (cfg h) = n /\ (2 * N + 5 <= n)%nat;
  ke_mseccfg : mseccfg h = 3;
  ke_first : octet 0 h = octet_of a_OFF r_CLEAR w_CLEAR x_CLEAR l_SET;
  ke_text : octet 1 h = octet_of a_TOR r_SET w_CLEAR x_SET l_SET /\
    pmpaddr 0 h = Z.shiftr (s_start (kernel_text k)) 2 /\ pmpaddr 1 h = Z.shiftr (s_end (kernel_text k)) 2;
  ke_off : forall e, (2 * (1 + N) <= e < n - 3)%nat -> mode (octet e h) = 0;
  ke_flash : octet (n - 3) h = octet_of a_NAPOT r_SET w_CLEAR x_CLEAR l_SET /\
    napot_addr (flash k) = Ret (pmpaddr (n - 3) h);
  ke_ram : octet (n - 2) h = octet_of a_NAPOT r_SET w_SET x_CLEAR l_SET /\
    napot_addr (ram k) = Ret (pmpaddr (n - 2) h);
  ke_mmio : octet (n - 1) h = octet_of a_NAPOT r_SET w_SET x_CLEAR l_SET /\
    napot_addr (mmio k) = Ret (pmpaddr (n - 1) h);
}.

Lemma kernel_entries_frame n N k h h' : kernel_entries n N k h -> kernel_frame N h h' -> kernel_entries n N k h'.
Proof.
  intros [ [E1 E2] E3 E4 E5 E6 E7 E8 E9] [ (_ & Ems & Ec & _) Hf].
  assert (Ho : forall e, (e < 2 \/ 2 * (1 + N) <= e)%nat -> octet e h' = octet e h) by (intros; by apply Hf).
  assert (Ha : forall e, (e < 2 \/ 2 * (1 + N) <= e)%nat -> pmpaddr e h' = pmpaddr e h) by (intros; by apply Hf).
  split.
  - split; [congruence|done].
  - congruence.
  - by rewrite Ho by lia.
  - by rewrite Ho, !Ha by lia.
  - intros e He. rewrite Ho by lia. by apply E6.
  - by rewrite Ho, Ha by lia.
  - by rewrite Ho, Ha by lia.
  - by rewrite Ho, Ha by lia.
Qed.

Lemma mml_new_ready n N k h :
  csr_wf h -> length (cfg h) = n -> (n <= 64)%nat -> (2 * N + 5 <= n)%nat -> kernel_ok k ->
  exists r h', mml_new n N k h = Ret (r, h') /\
    (r <> Err tt -> forall e, (e < n)%nat -> Z.testbit (octet e h) 7 = false) /\
    (forall s, r = Ok s -> csr s = h' /\ user_pmp_enabled s = false /\ mml_ready s /\
       kernel_entries n N k h' /\ forall e, (2 <= e < 2 * (1 + N))%nat -> mode (octet e h') = 0).
Proof.
  intros Hwf Hlen H64 HN (Hfl & Hram & Hmm & Htx). unfold mml_new.
  destruct (probe_blank n h Hwf Hlen H64) as (r & h0 & -> & Hr & Hb). cbn [obind].
  destruct r as [ [] | [] ]; [|exists (Err tt), h0; done].
  destruct (Hb eq_refl) as ((Hwf0 & Hlen0 & Hblank) & Ems & _).
  assert (Hm0 : forall e, mode (octet e h0) <> 1) by (intros e; by rewrite (proj1 (Hblank e))).
  assert (Hb0 : forall e, Z.testbit (octet e h0) 7 = false) by (intros e; apply Hblank).
  destruct (napot_ok_addr _ Hmm) as [amm Emm]. destruct (napot_ok_addr _ Hram) as [aram Eram].
  destruct (napot_ok_addr _ Hfl) as [afl Efl].
  write_entry 0%nat (octet_of a_OFF r_CLEAR w_CLEAR x_CLEAR l_SET)
    (Z.shiftr (s_start (kernel_text k)) 2) h0 h1 H1.
  write_entry 1%nat (octet_of a_TOR r_SET w_CLEAR x_SET l_SET)
    (Z.shiftr (s_end (kernel_text k)) 2) h1 h2 H2.
  rewrite (sub_nat_ok n 1) by lia. cbn [obind]. rewrite Emm. cbn [obind].
  write_entry (n - 1)%nat (octet_of a_NAPOT r_SET w_SET x_CLEAR l_SET) amm h2 h3 H3.
  rewrite (sub_nat_ok n 2) by lia. cbn [obind]. rewrite Eram. cbn [obind].
  write_entry (n - 2)%nat (octet_of a_NAPOT r_SET w_SET x_CLEAR l_SET) aram h3 h4 H4.
  rewrite (sub_nat_ok n 3) by lia. cbn [obind]. rewrite Efl. cbn [obind].
  write_entry (n - 3)%nat (octet_of a_NAPOT r_SET w_CLEAR x_CLEAR l_SET) afl h4 h5 H5.
  set (h6 := write_mseccfg 3 h5).
  assert (Ec : cfg h6 = cfg h5) by (unfold h6, write_mseccfg; by destruct (epmp h5)).
  assert (Ea : addr h6 = addr h5) by (unfold h6, write_mseccfg; by destruct (epmp h5)).
  destruct (Z.eqb_spec (mseccfg h6) 3) as [E3|]; cbn [negb].
  2: { exists (Err tt), h6. done. }
  exists (Ok (mkMML false (vreplicate N OFF) h6)), h6. split; [done|].
  split; [intros _; by apply Hr|]. intros s [= <-]. split; [done|]. split; [done|].
  assert (Hl6 : length (cfg h6) = n) by (rewrite Ec; entry_len; done).
  assert (Ho6 : forall e, octet e h6 = octet e h5) by (intros e; by apply octet_cfg).
  assert (Ha6 : forall e, pmpaddr e h6 = pmpaddr e h5) by (intros e; by apply pmpaddr_addr).
  assert (Hke : kernel_entries n N k h6).
  { split; [done|done|..]; rewrite ?Ho6, ?Ha6; try (entry; done).
    intros e He. rewrite Ho6. entry. apply Hblank. }
  assert (Hblank6 : forall e, (2 <= e < 2 * (1 + N))%nat -> octet e h6 = octet e h0)
    by (intros e He; rewrite Ho6; entry; done).
  split; [|split; [done|] ].
  2: { intros e He. rewrite Hblank6 by done. apply Hblank. }
  pose proof Hke as [_ _ Hf Ht Hoff Hfl' Hram' Hmm'].
  split; cbn [csr shadow_user_pmpcfgs]; [|..|done| |].
  - destruct H5 as ([Hl5 Hf5] & _). split; [congruence|by rewrite Ec].
  - split; [lia|]. split; [lia|]. split.
    + intros e He. unfold locked. rewrite Hblank6 by lia. by rewrite Hb0.
    + unfold passable. destruct (decide (2 * (1 + N) = n - 3)%nat) as [->|].
      * destruct Hfl' as [-> _]. apply andb_false_r.
      * rewrite Hoff by lia. apply andb_false_r.
  - unfold mml. by rewrite E3.
  - rewrite vec_to_list_replicate. apply replicate_off_user.
  - apply Ht.
  - intros e acc He. destruct (decide (e < n - 3)%nat) as [|Hge]; [left; apply Hoff; lia|].
    destruct (decide (e < n)%nat); [right|left; by rewrite octet_beyond by lia].
    assert (Hc : (e = n - 3 \/ e = n - 2 \/ e = n - 1)%nat) by lia.
    destruct Hc as [-> | [-> | ->] ]; [destruct Hfl' as [-> _]|destruct Hram' as [-> _]|destruct Hmm' as [-> _] ];
      by destruct acc.
Qed.

(** What machine mode may do: execute and read the text, read flash, and read and
    write RAM and devices. *)
Definition in_napot (r : NAPOTRegionSpec) (a : Z) : bool :=
  (n_start r <=? a) && (a <? n_start r + n_size r).
Definition kernel_allows (k : KernelRegions) (a : Z) (acc : Access) : bool :=
  if (s_start (kernel_text k) <=? a) && (a <? s_end (kernel_text k)) then
    match acc with Write => false | _ => true end
  else if in_napot (flash k) a then match acc with Read => true | _ => false end
  else if in_napot (ram k) a || in_napot (mmio k) a then match acc with Execute => false | _ => true end
  else false.

Lemma tor_new_spec s e t : tor_new s e = Some t -> (4 | s) /\ (4 | e) /\ s + 4 <= e.
Proof.
  unfold tor_new. destruct (Z.eqb_spec (s mod 4) 0) as [Hs|]; [|done].
  destruct (Z.eqb_spec (e mod 4) 0) as [He|]; [|done]. cbn [negb orb].
  destruct (Z.ltb_spec (e - s) 4); [done|]. intros _.
  split; [by apply Z.mod_divide|]. split; [by apply Z.mod_divide|lia].
Qed.

Lemma kernel_entries_machine n N k h a acc :
  kernel_entries n N k h -> kernel_ok k ->
  (forall e, (2 <= e < 2 * (1 + N))%nat -> mode (octet e h) = 0) ->
  machine_allows h a acc = kernel_allows k a acc.
Proof.
  intros [ [El HN] E3 E0 (E1 & A0 & A1) Hoff (Of & Af) (Or & Ar) (Om & Am)] (Hfl & Hram & Hmm & Htx) Huser.
  unfold machine_allows, matching, mml, mmwp. rewrite E3.
  replace (length (cfg h)) with (2 + ((n - 5) + 3))%nat by lia.
  rewrite !seq_app, !first_match_app. cbn [Nat.add seq first_match].
  rewrite (mode_off_no_match h a 0) by (by rewrite E0).
  assert (Ht : matches h a 1 = (s_start (kernel_text k) <=? a) && (a <? s_end (kernel_text k))).
  { unfold matches. rewrite E1. change (mode _) with 1. cbv iota. rewrite A0, A1.
    destruct Htx as ((D0 & D1 & _)%tor_new_spec & _ & _). by rewrite !shiftr_times4. }
  rewrite Ht. unfold kernel_allows. destruct ((_ <=? _) && _); [by rewrite E1; destruct acc|].
  rewrite first_match_none.
  2: { intros e He%elem_of_seq. apply mode_off_no_match.
       destruct (decide (e < 2 * (1 + N))%nat); [apply Huser; lia|apply Hoff; lia]. }
  replace (S (S (n - 5))) with (n - 3)%nat by lia. replace (S (n - 3)) with (n - 2)%nat by lia.
  replace (S (n - 2)) with (n - 1)%nat by lia.
  destruct Hfl as (F1 & F2 & F3), Hram as (R1 & R2 & R3), Hmm as (M1 & M2 & M3).
  rewrite (napot_match _ _ _ _ h (n - 3) a F1 F2 F3 Af) by (by rewrite ?Of).
  rewrite (napot_match _ _ _ _ h (n - 2) a R1 R2 R3 Ar) by (by rewrite ?Or).
  rewrite (napot_match _ _ _ _ h (n - 1) a M1 M2 M3 Am) by (by rewrite ?Om).
  fold (in_napot (flash k) a) (in_napot (ram k) a) (in_napot (mmio k) a).
  destruct (in_napot (flash k) a); [by rewrite Of; destruct acc|].
  destruct (in_napot (ram k) a); [by rewrite Or; destruct acc|].
  destruct (in_napot (mmio k) a); [by rewrite Om; destruct acc|]. by destruct acc.
Qed.

End PmpProtect.
