(* ===== verification/RiscvPmp.v ===== *)
(** The RISC-V memory protection as a whole (module [RiscvPmp]): the driver of
    [Pmp] on the PMPs of [PmpHw], from the functions that set the hardware up to
    what it lets user mode and machine mode do after any sequence of operations;
    and the laws under which the theorems about processes and the kernel loop
    apply to it. *)

From stdpp Require Import base numbers list vector relations.
From S2P Require Import Prelude Registers Mpu Pmp PmpSpec PmpHw PmpHwSpec PmpEnforce PmpProtect.
Import Mpu Pmp PmpSpec PmpHw PmpHwSpec PmpEnforce PmpProtect.
Local Open Scope Z_scope.

Module RiscvPmp.

(** * The interface of the kernel *)

Lemma pmpaddr_set_returns e v h : (e < 64)%nat -> returns (pmpaddr_set e v h).
Proof. intros He. unfold pmpaddr_set. destruct (Nat.ltb_spec e 64); [by eexists|lia]. Qed.
Lemma set_addrs_returns e r h : (e + 1 < 64)%nat -> returns (set_addrs e r h).
Proof.
  intros He. unfold set_addrs. destruct (is_off r); [by eexists|].
  destruct (pmpaddr_set_returns e (Z.shiftr (t_start r) 2) h) as [h1 ->]; [lia|]. cbn [obind].
  by apply pmpaddr_set_returns.
Qed.
Lemma modify_returns i fv h : (i < 16)%nat -> returns (pmpconfig_modify i fv h).
Proof.
  intros Hi. unfold pmpconfig_modify. destruct (pmpconfig_get_returns i h Hi) as [v ->]. cbn [obind].
  by apply pmpconfig_set_returns.
Qed.

Lemma configure_loop_returns rs i h : (2 * (i + length rs) <= 64)%nat -> returns (configure_loop i rs h).
Proof.
  remember (length rs) as n eqn:En. revert rs i h En.
  induction n as [n IH] using lt_wf_ind. intros rs i h En Hle.
  assert (Hi : (n <> 0 -> i / 2 < 16)%nat) by (intros; apply Nat.Div0.div_lt_upper_bound; lia).
  destruct rs as [|r1 [|r2 rs] ]; cbn [length] in En; cbn [configure_loop]; [by eexists|..].
  - destruct (modify_returns (i / 2) (Reg.fv_new 32 0xffff 0 (from_be_bytes [0; 0; t_cfg r1; OFF])) h)
      as [h1 ->]; [apply Hi; lia|]. cbn [obind]. apply set_addrs_returns. lia.
  - destruct (pmpconfig_set_returns (i / 2) (from_be_bytes [t_cfg r2; OFF; t_cfg r1; OFF]) h)
      as [h1 ->]; [apply Hi; lia|]. cbn [obind].
    destruct (set_addrs_returns (i * 2) r1 h1) as [h2 ->]; [lia|]. cbn [obind].
    destruct (set_addrs_returns (i * 2 + 2) r2 h2) as [h3 ->]; [lia|]. cbn [obind].
    apply (IH (length rs)); lia || done.
Qed.

Definition simple_laws (N : nat) (HN : (2 * N <= 64)%nat) : @TORUserPMPLaws Csr N simple_pmp.
Proof.
  refine (@Build_TORUserPMPLaws Csr N simple_pmp (fun _ => True) _ _);
    cbn [configure_pmp enable_user_pmp simple_pmp]; [|done].
  intros rs h Hl _. destruct (configure_loop_returns rs 0 h) as [h' E]; [lia|].
  exists h'. unfold simple_configure_pmp. by rewrite E.
Defined.

Lemma enable_loop_returns cfgs i h : (2 * (i + length cfgs) <= 64)%nat -> returns (enable_loop i cfgs h).
Proof.
  remember (length cfgs) as n eqn:En. revert cfgs i h En.
  induction n as [n IH] using lt_wf_ind. intros cfgs i h En Hle.
  assert (Hi : (n <> 0 -> i / 2 < 16)%nat) by (intros; apply Nat.Div0.div_lt_upper_bound; lia).
  destruct cfgs as [|b1 cfgs]; cbn [length] in En; cbn [enable_loop]; [by eexists|].
  destruct (i mod 2 =? 0)%nat; [destruct cfgs as [|b2 cfgs]; cbn [length] in En|].
  - apply modify_returns, Hi. lia.
  - destruct (pmpconfig_set_returns (i / 2) (from_be_bytes [b2; OFF; b1; OFF]) h) as [h1 ->]; [apply Hi; lia|].
    cbn [obind]. apply (IH (length cfgs)); lia || done.
  - destruct (modify_returns (i / 2) (Reg.fv_new 32 0xffff 16 (from_be_bytes [0; 0; b1; OFF])) h)
      as [h1 ->]; [apply Hi; lia|]. cbn [obind]. apply (IH (length cfgs)); lia || done.
Qed.

Lemma mml_configure_loop_returns i rs n (shadow : vec TORUserPMPCFG n) h :
  length rs = n -> Forall tor_ok rs -> (2 * (i + 1 + n) <= 64)%nat ->
  exists shadow' h', mml_configure_loop i rs shadow h = Ret (Ok tt, shadow', h').
Proof.
  revert i rs h. induction shadow as [|b n shadow IH]; intros i rs h Hl Hf Hle.
  { destruct rs; by exists vnil, h. }
  destruct rs as [|r rs]; [done|]. apply Forall_cons in Hf as [Hr Hf]. cbn [mml_configure_loop].
  destruct (Z.eqb_spec (t_cfg r) (from_permissions ReadWriteExecute)) as [E|_].
  { exfalso. destruct (tor_ok_user r Hr) as [E'|(p & Hp & E')]; rewrite E' in E; [done|].
    destruct p; try done. }
  destruct (set_addrs_returns ((i + TOR_REGIONS_OFFSET) * 2) r h) as [h1 ->];
    [unfold TOR_REGIONS_OFFSET; lia|]. cbn [obind].
  destruct (IH (S i) rs h1) as (sh & h2 & ->); [by injection Hl|done|lia|]. cbn [obind]. by eexists _, _.
Qed.

Definition mml_laws (N : nat) (HN : (2 * N + 2 <= 64)%nat)
  : @TORUserPMPLaws (KernelProtectionMMLEPMP N) N (mml_pmp N).
Proof.
  refine (@Build_TORUserPMPLaws _ N (mml_pmp N) (fun s => user_pmp_enabled s = true) _ _);
    cbn [configure_pmp enable_user_pmp mml_pmp].
  - intros rs s Hl Hf. unfold mml_configure_pmp.
    destruct (mml_configure_loop_returns 0 rs N (shadow_user_pmpcfgs s) (csr s)) as (sh & h1 & ->);
      [done|done|lia|]. cbn [obind user_pmp_enabled].
    destruct (user_pmp_enabled s); [|by eexists]. unfold mml_enable_user_pmp. cbn [csr shadow_user_pmpcfgs].
    destruct (enable_loop_returns sh TOR_REGIONS_OFFSET h1) as [h2 ->];
      [rewrite length_vec_to_list; unfold TOR_REGIONS_OFFSET; lia|]. by eexists.
  - intros s s'. unfold mml_enable_user_pmp. intros H. apply obind_Ret in H as (h' & _ & H).
    by simplify_eq.
Defined.

(** * App memory *)

(** C24: the RISC-V driver isolates app memory.  When it hands out a block for a
    process, the block lies in the offered memory and has room for what was asked;
    the initial app memory is exposed and the kernel's end of the block is not;
    and after any successful move of the app break, exactly the bytes of the block
    below the break, rounded up to a four-byte boundary, are exposed, none of them
    at or above the kernel break, whatever other regions the configuration has. *)
Theorem pmp_app_memory_isolates N u n m app kern c start len c1 :
  pmp_valid N c -> u32_range u -> 0 <= app -> 0 <= kern ->
  pmp_allocate_app_memory_region u n m app kern ReadWriteOnly c = Ret (Some (start, len), c1) ->
  u <= start < u + 4 /\ start + len <= u + n /\ m <= len /\ app + kern <= len /\
  (forall a, start <= a < start + app -> pmp_exposed c1 a) /\
  (forall a, start + len - kern <= a < start + len -> ~ pmp_exposed c1 a) /\
  forall ab kb c2, start <= ab -> kb <= start + len ->
    pmp_update_app_memory_region ab kb ReadWriteOnly c1 = Ret (Ok tt, c2) ->
    (forall a, start <= a < start + len -> (pmp_exposed c2 a <-> a < 4 * ((ab + 3) / 4))) /\
    (forall a, kb <= a < start + len -> ~ pmp_exposed c2 a).
Proof.
  intros Hv Hu Ha Hk Hrun.
  apply (pmp_allocate_app_sound N) in Hrun as (H1 & H2 & H3 & H4 & Hman & Hx & Hn & _); [|done..].
  do 6 (split; [done|]). intros ab kb c2 Hab Hkb Hup.
  apply (pmp_update_sound N) with (start := start) (len := len) in Hup as (_ & _ & Hex & _ & Hno & _); [|done..].
  split; [|done]. intros a Hin. rewrite (Hex a Hin).
  pose proof (Z.div_mod (ab + 3) 4). pose proof (Z.mod_pos_bound (ab + 3) 4).
  pose proof (Z.div_mod a 4). pose proof (Z.mod_pos_bound a 4). lia.
Qed.

Definition demo_config : PMPUserMPUConfig := mkConfig 1 true (replicate 4 tor_off) None.
Definition demo_csr : Csr := mkCsr (replicate 16 0) (replicate 16 0) true 0.

Lemma demo_valid : pmp_valid 4 demo_config.
Proof. split; [done|]. apply Forall_replicate. by left. Qed.

Lemma pmp_app_memory_isolates_witness :
  exists c1, pmp_allocate_app_memory_region 0x80001001 65536 4096 1000 900 ReadWriteOnly demo_config
      = Ret (Some (0x80001004, 4096), c1) /\
    (forall a, 0x80001004 <= a < 0x80001004 + 1000 -> pmp_exposed c1 a) /\
    exists c2, pmp_update_app_memory_region 0x80001801 0x80001900 ReadWriteOnly c1 = Ret (Ok tt, c2) /\
      (forall a, 0x80001004 <= a < 0x80001004 + 4096 -> (pmp_exposed c2 a <-> a < 0x80001804)).
Proof.
  eexists. split; [vm_compute; reflexivity|].
  match goal with |- context [pmp_exposed ?c1 _] =>
    destruct (pmp_app_memory_isolates 4 0x80001001 65536 4096 1000 900 demo_config 0x80001004 4096 c1)
      as (_ & _ & _ & _ & Hx & _ & Hup) end;
    [exact demo_valid|split; [lia|reflexivity]|lia|lia|vm_compute; reflexivity|].
  split; [exact Hx|]. eexists. split; [vm_compute; reflexivity|].
  destruct (Hup 0x80001801 0x80001900 _ ltac:(lia) ltac:(lia) ltac:(vm_compute; reflexivity)) as [Hex _].
  exact Hex.
Defined.

(** * The simple PMP *)

Abbreviation simple_step := (@step Csr simple_pmp).

(** C21: the simple PMP enforces configurations exactly.  After [SimplePMP::new]
    succeeded on hardware with the given entries, and after any interleaving of
    creating and changing configurations, writing them to the hardware and
    switching protection on and off, a switch to a configuration does not panic
    and leaves the PMP such that a user-mode access is allowed if and only if the
    first region of that configuration that contains the address permits it; in
    particular skipping the write for a configuration that has not changed is
    sound. *)
Theorem simple_pmp_enforces n N h h0 s' i c :
  csr_wf h -> length (cfg h) = n -> (n <= 64)%nat -> (2 * N <= n)%nat -> mml h = false ->
  simple_new n h = Ret (Ok tt, h0) ->
  rtc (simple_step N) (mkSystem (new h0) []) s' -> configs s' !! i = Some c ->
  exists c' h1 h2, @pmp_configure_mpu Csr simple_pmp c (hw s') = Ret (c', h1) /\
    @pmp_enable_app_mpu Csr simple_pmp h1 = Ret h2 /\
    forall a acc, 0 <= a < U32 -> user_allows (pmp h2) a acc = regions_allow (regions c) a acc.
Proof.
  intros Hwf Hlen H64 HN Hmml Hnew Hs Hi.
  destruct (simple_new_ready n N h Hwf Hlen H64 HN Hmml) as (r & h' & E & _ & Hr).
  rewrite E in Hnew. injection Hnew as -> ->.
  destruct (@switch_enforces Csr simple_pmp N (plain_enforces None N) (mkSystem (new h0) []) s' i c)
    as (c' & h1 & h2 & Hc & He & _ & Hall); [by exists h0; split; [apply Hr|]|done|done|].
  exists c', h1, h2. split; [done|]. split; [done|]. intros a acc Ha.
  pose proof (Hall a acc Ha) as Hiff. cbn in Hiff. apply eq_true_iff_eq. tauto.
Qed.

(** A configuration with app memory at 0x80001004. *)
Definition demo_app : PMPUserMPUConfig :=
  mkConfig 1 true (mkTor (from_permissions ReadWriteOnly) 0x80001004 0x800013ec :: replicate 3 tor_off) (Some 0%nat).

Lemma demo_app_modify : modify 4 demo_config demo_app.
Proof.
  apply (modify_allocate_app 4 _ _ 0x80001001 65536 4096 1000 900 ReadWriteOnly (Some (0x80001004, 4096)));
    [done|split; [lia|reflexivity]|lia|lia|vm_compute; reflexivity].
Qed.

Lemma pmp_demo_steps {P} {tor : TORUserPMP P} (p : P) :
  rtc (@step P tor 4) (mkSystem (new p) []) (mkSystem (mkPMPUserMPU 2 None p) [demo_app]).
Proof.
  eapply rtc_l; [apply (step_new 4 (new p) (mkPMPUserMPU 2 None p) demo_config []); reflexivity|].
  eapply rtc_l; [|apply rtc_refl].
  apply (step_modify 4 (mkPMPUserMPU 2 None p) [demo_config] 0 demo_config demo_app); [done|].
  apply demo_app_modify.
Qed.

Lemma demo_csr_wf : csr_wf demo_csr.
Proof. split; [done|]. apply Forall_replicate. split; [lia|done]. Qed.

Lemma simple_pmp_enforces_witness :
  exists h0, simple_new 16 demo_csr = Ret (Ok tt, h0) /\
  exists c' h1 h2, @pmp_configure_mpu Csr simple_pmp demo_app (mkPMPUserMPU 2 None h0) = Ret (c', h1) /\
    @pmp_enable_app_mpu Csr simple_pmp h1 = Ret h2 /\
    user_allows (pmp h2) 0x80001008 Write = true /\ user_allows (pmp h2) 0x800013ec Read = false.
Proof.
  eexists. split; [vm_compute; reflexivity|].
  match goal with |- context [mkPMPUserMPU 2 None ?h0] =>
    destruct (simple_pmp_enforces 16 4 demo_csr h0 (mkSystem (mkPMPUserMPU 2 None h0) [demo_app]) 0 demo_app)
      as (c' & h1 & h2 & Hc & He & Hall) end;
    [exact demo_csr_wf|reflexivity|lia|lia|reflexivity|vm_compute; reflexivity|exact (pmp_demo_steps _)|reflexivity|].
  exists c', h1, h2. split; [exact Hc|]. split; [exact He|].
  split; rewrite Hall by (split; [lia|reflexivity]); reflexivity.
Defined.

(** * The ePMP in machine-mode lockdown *)

Abbreviation mml_step N := (@step (KernelProtectionMMLEPMP N) (mml_pmp N) N).

(** The kernel's entries survive everything the driver does. *)
Lemma mml_reachable n N k s0 s' :
  mml_ready s0 -> kernel_entries n N k (csr s0) -> rtc (mml_step N) (mkSystem (new s0) []) s' ->
  @inv _ _ N (mml_enforces N) s' /\ kernel_entries n N k (csr (pmp (hw s'))).
Proof.
  intros Hr Hk Hs.
  apply (@reachable_keeps _ _ N (mml_enforces N) (fun s => kernel_entries n N k (csr s)) (mkSystem (new s0) []));
    [..|done|done]; cbn [configure_pmp enable_user_pmp disable_user_pmp mml_pmp].
  - intros rs p p' Hrp HQ Hl Hf E. destruct (mml_configure_spec rs p Hrp Hl Hf) as (q & E' & _ & _ & Hfr).
    rewrite E in E'. injection E' as ->. by eapply kernel_entries_frame.
  - intros p p' Hrp HQ E. destruct (mml_enable_spec p Hrp) as (h' & E' & _ & _ & _ & Hfr).
    rewrite E in E'. injection E' as ->. by eapply kernel_entries_frame.
  - intros p p' Hrp HQ E. destruct (mml_disable_spec p Hrp) as (h' & E' & _ & _ & _ & Hfr).
    rewrite E in E'. injection E' as ->. by eapply kernel_entries_frame.
  - by apply (@inv_new _ _ N (mml_enforces N)).
Qed.

Lemma text_matches n N k h a :
  kernel_entries n N k h -> text_ok (kernel_text k) ->
  matches h a 1 = (s_start (kernel_text k) <=? a) && (a <? s_end (kernel_text k)).
Proof.
  intros Hk ((D0 & D1 & _)%tor_new_spec & _ & _). destruct (ke_text _ _ _ _ Hk) as (E1 & A0 & A1).
  unfold matches. rewrite E1. change (mode _) with 1. cbv iota. by rewrite A0, A1, !shiftr_times4.
Qed.

(** After protection is switched off, machine mode has its own regions only. *)
Lemma mml_disabled n N k (p : KernelProtectionMMLEPMP N) :
  mml_ready p -> kernel_entries n N k (csr p) -> kernel_ok k ->
  exists p', mml_disable_user_pmp p = Ret p' /\
    forall a acc, machine_allows (csr p') a acc = kernel_allows k a acc.
Proof.
  intros Hr Hk Hok. destruct (mml_disable_spec p Hr) as (h' & E & _ & _ & [Ho _] & Hfr).
  eexists. split; [exact E|]. intros a acc. cbn [csr].
  apply (kernel_entries_machine n N); [by eapply kernel_entries_frame|done|].
  intros e He. pose proof (Nat.div_mod_eq e 2). pose proof (Nat.mod_upper_bound e 2 ltac:(lia)).
  destruct (Ho (e / 2 - 1)%nat OFF) as [E0 E1]; [apply lookup_replicate; split; [done|lia]|].
  assert (Hc : (e = 2 * (1 + (e / 2 - 1)) \/ e = 2 * (1 + (e / 2 - 1)) + 1)%nat) by lia.
  destruct Hc as [-> | ->]; [by rewrite E0|by rewrite E1].
Qed.

(** C22: with the ePMP in machine-mode lockdown the kernel and the processes are
    protected from each other.  After [KernelProtectionMMLEPMP::new] succeeded, and
    after any interleaving of operations on configurations and on the hardware, a
    switch to a configuration makes user-mode accesses succeed exactly where the
    regions of that configuration permit them, outside the kernel's text; and
    after switching protection off again the kernel can execute and read its text,
    read flash, read and write RAM and devices, and do nothing else. *)
Theorem mml_epmp_protects n N k h s0 h0 s' i c :
  csr_wf h -> length (cfg h) = n -> (n <= 64)%nat -> (2 * N + 5 <= n)%nat -> kernel_ok k ->
  mml_new n N k h = Ret (Ok s0, h0) ->
  rtc (mml_step N) (mkSystem (new s0) []) s' -> configs s' !! i = Some c ->
  exists c' h1 h2 h3,
    @pmp_configure_mpu _ (mml_pmp N) c (hw s') = Ret (c', h1) /\
    @pmp_enable_app_mpu _ (mml_pmp N) h1 = Ret h2 /\
    @pmp_disable_app_mpu _ (mml_pmp N) h2 = Ret h3 /\
    (forall a acc, 0 <= a < U32 ->
       (user_allows (csr (pmp h2)) a acc = true <->
        regions_allow (regions c) a acc = true /\
        ~ s_start (kernel_text k) <= a < s_end (kernel_text k))) /\
    (forall a acc, machine_allows (csr (pmp h3)) a acc = kernel_allows k a acc).
Proof.
  intros Hwf Hlen H64 HN Hok Hnew Hs Hi.
  destruct (mml_new_ready n N k h Hwf Hlen H64 HN Hok) as (r & h' & E & _ & Hr).
  rewrite E in Hnew. injection Hnew as -> ->.
  destruct (Hr s0 eq_refl) as (Ecsr & _ & Hready & Hke & _). rewrite <- Ecsr in Hke.
  destruct (@switch_enforces _ _ N (mml_enforces N) (mkSystem (new s0) []) s' i c)
    as (c' & h1 & h2 & Hc & He & _ & Hall); [by exists s0|done|done|].
  assert (Hs2 : rtc (mml_step N) (mkSystem (new s0) []) (mkSystem h2 (<[i := c']> (configs s')))).
  { destruct s' as [hw' cs']. cbn [hw configs] in *. eapply rtc_r; [|by apply step_enable].
    eapply rtc_r; [exact Hs|]. by apply step_configure with (c := c). }
  destruct (mml_reachable n N k s0 _ Hready Hke Hs2) as [Hinv2 Hke2]. cbn [hw] in Hke2.
  pose proof (@inv_ready _ _ N (mml_enforces N) _ Hinv2) as Hready2. cbn in Hready2.
  destruct (mml_disabled n N k (pmp h2) Hready2 Hke2 Hok) as (p3 & E3 & Hmach).
  exists c', h1, h2, (set_pmp p3 h2). split; [done|]. split; [done|].
  split; [unfold pmp_disable_app_mpu; cbn [disable_user_pmp mml_pmp]; by rewrite E3|]. split; [|exact Hmach].
  intros a acc Ha. pose proof (Hall a acc Ha) as Hiff. cbn in Hiff.
  rewrite (text_matches n N k _ a Hke2) in Hiff by apply Hok.
  rewrite Hiff, andb_true_iff, Z.leb_le, Z.ltb_lt. done.
Qed.

Definition demo_kernel : KernelRegions :=
  mkKernelRegions (mkNapot 0x20000000 0x200000) (mkNapot 0x80000000 0x40000) (mkNapot 0x40000000 0x10000000)
    (mkTorSpec 0x20000000 0x20020000).

Lemma demo_kernel_ok : kernel_ok demo_kernel.
Proof.
  unfold kernel_ok, napot_ok, text_ok, u32_range, U32. cbn [demo_kernel flash ram mmio kernel_text n_start n_size s_start s_end].
  split_and!; done || lia.
Qed.

Lemma mml_epmp_protects_witness :
  exists s0 h0, mml_new 16 4 demo_kernel demo_csr = Ret (Ok s0, h0) /\
  exists c' h1 h2 h3,
    @pmp_configure_mpu _ (mml_pmp 4) demo_app (mkPMPUserMPU 2 None s0) = Ret (c', h1) /\
    @pmp_enable_app_mpu _ (mml_pmp 4) h1 = Ret h2 /\
    @pmp_disable_app_mpu _ (mml_pmp 4) h2 = Ret h3 /\
    user_allows (csr (pmp h2)) 0x80001008 Write = true /\
    machine_allows (csr (pmp h3)) 0x80001008 Execute = false.
Proof.
  eexists _, _. split; [vm_compute; reflexivity|].
  match goal with |- context [mkPMPUserMPU 2 None ?s0] =>
    destruct (mml_epmp_protects 16 4 demo_kernel demo_csr s0 (csr s0)
      (mkSystem (mkPMPUserMPU 2 None s0) [demo_app]) 0 demo_app) as (c' & h1 & h2 & h3 & Hc & He & Hd & Hu & Hm) end;
    [exact demo_csr_wf|reflexivity|lia|lia|exact demo_kernel_ok|vm_compute; reflexivity|exact (pmp_demo_steps _)|reflexivity|].
  exists c', h1, h2, h3. split; [exact Hc|]. split; [exact He|]. split; [exact Hd|].
  split; [|rewrite Hm; reflexivity]. apply Hu; [split; [lia|reflexivity]|].
  split; [reflexivity|cbn; lia].
Defined.

(** * The PMP with kernel memory protection *)

Abbreviation kp_step := (@step Csr kernel_protection_pmp).

(** No entry up to the rule over all memory is locked. *)
Definition unlocked_to (d : nat) (h : Csr) : Prop :=
  forall e, (e <= d)%nat -> Z.testbit (octet e h) 7 = false.

Lemma unlocked_machine d N h a acc :
  pmp_ready (Some d) N h -> unlocked_to d h -> 0 <= a < U32 -> machine_allows h a acc = true.
Proof.
  intros Hr Hu Ha. unfold machine_allows. rewrite (ready_mml _ _ _ Hr).
  destruct (ready_deny _ _ _ Hr d eq_refl) as (Hd & Ho & Hv).
  assert (Hm : exists e, matching h a = Some e /\ (e <= d)%nat).
  { unfold matching. replace (length (cfg h)) with (d + S (length (cfg h) - S d))%nat by lia.
    rewrite seq_app, first_match_app. cbn [Nat.add seq first_match].
    destruct (first_match h a (seq 0 d)) as [e|] eqn:Hf.
    - apply first_match_Some in Hf as [He%elem_of_seq _]. exists e. split; [done|lia].
    - rewrite all_match; [by exists d|by rewrite Ho|done|done]. }
  destruct Hm as (e & -> & He). by rewrite Hu.
Qed.

Lemma kernel_protection_new_unlocked n N k h h' :
  csr_wf h -> length (cfg h) = n -> (n <= 64)%nat -> (2 * N + 7 <= n)%nat -> mml h = false ->
  kernel_ok k -> kernel_protection_new n k h = Ret (Ok tt, h') ->
  pmp_ready (Some (n - 7)%nat) N h' /\ unlocked_to (n - 7) h'.
Proof.
  intros Hwf Hlen H64 HN Hmml Hok Hnew.
  destruct (kernel_protection_new_ready n N k h Hwf Hlen H64 HN Hmml Hok) as (r & h1 & E & _ & Hr).
  rewrite E in Hnew. injection Hnew as -> ->. destruct (Hr eq_refl) as [Hready Hun]. done.
Qed.

(** C40: [KernelProtectionPMP] protects processes' memory and the kernel's memory
    from processes, but not the kernel from itself.  After its [new] succeeded and
    after any interleaving of operations, a switch to a configuration makes user
    mode accesses succeed exactly where the regions permit them; but machine mode
    may read, write and execute every address, since the unlocked rule over all
    memory precedes the locked rules for the kernel's text, flash, RAM and devices
    and decides first. *)
Theorem kernel_protection_machine_open n N k h h0 s' i c :
  csr_wf h -> length (cfg h) = n -> (n <= 64)%nat -> (2 * N + 7 <= n)%nat -> mml h = false ->
  kernel_ok k -> kernel_protection_new n k h = Ret (Ok tt, h0) ->
  rtc (kp_step N) (mkSystem (new h0) []) s' -> configs s' !! i = Some c ->
  (forall a acc, 0 <= a < U32 -> machine_allows (pmp (hw s')) a acc = true) /\
  exists c' h1 h2, @pmp_configure_mpu Csr kernel_protection_pmp c (hw s') = Ret (c', h1) /\
    @pmp_enable_app_mpu Csr kernel_protection_pmp h1 = Ret h2 /\
    forall a acc, 0 <= a < U32 -> user_allows (pmp h2) a acc = regions_allow (regions c) a acc.
Proof.
  intros Hwf Hlen H64 HN Hmml Hok Hnew Hs Hi.
  destruct (kernel_protection_new_unlocked n N k h h0) as [Hready Hun]; [done..|].
  set (enf := kernel_protection_enforces (n - 7) N).
  split.
  - destruct (@reachable_keeps Csr kernel_protection_pmp N enf (unlocked_to (n - 7)) (mkSystem (new h0) []) s')
      as [Hinv Hu]; [..|exact Hun|exact Hs|].
    + intros rs p p' Hrp HQ Hl Hf E. destruct (ready_configure (Some (n - 7)%nat) N p rs Hrp Hl Hf)
        as (h' & E' & _ & Hh & _ & _ & [Ho1 Ho2] & _).
      cbn in E. unfold kernel_protection_configure_pmp in E. rewrite E' in E. injection E as <-.
      intros e He. destruct (decide (e < 2 * N)%nat) as [Hlt|Hge].
      2: { rewrite Ho2; [by apply HQ|]. right. rewrite length_map. lia. }
      pose proof (Nat.div_mod_eq e 2). pose proof (Nat.mod_upper_bound e 2 ltac:(lia)).
      destruct (lookup_lt_is_Some_2 rs (e / 2)) as [r Hr]; [lia|].
      destruct (Hh _ _ Hr) as (E0 & E1 & _). cbn [Nat.add] in E0, E1.
      assert (Hc : (e = 2 * (e / 2) \/ e = 2 * (e / 2) + 1)%nat) by lia.
      destruct Hc as [-> | ->]; [by rewrite E0|]. rewrite E1.
      apply user_cfg_ok, tor_ok_user. by apply (Forall_lookup_1 _ _ _ _ Hf Hr).
    + intros p p' _ HQ E. cbn in E. by injection E as <-.
    + intros p p' _ HQ E. cbn in E. by injection E as <-.
    + by apply (@inv_new Csr kernel_protection_pmp N enf).
    + intros a acc Ha. apply (unlocked_machine (n - 7) N); [|done|done].
      exact (@inv_ready Csr kernel_protection_pmp N enf _ Hinv).
  - destruct (@switch_enforces Csr kernel_protection_pmp N enf (mkSystem (new h0) []) s' i c)
      as (c' & h1 & h2 & Hc & He & _ & Hall); [by exists h0|done|done|].
    exists c', h1, h2. split; [done|]. split; [done|]. intros a acc Ha.
    pose proof (Hall a acc Ha) as Hiff. cbn in Hiff. apply eq_true_iff_eq. tauto.
Qed.

(** Even the text of the kernel is writeable for machine mode. *)
Lemma kernel_protection_machine_open_witness :
  exists h0, kernel_protection_new 16 demo_kernel demo_csr = Ret (Ok tt, h0) /\
  machine_allows h0 0x20000000 Write = true /\
  exists c' h1 h2, @pmp_configure_mpu Csr kernel_protection_pmp demo_app (mkPMPUserMPU 2 None h0) = Ret (c', h1) /\
    @pmp_enable_app_mpu Csr kernel_protection_pmp h1 = Ret h2 /\
    user_allows (pmp h2) 0x80001008 Write = true /\ user_allows (pmp h2) 0x20000000 Read = false.
Proof.
  eexists. split; [vm_compute; reflexivity|].
  match goal with |- context [mkPMPUserMPU 2 None ?h0] =>
    destruct (kernel_protection_machine_open 16 4 demo_kernel demo_csr h0
      (mkSystem (mkPMPUserMPU 2 None h0) [demo_app]) 0 demo_app) as (Hm & c' & h1 & h2 & Hc & He & Hall) end;
    [exact demo_csr_wf|reflexivity|lia|lia|reflexivity|exact demo_kernel_ok|vm_compute; reflexivity
    |exact (pmp_demo_steps _)|reflexivity|].
  split; [apply Hm; split; [lia|reflexivity]|].
  exists c', h1, h2. split; [exact Hc|]. split; [exact He|].
  split; rewrite Hall by (split; [lia|reflexivity]); reflexivity.
Defined.

End RiscvPmp.
