(* ===== verification/Syscall.v ===== *)
(** Error codes and the system-call ABI ([kernel/src/errorcode.rs],
    [kernel/src/syscall.rs], [kernel/src/syscall_driver.rs] and the error type
    of [kernel/src/process.rs]).

    [Syscall.from_register_arguments] decodes a trap's registers;
    [Syscall.encode_syscall_return] writes a return value into the four
    return registers.  The theorems state both directions against the ABI as a
    process sees it: [Syscall.to_registers] and [Syscall.decode_return]. *)

From stdpp Require Import base numbers list.
From S2P Require Import Prelude.
Local Open Scope Z_scope.

Module Syscall.

(** * Error codes *)

Inductive ErrorCode :=
  | FAIL
  | BUSY
  | ALREADY
  | OFF
  | RESERVE
  | INVAL
  | SIZE
  | CANCEL
  | NOMEM
  | NOSUPPORT
  | NODEVICE
  | UNINSTALLED
  | NOACK.

Inductive Error :=
  | NoSuchApp | OutOfMemory | AddressOutOfBounds | InactiveApp | KernelError
  | AlreadyInUse.

#[export] Instance ErrorCode_eq_dec : EqDecision ErrorCode.
Proof. solve_decision. Defined.
#[export] Instance Error_eq_dec : EqDecision Error.
Proof. solve_decision. Defined.

(** [impl From<ErrorCode> for usize] *)
Definition usize_of_errorcode (err : ErrorCode) : Z :=
  match err with
  | FAIL => 1
  | BUSY => 2
  | ALREADY => 3
  | OFF => 4
  | RESERVE => 5
  | INVAL => 6
  | SIZE => 7
  | CANCEL => 8
  | NOMEM => 9
  | NOSUPPORT => 10
  | NODEVICE => 11
  | UNINSTALLED => 12
  | NOACK => 13
  end.

(** [impl TryFrom<Result<(), ErrorCode>> for ErrorCode] *)
Definition errorcode_try_from (rc : result unit ErrorCode) : result ErrorCode unit :=
  match rc with
  | Ok tt => Err tt
  | Err FAIL => Ok FAIL
  | Err BUSY => Ok BUSY
  | Err ALREADY => Ok ALREADY
  | Err OFF => Ok OFF
  | Err RESERVE => Ok RESERVE
  | Err INVAL => Ok INVAL
  | Err SIZE => Ok SIZE
  | Err CANCEL => Ok CANCEL
  | Err NOMEM => Ok NOMEM
  | Err NOSUPPORT => Ok NOSUPPORT
  | Err NODEVICE => Ok NODEVICE
  | Err UNINSTALLED => Ok UNINSTALLED
  | Err NOACK => Ok NOACK
  end.

(** [impl From<ErrorCode> for Result<(), ErrorCode>] *)
Definition result_of_errorcode (ec : ErrorCode) : result unit ErrorCode :=
  match ec with
  | FAIL => Err FAIL
  | BUSY => Err BUSY
  | ALREADY => Err ALREADY
  | OFF => Err OFF
  | RESERVE => Err RESERVE
  | INVAL => Err INVAL
  | SIZE => Err SIZE
  | CANCEL => Err CANCEL
  | NOMEM => Err NOMEM
  | NOSUPPORT => Err NOSUPPORT
  | NODEVICE => Err NODEVICE
  | UNINSTALLED => Err UNINSTALLED
  | NOACK => Err NOACK
  end.

Definition into_statuscode (r : result unit ErrorCode) : Z :=
  match r with
  | Ok tt => 0
  | Err e => usize_of_errorcode e
  end.

(** [impl From<Error> for ErrorCode] *)
Definition errorcode_of_error (err : Error) : ErrorCode :=
  match err with
  | OutOfMemory => NOMEM
  | AddressOutOfBounds => INVAL
  | NoSuchApp => INVAL
  | InactiveApp => FAIL
  | KernelError => FAIL
  | AlreadyInUse => FAIL
  end.
(** [impl From<Error> for Result<(), ErrorCode>] *)
Definition result_of_error (err : Error) : result unit ErrorCode :=
  match err with
  | OutOfMemory => Err NOMEM
  | AddressOutOfBounds => Err INVAL
  | NoSuchApp => Err INVAL
  | InactiveApp => Err FAIL
  | KernelError => Err FAIL
  | AlreadyInUse => Err FAIL
  end.

(** * Decoding of system calls *)

Inductive SyscallClass :=
  | CYield | CSubscribe | CCommand | CReadWriteAllow | CReadOnlyAllow | CMemop | CExit
  | CUserspaceReadableAllow.

(** [impl TryFrom<u8> for SyscallClass] *)
Definition SyscallClass_try_from (syscall_class_id : Z) : result SyscallClass Z :=
  match syscall_class_id with
  | 0 => Ok CYield
  | 1 => Ok CSubscribe
  | 2 => Ok CCommand
  | 3 => Ok CReadWriteAllow
  | 4 => Ok CReadOnlyAllow
  | 5 => Ok CMemop
  | 6 => Ok CExit
  | 7 => Ok CUserspaceReadableAllow
  | i => Err i
  end.

Inductive YieldCall := NoWait | Wait | WaitFor.

(** [impl TryFrom<usize> for YieldCall] *)
Definition YieldCall_try_from (yield_variant : Z) : result YieldCall Z :=
  match yield_variant with
  | 0 => Ok NoWait
  | 1 => Ok Wait
  | 2 => Ok WaitFor
  | i => Err i
  end.

Inductive Syscall :=
  | Yield (which param_a param_b : Z)
  | Subscribe (driver_number subdriver_number upcall_ptr appdata : Z)
  | Command (driver_number subdriver_number arg0 arg1 : Z)
  | ReadWriteAllow (driver_number subdriver_number allow_address allow_size : Z)
  | UserspaceReadableAllow (driver_number subdriver_number allow_address allow_size : Z)
  | ReadOnlyAllow (driver_number subdriver_number allow_address allow_size : Z)
  | Memop (operand arg0 : Z)
  | Exit (which completion_code : Z).

#[export] Instance Syscall_eq_dec : EqDecision Syscall.
Proof. solve_decision. Defined.

Definition from_register_arguments (syscall_number r0 r1 r2 r3 : Z) : option Syscall :=
  match SyscallClass_try_from syscall_number with
  | Ok CYield => Some (Yield r0 r1 r2)
  | Ok CSubscribe => Some (Subscribe r0 r1 r2 r3)
  | Ok CCommand => Some (Command r0 r1 r2 r3)
  | Ok CReadWriteAllow => Some (ReadWriteAllow r0 r1 r2 r3)
  | Ok CUserspaceReadableAllow => Some (UserspaceReadableAllow r0 r1 r2 r3)
  | Ok CReadOnlyAllow => Some (ReadOnlyAllow r0 r1 r2 r3)
  | Ok CMemop => Some (Memop r0 r1)
  | Ok CExit => Some (Exit r0 r1)
  | Err _ => None
  end.

Definition driver_number (s : Syscall) : option Z :=
  match s with
  | Subscribe d _ _ _ => Some d
  | Command d _ _ _ => Some d
  | ReadWriteAllow d _ _ _ => Some d
  | UserspaceReadableAllow d _ _ _ => Some d
  | ReadOnlyAllow d _ _ _ => Some d
  | _ => None
  end.

Definition subdriver_number (s : Syscall) : option Z :=
  match s with
  | Subscribe _ sd _ _ => Some sd
  | Command _ sd _ _ => Some sd
  | ReadWriteAllow _ sd _ _ => Some sd
  | UserspaceReadableAllow _ sd _ _ => Some sd
  | ReadOnlyAllow _ sd _ _ => Some sd
  | _ => None
  end.

(** * Encoding of return values *)

(** [u64::to_be_bytes] and [u32::from_be_bytes]. *)
Definition to_be_bytes64 (src : Z) : list Z :=
  map (fun i => Z.land (Z.shiftr src (8 * i)) 255) [7; 6; 5; 4; 3; 2; 1; 0].
Definition from_be_bytes32 (b0 b1 b2 b3 : Z) : Z :=
  Z.lor (Z.lor (Z.shiftl b0 24) (Z.shiftl b1 16)) (Z.lor (Z.shiftl b2 8) b3).

Definition u64_to_be_u32s (src : Z) : Z * Z :=
  match to_be_bytes64 src with
  | [b0; b1; b2; b3; b4; b5; b6; b7] =>
    (from_be_bytes32 b0 b1 b2 b3, from_be_bytes32 b4 b5 b6 b7)
  | _ => (0, 0)
  end.

Inductive SyscallReturnVariant :=
  | VFailure | VFailureU32 | VFailureU32U32 | VFailureU64
  | VSuccess | VSuccessU32 | VSuccessU32U32 | VSuccessU64 | VSuccessU32U32U32
  | VSuccessU32U64.
Definition variant_num (v : SyscallReturnVariant) : Z :=
  match v with
  | VFailure => 0
  | VFailureU32 => 1
  | VFailureU32U32 => 2
  | VFailureU64 => 3
  | VSuccess => 128
  | VSuccessU32 => 129
  | VSuccessU32U32 => 130
  | VSuccessU64 => 131
  | VSuccessU32U32U32 => 132
  | VSuccessU32U64 => 133
  end.

Inductive SyscallReturn :=
  | Failure (e : ErrorCode)
  | FailureU32 (e : ErrorCode) (d0 : Z)
  | FailureU32U32 (e : ErrorCode) (d0 d1 : Z)
  | FailureU64 (e : ErrorCode) (d0 : Z)
  | Success
  | SuccessU32 (d0 : Z)
  | SuccessU32U32 (d0 d1 : Z)
  | SuccessU32U32U32 (d0 d1 d2 : Z)
  | SuccessU64 (d0 : Z)
  | SuccessU32U64 (d0 d1 : Z)
  | AllowReadWriteSuccess (ptr len : Z)
  | AllowReadWriteFailure (e : ErrorCode) (ptr len : Z)
  | UserspaceReadableAllowSuccess (ptr len : Z)
  | UserspaceReadableAllowFailure (e : ErrorCode) (ptr len : Z)
  | AllowReadOnlySuccess (ptr len : Z)
  | AllowReadOnlyFailure (e : ErrorCode) (ptr len : Z)
  | SubscribeSuccess (ptr data : Z)
  | SubscribeFailure (e : ErrorCode) (ptr data : Z)
  | YieldWaitFor (d0 d1 d2 : Z).

#[export] Instance SyscallReturn_eq_dec : EqDecision SyscallReturn.
Proof. solve_decision. Defined.

Definition is_success (r : SyscallReturn) : bool :=
  match r with
  | Success => true
  | SuccessU32 _ => true
  | SuccessU32U32 _ _ => true
  | SuccessU32U32U32 _ _ _ => true
  | SuccessU64 _ => true
  | SuccessU32U64 _ _ => true
  | AllowReadWriteSuccess _ _ => true
  | UserspaceReadableAllowSuccess _ _ => true
  | AllowReadOnlySuccess _ _ => true
  | SubscribeSuccess _ _ => true
  | Failure _ => false
  | FailureU32 _ _ => false
  | FailureU32U32 _ _ _ => false
  | FailureU64 _ _ => false
  | AllowReadWriteFailure _ _ _ => false
  | UserspaceReadableAllowFailure _ _ _ => false
  | AllowReadOnlyFailure _ _ _ => false
  | SubscribeFailure _ _ _ => false
  | YieldWaitFor _ _ _ => true
  end.

(** The four return registers; [encode_syscall_return] overwrites those its
    variant uses and leaves the others.  [ptr as u32] and [len as u32] of a
    32-bit [usize] keep the value. *)
Record regs := mkRegs { a0 : Z; a1 : Z; a2 : Z; a3 : Z }.

Definition encode_syscall_return (r : SyscallReturn) (old : regs) : regs :=
  let '(mkRegs _ o1 o2 o3) := old in
  match r with
  | Failure e => mkRegs (variant_num VFailure) (usize_of_errorcode e) o2 o3
  | FailureU32 e d0 => mkRegs (variant_num VFailureU32) (usize_of_errorcode e) d0 o3
  | FailureU32U32 e d0 d1 => mkRegs (variant_num VFailureU32U32) (usize_of_errorcode e) d0 d1
  | FailureU64 e d0 =>
    let '(msb, lsb) := u64_to_be_u32s d0 in
    mkRegs (variant_num VFailureU64) (usize_of_errorcode e) lsb msb
  | Success => mkRegs (variant_num VSuccess) o1 o2 o3
  | SuccessU32 d0 => mkRegs (variant_num VSuccessU32) d0 o2 o3
  | SuccessU32U32 d0 d1 => mkRegs (variant_num VSuccessU32U32) d0 d1 o3
  | SuccessU32U32U32 d0 d1 d2 => mkRegs (variant_num VSuccessU32U32U32) d0 d1 d2
  | SuccessU64 d0 =>
    let '(msb, lsb) := u64_to_be_u32s d0 in
    mkRegs (variant_num VSuccessU64) lsb msb o3
  | SuccessU32U64 d0 d1 =>
    let '(msb, lsb) := u64_to_be_u32s d1 in
    mkRegs (variant_num VSuccessU32U64) d0 lsb msb
  | AllowReadWriteSuccess ptr len => mkRegs (variant_num VSuccessU32U32) ptr len o3
  | UserspaceReadableAllowSuccess ptr len => mkRegs (variant_num VSuccessU32U32) ptr len o3
  | AllowReadWriteFailure e ptr len =>
    mkRegs (variant_num VFailureU32U32) (usize_of_errorcode e) ptr len
  | UserspaceReadableAllowFailure e ptr len =>
    mkRegs (variant_num VFailureU32U32) (usize_of_errorcode e) ptr len
  | AllowReadOnlySuccess ptr len => mkRegs (variant_num VSuccessU32U32) ptr len o3
  | AllowReadOnlyFailure e ptr len =>
    mkRegs (variant_num VFailureU32U32) (usize_of_errorcode e) ptr len
  | SubscribeSuccess ptr data => mkRegs (variant_num VSuccessU32U32) ptr data o3
  | SubscribeFailure e ptr data =>
    mkRegs (variant_num VFailureU32U32) (usize_of_errorcode e) ptr data
  | YieldWaitFor d0 d1 d2 => mkRegs d0 d1 d2 o3
  end.

(** * [CommandReturn] *)

Definition command_success : SyscallReturn := Success.
Definition command_failure (rc : ErrorCode) : SyscallReturn := Failure rc.

(** [impl From<Result<(), ErrorCode>> for CommandReturn]: the [unwrap] cannot
    fail on an error. *)
Definition command_return_of_result (rc : result unit ErrorCode) : outcome SyscallReturn :=
  match rc with
  | Ok tt => Ret command_success
  | _ => match errorcode_try_from rc with
         | Ok e => Ret (command_failure e)
         | Err _ => Panic
         end
  end.
(** [impl From<process::Error> for CommandReturn] *)
Definition command_return_of_error (perr : Error) : SyscallReturn :=
  command_failure (errorcode_of_error perr).

(** * The ABI as a process sees it *)

(** Registers with which a process makes each call. *)
Definition to_registers (s : Syscall) : Z * Z * Z * Z * Z :=
  match s with
  | Yield w a b => (0, w, a, b, 0)
  | Subscribe d sd p a => (1, d, sd, p, a)
  | Command d sd a b => (2, d, sd, a, b)
  | ReadWriteAllow d sd p n => (3, d, sd, p, n)
  | ReadOnlyAllow d sd p n => (4, d, sd, p, n)
  | Memop o a => (5, o, a, 0, 0)
  | Exit w c => (6, w, c, 0, 0)
  | UserspaceReadableAllow d sd p n => (7, d, sd, p, n)
  end.

(** The generic variant that a process observes: the kernel's pointer-carrying
    variants look like their [U32U32] counterparts. *)
Definition observable (r : SyscallReturn) : SyscallReturn :=
  match r with
  | AllowReadWriteSuccess p n | UserspaceReadableAllowSuccess p n
  | AllowReadOnlySuccess p n | SubscribeSuccess p n => SuccessU32U32 p n
  | AllowReadWriteFailure e p n | UserspaceReadableAllowFailure e p n
  | AllowReadOnlyFailure e p n | SubscribeFailure e p n => FailureU32U32 e p n
  | r => r
  end.

Definition errorcode_of_num (n : Z) : option ErrorCode :=
  match n with
  | 1 => Some FAIL | 2 => Some BUSY | 3 => Some ALREADY | 4 => Some OFF
  | 5 => Some RESERVE | 6 => Some INVAL | 7 => Some SIZE | 8 => Some CANCEL
  | 9 => Some NOMEM | 10 => Some NOSUPPORT | 11 => Some NODEVICE
  | 12 => Some UNINSTALLED | 13 => Some NOACK | _ => None
  end.

(** Reading of the return registers by the TRD104 variant identifiers. *)
Definition decode_return (r : regs) : option SyscallReturn :=
  let '(mkRegs v x y z) := r in
  match v with
  | 0 => Failure <$> errorcode_of_num x
  | 1 => (fun e => FailureU32 e y) <$> errorcode_of_num x
  | 2 => (fun e => FailureU32U32 e y z) <$> errorcode_of_num x
  | 3 => (fun e => FailureU64 e (y + z * U32)) <$> errorcode_of_num x
  | 128 => Some Success
  | 129 => Some (SuccessU32 x)
  | 130 => Some (SuccessU32U32 x y)
  | 131 => Some (SuccessU64 (x + y * U32))
  | 132 => Some (SuccessU32U32U32 x y z)
  | 133 => Some (SuccessU32U64 x (y + z * U32))
  | _ => None
  end.

(** The 64-bit fields are in range. *)
Definition return_wf (r : SyscallReturn) : Prop :=
  match r with
  | FailureU64 _ d | SuccessU64 d | SuccessU32U64 _ d => u64_range d
  | _ => True
  end.
Definition is_yield_wait_for (r : SyscallReturn) : bool :=
  match r with YieldWaitFor _ _ _ => true | _ => false end.

Lemma byte_testbit src i j :
  0 <= i -> 0 <= j ->
  Z.testbit (Z.land (Z.shiftr src i) 255) j = (j <? 8) && Z.testbit src (j + i).
Proof.
  intros Hi Hj. rewrite Z.land_spec, Z.shiftr_spec by done. change 255 with (Z.ones 8).
  rewrite Z.testbit_ones_nonneg by lia. by rewrite andb_comm.
Qed.

(** Reassembling four consecutive bytes gives the 32-bit window they were cut
    from. *)
Lemma from_be_bytes32_window src o :
  0 <= o ->
  from_be_bytes32 (Z.land (Z.shiftr src (o + 24)) 255) (Z.land (Z.shiftr src (o + 16)) 255)
    (Z.land (Z.shiftr src (o + 8)) 255) (Z.land (Z.shiftr src o) 255)
  = (src / 2 ^ o) mod U32.
Proof.
  intros Ho. unfold from_be_bytes32. change U32 with (2 ^ 32).
  rewrite <- Z.land_ones, <- Z.shiftr_div_pow2 by lia. apply Z.bits_inj'. intros i Hi.
  rewrite !Z.lor_spec, !Z.shiftl_spec by done.
  rewrite (Z.land_spec (Z.shiftr src o) (Z.ones 32)), (Z.shiftr_spec src o) by done.
  rewrite Z.testbit_ones_nonneg by lia.
  assert (Hbyte : forall k, 0 <= k ->
    Z.testbit (Z.land (Z.shiftr src (o + k)) 255) (i - k) =
      (k <=? i) && (i <? k + 8) && Z.testbit src (i + o)).
  { intros k Hk. destruct (Z.leb_spec k i).
    - rewrite byte_testbit by lia. replace (i - k + (o + k)) with (i + o) by lia.
      destruct (Z.ltb_spec (i - k) 8), (Z.ltb_spec i (k + 8)); try done; lia.
    - by rewrite Z.testbit_neg_r by lia. }
  rewrite !Hbyte by lia. rewrite byte_testbit by lia.
  destruct (Z.testbit src (i + o)); rewrite ?andb_true_r, ?andb_false_r; [|done].
  destruct (Z.leb_spec 24 i), (Z.leb_spec 16 i), (Z.leb_spec 8 i),
    (Z.ltb_spec i (24 + 8)), (Z.ltb_spec i (16 + 8)), (Z.ltb_spec i (8 + 8)),
    (Z.ltb_spec i 8), (Z.ltb_spec i 32); simpl; try done; lia.
Qed.

(** The split of a 64-bit value into its two halves. *)
Lemma u64_to_be_u32s_spec src :
  u64_range src ->
  u64_to_be_u32s src = (src / U32, src mod U32) /\ u32_range (src / U32).
Proof.
  intros [Hl Hu]. unfold u64_to_be_u32s, to_be_bytes64. cbn [map].
  pose proof (from_be_bytes32_window src 32 ltac:(lia)) as Hhi.
  pose proof (from_be_bytes32_window src 0 ltac:(lia)) as Hlo.
  change (8 * 7) with (32 + 24). change (8 * 6) with (32 + 16). change (8 * 5) with (32 + 8).
  change (8 * 4) with 32. change (8 * 3) with (0 + 24). change (8 * 2) with (0 + 16).
  change (8 * 1) with (0 + 8). change (8 * 0) with 0.
  rewrite Hhi, Hlo, Z.pow_0_r, Z.div_1_r.
  assert (Hr : u32_range (src / 2 ^ 32)).
  { split; [by apply Z.div_pos|]. apply Z.div_lt_upper_bound; [done|]. unfold U64, U32 in *. lia. }
  rewrite Z.mod_small by apply Hr. done.
Qed.

Lemma u64_halves d : u64_range d ->
  exists hi lo, u64_to_be_u32s d = (hi, lo) /\ lo + hi * U32 = d.
Proof.
  intros [-> _]%u64_to_be_u32s_spec. eexists _, _. split; [done|].
  pose proof (Z.div_mod d U32 ltac:(done)). lia.
Qed.

Lemma errorcode_of_num_usize e : errorcode_of_num (usize_of_errorcode e) = Some e.
Proof. by destruct e. Qed.

(** * Theorems *)

(** The registers with which a process makes a system call decode to that
    call, and a trap is rejected exactly when its class identifier is not one
    of the eight that the ABI defines. *)
Theorem syscall_decode_roundtrip :
  (forall s, let '(n, r0, r1, r2, r3) := to_registers s in
     from_register_arguments n r0 r1 r2 r3 = Some s) /\
  (forall n r0 r1 r2 r3,
     from_register_arguments n r0 r1 r2 r3 = None <-> ~ (0 <= n <= 7)) /\
  (forall n r0 r1 r2 r3 s, from_register_arguments n r0 r1 r2 r3 = Some s ->
     driver_number s = (if bool_decide (n = 0 \/ n = 5 \/ n = 6) then None else Some r0) /\
     subdriver_number s = (if bool_decide (n = 0 \/ n = 5 \/ n = 6) then None else Some r1)).
Proof.
  split; [by intros []|].
  assert (Hn : forall n, 0 <= n <= 7 \/ ~ (0 <= n <= 7) /\ exists i, SyscallClass_try_from n = Err i).
  { intros n. destruct (decide (0 <= n <= 7)) as [|Hout]; [by left|right]. split; [done|].
    destruct n as [|p|p]; [lia| |by eexists].
    do 3 (destruct p as [p|p|]; try (by eexists); try lia). }
  assert (Hcases : forall n, 0 <= n <= 7 ->
    n = 0 \/ n = 1 \/ n = 2 \/ n = 3 \/ n = 4 \/ n = 5 \/ n = 6 \/ n = 7) by lia.
  split; intros n r0 r1 r2 r3.
  - destruct (Hn n) as [Hin|[Hout [i Hi]]].
    + split; [|done]. by destruct (Hcases n Hin) as
        [-> | [-> | [-> | [-> | [-> | [-> | [-> | ->] ] ] ] ] ] ].
    + unfold from_register_arguments. rewrite Hi. done.
  - intros s. destruct (Hn n) as [Hin|[Hout [i Hi]]].
    + destruct (Hcases n Hin) as
        [-> | [-> | [-> | [-> | [-> | [-> | [-> | ->] ] ] ] ] ] ];
        cbn; intros ?; simplify_eq; done.
    + unfold from_register_arguments. rewrite Hi. done.
Qed.

(** A process that reads the return registers by the variant identifier of
    the ABI recovers the kernel's return value, whatever the registers held
    before, with 64-bit values reassembled from their two halves; the success
    bit of the identifier agrees with [is_success].  (A yield-wait-for return
    carries the three upcall arguments instead of an identifier.) *)
Theorem syscall_return_roundtrip r old :
  return_wf r -> is_yield_wait_for r = false ->
  decode_return (encode_syscall_return r old) = Some (observable r) /\
  is_success r = (128 <=? a0 (encode_syscall_return r old)).
Proof.
  intros Hwf Hy. destruct old as [o0 o1 o2 o3].
  destruct r; try done; unfold encode_syscall_return, return_wf in *;
    try match goal with H : u64_range ?d |- _ =>
      destruct (u64_halves d H) as (hi & lo & -> & <-) end;
    cbn; rewrite ?errorcode_of_num_usize; done.
Qed.

Lemma syscall_return_roundtrip_witness :
  let r := SuccessU32U64 7 81985529216486895 in
  decode_return (encode_syscall_return r (mkRegs 1 2 3 4)) = Some (observable r) /\
  is_success r = (128 <=? a0 (encode_syscall_return r (mkRegs 1 2 3 4))).
Proof.
  apply (syscall_return_roundtrip (SuccessU32U64 7 81985529216486895) (mkRegs 1 2 3 4));
    [split; [discriminate|reflexivity]|reflexivity].
Defined.

(** Status codes: success is 0, errors are the nonzero numbers 1 to 13 and
    determine the error; converting an error to a [Result], a status code or a
    command return never panics and loses nothing. *)
Theorem statuscode_roundtrip :
  (forall e, 1 <= usize_of_errorcode e <= 13 /\ result_of_errorcode e = Err e /\
     errorcode_try_from (result_of_errorcode e) = Ok e /\
     command_return_of_result (Err e) = Ret (Failure e)) /\
  (forall r r', into_statuscode r = into_statuscode r' -> r = r') /\
  (forall err, result_of_error err = Err (errorcode_of_error err)) /\
  command_return_of_result (Ok tt) = Ret Success.
Proof.
  split; [intros []; cbn; repeat split; done || lia|].
  split; [|split; [by intros []|done]].
  intros [[]|e] [[]|e']; [done|by destruct e'|by destruct e|].
  intros H. f_equal. pose proof (errorcode_of_num_usize e) as He.
  cbn in H. rewrite H, errorcode_of_num_usize in He. by simplify_eq.
Qed.

End Syscall.
