(* ===== verification/Tbf.v ===== *)
(** The Tock Binary Format ([libraries/tock-tbf/src/parse.rs] and
    [libraries/tock-tbf/src/types.rs]): headers and footers of process binaries
    in flash, and what the kernel reads from a parsed header.

    A slice of flash is a list of bytes.  [Tbf.parse_tbf_header] is the parser,
    with the source's order of checks and errors; the loop over the entries runs
    with fuel, which [TbfSpec] shows to be enough.  Additions of the accessors
    are the source's unchecked [u32] additions. *)

From stdpp Require Import base numbers list.
From S2P Require Import Prelude.
Local Open Scope Z_scope.

Module Tbf.

Definition NUM_STORAGE_PERMISSIONS : nat := 8.

Inductive InitialTbfParseError := UnableToParse | InvalidHeader (app_length : Z).

Inductive TbfParseError :=
  | NotEnoughFlash
  | UnsupportedVersion (version : Z)
  | ChecksumMismatch (provided calculated : Z)
  | BadTlvEntry (tipe : Z)
  | BadProcessName
  | InternalError
  | TooManyEntries (n : Z).

Record TbfHeaderV2Base := mkBase {
  version : Z;
  header_size : Z;
  total_size : Z;
  flags : Z;
  checksum : Z;
}.

Inductive TbfHeaderTypes :=
  | TbfHeaderMain | TbfHeaderWriteableFlashRegions | TbfHeaderPackageName
  | TbfHeaderFixedAddresses | TbfHeaderPermissions | TbfHeaderStoragePermissions
  | TbfHeaderKernelVersion | TbfHeaderProgram | TbfHeaderShortId
  | TbfFooterCredentials | Unknown.

(** [tipe as usize] *)
Definition tipe_as_usize (t : TbfHeaderTypes) : Z :=
  match t with
  | TbfHeaderMain => 1
  | TbfHeaderWriteableFlashRegions => 2
  | TbfHeaderPackageName => 3
  | TbfHeaderFixedAddresses => 5
  | TbfHeaderPermissions => 6
  | TbfHeaderStoragePermissions => 7
  | TbfHeaderKernelVersion => 8
  | TbfHeaderProgram => 9
  | TbfHeaderShortId => 10
  | TbfFooterCredentials => 128
  | Unknown => 129
  end.

Record TbfTlv := mkTlv { tlv_tipe : TbfHeaderTypes; tlv_length : Z }.

Record TbfHeaderV2Main := mkMain {
  main_init_fn_offset : Z;
  main_protected_trailer_size : Z;
  main_minimum_ram_size : Z;
}.

Record TbfHeaderV2Program := mkProgram {
  prog_init_fn_offset : Z;
  prog_protected_trailer_size : Z;
  prog_minimum_ram_size : Z;
  prog_binary_end_offset : Z;
  prog_version : Z;
}.

Record TbfHeaderV2WriteableFlashRegion := mkRegion { wfr_offset : Z; wfr_size : Z }.

Record TbfHeaderV2FixedAddresses := mkFixed {
  start_process_ram : Z;
  start_process_flash : Z;
}.

Record TbfHeaderDriverPermission := mkPermission {
  perm_driver_number : Z;
  perm_offset : Z;
  perm_allowed_commands : Z;
}.

Record TbfHeaderV2StoragePermissions := mkStorage {
  sp_write_id : option Z;
  sp_read_length : Z;
  sp_read_ids : list Z;
  sp_modify_length : Z;
  sp_modify_ids : list Z;
}.

Record TbfHeaderV2KernelVersion := mkKernelVersion { kv_major : Z; kv_minor : Z }.
Record TbfHeaderV2ShortId := mkShortId { si_short_id : option Z }.

Inductive TbfFooterV2CredentialsType :=
  | Reserved | Rsa3072Key | Rsa4096Key | SHA256 | SHA384 | SHA512.

Record TbfFooterV2Credentials := mkCredentials {
  cred_format : TbfFooterV2CredentialsType;
  cred_data : list Z;
}.

(** * Conversions from slices *)

(** [u32::from_le_bytes(b.get(a..c).ok_or(e)?.try_into()?)], also for [u16] and
    [u64]: the array has as many bytes as the slice. *)
Definition le_at (b : list Z) (a c : nat) (e : TbfParseError) : result Z TbfParseError :=
  let? s := ok_or (get b a c) e in Ok (from_le_bytes s).

Definition non_zero (v : Z) : option Z := if v =? 0 then None else Some v.

Definition base_try_from (b : list Z) : result TbfHeaderV2Base TbfParseError :=
  if (length b <? 16)%nat then Err InternalError
  else
    let? version := le_at b 0 2 InternalError in
    let? header_size := le_at b 2 4 InternalError in
    let? total_size := le_at b 4 8 InternalError in
    let? flags := le_at b 8 12 InternalError in
    let? checksum := le_at b 12 16 InternalError in
    Ok (mkBase version header_size total_size flags checksum).

Definition tipe_try_from (h : Z) : TbfHeaderTypes :=
  if h =? 1 then TbfHeaderMain
  else if h =? 2 then TbfHeaderWriteableFlashRegions
  else if h =? 3 then TbfHeaderPackageName
  else if h =? 5 then TbfHeaderFixedAddresses
  else if h =? 6 then TbfHeaderPermissions
  else if h =? 7 then TbfHeaderStoragePermissions
  else if h =? 8 then TbfHeaderKernelVersion
  else if h =? 9 then TbfHeaderProgram
  else if h =? 10 then TbfHeaderShortId
  else if h =? 128 then TbfFooterCredentials
  else Unknown.

Definition tlv_try_from (b : list Z) : result TbfTlv TbfParseError :=
  let? t := le_at b 0 2 InternalError in
  let? l := le_at b 2 4 InternalError in
  Ok (mkTlv (tipe_try_from t) l).

Definition main_try_from (b : list Z) : result TbfHeaderV2Main TbfParseError :=
  if (length b <? 12)%nat then Err InternalError
  else
    let? i := le_at b 0 4 InternalError in
    let? p := le_at b 4 8 InternalError in
    let? m := le_at b 8 12 InternalError in
    Ok (mkMain i p m).

Definition program_try_from (b : list Z) : result TbfHeaderV2Program TbfParseError :=
  if (length b <? 20)%nat then Err InternalError
  else
    let? i := le_at b 0 4 InternalError in
    let? p := le_at b 4 8 InternalError in
    let? m := le_at b 8 12 InternalError in
    let? e := le_at b 12 16 InternalError in
    let? v := le_at b 16 20 InternalError in
    Ok (mkProgram i p m e v).

Definition region_try_from (b : list Z) : result TbfHeaderV2WriteableFlashRegion TbfParseError :=
  let? o := le_at b 0 4 InternalError in
  let? s := le_at b 4 8 InternalError in
  Ok (mkRegion o s).

Definition fixed_try_from (b : list Z) : result TbfHeaderV2FixedAddresses TbfParseError :=
  let? r := le_at b 0 4 InternalError in
  let? f := le_at b 4 8 InternalError in
  Ok (mkFixed r f).

Definition permission_try_from (b : list Z) : result TbfHeaderDriverPermission TbfParseError :=
  if (length b <? 16)%nat then Err InternalError
  else
    let? d := le_at b 0 4 InternalError in
    let? o := le_at b 4 8 InternalError in
    let? a := le_at b 8 16 InternalError in
    Ok (mkPermission d o a).

(** One of the two loops of the storage permissions: the identifiers with the
    numbers [is_], the first at [base], stored into the array [ids]. *)
Fixpoint read_ids (b : list Z) (base : nat) (is_ : list nat) (ids : list Z)
    : result (list Z) TbfParseError :=
  match is_ with
  | [] => Ok ids
  | i :: is_ =>
    let start := (base + i * 4)%nat in
    if (i <? length ids)%nat then
      let? v := le_at b start (start + 4) NotEnoughFlash in
      read_ids b base is_ (<[i := v]> ids)
    else Err (BadTlvEntry (tipe_as_usize TbfHeaderStoragePermissions))
  end.

Definition storage_try_from (L : nat) (b : list Z)
    : result TbfHeaderV2StoragePermissions TbfParseError :=
  let? w := le_at b 0 4 NotEnoughFlash in
  let? read_length := le_at b 4 6 NotEnoughFlash in
  let? rids := read_ids b 6 (seq 0 (Z.to_nat read_length)) (replicate L 0) in
  let read_end := (6 + Z.to_nat read_length * 4)%nat in
  let? modify_length := le_at b read_end (read_end + 2) NotEnoughFlash in
  let? mids := read_ids b (read_end + 2) (seq 0 (Z.to_nat modify_length)) (replicate L 0) in
  Ok (mkStorage (non_zero w) read_length rids modify_length mids).

Definition kernel_version_try_from (b : list Z) : result TbfHeaderV2KernelVersion TbfParseError :=
  let? major := le_at b 0 2 InternalError in
  let? minor := le_at b 2 4 InternalError in
  Ok (mkKernelVersion major minor).

Definition short_id_try_from (b : list Z) : result TbfHeaderV2ShortId TbfParseError :=
  let? v := le_at b 0 4 InternalError in
  Ok (mkShortId (non_zero v)).

Definition credentials_length (t : TbfFooterV2CredentialsType) : nat :=
  match t with
  | Reserved => 0
  | Rsa3072Key => 768
  | Rsa4096Key => 1024
  | SHA256 => 32
  | SHA384 => 48
  | SHA512 => 64
  end.

Definition credentials_try_from (b : list Z) : result TbfFooterV2Credentials TbfParseError :=
  let? format := le_at b 0 4 InternalError in
  let? ftype :=
    (if format =? 0 then Ok Reserved
     else if format =? 1 then Ok Rsa3072Key
     else if format =? 2 then Ok Rsa4096Key
     else if format =? 3 then Ok SHA256
     else if format =? 4 then Ok SHA384
     else if format =? 5 then Ok SHA512
     else Err (BadTlvEntry (tipe_as_usize TbfFooterCredentials))) in
  let length := credentials_length ftype in
  let? data := ok_or (get b 4 (length + 4)) NotEnoughFlash in
  Ok (mkCredentials ftype data).

(** * UTF-8 ([core::str::from_utf8]): well-formed sequences only, without
    surrogates, overlong forms and code points above 0x10FFFF. *)

Definition between (lo hi b : Z) : bool := (lo <=? b) && (b <=? hi).
Definition cont (b : Z) : bool := between 128 191 b.

Fixpoint utf8_valid (s : list Z) : bool :=
  match s with
  | [] => true
  | b0 :: s0 =>
    if b0 <? 128 then utf8_valid s0
    else match s0 with
    | [] => false
    | b1 :: s1 =>
      if between 194 223 b0 then cont b1 && utf8_valid s1
      else match s1 with
      | [] => false
      | b2 :: s2 =>
        if b0 =? 224 then between 160 191 b1 && cont b2 && utf8_valid s2
        else if between 225 236 b0 || between 238 239 b0 then cont b1 && cont b2 && utf8_valid s2
        else if b0 =? 237 then between 128 159 b1 && cont b2 && utf8_valid s2
        else match s2 with
        | [] => false
        | b3 :: s3 =>
          if b0 =? 240 then between 144 191 b1 && cont b2 && cont b3 && utf8_valid s3
          else if between 241 243 b0 then cont b1 && cont b2 && cont b3 && utf8_valid s3
          else if b0 =? 244 then between 128 143 b1 && cont b2 && cont b3 && utf8_valid s3
          else false
        end
      end
    end
  end.

(** * The header *)

Record TbfHeaderV2 := mkHeaderV2 {
  base : TbfHeaderV2Base;
  main : option TbfHeaderV2Main;
  program : option TbfHeaderV2Program;
  package_name : option (list Z);
  writeable_regions : option (list Z);
  fixed_addresses : option (list Z);
  permissions : option (list Z);
  storage_permissions : option (list Z);
  kernel_version : option TbfHeaderV2KernelVersion;
  short_id : option TbfHeaderV2ShortId;
}.

Inductive TbfHeader := HeaderV2 (hd : TbfHeaderV2) | Padding (base : TbfHeaderV2Base).

(** * Parsing *)

Definition parse_tbf_header_lengths (app : list Z) : result (Z * Z * Z) InitialTbfParseError :=
  let version := from_le_bytes (take 2 app) in
  if version =? 2 then
    let tbf_header_size := from_le_bytes (take 2 (drop 2 app)) in
    let tbf_size := from_le_bytes (take 4 (drop 4 app)) in
    if (tbf_size <? tbf_header_size) || (tbf_header_size <? 16) then Err (InvalidHeader tbf_size)
    else Ok (version, tbf_header_size, tbf_size)
  else Err UnableToParse.

(** [header.chunks_exact(4)] *)
Fixpoint chunks_exact4 (l : list Z) : list (list Z) :=
  match l with
  | a :: b :: c :: d :: l => [a; b; c; d] :: chunks_exact4 l
  | _ => []
  end.

(** The loop over the chunks, from chunk number [i]. *)
Fixpoint checksum_loop (i : nat) (chunks : list (list Z)) (checksum : Z) : Z :=
  match chunks with
  | [] => checksum
  | chunk :: chunks =>
    let word := from_le_bytes chunk in
    checksum_loop (S i) chunks (if (i =? 3)%nat then checksum else Z.lxor checksum word)
  end.
Definition compute_checksum (header : list Z) : Z := checksum_loop 0 (chunks_exact4 header) 0.

(** The variables of the loop over the entries. *)
Record Fields := mkFields {
  main_pointer : option TbfHeaderV2Main;
  program_pointer : option TbfHeaderV2Program;
  wfr_pointer : option (list Z);
  app_name_str : list Z;
  fixed_address_pointer : option (list Z);
  permissions_pointer : option (list Z);
  storage_permissions_pointer : option (list Z);
  kernel_version_found : option TbfHeaderV2KernelVersion;
  short_id_found : option TbfHeaderV2ShortId;
}.
Definition no_fields : Fields := mkFields None None None [] None None None None None.

Definition set_main v (f : Fields) : Fields :=
  mkFields v (program_pointer f) (wfr_pointer f) (app_name_str f) (fixed_address_pointer f)
    (permissions_pointer f) (storage_permissions_pointer f) (kernel_version_found f) (short_id_found f).
Definition set_program v (f : Fields) : Fields :=
  mkFields (main_pointer f) v (wfr_pointer f) (app_name_str f) (fixed_address_pointer f)
    (permissions_pointer f) (storage_permissions_pointer f) (kernel_version_found f) (short_id_found f).
Definition set_wfr v (f : Fields) : Fields :=
  mkFields (main_pointer f) (program_pointer f) v (app_name_str f) (fixed_address_pointer f)
    (permissions_pointer f) (storage_permissions_pointer f) (kernel_version_found f) (short_id_found f).
Definition set_name v (f : Fields) : Fields :=
  mkFields (main_pointer f) (program_pointer f) (wfr_pointer f) v (fixed_address_pointer f)
    (permissions_pointer f) (storage_permissions_pointer f) (kernel_version_found f) (short_id_found f).
Definition set_fixed v (f : Fields) : Fields :=
  mkFields (main_pointer f) (program_pointer f) (wfr_pointer f) (app_name_str f) v
    (permissions_pointer f) (storage_permissions_pointer f) (kernel_version_found f) (short_id_found f).
Definition set_permissions v (f : Fields) : Fields :=
  mkFields (main_pointer f) (program_pointer f) (wfr_pointer f) (app_name_str f)
    (fixed_address_pointer f) v (storage_permissions_pointer f) (kernel_version_found f)
    (short_id_found f).
Definition set_storage v (f : Fields) : Fields :=
  mkFields (main_pointer f) (program_pointer f) (wfr_pointer f) (app_name_str f)
    (fixed_address_pointer f) (permissions_pointer f) v (kernel_version_found f) (short_id_found f).
Definition set_kernel_version v (f : Fields) : Fields :=
  mkFields (main_pointer f) (program_pointer f) (wfr_pointer f) (app_name_str f)
    (fixed_address_pointer f) (permissions_pointer f) (storage_permissions_pointer f) v
    (short_id_found f).
Definition set_short_id v (f : Fields) : Fields :=
  mkFields (main_pointer f) (program_pointer f) (wfr_pointer f) (app_name_str f)
    (fixed_address_pointer f) (permissions_pointer f) (storage_permissions_pointer f)
    (kernel_version_found f) v.

(** The [match] on the type of an entry, whose contents are at the front of
    [remaining]. *)
Definition read_entry (tlv : TbfTlv) (remaining : list Z) (f : Fields)
    : result Fields TbfParseError :=
  let len := Z.to_nat (tlv_length tlv) in
  let bad := Err (BadTlvEntry (tipe_as_usize (tlv_tipe tlv))) in
  match tlv_tipe tlv with
  | TbfHeaderMain =>
    match main_pointer f with
    | Some _ => Ok f
    | None =>
      if (len =? 12)%nat then
        let? s := ok_or (get remaining 0 12) NotEnoughFlash in
        let? m := main_try_from s in
        Ok (set_main (Some m) f)
      else bad
    end
  | TbfHeaderProgram =>
    match program_pointer f with
    | Some _ => Ok f
    | None =>
      if (len =? 20)%nat then
        let? s := ok_or (get remaining 0 20) NotEnoughFlash in
        let? p := program_try_from s in
        Ok (set_program (Some p) f)
      else bad
    end
  | TbfHeaderWriteableFlashRegions =>
    if (len mod 8 =? 0)%nat then
      let? s := ok_or (get remaining 0 len) NotEnoughFlash in
      Ok (set_wfr (Some s) f)
    else bad
  | TbfHeaderPackageName =>
    let? s := ok_or (get remaining 0 len) NotEnoughFlash in
    if utf8_valid s then Ok (set_name s f) else Err BadProcessName
  | TbfHeaderFixedAddresses =>
    if (len =? 8)%nat then
      let? s := ok_or (get remaining 0 8) NotEnoughFlash in
      Ok (set_fixed (Some s) f)
    else bad
  | TbfHeaderPermissions =>
    let? s := ok_or (get remaining 0 len) NotEnoughFlash in
    Ok (set_permissions (Some s) f)
  | TbfHeaderStoragePermissions =>
    let? s := ok_or (get remaining 0 len) NotEnoughFlash in
    Ok (set_storage (Some s) f)
  | TbfHeaderKernelVersion =>
    if (len =? 4)%nat then
      let? s := ok_or (get remaining 0 4) NotEnoughFlash in
      let? v := kernel_version_try_from s in
      Ok (set_kernel_version (Some v) f)
    else bad
  | TbfHeaderShortId =>
    if (len =? 4)%nat then
      let? s := ok_or (get remaining 0 4) NotEnoughFlash in
      let? v := short_id_try_from s in
      Ok (set_short_id (Some v) f)
    else bad
  | TbfFooterCredentials | Unknown => Ok f
  end.

(** [n.checked_next_multiple_of(4)]; a [u16] length does not overflow. *)
Definition next_multiple_of4 (n : nat) : nat := ((n + 3) / 4 * 4)%nat.

(** One turn of the loop. *)
Definition parse_tlv (f : Fields) (remaining : list Z)
    : result (Fields * list Z) TbfParseError :=
  let? t := ok_or (get remaining 0 4) NotEnoughFlash in
  let? tlv := tlv_try_from t in
  let? remaining := ok_or (get_from remaining 4) NotEnoughFlash in
  let? f := read_entry tlv remaining f in
  let skip_len := next_multiple_of4 (Z.to_nat (tlv_length tlv)) in
  let? remaining := ok_or (get_from remaining skip_len) NotEnoughFlash in
  Ok (f, remaining).

Fixpoint parse_tlvs (fuel : nat) (f : Fields) (remaining : list Z)
    : outcome (result Fields TbfParseError) :=
  match remaining with
  | [] => Ret (Ok f)
  | _ :: _ =>
    match fuel with
    | O => Diverge
    | S fuel =>
      match parse_tlv f remaining with
      | Err e => Ret (Err e)
      | Ok (f, remaining) => parse_tlvs fuel f remaining
      end
    end
  end.

Definition header_of_fields (b : TbfHeaderV2Base) (f : Fields) : TbfHeaderV2 :=
  mkHeaderV2 b (main_pointer f) (program_pointer f) (Some (app_name_str f)) (wfr_pointer f)
    (fixed_address_pointer f) (permissions_pointer f) (storage_permissions_pointer f)
    (kernel_version_found f) (short_id_found f).

Definition parse_tbf_header (header : list Z) (version : Z)
    : outcome (result TbfHeader TbfParseError) :=
  if version =? 2 then
    match base_try_from header with
    | Err e => Ret (Err e)
    | Ok tbf_header_base =>
      let checksum_ := compute_checksum header in
      if negb (checksum_ =? checksum tbf_header_base) then
        Ret (Err (ChecksumMismatch (checksum tbf_header_base) checksum_))
      else match get_from header 16 with
      | None => Ret (Err NotEnoughFlash)
      | Some remaining =>
        if (length remaining =? 0)%nat then Ret (Ok (Padding tbf_header_base))
        else
          let! r := parse_tlvs (length remaining) no_fields remaining in
          Ret (let? f := r in Ok (HeaderV2 (header_of_fields tbf_header_base f)))
      end
    end
  else Ret (Err (UnsupportedVersion version)).

Definition parse_tbf_footer (footers : list Z)
    : result (TbfFooterV2Credentials * Z) TbfParseError :=
  let? t := ok_or (get footers 0 4) NotEnoughFlash in
  let? tlv := tlv_try_from t in
  let? remaining := ok_or (get_from footers 4) NotEnoughFlash in
  match tlv_tipe tlv with
  | TbfFooterCredentials =>
    let? s := ok_or (get remaining 0 (Z.to_nat (tlv_length tlv))) NotEnoughFlash in
    let? credential := credentials_try_from s in
    Ok (credential, tlv_length tlv)
  | t => Err (BadTlvEntry (tipe_as_usize t))
  end.

(** * What the kernel reads from a header *)

Definition header_length (h : TbfHeader) : Z :=
  match h with HeaderV2 hd => header_size (base hd) | Padding b => header_size b end.
Definition is_app (h : TbfHeader) : bool :=
  match h with HeaderV2 _ => true | Padding _ => false end.
Definition enabled (h : TbfHeader) : bool :=
  match h with HeaderV2 hd => Z.land (flags (base hd)) 1 =? 1 | Padding _ => false end.

Definition get_minimum_app_ram_size (h : TbfHeader) : Z :=
  match h with
  | HeaderV2 hd =>
    match program hd with
    | Some p => prog_minimum_ram_size p
    | None => match main hd with Some m => main_minimum_ram_size m | None => 0 end
    end
  | Padding _ => 0
  end.

Definition get_protected_size (h : TbfHeader) : outcome Z :=
  match h with
  | HeaderV2 hd =>
    match program hd with
    | Some p => add32 (header_size (base hd)) (prog_protected_trailer_size p)
    | None =>
      match main hd with
      | Some m => add32 (header_size (base hd)) (main_protected_trailer_size m)
      | None => Ret 0
      end
    end
  | Padding _ => Ret 0
  end.

Definition get_app_start_offset (h : TbfHeader) : outcome Z := get_protected_size h.

Definition get_init_function_offset (h : TbfHeader) : outcome Z :=
  match h with
  | HeaderV2 hd =>
    match program hd with
    | Some p => add32 (prog_init_fn_offset p) (header_size (base hd))
    | None =>
      match main hd with
      | Some m => add32 (main_init_fn_offset m) (header_size (base hd))
      | None => Ret 0
      end
    end
  | Padding _ => Ret 0
  end.

Definition get_package_name (h : TbfHeader) : option (list Z) :=
  match h with HeaderV2 hd => package_name hd | Padding _ => None end.

Definition number_writeable_flash_regions (h : TbfHeader) : Z :=
  match h with
  | HeaderV2 hd =>
    match writeable_regions hd with
    | None => 0
    | Some wr_slice => Z.of_nat (length wr_slice) / 8
    end
  | Padding _ => 0
  end.

Definition get_writeable_flash_region (h : TbfHeader) (index : Z) : outcome (Z * Z) :=
  match h with
  | HeaderV2 hd =>
    match writeable_regions hd with
    | None => Ret (0, 0)
    | Some wr_slice =>
      let! a := mul32 index 8 in
      let! i1 := add32 index 1 in
      let! b := mul32 i1 8 in
      match get wr_slice (Z.to_nat a) (Z.to_nat b) with
      | None => Ret (0, 0)
      | Some s =>
        match region_try_from s with
        | Ok wr => Ret (wfr_offset wr, wfr_size wr)
        | Err _ => Ret (0, 0)
        end
      end
    end
  | Padding _ => Ret (0, 0)
  end.

Definition fixed_address (which : TbfHeaderV2FixedAddresses -> Z) (h : TbfHeader) : option Z :=
  match h with
  | HeaderV2 hd =>
    match fixed_addresses hd with
    | None => None
    | Some s =>
      match fixed_try_from s with
      | Err _ => None
      | Ok fa => if which fa =? 4294967295 then None else Some (which fa)
      end
    end
  | Padding _ => None
  end.
Definition get_fixed_address_ram : TbfHeader -> option Z := fixed_address start_process_ram.
Definition get_fixed_address_flash : TbfHeader -> option Z := fixed_address start_process_flash.

Inductive CommandPermissions :=
  | NoPermsAtAll | NoPermsThisDriver | Mask (allowed : Z).

(** The loop over the permissions with the numbers [is_]; [None] is the error of
    the helper function. *)
Fixpoint permissions_loop (slice : list Z) (driver_num offset : Z) (is_ : list nat)
    (found_driver_num : bool) : option CommandPermissions :=
  match is_ with
  | [] => Some (if found_driver_num then Mask 0 else NoPermsThisDriver)
  | i :: is_ =>
    match get slice (i * 16) ((i + 1) * 16) with
    | None => None
    | Some s =>
      match permission_try_from s with
      | Err _ => None
      | Ok perm =>
        if perm_driver_number perm =? driver_num then
          if perm_offset perm =? offset then Some (Mask (perm_allowed_commands perm))
          else permissions_loop slice driver_num offset is_ true
        else permissions_loop slice driver_num offset is_ found_driver_num
      end
    end
  end.

Definition get_command_permissions (h : TbfHeader) (driver_num offset : Z) : CommandPermissions :=
  match h with
  | HeaderV2 hd =>
    match permissions hd with
    | Some permissions_tlv_slice =>
      let r :=
        match get permissions_tlv_slice 0 2 with
        | None => None
        | Some n =>
          match get_from permissions_tlv_slice 2 with
          | None => None
          | Some permissions_slice =>
            permissions_loop permissions_slice driver_num offset
              (seq 0 (Z.to_nat (from_le_bytes n))) false
          end
        end in
      default NoPermsAtAll r
    | None => NoPermsAtAll
    end
  | Padding _ => NoPermsAtAll
  end.

Definition storage (h : TbfHeader) : option TbfHeaderV2StoragePermissions :=
  match h with
  | HeaderV2 hd =>
    match storage_permissions hd with
    | Some s =>
      match storage_try_from NUM_STORAGE_PERMISSIONS s with Ok sp => Some sp | Err _ => None end
    | None => None
    end
  | Padding _ => None
  end.

Definition get_storage_write_id (h : TbfHeader) : option Z :=
  match h with
  | HeaderV2 hd =>
    match storage_permissions hd with
    | Some s =>
      match get s 0 4 with
      | None => None
      | Some w => non_zero (from_le_bytes w)
      end
    | None => None
    end
  | Padding _ => None
  end.
Definition get_storage_read_ids (h : TbfHeader) : option (Z * list Z) :=
  sp ← storage h; Some (sp_read_length sp, sp_read_ids sp).
Definition get_storage_modify_ids (h : TbfHeader) : option (Z * list Z) :=
  sp ← storage h; Some (sp_modify_length sp, sp_modify_ids sp).

Definition get_kernel_version (h : TbfHeader) : option (Z * Z) :=
  match h with
  | HeaderV2 hd => v ← kernel_version hd; Some (kv_major v, kv_minor v)
  | Padding _ => None
  end.

Definition get_binary_end (h : TbfHeader) : Z :=
  match h with
  | HeaderV2 hd =>
    match program hd with
    | Some p => prog_binary_end_offset p
    | None => total_size (base hd)
    end
  | Padding _ => 0
  end.

Definition get_binary_version (h : TbfHeader) : Z :=
  match h with
  | HeaderV2 hd => match program hd with Some p => prog_version p | None => 0 end
  | Padding _ => 0
  end.

Definition get_fixed_short_id (h : TbfHeader) : option Z :=
  match h with
  | HeaderV2 hd => v ← short_id hd; si_short_id v
  | Padding _ => None
  end.

End Tbf.
