(* ===== verification/TbfSpec.v ===== *)
(** Correctness of the Tock Binary Format parser: it terminates, it recovers the
    entries of every header that an encoder of the format writes, it rejects
    every header with one wrong bit, and the permission tables are read as
    written. *)

From stdpp Require Import base numbers list.
From S2P Require Import Prelude Tbf.
Import Tbf.
Local Open Scope Z_scope.

Module TbfSpec.

(** * Slices at the front of a list *)

Lemma le_at_app l r e : le_at (l ++ r) 0 (length l) e = Ok (from_le_bytes l).
Proof. unfold le_at. by rewrite get_app. Qed.

Lemma get_shift {A} (l r : list A) a b :
  get (l ++ r) (length l + a) (length l + b) = get r a b.
Proof.
  unfold get. rewrite length_app, drop_app_add.
  replace (length l + b - (length l + a))%nat with (b - a)%nat by lia.
  destruct (Nat.leb_spec a b), (Nat.leb_spec b (length r)),
    (Nat.leb_spec (length l + a) (length l + b)),
    (Nat.leb_spec (length l + b) (length l + length r)); cbn; done || lia.
Qed.

Lemma le_at_shift l r a b e :
  le_at (l ++ r) (length l + a) (length l + b) e = le_at r a b e.
Proof. unfold le_at. by rewrite get_shift. Qed.

(** Encoded integers of [n] bytes in a row. *)
Definition row (n : nat) (vs : list Z) : list Z := concat (map (to_le_bytes n) vs).

Lemma row_length n vs : length (row n vs) = (length vs * n)%nat.
Proof.
  unfold row. induction vs as [|v vs IH]; cbn; [done|].
  by rewrite length_app, to_le_bytes_length, IH.
Qed.

Lemma row_ok n vs : bytes_ok (row n vs).
Proof. apply Forall_concat, Forall_map, Forall_forall. intros v _. apply to_le_bytes_ok. Qed.

Lemma le_at_row n vs i v rest a c e :
  vs !! i = Some v -> 0 <= v < 2 ^ (8 * Z.of_nat n) -> a = (i * n)%nat -> c = (a + n)%nat ->
  le_at (row n vs ++ rest) a c e = Ok v.
Proof.
  intros Hi Hv -> ->. revert vs Hi. induction i as [|i IH]; intros [|w vs] Hi; try done.
  - injection Hi as <-. unfold row. cbn [map concat]. rewrite <- app_assoc. cbn [Nat.mul Nat.add].
    replace n with (length (to_le_bytes n w)) at 3 by apply to_le_bytes_length.
    rewrite le_at_app. by rewrite from_to_le_bytes.
  - unfold row. cbn [map concat]. fold (row n vs). rewrite <- app_assoc.
    pose proof (to_le_bytes_length n w) as Hl.
    replace (S i * n + n)%nat with (length (to_le_bytes n w) + (i * n + n))%nat by lia.
    replace (S i * n)%nat with (length (to_le_bytes n w) + i * n)%nat by lia.
    rewrite le_at_shift. by apply IH.
Qed.

Lemma le_at_row0 n vs i v a c e :
  vs !! i = Some v -> 0 <= v < 2 ^ (8 * Z.of_nat n) -> a = (i * n)%nat -> c = (a + n)%nat ->
  le_at (row n vs) a c e = Ok v.
Proof. intros. rewrite <- (app_nil_r (row n vs)). by eapply le_at_row. Qed.

(** * The format *)

(** The entries of a header. *)
Inductive entry :=
  | EMain (m : TbfHeaderV2Main)
  | EProgram (p : TbfHeaderV2Program)
  | ERegions (rs : list TbfHeaderV2WriteableFlashRegion)
  | EName (s : list Z)
  | EFixed (a : TbfHeaderV2FixedAddresses)
  | EPermissions (s : list Z)
  | EStorage (s : list Z)
  | EKernelVersion (v : TbfHeaderV2KernelVersion)
  | EShortId (i : TbfHeaderV2ShortId)
  | EOther (tipe : Z) (s : list Z).

Definition encode_region (r : TbfHeaderV2WriteableFlashRegion) : list Z :=
  row 4 [wfr_offset r; wfr_size r].

Definition tipe_of (e : entry) : Z :=
  match e with
  | EMain _ => 1 | EProgram _ => 9 | ERegions _ => 2 | EName _ => 3 | EFixed _ => 5
  | EPermissions _ => 6 | EStorage _ => 7 | EKernelVersion _ => 8 | EShortId _ => 10
  | EOther t _ => t
  end.

Definition payload (e : entry) : list Z :=
  match e with
  | EMain m => row 4 [main_init_fn_offset m; main_protected_trailer_size m; main_minimum_ram_size m]
  | EProgram p => row 4 [prog_init_fn_offset p; prog_protected_trailer_size p;
      prog_minimum_ram_size p; prog_binary_end_offset p; prog_version p]
  | ERegions rs => concat (map encode_region rs)
  | EName s | EPermissions s | EStorage s | EOther _ s => s
  | EFixed a => row 4 [start_process_ram a; start_process_flash a]
  | EKernelVersion v => row 2 [kv_major v; kv_minor v]
  | EShortId i => row 4 [default 0 (si_short_id i)]
  end.

Definition padding (n : nat) : list Z := replicate (next_multiple_of4 n - n) 0.

Definition encode_entry (e : entry) : list Z :=
  row 2 [tipe_of e; Z.of_nat (length (payload e))] ++ payload e ++ padding (length (payload e)).

Definition u16 (z : Z) : Prop := 0 <= z < 2 ^ 16.

Definition entry_ok (e : entry) : Prop :=
  bytes_ok (payload e) /\ Z.of_nat (length (payload e)) < 2 ^ 16 /\
  match e with
  | EMain m => u32_range (main_init_fn_offset m) /\ u32_range (main_protected_trailer_size m) /\
      u32_range (main_minimum_ram_size m)
  | EProgram p => u32_range (prog_init_fn_offset p) /\ u32_range (prog_protected_trailer_size p) /\
      u32_range (prog_minimum_ram_size p) /\ u32_range (prog_binary_end_offset p) /\
      u32_range (prog_version p)
  | EName s => utf8_valid s = true
  | EKernelVersion v => u16 (kv_major v) /\ u16 (kv_minor v)
  | EShortId i => match si_short_id i with Some v => 0 < v < U32 | None => True end
  | EOther t _ => u16 t /\ tipe_try_from t = Unknown \/ t = 128
  | _ => True
  end.

(** What a header with these entries means: the first of a kind counts for the
    main and program entries, the last for the others. *)
Definition mains (es : list entry) := omap (fun e => match e with EMain m => Some m | _ => None end) es.
Definition programs (es : list entry) := omap (fun e => match e with EProgram p => Some p | _ => None end) es.
Definition regions (es : list entry) :=
  omap (fun e => match e with ERegions _ => Some (payload e) | _ => None end) es.
Definition names (es : list entry) := omap (fun e => match e with EName s => Some s | _ => None end) es.
Definition fixeds (es : list entry) := omap (fun e => match e with EFixed _ => Some (payload e) | _ => None end) es.
Definition perms (es : list entry) := omap (fun e => match e with EPermissions s => Some s | _ => None end) es.
Definition storages (es : list entry) := omap (fun e => match e with EStorage s => Some s | _ => None end) es.
Definition kernel_versions (es : list entry) :=
  omap (fun e => match e with EKernelVersion v => Some v | _ => None end) es.
Definition short_ids (es : list entry) := omap (fun e => match e with EShortId i => Some i | _ => None end) es.

Definition meaning (es : list entry) : Fields :=
  mkFields (head (mains es)) (head (programs es)) (last (regions es)) (default [] (last (names es)))
    (last (fixeds es)) (last (perms es)) (last (storages es)) (last (kernel_versions es))
    (last (short_ids es)).

(** * One entry *)

(** What an entry does to the fields found so far. *)
Definition or_first {A} (o n : option A) : option A :=
  match o with Some _ => o | None => n end.
Definition apply_entry (e : entry) (f : Fields) : Fields :=
  match e with
  | EMain m => set_main (or_first (main_pointer f) (Some m)) f
  | EProgram p => set_program (or_first (program_pointer f) (Some p)) f
  | ERegions _ => set_wfr (Some (payload e)) f
  | EName s => set_name s f
  | EFixed _ => set_fixed (Some (payload e)) f
  | EPermissions s => set_permissions (Some s) f
  | EStorage s => set_storage (Some s) f
  | EKernelVersion v => set_kernel_version (Some v) f
  | EShortId i => set_short_id (Some i) f
  | EOther _ _ => f
  end.

(** Reads a field of an encoded row. *)
Ltac field i := rewrite (le_at_row0 _ _ i _) by (reflexivity || assumption || lia); cbn [rbind].

Lemma main_roundtrip m : entry_ok (EMain m) -> main_try_from (payload (EMain m)) = Ok m.
Proof.
  intros (_ & _ & H1 & H2 & H3). unfold main_try_from. cbn [payload]. rewrite row_length.
  cbn [length Nat.mul Nat.add Nat.ltb Nat.leb]. unfold u32_range, U32 in *.
  field 0%nat. field 1%nat. field 2%nat. by destruct m.
Qed.

Lemma program_roundtrip p : entry_ok (EProgram p) -> program_try_from (payload (EProgram p)) = Ok p.
Proof.
  intros (_ & _ & H1 & H2 & H3 & H4 & H5). unfold program_try_from. cbn [payload]. rewrite row_length.
  cbn [length Nat.mul Nat.add Nat.ltb Nat.leb]. unfold u32_range, U32 in *.
  field 0%nat. field 1%nat. field 2%nat. field 3%nat. field 4%nat. by destruct p.
Qed.

Lemma kernel_version_roundtrip v :
  entry_ok (EKernelVersion v) -> kernel_version_try_from (payload (EKernelVersion v)) = Ok v.
Proof.
  intros (_ & _ & H1 & H2). unfold kernel_version_try_from, u16 in *. cbn [payload].
  field 0%nat. field 1%nat. by destruct v.
Qed.

Lemma short_id_roundtrip i :
  entry_ok (EShortId i) -> short_id_try_from (payload (EShortId i)) = Ok i.
Proof.
  intros (_ & _ & H). unfold short_id_try_from. cbn [payload]. destruct i as [ [v|] ];
    cbn [si_short_id from_option id] in H |- *.
  - unfold U32 in H. rewrite (le_at_row0 4 [v] 0 v) by (reflexivity || lia). cbn. unfold non_zero.
    by destruct (Z.eqb_spec v 0); [lia|].
  - by rewrite (le_at_row0 4 [0] 0 0) by (reflexivity || lia).
Qed.

Lemma tlv_roundtrip t l rest :
  u16 t -> u16 l ->
  get (row 2 [t; l] ++ rest) 0 4 = Some (row 2 [t; l]) /\
  tlv_try_from (row 2 [t; l]) = Ok (mkTlv (tipe_try_from t) l) /\
  get_from (row 2 [t; l] ++ rest) 4 = Some rest.
Proof.
  intros Ht Hl. pose proof (row_length 2 [t; l]) as Hr. cbn [length Nat.mul Nat.add] in Hr.
  split; [rewrite <- Hr at 1; apply get_app|]. split; [|rewrite <- Hr at 1; apply get_from_app].
  unfold tlv_try_from, u16 in *. field 0%nat. field 1%nat. done.
Qed.

Lemma get_payload (s rest : list Z) n : n = length s -> get (s ++ rest) 0 n = Some s.
Proof. intros ->. apply get_app. Qed.

Lemma regions_length rs : length (concat (map encode_region rs)) = (8 * length rs)%nat.
Proof.
  induction rs as [|r rs IH]; [done|]. cbn [map concat]. rewrite length_app, IH.
  unfold encode_region. rewrite row_length. cbn [length]. lia.
Qed.

Lemma apply_main_present e f m : e = EMain m -> is_Some (main_pointer f) -> apply_entry e f = f.
Proof. intros -> [m' Hm]. destruct f. cbn in Hm. by subst. Qed.

Lemma apply_program_present e f p :
  e = EProgram p -> is_Some (program_pointer f) -> apply_entry e f = f.
Proof. intros -> [m' Hm]. destruct f. cbn in Hm. by subst. Qed.

(** The [match] of the parser reads back every entry. *)
Lemma read_entry_encode e f rest :
  entry_ok e ->
  read_entry (mkTlv (tipe_try_from (tipe_of e)) (Z.of_nat (length (payload e))))
    (payload e ++ rest) f = Ok (apply_entry e f).
Proof.
  intros He. unfold read_entry. cbn [tlv_tipe tlv_length]. rewrite Nat2Z.id.
  destruct e as [m|p|rs|s|a|s|s|v|i|t s]; cbn [tipe_of].
  - change (tipe_try_from 1) with TbfHeaderMain. cbn iota.
    destruct (main_pointer f) eqn:Hf; [by erewrite apply_main_present by (done || by rewrite Hf)|].
    rewrite (get_payload (payload (EMain m))) by (cbn [payload]; by rewrite row_length).
    cbn [ok_or rbind]. rewrite main_roundtrip by done. cbn. by rewrite Hf.
  - change (tipe_try_from 9) with TbfHeaderProgram. cbn iota.
    destruct (program_pointer f) eqn:Hf;
      [by erewrite apply_program_present by (done || by rewrite Hf)|].
    rewrite (get_payload (payload (EProgram p))) by (cbn [payload]; by rewrite row_length).
    cbn [ok_or rbind]. rewrite program_roundtrip by done. cbn. by rewrite Hf.
  - change (tipe_try_from 2) with TbfHeaderWriteableFlashRegions. cbn iota.
    rewrite get_payload by done. cbn [payload]. rewrite regions_length.
    by rewrite (Nat.mul_comm 8), Nat.Div0.mod_mul.
  - change (tipe_try_from 3) with TbfHeaderPackageName. cbn iota.
    rewrite get_payload by done. cbn [ok_or rbind payload]. by destruct He as (_ & _ & ->).
  - change (tipe_try_from 5) with TbfHeaderFixedAddresses. cbn iota.
    by rewrite get_payload by (cbn [payload]; by rewrite row_length).
  - change (tipe_try_from 6) with TbfHeaderPermissions. cbn iota. by rewrite get_payload.
  - change (tipe_try_from 7) with TbfHeaderStoragePermissions. cbn iota. by rewrite get_payload.
  - change (tipe_try_from 8) with TbfHeaderKernelVersion. cbn iota.
    rewrite get_payload by (cbn [payload]; by rewrite row_length).
    cbn [ok_or rbind]. by rewrite kernel_version_roundtrip.
  - change (tipe_try_from 10) with TbfHeaderShortId. cbn iota.
    rewrite get_payload by (cbn [payload]; by rewrite row_length).
    cbn [ok_or rbind]. by rewrite short_id_roundtrip.
  - destruct He as (_ & _ & [ [_ ->] | ->]); done.
Qed.

Lemma tipe_u16 e : entry_ok e -> u16 (tipe_of e).
Proof.
  unfold u16. intros (_ & _ & H). destruct e; cbn [tipe_of]; try done.
  destruct H as [ [H _] | ->]; [exact H|lia].
Qed.

Lemma next_multiple_bounds n :
  (n <= next_multiple_of4 n < n + 4)%nat /\ (next_multiple_of4 n mod 4 = 0)%nat.
Proof.
  unfold next_multiple_of4. rewrite Nat.Div0.mod_mul. split; [|done].
  pose proof (Nat.div_mod_eq (n + 3) 4). pose proof (Nat.mod_upper_bound (n + 3) 4). lia.
Qed.

Lemma payload_padding_length e :
  length (payload e ++ padding (length (payload e))) = next_multiple_of4 (length (payload e)).
Proof.
  unfold padding. rewrite length_app, length_replicate.
  pose proof (next_multiple_bounds (length (payload e))). lia.
Qed.

(** One turn of the loop consumes one encoded entry. *)
Lemma parse_tlv_encode e f rest :
  entry_ok e -> parse_tlv f (encode_entry e ++ rest) = Ok (apply_entry e f, rest).
Proof.
  intros He. unfold parse_tlv, encode_entry. rewrite <- app_assoc.
  destruct (tlv_roundtrip (tipe_of e) (Z.of_nat (length (payload e)))
    ((payload e ++ padding (length (payload e))) ++ rest)) as (-> & Ht & ->).
  { by apply tipe_u16. }
  { destruct He as (_ & Hl & _). unfold u16. lia. }
  cbn [ok_or rbind]. rewrite Ht. cbn [rbind tlv_length]. rewrite <- app_assoc.
  rewrite read_entry_encode by done. cbn [rbind]. rewrite Nat2Z.id, app_assoc.
  rewrite <- payload_padding_length. by rewrite get_from_app.
Qed.

Lemma encode_entry_length e : (4 <= length (encode_entry e))%nat /\ (length (encode_entry e) mod 4 = 0)%nat.
Proof.
  unfold encode_entry. rewrite length_app, row_length, payload_padding_length.
  destruct (next_multiple_bounds (length (payload e))) as [_ H].
  split; [cbn [length]; lia|]. by rewrite <- Nat.Div0.add_mod_idemp_r, H.
Qed.

Definition encode_entries (es : list entry) : list Z := concat (map encode_entry es).

Lemma parse_tlvs_encode es f fuel :
  Forall entry_ok es -> (length (encode_entries es) <= fuel)%nat ->
  parse_tlvs fuel f (encode_entries es) = Ret (Ok (foldl (fun f e => apply_entry e f) f es)).
Proof.
  intros Hes. revert f fuel. induction Hes as [|e es He Hes IH]; intros f fuel Hf; [by destruct fuel|].
  unfold encode_entries in *. cbn [map concat foldl] in *. rewrite length_app in Hf.
  pose proof (encode_entry_length e) as [Hl _]. destruct fuel as [|fuel]; [lia|].
  cbn [parse_tlvs]. rewrite parse_tlv_encode by done.
  destruct (encode_entry e ++ _) eqn:Hne.
  { apply (f_equal length) in Hne. rewrite length_app in Hne. cbn in Hne. lia. }
  apply IH. lia.
Qed.

Lemma meaning_snoc es e : meaning (es ++ [e]) = apply_entry e (meaning es).
Proof.
  unfold meaning, mains, programs, regions, names, fixeds, perms, storages, kernel_versions, short_ids.
  rewrite !omap_app. destruct e; cbn [omap list_omap]; rewrite ?app_nil_r, ?last_snoc; try done.
  - unfold apply_entry, set_main. cbn. f_equal. by destruct (omap _ es).
  - unfold apply_entry, set_program. cbn. f_equal. by destruct (omap _ es).
Qed.

Lemma meaning_foldl es : foldl (fun f e => apply_entry e f) no_fields es = meaning es.
Proof.
  induction es as [|e es IH] using rev_ind; [done|].
  rewrite foldl_app. cbn [foldl]. by rewrite IH, meaning_snoc.
Qed.

(** * The checksum *)

(** The exclusive or of all words of a header. *)
Definition xor_words (l : list Z) : Z :=
  foldr (fun w acc => Z.lxor (from_le_bytes w) acc) 0 (chunks_exact4 l).

Lemma checksum_loop_late i chunks c :
  (4 <= i)%nat -> checksum_loop i chunks c = Z.lxor c (foldr (fun w acc => Z.lxor (from_le_bytes w) acc) 0 chunks).
Proof.
  revert i c. induction chunks as [|w chunks IH]; intros i c Hi; cbn [checksum_loop foldr].
  - by rewrite Z.lxor_0_r.
  - destruct (Nat.eqb_spec i 3); [lia|]. rewrite IH by lia. by rewrite Z.lxor_assoc.
Qed.

(** Equalities of exclusive ors. *)
Ltac xor_bits :=
  apply Z.bits_inj; intros ?n; rewrite ?Z.lxor_spec, ?Z.bits_0;
  repeat match goal with |- context [Z.testbit ?a ?n] => destruct (Z.testbit a n) end; done.

(** The fourth word is the checksum, which the computation skips. *)
Lemma compute_checksum_xor l :
  (16 <= length l)%nat ->
  compute_checksum l = Z.lxor (from_le_bytes (take 4 (drop 12 l))) (xor_words l).
Proof.
  intros Hl. unfold compute_checksum, xor_words.
  do 16 (destruct l as [|? l]; [cbn in Hl; lia|]). clear Hl.
  cbn [chunks_exact4 checksum_loop Nat.eqb take drop foldr]. rewrite checksum_loop_late by lia.
  rewrite take_0. xor_bits.
Qed.

Lemma checksum_accepts l :
  (16 <= length l)%nat ->
  compute_checksum l = from_le_bytes (take 4 (drop 12 l)) <-> xor_words l = 0.
Proof.
  intros Hl. rewrite compute_checksum_xor by done. split; intros H.
  - apply (f_equal (Z.lxor (from_le_bytes (take 4 (drop 12 l))))) in H.
    by rewrite <- Z.lxor_assoc, !Z.lxor_nilpotent, Z.lxor_0_l in H.
  - by rewrite H, Z.lxor_0_r.
Qed.

Lemma get_ok {A} (l : list A) a c : (a <= c <= length l)%nat -> get l a c = Some (take (c - a) (drop a l)).
Proof. intros H. by apply get_Some. Qed.

(** A slice of sixteen bytes and more has a base. *)
Lemma base_try_from_ok l :
  (16 <= length l)%nat ->
  base_try_from l = Ok (mkBase (from_le_bytes (take 2 l)) (from_le_bytes (take 2 (drop 2 l)))
    (from_le_bytes (take 4 (drop 4 l))) (from_le_bytes (take 4 (drop 8 l)))
    (from_le_bytes (take 4 (drop 12 l)))).
Proof.
  intros Hl. unfold base_try_from, le_at. destruct (Nat.ltb_spec (length l) 16); [lia|].
  by rewrite !get_ok by lia.
Qed.

(** * Flipping a bit *)

Lemma bytes_lxor_add b x : u8_range b -> 0 <= x -> b + 2 ^ 8 * x = Z.lxor b (Z.shiftl x 8).
Proof.
  intros Hb Hx. rewrite Z.shiftl_mul_pow2 by lia. rewrite (Z.mul_comm (2 ^ 8)).
  rewrite Z.add_nocarry_lxor; [done|]. apply Z.bits_inj'. intros n Hn.
  rewrite Z.land_spec, Z.bits_0, <- Z.shiftl_mul_pow2, Z.shiftl_spec by lia.
  destruct (Z.ltb_spec n 8).
  - rewrite (Z.testbit_neg_r x) by lia. apply andb_false_r.
  - by rewrite <- (Z.mod_small b (2 ^ 8)), Z.mod_pow2_bits_high by (done || lia).
Qed.

Lemma lxor_range n a b :
  0 <= n -> 0 <= a < 2 ^ n -> 0 <= b < 2 ^ n -> 0 <= Z.lxor a b < 2 ^ n.
Proof.
  intros Hn Ha Hb. assert (0 <= Z.lxor a b) by (apply Z.lxor_nonneg; lia). split; [done|].
  destruct (Z.eq_dec (Z.lxor a b) 0) as [->|]; [lia|].
  replace (Z.lxor a b) with (Z.lxor a b mod 2 ^ n); [apply Z.mod_pos_bound; lia|].
  apply Z.bits_inj'. intros i Hi. destruct (Z.lt_ge_cases i n).
  - by rewrite Z.mod_pow2_bits_low.
  - rewrite Z.mod_pow2_bits_high, Z.lxor_spec by lia.
    by rewrite <- (Z.mod_small a (2 ^ n)), <- (Z.mod_small b (2 ^ n)), !Z.mod_pow2_bits_high by lia.
Qed.

Lemma flip_ok b k : u8_range b -> (k < 8)%nat -> u8_range (Z.lxor b (2 ^ Z.of_nat k)).
Proof.
  intros Hb Hk. apply lxor_range; [done|done|]. split; [apply Z.pow_nonneg; lia|].
  apply Z.pow_lt_mono_r; lia.
Qed.

Definition flip (l : list Z) (i k : nat) : list Z := alter (fun b => Z.lxor b (2 ^ Z.of_nat k)) i l.

Lemma flip_length l i k : length (flip l i k) = length l.
Proof. apply length_alter. Qed.

Lemma from_le_bytes_flip l i k :
  bytes_ok l -> (i < length l)%nat -> (k < 8)%nat ->
  from_le_bytes (flip l i k) = Z.lxor (from_le_bytes l) (2 ^ (8 * Z.of_nat i + Z.of_nat k)).
Proof.
  intros Hl. revert i. induction Hl as [|b l Hb Hl IH]; intros i Hi Hk; [cbn in Hi; lia|].
  pose proof (from_le_bytes_range l Hl) as Hr. destruct i as [|i]; cbn [flip alter list_alter].
  - cbn [from_le_bytes foldr]. fold (from_le_bytes l).
    rewrite !bytes_lxor_add by (lia || done || by apply flip_ok). replace (8 * Z.of_nat 0 + Z.of_nat k) with (Z.of_nat k) by lia. xor_bits.
  - cbn [length] in Hi. specialize (IH i ltac:(lia) Hk). unfold flip in IH.
    cbn [from_le_bytes foldr]. fold (from_le_bytes l). unfold flip. cbn [alter list_alter].
    change (foldr _ 0 ?x) with (from_le_bytes x). rewrite IH.
    rewrite !bytes_lxor_add by (done || lia || (apply Z.lxor_nonneg; split; intros; [apply Z.pow_nonneg|]; lia)).
    rewrite Z.shiftl_lxor, Z.lxor_assoc. do 2 f_equal.
    rewrite Z.shiftl_mul_pow2, <- Z.pow_add_r by lia. f_equal. lia.
Qed.

Lemma chunks_app w l : length w = 4%nat -> chunks_exact4 (w ++ l) = w :: chunks_exact4 l.
Proof. intros H. by destruct w as [|? [|? [|? [|? [|]]]]]. Qed.

Lemma xor_words_app w l :
  length w = 4%nat -> xor_words (w ++ l) = Z.lxor (from_le_bytes w) (xor_words l).
Proof. intros H. unfold xor_words. by rewrite chunks_app. Qed.

Lemma flip_app_l l r i k : (i < length l)%nat -> flip (l ++ r) i k = flip l i k ++ r.
Proof. intros H. by apply alter_app_l. Qed.

Lemma flip_app_r l r i k : flip (l ++ r) (length l + i) k = l ++ flip r i k.
Proof. apply alter_app_r. Qed.

(** In whole words, flipping a bit changes the exclusive or of the words. *)
Lemma xor_words_flip n l i k :
  length l = (n * 4)%nat -> bytes_ok l -> (i < length l)%nat -> (k < 8)%nat ->
  exists m, m <> 0 /\ xor_words (flip l i k) = Z.lxor (xor_words l) m.
Proof.
  revert l i. induction n as [|n IH]; intros l i Hl Hok Hi Hk; [lia|].
  assert (exists w r, l = w ++ r /\ length w = 4%nat) as (w & r & -> & Hw).
  { exists (take 4 l), (drop 4 l). rewrite take_drop, length_take. split; [done|lia]. }
  apply Forall_app in Hok as [Hokw Hokr]. rewrite length_app in Hl, Hi.
  destruct (Nat.lt_ge_cases i 4) as [Hlt|Hge].
  - exists (2 ^ (8 * Z.of_nat i + Z.of_nat k)). split; [apply Z.pow_nonzero; lia|].
    rewrite flip_app_l, !xor_words_app, from_le_bytes_flip by (rewrite ?flip_length; done || lia).
    xor_bits.
  - destruct (IH r (i - 4)%nat) as (m & Hm & Heq); [lia|done|lia|done|]. exists m. split; [done|].
    replace i with (length w + (i - 4))%nat by lia.
    rewrite flip_app_r, !xor_words_app, Heq by done. by rewrite Z.lxor_assoc.
Qed.

(** * What an accepted header looks like *)

(** One turn of the loop consumes a positive number of whole words. *)
Lemma parse_tlv_progress f r f' r' :
  parse_tlv f r = Ok (f', r') ->
  exists n, length r = (4 + n * 4 + length r')%nat.
Proof.
  unfold parse_tlv. destruct (get r 0 4) as [t|] eqn:Hg; [|done]. cbn [ok_or rbind].
  destruct (tlv_try_from t) as [tlv|]; [|done]. cbn [rbind].
  unfold get_from at 1. destruct (Nat.leb_spec 4 (length r)); [|done]. cbn [ok_or rbind].
  destruct (read_entry _ _ _); [|done]. cbn [rbind]. unfold get_from.
  destruct (Nat.leb_spec (next_multiple_of4 (Z.to_nat (tlv_length tlv))) (length (drop 4 r))); [|done].
  intros [= <- <-]. rewrite length_drop in *. rewrite length_drop.
  exists ((Z.to_nat (tlv_length tlv) + 3) / 4)%nat. unfold next_multiple_of4 in *. lia.
Qed.

Lemma parse_tlvs_total fuel f r :
  (length r <= fuel)%nat ->
  exists res, parse_tlvs fuel f r = Ret res /\
    (forall f', res = Ok f' -> exists n, length r = (n * 4)%nat).
Proof.
  revert f r. induction fuel as [|fuel IH]; intros f r Hf.
  - destruct r; [|cbn in Hf; lia]. exists (Ok f). split; [done|]. by exists 0%nat.
  - destruct r as [|b r0] eqn:Hr; [exists (Ok f); split; [done|by exists 0%nat]|].
    cbn [parse_tlvs]. rewrite <- Hr in *. clear Hr.
    destruct (parse_tlv f r) as [ [f1 r1]|e] eqn:Hp; [|by exists (Err e)].
    destruct (parse_tlv_progress _ _ _ _ Hp) as [n Hn].
    destruct (IH f1 r1) as (res & Hres & Hok); [lia|]. exists res. split; [done|].
    intros f' Hf'. destruct (Hok f' Hf') as [m Hm]. exists (1 + n + m)%nat. lia.
Qed.

(** The conditions under which the entries are looked at. *)
Lemma parse_cases h v :
  (v <> 2 /\ parse_tbf_header h v = Ret (Err (UnsupportedVersion v))) \/
  (v = 2 /\ (length h < 16)%nat /\ parse_tbf_header h v = Ret (Err InternalError)) \/
  (v = 2 /\ (16 <= length h)%nat /\ xor_words h <> 0 /\
    parse_tbf_header h v =
      Ret (Err (ChecksumMismatch (from_le_bytes (take 4 (drop 12 h))) (compute_checksum h)))) \/
  (v = 2 /\ (16 <= length h)%nat /\ xor_words h = 0 /\ exists b, base_try_from h = Ok b /\
    ((length h = 16%nat /\ parse_tbf_header h v = Ret (Ok (Padding b))) \/
     (16 < length h)%nat /\ parse_tbf_header h v =
        let! r := parse_tlvs (length (drop 16 h)) no_fields (drop 16 h) in
        Ret (let? f := r in Ok (HeaderV2 (header_of_fields b f))))).
Proof.
  unfold parse_tbf_header. destruct (Z.eqb_spec v 2); [|by left]. right.
  destruct (Nat.lt_ge_cases (length h) 16) as [Hl|Hl].
  { left. unfold base_try_from. by destruct (Nat.ltb_spec (length h) 16); [|lia]. }
  right. pose proof (base_try_from_ok h Hl) as Hb. rewrite Hb. cbn [checksum].
  destruct (Z.eqb_spec (compute_checksum h) (from_le_bytes (take 4 (drop 12 h)))) as [Hc|Hc]; cbn [negb].
  2: { left. rewrite checksum_accepts in Hc by done. done. }
  right. apply checksum_accepts in Hc; [|done]. split_and!; [done..|]. eexists. split; [done|].
  unfold get_from. destruct (Nat.leb_spec 16 (length h)); [|lia].
  destruct (Nat.eqb_spec (length (drop 16 h)) 0) as [H0|H0]; rewrite length_drop in H0.
  - left. split; [lia|done].
  - right. split; [lia|done].
Qed.

Lemma parse_total header version :
  exists r, parse_tbf_header header version = Ret r /\
    forall h, r = Ok h -> version = 2 /\ xor_words header = 0 /\
      exists n, (4 <= n)%nat /\ length header = (n * 4)%nat.
Proof.
  destruct (parse_cases header version) as
    [ [_ ->] | [(_ & _ & ->) | [(_ & _ & _ & ->) | (-> & Hl & Hx & b & _ & [ [H16 ->] | [H16 ->] ]) ] ] ];
    try (eexists; split; [done|]; by intros).
  - eexists. split; [done|]. intros h _. split_and!; [done..|]. exists 4%nat. lia.
  - destruct (parse_tlvs_total _ no_fields (drop 16 header) (Nat.le_refl _)) as (res & -> & Hok).
    eexists. split; [done|]. intros h Hr. split_and!; [done..|].
    destruct res as [f|]; [|done]. destruct (Hok f eq_refl) as [n Hn]. rewrite length_drop in Hn.
    exists (4 + n)%nat. lia.
Qed.

Lemma parse_accepts header version h :
  parse_tbf_header header version = Ret (Ok h) ->
  version = 2 /\ xor_words header = 0 /\ exists n, (4 <= n)%nat /\ length header = (n * 4)%nat.
Proof.
  intros H. destruct (parse_total header version) as (r & Hr & Hok). rewrite H in Hr.
  injection Hr as <-. by apply (Hok h).
Qed.

(** C28: the parser terminates on every slice and every version, without a panic,
    and accepts only a header of version 2 made of at least four whole words
    whose exclusive or, checksum included, is zero. *)
Theorem tbf_parse_total (header : list Z) (version : Z) :
  exists r, parse_tbf_header header version = Ret r /\
    forall h, r = Ok h -> version = 2 /\ xor_words header = 0 /\
      exists n, (4 <= n)%nat /\ length header = (n * 4)%nat.
Proof. apply parse_total. Qed.

Lemma flip_detected header h i k :
  bytes_ok header -> parse_tbf_header header 2 = Ret (Ok h) ->
  (i < length header)%nat -> (k < 8)%nat ->
  exists provided calculated,
    parse_tbf_header (flip header i k) 2 = Ret (Err (ChecksumMismatch provided calculated)).
Proof.
  intros Hok H Hi Hk. apply parse_accepts in H as (_ & Hx & n & Hn & Hl).
  destruct (xor_words_flip n header i k) as (m & Hm & Hf); [done..|].
  rewrite Hx, Z.lxor_0_l in Hf.
  destruct (parse_cases (flip header i k) 2) as
    [ [? _] | [(_ & H & _) | [(_ & _ & _ & ->) | (_ & _ & H & _)] ] ]; [done| |by eauto|].
  - rewrite flip_length in H. lia.
  - congruence.
Qed.

(** Flipping one bit of a header that the parser accepts, at any place of the
    header, makes the parser reject it with a checksum error. *)
Theorem tbf_bit_flip_detected header h i k :
  bytes_ok header -> parse_tbf_header header 2 = Ret (Ok h) ->
  (i < length header)%nat -> (k < 8)%nat ->
  exists provided calculated,
    parse_tbf_header (flip header i k) 2 = Ret (Err (ChecksumMismatch provided calculated)).
Proof. apply flip_detected. Qed.

(** * Encoding a whole header *)

Definition encode_base (b : TbfHeaderV2Base) : list Z :=
  row 2 [version b; header_size b] ++ row 4 [total_size b; flags b; checksum b].

Definition encode_header (total flags : Z) (es : list entry) : list Z :=
  let body := encode_entries es in
  let b c := mkBase 2 (16 + Z.of_nat (length body)) total flags c in
  encode_base (b (compute_checksum (encode_base (b 0) ++ body))) ++ body.

Lemma encode_entries_ok es : Forall entry_ok es ->
  bytes_ok (encode_entries es) /\ exists n, length (encode_entries es) = (n * 4)%nat.
Proof.
  induction 1 as [|e es He _ [IH [n Hn] ] ]; [by split; [constructor|exists 0%nat]|].
  unfold encode_entries in *. cbn [map concat]. split.
  - apply Forall_app. split; [|done]. unfold encode_entry. rewrite !Forall_app.
    split_and!; [apply row_ok|apply He|]. apply Forall_replicate. done.
  - destruct (encode_entry_length e) as [_ Hm]. apply Nat.Div0.mod_divides in Hm as [m Hm].
    exists (m + n)%nat. rewrite length_app, Hn, Hm. lia.
Qed.

Lemma xor_words_range n l : length l = (n * 4)%nat -> bytes_ok l -> u32_range (xor_words l).
Proof.
  revert l. induction n as [|n IH]; intros l Hl Hok; [by destruct l|].
  assert (exists w r, l = w ++ r /\ length w = 4%nat) as (w & r & -> & Hw).
  { exists (take 4 l), (drop 4 l). rewrite take_drop, length_take. split; [done|lia]. }
  rewrite length_app in Hl. apply Forall_app in Hok as [Hokw Hokr].
  rewrite xor_words_app by done. apply lxor_range; [lia| |by apply IH; [lia|]].
  pose proof (from_le_bytes_range w Hokw) as H. rewrite Hw in H. exact H.
Qed.

(** The four words of an encoded base. *)
Lemma encode_base_words b : encode_base b =
  row 2 [version b; header_size b] ++ to_le_bytes 4 (total_size b) ++ to_le_bytes 4 (flags b) ++
    to_le_bytes 4 (checksum b).
Proof. unfold encode_base, row. cbn [map concat]. by rewrite !app_nil_r. Qed.

Lemma encode_base_length b : length (encode_base b) = 16%nat.
Proof. rewrite encode_base_words, !length_app, row_length, !to_le_bytes_length. done. Qed.

Lemma encode_base_ok b : bytes_ok (encode_base b).
Proof. unfold encode_base. apply Forall_app. split; apply row_ok. Qed.

Lemma xor_words_base b body : u32_range (checksum b) ->
  xor_words (encode_base b ++ body) =
  Z.lxor (checksum b) (xor_words (encode_base (mkBase (version b) (header_size b) (total_size b) (flags b) 0) ++ body)).
Proof.
  intros Hc. rewrite !encode_base_words. cbn [version header_size total_size flags checksum].
  rewrite <- !app_assoc, !xor_words_app by (rewrite ?row_length, ?to_le_bytes_length; done).
  rewrite (from_to_le_bytes 4 (checksum b)) by exact Hc. rewrite (from_to_le_bytes 4 0) by done. xor_bits.
Qed.

Definition base_ok (b : TbfHeaderV2Base) : Prop :=
  u16 (version b) /\ u16 (header_size b) /\ u32_range (total_size b) /\ u32_range (flags b) /\
  u32_range (checksum b).

Lemma le_field pre n v rest a :
  a = length pre -> 0 <= v < 2 ^ (8 * Z.of_nat n) ->
  from_le_bytes (take n (drop a (pre ++ to_le_bytes n v ++ rest))) = v.
Proof.
  intros -> Hv. rewrite drop_app_length.
  replace (take n _) with (to_le_bytes n v); [by apply from_to_le_bytes|].
  pose proof (take_app_length (to_le_bytes n v) rest) as H. by rewrite to_le_bytes_length in H.
Qed.

Lemma encode_base_fields b body : base_ok b ->
  from_le_bytes (take 2 (encode_base b ++ body)) = version b /\
  from_le_bytes (take 2 (drop 2 (encode_base b ++ body))) = header_size b /\
  from_le_bytes (take 4 (drop 4 (encode_base b ++ body))) = total_size b /\
  from_le_bytes (take 4 (drop 8 (encode_base b ++ body))) = flags b /\
  from_le_bytes (take 4 (drop 12 (encode_base b ++ body))) = checksum b.
Proof.
  intros (H1 & H2 & H3 & H4 & H5). rewrite encode_base_words. unfold row. cbn [map concat].
  rewrite app_nil_r. split_and!.
  - rewrite <- !app_assoc. by apply (le_field [] 2 (version b) _ 0).
  - rewrite <- !app_assoc. by apply (le_field (to_le_bytes 2 _) 2 (header_size b)).
  - rewrite <- !app_assoc, app_assoc. by apply (le_field (_ ++ _) 4 (total_size b)).
  - rewrite <- !app_assoc, app_assoc, app_assoc. by apply (le_field (_ ++ _) 4 (flags b)).
  - rewrite <- !app_assoc, app_assoc, app_assoc, app_assoc. by apply (le_field (_ ++ _) 4 (checksum b)).
Qed.

Lemma encode_base_try_from b body : base_ok b -> base_try_from (encode_base b ++ body) = Ok b.
Proof.
  intros Hb. rewrite base_try_from_ok by (rewrite length_app, encode_base_length; lia).
  destruct (encode_base_fields b body Hb) as (-> & -> & -> & -> & ->). by destruct b.
Qed.

(** The base of an encoded header, with its checksum. *)
Definition base_of (total flags : Z) (es : list entry) : TbfHeaderV2Base :=
  let body := encode_entries es in
  let b c := mkBase 2 (16 + Z.of_nat (length body)) total flags c in
  b (compute_checksum (encode_base (b 0) ++ body)).

Definition header_ok (total flags : Z) (es : list entry) : Prop :=
  Forall entry_ok es /\ u32_range total /\ u32_range flags /\
  16 + Z.of_nat (length (encode_entries es)) < 2 ^ 16 /\
  16 + Z.of_nat (length (encode_entries es)) <= total.

Lemma base_of_ok total flags es :
  header_ok total flags es ->
  base_ok (base_of total flags es) /\ xor_words (encode_header total flags es) = 0.
Proof.
  intros (Hes & Ht & Hf & Hlen & _). destruct (encode_entries_ok es Hes) as [Hok [n Hn] ].
  unfold encode_header, base_of. set (b := mkBase 2 _ total flags 0).
  assert (Hlb : length (encode_base b ++ encode_entries es) = ((4 + n) * 4)%nat)
    by (rewrite length_app, encode_base_length; lia).
  assert (Hc : compute_checksum (encode_base b ++ encode_entries es) =
    xor_words (encode_base b ++ encode_entries es)).
  { rewrite compute_checksum_xor by lia. destruct (encode_base_fields b (encode_entries es)) as (_ & _ & _ & _ & ->).
    - unfold base_ok, b, u16. cbn. split_and!; try done; lia.
    - cbn. done. }
  assert (Hr : u32_range (compute_checksum (encode_base b ++ encode_entries es))).
  { rewrite Hc. apply (xor_words_range (4 + n)); [done|]. apply Forall_app. split; [apply encode_base_ok|done]. }
  split.
  - unfold base_ok, u16. cbn [version header_size total_size Tbf.flags checksum]. split_and!; (done || lia || apply Hr).
  - rewrite xor_words_base by exact Hr. cbn [version header_size total_size Tbf.flags checksum].
    change (mkBase 2 _ total flags 0) with b. rewrite Hc. apply Z.lxor_nilpotent.
Qed.

Lemma lengths_encode b body :
  base_ok b -> version b = 2 -> 16 <= header_size b -> header_size b <= total_size b ->
  parse_tbf_header_lengths (take 8 (encode_base b ++ body)) = Ok (2, header_size b, total_size b).
Proof.
  intros Hb Hv H16 Hle. unfold parse_tbf_header_lengths.
  rewrite !skipn_firstn_comm. cbn [Nat.sub]. rewrite !take_take. cbn [Nat.min].
  destruct (encode_base_fields b body Hb) as (-> & -> & -> & _ & _). rewrite Hv. cbn [Z.eqb Pos.eqb].
  destruct (Z.ltb_spec (total_size b) (header_size b)); [lia|].
  by destruct (Z.ltb_spec (header_size b) 16); [lia|].
Qed.

Lemma roundtrip total flags es :
  header_ok total flags es ->
  parse_tbf_header_lengths (take 8 (encode_header total flags es)) =
    Ok (2, Z.of_nat (length (encode_header total flags es)), total) /\
  parse_tbf_header (encode_header total flags es) 2 =
    Ret (Ok (match es with
             | [] => Padding (base_of total flags es)
             | _ => HeaderV2 (header_of_fields (base_of total flags es) (meaning es))
             end)).
Proof.
  intros Hok. destruct (base_of_ok _ _ _ Hok) as [Hb Hx]. destruct Hok as (Hes & Ht & Hf & Hlen & Htot).
  assert (Henc : encode_header total flags es = encode_base (base_of total flags es) ++ encode_entries es) by done.
  assert (Hll : length (encode_header total flags es) = (16 + length (encode_entries es))%nat)
    by (rewrite Henc, length_app, encode_base_length; done).
  split.
  - rewrite Hll, Henc, Nat2Z.inj_add.
    apply (lengths_encode (base_of total flags es)); [done|done| |];
      unfold base_of; cbn [header_size total_size]; lia.
  - destruct (parse_cases (encode_header total flags es) 2) as
      [ [? _] | [(_ & H & _) | [(_ & _ & H & _) | (_ & _ & _ & b & Hbase & H)] ] ]; [done|lia|done|].
    rewrite Henc, encode_base_try_from in Hbase by done. injection Hbase as <-.
    destruct H as [ [H16 ->] | [H16 ->] ].
    + destruct es as [|e es]; [done|]. exfalso. pose proof (encode_entry_length e) as [He _].
      unfold encode_entries in Hll. cbn [map concat] in Hll. rewrite length_app in Hll. lia.
    + destruct es as [|e es]; [change (length (encode_entries [])) with 0%nat in Hll; lia|].
      rewrite Henc.
      rewrite <- (encode_base_length (base_of total flags (e :: es))) at 1 2. rewrite drop_app_length.
      rewrite parse_tlvs_encode by done. cbn [obind rbind]. by rewrite meaning_foldl.
Qed.

(** C20: a header that an encoder of the format writes parses back to its entries:
    the lengths in front are read as written, and the parser returns the header
    with the base and the meaning of the entries (the first main and program
    entries, the last of each other kind; unknown entries are skipped), or a
    padding header when there are none. *)
Theorem tbf_roundtrip total flags es :
  header_ok total flags es ->
  parse_tbf_header_lengths (take 8 (encode_header total flags es)) =
    Ok (2, Z.of_nat (length (encode_header total flags es)), total) /\
  parse_tbf_header (encode_header total flags es) 2 =
    Ret (Ok (match es with
             | [] => Padding (base_of total flags es)
             | _ => HeaderV2 (header_of_fields (base_of total flags es) (meaning es))
             end)).
Proof. apply roundtrip. Qed.

(** * Ranges of what is read *)

Lemma get_bytes_ok l a c s : bytes_ok l -> get l a c = Some s -> bytes_ok s.
Proof. intros Hl [_ ->]%get_Some. by apply Forall_take, Forall_drop. Qed.

Lemma get_from_bytes_ok l a s : bytes_ok l -> get_from l a = Some s -> bytes_ok s.
Proof. unfold get_from. intros Hl. destruct (_ <=? _)%nat; [|done]. intros [= <-]. by apply Forall_drop. Qed.

Lemma le_at_range b a c e v :
  bytes_ok b -> le_at b a c e = Ok v -> 0 <= v < 2 ^ (8 * Z.of_nat (c - a)).
Proof.
  intros Hb. unfold le_at. destruct (get b a c) as [s|] eqn:Hg; [|done]. intros [= <-].
  rewrite <- (get_length _ _ _ _ Hg). apply from_le_bytes_range. by eapply get_bytes_ok.
Qed.

(** The memory and the offsets that a header asks for are 32-bit values. *)
Definition fields_ok (f : Fields) : Prop :=
  (forall m, main_pointer f = Some m -> u32_range (main_minimum_ram_size m)) /\
  (forall p, program_pointer f = Some p ->
     u32_range (prog_minimum_ram_size p) /\ u32_range (prog_binary_end_offset p)).

(** Takes apart a chain of reads that has succeeded. *)
Ltac inv_reads :=
  repeat match goal with
  | H : rbind ?m _ = Ok _ |- _ =>
    let E := fresh "E" in destruct m eqn:E; cbn [rbind] in H; [|discriminate H]
  | H : (if ?b then _ else _) = Ok _ |- _ => destruct b; [discriminate H|]
  | H : Ok _ = Ok _ |- _ => injection H as <-
  end.

Lemma main_range b m : bytes_ok b -> main_try_from b = Ok m -> u32_range (main_minimum_ram_size m).
Proof.
  intros Hb H. unfold main_try_from in H. inv_reads. cbn. by eapply (le_at_range b 8 12).
Qed.

Lemma program_range b p : bytes_ok b -> program_try_from b = Ok p ->
  u32_range (prog_minimum_ram_size p) /\ u32_range (prog_binary_end_offset p).
Proof.
  intros Hb H. unfold program_try_from in H. inv_reads. cbn.
  split; [by eapply (le_at_range b 8 12)|by eapply (le_at_range b 12 16)].
Qed.

Lemma read_entry_ok tlv r f f' :
  bytes_ok r -> fields_ok f -> read_entry tlv r f = Ok f' -> fields_ok f'.
Proof.
  intros Hr Hf H. unfold read_entry in H.
  destruct (tlv_tipe tlv);
    try (destruct (main_pointer f) eqn:Hmp; [by injection H as <-|]);
    try (destruct (program_pointer f) eqn:Hpp; [by injection H as <-|]);
    repeat match type of H with (if ?b then _ else _) = _ => destruct b; [|done] end;
    try (destruct (get r 0 _) as [s|] eqn:Hg; cbn [ok_or rbind] in H; [|done];
         apply get_bytes_ok in Hg; [|done]);
    repeat match type of H with (if ?b then _ else _) = _ => destruct b; [|done] end;
    try (match type of H with rbind ?m _ = _ => destruct m as [v|] eqn:Hv end; cbn [rbind] in H; [|done]);
    injection H as <-; try exact Hf; destruct Hf as [Hm Hp]; split; cbn; try done.
  - intros m [= <-]. by eapply main_range.
  - intros m [= <-]. by eapply program_range.
Qed.

Lemma parse_tlv_ok f r f' r' :
  bytes_ok r -> fields_ok f -> parse_tlv f r = Ok (f', r') -> bytes_ok r' /\ fields_ok f'.
Proof.
  intros Hr Hf H. unfold parse_tlv in H.
  destruct (get r 0 4); [|done]. cbn [ok_or rbind] in H.
  destruct (tlv_try_from _); [|done]. cbn [rbind] in H.
  destruct (get_from r 4) as [r1|] eqn:Hg; [|done]. cbn [ok_or rbind] in H.
  apply get_from_bytes_ok in Hg; [|done].
  destruct (read_entry _ _ _) eqn:He; [|done]. cbn [rbind] in H.
  destruct (get_from r1 _) as [r2|] eqn:Hg2; [|done]. injection H as <- <-.
  split; [by eapply get_from_bytes_ok|by eapply read_entry_ok].
Qed.

Lemma parse_tlvs_ok fuel f r f' :
  bytes_ok r -> fields_ok f -> parse_tlvs fuel f r = Ret (Ok f') -> fields_ok f'.
Proof.
  revert f r. induction fuel as [|fuel IH]; intros f r Hr Hf; cbn [parse_tlvs].
  - destruct r; [|done]. by intros [= <-].
  - destruct r as [|b r0] eqn:E; [by intros [= <-]|]. rewrite <- E in *. clear E.
    destruct (parse_tlv f r) as [ [f1 r1]|] eqn:Hp; [|done].
    apply parse_tlv_ok in Hp as [Hr1 Hf1]; [|done..]. by apply IH.
Qed.

Lemma parse_header_ranges header v h :
  bytes_ok header -> parse_tbf_header header v = Ret (Ok h) ->
  u32_range (get_minimum_app_ram_size h) /\ u32_range (get_binary_end h).
Proof.
  intros Hb H. destruct (parse_cases header v) as
    [ [_ E] | [(_ & _ & E) | [(_ & _ & _ & E) | (-> & Hl & Hx & b & Hbase & [ [H16 E] | [H16 E] ]) ] ] ];
    rewrite E in H; try done.
  - by injection H as <-.
  - apply obind_Ret in H as (r & Hr & H). destruct r as [f|]; [|done]. cbn [rbind] in H. injection H as <-.
    apply parse_tlvs_ok in Hr as [Hm Hp]; [|by apply Forall_drop|done].
    rewrite base_try_from_ok in Hbase by done. injection Hbase as <-.
    assert (Htot : u32_range (from_le_bytes (take 4 (drop 4 header)))).
    { pose proof (from_le_bytes_range (take 4 (drop 4 header))) as Hr. rewrite length_take, length_drop in Hr.
      replace (4 `min` (length header - 4))%nat with 4%nat in Hr by lia. apply Hr. by apply Forall_take, Forall_drop. }
    unfold get_minimum_app_ram_size, get_binary_end, header_of_fields. cbn.
    destruct (program_pointer f) as [p|]; [by destruct (Hp p eq_refl)|].
    split; [|done]. destruct (main_pointer f) as [m|]; [by apply Hm|done].
Qed.

(** * Examples *)

Definition demo_entries : list entry :=
  [EMain (mkMain 41 0 2048); EName [98; 108; 105; 110; 107]; EOther 77 [1; 2];
   ERegions [mkRegion 128 64]; EKernelVersion (mkKernelVersion 2 1)].

Lemma demo_entries_ok : header_ok 4096 1 demo_entries.
Proof.
  unfold header_ok. split_and!; [|done|done|cbn; lia|cbn; lia].
  repeat constructor; vm_compute; (done || by repeat constructor).
Qed.

Lemma tbf_roundtrip_witness :
  parse_tbf_header_lengths (take 8 (encode_header 4096 1 demo_entries)) = Ok (2, 72, 4096) /\
  parse_tbf_header (encode_header 4096 1 demo_entries) 2 =
    Ret (Ok (HeaderV2 (header_of_fields (base_of 4096 1 demo_entries) (meaning demo_entries)))).
Proof.
  destruct (tbf_roundtrip 4096 1 demo_entries demo_entries_ok) as [H1 H2].
  split; [exact H1|exact H2].
Defined.

Lemma tbf_bit_flip_detected_witness :
  exists provided calculated,
    parse_tbf_header (flip (encode_header 4096 1 demo_entries) 20 3) 2 =
    Ret (Err (ChecksumMismatch provided calculated)).
Proof.
  eapply (tbf_bit_flip_detected (encode_header 4096 1 demo_entries)); [|vm_compute; reflexivity|vm_compute; lia|lia].
  vm_compute. repeat (constructor; [split; [discriminate|reflexivity]|]). constructor.
Defined.

End TbfSpec.
