(* ===== verification/Permissions.v ===== *)
(** What the permission entries of a header allow: the system-call filter
    [TbfHeaderFilterDefaultAllow] ([kernel/src/platform/platform.rs]), the storage
    permissions of a process ([kernel/src/storage_permissions.rs]) and their
    construction from the header ([get_storage_permissions] of
    [kernel/src/process_standard.rs]).  The theorems relate them to the tables
    that a header carries. *)

From stdpp Require Import base numbers list.
From S2P Require Import Prelude Tbf TbfSpec Syscall.
Import Tbf TbfSpec Syscall.
Local Open Scope Z_scope.

Module Permissions.

(** * The filter *)

Definition permits_driver (h : TbfHeader) (driver_number : Z) : result unit ErrorCode :=
  match get_command_permissions h driver_number 0 with
  | NoPermsAtAll => Ok tt
  | NoPermsThisDriver => Err NODEVICE
  | Mask _ => Ok tt
  end.

Definition filter_syscall (h : TbfHeader) (syscall : Syscall) : result unit ErrorCode :=
  match syscall with
  | Subscribe driver_number _ _ _ => permits_driver h driver_number
  | Command driver_number subdriver_number _ _ =>
    match get_command_permissions h driver_number (subdriver_number / 64) with
    | NoPermsAtAll => Ok tt
    | NoPermsThisDriver => Err NODEVICE
    | Mask allowed =>
      if 0 <? Z.land (Z.shiftl 1 (subdriver_number mod 64)) allowed then Ok tt else Err NODEVICE
    end
  | ReadWriteAllow driver_number _ _ _ => permits_driver h driver_number
  | UserspaceReadableAllow driver_number _ _ _ => permits_driver h driver_number
  | ReadOnlyAllow driver_number _ _ _ => permits_driver h driver_number
  | Yield _ _ _ | Memop _ _ | Exit _ _ => Ok tt
  end.

(** * Storage permissions *)

Record StoragePermissions := mkStoragePermissions {
  read_count : nat;
  read_permissions : list Z;
  modify_count : nat;
  modify_permissions : list Z;
  write_id : option Z;
  kerneluser : bool;
}.

Definition new (read_count : Z) (read_permissions : list Z) (modify_count : Z)
    (modify_permissions : list Z) (write_id : option Z) : StoragePermissions :=
  mkStoragePermissions (Z.to_nat (Z.min read_count 8)) read_permissions
    (Z.to_nat (Z.min modify_count 8)) modify_permissions write_id false.

Definition new_kernel_permissions : StoragePermissions :=
  mkStoragePermissions 0 (replicate 8 0) 0 (replicate 8 0) None true.

Definition contains (l : list Z) (x : Z) : bool := existsb (Z.eqb x) l.

Definition check_read_permission (p : StoragePermissions) (storage_id : Z) : bool :=
  if storage_id =? 0 then kerneluser p
  else contains (default [] (get (read_permissions p) 0 (read_count p))) storage_id.

Definition check_write_permission (p : StoragePermissions) (storage_id : Z) : bool :=
  if storage_id =? 0 then kerneluser p
  else contains (default [] (get (modify_permissions p) 0 (modify_count p))) storage_id.

Definition get_write_id (p : StoragePermissions) : option Z :=
  if kerneluser p then Some (default 0 (write_id p)) else write_id p.

Definition get_storage_permissions (h : TbfHeader) : option StoragePermissions :=
  let '(read_count, read_ids) := default (0, replicate 8 0) (get_storage_read_ids h) in
  let '(modify_count, modify_ids) := default (0, replicate 8 0) (get_storage_modify_ids h) in
  Some (new read_count read_ids modify_count modify_ids (get_storage_write_id h)).

(** * The command table *)

Definition encode_permission (p : TbfHeaderDriverPermission) : list Z :=
  row 4 [perm_driver_number p; perm_offset p] ++ row 8 [perm_allowed_commands p].
Definition encode_permissions (n : Z) (ps : list TbfHeaderDriverPermission) : list Z :=
  to_le_bytes 2 n ++ concat (map encode_permission ps).

Definition permission_ok (p : TbfHeaderDriverPermission) : Prop :=
  u32_range (perm_driver_number p) /\ u32_range (perm_offset p) /\ u64_range (perm_allowed_commands p).

(** What a table says about the commands [64 * offset], ... of a driver: its
    first entry for both counts, and a driver without entries has no commands. *)
Definition table_mask (ps : list TbfHeaderDriverPermission) (driver offset : Z) : option Z :=
  match filter (fun p => perm_driver_number p = driver /\ perm_offset p = offset) ps with
  | p :: _ => Some (perm_allowed_commands p)
  | [] => None
  end.
Definition lists_driver (ps : list TbfHeaderDriverPermission) (driver : Z) : bool :=
  existsb (fun p => perm_driver_number p =? driver) ps.
Definition table_permissions ps driver offset : CommandPermissions :=
  match table_mask ps driver offset with
  | Some m => Mask m
  | None => if lists_driver ps driver then Mask 0 else NoPermsThisDriver
  end.

Lemma encode_permission_length p : length (encode_permission p) = 16%nat.
Proof. unfold encode_permission. by rewrite length_app, !row_length. Qed.

Lemma permissions_length ps : length (concat (map encode_permission ps)) = (length ps * 16)%nat.
Proof.
  induction ps as [|p ps IH]; [done|]. cbn [map concat length].
  rewrite length_app, encode_permission_length, IH. lia.
Qed.

Lemma permission_roundtrip p : permission_ok p -> permission_try_from (encode_permission p) = Ok p.
Proof.
  intros (H1 & H2 & H3). unfold permission_try_from. rewrite encode_permission_length.
  cbn [Nat.ltb Nat.leb]. unfold encode_permission, u32_range, u64_range, U32, U64 in *.
  rewrite (le_at_row 4 _ 0 (perm_driver_number p)) by (reflexivity || lia). cbn [rbind].
  rewrite (le_at_row 4 _ 1 (perm_offset p)) by (reflexivity || lia). cbn [rbind].
  pose proof (le_at_shift (row 4 [perm_driver_number p; perm_offset p])
    (row 8 [perm_allowed_commands p]) 0 8 InternalError) as H. rewrite row_length in H.
  cbn [length Nat.mul Nat.add] in H. rewrite H.
  rewrite (le_at_row0 8 _ 0 (perm_allowed_commands p)) by (reflexivity || lia). by destruct p.
Qed.

Lemma get_entry ps qs p rest :
  get (concat (map encode_permission (ps ++ p :: qs)) ++ rest)
    (length ps * 16) ((length ps + 1) * 16) = Some (encode_permission p).
Proof.
  rewrite map_app, concat_app, <- app_assoc. cbn [map concat]. rewrite <- app_assoc.
  replace ((length ps + 1) * 16)%nat with (length ps * 16 + 16)%nat by lia.
  rewrite <- (permissions_length ps). rewrite <- (Nat.add_0_r (length (concat _))) at 1.
  rewrite get_shift. rewrite <- (encode_permission_length p). apply get_app.
Qed.

(** The loop from an entry on, with the driver found before or not. *)
Lemma permissions_loop_spec ps qs driver offset rest more found :
  Forall permission_ok qs ->
  permissions_loop (concat (map encode_permission (ps ++ qs)) ++ rest) driver offset
    (seq (length ps) (length qs) ++ more) found =
  match table_mask qs driver offset with
  | Some m => Some (Mask m)
  | None =>
    permissions_loop (concat (map encode_permission (ps ++ qs)) ++ rest) driver offset more
      (found || lists_driver qs driver)
  end.
Proof.
  intros Hok. revert ps found. induction Hok as [|p qs Hp Hqs IH]; intros ps found.
  - cbn. by rewrite orb_false_r.
  - cbn [length seq app permissions_loop]. rewrite get_entry, permission_roundtrip by done.
    specialize (IH (ps ++ [p])). rewrite <- app_assoc, length_app in IH. cbn [app length] in IH.
    rewrite Nat.add_1_r in IH. unfold table_mask, lists_driver in *. cbn [existsb].
    destruct (Z.eqb_spec (perm_driver_number p) driver) as [Hd|Hd];
      [destruct (Z.eqb_spec (perm_offset p) offset) as [Ho|Ho]|].
    + by rewrite filter_cons_True.
    + rewrite filter_cons_False by tauto. rewrite IH. cbn [orb]. by rewrite orb_true_r.
    + rewrite filter_cons_False by tauto. rewrite IH. by cbn [orb].
Qed.

Lemma table_read hd n ps rest driver offset :
  permissions hd = Some (encode_permissions n ps ++ rest) -> u16 n -> Forall permission_ok ps ->
  (length ps <= Z.to_nat n)%nat ->
  get_command_permissions (HeaderV2 hd) driver offset =
  match table_mask ps driver offset with
  | Some m => Mask m
  | None => default NoPermsAtAll
      (permissions_loop (concat (map encode_permission ps) ++ rest) driver offset
        (seq (length ps) (Z.to_nat n - length ps)) (lists_driver ps driver))
  end.
Proof.
  intros Hh Hn Hok Hlen. unfold get_command_permissions. rewrite Hh. unfold encode_permissions.
  rewrite <- app_assoc. pose proof (to_le_bytes_length 2 n) as Hl.
  rewrite <- Hl at 1. rewrite get_app.
  replace 2%nat with (length (to_le_bytes 2 n)) at 3 by done. rewrite get_from_app.
  rewrite from_to_le_bytes by exact Hn.
  replace (Z.to_nat n) with (length ps + (Z.to_nat n - length ps))%nat at 1 by lia.
  rewrite seq_app. cbn [Nat.add]. pose proof (permissions_loop_spec [] ps driver offset rest) as H.
  cbn [length app] in H. rewrite H by done. by destruct (table_mask ps driver offset).
Qed.

Lemma table_complete hd ps driver offset :
  permissions hd = Some (encode_permissions (Z.of_nat (length ps)) ps) ->
  Z.of_nat (length ps) < 2 ^ 16 -> Forall permission_ok ps ->
  get_command_permissions (HeaderV2 hd) driver offset = table_permissions ps driver offset.
Proof.
  intros Hh Hn Hok. rewrite <- (app_nil_r (encode_permissions _ _)) in Hh.
  rewrite (table_read _ _ _ _ _ _ Hh) by (done || unfold u16; lia).
  rewrite Nat2Z.id, Nat.sub_diag. unfold table_permissions. by destruct (table_mask _ _ _).
Qed.

Lemma mask_lists ps driver offset m : table_mask ps driver offset = Some m -> lists_driver ps driver = true.
Proof.
  unfold table_mask, lists_driver. destruct (filter _ ps) as [|p qs] eqn:Hf; [done|]. intros _.
  apply existsb_exists. exists p. assert (p ∈ filter (fun p => perm_driver_number p = driver /\ perm_offset p = offset) ps) as [Hp Hin]%list_elem_of_filter
    by (rewrite Hf; left). split; [by apply list_elem_of_In|]. apply Z.eqb_eq. tauto.
Qed.

Lemma mask_range ps driver offset m :
  Forall permission_ok ps -> table_mask ps driver offset = Some m -> 0 <= m.
Proof.
  unfold table_mask. intros Hok. destruct (filter _ ps) as [|p qs] eqn:Hf; [done|]. intros [= <-].
  assert (p ∈ filter (fun p => perm_driver_number p = driver /\ perm_offset p = offset) ps) as [_ Hin]%list_elem_of_filter
    by (rewrite Hf; left). eapply Forall_forall in Hok as (_ & _ & H); [|done]. apply H.
Qed.

Lemma mask_bit m k : 0 <= m -> 0 <= k ->
  (0 <? Z.land (Z.shiftl 1 k) m) = Z.testbit m k.
Proof.
  intros Hm Hk. rewrite Z.shiftl_1_l.
  assert (H : Z.land (2 ^ k) m = if Z.testbit m k then 2 ^ k else 0).
  { apply Z.bits_inj'. intros n Hn. rewrite Z.land_spec.
    destruct (Z.testbit m k) eqn:Hb; rewrite ?Z.bits_0, Z.pow2_bits_eqb by done;
      destruct (Z.eqb_spec k n) as [<-|]; by rewrite ?Hb. }
  rewrite H. destruct (Z.testbit m k); [|done]. apply Z.ltb_lt, Z.pow_pos_nonneg; lia.
Qed.

(** With a command table in the header, the filter allows a command exactly
    when the first entry for the driver and the command's group of 64 has the
    command's bit; it allows the other calls to a driver exactly when the table
    lists the driver, and never stops a yield, a memop or an exit. *)
Theorem filter_syscall_exact hd ps syscall :
  permissions hd = Some (encode_permissions (Z.of_nat (length ps)) ps) ->
  Z.of_nat (length ps) < 2 ^ 16 -> Forall permission_ok ps ->
  filter_syscall (HeaderV2 hd) syscall =
  match syscall with
  | Command driver command _ _ =>
    if Z.testbit (default 0 (table_mask ps driver (command / 64))) (command mod 64)
    then Ok tt else Err NODEVICE
  | Subscribe driver _ _ _ | ReadWriteAllow driver _ _ _ | UserspaceReadableAllow driver _ _ _
  | ReadOnlyAllow driver _ _ _ => if lists_driver ps driver then Ok tt else Err NODEVICE
  | Yield _ _ _ | Memop _ _ | Exit _ _ => Ok tt
  end.
Proof.
  intros Hh Hn Hok.
  assert (Hp : forall d o, get_command_permissions (HeaderV2 hd) d o = table_permissions ps d o)
    by (intros; by apply table_complete).
  destruct syscall as [| |d c| | | | |]; cbn [filter_syscall]; try done;
    unfold permits_driver; rewrite Hp; unfold table_permissions.
  2: { destruct (table_mask ps d (c / 64)) as [m|] eqn:Hm; cbn [from_option id].
       - rewrite mask_bit; [done|by eapply mask_range|by apply Z.mod_pos_bound].
       - rewrite Z.testbit_0_l. destruct (lists_driver ps d); [|done]. by rewrite Z.land_0_r. }
  all: destruct (table_mask ps _ 0) eqn:Hm; [by rewrite (mask_lists _ _ _ _ Hm)|];
    by destruct (lists_driver _ _).
Qed.


Lemma loop_truncated slice driver offset i more found :
  (length slice < (i + 1) * 16)%nat -> permissions_loop slice driver offset (i :: more) found = None.
Proof.
  intros H. cbn [permissions_loop]. unfold get.
  destruct (Nat.leb_spec ((i + 1) * 16) (length slice)); [lia|]. by rewrite andb_false_r.
Qed.

(** A command table that announces more entries than it holds is treated as if
    the header had no table: the filter allows every command for which no entry
    is present, including commands of drivers that the table does not list. *)
Theorem truncated_permissions_allow hd n ps rest driver command arg0 arg1 :
  permissions hd = Some (encode_permissions n ps ++ rest) -> u16 n -> Forall permission_ok ps ->
  Z.of_nat (length ps) < n -> (length rest < 16)%nat ->
  table_mask ps driver (command / 64) = None ->
  filter_syscall (HeaderV2 hd) (Command driver command arg0 arg1) = Ok tt.
Proof.
  intros Hh Hn Hok Hlen Hrest Hm. cbn [filter_syscall].
  rewrite (table_read _ _ _ _ _ _ Hh) by (done || lia). rewrite Hm.
  destruct (Z.to_nat n - length ps)%nat as [|k] eqn:Hk; [lia|]. cbn [seq].
  rewrite loop_truncated; [done|]. rewrite length_app, permissions_length. lia.
Qed.

(** * The storage table *)

Definition encode_storage (w : Z) (rs ms : list Z) : list Z :=
  row 4 [w] ++ row 2 [Z.of_nat (length rs)] ++ row 4 rs ++ row 2 [Z.of_nat (length ms)] ++ row 4 ms.

(** The loop stores the identifiers from number [length done_] on. *)
Lemma read_ids_spec pre done_ todo ids rest :
  Forall u32_range (done_ ++ todo) -> (length (done_ ++ todo) <= length ids)%nat ->
  read_ids (pre ++ row 4 (done_ ++ todo) ++ rest) (length pre)
    (seq (length done_) (length todo)) (done_ ++ drop (length done_) ids) =
  Ok ((done_ ++ todo) ++ drop (length (done_ ++ todo)) ids).
Proof.
  intros Hok. revert done_ Hok. induction todo as [|v todo IH]; intros done_ Hok Hlen.
  { cbn. by rewrite app_nil_r. }
  rewrite length_app in Hlen. cbn [length] in Hlen. cbn [length seq read_ids].
  rewrite length_app, length_drop.
  destruct (Nat.ltb_spec (length done_) (length done_ + (length ids - length done_))); [|lia].
  rewrite <- Nat.add_assoc, le_at_shift.
  rewrite (le_at_row 4 _ (length done_) v);
    [|by rewrite lookup_app_r, Nat.sub_diag by lia|by apply Forall_app in Hok as [_ ?%Forall_cons]; naive_solver|lia|lia].
  cbn [rbind]. specialize (IH (done_ ++ [v])). rewrite <- app_assoc in IH. cbn [app] in IH.
  rewrite !length_app in IH. cbn [length] in IH. rewrite Nat.add_1_r in IH.
  destruct (drop (length done_) ids) as [|x xs] eqn:Hd.
  { apply (f_equal length) in Hd. rewrite length_drop in Hd. cbn in Hd. lia. }
  assert (Hxs : drop (S (length done_)) ids = xs).
  { replace (S (length done_)) with (length done_ + 1)%nat by lia. rewrite <- drop_drop, Hd. done. }
  rewrite insert_app_r_alt, Nat.sub_diag by lia. cbn [insert list_insert].
  rewrite Hxs, <- app_assoc in IH. cbn [app] in IH. rewrite IH; [|done|lia].
  by rewrite length_app.
Qed.

Lemma read_ids_too_many b base_ n ids :
  (length ids < n)%nat -> exists e, read_ids b base_ (seq 0 n) ids = Err e.
Proof.
  assert (forall k i ids, (i <= length ids)%nat -> (length ids < i + k)%nat ->
    exists e, read_ids b base_ (seq i k) ids = Err e) as H.
  { induction k as [|k IH]; intros i ids0 Hi Hk; [lia|]. cbn [seq read_ids].
    destruct (Nat.ltb_spec i (length ids0)); [|by eexists].
    destruct (le_at b _ _ _); [|by eexists]. cbn [rbind].
    apply IH; rewrite length_insert; lia. }
  intros Hn. apply H; lia.
Qed.

(** An identifier array with the unused places zero. *)
Definition ids_array (l : list Z) : list Z := l ++ replicate (8 - length l) 0.

Lemma le_at_mid pre n v rest a c e :
  a = length pre -> c = (a + n)%nat -> 0 <= v < 2 ^ (8 * Z.of_nat n) ->
  le_at (pre ++ row n [v] ++ rest) a c e = Ok v.
Proof.
  intros -> -> Hv. rewrite <- (Nat.add_0_r (length pre)) at 1. rewrite le_at_shift.
  by apply (le_at_row n [v] 0).
Qed.

(** One of the two tables, at [base_] and after [n] bytes. *)
Lemma read_ids_table pre l rest base_ :
  base_ = length pre -> Forall u32_range l ->
  ((length l <= 8)%nat /\
   read_ids (pre ++ row 4 l ++ rest) base_ (seq 0 (length l)) (replicate 8 0) = Ok (ids_array l)) \/
  ((8 < length l)%nat /\
   exists e, read_ids (pre ++ row 4 l ++ rest) base_ (seq 0 (length l)) (replicate 8 0) = Err e).
Proof.
  intros -> Hl. destruct (Nat.lt_ge_cases 8 (length l)) as [Hn|Hn]; [right|left]; split; [done| |done|].
  - by apply read_ids_too_many.
  - pose proof (read_ids_spec pre [] l (replicate 8 0) rest) as H. cbn [app length drop] in H.
    rewrite drop_0 in H. rewrite H by (done || by rewrite length_replicate).
    by rewrite drop_replicate.
Qed.

Definition storage_ok (w : Z) (rs ms : list Z) : Prop :=
  u32_range w /\ Forall u32_range rs /\ Forall u32_range ms /\
  Z.of_nat (length rs) < 2 ^ 16 /\ Z.of_nat (length ms) < 2 ^ 16.

Lemma storage_read w rs ms :
  storage_ok w rs ms ->
  ((length rs <= 8)%nat /\ (length ms <= 8)%nat /\
   storage_try_from 8 (encode_storage w rs ms) =
     Ok (mkStorage (non_zero w) (Z.of_nat (length rs)) (ids_array rs) (Z.of_nat (length ms)) (ids_array ms)))
  \/ (((8 < length rs)%nat \/ (8 < length ms)%nat) /\
      exists e, storage_try_from 8 (encode_storage w rs ms) = Err e).
Proof.
  intros (Hw & Hrs & Hms & Hlr & Hlm). unfold storage_try_from.
  assert (Hlrs : (length (row 4 rs) = length rs * 4)%nat) by apply row_length.
  set (s := encode_storage w rs ms). set (p1 := row 4 [w]). set (l1 := row 2 [Z.of_nat (length rs)]).
  set (l2 := row 2 [Z.of_nat (length ms)]).
  assert (Hp1 : length p1 = 4%nat) by (by apply row_length).
  assert (Hl1 : length l1 = 2%nat) by (by apply row_length).
  assert (Hl2 : length l2 = 2%nat) by (by apply row_length).
  assert (E0 : s = [] ++ p1 ++ l1 ++ row 4 rs ++ l2 ++ row 4 ms) by done.
  assert (E1 : s = p1 ++ l1 ++ row 4 rs ++ l2 ++ row 4 ms) by done.
  assert (E2 : s = (p1 ++ l1) ++ row 4 rs ++ l2 ++ row 4 ms) by (rewrite <- app_assoc; done).
  assert (E3 : s = (p1 ++ l1 ++ row 4 rs) ++ l2 ++ row 4 ms) by (rewrite <- !app_assoc; done).
  assert (E4 : s = (p1 ++ l1 ++ row 4 rs ++ l2) ++ row 4 ms ++ []) by (rewrite <- !app_assoc, app_nil_r; done).
  assert (R0 : le_at s 0 4 NotEnoughFlash = Ok w) by (rewrite E0; by apply le_at_mid).
  assert (R1 : le_at s 4 6 NotEnoughFlash = Ok (Z.of_nat (length rs)))
    by (rewrite E1; apply le_at_mid; [done|done|cbn; lia]).
  rewrite R0. cbn [rbind]. rewrite R1. cbn [rbind]. rewrite Nat2Z.id.
  destruct (read_ids_table (p1 ++ l1) rs (l2 ++ row 4 ms) 6) as [ [Hr Hread] | [Hr [e Hread] ] ];
    [by rewrite length_app, Hp1, Hl1|done| |]; rewrite <- E2 in Hread; rewrite Hread; cbn [rbind];
    [|right; split; [by left|by exists e] ].
  assert (R2 : le_at s (6 + length rs * 4) (6 + length rs * 4 + 2) NotEnoughFlash = Ok (Z.of_nat (length ms))).
  { rewrite E3. apply le_at_mid; [|done|cbn; lia]. rewrite !length_app. lia. }
  rewrite R2. cbn [rbind]. rewrite Nat2Z.id.
  destruct (read_ids_table (p1 ++ l1 ++ row 4 rs ++ l2) ms [] (6 + length rs * 4 + 2)) as [ [Hm Hread2] | [Hm [e Hread2] ] ];
    [rewrite !length_app; lia|done| |];
    rewrite <- E4 in Hread2; rewrite Hread2; cbn [rbind]; [by left|].
  right. split; [by right|by exists e].
Qed.

Lemma contains_array l id : (length l <= 8)%nat ->
  contains (default [] (get (ids_array l) 0 (Z.to_nat (Z.min (Z.of_nat (length l)) 8)))) id = contains l id.
Proof.
  intros Hl. rewrite Z.min_l, Nat2Z.id by lia. unfold ids_array. by rewrite get_app.
Qed.

(** A process's storage permissions are those of its header: it creates objects
    with the write identifier of the table, if that is not zero, and reads and
    modifies exactly the objects with the listed non-zero identifiers; a table
    with more than eight identifiers of a kind gives no access to stored
    objects at all. *)
Theorem storage_permissions_exact hd w rs ms :
  storage_permissions hd = Some (encode_storage w rs ms) -> storage_ok w rs ms ->
  exists p, get_storage_permissions (HeaderV2 hd) = Some p /\ get_write_id p = non_zero w /\
    forall id,
      let fits := (length rs <=? 8)%nat && (length ms <=? 8)%nat in
      check_read_permission p id = fits && negb (id =? 0) && contains rs id /\
      check_write_permission p id = fits && negb (id =? 0) && contains ms id.
Proof.
  intros Hh Hok. pose proof (storage_read w rs ms Hok) as Hs.
  assert (Hw : get_storage_write_id (HeaderV2 hd) = non_zero w).
  { unfold get_storage_write_id, encode_storage in *. rewrite Hh.
    rewrite (get_payload (row 4 [w])) by done. f_equal.
    unfold row. cbn [map concat]. rewrite app_nil_r. apply from_to_le_bytes. apply Hok. }
  unfold get_storage_permissions. rewrite Hw.
  unfold get_storage_read_ids, get_storage_modify_ids, storage. rewrite Hh. unfold NUM_STORAGE_PERMISSIONS.
  destruct Hs as [(Hr & Hm & ->) | (Hlong & e & ->)]; cbn [mbind option_bind from_option id];
    eexists; (split; [done|]); (split; [done|]); intros id0; cbv zeta;
    unfold check_read_permission, check_write_permission; cbn [new kerneluser read_permissions read_count
      modify_permissions modify_count sp_read_length sp_read_ids sp_modify_length sp_modify_ids].
  - rewrite !contains_array by done. destruct (Nat.leb_spec (length rs) 8), (Nat.leb_spec (length ms) 8); [|lia..].
    by destruct (id0 =? 0).
  - assert ((length rs <=? 8)%nat && (length ms <=? 8)%nat = false) as ->
      by (destruct (Nat.leb_spec (length rs) 8), (Nat.leb_spec (length ms) 8); cbn; (done || lia)).
    by destruct (id0 =? 0).
Qed.

(** The kernel's own permissions reach the objects of the kernel and no others. *)
Lemma kernel_permissions_exact id :
  check_read_permission new_kernel_permissions id = (id =? 0) /\
  check_write_permission new_kernel_permissions id = (id =? 0) /\
  get_write_id new_kernel_permissions = Some 0.
Proof.
  unfold check_read_permission, check_write_permission. by destruct (id =? 0).
Qed.

(** * Examples *)

(** A header with a command table, a storage table and a name. *)
Definition demo_base : TbfHeaderV2Base := mkBase 2 64 4096 1 0.
Definition demo_table : list TbfHeaderDriverPermission :=
  [mkPermission 1 0 6; mkPermission 1 1 1; mkPermission 0 0 1].
Definition demo_header (table storage : list Z) : TbfHeaderV2 :=
  mkHeaderV2 demo_base None None (Some []) None None (Some table) (Some storage) None None.

Lemma demo_table_ok : Forall permission_ok demo_table.
Proof. repeat constructor; done. Qed.

Lemma filter_syscall_exact_witness :
  let h := demo_header (encode_permissions 3 demo_table) [] in
  filter_syscall (HeaderV2 h) (Command 1 2 0 0) = Ok tt /\
  filter_syscall (HeaderV2 h) (Command 1 64 0 0) = Ok tt /\
  filter_syscall (HeaderV2 h) (Command 1 0 0 0) = Err NODEVICE /\
  filter_syscall (HeaderV2 h) (Subscribe 7 0 0 0) = Err NODEVICE.
Proof.
  split_and!;
    (rewrite (filter_syscall_exact _ demo_table); [reflexivity|reflexivity|reflexivity|apply demo_table_ok]).
Defined.

Lemma truncated_permissions_allow_witness :
  filter_syscall (HeaderV2 (demo_header (encode_permissions 4 demo_table ++ [7]) [])) (Command 7 0 0 0) = Ok tt.
Proof.
  apply (truncated_permissions_allow _ 4 demo_table [7]);
    [reflexivity|unfold u16; lia|apply demo_table_ok|cbn; lia|cbn; lia|reflexivity].
Defined.

Lemma storage_permissions_exact_witness :
  let h := demo_header [] (encode_storage 5 [5; 6] [5]) in
  exists p, get_storage_permissions (HeaderV2 h) = Some p /\ get_write_id p = Some 5 /\
    check_read_permission p 6 = true /\ check_write_permission p 6 = false.
Proof.
  destruct (storage_permissions_exact (demo_header [] (encode_storage 5 [5; 6] [5])) 5 [5; 6] [5])
    as (p & Hp & Hw & Hc); [reflexivity| |].
  - unfold storage_ok. repeat constructor; done.
  - exists p. split; [exact Hp|]. split; [exact Hw|]. split; [apply (proj1 (Hc 6))|apply (proj2 (Hc 6))].
Defined.

End Permissions.
