(* ===== verification/ProcessBinary.v ===== *)
(** Process binaries in flash ([kernel/src/process_binary.rs]), with the errors
    and results of credential checking ([kernel/src/process_checker.rs]) that a
    process binary carries.

    A slice of flash is its address and its bytes. *)

From stdpp Require Import base numbers list.
From S2P Require Import Prelude Tbf.
Local Open Scope Z_scope.

Module Pb.

(** * Data *)

Inductive ProcessBinaryError :=
  | TbfHeaderNotFound
  | TbfHeaderParseFailure (e : Tbf.TbfParseError)
  | NotEnoughFlash
  | IncompatibleKernelVersion (version : option (Z * Z))
  | IncorrectFlashAddress (actual_address expected_address : Z)
  | NotEnabledProcess
  | Padding.

(** [ProcessCheckError]; its last constructor is [InternalError]. *)
Inductive ProcessCheckError :=
  | CredentialsNotAccepted
  | CredentialsRejected (index : Z)
  | CheckInternalError.

Record AcceptedCredential := mkAccepted {
  ac_credential : Tbf.TbfFooterV2Credentials;
  ac_metadata : option Z;
}.

Record ProcessBinary := mkProcessBinary {
  pb_flash_ptr : Z;
  pb_flash : list Z;
  pb_footers : list Z;
  pb_header : Tbf.TbfHeader;
  pb_credential : option AcceptedCredential;
}.

Definition pb_flash_len (pb : ProcessBinary) : Z := Z.of_nat (length (pb_flash pb)).
Definition set_credential (c : option AcceptedCredential) (pb : ProcessBinary) : ProcessBinary :=
  mkProcessBinary (pb_flash_ptr pb) (pb_flash pb) (pb_footers pb) (pb_header pb) c.

(** * Operations *)

Definition KERNEL_MAJOR_VERSION : Z := 2.
Definition KERNEL_MINOR_VERSION : Z := 1.

(** The check of the kernel version that a header asks for. *)
Definition check_kernel_version (header : Tbf.TbfHeader) (require_kernel_version : bool)
    : result unit ProcessBinaryError :=
  match Tbf.get_kernel_version header with
  | Some (major, minor) =>
    if negb (KERNEL_MAJOR_VERSION =? major) || (KERNEL_MINOR_VERSION <? minor)
    then Err (IncompatibleKernelVersion (Some (major, minor))) else Ok tt
  | None => if require_kernel_version then Err (IncompatibleKernelVersion None) else Ok tt
  end.

(** The check of the flash address that a header asks for. *)
Definition check_flash_address (addr : Z) (header : Tbf.TbfHeader)
    : outcome (result unit ProcessBinaryError) :=
  match Tbf.get_fixed_address_flash header with
  | Some fixed_flash_start =>
    let! protected_size := Tbf.get_protected_size header in
    let! actual_address := add32 addr protected_size in
    Ret (if actual_address =? fixed_flash_start then Ok tt
         else Err (IncorrectFlashAddress actual_address fixed_flash_start))
  | None => Ret (Ok tt)
  end.

(** [ProcessBinary::create]; [addr] is [app_flash.as_ptr()]. *)
Definition create (addr : Z) (app_flash : list Z) (header_length : nat) (tbf_version : Z)
    (require_kernel_version : bool) : outcome (result ProcessBinary ProcessBinaryError) :=
  match get app_flash 0 header_length with
  | None => Ret (Err NotEnoughFlash)
  | Some header_flash =>
  let! h := Tbf.parse_tbf_header header_flash tbf_version in
  match h with
  | Err e => Ret (Err (TbfHeaderParseFailure e))
  | Ok tbf_header =>
  if negb (Tbf.is_app tbf_header) then Ret (Err Padding)
  else if negb (Tbf.enabled tbf_header) then Ret (Err NotEnabledProcess)
  else
  match check_kernel_version tbf_header require_kernel_version with
  | Err e => Ret (Err e)
  | Ok _ =>
  let binary_end := Z.to_nat (Tbf.get_binary_end tbf_header) in
  match get app_flash binary_end (length app_flash) with
  | None => Ret (Err NotEnoughFlash)
  | Some footer_region =>
  let! a := check_flash_address addr tbf_header in
  Ret (let? _ := a in Ok (mkProcessBinary addr app_flash footer_region tbf_header None))
  end
  end
  end
  end.

Definition get_credential (pb : ProcessBinary) : option AcceptedCredential := pb_credential pb.

(** [slice::from_raw_parts] over the flash of the binary. *)
Definition get_integrity_region_slice (pb : ProcessBinary) : outcome (list Z) :=
  slice (pb_flash pb) 0 (Z.to_nat (Tbf.get_binary_end (pb_header pb))).

(** * What a created binary satisfies *)

(** The header is that of the front of the flash, and the flash is the region
    covered by integrity followed by the footers. *)
Record pb_wf (pb : ProcessBinary) : Prop := mkPbWf {
  pbw_header : exists n, (n <= length (pb_flash pb))%nat /\
    Tbf.parse_tbf_header (take n (pb_flash pb)) 2 = Ret (Ok (pb_header pb));
  pbw_app : Tbf.is_app (pb_header pb) = true;
  pbw_split : exists integrity, get_integrity_region_slice pb = Ret integrity /\
    pb_flash pb = integrity ++ pb_footers pb;
}.

Lemma create_wf addr app_flash hl v req pb :
  create addr app_flash hl v req = Ret (Ok pb) ->
  pb_wf pb /\ pb_flash_ptr pb = addr /\ pb_flash pb = app_flash /\ pb_credential pb = None.
Proof.
  unfold create. destruct (get app_flash 0 hl) as [hf|] eqn:Hg; [|done]. intros H.
  apply get_Some in Hg as [Hhl ->]. rewrite drop_0, Nat.sub_0_r in H.
  apply obind_Ret in H as (h & Hp & H). destruct h as [hd|]; [|done].
  destruct (Tbf.is_app hd) eqn:Happ; [|done]. destruct (Tbf.enabled hd); [|done]. cbn [negb] in H.
  destruct (check_kernel_version hd req); [|done].
  destruct (get app_flash _ (length app_flash)) as [fs|] eqn:Hf; [|done].
  apply obind_Ret in H as (r & _ & H). destruct r; [|done]. injection H as <-.
  apply get_Some in Hf as [Hb ->]. split; [|done].
  assert (v = 2) as ->.
  { unfold Tbf.parse_tbf_header in Hp. by destruct (Z.eqb_spec v 2). }
  split; cbn; [|done|].
  - exists hl. split; [lia|done].
  - exists (take (Z.to_nat (Tbf.get_binary_end hd)) app_flash). unfold get_integrity_region_slice, slice. cbn.
    destruct (Nat.leb_spec (Z.to_nat (Tbf.get_binary_end hd)) (length app_flash)); [|lia].
    rewrite drop_0, Nat.sub_0_r. split; [done|].
    rewrite (take_ge (drop _ _)) by (rewrite length_drop; lia). by rewrite take_drop.
Qed.

End Pb.
