(* ===== verification/Process.v ===== *)
(** Processes ([kernel/src/process_standard.rs], with the data types of
    [kernel/src/process.rs] and [kernel/src/upcall.rs] and the trait
    [UserspaceKernelBoundary] of [kernel/src/syscall.rs]).

    [Proc.process] is the mutable part of [ProcessStandard]; the operations are
    the methods of [impl Process for ProcessStandard] and of the private
    implementation, written against the operations of the [MPU] trait
    ([Mpu.MPU]) and of the context-switch trait ([Proc.UKB]).  A [MapCell] or an
    [OptionalCell] is an [option]; addresses are 32-bit values. *)

From stdpp Require Import base numbers list.
From S2P Require Import Prelude RingBuffer Mpu Syscall Tbf ProcessBinary.
Import Ring Mpu Syscall Pb.
Local Open Scope Z_scope.

Module Proc.

(** * Data *)

Record UpcallId := mkUpcallId { driver_num : Z; subscribe_num : Z }.
Record ProcessId := mkProcessId { identifier : Z; pindex : Z }.

Inductive FunctionCallSource := SKernel | SDriver (id : UpcallId).
Record FunctionCall := mkFunctionCall {
  source : FunctionCallSource;
  argument0 : Z; argument1 : Z; argument2 : Z; argument3 : Z;
  pc : Z;
}.
Record ReturnArguments := mkReturnArguments {
  ra_upcall_id : UpcallId;
  ra_argument0 : Z; ra_argument1 : Z; ra_argument2 : Z;
}.
Inductive IPCUpcallType := IPCService | IPCClient.
Inductive Task :=
  | TFunctionCall (f : FunctionCall)
  | TReturnValue (r : ReturnArguments)
  | TIPC (from : ProcessId) (ty : IPCUpcallType).

Inductive StoppedState := StRunning | StYielded | StYieldedFor (id : UpcallId).
Inductive State :=
  | Running
  | Yielded
  | YieldedFor (id : UpcallId)
  | Stopped (s : StoppedState)
  | Faulted
  | Terminated.

Inductive FaultAction := FPanic | FRestart | FStop.

Inductive ContextSwitchReason :=
  | SyscallFired (s : Syscall)
  | Fault
  | Interrupted.

Record GrantPointerEntry := mkGrantEntry { ge_driver_num : Z; grant_ptr : Z }.

Record Debug := mkDebug {
  app_heap_start_pointer : option Z;
  app_stack_start_pointer : option Z;
  app_stack_min_pointer : option Z;
  syscall_count : Z;
  last_syscall : option Syscall;
  dropped_upcall_count : Z;
  timeslice_expiration_count : Z;
}.

(** What [ReadWriteProcessBuffer::new] and [ReadOnlyProcessBuffer::new] keep. *)
Record ProcessBuffer := mkProcessBuffer { buf_ptr : Z; buf_len : Z; buf_process : ProcessId }.

Inductive ProcessLoadError :=
  | NotEnoughMemory
  | MpuInvalidFlashLength
  | MpuConfigurationError
  | MemoryAddressMismatch (actual_address expected_address : Z)
  | NoProcessSlot
  | BinaryError (e : ProcessBinaryError)
  | CheckError (e : ProcessCheckError)
  | InternalError.

(** The parts of [Kernel] that processes use. *)
Record Kernel := mkKernel {
  process_identifier_max : Z;
  grant_counter : Z;
  grants_finalized : bool;
}.

#[export] Instance UpcallId_eq_dec : EqDecision UpcallId.
Proof. solve_decision. Defined.
#[export] Instance ProcessId_eq_dec : EqDecision ProcessId.
Proof. solve_decision. Defined.
#[export] Instance StoppedState_eq_dec : EqDecision StoppedState.
Proof. solve_decision. Defined.
#[export] Instance State_eq_dec : EqDecision State.
Proof. solve_decision. Defined.

(** The context-switch trait. *)
Class UKB (stored : Type) := {
  stored_default : stored;
  initial_process_app_brk_size : Z;
  ukb_initialize_process : Z -> Z -> stored -> result unit unit * stored;
  ukb_set_syscall_return_value : Z -> Z -> stored -> SyscallReturn ->
    result unit unit * stored;
  ukb_set_process_function : Z -> Z -> stored -> FunctionCall ->
    result unit unit * stored;
  ukb_switch_to_process : Z -> Z -> stored -> ContextSwitchReason * option Z * stored;
}.

Record process (stored config : Type) := mkProcess {
  process_id : ProcessId;
  memory_start : Z;
  memory_len : Z;
  flash_ptr : Z;
  flash_len : Z;
  header : Tbf.TbfHeader;
  grant_pointers : option (list GrantPointerEntry);
  kernel_memory_break : Z;
  app_break : Z;
  allow_high_water_mark : Z;
  stored_state : option stored;
  state : State;
  mpu_config : option config;
  mpu_regions : list (option Region);
  tasks : option (RingBuffer Task);
  restart_count : Z;
  completion_code : option (option Z);
  debug : option Debug;
}.
Arguments mkProcess {stored config}.
Arguments process_id {stored config}.
Arguments memory_start {stored config}.
Arguments memory_len {stored config}.
Arguments flash_ptr {stored config}.
Arguments flash_len {stored config}.
Arguments header {stored config}.
Arguments grant_pointers {stored config}.
Arguments kernel_memory_break {stored config}.
Arguments app_break {stored config}.
Arguments allow_high_water_mark {stored config}.
Arguments stored_state {stored config}.
Arguments state {stored config}.
Arguments mpu_config {stored config}.
Arguments mpu_regions {stored config}.
Arguments tasks {stored config}.
Arguments restart_count {stored config}.
Arguments completion_code {stored config}.
Arguments debug {stored config}.

Section setters.
  Context {stored config : Type}.
  Implicit Type p : process stored config.

Definition set_process_id (v : ProcessId) p : process stored config :=
  mkProcess v (memory_start p) (memory_len p) (flash_ptr p) (flash_len p) (header p)
    (grant_pointers p) (kernel_memory_break p) (app_break p) (allow_high_water_mark p)
    (stored_state p) (state p) (mpu_config p) (mpu_regions p) (tasks p) (restart_count
    p) (completion_code p) (debug p).
Definition set_grant_pointers (v : option (list GrantPointerEntry)) p : process stored config :=
  mkProcess (process_id p) (memory_start p) (memory_len p) (flash_ptr p) (flash_len p)
    (header p) v (kernel_memory_break p) (app_break p) (allow_high_water_mark p)
    (stored_state p) (state p) (mpu_config p) (mpu_regions p) (tasks p) (restart_count
    p) (completion_code p) (debug p).
Definition set_kernel_memory_break (v : Z) p : process stored config :=
  mkProcess (process_id p) (memory_start p) (memory_len p) (flash_ptr p) (flash_len p)
    (header p) (grant_pointers p) v (app_break p) (allow_high_water_mark p)
    (stored_state p) (state p) (mpu_config p) (mpu_regions p) (tasks p) (restart_count
    p) (completion_code p) (debug p).
Definition set_app_break (v : Z) p : process stored config :=
  mkProcess (process_id p) (memory_start p) (memory_len p) (flash_ptr p) (flash_len p)
    (header p) (grant_pointers p) (kernel_memory_break p) v (allow_high_water_mark p)
    (stored_state p) (state p) (mpu_config p) (mpu_regions p) (tasks p) (restart_count
    p) (completion_code p) (debug p).
Definition set_allow_high_water_mark (v : Z) p : process stored config :=
  mkProcess (process_id p) (memory_start p) (memory_len p) (flash_ptr p) (flash_len p)
    (header p) (grant_pointers p) (kernel_memory_break p) (app_break p) v (stored_state
    p) (state p) (mpu_config p) (mpu_regions p) (tasks p) (restart_count p)
    (completion_code p) (debug p).
Definition set_stored_state (v : option stored) p : process stored config :=
  mkProcess (process_id p) (memory_start p) (memory_len p) (flash_ptr p) (flash_len p)
    (header p) (grant_pointers p) (kernel_memory_break p) (app_break p)
    (allow_high_water_mark p) v (state p) (mpu_config p) (mpu_regions p) (tasks p)
    (restart_count p) (completion_code p) (debug p).
Definition set_state (v : State) p : process stored config :=
  mkProcess (process_id p) (memory_start p) (memory_len p) (flash_ptr p) (flash_len p)
    (header p) (grant_pointers p) (kernel_memory_break p) (app_break p)
    (allow_high_water_mark p) (stored_state p) v (mpu_config p) (mpu_regions p) (tasks
    p) (restart_count p) (completion_code p) (debug p).
Definition set_mpu_config (v : option config) p : process stored config :=
  mkProcess (process_id p) (memory_start p) (memory_len p) (flash_ptr p) (flash_len p)
    (header p) (grant_pointers p) (kernel_memory_break p) (app_break p)
    (allow_high_water_mark p) (stored_state p) (state p) v (mpu_regions p) (tasks p)
    (restart_count p) (completion_code p) (debug p).
Definition set_mpu_regions (v : list (option Region)) p : process stored config :=
  mkProcess (process_id p) (memory_start p) (memory_len p) (flash_ptr p) (flash_len p)
    (header p) (grant_pointers p) (kernel_memory_break p) (app_break p)
    (allow_high_water_mark p) (stored_state p) (state p) (mpu_config p) v (tasks p)
    (restart_count p) (completion_code p) (debug p).
Definition set_tasks (v : option (RingBuffer Task)) p : process stored config :=
  mkProcess (process_id p) (memory_start p) (memory_len p) (flash_ptr p) (flash_len p)
    (header p) (grant_pointers p) (kernel_memory_break p) (app_break p)
    (allow_high_water_mark p) (stored_state p) (state p) (mpu_config p) (mpu_regions p)
    v (restart_count p) (completion_code p) (debug p).
Definition set_restart_count (v : Z) p : process stored config :=
  mkProcess (process_id p) (memory_start p) (memory_len p) (flash_ptr p) (flash_len p)
    (header p) (grant_pointers p) (kernel_memory_break p) (app_break p)
    (allow_high_water_mark p) (stored_state p) (state p) (mpu_config p) (mpu_regions p)
    (tasks p) v (completion_code p) (debug p).
Definition set_completion_code (v : option (option Z)) p : process stored config :=
  mkProcess (process_id p) (memory_start p) (memory_len p) (flash_ptr p) (flash_len p)
    (header p) (grant_pointers p) (kernel_memory_break p) (app_break p)
    (allow_high_water_mark p) (stored_state p) (state p) (mpu_config p) (mpu_regions p)
    (tasks p) (restart_count p) v (debug p).
Definition set_debug (v : option Debug) p : process stored config :=
  mkProcess (process_id p) (memory_start p) (memory_len p) (flash_ptr p) (flash_len p)
    (header p) (grant_pointers p) (kernel_memory_break p) (app_break p)
    (allow_high_water_mark p) (stored_state p) (state p) (mpu_config p) (mpu_regions p)
    (tasks p) (restart_count p) (completion_code p) v.

End setters.

(** * Operations *)

Section operations.
  Context {hw config stored : Type} {mpu : MPU hw config} {ukb : UKB stored}.
  (** [size_of::<Task>() * CALLBACK_LEN], [size_of::<ProcessStandard<C>>()] and
      [size_of::<GrantPointerEntry>()] (two words). *)
  Context (CALLBACKS_OFFSET PROCESS_STRUCT_OFFSET : Z).
  (** The process's [fault_policy]. *)
  Context (fault_action : process stored config -> FaultAction).
  Implicit Type p : process stored config.

Definition CALLBACK_LEN : nat := 10.
Definition GRANT_ENTRY_SIZE : Z := 8.
Definition WORD : Z := 4.

Definition mem_start p : Z := memory_start p.
Definition mem_end p : Z := wrapping_add32 (memory_start p) (memory_len p).
Definition flash_start p : Z := flash_ptr p.
Definition flash_non_protected_start p : outcome Z :=
  let! protected_size := Tbf.get_protected_size (header p) in
  add32 (flash_ptr p) protected_size.
Definition flash_end p : Z := wrapping_add32 (flash_ptr p) (flash_len p).

Definition is_running p : bool :=
  match state p with
  | Running | Yielded | YieldedFor _ | Stopped _ => true
  | _ => false
  end.

Definition map_debug (f : Debug -> outcome Debug) p : outcome (process stored config) :=
  match debug p with
  | None => Ret p
  | Some d => let! d := f d in Ret (set_debug (Some d) p)
  end.

Definition enqueue_task (task : Task) p
    : outcome (result unit ErrorCode * process stored config) :=
  if negb (is_running p) then Ret (Err NODEVICE, p)
  else
    let! '(ret, p) :=
      (match tasks p with
       | None => Ret (Err FAIL, p)
       | Some ts =>
         let! '(ok, ts) := enqueue ts task in
         Ret ((if ok : bool then Ok tt else Err NOMEM), set_tasks (Some ts) p)
       end) in
    let! p :=
      (if is_err ret then
         map_debug (fun d =>
           let! n := add32 (dropped_upcall_count d) 1 in
           Ret (mkDebug (app_heap_start_pointer d) (app_stack_start_pointer d)
                  (app_stack_min_pointer d) (syscall_count d) (last_syscall d) n
                  (timeslice_expiration_count d))) p
       else Ret p) in
    Ret (ret, p).

Definition has_tasks p : bool :=
  match tasks p with None => false | Some ts => has_elements ts end.

Definition ready p : bool := has_tasks p || bool_decide (state p = Running).

(** The closure of [remove_pending_upcalls]: the tasks that stay. *)
Definition keeps_upcall (upcall_id : UpcallId) (task : Task) : bool :=
  match task with
  | TFunctionCall function_call =>
    match source function_call with
    | SKernel => true
    | SDriver id => negb (bool_decide (id = upcall_id))
    end
  | _ => true
  end.

Definition remove_pending_upcalls (upcall_id : UpcallId) p : outcome (process stored config) :=
  match tasks p with
  | None => Ret p
  | Some ts =>
    let! _ := len ts in
    let! ts := retain ts (keeps_upcall upcall_id) in
    Ret (set_tasks (Some ts) p)
  end.

Definition set_yielded_state p : process stored config :=
  if bool_decide (state p = Running) then set_state Yielded p else p.

Definition set_yielded_for_state (upcall_id : UpcallId) p : process stored config :=
  if bool_decide (state p = Running) then set_state (YieldedFor upcall_id) p else p.

Definition stop p : process stored config :=
  match state p with
  | Running => set_state (Stopped StRunning) p
  | Yielded => set_state (Stopped StYielded) p
  | YieldedFor upcall_id => set_state (Stopped (StYieldedFor upcall_id)) p
  | Stopped _ => p
  | Faulted | Terminated => p
  end.

Definition resume p : process stored config :=
  match state p with
  | Stopped StRunning => set_state Running p
  | Stopped StYielded => set_state Yielded p
  | Stopped (StYieldedFor upcall_id) => set_state (YieldedFor upcall_id) p
  | _ => p
  end.

Definition grant_ptrs_reset p : process stored config :=
  match grant_pointers p with
  | None => p
  | Some gs => set_grant_pointers (Some (map (fun _ => mkGrantEntry 0 0) gs)) p
  end.

Definition terminate (cc : option Z) p : process stored config :=
  if negb (is_running p) && negb (bool_decide (state p = Faulted)) then p
  else
    let p := match tasks p with
             | None => p
             | Some ts => set_tasks (Some (empty ts)) p
             end in
    let p := grant_ptrs_reset p in
    let p := set_completion_code (Some cc) p in
    set_state Terminated p.

(** [Kernel::create_process_identifier] and [get_grant_count_and_finalize]. *)
Definition create_process_identifier (k : Kernel) : outcome (Z * Kernel) :=
  let! n := add32 (process_identifier_max k) 1 in
  Ret (process_identifier_max k, mkKernel n (grant_counter k) (grants_finalized k)).
Definition get_grant_count_and_finalize (k : Kernel) : Z * Kernel :=
  (grant_counter k, mkKernel (process_identifier_max k) (grant_counter k) true).

(** The task with which a process starts. *)
Definition init_task p : outcome Task :=
  let! app_start_offset := Tbf.get_app_start_offset (header p) in
  let! init_function_offset := Tbf.get_init_function_offset (header p) in
  Ret (TFunctionCall (mkFunctionCall SKernel
    (wrapping_add32 (flash_start p) app_start_offset)
    (memory_start p) (memory_len p) (app_break p)
    (wrapping_add32 (flash_start p) init_function_offset))).

Definition reset_debug p : outcome (process stored config) :=
  map_debug (fun d => Ret (mkDebug (app_heap_start_pointer d) (app_stack_start_pointer d)
    (app_stack_min_pointer d) 0 None 0 0)) p.

(** The size of the kernel-owned structures, as [reset] computes it. *)
Definition reset_kernel_memory_size (k : Kernel) : outcome Z :=
  let! grant_ptrs_offset := mul32 (grant_counter k) GRANT_ENTRY_SIZE in
  let! s := add32 grant_ptrs_offset CALLBACKS_OFFSET in
  add32 s PROCESS_STRUCT_OFFSET.

Definition reset p (k : Kernel)
    : outcome (result unit ErrorCode * process stored config * Kernel) :=
  let old_index := pindex (process_id p) in
  let! '(new_identifier, k) := create_process_identifier k in
  let p := set_process_id (mkProcessId new_identifier old_index) p in
  let! p := reset_debug p in
  match mpu_config p with
  | None => Ret (Err FAIL, p, k)
  | Some c =>
    let p := set_mpu_config None p in
    let c := reset_config c in
    let! '(app_mpu_flash, c) :=
      allocate_region (flash_ptr p) (flash_len p) (flash_len p) ReadExecuteOnly c in
    match app_mpu_flash with
    | None => Ret (Err FAIL, p, k)
    | Some _ =>
      let min_process_memory_size := initial_process_app_brk_size in
      let k := snd (get_grant_count_and_finalize k) in
      let! initial_kernel_memory_size := reset_kernel_memory_size k in
      let! '(app_mpu_mem, c) :=
        allocate_app_memory_region (mem_start p) (memory_len p) (memory_len p)
          min_process_memory_size initial_kernel_memory_size ReadWriteOnly c in
      match app_mpu_mem with
      | None => Ret (Err NOMEM, p, k)
      | Some (app_mpu_mem_start, app_mpu_mem_len) =>
        let app_brk := wrapping_add32 app_mpu_mem_start min_process_memory_size in
        let p := set_app_break app_brk p in
        let kernel_brk := wrapping_sub32 (wrapping_add32 app_mpu_mem_start app_mpu_mem_len)
                            initial_kernel_memory_size in
        let p := set_kernel_memory_break kernel_brk p in
        let p := set_allow_high_water_mark app_mpu_mem_start p in
        let p := set_mpu_config (Some c) p in
        let '(ukb_init_process, p) :=
          match stored_state p with
          | None => (Err tt, p)
          | Some st =>
            let '(r, st) := ukb_initialize_process app_mpu_mem_start app_brk st in
            (r, set_stored_state (Some st) p)
          end in
        match ukb_init_process with
        | Err _ => Ret (Err RESERVE, p, k)
        | Ok _ =>
          let! rc := add32 (restart_count p) 1 in
          let p := set_restart_count rc p in
          let p := set_state Yielded p in
          let! t := init_task p in
          let! '(r, p) := enqueue_task t p in
          Ret (r, p, k)
        end
      end
    end
  end.

Definition start p (k : Kernel) : outcome (process stored config * Kernel) :=
  if negb (bool_decide (state p = Terminated)) then Ret (p, k)
  else
    let! '(r, p, k) := reset p k in
    match r with
    | Ok _ => Ret (set_state Yielded p, k)
    | Err _ => Ret (p, k)
    end.

Definition try_restart (cc : option Z) p (k : Kernel)
    : outcome (process stored config * Kernel) :=
  if bool_decide (state p = Terminated) then Ret (p, k)
  else
    let p := terminate cc p in
    let! '(r, p, k) := reset p k in
    match r with
    | Ok _ => Ret (set_state Yielded p, k)
    | Err _ => Ret (p, k)
    end.

Definition set_fault_state p (k : Kernel) : outcome (process stored config * Kernel) :=
  match fault_action p with
  | FPanic => Panic
  | FRestart => try_restart None p k
  | FStop => Ret (set_state Faulted (terminate None p), k)
  end.

Definition dequeue_task p : outcome (option Task * process stored config) :=
  match tasks p with
  | None => Ret (None, p)
  | Some ts => let! '(t, ts) := dequeue ts in Ret (t, set_tasks (Some ts) p)
  end.

(** The closure of [remove_upcall]. *)
Definition is_upcall (upcall_id : UpcallId) (task : Task) : bool :=
  match task with
  | TFunctionCall fc =>
    match source fc with
    | SDriver upid => bool_decide (upid = upcall_id)
    | _ => false
    end
  | TReturnValue rv => bool_decide (ra_upcall_id rv = upcall_id)
  | TIPC _ _ => false
  end.

Definition remove_upcall (upcall_id : UpcallId) p
    : outcome (option Task * process stored config) :=
  match tasks p with
  | None => Ret (None, p)
  | Some ts =>
    let! '(t, ts) := remove_first_matching ts (is_upcall upcall_id) in
    Ret (t, set_tasks (Some ts) p)
  end.

Definition pending_tasks p : outcome nat :=
  match tasks p with None => Ret 0%nat | Some ts => len ts end.

Definition update_stack_start_pointer (stack_pointer : Z) p : outcome (process stored config) :=
  if (mem_start p <=? stack_pointer) && (stack_pointer <? mem_end p) then
    map_debug (fun d => Ret (mkDebug (app_heap_start_pointer d) (Some stack_pointer)
      (Some stack_pointer) (syscall_count d) (last_syscall d) (dropped_upcall_count d)
      (timeslice_expiration_count d))) p
  else Ret p.

Definition update_heap_start_pointer (heap_pointer : Z) p : outcome (process stored config) :=
  if (mem_start p <=? heap_pointer) && (heap_pointer <? mem_end p) then
    map_debug (fun d => Ret (mkDebug (Some heap_pointer) (app_stack_start_pointer d)
      (app_stack_min_pointer d) (syscall_count d) (last_syscall d) (dropped_upcall_count d)
      (timeslice_expiration_count d))) p
  else Ret p.

Definition setup_mpu p (h : hw) : outcome (process stored config * hw) :=
  match mpu_config p with
  | None => Ret (p, h)
  | Some c => let! '(c, h) := configure_mpu c h in Ret (set_mpu_config (Some c) p, h)
  end.

(** [for region in self.mpu_regions.iter()]: fill the first free slot. *)
Fixpoint fill_slot (r : Region) (l : list (option Region)) : option (list (option Region)) :=
  match l with
  | [] => None
  | None :: l => Some (Some r :: l)
  | x :: l => match fill_slot r l with None => None | Some l => Some (x :: l) end
  end.

Definition add_mpu_region (unallocated_memory_start unallocated_memory_size
    min_region_size : Z) p : outcome (option Region * process stored config) :=
  match mpu_config p with
  | None => Ret (None, p)
  | Some c =>
    let! '(r, c) := allocate_region unallocated_memory_start unallocated_memory_size
                      min_region_size ReadWriteOnly c in
    let p := set_mpu_config (Some c) p in
    match r with
    | None => Ret (None, p)
    | Some new_region =>
      match fill_slot new_region (mpu_regions p) with
      | Some l => Ret (Some new_region, set_mpu_regions l p)
      | None => Ret (None, p)
      end
    end
  end.

(** [self.mpu_regions.iter().find(..)]: the first slot that holds the region. *)
Fixpoint find_slot (r : Region) (l : list (option Region)) : option nat :=
  match l with
  | [] => None
  | x :: l =>
    if bool_decide (x = Some r) then Some 0%nat
    else match find_slot r l with None => None | Some i => Some (S i) end
  end.

Definition remove_mpu_region (region : Region) p
    : outcome (result unit ErrorCode * process stored config) :=
  match mpu_config p with
  | None => Ret (Err INVAL, p)
  | Some c =>
    match find_slot region (mpu_regions p) with
    | None => Ret (Err INVAL, p)
    | Some i =>
      let! '(r, c) := remove_memory_region region c in
      let p := set_mpu_config (Some c) p in
      match r with
      | Err _ => Ret (Err FAIL, p)
      | Ok _ => Ret (Ok tt, set_mpu_regions (<[i := None]> (mpu_regions p)) p)
      end
    end
  end.

Definition brk (new_break : Z) p (h : hw)
    : outcome (result Z Error * process stored config * hw) :=
  if negb (is_running p) then Ret (Err InactiveApp, p, h)
  else match mpu_config p with
  | None => Ret (Err KernelError, p, h)
  | Some c =>
    if (new_break <? allow_high_water_mark p) || (mem_end p <=? new_break) then
      Ret (Err AddressOutOfBounds, p, h)
    else if kernel_memory_break p <? new_break then Ret (Err OutOfMemory, p, h)
    else
      let! '(r, c) := update_app_memory_region new_break (kernel_memory_break p)
                        ReadWriteOnly c in
      match r with
      | Err _ => Ret (Err OutOfMemory, set_mpu_config (Some c) p, h)
      | Ok _ =>
        let old_break := app_break p in
        let p := set_app_break new_break p in
        let! '(c, h) := configure_mpu c h in
        Ret (Ok old_break, set_mpu_config (Some c) p, h)
      end
  end.

Definition sbrk (increment : Z) p (h : hw)
    : outcome (result Z Error * process stored config * hw) :=
  if negb (is_running p) then Ret (Err InactiveApp, p, h)
  else brk (wrapping_add32 (app_break p) increment) p h.

Definition in_app_owned_memory (buf_start_addr size : Z) p : bool :=
  let buf_end_addr := wrapping_add32 buf_start_addr size in
  (buf_start_addr <=? buf_end_addr) && (mem_start p <=? buf_start_addr)
    && (buf_end_addr <=? app_break p).

Definition in_app_flash_memory (buf_start_addr size : Z) p : outcome bool :=
  let buf_end_addr := wrapping_add32 buf_start_addr size in
  if buf_start_addr <=? buf_end_addr then
    let! s := flash_non_protected_start p in
    Ret ((s <=? buf_start_addr) && (buf_end_addr <=? flash_end p))
  else Ret false.

Definition raise_water_mark (buf_end_addr : Z) p : process stored config :=
  set_allow_high_water_mark (Z.max (allow_high_water_mark p) buf_end_addr) p.

Definition build_readwrite_process_buffer (buf_start_addr size : Z) p
    : result ProcessBuffer ErrorCode * process stored config :=
  if negb (is_running p) then (Err FAIL, p)
  else if size =? 0 then (Ok (mkProcessBuffer buf_start_addr 0 (process_id p)), p)
  else if in_app_owned_memory buf_start_addr size p then
    let p := raise_water_mark (wrapping_add32 buf_start_addr size) p in
    (Ok (mkProcessBuffer buf_start_addr size (process_id p)), p)
  else (Err INVAL, p).

Definition build_readonly_process_buffer (buf_start_addr size : Z) p
    : outcome (result ProcessBuffer ErrorCode * process stored config) :=
  if negb (is_running p) then Ret (Err FAIL, p)
  else if size =? 0 then Ret (Ok (mkProcessBuffer buf_start_addr 0 (process_id p)), p)
  else
    let! b :=
      (if in_app_owned_memory buf_start_addr size p then Ret true
       else in_app_flash_memory buf_start_addr size p) in
    if b then
      let p := if in_app_owned_memory buf_start_addr size p
               then raise_water_mark (wrapping_add32 buf_start_addr size) p else p in
      Ret (Ok (mkProcessBuffer buf_start_addr size (process_id p)), p)
    else Ret (Err INVAL, p).

(** [set_byte]: whether the write is performed; process memory itself is not
    part of the state. *)
Definition set_byte (addr : Z) p : bool := in_app_owned_memory addr 1 p.

(** * Grants *)

Definition is_null (ptr : Z) : bool := ptr =? 0.

Definition grant_is_allocated (grant_num : nat) p : option bool :=
  if negb (is_running p) then None
  else match grant_pointers p with
  | None => None
  | Some gs => (fun e => negb (is_null (grant_ptr e))) <$> gs !! grant_num
  end.

(** [!(align - 1)] of the source, on 32 bits. *)
Definition alignment_mask (align : Z) : Z := U32 - 1 - (align - 1).

Definition allocate_in_grant_region_internal (size align : Z) p
    : outcome (option Z * process stored config) :=
  match mpu_config p with
  | None => Ret (None, p)
  | Some c =>
    let new_break_unaligned := wrapping_sub32 (kernel_memory_break p) size in
    let align := Z.max align 2 in
    let new_break := Z.land new_break_unaligned (alignment_mask align) in
    if new_break <? app_break p then Ret (None, p)
    else if kernel_memory_break p <? new_break then Ret (None, p)
    else
      let! '(r, c) := update_app_memory_region (app_break p) new_break ReadWriteOnly c in
      let p := set_mpu_config (Some c) p in
      match r with
      | Err _ => Ret (None, p)
      | Ok _ => Ret (Some new_break, set_kernel_memory_break new_break p)
      end
  end.

Definition grant_matches (driver_num : Z) (e : GrantPointerEntry) : bool :=
  negb (is_null (grant_ptr e)) && (ge_driver_num e =? driver_num).

Definition allocate_grant (grant_num : nat) (driver_num size align : Z) p (k : Kernel)
    : outcome (result unit unit * process stored config * Kernel) :=
  if negb (is_running p) then Ret (Err tt, p, k)
  else
    let '(count, k) := get_grant_count_and_finalize k in
    if count <=? Z.of_nat grant_num then Ret (Err tt, p, k)
    else match grant_is_allocated grant_num p with
    | Some true => Ret (Err tt, p, k)
    | _ =>
      let exists_ := match grant_pointers p with
                     | None => false
                     | Some gs => existsb (grant_matches driver_num) gs
                     end in
      if exists_ then Ret (Err tt, p, k)
      else
        let! '(r, p) := allocate_in_grant_region_internal size align p in
        match r with
        | None => Ret (Err tt, p, k)
        | Some ptr =>
          match grant_pointers p with
          | None => Ret (Err tt, p, k)
          | Some gs =>
            match gs !! grant_num with
            | None => Ret (Err tt, p, k)
            | Some _ =>
              Ret (Ok tt, set_grant_pointers
                     (Some (<[grant_num := mkGrantEntry driver_num ptr]> gs)) p, k)
            end
          end
        end
    end.

(** Custom grants are identified by their distance from the end of memory. *)
Definition create_custom_grant_identifier (ptr : Z) p : outcome Z := sub32 (mem_end p) ptr.
Definition get_custom_grant_address (offset : Z) p : outcome Z := sub32 (mem_end p) offset.

Definition allocate_custom_grant (size align : Z) p
    : outcome (result (Z * Z) unit * process stored config) :=
  if negb (is_running p) then Ret (Err tt, p)
  else
    let! '(r, p) := allocate_in_grant_region_internal size align p in
    match r with
    | None => Ret (Err tt, p)
    | Some ptr =>
      let! ident := create_custom_grant_identifier ptr p in
      Ret (Ok (ident, ptr), p)
    end.

Definition enter_grant (grant_num : nat) p : result Z Error * process stored config :=
  if negb (is_running p) then (Err InactiveApp, p)
  else match grant_pointers p with
  | None => (Err KernelError, p)
  | Some gs =>
    match gs !! grant_num with
    | None => (Err AddressOutOfBounds, p)
    | Some e =>
      let ptr := grant_ptr e in
      if Z.land ptr 1 =? 1 then (Err AlreadyInUse, p)
      else
        (Ok ptr, set_grant_pointers
           (Some (<[grant_num := mkGrantEntry (ge_driver_num e) (Z.lor ptr 1)]> gs)) p)
    end
  end.

Definition enter_custom_grant (ident : Z) p : outcome (result Z Error) :=
  if negb (is_running p) then Ret (Err InactiveApp)
  else let! a := get_custom_grant_address ident p in Ret (Ok a).

Definition leave_grant (grant_num : nat) p : process stored config :=
  if negb (is_running p) then p
  else match grant_pointers p with
  | None => p
  | Some gs =>
    match gs !! grant_num with
    | None => p
    | Some e =>
      set_grant_pointers (Some (<[grant_num :=
        mkGrantEntry (ge_driver_num e) (Z.land (grant_ptr e) (U32 - 2))]> gs)) p
    end
  end.

Definition grant_allocated_count p : option nat :=
  if negb (is_running p) then None
  else (fun gs => length (List.filter (fun e => negb (is_null (grant_ptr e))) gs))
         <$> grant_pointers p.

Fixpoint position {A} (f : A -> bool) (l : list A) : option nat :=
  match l with
  | [] => None
  | x :: l => if f x then Some 0%nat else S <$> position f l
  end.

Definition lookup_grant_from_driver_num (driver_num : Z) p : result nat Error :=
  match grant_pointers p with
  | None => Err KernelError
  | Some gs =>
    match position (grant_matches driver_num) gs with
    | Some idx => Ok idx
    | None => Err OutOfMemory
    end
  end.

Definition is_valid_upcall_function_pointer (upcall_fn : Z) p : outcome bool :=
  let! b := in_app_flash_memory upcall_fn WORD p in
  Ret (b || in_app_owned_memory upcall_fn WORD p).

(** * Context switching *)

Definition set_syscall_return_value (return_value : SyscallReturn) p (k : Kernel)
    : outcome (process stored config * Kernel) :=
  match stored_state p with
  | Some st =>
    let '(r, st) := ukb_set_syscall_return_value (mem_start p) (app_break p) st return_value in
    let p := set_stored_state (Some st) p in
    match r with
    | Ok _ => Ret (set_state Running p, k)
    | Err _ => set_fault_state p k
    end
  | None => set_fault_state p k
  end.

Definition set_process_function (callback : FunctionCall) p (k : Kernel)
    : outcome (process stored config * Kernel) :=
  match stored_state p with
  | Some st =>
    let '(r, st) := ukb_set_process_function (mem_start p) (app_break p) st callback in
    let p := set_stored_state (Some st) p in
    match r with
    | Ok _ => Ret (set_state Running p, k)
    | Err _ => set_fault_state p k
    end
  | None => set_fault_state p k
  end.

Definition lower_stack_pointer (sp : Z) (d : Debug) : Debug :=
  let m := match app_stack_min_pointer d with
           | None => Some sp
           | Some asmp => if sp <? asmp then Some sp else Some asmp
           end in
  mkDebug (app_heap_start_pointer d) (app_stack_start_pointer d) m (syscall_count d)
    (last_syscall d) (dropped_upcall_count d) (timeslice_expiration_count d).

Definition switch_to p : outcome (option ContextSwitchReason * process stored config) :=
  if negb (is_running p) then Ret (None, p)
  else
    let '(switch_reason, stack_pointer, p) :=
      match stored_state p with
      | None => (None, None, p)
      | Some st =>
        let '(r, sp, st) := ukb_switch_to_process (mem_start p) (app_break p) st in
        (Some r, sp, set_stored_state (Some st) p)
      end in
    let! p := match stack_pointer with
              | None => Ret p
              | Some sp => map_debug (fun d => Ret (lower_stack_pointer sp d)) p
              end in
    Ret (switch_reason, p).

Definition debug_timeslice_expired p : outcome (process stored config) :=
  map_debug (fun d =>
    let! n := add32 (timeslice_expiration_count d) 1 in
    Ret (mkDebug (app_heap_start_pointer d) (app_stack_start_pointer d)
           (app_stack_min_pointer d) (syscall_count d) (last_syscall d)
           (dropped_upcall_count d) n)) p.

Definition debug_syscall_called (s : Syscall) p : outcome (process stored config) :=
  map_debug (fun d =>
    let! n := add32 (syscall_count d) 1 in
    Ret (mkDebug (app_heap_start_pointer d) (app_stack_start_pointer d)
           (app_stack_min_pointer d) n (Some s) (dropped_upcall_count d)
           (timeslice_expiration_count d))) p.

(** * Creation *)

(** The size of the kernel-owned structures, as [create] computes it. *)
Definition create_kernel_memory_size (k : Kernel) : outcome Z :=
  let! grant_ptrs_offset := mul32 (grant_counter k) GRANT_ENTRY_SIZE in
  let! s := add32 grant_ptrs_offset CALLBACKS_OFFSET in
  let! s := add32 s PROCESS_STRUCT_OFFSET in
  add32 s WORD.

(** Skip RAM so that a process with a fixed address starts there; a slice is its
    address and length. *)
Definition skip_to_fixed_address (fixed : option Z) (mem : Z * Z)
    : outcome (result (Z * Z) ProcessLoadError) :=
  let '(ptr, len) := mem in
  match fixed with
  | None => Ret (Ok mem)
  | Some fixed_memory_start =>
    if fixed_memory_start =? ptr then Ret (Ok mem)
    else if ptr <? fixed_memory_start then
      let! diff := sub32 fixed_memory_start ptr in
      if len <? diff then
        let! e := add32 ptr len in
        let! actual_address := sub32 e 1 in
        Ret (Err (MemoryAddressMismatch actual_address fixed_memory_start))
      else Ret (Ok (ptr + diff, len - diff))
    else Ret (Err (MemoryAddressMismatch ptr fixed_memory_start))
  end.

(** [split_at_mut] of a slice given by its address and length. *)
Definition split_mem (mem : Z * Z) (n : Z) : outcome ((Z * Z) * (Z * Z)) :=
  let '(ptr, len) := mem in
  if n <=? len then Ret ((ptr, n), (ptr + n, len - n)) else Panic.

(** The kernel break below the grant pointers, the upcall buffer and the process
    structure of a block that ends at [top]. *)
Definition initial_kernel_break (top grant_ptrs_offset : Z) : Z :=
  let b := wrapping_sub32 top (top mod WORD) in
  let b := wrapping_sub32 b grant_ptrs_offset in
  let b := wrapping_sub32 b CALLBACKS_OFFSET in
  wrapping_sub32 b PROCESS_STRUCT_OFFSET.

Definition new_debug : Debug := mkDebug None None None 0 None 0 0.

Definition create (uninit : list Task) (pb : ProcessBinary) (remaining_memory : Z * Z)
    (index : Z) (k : Kernel) (h : hw)
    : outcome (result (process stored config * (Z * Z)) (ProcessLoadError * (Z * Z))
               * Kernel * hw) :=
  let process_ram_requested_size := Tbf.get_minimum_app_ram_size (pb_header pb) in
  let '(oc, h) := new_config h in
  match oc with
  | None => Ret (Err (MpuConfigurationError, remaining_memory), k, h)
  | Some c =>
  let! '(r, c) := allocate_region (pb_flash_ptr pb) (pb_flash_len pb) (pb_flash_len pb)
                    ReadExecuteOnly c in
  match r with
  | None => Ret (Err (MpuInvalidFlashLength, remaining_memory), k, h)
  | Some _ =>
  let '(grant_ptrs_num, k) := get_grant_count_and_finalize k in
  let! grant_ptrs_offset := mul32 grant_ptrs_num GRANT_ENTRY_SIZE in
  let! initial_kernel_memory_size := create_kernel_memory_size k in
  let min_process_memory_size := initial_process_app_brk_size in
  let min_process_ram_size := Z.max process_ram_requested_size min_process_memory_size in
  let! min_total_memory_size := add32 min_process_ram_size initial_kernel_memory_size in
  let! m := skip_to_fixed_address (Tbf.get_fixed_address_ram (pb_header pb)) remaining_memory in
  match m with
  | Err e => Ret (Err (e, remaining_memory), k, h)
  | Ok remaining_memory =>
  let! '(a, c) := allocate_app_memory_region (fst remaining_memory) (snd remaining_memory)
      min_total_memory_size min_process_memory_size initial_kernel_memory_size
      ReadWriteOnly c in
  match a with
  | None => Ret (Err (NotEnoughMemory, remaining_memory), k, h)
  | Some (allocation_start, allocation_size) =>
  let! app_memory_start_offset := sub32 allocation_start (fst remaining_memory) in
  let! mismatch :=
    match Tbf.get_fixed_address_ram (pb_header pb) with
    | Some expected_address =>
      let! actual_address := add32 (fst remaining_memory) app_memory_start_offset in
      Ret (if actual_address =? expected_address then None
           else Some (MemoryAddressMismatch actual_address expected_address))
    | None => Ret None
    end in
  match mismatch with
  | Some e => Ret (Err (e, remaining_memory), k, h)
  | None =>
  let! cut := add32 app_memory_start_offset allocation_size in
  let! '(allocated_padded_memory, unused_memory) := split_mem remaining_memory cut in
  let! '(_, allocated_memory) := split_mem allocated_padded_memory app_memory_start_offset in
  let! '(app_accessible_memory, allocated_kernel_memory) :=
    split_mem allocated_memory min_process_memory_size in
  let initial_app_brk := fst app_accessible_memory + snd app_accessible_memory in
  let kernel_brk := initial_kernel_break
    (fst allocated_kernel_memory + snd allocated_kernel_memory) grant_ptrs_offset in
  let! '(unique_identifier, k) := create_process_identifier k in
  let '(ok, st) := ukb_initialize_process (fst app_accessible_memory) initial_app_brk
                     stored_default in
  let p := mkProcess (mkProcessId unique_identifier index) (fst allocated_memory)
    (snd allocated_memory) (pb_flash_ptr pb) (pb_flash_len pb) (pb_header pb)
    (Some (replicate (Z.to_nat grant_ptrs_num) (mkGrantEntry 0 0)))
    kernel_brk initial_app_brk (fst app_accessible_memory) (Some st) Yielded (Some c)
    (replicate 6 None) (Some (new uninit)) 0 None (Some new_debug) in
  match ok with
  | Err _ => Ret (Err (InternalError, unused_memory), k, h)
  | Ok _ =>
    let! t := init_task p in
    let! ts := (let! '(_, ts) := enqueue (new uninit) t in Ret ts) in
    Ret (Ok (set_tasks (Some ts) p, unused_memory), k, h)
  end
  end
  end
  end
  end
  end.

End operations.

(** * Upcalls ([kernel/src/upcall.rs]) *)

Inductive UpcallError := InvalidSubscribeNum | QueueFull | UKernelError.

Record Upcall := mkUpcall {
  up_process_id : ProcessId;
  up_upcall_id : UpcallId;
  appdata : Z;
  fn_ptr : option Z;
}.

Definition schedule {stored config} (u : Upcall) (p : process stored config) (r0 r1 r2 : Z)
    : outcome (result unit UpcallError * process stored config) :=
  let! '(enqueue_res, p) :=
    match fn_ptr u with
    | None => enqueue_task (TReturnValue (mkReturnArguments (up_upcall_id u) r0 r1 r2)) p
    | Some fp =>
      enqueue_task (TFunctionCall
        (mkFunctionCall (SDriver (up_upcall_id u)) r0 r1 r2 (appdata u) fp)) p
    end in
  let res := match enqueue_res with
             | Ok _ => Ok tt
             | Err NODEVICE => Err UKernelError
             | Err NOMEM => Err QueueFull
             | Err _ => Err UKernelError
             end in
  Ret (res, p).

Definition into_subscribe_success (u : Upcall) : SyscallReturn :=
  match fn_ptr u with
  | Some fp => SubscribeSuccess fp (appdata u)
  | None => SubscribeSuccess 0 (appdata u)
  end.

Definition into_subscribe_failure (u : Upcall) (err : ErrorCode) : SyscallReturn :=
  match fn_ptr u with
  | Some fp => SubscribeFailure err fp (appdata u)
  | None => SubscribeFailure err 0 (appdata u)
  end.

End Proc.
