(* ===== verification/ProcessInv.v ===== *)
(** The invariant of a process and the operations that preserve it.

    [ProcInv.wf] states the memory layout of a process (app memory below the app
    break, kernel-owned memory above the kernel break, allowed buffers below the
    high-water mark), that its MPU configuration exposes the app memory and none
    of the kernel-owned memory, that its grants lie in the kernel-owned memory
    and that an inactive process has no pending task and no grant.
    [ProcInv.step] is the relation of everything the kernel does to a process.
    All of it is proved against the driver interface [Mpu.MpuIsolation]. *)

From stdpp Require Import base numbers list relations.
From S2P Require Import Prelude RingBuffer Mpu Syscall Tbf ProcessBinary Process.
Import Ring Mpu Syscall Pb Proc.
Local Open Scope Z_scope.

Module ProcInv.

(** The address of a grant, without the lock bit. *)
Definition grant_addr (e : GrantPointerEntry) : Z := Z.land (grant_ptr e) (U32 - 2).

(** Masking an address down to a power of two. *)
Lemma land_align x j :
  u32_range x -> 0 <= j <= 31 -> Z.land x (U32 - 2 ^ j) = 2 ^ j * (x / 2 ^ j).
Proof.
  intros [Hx0 Hx] Hj. assert (HP : 0 < 2 ^ j) by (apply Z.pow_pos_nonneg; lia).
  assert (Hm : U32 - 2 ^ j = Z.shiftl (Z.ones (32 - j)) j).
  { rewrite Z.shiftl_mul_pow2, Z.ones_equiv by lia.
    assert (U32 = 2 ^ (32 - j) * 2 ^ j) as -> by (rewrite <- Z.pow_add_r by lia; unfold U32; f_equal; lia).
    lia. }
  rewrite Hm. apply Z.bits_inj'. intros i Hi.
  rewrite Z.land_spec, Z.shiftl_spec by done.
  rewrite (Z.mul_comm (2 ^ j)), <- Z.shiftl_mul_pow2, <- Z.shiftr_div_pow2 by lia.
  rewrite Z.shiftl_spec by done. destruct (Z.lt_ge_cases i j) as [Hlt|Hge].
  { rewrite !(Z.testbit_neg_r _ (i - j)) by lia. by rewrite andb_false_r. }
  rewrite Z.shiftr_spec, Z.testbit_ones_nonneg by lia.
  replace (i - j + j) with i by lia.
  destruct (Z.ltb_spec (i - j) (32 - j)); [by rewrite andb_true_r|].
  rewrite andb_false_r. symmetry. apply Z.bits_above_log2; [done|].
  destruct (decide (x = 0)) as [->|]; [simpl; lia|].
  apply Z.lt_le_trans with 32; [|lia]. apply Z.log2_lt_pow2; [lia|done].
Qed.

Lemma grant_addr_even d ptr : u32_range ptr -> ptr mod 2 = 0 -> grant_addr (mkGrantEntry d ptr) = ptr.
Proof.
  intros Hr Hm. unfold grant_addr. cbn. change (U32 - 2) with (U32 - 2 ^ 1).
  rewrite land_align by (done || lia). change (2 ^ 1) with 2.
  pose proof (Z.div_mod ptr 2 ltac:(lia)). lia.
Qed.

Lemma grant_addr_enter d ptr :
  grant_addr (mkGrantEntry d (Z.lor ptr 1)) = grant_addr (mkGrantEntry d ptr).
Proof.
  unfold grant_addr. cbn. rewrite Z.land_lor_distr_l.
  change (Z.land 1 (U32 - 2)) with 0. by rewrite Z.lor_0_r.
Qed.

Lemma grant_addr_leave d ptr :
  grant_addr (mkGrantEntry d (Z.land ptr (U32 - 2))) = grant_addr (mkGrantEntry d ptr).
Proof. unfold grant_addr. cbn. by rewrite <- Z.land_assoc, Z.land_diag. Qed.

Lemma grant_lock_bit ptr :
  ptr mod 2 = 0 -> Z.land ptr 1 = 0 /\ Z.lor ptr 1 = ptr + 1 /\ Z.land (Z.lor ptr 1) 1 = 1.
Proof.
  intros He. assert (Hland : Z.land ptr 1 = 0).
  { change 1 with (Z.ones 1). rewrite Z.land_ones by lia. done. }
  pose proof (Z.add_lor_land ptr 1). rewrite Z.land_lor_distr_l, Hland.
  split_and!; try done. lia.
Qed.

(** An allocated grant with its lock bit set. *)
Definition locked {stored config} (num : nat) (e : GrantPointerEntry)
    (gs : list GrantPointerEntry) (p : process stored config) : process stored config :=
  set_grant_pointers (Some (<[num := mkGrantEntry (ge_driver_num e) (Z.lor (grant_ptr e) 1)]> gs)) p.

Lemma locked_running {stored config} num e gs (p : process stored config) :
  is_running (locked num e gs p) = is_running p.
Proof. done. Qed.
Lemma locked_grants {stored config} num e gs (p : process stored config) :
  grant_pointers (locked num e gs p) =
    Some (<[num := mkGrantEntry (ge_driver_num e) (Z.lor (grant_ptr e) 1)]> gs).
Proof. done. Qed.
Lemma locked_lookup (num : nat) (e e' : GrantPointerEntry) (gs : list GrantPointerEntry) :
  gs !! num = Some e -> <[num := e']> gs !! num = Some e'.
Proof. intros He. apply list_lookup_insert_eq. by apply lookup_lt_Some in He. Qed.

(** Entering a grant locks it; leaving it restores the process. *)
Lemma enter_grant_cycle {stored config} num (p : process stored config) gs e :
  is_running p = true -> grant_pointers p = Some gs -> gs !! num = Some e ->
  u32_range (grant_ptr e) -> grant_ptr e mod 2 = 0 ->
  enter_grant num p = (Ok (grant_ptr e), locked num e gs p) /\
  leave_grant num (locked num e gs p) = p.
Proof.
  intros Hr Hg He Hu Heven. destruct (grant_lock_bit _ Heven) as (H1 & _ & _).
  split; [unfold enter_grant; by rewrite Hr, Hg, He, H1|].
  unfold leave_grant. rewrite locked_running, Hr, locked_grants. cbn [negb].
  rewrite (locked_lookup num e) by done. cbn [grant_ptr ge_driver_num].
  rewrite list_insert_insert_eq.
  pose proof (grant_addr_enter 0 (grant_ptr e)) as Ha. unfold grant_addr in Ha. cbn in Ha.
  rewrite Ha. pose proof (grant_addr_even 0 _ Hu Heven) as Hb. unfold grant_addr in Hb.
  cbn in Hb. rewrite Hb.
  rewrite list_insert_id by (by destruct e). destruct p; cbn in *; by subst.
Qed.

(** A grant that was just allocated can be entered and left. *)
Lemma new_grant_cycle {stored config} num d ptr (p : process stored config) gs e :
  is_running p = true -> gs !! num = Some e -> 0 < ptr < U32 -> (4 | ptr) ->
  let q := set_grant_pointers (Some (<[num := mkGrantEntry d ptr]> gs)) p in
  exists q', enter_grant num q = (Ok ptr, q') /\ leave_grant num q' = q /\
    grant_is_allocated num q = Some true.
Proof.
  intros Hr He Hptr [z Hz] q. pose proof (locked_lookup num e (mkGrantEntry d ptr) gs He) as Hlk.
  destruct (enter_grant_cycle num q _ (mkGrantEntry d ptr) Hr eq_refl Hlk) as [Henter Hleave].
  { cbn. unfold u32_range. lia. }
  { cbn. rewrite Hz. replace (z * 4) with (z * 2 * 2) by lia. apply Z.mod_mul. lia. }
  eexists. split; [exact Henter|]. split; [exact Hleave|]. unfold grant_is_allocated.
  change (is_running q) with (is_running p). rewrite Hr. cbn [negb q grant_pointers set_grant_pointers].
  rewrite Hlk. cbn. unfold is_null. destruct (Z.eqb_spec ptr 0); [lia|done].
Qed.

Section inv.
  Context {hw config stored : Type} {mpu : MPU hw config} {iso : MpuIsolation hw config}.
  Context {ukb : UKB stored}.
  Context (CALLBACKS_OFFSET PROCESS_STRUCT_OFFSET : Z).
  Context (fault_action : process stored config -> FaultAction).
  Implicit Type p : process stored config.

(** The breaks are in order. *)
Definition ordered p : Prop :=
  memory_start p <= allow_high_water_mark p <= app_break p /\
  app_break p <= kernel_memory_break p <= memory_start p + memory_len p.

(** The MPU configuration separates app memory from kernel-owned memory. *)
Definition isolated p : Prop :=
  exists c, mpu_config p = Some c /\ manages c (memory_start p) (memory_len p) /\
    (forall a, memory_start p <= a < app_break p -> exposed c a) /\
    (forall a, kernel_memory_break p <= a < memory_start p + memory_len p -> ~ exposed c a).

Definition grants_inside p : Prop :=
  exists gs, grant_pointers p = Some gs /\
    Forall (fun e => grant_ptr e = 0 \/
      kernel_memory_break p <= grant_addr e <= memory_start p + memory_len p) gs.

(** No pending task and no grant. *)
Definition clean p : Prop :=
  (exists ts, tasks p = Some ts /\ contents ts = []) /\
  exists gs, grant_pointers p = Some gs /\ Forall (fun e => grant_ptr e = 0) gs.

Record wf p : Prop := mkWf {
  wf_start : 0 <= memory_start p;
  wf_len : 0 <= memory_len p;
  wf_end : memory_start p + memory_len p < U32;
  wf_flash : u32_range (flash_ptr p) /\ u32_range (flash_len p);
  wf_queue : exists ts, tasks p = Some ts /\ usable ts;
  wf_valid : forall c, mpu_config p = Some c -> valid c;
  wf_regions : forall r, Some r ∈ mpu_regions p -> beside (memory_start p) (memory_len p) r;
  wf_active : is_running p = true -> ordered p /\ isolated p /\ grants_inside p;
  wf_inactive : is_running p = false -> clean p;
}.

(** The block has room for the structures that [reset] lays out in it. *)
Definition room (k : Kernel) p : Prop :=
  exists kern, reset_kernel_memory_size CALLBACKS_OFFSET PROCESS_STRUCT_OFFSET k = Ret kern /\
    layout_ok initial_process_app_brk_size kern (memory_len p).

Lemma mem_end_ok p : wf p -> mem_end p = memory_start p + memory_len p.
Proof using.
  intros H. unfold mem_end, wrapping_add32. apply wrap32_small.
  destruct H. split; lia.
Qed.

(** Everything but the task queue, the stored registers and the debugging
    state. *)
Definition same_memory p p' : Prop :=
  memory_start p' = memory_start p /\ memory_len p' = memory_len p /\
  flash_ptr p' = flash_ptr p /\ flash_len p' = flash_len p /\
  app_break p' = app_break p /\ kernel_memory_break p' = kernel_memory_break p /\
  allow_high_water_mark p' = allow_high_water_mark p /\
  mpu_config p' = mpu_config p /\ grant_pointers p' = grant_pointers p /\
  process_id p' = process_id p /\ header p' = header p /\
  restart_count p' = restart_count p /\ completion_code p' = completion_code p /\
  mpu_regions p' = mpu_regions p.

Lemma same_memory_refl p : same_memory p p.
Proof using. repeat split. Qed.

Lemma same_memory_trans p q r : same_memory p q -> same_memory q r -> same_memory p r.
Proof using. unfold same_memory. intros. destruct_and!. split_and!; congruence. Qed.

Lemma wf_frame p p' :
  wf p -> same_memory p p' -> is_running p' = is_running p ->
  (exists ts ts', tasks p = Some ts /\ tasks p' = Some ts' /\ usable ts' /\
     (is_running p = false -> contents ts = [] -> contents ts' = [])) ->
  wf p'.
Proof using.
  intros [H1 H2 H3 H4 H5 H6 H9 H7 H8] (E1 & E2 & E3 & E4 & E5 & E6 & E7 & E8 & E9 & _ & _ & _ & _ & E10) Hr
    (ts & ts' & Ht & Ht' & Hu & Hc).
  split; rewrite ?E1, ?E2, ?E3, ?E4, ?E10; try done.
  - by exists ts'.
  - intros c. rewrite E8. apply H6.
  - rewrite Hr. unfold ordered, isolated, grants_inside.
    rewrite ?E1, ?E2, ?E5, ?E6, ?E7, ?E8, ?E9. apply H7.
  - rewrite Hr. intros Hf. destruct (H8 Hf) as [(ts0 & Hts0 & Hemp) Hg].
    rewrite Ht in Hts0. simplify_eq. split; [by exists ts'; eauto|]. by rewrite E9.
Qed.

(** Changes that keep the queue as it is. *)
Lemma wf_frame_same p p' :
  wf p -> same_memory p p' -> is_running p' = is_running p -> tasks p' = tasks p -> wf p'.
Proof using.
  intros Hwf Hs Hr Ht. apply (wf_frame p); [done..|].
  destruct (wf_queue p Hwf) as (ts & E & Hu). exists ts, ts. by rewrite Ht.
Qed.

Lemma map_debug_frame f p p' :
  map_debug f p = Ret p' ->
  same_memory p p' /\ state p' = state p /\ tasks p' = tasks p.
Proof using.
  unfold map_debug. destruct (debug p); intros H; inv_ret; repeat split.
Qed.

Lemma is_running_state p p' : state p' = state p -> is_running p' = is_running p.
Proof using. unfold is_running. by intros ->. Qed.

Lemma wf_map_debug f p p' : wf p -> map_debug f p = Ret p' -> wf p'.
Proof using.
  intros Hwf (Hs & Hst & Ht)%map_debug_frame.
  apply (wf_frame_same p); [done|done|by apply is_running_state|done].
Qed.

(** * The task queue *)

Lemma enqueue_task_spec t p r p' :
  wf p -> enqueue_task t p = Ret (r, p') ->
  wf p' /\ same_memory p p' /\ state p' = state p /\
  exists ts ts', tasks p = Some ts /\ tasks p' = Some ts' /\ usable ts' /\
    match r with
    | Ok _ => is_running p = true /\ contents ts' = contents ts ++ [t]
    | Err NODEVICE => is_running p = false /\ p' = p
    | Err e => e = NOMEM /\ contents ts' = contents ts /\
        S (length (contents ts)) = length (ring ts)
    end.
Proof using.
  intros Hwf. unfold enqueue_task. destruct (wf_queue p Hwf) as (ts & Ht & Hu).
  destruct (is_running p) eqn:Hrun; cbn [negb].
  2: { intros H. inv_ret. split; [done|]. split; [apply same_memory_refl|]. split; [done|].
       by exists ts, ts. }
  destruct (usable_enqueue ts t Hu) as (ok & ts1 & Henq & Hu1 & Hl & Hc).
  rewrite Ht, Henq. cbn [obind]. intros H.
  assert (Hend : exists p1, p1 = set_tasks (Some ts1) p /\ same_memory p1 p' /\
    state p' = state p1 /\ tasks p' = tasks p1 /\ r = (if ok then Ok tt else Err NOMEM)).
  { eexists; split; [done|]. destruct ok; cbn [is_err obind] in H.
    - inv_ret. split_and!; try done.
    - inv_ret_step. apply map_debug_frame in Hret as (? & ? & ?). inv_ret. done. }
  destruct Hend as (p1 & -> & Hs & Hst & Htk & ->).
  assert (Hs' : same_memory p p') by (apply (same_memory_trans _ _ _ (same_memory_refl _) Hs)).
  split; [|split; [done|split; [done|]]].
  - apply (wf_frame p); [done|done|by apply is_running_state|].
    exists ts, ts1. split_and!; [done..|congruence].
  - exists ts, ts1. split_and!; [done..|]. destruct ok; [done|]. destruct Hc. done.
Qed.

(** Operations that only replace the queue by a shorter one. *)
Lemma wf_set_tasks p ts ts' :
  wf p -> tasks p = Some ts -> usable ts' ->
  (contents ts = [] -> contents ts' = []) -> wf (set_tasks (Some ts') p).
Proof using.
  intros Hwf Ht Hu Hc. apply (wf_frame p); [done|repeat split|done|].
  exists ts, ts'. by split_and!.
Qed.

Lemma dequeue_task_spec p :
  wf p ->
  exists ts ts', tasks p = Some ts /\ usable ts' /\ contents ts' = tl (contents ts) /\
    dequeue_task p = Ret (hd_error (contents ts), set_tasks (Some ts') p) /\
    wf (set_tasks (Some ts') p).
Proof using.
  intros Hwf. destruct (wf_queue p Hwf) as (ts & Ht & Hu).
  destruct (usable_dequeue ts Hu) as (ts' & Hd & Hu' & Hc').
  exists ts, ts'. split_and!; try done.
  - unfold dequeue_task. by rewrite Ht, Hd.
  - apply (wf_set_tasks p ts); [done..|]. rewrite Hc'. by intros ->.
Qed.

Lemma remove_upcall_spec id p :
  wf p ->
  exists ts ts', tasks p = Some ts /\ usable ts' /\
    contents ts' = match remove_first (is_upcall id) (contents ts) with
                   | Some (_, l) => l
                   | None => contents ts
                   end /\
    remove_upcall id p =
      Ret (fst <$> remove_first (is_upcall id) (contents ts), set_tasks (Some ts') p) /\
    wf (set_tasks (Some ts') p).
Proof using.
  intros Hwf. destruct (wf_queue p Hwf) as (ts & Ht & Hu).
  destruct (usable_remove_first ts (is_upcall id) Hu) as (ts' & Hd & Hu' & Hc').
  exists ts, ts'. split_and!; try done.
  - unfold remove_upcall. by rewrite Ht, Hd.
  - apply (wf_set_tasks p ts); [done..|]. rewrite Hc'. by intros ->.
Qed.

Lemma remove_pending_upcalls_spec id p :
  wf p ->
  exists ts ts', tasks p = Some ts /\ usable ts' /\
    contents ts' = filter (keeps_upcall id) (contents ts) /\
    remove_pending_upcalls id p = Ret (set_tasks (Some ts') p) /\
    wf (set_tasks (Some ts') p).
Proof using.
  intros Hwf. destruct (wf_queue p Hwf) as (ts & Ht & Hu).
  destruct (usable_retain ts (keeps_upcall id) Hu) as (ts' & Hd & Hu' & Hc').
  exists ts, ts'. split_and!; try done.
  - unfold remove_pending_upcalls. rewrite Ht, len_spec by apply Hu. cbn [obind]. by rewrite Hd.
  - apply (wf_set_tasks p ts); [done..|]. rewrite Hc'. by intros ->.
Qed.

(** * States *)

Lemma wf_set_state st p :
  wf p -> is_running (set_state st p) = is_running p -> wf (set_state st p).
Proof using. intros Hwf Hr. apply (wf_frame_same p); [done|repeat split|done|done]. Qed.

Lemma set_yielded_state_wf p : wf p -> wf (set_yielded_state p).
Proof using.
  intros Hwf. unfold set_yielded_state. case_bool_decide as E; [|done].
  apply wf_set_state; [done|]. unfold is_running. by rewrite E.
Qed.

Lemma set_yielded_for_state_wf id p : wf p -> wf (set_yielded_for_state id p).
Proof using.
  intros Hwf. unfold set_yielded_for_state. case_bool_decide as E; [|done].
  apply wf_set_state; [done|]. unfold is_running. by rewrite E.
Qed.

Lemma stop_wf p : wf p -> wf (stop p).
Proof using.
  intros Hwf. unfold stop. destruct (state p) eqn:E; try done;
    (apply wf_set_state; [done|]; unfold is_running; by rewrite E).
Qed.

Lemma resume_wf p : wf p -> wf (resume p).
Proof using.
  intros Hwf. unfold resume. destruct (state p) as [| | |[]| |] eqn:E; try done;
    (apply wf_set_state; [done|]; unfold is_running; by rewrite E).
Qed.

Definition nulled (gs : list GrantPointerEntry) : list GrantPointerEntry :=
  map (fun _ => mkGrantEntry 0 0) gs.

Lemma wf_grants_some p : wf p -> exists gs, grant_pointers p = Some gs.
Proof using.
  intros Hwf. destruct (is_running p) eqn:Hr.
  - destruct (wf_active p Hwf Hr) as (_ & _ & gs & ? & _). by exists gs.
  - destruct (wf_inactive p Hwf Hr) as (_ & gs & ? & _). by exists gs.
Qed.

(** What [terminate] does to a process that is not already terminated. *)
Lemma terminate_spec cc p ts gs :
  state p <> Terminated -> tasks p = Some ts -> grant_pointers p = Some gs ->
  terminate cc p =
    set_state Terminated (set_completion_code (Some cc)
      (set_grant_pointers (Some (nulled gs)) (set_tasks (Some (empty ts)) p))).
Proof using.
  intros Hst Ht Hg. unfold terminate, grant_ptrs_reset.
  replace (negb (is_running p) && negb (bool_decide (state p = Faulted))) with false
    by (unfold is_running; by destruct (state p)).
  rewrite Ht. cbn [grant_pointers set_tasks]. by rewrite Hg.
Qed.

Lemma terminate_terminated cc p : state p = Terminated -> terminate cc p = p.
Proof using. intros Hst. unfold terminate, is_running. by rewrite Hst. Qed.

Lemma terminate_wf cc p :
  wf p -> wf (terminate cc p) /\ is_running (terminate cc p) = false.
Proof using.
  intros Hwf. destruct (decide (state p = Terminated)) as [E|E].
  { rewrite terminate_terminated by done. split; [done|]. unfold is_running. by rewrite E. }
  destruct (wf_queue p Hwf) as (ts & Ht & Hu). destruct (wf_grants_some p Hwf) as [gs Hg].
  rewrite (terminate_spec cc p ts gs) by done. split; [|done].
  destruct Hwf. split; try done.
  - exists (empty ts). split; [done|by apply usable_empty].
  - intros _. split; [exists (empty ts); split; [done|apply empty_contents]|].
    exists (nulled gs). split; [done|]. apply Forall_fmap. by apply Forall_true.
Qed.

Lemma set_faulted_wf p : wf p -> is_running p = false -> wf (set_state Faulted p).
Proof using. intros Hwf Hr. by apply wf_set_state. Qed.

(** * Restarting *)

Context (Happ : 0 <= initial_process_app_brk_size).

(** The fields that [reset] keeps when it gives up. *)
Definition reset_failed p p' : Prop :=
  memory_start p' = memory_start p /\ memory_len p' = memory_len p /\
  flash_ptr p' = flash_ptr p /\ flash_len p' = flash_len p /\
  state p' = state p /\ tasks p' = tasks p /\ grant_pointers p' = grant_pointers p /\
  mpu_regions p' = mpu_regions p /\ forall c, mpu_config p' = Some c -> valid c.

Lemma wf_reset_failed p p' :
  wf p -> is_running p = false -> reset_failed p p' -> wf p' /\ is_running p' = false.
Proof using.
  intros [H1 H2 H3 H4 H5 H6 H9 H7 H8] Hr (E1 & E2 & E3 & E4 & E5 & E6 & E7 & E9 & E8).
  assert (Hr' : is_running p' = false) by (by rewrite (is_running_state p)).
  split; [|done]. split; rewrite ?E1, ?E2, ?E3, ?E4, ?E6, ?E9; try done; rewrite Hr'; [done|].
  intros _. unfold clean. rewrite E6, E7. by apply H8.
Qed.

(** The state that [reset] leaves behind when it succeeds. *)
Record restarted (k : Kernel) p p' : Prop := mkRestarted {
  re_start : memory_start p' = memory_start p;
  re_len : memory_len p' = memory_len p;
  re_state : state p' = Yielded;
  re_hwm : allow_high_water_mark p' = memory_start p;
  re_brk : app_break p' = memory_start p + initial_process_app_brk_size;
  re_kernel : forall kern,
    reset_kernel_memory_size CALLBACKS_OFFSET PROCESS_STRUCT_OFFSET k = Ret kern ->
    kernel_memory_break p' = memory_start p + memory_len p - kern;
  re_count : restart_count p' = restart_count p + 1;
  re_tasks : exists ts t, tasks p' = Some ts /\ init_task p' = Ret t /\ contents ts = [t];
  re_grants : grant_pointers p' = grant_pointers p;
  re_code : completion_code p' = completion_code p;
}.

Lemma create_process_identifier_Ret k n k' :
  create_process_identifier k = Ret (n, k') ->
  n = process_identifier_max k /\ process_identifier_max k' = n + 1 /\
  grant_counter k' = grant_counter k.
Proof using. unfold create_process_identifier. intros H. inv_ret. done. Qed.

Lemma reset_kernel_memory_size_grants k k' :
  grant_counter k' = grant_counter k ->
  reset_kernel_memory_size CALLBACKS_OFFSET PROCESS_STRUCT_OFFSET k' =
  reset_kernel_memory_size CALLBACKS_OFFSET PROCESS_STRUCT_OFFSET k.
Proof using. unfold reset_kernel_memory_size. by intros ->. Qed.

(** A process whose memory has just been laid out and whose queue is empty
    becomes active with its initial task. *)
Lemma activate_wf p c ts gs kern :
  0 <= memory_start p -> 0 <= memory_len p -> memory_start p + memory_len p < U32 ->
  u32_range (flash_ptr p) /\ u32_range (flash_len p) ->
  tasks p = Some ts -> usable ts -> contents ts = [] ->
  grant_pointers p = Some gs -> Forall (fun e => grant_ptr e = 0) gs ->
  mpu_config p = Some c -> manages c (memory_start p) (memory_len p) ->
  (forall r, Some r ∈ mpu_regions p -> beside (memory_start p) (memory_len p) r) ->
  initial_process_app_brk_size + kern <= memory_len p ->
  allow_high_water_mark p = memory_start p ->
  app_break p = memory_start p + initial_process_app_brk_size ->
  memory_start p + memory_len p - kern <= kernel_memory_break p
    <= memory_start p + memory_len p ->
  (forall a, memory_start p <= a < app_break p -> exposed c a) ->
  (forall a, memory_start p + memory_len p - kern <= a < memory_start p + memory_len p ->
     ~ exposed c a) ->
  is_running p = true -> wf p.
Proof using Happ.
  intros. split; try done.
  - by exists ts.
  - intros c' Hc'. simplify_eq. by eapply manages_valid.
  - intros _. split; [unfold ordered; lia|]. split.
    + exists c. split_and!; try done. intros a Ha.
      match goal with H : forall a, _ -> ~ _ |- _ => apply H end. lia.
    + exists gs. split; [done|]. eapply Forall_impl; [done|]. intros e He. by left.
  - congruence.
Qed.

Lemma init_enqueue p p' r ts t :
  wf p -> is_running p = true -> tasks p = Some ts -> contents ts = [] ->
  enqueue_task t p = Ret (r, p') ->
  r = Ok tt /\ wf p' /\ same_memory p p' /\ state p' = state p /\
  exists ts', tasks p' = Some ts' /\ contents ts' = [t].
Proof using.
  intros Hwf Hrun Ht Hc Henq.
  apply enqueue_task_spec in Henq as (Hwf' & Hs & Hst & ts0 & ts' & Ht0 & Ht' & Hu' & Hr); [|done].
  rewrite Ht in Ht0. simplify_eq. destruct (wf_queue p Hwf) as (ts1 & E & Hu1).
  rewrite Ht in E. simplify_eq. rewrite Hc in Hr.
  destruct r as [[]|e].
  - split_and!; try done. exists ts'. destruct Hr as [_ ->]. done.
  - destruct Hu1 as [_ Hl]. exfalso.
    destruct e; try (destruct Hr as [Hr _]; congruence).
    destruct Hr as (_ & _ & Hr). simpl in Hr. lia.
Qed.

Abbreviation reset := (reset CALLBACKS_OFFSET PROCESS_STRUCT_OFFSET).

(** The last part of a successful [reset]: [q] is the process with its memory
    set up, about to get its initial task. *)
Lemma reset_activates p q c kern k r p' t :
  wf p -> is_running p = false ->
  reset_kernel_memory_size CALLBACKS_OFFSET PROCESS_STRUCT_OFFSET k = Ret kern ->
  0 <= kern -> initial_process_app_brk_size + kern <= memory_len p ->
  manages c (memory_start p) (memory_len p) ->
  (forall a, memory_start p <= a < memory_start p + initial_process_app_brk_size -> exposed c a) ->
  (forall a, memory_start p + memory_len p - kern <= a < memory_start p + memory_len p ->
     ~ exposed c a) ->
  memory_start q = memory_start p -> memory_len q = memory_len p ->
  flash_ptr q = flash_ptr p -> flash_len q = flash_len p ->
  tasks q = tasks p -> grant_pointers q = grant_pointers p -> mpu_regions q = mpu_regions p ->
  completion_code q = completion_code p -> restart_count q = restart_count p + 1 ->
  state q = Yielded -> mpu_config q = Some c ->
  allow_high_water_mark q = memory_start p ->
  app_break q = memory_start p + initial_process_app_brk_size ->
  kernel_memory_break q = memory_start p + memory_len p - kern ->
  init_task q = Ret t -> enqueue_task t q = Ret (r, p') ->
  r = Ok tt /\ wf p' /\ process_id p' = process_id q /\ restarted k p p'.
Proof using Happ.
  intros Hwf Hrun Hkern Hk0 Hsum Hman Hx1 Hx2 E1 E2 E3 E4 Et Eg Erg Ecc Erc Est Ec Ehw Eab Ekb Hinit Henq.
  destruct (wf_inactive p Hwf Hrun) as [(ts & Hts & Hemp) (gs & Hgs & Hnull)].
  destruct (wf_queue p Hwf) as (ts' & Hts' & Hu). rewrite Hts in Hts'. simplify_eq.
  pose proof (wf_start p Hwf). pose proof (wf_len p Hwf). pose proof (wf_end p Hwf).
  assert (Hr : is_running q = true) by (unfold is_running; by rewrite Est).
  assert (Hwfq : wf q).
  { apply (activate_wf q c ts' gs kern); rewrite ?E1, ?E2, ?E3, ?E4, ?Eab, ?Ekb, ?Erg;
      try done; try congruence; try lia; [apply (wf_flash p Hwf)|apply (wf_regions p Hwf)]. }
  apply (init_enqueue q p' r ts' t) in Henq as (-> & Hwf' & Hs & Hst & Htk);
    [|done|done|congruence|done].
  destruct Hs as (G1 & G2 & G3 & G4 & G5 & G6 & G7 & G8 & G9 & Gpid & Ghd & Grc & Gcc & Grg).
  split; [done|]. split; [done|]. split; [done|]. split; try congruence.
  destruct Htk as (tsf & Htf & Hcf). exists tsf, t. split; [done|]. split; [|done].
  revert Hinit. unfold init_task, flash_start. by rewrite G1, G2, G3, G5, Ghd.
Qed.

Lemma reset_spec p k r p' k' :
  wf p -> is_running p = false -> room k p -> reset p k = Ret (r, p', k') ->
  wf p' /\ memory_start p' = memory_start p /\ memory_len p' = memory_len p /\
  grant_counter k' = grant_counter k /\
  process_identifier_max k' = process_identifier_max k + 1 /\
  identifier (process_id p') = process_identifier_max k /\
  match r with
  | Ok _ => restarted k p p'
  | Err _ => is_running p' = false
  end.
Proof using Happ.
  intros Hwf Hrun (kern & Hkern & Hroom) Hreset. unfold Proc.reset in Hreset.
  apply obind_Ret in Hreset as ([n k1] & Hid & Hreset).
  apply create_process_identifier_Ret in Hid as (-> & Hmax & Hgc).
  apply obind_Ret in Hreset as (p1 & Hdbg & Hreset).
  apply map_debug_frame in Hdbg as (Hs1 & Hst1 & Ht1).
  destruct Hs1 as (E1 & E2 & E3 & E4 & _ & _ & _ & E8 & E9 & Epid & Ehd & Erc & Ecc & Erg).
  cbn [set_process_id memory_start memory_len flash_ptr flash_len mpu_config grant_pointers
    process_id header restart_count completion_code state tasks mpu_regions] in *.
  assert (Hfail : forall q, reset_failed p1 q -> process_id q = process_id p1 ->
    wf q /\ memory_start q = memory_start p /\ memory_len q = memory_len p /\
    identifier (process_id q) = process_identifier_max k /\ is_running q = false).
  { intros q (F1 & F2 & F3 & F4 & F5 & F6 & F7 & Frg & F8) F9.
    destruct (wf_reset_failed p q Hwf Hrun) as [? ?]; [unfold reset_failed; split_and!; [congruence..|done]|].
    split_and!; try congruence. by rewrite F9, Epid. }
  destruct (mpu_config p1) as [c|] eqn:Ec.
  2: { inv_ret. destruct (Hfail p') as (? & ? & ? & ? & ?); [|done|by split_and!].
       split_and!; try done. congruence. }
  assert (Hvalid : valid (reset_config c)) by (apply reset_config_valid, (wf_valid p Hwf); congruence).
  apply obind_Ret in Hreset as ([fl c1] & Hfl & Hreset). destruct (wf_flash p Hwf) as [Hfp Hfl32].
  apply allocate_region_valid in Hfl; [|done|done|cbn; by rewrite E3|cbn; by rewrite E4].
  set (p2 := set_mpu_config None p1) in *.
  assert (Hf2 : reset_failed p1 p2) by (by split_and!).
  destruct fl as [fl|]; [|inv_ret; destruct (Hfail p2 Hf2 eq_refl) as (? & ? & ? & ? & ?); by split_and!].
  apply obind_Ret in Hreset as (kern' & Hk' & Hreset). cbn [snd get_grant_count_and_finalize] in *.
  rewrite (reset_kernel_memory_size_grants k) in Hk' by (by rewrite <- Hgc).
  rewrite Hkern in Hk'. simplify_eq.
  apply obind_Ret in Hreset as ([am c2] & Ham & Hreset).
  assert (Hkern0 : 0 <= kern')
    by (unfold reset_kernel_memory_size in Hkern; inv_ret; unfold u32_range in *; lia).
  pose proof (wf_start p Hwf). pose proof (wf_len p Hwf). pose proof (wf_end p Hwf).
  destruct am as [[ms ml]|]; [|inv_ret; destruct (Hfail p2 Hf2 eq_refl) as (? & ? & ? & ? & ?); by split_and!].
  apply allocate_app_ok in Ham as (Hlo & Hhi & Hmin & Hsum & Hman & Hexp);
    [|done|cbn; rewrite E1; unfold u32_range; lia|cbn; rewrite E2; unfold u32_range; lia|done|done].
  cbn [p2 mem_start memory_start memory_len set_mpu_config] in *. unfold mem_start in *.
  rewrite ?E1, ?E2 in Hlo, Hhi, Hmin, Hreset. assert (ms = memory_start p) as -> by lia.
  assert (ml = memory_len p) as -> by lia. specialize (Hexp Hroom) as [Hexp1 Hexp2].
  unfold wrapping_add32, wrapping_sub32 in Hreset.
  rewrite !(wrap32_small (memory_start p + _)) in Hreset by (unfold u32_range; lia).
  rewrite (wrap32_small (_ - kern')) in Hreset by (unfold u32_range; lia).
  set (p3 := set_mpu_config (Some c2) _) in Hreset.
  assert (Hf3 : forall st, reset_failed p1 (set_stored_state st p3)).
  { intros st. split_and!; try done. intros c0 [= <-]. by eapply manages_valid. }
  assert (Hp3 : process_id p3 = process_id p1) by done.
  destruct (stored_state p3) as [st|] eqn:Est.
  2: { inv_ret. destruct (Hfail p3 (Hf3 None) Hp3) as (? & ? & ? & ? & ?); by split_and!. }
  destruct (ukb_initialize_process _ _ st) as [[[]|[]] st']; cbn [fst snd] in Hreset.
  2: { inv_ret. destruct (Hfail _ (Hf3 (Some st')) Hp3) as (? & ? & ? & ? & ?); by split_and!. }
  apply obind_Ret in Hreset as (rc & Hrc & Hreset). inv_ret_step.
  apply obind_Ret in Hreset as (t & Hinit & Hreset).
  apply obind_Ret in Hreset as ([r1 p5] & Henq & Hreset). injection Hreset as <- <- <-.
  apply (reset_activates p _ c2 kern' k _ _ t) in Henq as (-> & Hwf' & Hpid & Hre);
    [|first [done | cbn; congruence]..].
  rewrite Hpid, (re_start _ _ _ Hre), (re_len _ _ _ Hre). cbn. rewrite Epid.
  split_and!; try done; congruence.
Qed.

Abbreviation start := (start CALLBACKS_OFFSET PROCESS_STRUCT_OFFSET).
Abbreviation try_restart := (try_restart CALLBACKS_OFFSET PROCESS_STRUCT_OFFSET).
Abbreviation set_fault_state :=
  (set_fault_state CALLBACKS_OFFSET PROCESS_STRUCT_OFFSET fault_action).
Abbreviation set_syscall_return_value :=
  (set_syscall_return_value CALLBACKS_OFFSET PROCESS_STRUCT_OFFSET fault_action).
Abbreviation set_process_function :=
  (set_process_function CALLBACKS_OFFSET PROCESS_STRUCT_OFFSET fault_action).

(** Steps that are not a restart keep the process identifier; the breaks and
    the high-water mark only move as far as the allowed buffers permit. *)
Definition evolves (p p' : process stored config) : Prop :=
  process_id p' = process_id p /\ memory_start p' = memory_start p /\
  memory_len p' = memory_len p /\
  (is_running p' = true -> is_running p = true /\
     allow_high_water_mark p <= allow_high_water_mark p' /\
     kernel_memory_break p' <= kernel_memory_break p).

(** What every operation keeps: the block and the number of grants; an
    operation either evolves the process or gives it a fresh identifier. *)
Definition keeps (k : Kernel) p (k' : Kernel) p' : Prop :=
  memory_start p' = memory_start p /\ memory_len p' = memory_len p /\
  grant_counter k' = grant_counter k /\
  process_identifier_max k <= process_identifier_max k' /\
  (evolves p p' \/ process_identifier_max k <= identifier (process_id p')).

Lemma evolves_refl p : evolves p p.
Proof using. unfold evolves. split_and!; done. Qed.

Lemma keeps_refl k p : keeps k p k p.
Proof using. unfold keeps. split_and!; try done. left. apply evolves_refl. Qed.

Lemma keeps_same k p p' :
  same_memory p p' -> (is_running p' = true -> is_running p = true) -> keeps k p k p'.
Proof using.
  intros (E1 & E2 & _ & _ & E5 & E6 & E7 & _ & _ & Ep & _) Hr.
  unfold keeps, evolves. rewrite E6, E7. split_and!; try done. left. split_and!; try done.
  intros H. split_and!; [by apply Hr|done..].
Qed.

Lemma keeps_evolves k p k' p' :
  grant_counter k' = grant_counter k -> process_identifier_max k' = process_identifier_max k ->
  evolves p p' -> keeps k p k' p'.
Proof using.
  intros E1 E2 He. unfold keeps. rewrite E2. pose proof He as (? & ? & ? & _).
  split_and!; try done. by left.
Qed.

Lemma room_keeps k p k' p' : room k p -> keeps k p k' p' -> room k' p'.
Proof using.
  intros (kern & Hk & Hl) (_ & E2 & E3 & _). exists kern.
  by rewrite (reset_kernel_memory_size_grants k), E2.
Qed.

(** [reset] followed by the final change of state in [start] and
    [try_restart]. *)
Lemma reset_yielded_wf p k r p' k' :
  wf p -> is_running p = false -> room k p -> reset p k = Ret (r, p', k') ->
  let q := match r with Ok _ => set_state Yielded p' | Err _ => p' end in
  wf q /\ forall p0, memory_start p0 = memory_start p -> memory_len p0 = memory_len p ->
    keeps k p0 k' q.
Proof using Happ.
  intros Hwf Hr Hroom Hreset.
  apply reset_spec in Hreset as (Hwf' & E1 & E2 & E3 & E4 & E5 & Hres); [|done..].
  assert (Hk : forall p0 q, memory_start p0 = memory_start p -> memory_len p0 = memory_len p ->
    memory_start q = memory_start p' -> memory_len q = memory_len p' ->
    process_id q = process_id p' -> keeps k p0 k' q).
  { intros p0 q F1 F2 F3 F4 F5. unfold keeps. rewrite F5. split_and!; [congruence..|lia|right; lia]. }
  destruct r as [[]|e]; cbn; (split; [|intros; by apply Hk]); [|done].
  apply wf_set_state; [done|]. unfold is_running. by rewrite (re_state _ _ _ Hres).
Qed.

Lemma start_wf p k p' k' :
  wf p -> room k p -> start p k = Ret (p', k') -> wf p' /\ keeps k p k' p'.
Proof using Happ.
  intros Hwf Hroom. unfold Proc.start. case_bool_decide as E; cbn [negb]; intros H.
  2: { inv_ret. split; [done|apply keeps_refl]. }
  apply obind_Ret in H as ([[r q] k1] & Hreset & H).
  apply reset_yielded_wf in Hreset as [? Hk]; [|done|unfold is_running; by rewrite E|done].
  destruct r as [[]|e]; inv_ret; split; auto.
Qed.

Lemma try_restart_wf cc p k p' k' :
  wf p -> room k p -> try_restart cc p k = Ret (p', k') -> wf p' /\ keeps k p k' p'.
Proof using Happ.
  intros Hwf Hroom. unfold Proc.try_restart. case_bool_decide as E; intros H.
  { inv_ret. split; [done|apply keeps_refl]. }
  destruct (wf_queue p Hwf) as (ts & Ht & Hu). destruct (wf_grants_some p Hwf) as [gs Hg].
  destruct (terminate_wf cc p Hwf) as [Hwft Hrt].
  apply obind_Ret in H as ([[r q] k1] & Hreset & H).
  rewrite (terminate_spec cc p ts gs) in * by done.
  apply reset_yielded_wf in Hreset as [? Hk]; [|done..].
  destruct r as [[]|e]; inv_ret; (split; [done|by apply Hk]).
Qed.

Lemma set_fault_state_wf p k p' k' :
  wf p -> room k p -> set_fault_state p k = Ret (p', k') -> wf p' /\ keeps k p k' p'.
Proof using Happ.
  intros Hwf Hroom. unfold Proc.set_fault_state. destruct (fault_action p); intros H; [done| |].
  - by eapply try_restart_wf.
  - inv_ret. destruct (terminate_wf None p Hwf) as [Hwft Hrt].
    split; [by apply set_faulted_wf|].
    destruct (decide (state p = Terminated)) as [E|E].
    + rewrite terminate_terminated by done. apply keeps_same; [repeat split|done].
    + destruct (wf_queue p Hwf) as (ts & Ht & Hu). destruct (wf_grants_some p Hwf) as [gs Hg].
      rewrite (terminate_spec None p ts gs) by done. by apply keeps_evolves.
Qed.

(** * Context switching *)

Lemma resume_stored_wf st p :
  wf p -> is_running p = true -> wf (set_state Running (set_stored_state st p)).
Proof using. intros Hwf Hr. apply (wf_frame_same p); [done|repeat split|done|done]. Qed.

Lemma set_stored_wf st p : wf p -> wf (set_stored_state st p).
Proof using. intros Hwf. apply (wf_frame_same p); [done|repeat split|done|done]. Qed.

Lemma set_syscall_return_value_wf rv p k p' k' :
  wf p -> room k p -> is_running p = true ->
  set_syscall_return_value rv p k = Ret (p', k') -> wf p' /\ keeps k p k' p'.
Proof using Happ.
  intros Hwf Hroom Hr. unfold Proc.set_syscall_return_value.
  destruct (stored_state p) as [st|]; [|by apply set_fault_state_wf].
  destruct (ukb_set_syscall_return_value _ _ st rv) as [[[]|[]] st']; intros H.
  - inv_ret. split; [by apply resume_stored_wf|apply keeps_same; [repeat split|done]].
  - apply set_fault_state_wf in H; [done|by apply set_stored_wf|done].
Qed.

Lemma set_process_function_wf f p k p' k' :
  wf p -> room k p -> is_running p = true ->
  set_process_function f p k = Ret (p', k') -> wf p' /\ keeps k p k' p'.
Proof using Happ.
  intros Hwf Hroom Hr. unfold Proc.set_process_function.
  destruct (stored_state p) as [st|]; [|by apply set_fault_state_wf].
  destruct (ukb_set_process_function _ _ st f) as [[[]|[]] st']; intros H.
  - inv_ret. split; [by apply resume_stored_wf|apply keeps_same; [repeat split|done]].
  - apply set_fault_state_wf in H; [done|by apply set_stored_wf|done].
Qed.

Lemma switch_to_wf p r p' :
  wf p -> switch_to p = Ret (r, p') -> wf p' /\ same_memory p p' /\ state p' = state p.
Proof using.
  intros Hwf. unfold switch_to. destruct (is_running p) eqn:Hr; cbn [negb]; intros H.
  2: { inv_ret. split; [done|]. split; [apply same_memory_refl|done]. }
  assert (Hq : exists q rs sp, (match stored_state p with
      | Some st => let '(r, sp, st) := ukb_switch_to_process (mem_start p) (app_break p) st in
                   (Some r, sp, set_stored_state (Some st) p)
      | None => (None, None, p)
      end) = (rs, sp, q) /\ wf q /\ same_memory p q /\ state q = state p).
  { destruct (stored_state p) as [st|].
    - destruct (ukb_switch_to_process _ _ st) as [[r0 sp] st']. eexists _, _, _.
      split; [done|]. split; [by apply set_stored_wf|]. split; [repeat split|done].
    - eexists _, _, _. split; [done|]. split; [done|]. split; [apply same_memory_refl|done]. }
  destruct Hq as (q & rs & sp & Eq & Hwfq & Hsq & Hstq). rewrite Eq in H. destruct sp as [sp|]; inv_ret.
  - pose proof (wf_map_debug _ _ _ Hwfq Hret). apply map_debug_frame in Hret as (? & ? & _).
    split; [done|]. split; [by eapply same_memory_trans|congruence].
  - done.
Qed.

(** * Memory protection *)

Lemma set_mpu_config_same c p : mpu_config p = Some c -> set_mpu_config (Some c) p = p.
Proof using. destruct p; cbn. by intros ->. Qed.

(** Replacing the configuration by one with the same view of the block. *)
Lemma wf_set_mpu_config c c' p :
  wf p -> mpu_config p = Some c -> valid c' ->
  (is_running p = true -> manages c (memory_start p) (memory_len p) ->
   manages c' (memory_start p) (memory_len p) /\
   forall a, memory_start p <= a < memory_start p + memory_len p ->
     (exposed c' a <-> exposed c a)) ->
  wf (set_mpu_config (Some c') p).
Proof using.
  intros Hwf Hc Hv Hsame. pose proof (wf_start p Hwf). destruct Hwf as [H1 H2 H3 H4 H5 H6 H9 H7 H8].
  split; try done.
  - cbn. intros c0 ?; by simplify_eq.
  - intros Hr. destruct (H7 Hr) as (Ho & (c0 & Hc0 & Hm & Hx1 & Hx2) & Hg).
    split; [done|]. split; [|done]. rewrite Hc in Hc0. simplify_eq.
    destruct (Hsame Hr Hm) as [Hm' Hx]. exists c'. unfold ordered in Ho.
    split; [done|]. split; [done|]. cbn. split.
    + intros a Ha. apply Hx; [lia|]. by apply Hx1.
    + intros a Ha. rewrite Hx by lia. by apply Hx2.
Qed.

Lemma setup_mpu_wf p h p' h' :
  wf p -> setup_mpu p h = Ret (p', h') ->
  wf p' /\ exists c, p' = set_mpu_config c p.
Proof using.
  intros Hwf. unfold setup_mpu. destruct (mpu_config p) as [c|] eqn:Hc.
  2: { intros ?; simplify_eq. split; [done|]. exists None. destruct p'; cbn in *; by subst. }
  intros H. apply obind_Ret in H as ([c1 h1] & Hcf & H). inv_ret.
  split; [|by exists (Some c1)].
  apply (wf_set_mpu_config c); [done|done|by apply (configure_valid c h c1 h'); [apply (wf_valid p Hwf)|]|].
  intros _ Hm. destruct (configure_ok c h c1 h' _ _ Hm Hcf) as [? Hx]. split; [done|]. intros a _. apply Hx.
Qed.

(** The tracked regions of other memory. *)
Lemma wf_set_mpu_regions l p :
  wf p -> (forall r, Some r ∈ l -> beside (memory_start p) (memory_len p) r) ->
  wf (set_mpu_regions l p).
Proof using. intros [H1 H2 H3 H4 H5 H6 H9 H7 H8] Hl. by split. Qed.

Lemma fill_slot_elem reg l l' r :
  fill_slot reg l = Some l' -> Some r ∈ l' -> r = reg \/ Some r ∈ l.
Proof using.
  revert l'. induction l as [|[x|] l IH]; intros l' H; cbn in H; [done|..].
  - destruct (fill_slot reg l) as [l1|]; simplify_eq. intros [E|Hr]%elem_of_cons.
    + simplify_eq. right. by left.
    + destruct (IH l1 eq_refl Hr); [by left|right; by right].
  - simplify_eq. intros [E|Hr]%elem_of_cons; [simplify_eq; by left|right; by right].
Qed.

Lemma find_slot_elem reg l i : find_slot reg l = Some i -> Some reg ∈ l.
Proof using.
  revert i. induction l as [|x l IH]; intros i H; cbn in H; [done|].
  case_bool_decide as E; [subst; by left|].
  destruct (find_slot reg l) as [j|]; [|done]. right. by apply (IH j).
Qed.

Lemma add_mpu_region_wf u n m p r p' :
  wf p -> u32_range u -> u32_range m ->
  u + n <= memory_start p \/ memory_start p + memory_len p <= u ->
  add_mpu_region u n m p = Ret (r, p') ->
  wf p' /\ exists c l, p' = set_mpu_regions l (set_mpu_config c p).
Proof using.
  intros Hwf Hu Hm Hd. unfold add_mpu_region. destruct (mpu_config p) as [c|] eqn:Hc; intros H.
  2: { inv_ret. split; [done|]. exists None, (mpu_regions p'). destruct p'; cbn in *; by subst. }
  apply obind_Ret in H as ([r1 c1] & Hal & H).
  assert (Hwf1 : wf (set_mpu_config (Some c1) p)).
  { apply (wf_set_mpu_config c); [done|done|..].
    - by apply (allocate_region_valid c c1 u n m ReadWriteOnly r1); [done|apply (wf_valid p Hwf)|..].
    - intros _ Hman. by apply (allocate_region_ok c c1 _ _ u n m ReadWriteOnly r1). }
  destruct r1 as [reg|]; [destruct (fill_slot _ _) as [l|] eqn:Hfill|]; inv_ret.
  - split; [|by eexists _, _]. apply wf_set_mpu_regions; [done|]. cbn.
    intros r0 Hr0. apply (fill_slot_elem _ _ _ _ Hfill) in Hr0 as [->|Hr0]; [|by apply (wf_regions p Hwf)].
    by apply (allocate_region_beside c c1 _ _ u n m); [apply (wf_valid p Hwf)|..].
  - split; [done|]. exists (Some c1), (mpu_regions p). by destruct p.
  - split; [done|]. exists (Some c1), (mpu_regions p). by destruct p.
Qed.

Lemma remove_mpu_region_wf reg p r p' :
  wf p -> remove_mpu_region reg p = Ret (r, p') ->
  wf p' /\ exists c l, p' = set_mpu_regions l (set_mpu_config c p).
Proof using.
  intros Hwf. unfold remove_mpu_region. destruct (mpu_config p) as [c|] eqn:Hc; intros H.
  2: { inv_ret. split; [done|]. exists None, (mpu_regions p'). destruct p'; cbn in *; by subst. }
  destruct (find_slot _ _) as [i|] eqn:Hfind.
  2: { inv_ret. split; [done|]. exists (Some c), (mpu_regions p').
       destruct p'; cbn in *; by subst. }
  apply obind_Ret in H as ([r1 c1] & Hal & H).
  assert (Hwf1 : wf (set_mpu_config (Some c1) p)).
  { apply (wf_set_mpu_config c); [done|done|..].
    - by apply (remove_region_valid c c1 reg r1); [apply (wf_valid p Hwf)|].
    - intros _ Hman. apply (remove_region_ok c c1 _ _ reg r1); [done| |done].
      by apply (wf_regions p Hwf), (find_slot_elem _ _ i). }
  destruct r1 as [[]|[]]; inv_ret.
  - split; [|by eexists _, _]. apply wf_set_mpu_regions; [done|]. cbn. intros r0 Hr0.
    apply list_elem_of_lookup in Hr0 as [j [(_ & ? & _)|[_ Hj] ]%list_lookup_insert_Some]; [done|].
    apply (wf_regions p Hwf). by apply list_elem_of_lookup_2 in Hj.
  - split; [done|]. exists (Some c1), (mpu_regions p). by destruct p.
Qed.

(** Moving one of the breaks after a successful update of the MPU. *)
Lemma wf_update_breaks c c' ab kb p :
  wf p -> is_running p = true -> mpu_config p = Some c ->
  manages c (memory_start p) (memory_len p) ->
  allow_high_water_mark p <= ab -> kb <= kernel_memory_break p ->
  update_app_memory_region ab kb ReadWriteOnly c = Ret (Ok tt, c') ->
  wf (set_mpu_config (Some c') (set_kernel_memory_break kb (set_app_break ab p))).
Proof using.
  intros Hwf Hr Hc Hm Hab Hkb Hupd.
  destruct (wf_active p Hwf Hr) as (Ho & _ & gs & Hg & Hgs).
  pose proof (wf_start p Hwf). unfold ordered in Ho.
  apply (update_ok _ _ (memory_start p) (memory_len p)) in Hupd as (Hm' & Hle & Hx1 & Hx2);
    [|done|lia|lia].
  destruct Hwf as [H1 H2 H3 H4 H5 H6 H9 H7 H8]. split; try done.
  - cbn. intros c0 ?; simplify_eq. by eapply manages_valid.
  - intros _. split; [unfold ordered; cbn; lia|]. split; [by exists c'|].
    exists gs. split; [done|]. eapply Forall_impl; [done|]. cbn. intros e [?|?]; [by left|right; lia].
Qed.

Lemma brk_spec nb p h r p' h' :
  wf p -> brk nb p h = Ret (r, p', h') ->
  wf p' /\
  match r with
  | Ok old => old = app_break p /\ is_running p = true /\
      allow_high_water_mark p <= nb <= kernel_memory_break p /\
      nb < memory_start p + memory_len p /\
      exists c, p' = set_mpu_config (Some c) (set_app_break nb p)
  | Err _ => p' = p /\ h' = h
  end.
Proof using.
  intros Hwf. unfold brk. destruct (is_running p) eqn:Hr; cbn [negb]; intros H; [|by inv_ret].
  destruct (wf_active p Hwf Hr) as (Ho & (c & Hc & Hm & _) & _). rewrite Hc in H.
  rewrite mem_end_ok in H by done.
  destruct (Z.ltb_spec nb (allow_high_water_mark p)),
    (Z.leb_spec (memory_start p + memory_len p) nb); cbn [orb] in H; try (by inv_ret).
  destruct (Z.ltb_spec (kernel_memory_break p) nb); [by inv_ret|].
  apply obind_Ret in H as ([r1 c1] & Hupd & H). destruct r1 as [[]|[]].
  - apply obind_Ret in H as ([c2 h2] & Hcf & H). inv_ret.
    pose proof (wf_update_breaks c c1 nb (kernel_memory_break p) p Hwf Hr Hc Hm
      ltac:(lia) ltac:(lia) Hupd) as Hwf1.
    split; [|split_and!; [done..|lia|lia|lia|by exists c2]].
    assert (Hset : set_mpu_config (Some c2) (set_app_break nb p) =
      set_mpu_config (Some c2) (set_mpu_config (Some c1)
        (set_kernel_memory_break (kernel_memory_break p) (set_app_break nb p)))) by (by destruct p).
    rewrite Hset.
    apply (wf_set_mpu_config c1); [done|done|by apply (configure_valid c1 h c2 h'); [apply (wf_valid _ Hwf1)|]|].
    intros _ Hm1. destruct (configure_ok c1 h c2 h' _ _ Hm1 Hcf) as [? Hx].
    split; [done|]. intros a _. apply Hx.
  - inv_ret. apply update_err in Hupd as ->. rewrite set_mpu_config_same by done. done.
Qed.

(** * Process buffers *)

Lemma in_app_owned_memory_spec a n p :
  u32_range a -> u32_range n -> app_break p < U32 ->
  in_app_owned_memory a n p = true <->
  memory_start p <= a /\ a + n <= app_break p /\ a + n < U32.
Proof using.
  intros [Ha0 Ha] [Hn0 Hn] Hb. unfold in_app_owned_memory, wrapping_add32, wrap32, mem_start.
  rewrite !andb_true_iff, !Z.leb_le.
  destruct (Z.lt_ge_cases (a + n) U32) as [Hs|Hs].
  - rewrite Z.mod_small by lia. lia.
  - assert ((a + n) mod U32 = a + n - U32) as ->.
    { symmetry. apply (Z.mod_unique_pos _ _ 1); lia. }
    lia.
Qed.

Lemma wf_raise_water_mark e p :
  wf p -> is_running p = true -> e <= app_break p -> wf (raise_water_mark e p).
Proof using.
  intros Hwf Hr He. destruct Hwf as [H1 H2 H3 H4 H5 H6 H9 H7 H8]. split; try done.
  intros _. destruct (H7 Hr) as (Ho & Hi & Hg). split; [|done].
  unfold ordered in *. cbn. lia.
Qed.

(** The buffer is app memory below the (possibly raised) high-water mark. *)
Definition buffer_ok (b : ProcessBuffer) p : Prop :=
  buf_len b = 0 \/
  memory_start p <= buf_ptr b /\ buf_ptr b + buf_len b <= allow_high_water_mark p.

Lemma build_readwrite_spec a n p r p' :
  wf p -> u32_range a -> u32_range n ->
  build_readwrite_process_buffer a n p = (r, p') ->
  wf p' /\ same_memory (set_allow_high_water_mark (allow_high_water_mark p') p) p' /\
  state p' = state p /\ allow_high_water_mark p <= allow_high_water_mark p' /\
  match r with
  | Ok b => b = mkProcessBuffer a n (process_id p) /\ is_running p = true /\ buffer_ok b p'
  | Err FAIL => is_running p = false /\ p' = p
  | Err e => e = INVAL /\ p' = p /\ n <> 0 /\ ~ (memory_start p <= a /\ a + n <= app_break p)
  end.
Proof using.
  intros Hwf Ha Hn. unfold build_readwrite_process_buffer.
  destruct (is_running p) eqn:Hr; cbn [negb].
  2: { intros ?; simplify_eq. split; [done|]. repeat split; done || lia. }
  destruct (wf_active p Hwf Hr) as (Ho & _). unfold ordered in Ho.
  pose proof (wf_end p Hwf).
  pose proof (in_app_owned_memory_spec a n p Ha Hn ltac:(lia)) as Hin.
  destruct (Z.eqb_spec n 0) as [->|Hn0].
  { intros ?; simplify_eq. split; [done|]. repeat split; try done; try lia. by left. }
  destruct (in_app_owned_memory a n p); intros ?; simplify_eq.
  - destruct Hin as [Hin _]. specialize (Hin eq_refl) as (H1 & H2 & H3).
    unfold wrapping_add32. rewrite wrap32_small by (unfold u32_range in *; lia).
    split; [apply wf_raise_water_mark; done || lia|].
    repeat split; try done; cbn; try lia. right. cbn. lia.
  - split; [done|]. repeat split; try done; try lia.
Qed.

Lemma build_readonly_spec a n p r p' :
  wf p -> u32_range a -> u32_range n ->
  build_readonly_process_buffer a n p = Ret (r, p') ->
  wf p' /\ same_memory (set_allow_high_water_mark (allow_high_water_mark p') p) p' /\
  state p' = state p /\ allow_high_water_mark p <= allow_high_water_mark p' /\
  match r with
  | Ok b => b = mkProcessBuffer a n (process_id p) /\ is_running p = true /\
      (buffer_ok b p' \/
       exists start, flash_non_protected_start p = Ret start /\ start <= a /\ a + n <= flash_end p)
  | Err FAIL => is_running p = false /\ p' = p
  | Err e => e = INVAL /\ p' = p /\ n <> 0
  end.
Proof using.
  intros Hwf Ha Hn. unfold build_readonly_process_buffer.
  destruct (is_running p) eqn:Hr; cbn [negb].
  2: { intros H; inv_ret. split; [done|]. repeat split; done || lia. }
  destruct (wf_active p Hwf Hr) as (Ho & _). unfold ordered in Ho.
  pose proof (wf_end p Hwf).
  pose proof (in_app_owned_memory_spec a n p Ha Hn ltac:(lia)) as Hin.
  destruct (Z.eqb_spec n 0) as [->|Hn0].
  { intros H1; inv_ret. split; [done|]. repeat split; try done; try lia. by left; left. }
  destruct (in_app_owned_memory a n p) eqn:Eo; cbn [obind]; intros H1.
  - inv_ret. destruct Hin as [Hin _]. specialize (Hin eq_refl) as (H1 & H2 & H3).
    unfold wrapping_add32. rewrite wrap32_small by (unfold u32_range in *; lia).
    split; [apply wf_raise_water_mark; done || lia|].
    repeat split; try done; cbn; try lia. left. right. cbn. lia.
  - unfold in_app_flash_memory in H1. apply obind_Ret in H1 as (b & Hb & H1).
    destruct b; [|inv_ret; split; [done|]; repeat split; done || lia].
    destruct (Z.leb_spec a (wrapping_add32 a n)) as [Hle|]; [|done].
    apply obind_Ret in Hb as (s & Hs & Hb). injection Hb as Hb. inv_ret.
    apply andb_true_iff in Hb as [Hb1 Hb2]. apply Z.leb_le in Hb1, Hb2.
    split; [done|]. repeat split; try done; try lia. right. exists s. split; [done|].
    unfold wrapping_add32, wrap32 in Hle, Hb2. unfold u32_range in *.
    destruct (Z.lt_ge_cases (a + n) U32) as [Hlt|Hge].
    + rewrite Z.mod_small in Hb2 by lia. lia.
    + assert ((a + n) mod U32 = a + n - U32) as E
        by (symmetry; apply (Z.mod_unique_pos _ _ 1); lia).
      lia.
Qed.

(** * Grants *)

(** A Rust layout: the alignment is a power of two, and size and alignment fit
    the address space together. *)
Definition layout_request (size align : Z) : Prop :=
  0 <= size /\ exists j, 0 <= j <= 31 /\ align = 2 ^ j /\ size + Z.max align 2 <= U32.

Lemma request_align size align :
  layout_request size align ->
  exists j, 1 <= j <= 31 /\ Z.max align 2 = 2 ^ j /\ 0 <= size /\ size + 2 ^ j <= U32 /\
    (align | 2 ^ j).
Proof using.
  intros (Hs & j & Hj & -> & Hf). destruct (decide (j = 0)) as [->|].
  - exists 1. split_and!; try done; try lia. by exists 2.
  - assert (2 ^ 1 <= 2 ^ j) by (apply Z.pow_le_mono_r; lia). exists j.
    rewrite Z.max_l in * by lia. split_and!; try done; lia.
Qed.

Lemma allocate_internal_spec size align p r p' :
  wf p -> is_running p = true -> layout_request size align ->
  allocate_in_grant_region_internal size align p = Ret (r, p') ->
  wf p' /\
  match r with
  | None => p' = p
  | Some ptr =>
    app_break p <= ptr /\ ptr + size <= kernel_memory_break p /\ (align | ptr) /\ (2 | ptr) /\
    exists c, p' = set_kernel_memory_break ptr (set_mpu_config (Some c) p)
  end.
Proof using.
  intros Hwf Hr (j & Hj & Hmax & Hs & Hfit & Hdiv)%request_align.
  destruct (wf_active p Hwf Hr) as (Ho & (c & Hc & Hm & _) & _). unfold ordered in Ho.
  pose proof (wf_start p Hwf). pose proof (wf_end p Hwf).
  unfold allocate_in_grant_region_internal. rewrite Hc, Hmax. unfold alignment_mask.
  replace (U32 - 1 - (2 ^ j - 1)) with (U32 - 2 ^ j) by lia.
  rewrite land_align by (apply wrap32_range || lia).
  assert (HP : 2 <= 2 ^ j) by (apply (Z.pow_le_mono_r 2 1); lia).
  set (x := wrapping_sub32 (kernel_memory_break p) size).
  assert (Hx : (x = kernel_memory_break p - size /\ size <= kernel_memory_break p) \/
               kernel_memory_break p + 2 ^ j <= x).
  { unfold x, wrapping_sub32, wrap32. destruct (Z.le_gt_cases size (kernel_memory_break p)).
    - left. rewrite Z.mod_small by lia. done.
    - right. assert ((kernel_memory_break p - size) mod U32 =
        kernel_memory_break p - size + U32) as ->; [|lia].
      symmetry. apply (Z.mod_unique_pos _ _ (-1)); lia. }
  pose proof (Z.div_mod x (2 ^ j) ltac:(lia)). pose proof (Z.mod_pos_bound x (2 ^ j) ltac:(lia)).
  set (nb := 2 ^ j * (x / 2 ^ j)) in *.
  destruct (Z.ltb_spec nb (app_break p)); [intros; by inv_ret|].
  destruct (Z.ltb_spec (kernel_memory_break p) nb); [intros; by inv_ret|].
  intros H6. apply obind_Ret in H6 as ([r1 c1] & Hupd & H6). destruct r1 as [[]|[]].
  - inv_ret. split.
    + pose proof (wf_update_breaks c c1 (app_break p) nb p Hwf Hr Hc Hm ltac:(lia) ltac:(lia) Hupd)
        as Hwf1. destruct p; exact Hwf1.
    + split_and!; [done|lia| | |by exists c1].
      * etrans; [done|]. by exists (x / 2 ^ j); lia.
      * exists (2 ^ (j - 1) * (x / 2 ^ j)). unfold nb.
        replace j with (j - 1 + 1) at 1 by lia. rewrite Z.pow_add_r by lia. lia.
  - inv_ret. apply update_err in Hupd as ->. rewrite set_mpu_config_same by done. done.
Qed.

Lemma wf_set_grant i e d e' gs p :
  wf p -> is_running p = true -> grant_pointers p = Some gs -> gs !! i = Some e ->
  (grant_ptr e' = 0 \/
   kernel_memory_break p <= grant_addr e' <= memory_start p + memory_len p) ->
  d = <[i := e']> gs -> wf (set_grant_pointers (Some d) p).
Proof using.
  intros Hwf Hr Hg He He' ->. destruct Hwf as [H1 H2 H3 H4 H5 H6 H9 H7 H8]. split; try done.
  - intros _. destruct (H7 Hr) as (Ho & Hi & gs0 & Hg0 & Hall). rewrite Hg in Hg0. simplify_eq.
    split; [done|]. split; [done|]. eexists. split; [done|]. by apply Forall_insert.
  - intros Hf. change (is_running p = false) in Hf. congruence.
Qed.

Lemma match_not_true {A} (o : option bool) (x y : A) :
  o <> Some true -> match o with Some true => x | _ => y end = y.
Proof using. by destruct o as [[]|]. Qed.

Lemma allocate_grant_spec num d size align p k r p' k' :
  wf p -> layout_request size align ->
  allocate_grant num d size align p k = Ret (r, p', k') ->
  wf p' /\ keeps k p k' p' /\
  match r with
  | Ok _ => is_running p = true /\ grant_is_allocated num p = Some false /\
      exists c gs e ptr, grant_pointers p = Some gs /\ gs !! num = Some e /\
        p' = set_grant_pointers (Some (<[num := mkGrantEntry d ptr]> gs))
               (set_kernel_memory_break ptr (set_mpu_config (Some c) p)) /\
        app_break p <= ptr /\ ptr + size <= kernel_memory_break p /\ (align | ptr) /\
        existsb (grant_matches d) gs = false
  | Err _ => grant_pointers p' = grant_pointers p /\ is_running p' = is_running p /\
      process_id p' = process_id p /\ tasks p' = tasks p /\ app_break p' = app_break p /\
      kernel_memory_break p' <= kernel_memory_break p
  end.
Proof using.
  intros Hwf Hreq. unfold allocate_grant.
  destruct (is_running p) eqn:Hr; cbn [negb]; intros H.
  2: { inv_ret. split; [done|]. split; [apply keeps_refl|by auto with zarith]. }
  cbn [get_grant_count_and_finalize] in H.
  assert (Hk : forall q, evolves p q ->
    keeps k p (mkKernel (process_identifier_max k) (grant_counter k) true) q)
    by (intros; by apply keeps_evolves).
  pose proof (Hk p (evolves_refl p)) as Hk0.
  destruct (_ <=? _); [inv_ret; split_and!; auto with zarith|].
  destruct (wf_active p Hwf Hr) as (_ & _ & gs & Hg & _).
  assert (Hcases : grant_is_allocated num p = Some true \/ grant_is_allocated num p <> Some true)
    by (destruct (grant_is_allocated num p) as [[]|]; auto).
  destruct Hcases as [E|E]; [rewrite E in H; inv_ret; split_and!; auto with zarith|].
  rewrite match_not_true, Hg in H by done. rename H into H'.
  destruct (existsb (grant_matches d) gs) eqn:Hex; [inv_ret; split_and!; auto with zarith|].
  apply obind_Ret in H' as ([r1 p1] & Hal & H').
  apply allocate_internal_spec in Hal as [Hwf1 Hal]; [|done..].
  destruct r1 as [ptr|]; [|subst p1; inv_ret; split_and!; auto with zarith].
  destruct Hal as (Hab & Hkb & Hdv & Hev & c & ->). cbn in H'. rewrite Hg in H'.
  destruct (wf_active p Hwf Hr) as (Ho & _). unfold ordered in Ho.
  pose proof (wf_start p Hwf). pose proof (wf_end p Hwf).
  destruct Hreq as (Hs0 & _).
  assert (Hev' : forall d, evolves p (set_grant_pointers d
      (set_kernel_memory_break ptr (set_mpu_config (Some c) p)))).
  { intros d0. unfold evolves. cbn. split_and!; try done. intros _. split_and!; done || lia. }
  destruct (gs !! num) as [e|] eqn:He; inv_ret.
  2: { split; [done|]. split; [apply Hk; exact (Hev' (grant_pointers p))|]. cbn. split_and!; done || lia. }
  assert (Hga : grant_is_allocated num p = Some false).
  { unfold grant_is_allocated in *. rewrite Hr, Hg, He in *. cbn in *.
    destruct (is_null _); [done|]. by destruct E. }
  split; [|split; [by apply Hk|split_and!; [done|done|by exists c, gs, e, ptr]]].
  apply (wf_set_grant num e _ (mkGrantEntry d ptr) gs); try done.
  right. cbn. rewrite grant_addr_even; [lia|unfold u32_range; lia|by apply Z.mod_divide].
Qed.

Lemma allocate_custom_grant_spec size align p r p' :
  wf p -> layout_request size align -> allocate_custom_grant size align p = Ret (r, p') ->
  wf p' /\
  match r with
  | Ok (ident, ptr) => is_running p = true /\
      app_break p <= ptr /\ ptr + size <= kernel_memory_break p /\ (align | ptr) /\
      (exists c, p' = set_kernel_memory_break ptr (set_mpu_config (Some c) p)) /\
      get_custom_grant_address ident p' = Ret ptr
  | Err _ => p' = p
  end.
Proof using.
  intros Hwf Hreq. unfold allocate_custom_grant.
  destruct (is_running p) eqn:Hr; cbn [negb]; intros H; [|by inv_ret].
  apply obind_Ret in H as ([r1 p1] & Hal & H).
  apply allocate_internal_spec in Hal as [Hwf1 Hal]; [|done..].
  destruct r1 as [ptr|]; [|inv_ret; by subst].
  apply obind_Ret in H as (ident & Hid & H). apply checked32_Ret in Hid as [-> Hid]. inv_ret.
  destruct Hal as (Hab & Hkb & Hdv & _ & c & ->).
  destruct (wf_active p Hwf Hr) as (Ho & _). unfold ordered in Ho.
  pose proof (wf_start p Hwf). pose proof (wf_end p Hwf). destruct Hreq as (Hs0 & _).
  split; [done|]. split_and!; try done; [by exists c|].
  unfold get_custom_grant_address. ck. f_equal. lia.
Qed.

Lemma wf_grant_entry p gs i e :
  wf p -> is_running p = true -> grant_pointers p = Some gs -> gs !! i = Some e ->
  grant_ptr e <> 0 ->
  kernel_memory_break p <= grant_addr e <= memory_start p + memory_len p.
Proof using.
  intros Hwf Hr Hg He Hn. destruct (wf_active p Hwf Hr) as (_ & _ & gs' & Hg' & Hall).
  rewrite Hg in Hg'. simplify_eq. by destruct (Forall_lookup_1 _ _ _ _ Hall He).
Qed.

Lemma enter_grant_wf num p r p' :
  wf p -> grant_is_allocated num p = Some true -> enter_grant num p = (r, p') ->
  wf p' /\ (p' = p \/ exists gs, p' = set_grant_pointers (Some gs) p).
Proof using.
  intros Hwf Hal. unfold grant_is_allocated in Hal. unfold enter_grant.
  destruct (is_running p) eqn:Hr; [|done]. cbn [negb] in *.
  destruct (grant_pointers p) as [gs|] eqn:Hg; [|done].
  destruct (gs !! num) as [e|] eqn:He; [|done]. cbn in Hal.
  assert (Hn : grant_ptr e <> 0).
  { unfold is_null in Hal. destruct (Z.eqb_spec (grant_ptr e) 0); done. }
  destruct (_ =? 1); intros ?; simplify_eq; [by split; [|left]|].
  split; [|right; by eexists].
  apply (wf_set_grant num e _ (mkGrantEntry (ge_driver_num e) (Z.lor (grant_ptr e) 1)) gs);
    try done.
  right. rewrite grant_addr_enter. by apply (wf_grant_entry p gs num e).
Qed.

Lemma leave_grant_wf num p :
  wf p -> wf (leave_grant num p) /\
  (leave_grant num p = p \/ exists gs, leave_grant num p = set_grant_pointers (Some gs) p).
Proof using.
  intros Hwf. unfold leave_grant. destruct (is_running p) eqn:Hr; cbn [negb]; [|by split; [|left]].
  destruct (grant_pointers p) as [gs|] eqn:Hg; [|by split; [|left]].
  destruct (gs !! num) as [e|] eqn:He; [|by split; [|left]].
  split; [|right; by eexists].
  apply (wf_set_grant num e _ (mkGrantEntry (ge_driver_num e) (Z.land (grant_ptr e) (U32 - 2))) gs);
    try done.
  destruct (decide (grant_ptr e = 0)) as [->|Hn]; [by left|right].
  rewrite grant_addr_leave. by apply (wf_grant_entry p gs num e).
Qed.

(** * Everything the kernel does to a process *)

Record world := mkWorld { proc : process stored config; mpu_hw : hw; kern : Kernel }.

Inductive step : world -> world -> Prop :=
  | step_enqueue t p p' h k r :
      enqueue_task t p = Ret (r, p') -> step (mkWorld p h k) (mkWorld p' h k)
  | step_dequeue p p' h k r :
      dequeue_task p = Ret (r, p') -> step (mkWorld p h k) (mkWorld p' h k)
  | step_remove_upcall id p p' h k r :
      remove_upcall id p = Ret (r, p') -> step (mkWorld p h k) (mkWorld p' h k)
  | step_remove_pending id p p' h k :
      remove_pending_upcalls id p = Ret p' -> step (mkWorld p h k) (mkWorld p' h k)
  | step_yield p h k : step (mkWorld p h k) (mkWorld (set_yielded_state p) h k)
  | step_yield_for id p h k : step (mkWorld p h k) (mkWorld (set_yielded_for_state id p) h k)
  | step_stop p h k : step (mkWorld p h k) (mkWorld (stop p) h k)
  | step_resume p h k : step (mkWorld p h k) (mkWorld (resume p) h k)
  | step_terminate cc p h k : step (mkWorld p h k) (mkWorld (terminate cc p) h k)
  | step_start p p' h k k' :
      start p k = Ret (p', k') -> step (mkWorld p h k) (mkWorld p' h k')
  | step_restart cc p p' h k k' :
      try_restart cc p k = Ret (p', k') -> step (mkWorld p h k) (mkWorld p' h k')
  | step_fault p p' h k k' :
      set_fault_state p k = Ret (p', k') -> step (mkWorld p h k) (mkWorld p' h k')
  | step_debug f p p' h k :
      map_debug f p = Ret p' -> step (mkWorld p h k) (mkWorld p' h k)
  | step_setup_mpu p p' h h' k :
      setup_mpu p h = Ret (p', h') -> step (mkWorld p h k) (mkWorld p' h' k)
  | step_enable_mpu p h h' k :
      enable_app_mpu h = Ret h' -> step (mkWorld p h k) (mkWorld p h' k)
  | step_disable_mpu p h h' k :
      disable_app_mpu h = Ret h' -> step (mkWorld p h k) (mkWorld p h' k)
  | step_add_region u n m p p' h k r :
      u32_range u -> u32_range m ->
      u + n <= memory_start p \/ memory_start p + memory_len p <= u ->
      add_mpu_region u n m p = Ret (r, p') -> step (mkWorld p h k) (mkWorld p' h k)
  | step_remove_region reg p p' h k r :
      remove_mpu_region reg p = Ret (r, p') -> step (mkWorld p h k) (mkWorld p' h k)
  | step_brk nb p p' h h' k r :
      brk nb p h = Ret (r, p', h') -> step (mkWorld p h k) (mkWorld p' h' k)
  | step_sbrk inc p p' h h' k r :
      sbrk inc p h = Ret (r, p', h') -> step (mkWorld p h k) (mkWorld p' h' k)
  | step_allow_rw a n p p' h k r :
      u32_range a -> u32_range n ->
      build_readwrite_process_buffer a n p = (r, p') -> step (mkWorld p h k) (mkWorld p' h k)
  | step_allow_ro a n p p' h k r :
      u32_range a -> u32_range n ->
      build_readonly_process_buffer a n p = Ret (r, p') ->
      step (mkWorld p h k) (mkWorld p' h k)
  | step_allocate_grant num d size align p p' h k k' r :
      layout_request size align ->
      allocate_grant num d size align p k = Ret (r, p', k') ->
      step (mkWorld p h k) (mkWorld p' h k')
  | step_allocate_custom size align p p' h k r :
      layout_request size align ->
      allocate_custom_grant size align p = Ret (r, p') -> step (mkWorld p h k) (mkWorld p' h k)
  | step_enter_grant num p p' h k r :
      grant_is_allocated num p = Some true ->
      enter_grant num p = (r, p') -> step (mkWorld p h k) (mkWorld p' h k)
  | step_leave_grant num p h k : step (mkWorld p h k) (mkWorld (leave_grant num p) h k)
  | step_return_value rv p p' h k k' :
      is_running p = true -> set_syscall_return_value rv p k = Ret (p', k') ->
      step (mkWorld p h k) (mkWorld p' h k')
  | step_function f p p' h k k' :
      is_running p = true -> set_process_function f p k = Ret (p', k') ->
      step (mkWorld p h k) (mkWorld p' h k')
  | step_switch p p' h k r :
      switch_to p = Ret (r, p') -> step (mkWorld p h k) (mkWorld p' h k).

Definition wwf (w : world) : Prop := wf (proc w) /\ room (kern w) (proc w).

Lemma evolves_frame p p' :
  process_id p' = process_id p -> memory_start p' = memory_start p ->
  memory_len p' = memory_len p -> is_running p' = is_running p ->
  allow_high_water_mark p <= allow_high_water_mark p' ->
  (is_running p = true -> kernel_memory_break p' <= kernel_memory_break p) -> evolves p p'.
Proof using.
  intros E1 E2 E3 E4 E5 E6. unfold evolves. rewrite E4. split_and!; try done.
  intros Hr. split_and!; auto.
Qed.

Lemma brk_evolves nb p h r p' h' :
  wf p -> brk nb p h = Ret (r, p', h') -> wf p' /\ evolves p p'.
Proof using.
  intros Hwf Hop. apply brk_spec in Hop as [? Hr]; [|done]. split; [done|].
  destruct r as [old|e]; [|destruct Hr as [-> _]; apply evolves_refl].
  destruct Hr as (_ & _ & _ & _ & c & ->). apply evolves_frame; done || (cbn; lia).
Qed.

Lemma sbrk_evolves inc p h r p' h' :
  wf p -> sbrk inc p h = Ret (r, p', h') -> wf p' /\ evolves p p'.
Proof using.
  intros Hwf. unfold sbrk. destruct (is_running p); cbn [negb]; [by apply brk_evolves|].
  intros H. inv_ret. split; [done|apply evolves_refl].
Qed.

(** Sharing a buffer only raises the high-water mark. *)
Lemma shared_evolves p p' :
  same_memory (set_allow_high_water_mark (allow_high_water_mark p') p) p' -> state p' = state p ->
  allow_high_water_mark p <= allow_high_water_mark p' -> evolves p p'.
Proof using.
  intros Hs Hst Hle. destruct Hs as (E1 & E2 & _ & _ & _ & E6 & _ & _ & _ & Ep & _).
  apply evolves_frame; cbn in *; try done; [by apply is_running_state|lia].
Qed.

(** Yielding, stopping and resuming do not change whether a process is active. *)
Lemma state_operations_keep p q :
  q = set_yielded_state p \/ (exists id, q = set_yielded_for_state id p) \/
  q = stop p \/ q = resume p -> same_memory p q /\ is_running q = is_running p.
Proof using.
  intros [-> | [[id ->] | [-> | ->] ] ].
  - unfold set_yielded_state. case_bool_decide as E; split; try (repeat split); try done.
    unfold is_running. by rewrite E.
  - unfold set_yielded_for_state. case_bool_decide as E; split; try (repeat split); try done.
    unfold is_running. by rewrite E.
  - unfold stop, is_running. destruct (state p) eqn:E; cbn; rewrite ?E; repeat split; done.
  - unfold resume, is_running. destruct (state p) as [| | |[]| |] eqn:E; cbn; rewrite ?E;
      repeat split; done.
Qed.

Lemma terminate_evolves cc p : wf p -> wf (terminate cc p) /\ evolves p (terminate cc p).
Proof using.
  intros Hwf. destruct (terminate_wf cc p Hwf) as [? Hr]. split; [done|].
  unfold evolves. rewrite Hr.
  destruct (wf_queue p Hwf) as (ts & Ht & Hu). destruct (wf_grants_some p Hwf) as [gs Hg].
  destruct (decide (state p = Terminated)) as [E|E];
    [rewrite terminate_terminated by done|rewrite (terminate_spec cc p ts gs) by done];
    repeat split; done.
Qed.

Lemma step_wf p h k p' h' k' :
  wf p -> room k p -> step (mkWorld p h k) (mkWorld p' h' k') ->
  wf p' /\ keeps k p k' p'.
Proof using Happ.
  intros Hwf Hroom Hstep.
  assert (Hsame : forall q, same_memory p q -> is_running q = is_running p -> keeps k p k q)
    by (intros q Hs E; apply keeps_same; [done|congruence]).
  assert (Hev : forall q, evolves p q -> keeps k p k q) by (intros; by apply keeps_evolves).
  inversion Hstep; subst; clear Hstep;
    try match goal with
    | H : _ = Ret _ |- _ => rename H into Hop
    | H : _ = (_, _) |- _ => rename H into Hop
    end.
  - apply enqueue_task_spec in Hop as (? & ? & ? & _); [|done].
    split; [done|]. apply Hsame; [done|by apply is_running_state].
  - destruct (dequeue_task_spec p Hwf) as (ts & ts' & _ & _ & _ & E & ?). rewrite E in Hop.
    inv_ret. split; [done|]. apply Hsame; [repeat split|done].
  - destruct (remove_upcall_spec id p Hwf) as (ts & ts' & _ & _ & _ & E & ?). rewrite E in Hop.
    inv_ret. split; [done|]. apply Hsame; [repeat split|done].
  - destruct (remove_pending_upcalls_spec id p Hwf) as (ts & ts' & _ & _ & _ & E & ?).
    rewrite E in Hop. inv_ret. split; [done|]. apply Hsame; [repeat split|done].
  - split; [by apply set_yielded_state_wf|]. apply Hsame; apply state_operations_keep; by left.
  - split; [by apply set_yielded_for_state_wf|]. apply Hsame; apply state_operations_keep;
      right; left; by exists id.
  - split; [by apply stop_wf|]. apply Hsame; apply state_operations_keep; by do 2 right; left.
  - split; [by apply resume_wf|]. apply Hsame; apply state_operations_keep; by do 3 right.
  - destruct (terminate_evolves cc p Hwf). by auto.
  - by apply start_wf in Hop.
  - by apply try_restart_wf in Hop.
  - by apply set_fault_state_wf in Hop.
  - pose proof (wf_map_debug _ _ _ Hwf Hop). apply map_debug_frame in Hop as (? & ? & _).
    split; [done|]. apply Hsame; [done|by apply is_running_state].
  - apply setup_mpu_wf in Hop as [? [c ->] ]; [|done]. split; [done|].
    apply Hev, evolves_frame; done || lia.
  - split; [done|apply keeps_refl].
  - split; [done|apply keeps_refl].
  - apply add_mpu_region_wf in Hop as [? (c & l & ->)]; [|done..]. split; [done|].
    apply Hev, evolves_frame; done || (cbn; lia).
  - apply remove_mpu_region_wf in Hop as [? (c & l & ->)]; [|done..]. split; [done|].
    apply Hev, evolves_frame; done || (cbn; lia).
  - destruct (brk_evolves _ _ _ _ _ _ Hwf Hop). by auto.
  - destruct (sbrk_evolves _ _ _ _ _ _ Hwf Hop). by auto.
  - apply build_readwrite_spec in Hop as (? & Hs & Hst & Hle & _); [|done..].
    split; [done|]. by apply Hev, shared_evolves.
  - apply build_readonly_spec in Hop as (? & Hs & Hst & Hle & _); [|done..].
    split; [done|]. by apply Hev, shared_evolves.
  - by apply allocate_grant_spec in Hop as (? & ? & _).
  - pose proof Hop as Hop'. apply allocate_custom_grant_spec in Hop' as [? Hr]; [|done..].
    split; [done|]. apply Hev. destruct r as [ [ident ptr]|e]; [|subst; apply evolves_refl].
    destruct Hr as (Hrun & _ & Hkb & _ & (c & ->) & _).
    apply evolves_frame; try done. cbn. intros _.
    match goal with H : layout_request _ _ |- _ => destruct H as [? _] end. lia.
  - destruct (enter_grant_wf num p r p') as [? [->|[gs ->] ] ]; [done..| |];
      (split; [done|]; apply Hev, evolves_frame; done || (cbn; lia)).
  - destruct (leave_grant_wf num p Hwf) as [Hl [E|[gs E] ] ];
      (split; [done|]; rewrite E; apply Hev, evolves_frame; done || (cbn; lia)).
  - by apply set_syscall_return_value_wf in Hop.
  - by apply set_process_function_wf in Hop.
  - apply switch_to_wf in Hop as (? & ? & ?); [|done]. split; [done|].
    apply Hsame; [done|by apply is_running_state].
Qed.

Lemma step_wwf w w' :
  wwf w -> step w w' -> wwf w' /\ keeps (kern w) (proc w) (kern w') (proc w').
Proof using Happ.
  destruct w as [p h k], w' as [p' h' k']. intros [Hwf Hroom] Hstep.
  destruct (step_wf p h k p' h' k' Hwf Hroom Hstep) as [Hwf' Hk].
  split; [|done]. split; [done|]. by eapply room_keeps.
Qed.

Lemma steps_wwf w w' : wwf w -> rtc step w w' -> wwf w'.
Proof using Happ.
  intros Hw Hs. induction Hs as [|w1 w2 w3 H12 _ IH]; [done|].
  apply IH. by apply (step_wwf w1).
Qed.

(** * Creation *)

Context (Hcb : 0 <= CALLBACKS_OFFSET) (Hps : 0 <= PROCESS_STRUCT_OFFSET).

Abbreviation create := (create CALLBACKS_OFFSET PROCESS_STRUCT_OFFSET).
Abbreviation create_kernel_memory_size :=
  (create_kernel_memory_size CALLBACKS_OFFSET PROCESS_STRUCT_OFFSET).

Lemma create_kernel_memory_size_Ret k n :
  create_kernel_memory_size k = Ret n ->
  u32_range n /\ n = grant_counter k * GRANT_ENTRY_SIZE + CALLBACKS_OFFSET +
    PROCESS_STRUCT_OFFSET + WORD /\
  reset_kernel_memory_size CALLBACKS_OFFSET PROCESS_STRUCT_OFFSET k = Ret (n - WORD) /\
  u32_range (grant_counter k * GRANT_ENTRY_SIZE).
Proof using.
  unfold Proc.create_kernel_memory_size, reset_kernel_memory_size. intros H. inv_ret.
  split; [done|]. split; [done|]. split; [|done]. unfold mul32. rewrite checked32_ok by done.
  cbn [obind]. unfold add32. rewrite checked32_ok by done. cbn [obind].
  rewrite checked32_ok by done. f_equal. unfold WORD. lia.
Qed.

Lemma initial_kernel_break_spec top gp n :
  u32_range top -> 0 <= gp -> n = gp + CALLBACKS_OFFSET + PROCESS_STRUCT_OFFSET + WORD ->
  n <= top ->
  top - n <= initial_kernel_break CALLBACKS_OFFSET PROCESS_STRUCT_OFFSET top gp <= top /\
  initial_kernel_break CALLBACKS_OFFSET PROCESS_STRUCT_OFFSET top gp + gp + CALLBACKS_OFFSET
    + PROCESS_STRUCT_OFFSET <= top.
Proof using Hcb Hps.
  intros Ht Hgp -> Hle. unfold initial_kernel_break, wrapping_sub32, WORD in *.
  pose proof (Z.mod_pos_bound top 4 ltac:(lia)). unfold u32_range in *.
  rewrite (wrap32_small (top - top mod 4)) by (unfold u32_range; lia).
  rewrite (wrap32_small (_ - gp)) by (unfold u32_range; lia).
  rewrite (wrap32_small (_ - CALLBACKS_OFFSET)) by (unfold u32_range; lia).
  rewrite (wrap32_small (_ - PROCESS_STRUCT_OFFSET)) by (unfold u32_range; lia). lia.
Qed.

Lemma skip_to_fixed_Ok fixed ptr len ptr' len' :
  0 <= ptr -> 0 <= len ->
  skip_to_fixed_address fixed (ptr, len) = Ret (Ok (ptr', len')) ->
  ptr <= ptr' /\ 0 <= len' /\ ptr' + len' = ptr + len.
Proof using.
  intros H1 H2. unfold skip_to_fixed_address. destruct fixed as [f|]; intros H.
  - destruct (_ =? _); [inv_ret; lia|].
    destruct (Z.ltb_spec ptr f); [|inv_ret]. apply obind_Ret in H as (d & Hd & H).
    apply checked32_Ret in Hd as [-> Hd].
    destruct (Z.ltb_spec len (f - ptr)); [inv_ret; done|]. inv_ret. unfold u32_range in *. lia.
  - inv_ret. lia.
Qed.

Lemma split_mem_Ret ptr len n a b :
  split_mem (ptr, len) n = Ret (a, b) -> n <= len /\ a = (ptr, n) /\ b = (ptr + n, len - n).
Proof using.
  unfold split_mem. destruct (Z.leb_spec n len); intros H0; inv_ret. done.
Qed.

(** What a successful [create] establishes, the layout of the block included. *)
Record created (pb : ProcessBinary) (ptr len : Z) (k : Kernel) (rest : Z * Z)
    (p : process stored config) : Prop := mkCreated {
  cr_start : ptr <= memory_start p;
  cr_rest : fst rest = memory_start p + memory_len p;
  cr_rest_len : fst rest + snd rest = ptr + len;
  cr_len : 0 <= memory_len p;
  cr_rest_room : 0 <= snd rest;
  cr_room : forall n, create_kernel_memory_size k = Ret n ->
    Z.max (Tbf.get_minimum_app_ram_size (pb_header pb)) initial_process_app_brk_size + n
      <= memory_len p;
  cr_structs : kernel_memory_break p + grant_counter k * GRANT_ENTRY_SIZE + CALLBACKS_OFFSET
    + PROCESS_STRUCT_OFFSET <= memory_start p + memory_len p;
  cr_fixed : forall a, Tbf.get_fixed_address_ram (pb_header pb) = Some a -> memory_start p = a;
  cr_state : state p = Yielded;
  cr_tasks : exists ts t, tasks p = Some ts /\ init_task p = Ret t /\ contents ts = [t];
}.

(** The identity of a created process: a fresh identifier, its place and its binary. *)
Record identifies (pb : ProcessBinary) (idx : Z) (k k' : Kernel) (p : process stored config)
    : Prop := mkIdentifies {
  id_identifier : process_id p = mkProcessId (process_identifier_max k) idx;
  id_fresh : process_identifier_max k' = process_identifier_max k + 1;
  id_grants : grant_counter k' = grant_counter k;
  id_flash : flash_ptr p = pb_flash_ptr pb;
  id_flash_len : flash_len p = pb_flash_len pb;
  id_header : header p = pb_header pb;
}.

(** The first task of a new queue. *)
Lemma first_task_queued (uninit : list Task) t ok ts :
  length uninit = CALLBACK_LEN -> enqueue (new uninit) t = Ret (ok, ts) ->
  usable (new uninit) /\ usable ts /\ contents ts = [t].
Proof using.
  intros Hun Henq.
  assert (Hu0 : usable (new uninit))
    by (apply usable_new; rewrite Hun; unfold CALLBACK_LEN; lia).
  destruct (usable_enqueue (new uninit) t Hu0) as (ok' & ts' & E & Hu & _ & Hc).
  rewrite Henq in E. injection E as <- <-. rewrite new_contents in Hc.
  split; [done|]. split; [done|]. destruct ok; [done|].
  destruct Hc as [_ Hc]. simpl in Hc. rewrite Hun in Hc. done.
Qed.

(** The block of a created process; the process is well formed when the block has
    room for the initial memory at the granularity of the MPU. *)
Lemma create_block uninit pb ptr len idx k h p rest k' h' :
  length uninit = CALLBACK_LEN -> 0 <= ptr -> 0 <= len -> ptr + len < U32 ->
  u32_range (pb_flash_ptr pb) -> u32_range (pb_flash_len pb) ->
  0 <= Tbf.get_minimum_app_ram_size (pb_header pb) ->
  create uninit pb (ptr, len) idx k h = Ret (Ok (p, rest), k', h') ->
  created pb ptr len k rest p /\ identifies pb idx k k' p /\
  ((forall n, create_kernel_memory_size k = Ret n ->
     layout_ok initial_process_app_brk_size n (memory_len p)) -> wf p /\ room k' p).
Proof using Happ Hcb Hps.
  intros Hun Hp Hl Hpl Hfp Hfl Hram H. unfold Proc.create in H.
  destruct (new_config h) as [[c|] h1] eqn:Hnc; [|inv_ret; done].
  apply new_config_valid in Hnc.
  apply obind_Ret in H as ([rf c1] & Hf & H).
  apply allocate_region_valid in Hf; [|done..].
  destruct rf as [rf|]; [|inv_ret; done]. cbn [get_grant_count_and_finalize] in H.
  apply obind_Ret in H as (gp & Hgp & H). apply checked32_Ret in Hgp as [-> Hgp].
  apply obind_Ret in H as (kern & Hkern & H).
  change (create_kernel_memory_size k = Ret kern) in Hkern.
  pose proof Hkern as Hkern'.
  apply create_kernel_memory_size_Ret in Hkern as (Hkr & Hke & Hreset & _).
  apply obind_Ret in H as (tot & Htot & H). apply checked32_Ret in Htot as [-> Htot].
  apply obind_Ret in H as (m & Hskip & H). destruct m as [ [ptr1 len1]|e]; [|inv_ret; done].
  pose proof (skip_to_fixed_Ok _ _ _ _ _ Hp Hl Hskip) as (Hp1 & Hl1 & Hpl1).
  apply obind_Ret in H as ([am c2] & Ham & H). cbn [fst snd] in *.
  destruct am as [ [ms ml]|]; [|inv_ret; done].
  apply allocate_app_ok in Ham as (Hlo & Hhi & Hmin & Hsum & Hman & Hexp);
    [|done|unfold u32_range; lia|done|done|unfold u32_range in *; lia].
  apply obind_Ret in H as (off & Hoff & H). apply checked32_Ret in Hoff as [-> Hoff].
  apply obind_Ret in H as (mis & Hmis & H). destruct mis as [e|]; [inv_ret; done|].
  apply obind_Ret in H as (cut & Hcut & H). apply checked32_Ret in Hcut as [-> Hcut].
  apply obind_Ret in H as ([apm unused] & Hs1 & H).
  apply split_mem_Ret in Hs1 as (_ & -> & ->).
  apply obind_Ret in H as ([pad alm] & Hs2 & H).
  apply split_mem_Ret in Hs2 as (_ & -> & ->).
  apply obind_Ret in H as ([aam akm] & Hs3 & H).
  apply split_mem_Ret in Hs3 as (Hfit & -> & ->). cbn [fst snd] in *.
  replace (ptr1 + (ms - ptr1)) with ms in * by lia.
  replace (ms - ptr1 + ml - (ms - ptr1)) with ml in * by lia.
  replace (ms + initial_process_app_brk_size + (ml - initial_process_app_brk_size))
    with (ms + ml) in * by lia.
  apply obind_Ret in H as ([uid k2] & Hid & H).
  apply create_process_identifier_Ret in Hid as (-> & Hfresh & Hgc). cbn in Hfresh, Hgc.
  destruct (ukb_initialize_process _ _ _) as [ [[]|[]] st]; [|inv_ret; done].
  apply obind_Ret in H as (t & Hinit & H).
  apply obind_Ret in H as (ts & Hts & H). apply obind_Ret in Hts as ([ok ts1] & Henq & Hts).
  match type of Hinit with init_task ?q = _ => set (p0 := q) in * end.
  injection Hts as <-. injection H as <- <- <- <-.
  destruct (first_task_queued uninit t ok ts1 Hun Henq) as (Hu0 & Hu & Hcts).
  pose proof (initial_kernel_break_spec (ms + ml) (grant_counter k * GRANT_ENTRY_SIZE) kern)
    as Hkb. unfold u32_range in *.
  destruct Hkb as [Hkb1 Hkb2]; [unfold u32_range; lia|lia|done|lia|].
  split; [|split; [by split|intros Hlay]].
  { split; cbn; try done; try lia.
    + intros n Hn. rewrite Hkern' in Hn. simplify_eq. lia.
    + intros a Ha. rewrite Ha in Hmis. inv_ret. destruct (Z.eqb_spec (ptr1 + (ms - ptr1)) a); [lia|done].
    + by exists ts1, t. }
  specialize (Hlay kern Hkern'). cbn [memory_len set_tasks p0] in Hlay.
  specialize (Hexp Hlay) as [Hx1 Hx2].
  assert (Hwf0 : wf p0).
  { apply (activate_wf p0 c2 (new uninit) (replicate (Z.to_nat (grant_counter k)) (mkGrantEntry 0 0))
      kern); unfold p0; cbn; try done; try lia.
    - by apply Forall_replicate.
    - intros r0 Hr0. change (Some r0 ∈ replicate 6 None) in Hr0.
      by apply elem_of_replicate_inv in Hr0. }
  split.
  - apply (wf_frame p0); [done|repeat split|done|]. exists (new uninit), ts1. by split_and!.
  - exists (kern - WORD). cbn. rewrite (reset_kernel_memory_size_grants k) by done.
    split; [done|]. eapply layout_ok_mono; [done|]. unfold WORD. lia.
Qed.

Lemma create_spec uninit pb ptr len idx k h p rest k' h' :
  length uninit = CALLBACK_LEN -> 0 <= ptr -> 0 <= len -> ptr + len < U32 ->
  u32_range (pb_flash_ptr pb) -> u32_range (pb_flash_len pb) ->
  0 <= Tbf.get_minimum_app_ram_size (pb_header pb) ->
  (forall n, create_kernel_memory_size k = Ret n ->
     layout_ok initial_process_app_brk_size n (memory_len p)) ->
  create uninit pb (ptr, len) idx k h = Ret (Ok (p, rest), k', h') ->
  wf p /\ room k' p /\ created pb ptr len k rest p.
Proof using Happ Hcb Hps.
  intros Hun Hp Hl Hpl Hfp Hfl Hram Hlay H.
  destruct (create_block _ _ _ _ _ _ _ _ _ _ _ Hun Hp Hl Hpl Hfp Hfl Hram H) as (Hc & _ & Hw).
  destruct (Hw Hlay). by split_and!.
Qed.

(** A failed [create] returns a part of the memory that it was given. *)
Lemma create_failed uninit pb ptr len idx k h e ptr' len' k' h' :
  0 <= ptr -> 0 <= len -> ptr + len < U32 -> u32_range (pb_flash_ptr pb) ->
  u32_range (pb_flash_len pb) -> 0 <= Tbf.get_minimum_app_ram_size (pb_header pb) ->
  create uninit pb (ptr, len) idx k h = Ret (Err (e, (ptr', len')), k', h') ->
  ptr <= ptr' /\ 0 <= len' /\ ptr' + len' = ptr + len /\
  process_identifier_max k <= process_identifier_max k' /\ grant_counter k' = grant_counter k.
Proof using iso Happ Hcb Hps.
  intros Hp Hl Hpl Hfp Hfl Hram H. unfold Proc.create in H.
  destruct (new_config h) as [[c|] h1] eqn:Hnc; [|inv_ret; lia].
  apply new_config_valid in Hnc.
  apply obind_Ret in H as ([rf c1] & Hf & H).
  apply allocate_region_valid in Hf; [|done..].
  destruct rf as [rf|]; [|inv_ret; lia]. cbn [get_grant_count_and_finalize] in H.
  apply obind_Ret in H as (gp & Hgp & H). apply obind_Ret in H as (kern & Hkern & H).
  change (create_kernel_memory_size k = Ret kern) in Hkern.
  apply create_kernel_memory_size_Ret in Hkern as (Hkr & Hke & Hreset & _).
  apply obind_Ret in H as (tot & Htot & H). apply checked32_Ret in Htot as [-> Htot].
  apply obind_Ret in H as (m & Hskip & H).
  destruct m as [ [ptr1 len1]|e1]; [|injection H as <- <- <- <- <-; cbn; lia].
  pose proof (skip_to_fixed_Ok _ _ _ _ _ Hp Hl Hskip) as (Hp1 & Hl1 & Hpl1).
  apply obind_Ret in H as ([am c2] & Ham & H). cbn [fst snd] in *.
  destruct am as [ [ms ml]|]; [|injection H as <- <- <- <- <-; cbn; lia].
  apply allocate_app_ok in Ham as (Hlo & Hhi & Hmin & Hsum & Hman & Hexp);
    [|done|unfold u32_range; lia|done|done|unfold u32_range in *; lia].
  apply obind_Ret in H as (off & Hoff & H). apply checked32_Ret in Hoff as [-> Hoff].
  apply obind_Ret in H as (mis & Hmis & H).
  destruct mis as [e1|]; [injection H as <- <- <- <- <-; cbn; lia|].
  apply obind_Ret in H as (cut & Hcut & H). apply checked32_Ret in Hcut as [-> Hcut].
  apply obind_Ret in H as ([apm unused] & Hs1 & H).
  apply split_mem_Ret in Hs1 as (Hcut' & -> & ->).
  apply obind_Ret in H as ([pad alm] & Hs2 & H).
  apply split_mem_Ret in Hs2 as (_ & -> & ->).
  apply obind_Ret in H as ([aam akm] & Hs3 & H).
  apply split_mem_Ret in Hs3 as (Hfit & -> & ->). cbn [fst snd] in *.
  apply obind_Ret in H as ([uid k2] & Hid & H).
  apply create_process_identifier_Ret in Hid as (-> & Hfresh & Hgc). cbn in Hfresh, Hgc.
  destruct (ukb_initialize_process _ _ _) as [ [[]|[]] st].
  - apply obind_Ret in H as (t & _ & H). apply obind_Ret in H as (ts & _ & H). done.
  - injection H as <- <- <- <- <-. unfold u32_range in *. lia.
Qed.

End inv.
End ProcInv.
