(* ===== verification/ProcessSpec.v ===== *)
(** What a process guarantees ([kernel/src/process_standard.rs]), as theorems
    about [Process] that rest on the invariant of [ProcessInv]: memory isolation
    over every sequence of kernel operations, the contracts of [brk], [allow]
    buffers, grants, upcalls and restarts.  The theorems hold for every driver
    that satisfies [Mpu.MpuIsolation]; the witnesses run them on the Cortex-M
    driver. *)

From stdpp Require Import base numbers list relations.
From S2P Require Import Prelude RingBuffer Mpu CortexMpu Syscall Tbf ProcessBinary Process ProcessInv.
Import Ring Mpu Syscall Pb Proc ProcInv.
Local Open Scope Z_scope.

Module ProcSpec.

(** * Runs of one incarnation of a process *)

Section runs.
  Context {hw config stored : Type} {mpu : MPU hw config} {iso : MpuIsolation hw config}.
  Context {ukb : UKB stored}.
  Context (CALLBACKS_OFFSET PROCESS_STRUCT_OFFSET : Z).
  Context (fault_action : process stored config -> FaultAction).
  Context (Happ : 0 <= initial_process_app_brk_size).

Abbreviation step := (ProcInv.step CALLBACKS_OFFSET PROCESS_STRUCT_OFFSET fault_action).
Abbreviation wwf := (ProcInv.wwf CALLBACKS_OFFSET PROCESS_STRUCT_OFFSET).

Lemma evolves_trans (p q r : process stored config) :
  evolves p q -> evolves q r -> evolves p r.
Proof using.
  intros (A1 & A2 & A3 & A4) (B1 & B2 & B3 & B4). unfold evolves.
  split_and!; [congruence..|]. intros Hr. destruct (B4 Hr) as (Hq & ? & ?).
  destruct (A4 Hq) as (? & ? & ?). split_and!; [done|lia..].
Qed.

(** A run either keeps the incarnation or ends in one whose identifier was
    issued after the run began. *)
Lemma run_evolves w w' :
  wwf w -> rtc step w w' ->
  wwf w' /\ process_identifier_max (kern w) <= process_identifier_max (kern w') /\
  (evolves (proc w) (proc w') \/
   process_identifier_max (kern w) <= identifier (process_id (proc w'))).
Proof using Happ.
  intros Hw Hs. induction Hs as [w|w1 w2 w3 H12 _ IH].
  { split; [done|]. split; [lia|]. left. apply evolves_refl. }
  destruct (step_wwf _ _ _ Happ w1 w2 Hw H12) as [Hw2 (_ & _ & _ & Hle & Hev)].
  destruct (IH Hw2) as (Hw3 & Hle3 & Hev3). split; [done|]. split; [lia|].
  destruct Hev as [Hev|Hfr], Hev3 as [Hev3|Hfr3].
  - left. by eapply evolves_trans.
  - right. lia.
  - right. destruct Hev3 as (E & _). by rewrite E.
  - right. lia.
Qed.

Lemma same_incarnation w w' :
  wwf w -> identifier (process_id (proc w)) < process_identifier_max (kern w) ->
  rtc step w w' -> process_id (proc w') = process_id (proc w) ->
  wwf w' /\ evolves (proc w) (proc w').
Proof using Happ.
  intros Hw Hid Hs E. destruct (run_evolves w w' Hw Hs) as (Hw' & _ & [Hev|Hfr]); [done|].
  rewrite E in Hfr. lia.
Qed.

End runs.

(** * A concrete system for the witnesses

    The Cortex-M driver with eight regions, and a context switch that always
    succeeds. *)
#[export] Instance demo_ukb : UKB unit := {|
  stored_default := tt;
  initial_process_app_brk_size := 32;
  ukb_initialize_process := fun _ _ s => (Ok tt, s);
  ukb_set_syscall_return_value := fun _ _ s _ => (Ok tt, s);
  ukb_set_process_function := fun _ _ s _ => (Ok tt, s);
  ukb_switch_to_process := fun _ _ s => (Interrupted, None, s);
|}.

#[export] Instance demo_mpu : MPU CortexM.Mpu CortexM.CortexMConfig := CortexM.cortexm_mpu 8 32.
Lemma demo_regions : (2 <= 8 <= 16)%nat.
Proof. lia. Qed.
Lemma demo_min : 32 <= 32 < U32.
Proof. split; [lia|reflexivity]. Qed.
#[export] Instance demo_iso : MpuIsolation CortexM.Mpu CortexM.CortexMConfig :=
  CortexM.cortexm_isolation 8 32 demo_regions demo_min eq_refl.

Definition demo_fault : process unit CortexM.CortexMConfig -> FaultAction := fun _ => FRestart.
Definition demo_kernel : Kernel := mkKernel 0 5 false.
Definition demo_hw : CortexM.Mpu := CortexM.mkMpu 1 None 0 (replicate 8 (0, 0)) 0.
(** A header of 64 bytes with a main entry: a trailer of 64 bytes is protected
    too, and the process asks for 4096 bytes of memory. *)
Definition demo_header (regions : option (list Z)) : Tbf.TbfHeader :=
  Tbf.HeaderV2 (Tbf.mkHeaderV2 (Tbf.mkBase 2 64 16384 1 0) (Some (Tbf.mkMain 0 64 4096)) None
    (Some []) regions None None None None None).
Definition demo_pb : ProcessBinary :=
  mkProcessBinary 262144 (replicate (Z.to_nat 16384) 0) [] (demo_header None) None.
Definition demo_task : Task := TFunctionCall (mkFunctionCall SKernel 0 0 0 0 0).
Definition demo_create :=
  create 280 400 (replicate 10 demo_task) demo_pb (536887296, 65536) 0 demo_kernel demo_hw.

(** Hypotheses of [create] on the inputs: the memory offered and the flash are
    inside the address space, and the upcall buffer has its ten slots. *)
Record create_inputs {hw config stored : Type} {mpu : MPU hw config}
    {iso : MpuIsolation hw config} {ukb : UKB stored} (CB PS : Z) (uninit : list Task)
    (pb : ProcessBinary) (ptr len : Z) : Prop := mkInputs {
  in_app : 0 <= initial_process_app_brk_size;
  in_cb : 0 <= CB;
  in_ps : 0 <= PS;
  in_uninit : length uninit = CALLBACK_LEN;
  in_ptr : 0 <= ptr;
  in_len : 0 <= len;
  in_end : ptr + len < U32;
  in_flash : u32_range (pb_flash_ptr pb);
  in_flash_len : u32_range (pb_flash_len pb);
  in_ram : 0 <= Tbf.get_minimum_app_ram_size (pb_header pb);
}.

(** The process block has room for the initial app memory below the kernel's
    structures, at the MPU's granularity. *)
Definition has_room {hw config stored : Type} {mpu : MPU hw config}
    {iso : MpuIsolation hw config} {ukb : UKB stored} (CB PS : Z) (k : Kernel)
    (p : process stored config) : Prop :=
  forall n, create_kernel_memory_size CB PS k = Ret n ->
    layout_ok initial_process_app_brk_size n (memory_len p).

Lemma demo_inputs : create_inputs 280 400 (replicate 10 demo_task) demo_pb 536887296 65536.
Proof. split; done || (split; [discriminate|reflexivity]). Qed.

Lemma demo_room p rest k h :
  demo_create = Ret (Ok (p, rest), k, h) -> has_room 280 400 demo_kernel p.
Proof.
  intros H n Hn.
  assert (Hm : match demo_create with Ret (Ok (q, _), _, _) => memory_len q | _ => 0 end = 8192)
    by (vm_compute; reflexivity).
  rewrite H in Hm. rewrite Hm. vm_compute in Hn. injection Hn as <-.
  change (CortexM.enabled_bytes 32 8192 <= 8192 - 724). vm_compute. discriminate.
Qed.

Lemma demo_wwf p rest k h :
  demo_create = Ret (Ok (p, rest), k, h) -> ProcInv.wwf 280 400 (mkWorld p h k).
Proof.
  intros H. pose proof (demo_room _ _ _ _ H) as Hr. unfold demo_create in H.
  destruct demo_inputs as [H1 H2 H3 H4 H5 H6 H7 H8 H9 H10].
  destruct (create_spec 280 400 H1 H2 H3 _ _ _ _ _ _ _ _ _ _ _ H4 H5 H6 H7 H8 H9 H10 Hr H)
    as (Hwf & Hroom & _).
  exact (conj Hwf Hroom).
Qed.

Lemma demo_created :
  exists p rest k h, demo_create = Ret (Ok (p, rest), k, h) /\ wf p /\
    room 280 400 k p /\ is_running p = true /\ state p = Yielded /\
    memory_start p + memory_len p <= 2 ^ 31 /\ 0 < memory_len p /\
    allow_high_water_mark p = memory_start p /\
    identifier (process_id p) < process_identifier_max k.
Proof.
  destruct demo_create as [ [ [ [ [p rest]|e] k] h]| |] eqn:E;
    try (exfalso; vm_compute in E; discriminate E).
  exists p, rest, k, h. destruct (demo_wwf p rest k h E) as [Hwf Hroom].
  assert (Hm : match demo_create with
      | Ret (Ok (q, _), k, _) => is_running q && bool_decide (state q = Yielded)
          && (memory_start q + memory_len q <=? 2 ^ 31)
          && (0 <? memory_len q) && (allow_high_water_mark q =? memory_start q)
          && (identifier (process_id q) <? process_identifier_max k)
      | _ => true end = true) by (vm_compute; reflexivity).
  rewrite E in Hm. rewrite !andb_true_iff, Z.leb_le, !Z.ltb_lt, Z.eqb_eq, bool_decide_eq_true in Hm.
  destruct_and!. split_and!; done.
Qed.

(** The process just created has app memory and no grant. *)
Lemma demo_fresh p rest k h :
  demo_create = Ret (Ok (p, rest), k, h) ->
  memory_start p < app_break p /\
  exists gs, grant_pointers p = Some gs /\ Forall (fun e => grant_ptr e = 0) gs.
Proof.
  intros E. assert (Hm : match demo_create with
      | Ret (Ok (q, _), k, _) => (memory_start q <? app_break q)
          && match grant_pointers q with
             | Some gs => forallb (fun e => grant_ptr e =? 0) gs
             | None => false
             end
      | _ => true end = true) by (vm_compute; reflexivity).
  rewrite E in Hm. apply andb_true_iff in Hm as [H1%Z.ltb_lt H2].
  split; [exact H1|]. destruct (grant_pointers p) as [gs|]; [|discriminate H2].
  exists gs. split; [reflexivity|]. apply Forall_forall. intros e He.
  rewrite forallb_forall in H2. apply Z.eqb_eq, H2. by apply list_elem_of_In.
Qed.

(** * Memory isolation *)

(** C3: from the creation of a process on, whatever sequence of operations the
    kernel performs on it, while the process is active its memory is laid out as
    start <= allowed buffers <= app break <= kernel break <= end, its MPU
    configuration exposes all of the app memory and no byte of the kernel-owned
    memory, and every grant lies in the kernel-owned memory; while it is
    inactive it has no pending task and no grant.  This holds for a process whose block
    has room, below the kernel's structures, for its initial app memory as the MPU
    driver rounds it ([has_room]).  The RISC-V driver rounds to words and allocates the
    block so that this always holds; the Cortex-M driver rounds to eighths of a region
    and does not ensure it, and where it fails the first kernel-owned byte is exposed
    ([CortexMSystem.allocate_app_memory_region_overlap]). *)
Theorem process_isolation {hw config stored} {mpu : MPU hw config}
    {iso : MpuIsolation hw config} {ukb : UKB stored} CB PS
    (fault_action : process stored config -> FaultAction) uninit pb ptr len idx k0 h0
    p rest k h w :
  create_inputs CB PS uninit pb ptr len -> has_room CB PS k0 p ->
  create CB PS uninit pb (ptr, len) idx k0 h0 = Ret (Ok (p, rest), k, h) ->
  rtc (step CB PS fault_action) (mkWorld p h k) w ->
  let q := proc w in
  (is_running q = true ->
     memory_start q <= allow_high_water_mark q <= app_break q /\
     app_break q <= kernel_memory_break q <= memory_start q + memory_len q /\
     (exists c, mpu_config q = Some c /\
        (forall a, memory_start q <= a < app_break q -> exposed c a) /\
        (forall a, kernel_memory_break q <= a < memory_start q + memory_len q ->
           ~ exposed c a)) /\
     (exists gs, grant_pointers q = Some gs /\
        Forall (fun e => grant_ptr e = 0 \/
          kernel_memory_break q <= grant_addr e <= memory_start q + memory_len q) gs)) /\
  (is_running q = false -> clean q).
Proof.
  intros [H1 H2 H3 H4 H5 H6 H7 H8 H9 H10] Hroom Hcr Hs.
  destruct (create_spec CB PS H1 H2 H3 _ _ _ _ _ _ _ _ _ _ _ H4 H5 H6 H7 H8 H9 H10 Hroom Hcr)
    as (Hwf & Hrm & _).
  assert (Hw : wwf CB PS w)
    by (apply (steps_wwf CB PS fault_action H1 (mkWorld p h k)); [split|]; done).
  destruct Hw as [Hwfw _]. split.
  - intros Hr. destruct (wf_active _ Hwfw Hr) as ((Ho1 & Ho2) & (c & Hc & _ & Hx1 & Hx2) & Hg).
    split_and!; try done; try lia. by exists c.
  - apply (wf_inactive _ Hwfw).
Qed.

Lemma process_isolation_witness :
  exists p rest k h q, demo_create = Ret (Ok (p, rest), k, h) /\
    proc (mkWorld (stop (set_yielded_state p)) h k) = q /\
    (is_running q = true ->
     memory_start q <= allow_high_water_mark q <= app_break q /\
     app_break q <= kernel_memory_break q <= memory_start q + memory_len q /\
     (exists c, mpu_config q = Some c /\
        (forall a, memory_start q <= a < app_break q -> exposed c a) /\
        (forall a, kernel_memory_break q <= a < memory_start q + memory_len q ->
           ~ exposed c a)) /\
     (exists gs, grant_pointers q = Some gs /\
        Forall (fun e => grant_ptr e = 0 \/
          kernel_memory_break q <= grant_addr e <= memory_start q + memory_len q) gs)) /\
    (is_running q = false -> clean q).
Proof.
  destruct demo_created as (p & rest & k & h & E & _).
  exists p, rest, k, h, (stop (set_yielded_state p)). split; [done|]. split; [done|].
  apply (process_isolation 280 400 demo_fault (replicate 10 demo_task) demo_pb 536887296 65536 0
    demo_kernel demo_hw p rest k h (mkWorld (stop (set_yielded_state p)) h k));
    [exact demo_inputs|exact (demo_room p rest k h E)|exact E|].
  eapply rtc_l; [apply step_yield|]. eapply rtc_l; [apply step_stop|]. apply rtc_refl.
Defined.

(** * The program break *)

(** C25: [brk] on a process in the low half of the address space returns for
    every new break but the start of the block.  It refuses, changing neither
    the process nor the MPU, when the process is inactive, when the break would
    leave the block or expose less than a buffer the process has shared
    ([AddressOutOfBounds]) and when it would enter kernel-owned memory; a
    success reports the old break, moves nothing but the app break, and keeps
    the invariant. *)
Theorem brk_contract {hw config stored} {mpu : MPU hw config} {iso : MpuIsolation hw config}
    nb (p : process stored config) h :
  wf p -> memory_start p + memory_len p <= 2 ^ 31 -> nb <> memory_start p ->
  exists r p' h', brk nb p h = Ret (r, p', h') /\ wf p' /\
    match r with
    | Ok old => old = app_break p /\ is_running p = true /\
        allow_high_water_mark p <= nb <= kernel_memory_break p /\
        nb < memory_start p + memory_len p /\
        exists c, p' = set_mpu_config (Some c) (set_app_break nb p)
    | Err e => p' = p /\ h' = h /\
        (e = InactiveApp <-> is_running p = false) /\
        (is_running p = true ->
           (e = AddressOutOfBounds <->
            nb < allow_high_water_mark p \/ memory_start p + memory_len p <= nb) /\
           (kernel_memory_break p < nb < memory_start p + memory_len p -> e = OutOfMemory))
    end.
Proof.
  intros Hwf Htop Hnb.
  assert (Hret : exists r p' h', brk nb p h = Ret (r, p', h') /\
    forall e, r = Err e ->
      (e = InactiveApp <-> is_running p = false) /\
      (is_running p = true ->
        (e = AddressOutOfBounds <->
         nb < allow_high_water_mark p \/ memory_start p + memory_len p <= nb) /\
        (kernel_memory_break p < nb < memory_start p + memory_len p -> e = OutOfMemory))).
  { unfold brk. destruct (is_running p) eqn:Hr; cbn [negb];
      [|eexists _, _, _; split; [done|]; intros e ?; by simplify_eq].
    destruct (wf_active p Hwf Hr) as (Ho & (c & Hc & Hm & _) & _). unfold ordered in Ho.
    rewrite Hc, mem_end_ok by done.
    destruct (Z.ltb_spec nb (allow_high_water_mark p)),
      (Z.leb_spec (memory_start p + memory_len p) nb); cbn [orb];
      try (eexists _, _, _; split; [done|]; intros e ?; simplify_eq;
           split; [done|]; intros _; split; [|lia]; split; [lia|done]).
    destruct (Z.ltb_spec (kernel_memory_break p) nb).
    { eexists _, _, _; split; [done|]. intros e ?; simplify_eq. split; [done|].
      intros _. split; [|done]. split; [done|lia]. }
    destruct (update_total c (memory_start p) (memory_len p) nb (kernel_memory_break p))
      as [ [r c1] Hupd]; [done|done|lia|lia|lia|]. rewrite Hupd.
    cbn [obind]. destruct r as [[]|[]].
    - apply (update_ok c c1 (memory_start p) (memory_len p)) in Hupd as [Hm1 _]; [|done|lia|lia].
      destruct (configure_total c1 h (manages_valid _ _ _ Hm1)) as [ [c2 h2] ->].
      eexists _, _, _; split; [done|]. done.
    - eexists _, _, _; split; [done|]. intros e ?; simplify_eq. split; [done|].
      intros _. split; [split; [done|lia]|done]. }
  destruct Hret as (r & p' & h' & Hrun & Herr). exists r, p', h'. split; [done|].
  destruct (brk_spec nb p h r p' h' Hwf Hrun) as [Hwf' Hres]. split; [done|].
  destruct r as [old|e]; [done|]. destruct Hres as [-> ->]. destruct (Herr e eq_refl). done.
Qed.

Lemma brk_contract_witness :
  exists p rest k h, demo_create = Ret (Ok (p, rest), k, h) /\
  exists r p' h', brk (memory_start p + 3000) p h = Ret (r, p', h') /\ wf p' /\
    match r with
    | Ok old => old = app_break p /\ is_running p = true /\
        allow_high_water_mark p <= memory_start p + 3000 <= kernel_memory_break p /\
        memory_start p + 3000 < memory_start p + memory_len p /\
        exists c, p' = set_mpu_config (Some c) (set_app_break (memory_start p + 3000) p)
    | Err e => p' = p /\ h' = h /\
        (e = InactiveApp <-> is_running p = false) /\
        (is_running p = true ->
           (e = AddressOutOfBounds <->
            memory_start p + 3000 < allow_high_water_mark p \/
            memory_start p + memory_len p <= memory_start p + 3000) /\
           (kernel_memory_break p < memory_start p + 3000 < memory_start p + memory_len p ->
            e = OutOfMemory))
    end.
Proof.
  destruct demo_created as (p & rest & k & h & E & Hwf & _ & _ & _ & Htop & _).
  exists p, rest, k, h. split; [done|]. apply (brk_contract (memory_start p + 3000) p h);
    [exact Hwf|exact Htop|lia].
Defined.

(** On the Cortex-M driver a process that has shared no buffer crashes the
    kernel by asking for a break at the start of its memory: [brk] accepts the
    address and the driver's subregion count underflows. *)
Theorem brk_start_panics NUM MIN (HN : (2 <= NUM <= 16)%nat) (HM : 32 <= MIN < U32)
    (HM32 : MIN mod 32 = 0) {stored} (p : process stored CortexM.CortexMConfig) h :
  @wf _ _ stored (CortexM.cortexm_mpu NUM MIN) (CortexM.cortexm_isolation NUM MIN HN HM HM32) p ->
  is_running p = true -> memory_start p + memory_len p <= 2 ^ 31 -> 0 < memory_len p ->
  allow_high_water_mark p = memory_start p ->
  @brk _ _ stored (CortexM.cortexm_mpu NUM MIN) (memory_start p) p h = Panic.
Proof.
  intros Hwf Hr Htop Hlen Hw. destruct (wf_active p Hwf Hr) as (Ho & (c & Hc & Hm & _) & _).
  unfold ordered in Ho. unfold brk. rewrite Hr, Hc. cbn [negb].
  rewrite (mem_end_ok _ Hwf).
  rewrite (proj2 (Z.ltb_ge _ _)), (proj2 (Z.leb_gt _ _)), (proj2 (Z.ltb_ge _ _)) by lia.
  cbn [orb]. destruct Hm as [Hm _].
  enough (update_app_memory_region (MPU := CortexM.cortexm_mpu NUM MIN) (memory_start p)
    (kernel_memory_break p) ReadWriteOnly c = Panic) as -> by done.
  apply (CortexM.update_empty_panics c (memory_start p) (memory_len p)); [done|done|lia].
Qed.

Lemma brk_start_panics_witness :
  exists p rest k h, demo_create = Ret (Ok (p, rest), k, h) /\
    brk (memory_start p) p h = Panic.
Proof.
  destruct demo_created as (p & rest & k & h & E & Hwf & _ & Hr & _ & Htop & Hl & Hw & _).
  exists p, rest, k, h. split; [done|].
  apply (brk_start_panics 8 32 demo_regions demo_min eq_refl p h);
    [exact Hwf|exact Hr|exact Htop|exact Hl|exact Hw].
Defined.

(** * Shared buffers *)

(** A buffer that [allow] has accepted stays inside the app memory, and
    clear of the kernel-owned memory, for as long as this incarnation of the
    process is active: no later [brk], grant allocation or other operation takes
    the memory away, because the high-water mark never sinks below it. *)
Theorem allowed_buffer_stays {hw config stored} {mpu : MPU hw config}
    {iso : MpuIsolation hw config} {ukb : UKB stored} CB PS
    (fault_action : process stored config -> FaultAction) a n p p1 b h k w :
  0 <= initial_process_app_brk_size -> wf p -> room CB PS k p ->
  identifier (process_id p) < process_identifier_max k ->
  u32_range a -> u32_range n -> n <> 0 ->
  build_readwrite_process_buffer a n p = (Ok b, p1) ->
  rtc (step CB PS fault_action) (mkWorld p1 h k) w ->
  process_id (proc w) = process_id p -> is_running (proc w) = true ->
  b = mkProcessBuffer a n (process_id p) /\
  memory_start (proc w) <= a /\ a + n <= app_break (proc w) /\
  app_break (proc w) <= kernel_memory_break (proc w).
Proof.
  intros Happ Hwf Hroom Hid Ha Hn Hn0 Hb Hs Hpid Hr.
  destruct (build_readwrite_spec a n p (Ok b) p1 Hwf Ha Hn Hb)
    as (Hwf1 & Hsm & _ & _ & -> & _ & Hbuf).
  destruct Hbuf as [Hz|[Hb1 Hb2] ]; cbn in *; [done|].
  destruct Hsm as (E1 & E2 & _ & _ & _ & _ & _ & _ & _ & Ep & _). cbn in *.
  destruct (same_incarnation CB PS fault_action Happ (mkWorld p1 h k) w) as [ [Hwfw _] Hev];
    cbn; try congruence.
  { split; [done|]. destruct Hroom as (kern & Hk & Hl). exists kern. cbn. by rewrite E2. }
  destruct Hev as (_ & F1 & F2 & F3). destruct (F3 Hr) as (_ & Hle & _). cbn in *.
  destruct (wf_active _ Hwfw Hr) as ((Ho1 & Ho2) & _). rewrite F1. split_and!; done || lia.
Qed.

Lemma allowed_buffer_stays_witness :
  exists p rest k h, demo_create = Ret (Ok (p, rest), k, h) /\
  exists p1 b, build_readwrite_process_buffer (memory_start p + 4) 16 p = (Ok b, p1) /\
    b = mkProcessBuffer (memory_start p + 4) 16 (process_id p) /\
    memory_start (stop p1) <= memory_start p + 4 /\
    memory_start p + 4 + 16 <= app_break (stop p1) /\
    app_break (stop p1) <= kernel_memory_break (stop p1).
Proof.
  destruct demo_created as (p & rest & k & h & E & Hwf & Hroom & Hr & Hst & Htop & Hl & Hw & Hid).
  exists p, rest, k, h. split; [done|].
  assert (Hb : match demo_create with
     | Ret (Ok (q, _), _, _) => in_app_owned_memory (memory_start q + 4) 16 q | _ => true end = true)
    by (vm_compute; reflexivity).
  rewrite E in Hb. pose proof (wf_start p Hwf). pose proof (wf_end p Hwf).
  destruct (build_readwrite_process_buffer (memory_start p + 4) 16 p) as [r p1] eqn:Hbld.
  assert (exists b, r = Ok b /\ state p1 = state p /\ process_id p1 = process_id p)
    as (b & -> & Hst1 & Hp1).
  { clear E. unfold build_readwrite_process_buffer in Hbld. rewrite Hr, Hb in Hbld.
    cbn in Hbld. injection Hbld as <- <-. by eexists. }
  exists p1, b. split; [done|].
  apply (allowed_buffer_stays 280 400 demo_fault (memory_start p + 4) 16 p p1 b h k
    (mkWorld (stop p1) h k)); clear E; cbn [proc].
  - discriminate.
  - exact Hwf.
  - exact Hroom.
  - exact Hid.
  - unfold u32_range, U32 in *. lia.
  - split; [discriminate|reflexivity].
  - discriminate.
  - exact Hbld.
  - eapply rtc_l; [apply step_stop|]. apply rtc_refl.
  - unfold stop. rewrite Hst1, Hst. exact Hp1.
  - unfold stop, is_running. rewrite Hst1, Hst. reflexivity.
Defined.

(** * Grants *)

(** C27: two grant allocations of one incarnation of a process, whatever happens
    in between, never overlap: the later one lies entirely below the earlier
    one, both above the app break of their time and aligned as requested. *)
Theorem grant_allocations_disjoint {hw config stored} {mpu : MPU hw config}
    {iso : MpuIsolation hw config} {ukb : UKB stored} CB PS
    (fault_action : process stored config -> FaultAction)
    size1 align1 size2 align2 p p1 ptr1 h k w ptr2 p2 :
  0 <= initial_process_app_brk_size -> wf p -> room CB PS k p -> is_running p = true ->
  identifier (process_id p) < process_identifier_max k ->
  layout_request size1 align1 -> layout_request size2 align2 ->
  allocate_in_grant_region_internal size1 align1 p = Ret (Some ptr1, p1) ->
  rtc (step CB PS fault_action) (mkWorld p1 h k) w ->
  process_id (proc w) = process_id p -> is_running (proc w) = true ->
  allocate_in_grant_region_internal size2 align2 (proc w) = Ret (Some ptr2, p2) ->
  ptr2 + size2 <= ptr1 /\ ptr1 + size1 <= kernel_memory_break p /\
  app_break (proc w) <= ptr2 /\ (align1 | ptr1) /\ (align2 | ptr2).
Proof.
  intros Happ Hwf Hroom Hr Hid Hq1 Hq2 Ha1 Hs Hpid Hrw Ha2.
  apply allocate_internal_spec in Ha1 as [Hwf1 (_ & Hk1 & Hd1 & _ & c1 & ->)]; [|done..].
  destruct (same_incarnation CB PS fault_action Happ
    (mkWorld (set_kernel_memory_break ptr1 (set_mpu_config (Some c1) p)) h k) w)
    as [ [Hwfw _] Hev]; try done.
  destruct Hev as (_ & _ & _ & F3). destruct (F3 Hrw) as (_ & _ & Hle). cbn in Hle.
  apply allocate_internal_spec in Ha2 as [_ (Hab & Hk2 & Hd2 & _)]; [|done..].
  split_and!; try done. lia.
Qed.

Lemma grant_allocations_disjoint_witness :
  exists p rest k h, demo_create = Ret (Ok (p, rest), k, h) /\
  exists ptr1 p1 ptr2 p2,
    allocate_in_grant_region_internal 64 8 p = Ret (Some ptr1, p1) /\
    allocate_in_grant_region_internal 100 4 p1 = Ret (Some ptr2, p2) /\
    ptr2 + 100 <= ptr1 /\ ptr1 + 64 <= kernel_memory_break p /\
    app_break p1 <= ptr2 /\ (8 | ptr1) /\ (4 | ptr2).
Proof.
  destruct demo_created as (p & rest & k & h & E & Hwf & Hroom & Hr & Hst & Htop & Hl & Hw & Hid).
  exists p, rest, k, h. split; [exact E|].
  assert (Ha : match demo_create with
     | Ret (Ok (q, _), _, _) =>
       match allocate_in_grant_region_internal 64 8 q with
       | Ret (Some _, q1) =>
         match allocate_in_grant_region_internal 100 4 q1 with
         | Ret (Some _, _) => bool_decide (process_id q1 = process_id q) && is_running q1
         | _ => false
         end
       | _ => false
       end
     | _ => true end = true) by (vm_compute; reflexivity).
  rewrite E in Ha. clear E.
  destruct (allocate_in_grant_region_internal 64 8 p) as [ [ [ptr1|] p1]| |] eqn:E1;
    try discriminate Ha.
  destruct (allocate_in_grant_region_internal 100 4 p1) as [ [ [ptr2|] p2]| |] eqn:E2;
    try discriminate Ha.
  apply andb_true_iff in Ha as [Hp1 Hr1]. apply bool_decide_eq_true in Hp1.
  exists ptr1, p1, ptr2, p2. split; [reflexivity|]. split; [exact E2|].
  apply (grant_allocations_disjoint 280 400 demo_fault 64 8 100 4 p p1 ptr1 h k
    (mkWorld p1 h k) ptr2 p2); cbn [proc].
  - discriminate.
  - exact Hwf.
  - exact Hroom.
  - exact Hr.
  - exact Hid.
  - split; [discriminate|]. exists 3. vm_compute. repeat split; discriminate.
  - split; [discriminate|]. exists 2. vm_compute. repeat split; discriminate.
  - exact E1.
  - apply rtc_refl.
  - exact Hp1.
  - exact Hr1.
  - exact E2.
Defined.

(** Entering an allocated grant hands out its address and locks it: a second
    entry is refused with [AlreadyInUse] until [leave_grant], which restores the
    process exactly as it was, and the grant counts as allocated throughout. *)
Theorem grant_enter_exclusive {stored config} num (p : process stored config) gs e :
  is_running p = true -> grant_pointers p = Some gs -> gs !! num = Some e ->
  u32_range (grant_ptr e) -> grant_ptr e mod 2 = 0 ->
  exists p1, enter_grant num p = (Ok (grant_ptr e), p1) /\
    enter_grant num p1 = (Err AlreadyInUse, p1) /\
    grant_is_allocated num p1 = Some true /\
    leave_grant num p1 = p.
Proof.
  intros Hr Hg He Hu Heven. destruct (grant_lock_bit _ Heven) as (_ & Hor & Hand).
  destruct (enter_grant_cycle num p gs e) as [Henter Hleave]; [done..|].
  exists (locked num e gs p). split_and!; [done| | |done].
  - unfold enter_grant. rewrite locked_running, Hr, locked_grants. cbn [negb].
    rewrite (locked_lookup num e) by done. cbn [grant_ptr]. by rewrite Hand.
  - unfold grant_is_allocated. rewrite locked_running, Hr, locked_grants. cbn [negb].
    rewrite (locked_lookup num e) by done. cbn. rewrite Hor. unfold is_null.
    destruct (Z.eqb_spec (grant_ptr e + 1) 0); [unfold u32_range in Hu; lia|done].
Qed.

Lemma grant_enter_exclusive_witness :
  let p := mkProcess (mkProcessId 3 0) 0 0 0 0 (Tbf.Padding (Tbf.mkBase 2 16 16 0 0))
    (Some [mkGrantEntry 7 4096]) 0 0 0 (Some tt) Running (Some tt) [] None 0 None None in
  exists p1, enter_grant 0 p = (Ok 4096, p1) /\ enter_grant 0 p1 = (Err AlreadyInUse, p1) /\
    grant_is_allocated 0 p1 = Some true /\ leave_grant 0 p1 = p.
Proof.
  apply (grant_enter_exclusive 0 _ [mkGrantEntry 7 4096] (mkGrantEntry 7 4096));
    [reflexivity..|split; [discriminate|reflexivity]|reflexivity].
Defined.

(** Entering a grant that was never allocated is not an error: it hands out
    the null pointer and marks the grant as allocated. *)
Theorem grant_enter_unallocated {stored config} num (p : process stored config) gs e :
  is_running p = true -> grant_pointers p = Some gs -> gs !! num = Some e ->
  grant_ptr e = 0 ->
  exists p1, enter_grant num p = (Ok 0, p1) /\
    grant_is_allocated num p = Some false /\ grant_is_allocated num p1 = Some true.
Proof.
  intros Hr Hg He Hz. pose proof (lookup_lt_Some _ _ _ He) as Hlt.
  unfold enter_grant, grant_is_allocated. rewrite Hr, Hg, He, Hz. cbn [negb Z.land Z.eqb].
  eexists; split; [done|]. split; [cbn; by rewrite Hz|].
  change (is_running (set_grant_pointers _ p)) with (is_running p). rewrite Hr.
  cbn [negb grant_pointers set_grant_pointers]. by rewrite list_lookup_insert_eq.
Qed.

Lemma grant_enter_unallocated_witness :
  let p := mkProcess (mkProcessId 3 0) 0 0 0 0 (Tbf.Padding (Tbf.mkBase 2 16 16 0 0))
    (Some [mkGrantEntry 0 0]) 0 0 0 (Some tt) Running (Some tt) [] None 0 None None in
  exists p1, enter_grant 0 p = (Ok 0, p1) /\
    grant_is_allocated 0 p = Some false /\ grant_is_allocated 0 p1 = Some true.
Proof.
  apply (grant_enter_unallocated 0 _ [mkGrantEntry 0 0] (mkGrantEntry 0 0)); reflexivity.
Defined.

(** * Restarts *)

Lemma nulled_null gs : Forall (fun e => grant_ptr e = 0) (nulled gs).
Proof. apply Forall_fmap. by apply Forall_true. Qed.

(** Restarting a process that is not terminated gives it an identifier that
    was never used before.  Either the restart fails and the process stays
    inactive, with no pending task and no grant, or the process is [Yielded] with
    its initial task as the only pending one, every grant pointer null, the
    breaks and the high-water mark back at their initial positions, the restart
    counted and the completion code recorded. *)
Theorem restart_contract {hw config stored} {mpu : MPU hw config}
    {iso : MpuIsolation hw config} {ukb : UKB stored} CB PS cc
    (p : process stored config) k p' k' :
  0 <= initial_process_app_brk_size -> wf p -> room CB PS k p -> state p <> Terminated ->
  try_restart CB PS cc p k = Ret (p', k') ->
  wf p' /\ identifier (process_id p') = process_identifier_max k /\
  process_identifier_max k' = process_identifier_max k + 1 /\
  memory_start p' = memory_start p /\ memory_len p' = memory_len p /\
  (is_running p' = false /\ clean p' \/
   state p' = Yielded /\ restart_count p' = restart_count p + 1 /\
   completion_code p' = Some cc /\ allow_high_water_mark p' = memory_start p /\
   app_break p' = memory_start p + initial_process_app_brk_size /\
   (exists ts t, tasks p' = Some ts /\ init_task p' = Ret t /\ contents ts = [t]) /\
   exists gs, grant_pointers p' = Some gs /\ Forall (fun e => grant_ptr e = 0) gs).
Proof.
  intros Happ Hwf Hroom Hst H. unfold try_restart in H. rewrite bool_decide_eq_false_2 in H by done.
  destruct (wf_queue p Hwf) as (ts & Ht & Hu). destruct (wf_grants_some p Hwf) as [gs Hg].
  destruct (terminate_wf cc p Hwf) as [Hwft Hrt].
  rewrite (terminate_spec cc p ts gs) in * by done.
  apply obind_Ret in H as ([ [r q] k1] & Hreset & H).
  destruct (reset_spec CB PS Happ _ k r q k1 Hwft Hrt Hroom Hreset)
    as (Hwfq & E1 & E2 & _ & E4 & E5 & Hres).
  destruct r as [[]|e]; inv_ret; [|split_and!; try done; left; split; [done|by apply wf_inactive] ].
  destruct Hres as [_ _ R3 R4 R5 _ R7 R8 R9 R10]. cbn in *.
  split.
  { apply wf_set_state; [done|]. unfold is_running. by rewrite R3. }
  split_and!; try done. right. split_and!; try done. rewrite R9. eexists. split; [done|].
  apply nulled_null.
Qed.

Lemma restart_contract_witness :
  exists p rest k h, demo_create = Ret (Ok (p, rest), k, h) /\
  exists p' k', try_restart 280 400 (Some 5) p k = Ret (p', k') /\
  wf p' /\ identifier (process_id p') = process_identifier_max k /\
  process_identifier_max k' = process_identifier_max k + 1 /\
  memory_start p' = memory_start p /\ memory_len p' = memory_len p /\
  (is_running p' = false /\ clean p' \/
   state p' = Yielded /\ restart_count p' = restart_count p + 1 /\
   completion_code p' = Some (Some 5) /\ allow_high_water_mark p' = memory_start p /\
   app_break p' = memory_start p + initial_process_app_brk_size /\
   (exists ts t, tasks p' = Some ts /\ init_task p' = Ret t /\ contents ts = [t]) /\
   exists gs, grant_pointers p' = Some gs /\ Forall (fun e => grant_ptr e = 0) gs).
Proof.
  destruct demo_created as (p & rest & k & h & E & Hwf & Hroom & Hr & Hst & _).
  exists p, rest, k, h. split; [exact E|].
  assert (Ha : match demo_create with
     | Ret (Ok (q, _), k, _) =>
       match try_restart 280 400 (Some 5) q k with Ret _ => true | _ => false end
     | _ => true end = true) by (vm_compute; reflexivity).
  rewrite E in Ha. clear E.
  destruct (try_restart 280 400 (Some 5) p k) as [ [p' k']| |] eqn:E1; try discriminate Ha.
  exists p', k'. split; [reflexivity|].
  apply (restart_contract 280 400 (Some 5) p k p' k');
    [discriminate|exact Hwf|exact Hroom|rewrite Hst; discriminate|exact E1].
Defined.

(** [reset] puts the kernel break back exactly at the process structure that
    [create] placed at the top of the block when the block ends on a word
    boundary, and [top mod 4] bytes above it, inside the structure, otherwise. *)
Theorem reset_break_position {hw config stored} {mpu : MPU hw config}
    {iso : MpuIsolation hw config} {ukb : UKB stored} CB PS
    (p : process stored config) k p' k' r :
  0 <= initial_process_app_brk_size -> 0 <= CB -> 0 <= PS ->
  wf p -> is_running p = false -> room CB PS k p ->
  reset CB PS p k = Ret (Ok r, p', k') ->
  grant_counter k * GRANT_ENTRY_SIZE + CB + PS + WORD <= memory_len p -> 0 <= grant_counter k ->
  let top := memory_start p + memory_len p in
  kernel_memory_break p' =
    initial_kernel_break CB PS top (grant_counter k * GRANT_ENTRY_SIZE) + top mod WORD.
Proof.
  intros Happ Hcb Hps Hwf Hr Hroom Hreset Hfit Hgc.
  pose proof (wf_start p Hwf). pose proof (wf_end p Hwf).
  destruct (reset_spec CB PS Happ p k (Ok r) p' k' Hwf Hr Hroom Hreset)
    as (_ & _ & _ & _ & _ & _ & Hres).
  destruct Hroom as (kern & Hkern & _). pose proof (re_kernel _ _ _ _ _ Hres kern Hkern) as ->.
  unfold reset_kernel_memory_size in Hkern. inv_ret.
  unfold initial_kernel_break, wrapping_sub32, WORD, GRANT_ENTRY_SIZE in *.
  set (top := memory_start p + memory_len p) in *.
  pose proof (Z.mod_pos_bound top 4 ltac:(lia)).
  rewrite (wrap32_small (top - top mod 4)) by (unfold u32_range; lia).
  rewrite (wrap32_small (_ - grant_counter k * 8)) by (unfold u32_range; lia).
  rewrite (wrap32_small (_ - CB)) by (unfold u32_range; lia).
  rewrite (wrap32_small (_ - PS)) by (unfold u32_range; lia). lia.
Qed.

Lemma reset_break_position_witness :
  exists p rest k h, demo_create = Ret (Ok (p, rest), k, h) /\
  exists r p' k', reset 280 400 (terminate None p) k = Ret (Ok r, p', k') /\
  let top := memory_start (terminate None p) + memory_len (terminate None p) in
  kernel_memory_break p' =
    initial_kernel_break 280 400 top (grant_counter k * GRANT_ENTRY_SIZE) + top mod WORD.
Proof.
  destruct demo_created as (p & rest & k & h & E & Hwf & Hroom & Hr & Hst & _).
  exists p, rest, k, h. split; [exact E|].
  destruct (terminate_wf None p Hwf) as [Hwft Hrt].
  assert (Ha : match demo_create with
     | Ret (Ok (q, _), k, _) =>
       match reset 280 400 (terminate None q) k with Ret (Ok _, _, _) => true | _ => false end
       && (grant_counter k * GRANT_ENTRY_SIZE + 280 + 400 + WORD <=?
             memory_len (terminate None q))
       && (0 <=? grant_counter k) && (memory_len (terminate None q) =? memory_len q)
     | _ => true end = true) by (vm_compute; reflexivity).
  rewrite E in Ha. clear E. rewrite !andb_true_iff, !Z.leb_le, Z.eqb_eq in Ha.
  destruct Ha as [ [ [Ha Hfit] Hgc] Hml].
  destruct (reset 280 400 (terminate None p) k) as [ [ [ [r|] p'] k']| |] eqn:E1;
    try discriminate Ha.
  exists r, p', k'. split; [reflexivity|].
  apply (reset_break_position 280 400 (terminate None p) k p' k' r);
    [discriminate|discriminate|discriminate|exact Hwft|exact Hrt| |exact E1|exact Hfit|exact Hgc].
  destruct Hroom as (kern & Hk & Hl). exists kern. split; [exact Hk|]. rewrite Hml. exact Hl.
Defined.

(** * Creation *)

(** A process that [create] returns lies in the memory that was offered, and
    the memory left for further processes is exactly what follows its block, so
    blocks of different processes never overlap.  The block holds the RAM the
    binary asked for and, above the kernel break, the grant pointers, the upcall
    queue and the process structure; a fixed RAM address is honoured exactly; and
    the new process is [Yielded] with its initial task pending. *)
Theorem create_layout {hw config stored} {mpu : MPU hw config}
    {iso : MpuIsolation hw config} {ukb : UKB stored} CB PS uninit pb ptr len idx k0 h0
    (p : process stored config) rest k h :
  create_inputs CB PS uninit pb ptr len -> has_room CB PS k0 p ->
  create CB PS uninit pb (ptr, len) idx k0 h0 = Ret (Ok (p, rest), k, h) ->
  wf p /\ ptr <= memory_start p /\ fst rest = memory_start p + memory_len p /\
  fst rest + snd rest = ptr + len /\
  (forall n, create_kernel_memory_size CB PS k0 = Ret n ->
     Z.max (Tbf.get_minimum_app_ram_size (pb_header pb)) initial_process_app_brk_size + n
       <= memory_len p) /\
  kernel_memory_break p + grant_counter k0 * GRANT_ENTRY_SIZE + CB + PS
    <= memory_start p + memory_len p /\
  (forall a, Tbf.get_fixed_address_ram (pb_header pb) = Some a -> memory_start p = a) /\
  state p = Yielded /\ exists ts t, tasks p = Some ts /\ init_task p = Ret t /\ contents ts = [t].
Proof.
  intros [H1 H2 H3 H4 H5 H6 H7 H8 H9 H10] Hroom Hcr.
  destruct (create_spec CB PS H1 H2 H3 _ _ _ _ _ _ _ _ _ _ _ H4 H5 H6 H7 H8 H9 H10 Hroom Hcr)
    as (Hwf & _ & []). split_and!; done.
Qed.

Lemma create_layout_witness :
  exists p rest k h, demo_create = Ret (Ok (p, rest), k, h) /\
  wf p /\ 536887296 <= memory_start p /\ fst rest = memory_start p + memory_len p /\
  fst rest + snd rest = 536887296 + 65536 /\
  (forall n, create_kernel_memory_size 280 400 demo_kernel = Ret n ->
     Z.max (Tbf.get_minimum_app_ram_size (pb_header demo_pb)) initial_process_app_brk_size + n
       <= memory_len p) /\
  kernel_memory_break p + grant_counter demo_kernel * GRANT_ENTRY_SIZE + 280 + 400
    <= memory_start p + memory_len p /\
  (forall a, Tbf.get_fixed_address_ram (pb_header demo_pb) = Some a -> memory_start p = a) /\
  state p = Yielded /\ exists ts t, tasks p = Some ts /\ init_task p = Ret t /\ contents ts = [t].
Proof.
  destruct demo_created as (p & rest & k & h & E & _).
  exists p, rest, k, h. split; [exact E|].
  apply (create_layout 280 400 (replicate 10 demo_task) demo_pb 536887296 65536 0 demo_kernel
    demo_hw p rest k h demo_inputs (demo_room p rest k h E) E).
Defined.

(** * Upcalls and states *)

(** The task that scheduling an upcall enqueues. *)
Definition upcall_task (u : Upcall) (r0 r1 r2 : Z) : Task :=
  match fn_ptr u with
  | None => TReturnValue (mkReturnArguments (up_upcall_id u) r0 r1 r2)
  | Some fp => TFunctionCall (mkFunctionCall (SDriver (up_upcall_id u)) r0 r1 r2 (appdata u) fp)
  end.

Definition dropped_room {stored config} (p : process stored config) : Prop :=
  match debug p with None => True | Some d => 0 <= dropped_upcall_count d < U32 - 1 end.

Lemma enqueue_task_returns {hw config stored} {mpu : MPU hw config}
    {iso : MpuIsolation hw config} t (p : process stored config) :
  wf p -> dropped_room p -> returns (enqueue_task t p).
Proof.
  intros Hwf Hd. destruct (wf_queue p Hwf) as (ts & Ht & Hu).
  destruct (usable_enqueue ts t Hu) as (ok & ts1 & Henq & _).
  unfold enqueue_task. destruct (is_running p); cbn [negb]; [|by eexists].
  rewrite Ht, Henq. cbn [obind]. destruct ok; cbn [is_err obind]; [by eexists|].
  unfold map_debug, dropped_room in *. cbn [debug set_tasks].
  destruct (debug p) as [d|]; [|by eexists]. ck. by eexists.
Qed.

(** Scheduling an upcall on an active process appends exactly one task to
    its queue, a function call for a subscribed upcall and a return value for a
    null one, behind everything already pending; when the queue is full it
    reports [QueueFull] and the queue is unchanged; on an inactive process it
    reports a kernel error and changes nothing. *)
Theorem upcall_schedule {hw config stored} {mpu : MPU hw config}
    {iso : MpuIsolation hw config} u (p : process stored config) r0 r1 r2 :
  wf p -> dropped_room p ->
  exists r p' ts ts', schedule u p r0 r1 r2 = Ret (r, p') /\ wf p' /\
    tasks p = Some ts /\ tasks p' = Some ts' /\ state p' = state p /\
    match r with
    | Ok _ => is_running p = true /\ contents ts' = contents ts ++ [upcall_task u r0 r1 r2]
    | Err QueueFull => is_running p = true /\ contents ts' = contents ts /\
        S (length (contents ts)) = length (ring ts)
    | Err UKernelError => is_running p = false /\ p' = p
    | Err InvalidSubscribeNum => False
    end.
Proof.
  intros Hwf Hd. destruct (enqueue_task_returns (upcall_task u r0 r1 r2) p Hwf Hd) as [ [r p'] He].
  assert (Hrun : r <> Err NODEVICE -> is_running p = true).
  { intros Hne. unfold enqueue_task in He. destruct (is_running p); [done|]. cbn in He. inv_ret. done. }
  pose proof He as He'.
  apply enqueue_task_spec in He as (Hwf' & _ & Hst & ts & ts' & Ht & Ht' & _ & Hr); [|done].
  assert (Hs : schedule u p r0 r1 r2 = Ret (match r with
             | Ok _ => Ok tt | Err NODEVICE => Err UKernelError
             | Err NOMEM => Err QueueFull | Err _ => Err UKernelError end, p')).
  { unfold schedule. unfold upcall_task in He'. destruct (fn_ptr u); rewrite He'; done. }
  rewrite Hs. eexists _, p', ts, ts'. split; [done|]. split_and!; try done.
  destruct r as [[]|e]; [done|].
  destruct e; try (destruct Hr as [Hr _]; discriminate Hr).
  - destruct Hr as (_ & Hc & Hl). split_and!; try done. by apply Hrun.
  - done.
Qed.

Lemma upcall_schedule_witness :
  exists p rest k h, demo_create = Ret (Ok (p, rest), k, h) /\
  let u := mkUpcall (process_id p) (mkUpcallId 1 0) 99 (Some 262200) in
  exists r p' ts ts', schedule u p 1 2 3 = Ret (r, p') /\ wf p' /\
    tasks p = Some ts /\ tasks p' = Some ts' /\ state p' = state p /\
    match r with
    | Ok _ => is_running p = true /\ contents ts' = contents ts ++ [upcall_task u 1 2 3]
    | Err QueueFull => is_running p = true /\ contents ts' = contents ts /\
        S (length (contents ts)) = length (ring ts)
    | Err UKernelError => is_running p = false /\ p' = p
    | Err InvalidSubscribeNum => False
    end.
Proof.
  destruct demo_created as (p & rest & k & h & E & Hwf & _).
  exists p, rest, k, h. split; [exact E|].
  apply (upcall_schedule (mkUpcall (process_id p) (mkUpcallId 1 0) 99 (Some 262200)) p 1 2 3);
    [exact Hwf|].
  assert (Ha : match demo_create with
     | Ret (Ok (q, _), _, _) =>
       match debug q with None => true | Some d => dropped_upcall_count d =? 0 end
     | _ => true end = true) by (vm_compute; reflexivity).
  rewrite E in Ha. unfold dropped_room. destruct (debug p) as [d|]; [|exact I].
  apply Z.eqb_eq in Ha. rewrite Ha. split; [discriminate|reflexivity].
Defined.

(** Unsubscribing removes from the queue exactly the pending function calls
    of that upcall, keeps every other task in order, and changes nothing else of
    the process. *)
Theorem remove_pending_upcalls_exact {hw config stored} {mpu : MPU hw config}
    {iso : MpuIsolation hw config} id (p : process stored config) :
  wf p ->
  exists ts ts', tasks p = Some ts /\
    remove_pending_upcalls id p = Ret (set_tasks (Some ts') p) /\
    wf (set_tasks (Some ts') p) /\
    contents ts' `sublist_of` contents ts /\
    (forall t, t ∈ contents ts' <-> t ∈ contents ts /\
       ~ exists f, t = TFunctionCall f /\ source f = SDriver id).
Proof.
  intros Hwf. destruct (remove_pending_upcalls_spec id p Hwf) as (ts & ts' & Ht & Hu & Hc & E & Hwf').
  exists ts, ts'. split_and!; try done; rewrite Hc; [apply sublist_filter|].
  intros t. rewrite list_elem_of_filter. unfold keeps_upcall. split.
  - intros [Hk Hin]. split; [done|]. intros (f & -> & Hs). cbn in Hk. rewrite Hs in Hk.
    rewrite bool_decide_true in Hk by done. done.
  - intros [Hin Hn]. split; [|done]. destruct t as [f|rv|]; try done.
    destruct (source f) as [|id'] eqn:Hs; [done|]. cbn. case_bool_decide; [|done].
    destruct Hn. exists f. by subst.
Qed.

Lemma remove_pending_upcalls_exact_witness :
  exists p rest k h, demo_create = Ret (Ok (p, rest), k, h) /\
  let id := mkUpcallId 1 0 in
  exists ts ts', tasks p = Some ts /\
    remove_pending_upcalls id p = Ret (set_tasks (Some ts') p) /\
    wf (set_tasks (Some ts') p) /\
    contents ts' `sublist_of` contents ts /\
    (forall t, t ∈ contents ts' <-> t ∈ contents ts /\
       ~ exists f, t = TFunctionCall f /\ source f = SDriver id).
Proof.
  destruct demo_created as (p & rest & k & h & E & Hwf & _).
  exists p, rest, k, h. split; [exact E|].
  apply (remove_pending_upcalls_exact (mkUpcallId 1 0) p); exact Hwf.
Defined.

(** Stopping and resuming: a process that was running, yielded or waiting
    for an upcall returns to precisely that state on [resume]; while stopped it
    can neither yield nor be stopped again, and faulted and terminated processes
    are not affected by either. *)
Theorem stop_resume_roundtrip {stored config} (p : process stored config) :
  (match state p with
   | Running | Yielded | YieldedFor _ =>
     resume (stop p) = p /\ (exists s, state (stop p) = Stopped s) /\ is_running (stop p) = true
   | Stopped _ => stop p = p
   | Faulted | Terminated => stop p = p /\ resume p = p
   end) /\
  stop (stop p) = stop p /\
  (is_running p = true -> forall id, set_yielded_state (stop p) = stop p /\
     set_yielded_for_state id (stop p) = stop p).
Proof.
  destruct p as [? ? ? ? ? ? ? ? ? ? ? st ? ? ? ? ? ?]. cbn.
  destruct st as [| | |[]| |]; cbn; split_and!; eauto; try done; intros _ id; done.
Qed.

End ProcSpec.
