(* ===== verification/Confine.v ===== *)
(** Processes are confined, module [Confine]: over every sequence of kernel operations
    the memory protection of a process gives it its own flash, its own block of RAM and
    what the kernel was asked to add for it (the buffers that other processes share with
    it), and nothing else.  The class [MpuConfines] says what this needs of an MPU
    driver; both drivers have it. *)

From stdpp Require Import base numbers list relations.
From S2P Require Import Prelude RingBuffer Mpu CortexMpu Pmp PmpSpec ProcessBinary Syscall Process ProcessInv ProcessSpec.
Import Ring Mpu Pb Syscall Proc ProcInv ProcSpec.
Local Open Scope Z_scope.

Module Confine.

(** An address in the range, or in the word in which it ends: a region that is not
    writeable may be rounded up to whole words. *)
Definition in_words (u n a : Z) : Prop := u <= a /\ 4 * (a / 4) < u + n.

(** No operation of the driver exposes more than it was asked for. *)
Class MpuConfines (hw config : Type) `{iso : MpuIsolation hw config} := {
  new_config_closed : forall h h' c a, new_config h = (Some c, h') -> ~ exposed c a;
  reset_config_closed : forall c a, valid c -> ~ exposed (reset_config c) a;
  allocate_region_within : forall c c' u n m p r a, p <> ReadWriteExecute ->
    valid c -> u32_range u -> u32_range m -> allocate_region u n m p c = Ret (r, c') ->
    exposed c' a -> exposed c a \/ in_words u n a;
  remove_region_within : forall c c' r o a, valid c ->
    remove_memory_region r c = Ret (o, c') -> exposed c' a -> exposed c a;
  allocate_app_within : forall c c' u n m app kern start len a,
    valid c -> u32_range u -> u32_range m -> 0 <= app -> 0 < kern ->
    allocate_app_memory_region u n m app kern ReadWriteOnly c = Ret (Some (start, len), c') ->
    exposed c' a -> exposed c a \/ start <= a < start + len;
  update_within : forall c c' start len app_break kernel_break a, manages c start len ->
    start <= app_break -> kernel_break <= start + len ->
    update_app_memory_region app_break kernel_break ReadWriteOnly c = Ret (Ok tt, c') ->
    exposed c' a -> exposed c a \/ start <= a < start + len;
  configure_within : forall c h c' h' a, valid c ->
    configure_mpu c h = Ret (c', h') -> exposed c' a -> exposed c a;
}.

(** * The two drivers *)

Section cortexm.
  Context (NUM_REGIONS : nat) (MIN_REGION_SIZE : Z).
  Context (Hnum : (2 <= NUM_REGIONS <= 16)%nat).
  Context (Hmin : 32 <= MIN_REGION_SIZE < U32) (Hmin32 : MIN_REGION_SIZE mod 32 = 0).
  Notation cm_iso := (CortexM.cortexm_isolation NUM_REGIONS MIN_REGION_SIZE Hnum Hmin Hmin32).

Definition cortexm_confines : @MpuConfines _ _ (CortexM.cortexm_mpu NUM_REGIONS MIN_REGION_SIZE) cm_iso.
Proof using.
  split; simpl.
  - intros h h' c a. unfold CortexM.cm_new_config. destruct (_ <? _); intros ?; simplify_eq.
    destruct (CortexM.reset_config_wf NUM_REGIONS (CortexM.mkCortexMConfig (CortexM.config_count h)
      (replicate NUM_REGIONS (CortexM.region_empty 0)) true)) as (_ & _ & Hex);
      [done|apply length_replicate|apply Hex].
  - intros c a [_ Hl]. by destruct (CortexM.reset_config_wf NUM_REGIONS c) as (_ & _ & Hex).
  - intros c c' u n m p r a _ [Hwf _] Hu Hm Hrun. destruct r as [reg|].
    + destruct (CortexM.allocate_region_sound MIN_REGION_SIZE Hmin Hmin32 u n m p c reg c')
        as (_ & Hlo & _ & Hhi & Hex & _); [done..|]. rewrite Hex. intros [?|?]; [by left|right].
      pose proof (Z.mul_div_le a 4). unfold in_words. lia.
    + rewrite (CortexM.allocate_region_refused _ _ _ _ _ _ _ Hrun). by left.
  - intros c c' r o a [Hwf _] Hrun. by destruct (CortexM.remove_sound c c' r o Hwf Hrun) as (_ & Hex & _); auto.
  - intros c c' u n m app kern start len a [Hwf _] Hu Hm Ha Hk Hrun.
    destruct (CortexM.allocate_app_sound u n m app kern ReadWriteOnly c start len c')
      as (_ & _ & _ & _ & _ & _ & _ & Hex); [done|done|done|done|lia|done|]. by apply Hex.
  - intros c c' start len ab kb a [Hman _] H1 H2 Hrun.
    destruct (CortexM.update_sound c c' start len ab kb ReadWriteOnly) as (_ & _ & _ & _ & Hex); [done..|].
    apply Hex.
  - intros c h c' h' a _. unfold CortexM.cm_configure_mpu. destruct (_ || _); intros ?; by simplify_eq.
Qed.

End cortexm.

Section pmp.
  Context {P : Type} {tor : Pmp.TORUserPMP P} (N : nat) {laws : PmpSpec.TORUserPMPLaws P N}.

Definition pmp_confines : @MpuConfines _ _ (Pmp.pmp_mpu N) (PmpSpec.pmp_isolation N).
Proof using.
  split; simpl.
  - intros h h' c a. unfold Pmp.pmp_new_config. destruct (_ <? _); intros ?; simplify_eq.
    intros (i & r & Hi & [Hon _]). cbn in Hi. apply lookup_replicate in Hi as [-> _]. done.
  - intros c a _ (i & r & Hi & [Hon _]). cbn in Hi. rewrite list_lookup_fmap in Hi.
    destruct (Pmp.regions c !! i); by simplify_eq/=.
  - intros c c' u n m p r a _ _ Hu _ Hrun. destruct r as [reg|].
    + apply PmpSpec.pmp_allocate_region_sound in Hrun
        as (i & r0 & Hi & Hoff & -> & _ & [q Hq] & _ & _ & Hlo & _ & Hhi & _); [|done].
      rewrite (PmpSpec.exposed_insert c i r0) by done. intros [?|[_ Ha] ]; [by left|right]. cbn in Ha.
      pose proof (Z.mul_div_le a 4). pose proof (Z.mul_succ_div_gt a 4). unfold in_words.
      destruct (Pmp.writeable p); lia.
    + rewrite (PmpSpec.pmp_allocate_region_refused _ _ _ _ _ _ Hrun). by left.
  - intros c c' r o a _ [ [_ ->]|(_ & i & r0 & _ & _ & _ & _ & ->)]%PmpSpec.pmp_remove_sound; [done|].
    intros (j & r1 & [(_ & <- & _)|[_ Hj] ]%list_lookup_insert_Some & Hc); [by destruct Hc|by exists j, r1].
  - intros c c' u n m app kern start len a Hv Hu Hm Ha Hk Hrun.
    apply (PmpSpec.pmp_allocate_app_sound N) in Hrun as (_ & _ & _ & _ & _ & _ & _ & Hex); [|done|done|done|done|lia].
    apply Hex.
  - intros c c' start len ab kb a Hman H1 H2 Hrun.
    apply (PmpSpec.pmp_update_sound N) with (start := start) (len := len) in Hrun as (_ & _ & _ & _ & _ & Hex); [|done..].
    apply Hex.
  - intros c h c' h' a _. unfold Pmp.pmp_configure_mpu. destruct (_ || _); intros H; [|by simplify_eq].
    apply obind_Ret in H as (r & _ & H). apply obind_Ret in H as (p & _ & H). by simplify_eq.
Qed.

End pmp.

(** * Processes *)

Section processes.
  Context {hw config stored : Type} {mpu : MPU hw config} {iso : MpuIsolation hw config}.
  Context {con : MpuConfines hw config} {ukb : UKB stored}.
  Context (CB PS : Z) (fault_action : process stored config -> FaultAction).
  Context (Happ : 0 <= initial_process_app_brk_size) (Hcb : 0 <= CB) (Hps : 0 < PS).
  Notation proc := (process stored config).
  Notation step := (step CB PS fault_action).
  Implicit Types (p q : proc) (w : @world hw config stored).

(** What the process can touch under its configuration, and what is its own. *)
Definition reaches p (a : Z) : Prop := exists c, mpu_config p = Some c /\ exposed c a.
Definition own p (a : Z) : Prop :=
  in_words (flash_ptr p) (flash_len p) a \/ memory_start p <= a < memory_start p + memory_len p.

(** From [p] to [q] the process keeps its flash and reaches at most more of its own. *)
Definition narrows p q : Prop :=
  flash_ptr q = flash_ptr p /\ flash_len q = flash_len p /\
  forall a, reaches q a -> reaches p a \/ own p a.

Lemma narrows_same p q : flash_ptr q = flash_ptr p -> flash_len q = flash_len p ->
  mpu_config q = mpu_config p -> narrows p q.
Proof using. intros E1 E2 E3. split_and!; [done..|]. unfold reaches. rewrite E3. by left. Qed.

Lemma narrows_memory p q : same_memory p q -> narrows p q.
Proof using. intros (_ & _ & E3 & E4 & _ & _ & _ & E8 & _). by apply narrows_same. Qed.

(** A new configuration. *)
Lemma narrows_config p q c' : flash_ptr q = flash_ptr p -> flash_len q = flash_len p ->
  mpu_config q = Some c' -> (forall a, exposed c' a -> reaches p a \/ own p a) -> narrows p q.
Proof using.
  intros E1 E2 Hc Hex. split_and!; [done..|]. intros a (c & Hc0 & Ha). apply Hex. by simplify_eq.
Qed.

Lemma narrows_none p q : flash_ptr q = flash_ptr p -> flash_len q = flash_len p ->
  mpu_config q = None -> narrows p q.
Proof using. intros E1 E2 Hc. split_and!; [done..|]. intros a (c & Hc0 & _). congruence. Qed.

Lemma terminate_config cc p : narrows p (terminate cc p).
Proof using.
  apply narrows_same; unfold terminate, grant_ptrs_reset; destruct (_ && _); try done;
    destruct (tasks p); cbn; by destruct (grant_pointers _).
Qed.

Lemma setup_mpu_narrows p h p' h' : wf p -> setup_mpu p h = Ret (p', h') -> narrows p p'.
Proof using con.
  intros Hwf. unfold setup_mpu. destruct (mpu_config p) as [c|] eqn:Hc; intros H; [|inv_ret; by apply narrows_same].
  apply obind_Ret in H as ([c1 h1] & Hcf & H). inv_ret. apply (narrows_config _ _ c1); [done..|].
  intros a Ha. left. exists c. split; [done|].
  by apply (configure_within c h c1 h'); [apply (wf_valid p Hwf)|..].
Qed.

Lemma remove_region_narrows reg p r p' : wf p -> remove_mpu_region reg p = Ret (r, p') -> narrows p p'.
Proof using con.
  intros Hwf. unfold remove_mpu_region. destruct (mpu_config p) as [c|] eqn:Hc; intros H; [|inv_ret; by apply narrows_same].
  destruct (find_slot _ _) as [i|]; [|inv_ret; by apply narrows_same].
  apply obind_Ret in H as ([r1 c1] & Hrm & H).
  assert (Hex : forall a, exposed c1 a -> reaches p a \/ own p a).
  { intros a Ha. left. exists c. split; [done|].
    by apply (remove_region_within c c1 reg r1); [apply (wf_valid p Hwf)|..]. }
  destruct r1; inv_ret; by apply (narrows_config _ _ c1).
Qed.

(** An update of the breaks of an active process. *)
Lemma update_exposes p c c' ab kb : wf p -> is_running p = true -> mpu_config p = Some c ->
  memory_start p <= ab -> kb <= memory_start p + memory_len p ->
  update_app_memory_region ab kb ReadWriteOnly c = Ret (Ok tt, c') ->
  forall a, exposed c' a -> reaches p a \/ own p a.
Proof using con.
  intros Hwf Hr Hc Hab Hkb Hup a Ha. destruct (wf_active p Hwf Hr) as (_ & (c0 & Hc0 & Hman & _) & _).
  rewrite Hc in Hc0. injection Hc0 as <-.
  destruct (update_within c c' _ _ ab kb a Hman Hab Hkb Hup Ha); [left; by exists c|by right; right].
Qed.

Lemma brk_narrows nb p h r p' h' : wf p -> brk nb p h = Ret (r, p', h') -> narrows p p'.
Proof using con.
  intros Hwf. unfold brk. destruct (is_running p) eqn:Hr; cbn [negb]; intros H; [|inv_ret; by apply narrows_same].
  destruct (mpu_config p) as [c|] eqn:Hc; [|inv_ret; by apply narrows_same].
  destruct (wf_active p Hwf Hr) as ((Ho1 & Ho2) & (c0 & Hc0 & Hman & _) & _).
  rewrite Hc in Hc0. injection Hc0 as <-.
  destruct (Z.ltb_spec nb (allow_high_water_mark p)); cbn [orb] in H; [inv_ret; by apply narrows_same|].
  destruct (mem_end p <=? nb); [inv_ret; by apply narrows_same|].
  destruct (Z.ltb_spec (kernel_memory_break p) nb); [inv_ret; by apply narrows_same|].
  apply obind_Ret in H as ([r1 c1] & Hup & H). destruct r1 as [ []|[]].
  - apply obind_Ret in H as ([c2 h2] & Hcf & H). inv_ret. apply (narrows_config _ _ c2); [done..|].
    intros a Ha. apply (update_exposes p c c1 nb (kernel_memory_break p) Hwf Hr Hc) with (3 := Hup); [lia|lia|].
    apply (configure_within c1 h c2 h'); [|done..].
    destruct (update_ok c c1 (memory_start p) (memory_len p) nb (kernel_memory_break p)) as [Hm _];
      [done|lia|lia|done|]. by eapply manages_valid.
  - inv_ret. apply update_err in Hup as ->. by apply narrows_same.
Qed.

Lemma allocate_internal_narrows size align p r p' : wf p -> is_running p = true ->
  allocate_in_grant_region_internal size align p = Ret (r, p') -> narrows p p'.
Proof using con.
  intros Hwf Hr. destruct (wf_active p Hwf Hr) as ((Ho1 & Ho2) & _ & _).
  unfold allocate_in_grant_region_internal.
  destruct (mpu_config p) as [c|] eqn:Hc; intros H; [|inv_ret; by apply narrows_same].
  destruct (_ <? _); [inv_ret; by apply narrows_same|].
  destruct (Z.ltb_spec (kernel_memory_break p)
    (Z.land (wrapping_sub32 (kernel_memory_break p) size) (alignment_mask (Z.max align 2))));
    [inv_ret; by apply narrows_same|].
  apply obind_Ret in H as ([r1 c1] & Hup & H). destruct r1 as [ []|[]]; inv_ret.
  - apply (narrows_config _ _ c1); [done..|].
    apply (update_exposes p c c1 (app_break p) _ Hwf Hr Hc) with (3 := Hup); lia.
  - apply update_err in Hup as ->. by apply narrows_same.
Qed.

Lemma allocate_grant_narrows num d size align p k r p' k' : wf p ->
  allocate_grant num d size align p k = Ret (r, p', k') -> narrows p p'.
Proof using con.
  intros Hwf. unfold allocate_grant. destruct (is_running p) eqn:Hr; cbn [negb]; intros H; [|inv_ret; by apply narrows_same].
  cbn [get_grant_count_and_finalize] in H. destruct (_ <=? _); [inv_ret; by apply narrows_same|].
  assert (Hmain : forall x, (if match grant_pointers p with
       | Some gs => existsb (grant_matches d) gs | None => false end then Ret (Err tt, p, x)
     else
       let! '(r, p) := allocate_in_grant_region_internal size align p in
       match r with
       | None => Ret (Err tt, p, x)
       | Some ptr =>
         match grant_pointers p with
         | None => Ret (Err tt, p, x)
         | Some gs =>
           match gs !! num with
           | None => Ret (Err tt, p, x)
           | Some _ => Ret (Ok tt, set_grant_pointers (Some (<[num := mkGrantEntry d ptr]> gs)) p, x)
           end
         end
       end) = Ret (r, p', k') -> narrows p p').
  { intros x H'. destruct (match grant_pointers p with Some gs => _ | None => _ end); [inv_ret; by apply narrows_same|].
    apply obind_Ret in H' as ([o q] & Hal & H'). apply allocate_internal_narrows in Hal as (E1 & E2 & Hex); [|done..].
    assert (Hq : narrows p q) by done.
    destruct o as [ptr|]; [|by inv_ret]. destruct (grant_pointers q) as [gs|]; [|by inv_ret].
    destruct (gs !! num); by inv_ret. }
  destruct (grant_is_allocated num p) as [ []|]; [inv_ret; by apply narrows_same|by eapply Hmain..].
Qed.

Lemma kernel_memory_positive k n : reset_kernel_memory_size CB PS k = Ret n -> 0 < n.
Proof using Hcb Hps. unfold reset_kernel_memory_size. intros H. inv_ret. unfold u32_range in *. lia. Qed.

Lemma enqueue_task_config t p r p' : enqueue_task t p = Ret (r, p') -> same_memory p p'.
Proof using.
  unfold enqueue_task. destruct (is_running p); cbn [negb]; intros H; [|inv_ret; apply same_memory_refl].
  apply obind_Ret in H as ([ret q] & Hq & H). apply obind_Ret in H as (p1 & Hp1 & H). injection H as <- <-.
  assert (Hs : same_memory p q).
  { destruct (tasks p); [|inv_ret; apply same_memory_refl].
    apply obind_Ret in Hq as ([ok ts'] & _ & Hq). by injection Hq as <- <-. }
  destruct (is_err ret); [|by inv_ret]. apply map_debug_frame in Hp1 as (Hs1 & _). by eapply same_memory_trans.
Qed.

Lemma reset_narrows p k r p' k' : wf p -> reset CB PS p k = Ret (r, p', k') -> narrows p p'.
Proof using con Happ Hcb Hps.
  intros Hwf H. unfold reset in H. apply obind_Ret in H as ([n k1] & _ & H).
  apply obind_Ret in H as (p1 & Hdbg & H). apply map_debug_frame in Hdbg as (Hs1 & _).
  destruct Hs1 as (E1 & E2 & E3 & E4 & _ & _ & _ & E8 & _).
  cbn [set_process_id memory_start memory_len flash_ptr flash_len mpu_config] in *.
  destruct (mpu_config p1) as [c|] eqn:Hc; [|inv_ret; by apply narrows_same; congruence].
  assert (Hv : valid (reset_config c)) by (apply reset_config_valid, (wf_valid p Hwf); congruence).
  apply obind_Ret in H as ([fl c1] & Hfl & H). destruct (wf_flash p Hwf) as [Hfp Hfn].
  cbn [set_mpu_config flash_ptr flash_len] in Hfl. rewrite E3, E4 in Hfl.
  pose proof (allocate_region_valid _ _ _ _ _ ReadExecuteOnly _ ltac:(done) Hv Hfp Hfn Hfl) as Hv1.
  destruct fl as [fl|]; [|inv_ret; by apply narrows_none].
  apply obind_Ret in H as (kern & Hk & H). apply kernel_memory_positive in Hk.
  apply obind_Ret in H as ([am c2] & Ham & H). unfold mem_start in *. cbn [set_mpu_config memory_start memory_len] in *.
  pose proof (wf_start p Hwf). pose proof (wf_len p Hwf). pose proof (wf_end p Hwf).
  destruct am as [ [ms ml]|]; [|inv_ret; by apply narrows_none].
  rewrite E1, E2 in Ham.
  assert (Hex : forall a, exposed c2 a -> reaches p a \/ own p a).
  { intros a Ha. right.
    apply (allocate_app_within _ _ _ _ _ _ _ _ _ a) in Ham as Hin; [|done|by unfold u32_range; lia..|done|done|done].
    apply allocate_app_ok in Ham as (Hlo & Hhi & _); [|done|by unfold u32_range; lia..|done|lia].
    destruct Hin as [Hin|Hin]; [|right; lia].
    apply (allocate_region_within _ _ _ _ _ _ _ a) in Hfl as [Hr|?]; [|by left|done..].
    by apply reset_config_closed in Hr; [|apply (wf_valid p Hwf); congruence]. }
  set (p3 := set_mpu_config (Some c2) _) in H.
  assert (Hp3 : forall st, narrows p (set_stored_state st p3)) by (intros st; by apply (narrows_config _ _ c2)).
  destruct (stored_state p3) as [st|] eqn:Est.
  2: { inv_ret. specialize (Hp3 (stored_state p3)). by destruct p3. }
  destruct (ukb_initialize_process _ _ st) as [ [ []|[]] st']; cbn [fst snd] in H; [|by inv_ret].
  apply obind_Ret in H as (rc & _ & H). apply obind_Ret in H as (t & _ & H).
  apply obind_Ret in H as ([r1 p5] & Henq & H). injection H as <- <- <-.
  apply enqueue_task_config in Henq as (_ & _ & F1 & F2 & _ & _ & _ & F3 & _).
  apply (narrows_config _ _ c2); [by rewrite F1|by rewrite F2|by rewrite F3|done].
Qed.

Lemma narrows_trans p q q' : memory_start q = memory_start p -> memory_len q = memory_len p ->
  narrows p q -> narrows q q' -> narrows p q'.
Proof using.
  intros E1 E2 (F1 & F2 & F3) (G1 & G2 & G3). split_and!; [congruence..|].
  intros a [?|Ho]%G3; [by apply F3|right]. unfold own in *. by rewrite E1, E2, F1, F2 in Ho.
Qed.

Lemma terminate_block cc p : memory_start (terminate cc p) = memory_start p /\
  memory_len (terminate cc p) = memory_len p.
Proof using.
  unfold terminate, grant_ptrs_reset. destruct (_ && _); [done|].
  destruct (tasks p); cbn; by destruct (grant_pointers _).
Qed.

Lemma try_restart_narrows cc p k p' k' : wf p -> try_restart CB PS cc p k = Ret (p', k') -> narrows p p'.
Proof using con Happ Hcb Hps.
  intros Hwf. unfold try_restart. case_bool_decide as E; intros H; [inv_ret; by apply narrows_same|].
  apply obind_Ret in H as ([ [r q] k1] & Hreset & H). destruct (terminate_wf cc p Hwf) as [Hwft _].
  apply reset_narrows in Hreset; [|done].
  assert (Hn : narrows p q) by (eapply narrows_trans; [apply terminate_block..|apply terminate_config|exact Hreset]).
  destruct r; by inv_ret.
Qed.

Lemma start_narrows p k p' k' : wf p -> start CB PS p k = Ret (p', k') -> narrows p p'.
Proof using con Happ Hcb Hps.
  intros Hwf. unfold start. destruct (negb _); intros H; [inv_ret; by apply narrows_same|].
  apply obind_Ret in H as ([ [r q] k1] & Hreset & H). apply reset_narrows in Hreset; [|done].
  destruct r; by inv_ret.
Qed.

Lemma fault_narrows p k p' k' : wf p -> set_fault_state CB PS fault_action p k = Ret (p', k') -> narrows p p'.
Proof using con Happ Hcb Hps.
  intros Hwf. unfold set_fault_state. destruct (fault_action p); intros H; [done|by eapply try_restart_narrows|].
  inv_ret. eapply narrows_trans; [apply terminate_block..|apply terminate_config|by apply narrows_same].
Qed.

Lemma return_value_narrows rv p k p' k' : wf p ->
  set_syscall_return_value CB PS fault_action rv p k = Ret (p', k') -> narrows p p'.
Proof using con Happ Hcb Hps.
  intros Hwf. unfold set_syscall_return_value. destruct (stored_state p) as [st|]; [|by apply fault_narrows].
  destruct (ukb_set_syscall_return_value _ _ st rv) as [ [ []|[]] st']; intros H; [by inv_ret; apply narrows_same|].
  apply fault_narrows in H; [|by apply set_stored_wf]. done.
Qed.

Lemma function_narrows f p k p' k' : wf p ->
  set_process_function CB PS fault_action f p k = Ret (p', k') -> narrows p p'.
Proof using con Happ Hcb Hps.
  intros Hwf. unfold set_process_function. destruct (stored_state p) as [st|]; [|by apply fault_narrows].
  destruct (ukb_set_process_function _ _ st f) as [ [ []|[]] st']; intros H; [by inv_ret; apply narrows_same|].
  apply fault_narrows in H; [|by apply set_stored_wf]. done.
Qed.

(** One operation: the process reaches at most more of its own, or what was added. *)
Lemma step_narrows p h k p' h' k' : wf p -> step (mkWorld p h k) (mkWorld p' h' k') ->
  narrows p p' \/
  exists u n m r, u32_range u /\ u32_range m /\ add_mpu_region u n m p = Ret (r, p') /\ h' = h /\ k' = k.
Proof using con Happ Hcb Hps.
  intros Hwf Hstep. inversion Hstep as [? ? ? ? ? ? Hop|? ? ? ? ? Hop|? ? ? ? ? ? Hop|? ? ? ? ? Hop
    |? ? ?|? ? ? ?|? ? ?|? ? ?|? ? ? ?|? ? ? ? ? Hop|? ? ? ? ? ? Hop|? ? ? ? ? Hop|? ? ? ? ? Hop|? ? ? ? ? Hop
    |? ? ? ? Hop|? ? ? ? Hop|u n m ? ? ? ? r Hu Hm _ Hop|? ? ? ? ? ? Hop|? ? ? ? ? ? ? Hop|? ? ? ? ? ? ? Hop
    |? ? ? ? ? ? ? Ha Hn Hop|? ? ? ? ? ? ? Ha Hn Hop|? ? ? ? ? ? ? ? ? ? _ Hop|? ? ? ? ? ? ? _ Hop|num ? ? ? ? r Hal Hop
    |num ? ? ?|? ? ? ? ? ? _ Hop|? ? ? ? ? ? _ Hop|? ? ? ? ? Hop]; subst;
    try (right; by exists u, n, m, r); left.
  - apply narrows_memory. by eapply enqueue_task_config.
  - destruct (dequeue_task_spec p Hwf) as (ts & ts' & _ & _ & _ & E & _). rewrite E in Hop. by inv_ret; apply narrows_same.
  - destruct (remove_upcall_spec id p Hwf) as (ts & ts' & _ & _ & _ & E & _). rewrite E in Hop. by inv_ret; apply narrows_same.
  - destruct (remove_pending_upcalls_spec id p Hwf) as (ts & ts' & _ & _ & _ & E & _). rewrite E in Hop. by inv_ret; apply narrows_same.
  - apply narrows_memory, state_operations_keep. by left.
  - apply narrows_memory, state_operations_keep. right; left; by eexists.
  - apply narrows_memory, state_operations_keep. by do 2 right; left.
  - apply narrows_memory, state_operations_keep. by do 3 right.
  - apply terminate_config.
  - by eapply start_narrows.
  - by eapply try_restart_narrows.
  - by eapply fault_narrows.
  - apply map_debug_frame in Hop as (? & _). by apply narrows_memory.
  - by eapply setup_mpu_narrows.
  - by apply narrows_same.
  - by apply narrows_same.
  - by eapply remove_region_narrows.
  - by eapply brk_narrows.
  - unfold sbrk in Hop. destruct (negb _); [inv_ret; by apply narrows_same|by eapply brk_narrows].
  - apply build_readwrite_spec in Hop as (_ & Hs & _); [|done..]. by apply narrows_memory in Hs.
  - apply build_readonly_spec in Hop as (_ & Hs & _); [|done..]. by apply narrows_memory in Hs.
  - by eapply allocate_grant_narrows.
  - unfold allocate_custom_grant in Hop. destruct (is_running p) eqn:Hr; cbn [negb] in Hop; [|inv_ret; by apply narrows_same].
    apply obind_Ret in Hop as ([o q] & Hal & Hop). apply allocate_internal_narrows in Hal; [|done..].
    destruct o; [apply obind_Ret in Hop as (? & _ & Hop)|]; by inv_ret.
  - destruct (enter_grant_wf num p r p') as [_ [->|[gs ->] ] ]; [done..|by apply narrows_same|by apply narrows_same].
  - destruct (leave_grant_wf num p Hwf) as [_ [->|[gs ->] ] ]; by apply narrows_same.
  - by eapply return_value_narrows.
  - by eapply function_narrows.
  - apply switch_to_wf in Hop as (_ & ? & _); [|done]. by apply narrows_memory.
Qed.

(** * Histories *)

(** An operation on a process, in a kernel with [g] grants. *)
Definition pstep (g : Z) p p' : Prop :=
  exists h k h' k', grant_counter k = g /\ step (mkWorld p h k) (mkWorld p' h' k').

(** The invariant of a process in such a kernel. *)
Definition sane (g : Z) p : Prop := wf p /\ room CB PS (mkKernel 0 g true) p.

(** Between [p0] and [p] the kernel was asked to add a region in [u, u + n). *)
Definition was_added (g : Z) p0 p (u n : Z) : Prop :=
  exists p1 m r p2, rtc (pstep g) p0 p1 /\ add_mpu_region u n m p1 = Ret (r, p2) /\ rtc (pstep g) p2 p.

Lemma room_count k k' p : grant_counter k' = grant_counter k -> room CB PS k p -> room CB PS k' p.
Proof using.
  intros E (kern & Hk & Hl). exists kern. by rewrite (reset_kernel_memory_size_grants _ _ k k').
Qed.

Lemma pstep_sane g p p' : sane g p -> pstep g p p' ->
  sane g p' /\ memory_start p' = memory_start p /\ memory_len p' = memory_len p.
Proof using Happ.
  intros [Hwf Hroom] (h & k & h' & k' & Hg & Hs).
  destruct (step_wf CB PS fault_action Happ p h k p' h' k') as (Hwf' & Hk); [done|by eapply room_count; [|done]|done|].
  pose proof Hk as (E1 & E2 & E3 & _). split; [|done]. split; [done|].
  apply (room_count k'); [cbn; congruence|]. apply (room_keeps CB PS k p k' p'); [|done].
  by eapply room_count; [|done].
Qed.

Lemma psteps_sane g p p' : sane g p -> rtc (pstep g) p p' ->
  sane g p' /\ memory_start p' = memory_start p /\ memory_len p' = memory_len p.
Proof using Happ.
  intros Hp Hs. induction Hs as [|p1 p2 p3 H12 _ IH]; [done|].
  destruct (pstep_sane g p1 p2 Hp H12) as (H2 & E1 & E2). destruct (IH H2) as (H3 & E3 & E4).
  split_and!; [done|congruence..].
Qed.

(** The operations of a world, seen from the process. *)
Lemma steps_psteps w w' : wwf CB PS w -> rtc step w w' ->
  rtc (pstep (grant_counter (kern w))) (ProcInv.proc w) (ProcInv.proc w') /\
  grant_counter (kern w') = grant_counter (kern w).
Proof using Happ.
  intros Hw Hs. induction Hs as [|w1 w2 w3 H12 _ IH]; [split; [apply rtc_refl|done]|].
  destruct (step_wwf _ _ _ Happ _ _ Hw H12) as [Hw2 (_ & _ & E & _)].
  destruct (IH Hw2) as [H23 E3]. rewrite E in H23, E3. split; [|done].
  eapply rtc_l; [|exact H23]. destruct w1 as [p1 h1 k1], w2 as [p2 h2 k2]. by exists h1, k1, h2, k2.
Qed.

Lemma add_region_reaches u n m p r p' a : wf p -> u32_range u -> u32_range m ->
  add_mpu_region u n m p = Ret (r, p') -> reaches p' a -> reaches p a \/ u <= a < u + n.
Proof using.
  intros Hwf Hu Hm. unfold add_mpu_region. destruct (mpu_config p) as [c|] eqn:Hc; [|intros [= <- <-]; by left].
  intros Hrun. apply obind_Ret in Hrun as ([r1 c1] & Hal & Hrun).
  assert (Hex : exposed c1 a -> exposed c a \/ u <= a < u + n).
  { destruct r1 as [reg|].
    - by apply (allocate_region_only c c1 u n m reg); [apply (wf_valid p Hwf)|..].
    - apply allocate_region_none in Hal as ->. by left. }
  intros (c' & Hc' & Ha).
  assert (c' = c1) as -> by (destruct r1; [destruct (fill_slot _ _)|]; simplify_eq/=; congruence).
  destruct (Hex Ha); [left; by exists c|by right].
Qed.

Lemma add_region_flash u n m p r p' : add_mpu_region u n m p = Ret (r, p') ->
  flash_ptr p' = flash_ptr p /\ flash_len p' = flash_len p.
Proof using.
  unfold add_mpu_region. destruct (mpu_config p) as [c|]; [|by intros [= <- <-]].
  intros H. apply obind_Ret in H as ([r1 c1] & _ & H). destruct r1; [destruct (fill_slot _ _)|]; by simplify_eq/=.
Qed.

Lemma was_added_step g p0 p p' u n : pstep g p p' -> was_added g p0 p u n -> was_added g p0 p' u n.
Proof using.
  intros Hs (p1 & m & r & p2 & H1 & H2 & H3). exists p1, m, r, p2. split_and!; [done..|]. by eapply rtc_r.
Qed.

Lemma psteps_confined g p0 p : sane g p0 -> rtc (pstep g) p0 p ->
  (forall a, own p a <-> own p0 a) /\
  forall a, reaches p a ->
    reaches p0 a \/ own p0 a \/ exists u n, was_added g p0 p u n /\ u <= a < u + n.
Proof using con Happ Hcb Hps.
  intros Hp0 Hs. revert p Hs. apply rtc_ind_r; [split; [done|by left]|].
  intros p p' Hs Hstep (Hown & Hre). destruct (psteps_sane g p0 p Hp0 Hs) as (Hp & _ & _).
  destruct (pstep_sane g p p' Hp Hstep) as (_ & E1 & E2). pose proof Hp as [Hwf _].
  pose proof Hstep as (h & k & h' & k' & _ & Hs1).
  destruct (step_narrows p h k p' h' k' Hwf Hs1) as [(F1 & F2 & F3)|(u & n & m & r & Hu & Hm & Hadd & _ & _)].
  - assert (Hown' : forall a, own p' a <-> own p a) by (intros a; unfold own; by rewrite E1, E2, F1, F2).
    split; [intros a; by rewrite Hown'|].
    intros a [ [?|[?|(u & n & Hadd & Ha)] ]%Hre|?%Hown]%F3; [by left|by right; left| |by right; left].
    right; right. exists u, n. split; [|done]. by eapply was_added_step.
  - destruct (add_region_flash _ _ _ _ _ _ Hadd) as [F1 F2].
    assert (Hown' : forall a, own p' a <-> own p a) by (intros a; unfold own; by rewrite E1, E2, F1, F2).
    split; [intros a; by rewrite Hown'|]. intros a Ha.
    destruct (add_region_reaches _ _ _ _ _ _ a Hwf Hu Hm Hadd Ha) as [ [?|[?|(u' & n' & Hold & Ha')] ]%Hre|Hin];
      [by left|by right; left|..]; right; right.
    + exists u', n'. split; [|done]. by eapply was_added_step.
    + exists u, n. split; [|done]. exists p, m, r, p'. by split_and!; [..|apply rtc_refl].
Qed.

Lemma create_confined uninit pb ptr len idx k h p rest k' h' a :
  0 <= ptr -> 0 <= len -> ptr + len < U32 -> u32_range (pb_flash_ptr pb) -> u32_range (pb_flash_len pb) ->
  create CB PS uninit pb (ptr, len) idx k h = Ret (Ok (p, rest), k', h') -> reaches p a -> own p a.
Proof using con Happ Hcb Hps.
  intros Hp Hl Hpl Hfp Hfl H. unfold create in H.
  destruct (new_config h) as [ [c|] h1] eqn:Hnc; [|inv_ret; done].
  pose proof (new_config_valid _ _ _ Hnc) as Hv.
  apply obind_Ret in H as ([rf c1] & Hf & H).
  pose proof (allocate_region_valid _ _ _ _ _ ReadExecuteOnly _ ltac:(done) Hv Hfp Hfl Hf) as Hv1.
  destruct rf as [rf|]; [|inv_ret; done]. cbn [get_grant_count_and_finalize] in H.
  apply obind_Ret in H as (gp & _ & H). apply obind_Ret in H as (kern & Hkern & H).
  apply create_kernel_memory_size_Ret in Hkern as (Hkr & _ & Hkern & _). apply kernel_memory_positive in Hkern.
  assert (Hk0 : 0 < kern) by (unfold WORD in Hkern; lia).
  apply obind_Ret in H as (tot & Htot & H). apply checked32_Ret in Htot as [-> Htot].
  apply obind_Ret in H as (m & Hskip & H). destruct m as [ [ptr1 len1]|e]; [|inv_ret; done].
  pose proof (skip_to_fixed_Ok _ _ _ _ _ Hp Hl Hskip) as (Hp1 & Hl1 & Hpl1).
  apply obind_Ret in H as ([am c2] & Ham & H). cbn [fst snd] in *.
  destruct am as [ [ms ml]|]; [|inv_ret; done].
  assert (Hu1 : u32_range ptr1) by (unfold u32_range; lia).
  apply obind_Ret in H as (off & Hoff & H). apply checked32_Ret in Hoff as [-> Hoff].
  apply obind_Ret in H as (mis & _ & H). destruct mis as [e|]; [inv_ret; done|].
  apply obind_Ret in H as (cut & Hcut & H). apply checked32_Ret in Hcut as [-> _].
  apply obind_Ret in H as ([apm unused] & Hs1 & H). apply split_mem_Ret in Hs1 as (_ & -> & ->).
  apply obind_Ret in H as ([pad alm] & Hs2 & H). apply split_mem_Ret in Hs2 as (_ & -> & ->).
  apply obind_Ret in H as ([aam akm] & _ & H). cbn [fst snd] in *.
  apply obind_Ret in H as ([uid k2] & _ & H).
  destruct (ukb_initialize_process _ _ _) as [ [[]|[]] st]; [|inv_ret; done].
  apply obind_Ret in H as (t & _ & H). apply obind_Ret in H as (ts & _ & H).
  injection H as <- _ _ _. intros (c' & Hc' & Ha). cbn in Hc'. injection Hc' as <-.
  apply (allocate_app_within _ _ _ _ _ _ _ _ _ a) in Ham as [Hin|Hin]; [..|done|done|done|done|done|done].
  - apply (allocate_region_within _ _ _ _ _ _ _ a) in Hf as [Hr|?]; [..|by left|done|done|done|done|done].
    by apply (new_config_closed _ _ _ a) in Hnc.
  - right. cbn. lia.
Qed.

End processes.

(** C4: a process cannot reach beyond its own memory.  From its creation on, whatever
    operations the kernel performs on it (grants and breaks that move, faults, restarts,
    upcalls, switches), the memory protection of a process exposes nothing but the flash
    of its binary (to the end of its last word), its own block of RAM, and regions that
    the kernel was asked to add to it; and its flash and its block stay where they are.
    So memory of another process is within reach only if it was added, as inter-process
    communication does with a buffer that the other process shares.  (The block has room
    for the initial app memory as the driver rounds it, [has_room], as in the isolation
    from the kernel.) *)
Theorem process_confined {hw config stored} {mpu : MPU hw config} {iso : MpuIsolation hw config}
    {con : MpuConfines hw config} {ukb : UKB stored} CB PS
    (fault_action : process stored config -> FaultAction) uninit pb ptr len idx k0 h0 p rest k h w a :
  create_inputs CB PS uninit pb ptr len -> 0 < PS -> has_room CB PS k0 p ->
  create CB PS uninit pb (ptr, len) idx k0 h0 = Ret (Ok (p, rest), k, h) ->
  rtc (step CB PS fault_action) (mkWorld p h k) w -> reaches (proc w) a ->
  own (proc w) a /\ own p a \/
  exists u n, was_added CB PS fault_action (grant_counter k) p (proc w) u n /\ u <= a < u + n.
Proof.
  intros [H1 H2 H3 H4 H5 H6 H7 H8 H9 H10] Hps Hroom Hcr Hs Ha.
  destruct (create_spec CB PS H1 H2 H3 _ _ _ _ _ _ _ _ _ _ _ H4 H5 H6 H7 H8 H9 H10 Hroom Hcr) as (Hwf & Hrm & _).
  destruct (steps_psteps CB PS fault_action H1 (mkWorld p h k) w) as [Hs' _]; [by split|done|].
  destruct (psteps_confined CB PS fault_action H1 H2 Hps (grant_counter k) p (proc w)) as (Hown & Hre); [|exact Hs'|].
  { split; [done|]. by apply (room_count CB PS k). }
  destruct (Hre a Ha) as [Hr|[Ho|?] ]; [left|left|by right].
  - apply (create_confined CB PS H1 H2 Hps uninit pb ptr len idx k0 h0 _ rest k h) in Hr; [|done..].
    split; [by apply Hown|done].
  - split; [by apply Hown|done].
Qed.

#[export] Instance demo_confines : MpuConfines CortexM.Mpu CortexM.CortexMConfig.
Proof. apply cortexm_confines. Defined.

(** A process that is stopped still reaches its first byte, which is its own. *)
Lemma process_confined_witness : exists p rest k h q, demo_create = Ret (Ok (p, rest), k, h) /\
  q = stop p /\ reaches q (memory_start p) /\
  (own q (memory_start p) /\ own p (memory_start p) \/
   exists u n, was_added (hw := CortexM.Mpu) 280 400 demo_fault (grant_counter k) p q u n /\ u <= memory_start p < u + n).
Proof.
  destruct demo_created as (p & rest & k & h & E & Hwf & _ & Hr & Hst & _).
  exists p, rest, k, h, (stop p). split; [exact E|]. split; [reflexivity|].
  destruct (demo_fresh p rest k h E) as [Hab _].
  assert (Hre : reaches (stop p) (memory_start p)).
  { unfold stop. rewrite Hst. destruct (wf_active p Hwf Hr) as (_ & (c & Hc & _ & Hx & _) & _).
    exists c. split; [exact Hc|apply Hx; lia]. }
  split; [exact Hre|].
  apply (process_confined 280 400 demo_fault (replicate 10 demo_task) demo_pb 536887296 65536 0
    demo_kernel demo_hw p rest k h (mkWorld (stop p) h k) (memory_start p));
    [exact demo_inputs|reflexivity|exact (demo_room p rest k h E)|exact E| |exact Hre].
  apply rtc_once, step_stop.
Defined.

End Confine.
