(* ===== verification/Enforce.v ===== *)
(** What the memory protection hardware enforces, module [Enforce].

    The drivers do not write a configuration again that is unchanged and was written
    last.  The class [MpuEnforces] says what this needs: a configuration is in step with
    the hardware ([in_step]) when the driver would write it or the registers hold it, and
    every operation of the driver keeps the configurations of all processes in step.  The
    Cortex-M driver and the RISC-V driver over every PMP of [PmpEnforce] are instances.
    The second half shows that every operation of the kernel on a process keeps its
    configuration in step, and those of the other processes. *)

From stdpp Require Import base numbers list relations.
From S2P Require Import Prelude RingBuffer Mpu CortexMpu CortexMpuSystem Pmp PmpSpec PmpHwSpec PmpEnforce.
From S2P Require Import ProcessBinary Syscall Process ProcessInv ProcessSpec Confine.
Import Ring Mpu Pb Syscall Proc ProcInv ProcSpec Confine.
Local Open Scope Z_scope.

Module Enforce.

(** An operation on a configuration leaves it in step with any hardware. *)
Definition keeps_step {hw config} (config_id : config -> Z) (in_step : config -> hw -> Prop) (c c' : config) : Prop :=
  config_id c' = config_id c /\ forall h, in_step c h -> in_step c' h.

(** [permits h a]: the registers let unprivileged code touch address [a];
    [withheld h a]: the hardware keeps [a] from it whatever the configuration says;
    [holds c h]: the registers hold the configuration; [enforced c h]: they do, and the
    hardware enforces them; [next_id h]: the identifier of the next configuration. *)
Class MpuEnforces (hw config : Type) `{iso : MpuIsolation hw config} := {
  permits : hw -> Z -> Prop;
  withheld : hw -> Z -> Prop;
  config_id : config -> Z;
  next_id : hw -> Z;
  in_step : config -> hw -> Prop;
  holds : config -> hw -> Prop;
  enforced : config -> hw -> Prop;

  configure_same_id : forall c h c' h', configure_mpu c h = Ret (c', h') -> config_id c' = config_id c;
  configure_holds : forall c h c' h', valid c -> in_step c h -> configure_mpu c h = Ret (c', h') ->
    in_step c' h' /\ holds c' h';
  configure_others : forall c d h c' h', valid c -> in_step d h -> config_id d <> config_id c ->
    configure_mpu c h = Ret (c', h') -> in_step d h';
  enable_enforces : forall c h h', holds c h -> enable_app_mpu h = Ret h' -> enforced c h';
  enable_in_step : forall c h h', valid c -> in_step c h -> enable_app_mpu h = Ret h' -> in_step c h';
  disable_in_step : forall c h h', valid c -> in_step c h -> disable_app_mpu h = Ret h' -> in_step c h';
  enforced_exact : forall c h a, valid c -> enforced c h -> u32_range a ->
    (permits h a <-> exposed c a /\ ~ withheld h a);

  (** The operations on a configuration. *)
  reset_follows : forall c, keeps_step config_id in_step c (reset_config c);
  allocate_region_follows : forall c c' u n m p r, u32_range u ->
    allocate_region u n m p c = Ret (r, c') -> keeps_step config_id in_step c c';
  remove_region_follows : forall c c' r o, remove_memory_region r c = Ret (o, c') -> keeps_step config_id in_step c c';
  allocate_app_follows : forall c c' u n m app kern p r,
    allocate_app_memory_region u n m app kern p c = Ret (r, c') -> keeps_step config_id in_step c c';
  update_follows : forall c c' ab kb p o, update_app_memory_region ab kb p c = Ret (o, c') -> keeps_step config_id in_step c c';

  (** A new configuration has an identifier of its own. *)
  sound_hw : hw -> Prop;
  new_config_fresh : forall h c h', sound_hw h -> new_config h = (Some c, h') ->
    in_step c h' /\ config_id c = next_id h /\ next_id h < next_id h' /\ sound_hw h' /\
    forall d, in_step d h -> in_step d h';
}.

(** * The two drivers *)

Section cortexm.
  Context (NUM_REGIONS : nat) (MIN_REGION_SIZE : Z).
  Context (Hnum : (2 <= NUM_REGIONS <= 16)%nat).
  Context (Hmin : 32 <= MIN_REGION_SIZE < U32) (Hmin32 : MIN_REGION_SIZE mod 32 = 0).
  Notation cm_iso := (CortexM.cortexm_isolation NUM_REGIONS MIN_REGION_SIZE Hnum Hmin Hmin32).

Definition cm_ready (h : CortexM.Mpu) : Prop := length (CortexM.hw_regions h) = NUM_REGIONS.
(** The driver would write the configuration, or the registers hold it. *)
Definition cm_in_step (c : CortexM.CortexMConfig) (h : CortexM.Mpu) : Prop :=
  cm_ready h /\ (CortexM.hardware_is_configured_for h = Some (CortexM.id c) -> CortexM.is_dirty c = false ->
    CortexMSystem.hw_matches h c).

Lemma cm_touched c c' : CortexMSystem.touched c c' ->
  CortexM.id c' = CortexM.id c /\ forall h, cm_in_step c h -> cm_in_step c' h.
Proof using.
  intros [->|[Hid Hd] ]; [done|]. split; [done|]. intros h [Hr _]. split; [done|]. intros _ ?. congruence.
Qed.

Lemma written_length rs h :
  length (CortexM.hw_regions (foldl CortexM.write_region h rs)) = length (CortexM.hw_regions h).
Proof using.
  revert h. induction rs as [|r rs IH]; intros h; cbn [foldl]; [done|]. rewrite IH.
  unfold CortexM.write_region, CortexM.write_rasr, CortexM.write_rbar. cbn. by rewrite !length_alter.
Qed.

Definition cortexm_enforces : @MpuEnforces _ _ (CortexM.cortexm_mpu NUM_REGIONS MIN_REGION_SIZE) cm_iso.
Proof using.
  refine (@Build_MpuEnforces _ _ _ cm_iso CortexMSystem.hw_exposes (fun _ _ => False) CortexM.id CortexM.config_count
    cm_in_step (fun c h => CortexMSystem.hw_matches h c)
    (fun c h => CortexMSystem.hw_matches h c /\ Z.testbit (CortexM.hw_ctrl h) 0 = true)
    _ _ _ _ _ _ _ _ _ _ _ _ cm_ready _); simpl.
  - intros c h c' h' [= Hrun]. unfold CortexM.cm_configure_mpu in Hrun. destruct (_ || _); by simplify_eq.
  - intros c h c' h' [Hwf Hl] [Hr Hcoh] [= Hrun].
    destruct (CortexMSystem.configure_spec c h c' h') as (E1 & E2 & _ & _ & _ & Hm); [done|congruence|done..|].
    assert (Hm' : CortexMSystem.hw_matches h' c') by (unfold CortexMSystem.hw_matches in *; congruence).
    split; [|done]. split; [|done].
    unfold cm_ready. unfold CortexMSystem.hw_matches in Hm. rewrite Hm, length_map. done.
  - intros c d h c' h' _ [Hr Hcoh] Hne [= Hrun]. unfold CortexM.cm_configure_mpu in Hrun.
    destruct (_ || _); simplify_eq; [|done]. split; cbn [CortexM.hardware_is_configured_for]; [|intros; congruence].
    unfold cm_ready. cbn [CortexM.hw_regions]. by rewrite written_length.
  - intros c h h' Hm [= <-]. split; [done|]. reflexivity.
  - by intros c h h' _ Hs [= <-].
  - by intros c h h' _ Hs [= <-].
  - intros c h a _ [Hm _] _. rewrite (CortexMSystem.hw_matches_exposes h c a Hm). tauto.
  - intros c. apply cm_touched. by right.
  - intros c c' u n m p r _ Hrun. apply cm_touched. by eapply CortexMSystem.allocate_region_touched.
  - intros c c' r o Hrun. apply cm_touched. by eapply CortexMSystem.remove_touched.
  - intros c c' u n m app kern p r Hrun. apply cm_touched. by eapply CortexMSystem.allocate_app_touched.
  - intros c c' ab kb p o Hrun. apply cm_touched. by eapply CortexMSystem.update_touched.
  - intros h c h' Hr Hnew. unfold CortexM.cm_new_config in Hnew. destruct (_ <? _); simplify_eq.
    split_and!; try done. cbn. lia.
Defined.

End cortexm.

Section pmp.
  Context {P : Type} {tor : Pmp.TORUserPMP P} (N : nat) {laws : PmpSpec.TORUserPMPLaws P N}.
  Context {enf : PmpEnforce.TORUserPMPEnforces P N}.
  Notation hw := (Pmp.PMPUserMPU P).

Definition pmp_ready (h : hw) : Prop := PmpEnforce.ready (Pmp.pmp h).
Definition pmp_in_step (c : Pmp.PMPUserMPUConfig) (h : hw) : Prop :=
  pmp_ready h /\ (Pmp.last_configured_for h = Some (Pmp.id c) -> Pmp.is_dirty c = false ->
    PmpEnforce.loaded (Pmp.regions c) (Pmp.pmp h)).
Definition pmp_holds (c : Pmp.PMPUserMPUConfig) (h : hw) : Prop :=
  pmp_ready h /\ length (Pmp.regions c) = N /\ PmpEnforce.loaded (Pmp.regions c) (Pmp.pmp h).

Lemma pmp_touched c c' : PmpEnforce.touched c c' ->
  Pmp.id c' = Pmp.id c /\ forall h, pmp_in_step c h -> pmp_in_step c' h.
Proof using.
  intros [->|[Hid Hd] ]; [done|]. split; [done|]. intros h [Hr _]. split; [done|]. intros _ ?. congruence.
Qed.

(** Some access is allowed exactly where a region is on. *)
Lemma allowed_exposed rs a : Forall PmpSpec.tor_ok rs ->
  (exists acc, PmpHwSpec.regions_allow rs a acc = true) <-> exists i r, rs !! i = Some r /\ PmpSpec.tor_covers r a.
Proof using.
  intros Hf. assert (Hc : forall r, PmpHwSpec.tor_contains r a = true <-> PmpSpec.tor_covers r a).
  { intros r. unfold PmpHwSpec.tor_contains, PmpSpec.tor_covers.
    rewrite !andb_true_iff, negb_true_iff, Z.leb_le, Z.ltb_lt. done. }
  induction Hf as [|r rs Hr Hf IH]; cbn.
  { split; [by intros [acc ?]|by intros (i & r & Hi & _)]. }
  destruct (PmpHwSpec.tor_contains r a) eqn:E.
  - split; [intros _; exists 0%nat, r; split; [done|by apply Hc]|]. intros _.
    destruct Hr as [Hoff|(p & Hp & -> & _)]; [apply Hc in E as [? _]; congruence|].
    destruct p; first [by exists PmpHwSpec.Read|by exists PmpHwSpec.Execute].
  - rewrite IH. split; intros (i & r' & Hi & Hcov); [by exists (S i), r'|].
    destruct i as [|i]; [|by exists i, r']. cbn in Hi. injection Hi as <-. apply Hc in Hcov. congruence.
Qed.

Definition pmp_enforces : @MpuEnforces _ _ (Pmp.pmp_mpu N) (PmpSpec.pmp_isolation N).
Proof using enf.
  refine (@Build_MpuEnforces _ _ _ (PmpSpec.pmp_isolation N)
    (fun h a => exists acc, PmpEnforce.allows (Pmp.pmp h) a acc) (fun h a => PmpEnforce.reserved (Pmp.pmp h) a)
    Pmp.id Pmp.config_count pmp_in_step pmp_holds (fun c h => pmp_holds c h /\ PmpEnforce.enabled (Pmp.pmp h))
    _ _ _ _ _ _ _ _ _ _ _ _ pmp_ready _); simpl.
  - intros c h c' h' Hrun. unfold Pmp.pmp_configure_mpu in Hrun. destruct (_ || _); [|by simplify_eq].
    apply obind_Ret in Hrun as ([r p'] & _ & Hrun). destruct r as [ []|]; cbn [Pmp.unwrap obind] in Hrun; by simplify_eq.
  - intros c h c' h' Hv [Hr Hcoh] Hrun. pose proof Hv as [Hl _].
    destruct (PmpEnforce.pmp_configure_spec N c h c' h') as (E1 & E2 & _ & _ & Hr' & Hld); [done..|].
    rewrite <- E1 in Hld, Hl. by split; [split|split_and!].
  - intros c d h c' h' [Hl Hf] [Hr Hcoh] Hne Hrun. unfold Pmp.pmp_configure_mpu in Hrun.
    destruct (_ || _); [|by simplify_eq].
    destruct (PmpEnforce.configure_loads (Pmp.regions c) (Pmp.pmp h) Hr Hl Hf) as (p' & E & Hr' & _).
    rewrite E in Hrun. cbn [obind Pmp.unwrap] in Hrun. simplify_eq. split; [done|]. cbn. congruence.
  - intros c h h' (Hr & Hl & Hld) Hrun.
    destruct (PmpEnforce.enable_keeps (Pmp.pmp h) Hr) as (p' & E & Hr' & Hen & Hk).
    unfold Pmp.pmp_enable_app_mpu in Hrun. rewrite E in Hrun. cbn [obind Pmp.unwrap] in Hrun. simplify_eq.
    split; [|done]. split_and!; [done|done|by apply Hk].
  - intros c h h' [Hl _] [Hr Hcoh] Hrun.
    destruct (PmpEnforce.enable_keeps (Pmp.pmp h) Hr) as (p' & E & Hr' & Hen & Hk).
    unfold Pmp.pmp_enable_app_mpu in Hrun. rewrite E in Hrun. cbn [obind Pmp.unwrap] in Hrun. simplify_eq.
    split; [done|]. intros H1 H2. apply Hk; [done|by apply Hcoh].
  - intros c h h' [Hl _] [Hr Hcoh] Hrun.
    destruct (PmpEnforce.disable_keeps (Pmp.pmp h) Hr) as (p' & E & Hr' & Hk).
    unfold Pmp.pmp_disable_app_mpu in Hrun. rewrite E in Hrun. cbn [obind] in Hrun. simplify_eq.
    split; [done|]. intros H1 H2. apply Hk; [done|by apply Hcoh].
  - intros c h a [Hl Hf] [(Hr & _ & Hld) Hen] Ha. unfold PmpSpec.pmp_exposed.
    rewrite <- (allowed_exposed _ _ Hf). split.
    + intros [acc Hacc]. apply (PmpEnforce.enforces (Pmp.regions c)) in Hacc as [? ?]; [|done..]. by split; [exists acc|].
    + intros [ [acc Hacc] Hres]. exists acc. by apply (PmpEnforce.enforces (Pmp.regions c)).
  - intros c. apply pmp_touched. by right.
  - intros c c' u n m p r Hu Hrun. apply pmp_touched.
    destruct r as [reg|]; [|left; by eapply PmpSpec.pmp_allocate_region_refused].
    apply PmpSpec.pmp_allocate_region_sound in Hrun as (? & ? & _ & _ & -> & _); [by right|done].
  - intros c c' r o Hrun. apply pmp_touched.
    apply PmpSpec.pmp_remove_sound in Hrun as [ [_ ->]|(_ & ? & ? & _ & _ & _ & _ & ->)]; [by left|by right].
  - intros c c' u n m app kern p r Hrun. apply pmp_touched. by eapply PmpEnforce.pmp_allocate_app_touched.
  - intros c c' ab kb p o Hrun. apply pmp_touched. by eapply PmpEnforce.pmp_update_touched.
  - intros h c h' Hr Hnew. unfold Pmp.pmp_new_config in Hnew. destruct (_ <? _); simplify_eq.
    split_and!; try done. cbn. lia.
Defined.

End pmp.

(** * Processes *)

Section processes.
  Context {hw config stored : Type} {mpu : MPU hw config} {iso : MpuIsolation hw config}.
  Context {enf : MpuEnforces hw config} {ukb : UKB stored}.
  Context (CB PS : Z) (fault_action : process stored config -> FaultAction).
  Notation proc := (process stored config).
  Notation step := (step CB PS fault_action).
  Notation keeps := (keeps_step config_id in_step).
  Implicit Types (p q : proc) (c d : config) (h : hw).

(** The configuration of the process is in step with the hardware. *)
Definition synced p h : Prop := forall c, mpu_config p = Some c -> in_step c h.
(** Not the configuration of the process. *)
Definition other p d : Prop := forall c, mpu_config p = Some c -> config_id d <> config_id c.
(** The process has the configuration it had, changed in a way the driver knows of. *)
Definition follows p q : Prop := forall c', mpu_config q = Some c' -> exists c, mpu_config p = Some c /\ keeps c c'.
(** An operation that may also write the registers. *)
Definition tracks p h q h' : Prop :=
  (forall c', mpu_config q = Some c' -> exists c, mpu_config p = Some c /\ config_id c' = config_id c) /\
  (synced p h -> synced q h') /\
  forall d, valid d -> other p d -> in_step d h -> in_step d h'.

Lemma keeps_step_refl c : keeps c c.
Proof using. by split. Qed.
Lemma keeps_step_trans c1 c2 c3 : keeps c1 c2 -> keeps c2 c3 -> keeps c1 c3.
Proof using. intros [E1 H1] [E2 H2]. split; [congruence|auto]. Qed.

Lemma follows_same p q : mpu_config q = mpu_config p -> follows p q.
Proof using. intros E c' Hc. rewrite E in Hc. exists c'. split; [done|apply keeps_step_refl]. Qed.
Lemma follows_memory p q : same_memory p q -> follows p q.
Proof using. intros (_ & _ & _ & _ & _ & _ & _ & E & _). by apply follows_same. Qed.
Lemma follows_none p q : mpu_config q = None -> follows p q.
Proof using. intros E c' Hc. congruence. Qed.
Lemma follows_config p q c c' : mpu_config p = Some c -> mpu_config q = Some c' -> keeps c c' -> follows p q.
Proof using. intros E1 E2 Hk c1 Hc1. exists c. rewrite E2 in Hc1. by injection Hc1 as <-. Qed.
Lemma follows_trans p1 p2 p3 : follows p1 p2 -> follows p2 p3 -> follows p1 p3.
Proof using.
  intros H1 H2 c3 (c2 & Hc2 & K2)%H2. apply H1 in Hc2 as (c1 & Hc1 & K1). exists c1.
  split; [done|by eapply keeps_step_trans].
Qed.
Lemma follows_refl p : follows p p.
Proof using. by apply follows_same. Qed.
#[local] Hint Resolve follows_refl : core.

Lemma follows_synced p q h : follows p q -> synced p h -> synced q h.
Proof using. intros Hf Hs c' (c & Hc & _ & Hk)%Hf. by apply Hk, Hs. Qed.
Lemma follows_tracks p q h : follows p q -> tracks p h q h.
Proof using.
  intros Hf. split_and!; [|by apply follows_synced|done].
  intros c' (c & Hc & E & _)%Hf. by exists c.
Qed.
Lemma other_tracks p h q h' d : tracks p h q h' -> other p d -> other q d.
Proof using. intros (Hid & _) Ho c' (c & Hc & ->)%Hid. by apply Ho. Qed.
Lemma tracks_trans p1 h1 p2 h2 p3 h3 : tracks p1 h1 p2 h2 -> tracks p2 h2 p3 h3 -> tracks p1 h1 p3 h3.
Proof using.
  intros T1 (I2 & S2 & O2). pose proof T1 as (I1 & S1 & O1). split_and!; [|auto|].
  - intros c3 (c2 & Hc2 & ->)%I2. by apply I1.
  - intros d Hv Ho Hd. apply O2; [done|by eapply other_tracks|by apply O1].
Qed.

(** Writing the registers from a configuration that follows that of the process. *)
Lemma configure_tracks p h c c1 c2 q h' : mpu_config p = Some c -> keeps c c1 -> valid c1 ->
  configure_mpu c1 h = Ret (c2, h') -> mpu_config q = Some c2 -> tracks p h q h'.
Proof using.
  intros Hc [E1 K1] Hv Hrun Hq. pose proof (configure_same_id _ _ _ _ Hrun) as E2.
  split_and!; unfold synced, other; rewrite ?Hq.
  - intros c' [= <-]. exists c. split; [done|congruence].
  - intros Hs c' [= <-]. by apply (configure_holds c1 h c2 h'); [|apply K1, Hs|].
  - intros d Hd Ho. specialize (Ho c Hc). rewrite <- E1 in Ho. intros Hs.
    by apply (configure_others c1 d h c2 h').
Qed.

Lemma setup_mpu_tracks p h p' h' : wf p -> setup_mpu p h = Ret (p', h') -> tracks p h p' h'.
Proof using.
  intros Hwf. unfold setup_mpu. destruct (mpu_config p) as [c|] eqn:Hc; intros H; [|inv_ret; by apply follows_tracks].
  apply obind_Ret in H as ([c1 h1] & Hcf & H). inv_ret.
  by apply (configure_tracks p h c c c1); [|apply keeps_step_refl|apply (wf_valid p Hwf)|..].
Qed.

Lemma brk_tracks nb p h r p' h' : wf p -> brk nb p h = Ret (r, p', h') -> tracks p h p' h'.
Proof using.
  intros Hwf. unfold brk. destruct (is_running p) eqn:Hr; cbn [negb]; intros H; [|inv_ret; by apply follows_tracks].
  destruct (mpu_config p) as [c|] eqn:Hc; [|inv_ret; by apply follows_tracks].
  destruct (wf_active p Hwf Hr) as ((Ho1 & Ho2) & (c0 & Hc0 & Hman & _) & _).
  rewrite Hc in Hc0. injection Hc0 as <-.
  destruct (Z.ltb_spec nb (allow_high_water_mark p)); cbn [orb] in H; [inv_ret; by apply follows_tracks|].
  destruct (mem_end p <=? nb); [inv_ret; by apply follows_tracks|].
  destruct (Z.ltb_spec (kernel_memory_break p) nb); [inv_ret; by apply follows_tracks|].
  apply obind_Ret in H as ([r1 c1] & Hup & H). pose proof (update_follows _ _ _ _ _ _ Hup) as Hk.
  destruct r1 as [ []|[]].
  - apply obind_Ret in H as ([c2 h2] & Hcf & H). inv_ret.
    apply (configure_tracks p h c c1 c2); [done..| |done|done].
    destruct (update_ok c c1 (memory_start p) (memory_len p) nb (kernel_memory_break p)) as [Hm _];
      [done|lia|lia|done|]. by eapply manages_valid.
  - inv_ret. by apply follows_tracks, (follows_config _ _ c c1).
Qed.

Lemma remove_region_follow reg p r p' : remove_mpu_region reg p = Ret (r, p') -> follows p p'.
Proof using.
  unfold remove_mpu_region. destruct (mpu_config p) as [c|] eqn:Hc; intros H; [|by inv_ret].
  destruct (find_slot _ _) as [i|]; [|by inv_ret].
  apply obind_Ret in H as ([r1 c1] & Hrm & H). pose proof (remove_region_follows _ _ _ _ Hrm).
  destruct r1; inv_ret; by apply (follows_config _ _ c c1).
Qed.

Lemma add_region_follow u n m p r p' : u32_range u -> add_mpu_region u n m p = Ret (r, p') -> follows p p'.
Proof using.
  intros Hu. unfold add_mpu_region. destruct (mpu_config p) as [c|] eqn:Hc; [|by intros [= <- <-] ].
  intros H. apply obind_Ret in H as ([r1 c1] & Hal & H). pose proof (allocate_region_follows _ _ _ _ _ _ _ Hu Hal).
  apply (follows_config _ _ c c1); [done| |done]. destruct r1; [destruct (fill_slot _ _)|]; by simplify_eq/=.
Qed.

Lemma allocate_internal_follow size align p r p' :
  allocate_in_grant_region_internal size align p = Ret (r, p') -> follows p p'.
Proof using.
  unfold allocate_in_grant_region_internal. destruct (mpu_config p) as [c|] eqn:Hc; intros H; [|by inv_ret].
  destruct (_ <? _); [by inv_ret|]. destruct (_ <? _); [by inv_ret|].
  apply obind_Ret in H as ([r1 c1] & Hup & H). pose proof (update_follows _ _ _ _ _ _ Hup).
  destruct r1 as [ []|[]]; inv_ret; by apply (follows_config _ _ c c1).
Qed.

Lemma allocate_grant_follow num dr size align p k r p' k' :
  allocate_grant num dr size align p k = Ret (r, p', k') -> follows p p'.
Proof using.
  unfold allocate_grant. destruct (negb _); intros H; [by inv_ret|].
  cbn [get_grant_count_and_finalize] in H. destruct (_ <=? _); [by inv_ret|].
  destruct (grant_is_allocated num p) as [ []|]; [by inv_ret|..];
    (destruct (match grant_pointers p with Some gs => _ | None => _ end); [by inv_ret|];
     apply obind_Ret in H as ([o q] & Hal & H); apply allocate_internal_follow in Hal;
     destruct o as [ptr|]; [|by inv_ret]; destruct (grant_pointers q) as [gs|]; [|by inv_ret];
     destruct (gs !! num); by inv_ret).
Qed.

Lemma terminate_follow cc p : follows p (terminate cc p).
Proof using.
  apply follows_same. unfold terminate, grant_ptrs_reset. destruct (_ && _); try done.
  destruct (tasks p); cbn; by destruct (grant_pointers _).
Qed.

Lemma reset_follow p k r p' k' : wf p -> reset CB PS p k = Ret (r, p', k') -> follows p p'.
Proof using.
  intros Hwf H. unfold reset in H. apply obind_Ret in H as ([n k1] & _ & H).
  apply obind_Ret in H as (p1 & Hdbg & H). apply map_debug_frame in Hdbg as (Hs1 & _).
  destruct Hs1 as (E1 & E2 & E3 & E4 & _ & _ & _ & E8 & _).
  cbn [set_process_id memory_start memory_len flash_ptr flash_len mpu_config] in *.
  destruct (mpu_config p1) as [c|] eqn:Hc; [|inv_ret; apply follows_same; congruence].
  apply obind_Ret in H as ([fl c1] & Hfl & H). destruct (wf_flash p Hwf) as [Hfp Hfn].
  cbn [set_mpu_config flash_ptr flash_len] in Hfl. rewrite E3, E4 in Hfl.
  destruct fl as [fl|]; [|inv_ret; by apply follows_none].
  apply obind_Ret in H as (kern & _ & H). apply obind_Ret in H as ([am c2] & Ham & H).
  destruct am as [ [ms ml]|]; [|inv_ret; by apply follows_none].
  assert (Hk : keeps c c2).
  { eapply keeps_step_trans; [apply reset_follows|]. eapply keeps_step_trans; [exact (allocate_region_follows _ _ _ _ _ _ _ Hfp Hfl)|].
    by eapply allocate_app_follows. }
  set (p3 := set_mpu_config (Some c2) _) in H.
  assert (Hp3 : forall st, follows p (set_stored_state st p3)) by (intros st; by apply (follows_config _ _ c c2)).
  destruct (stored_state p3) as [st|] eqn:Est.
  2: { inv_ret. specialize (Hp3 (stored_state p3)). by destruct p3. }
  destruct (ukb_initialize_process _ _ st) as [ [ []|[]] st']; cbn [fst snd] in H; [|by inv_ret].
  apply obind_Ret in H as (rc & _ & H). apply obind_Ret in H as (t & _ & H).
  apply obind_Ret in H as ([r1 p5] & Henq & H). injection H as <- <- <-.
  apply enqueue_task_config in Henq as (_ & _ & _ & _ & _ & _ & _ & F3 & _).
  by apply (follows_config _ _ c c2); [|rewrite F3|].
Qed.

Lemma try_restart_follow cc p k p' k' : wf p -> try_restart CB PS cc p k = Ret (p', k') -> follows p p'.
Proof using.
  intros Hwf. unfold try_restart. case_bool_decide as E; intros H; [by inv_ret|].
  apply obind_Ret in H as ([ [r q] k1] & Hreset & H). destruct (terminate_wf cc p Hwf) as [Hwft _].
  apply reset_follow in Hreset; [|done].
  assert (follows p q) by (eapply follows_trans; [apply terminate_follow|exact Hreset]).
  destruct r; by inv_ret.
Qed.

Lemma start_follow p k p' k' : wf p -> start CB PS p k = Ret (p', k') -> follows p p'.
Proof using.
  intros Hwf. unfold start. destruct (negb _); intros H; [by inv_ret|].
  apply obind_Ret in H as ([ [r q] k1] & Hreset & H). apply reset_follow in Hreset; [|done].
  destruct r; by inv_ret.
Qed.

Lemma fault_follow p k p' k' : wf p -> set_fault_state CB PS fault_action p k = Ret (p', k') -> follows p p'.
Proof using.
  intros Hwf. unfold set_fault_state. destruct (fault_action p); intros H; [done|by eapply try_restart_follow|].
  inv_ret. eapply follows_trans; [apply terminate_follow|by apply follows_same].
Qed.

Lemma return_value_follow rv p k p' k' : wf p ->
  set_syscall_return_value CB PS fault_action rv p k = Ret (p', k') -> follows p p'.
Proof using.
  intros Hwf. unfold set_syscall_return_value. destruct (stored_state p) as [st|]; [|by apply fault_follow].
  destruct (ukb_set_syscall_return_value _ _ st rv) as [ [ []|[]] st']; intros H; [by inv_ret; apply follows_same|].
  apply fault_follow in H; [|by apply set_stored_wf]. done.
Qed.

Lemma function_follow f p k p' k' : wf p ->
  set_process_function CB PS fault_action f p k = Ret (p', k') -> follows p p'.
Proof using.
  intros Hwf. unfold set_process_function. destruct (stored_state p) as [st|]; [|by apply fault_follow].
  destruct (ukb_set_process_function _ _ st f) as [ [ []|[]] st']; intros H; [by inv_ret; apply follows_same|].
  apply fault_follow in H; [|by apply set_stored_wf]. done.
Qed.

(** The operations that touch the registers. *)
Definition writes_hw p h p' h' : Prop :=
  setup_mpu p h = Ret (p', h') \/ (exists nb r, brk nb p h = Ret (r, p', h')) \/
  p' = p /\ (enable_app_mpu h = Ret h' \/ disable_app_mpu h = Ret h').

(** Every other operation leaves the hardware alone and the driver in the picture. *)
Lemma step_follows p h k p' h' k' : wf p -> step (mkWorld p h k) (mkWorld p' h' k') ->
  writes_hw p h p' h' \/ h' = h /\ follows p p'.
Proof using.
  intros Hwf Hstep. unfold writes_hw. inversion Hstep as [? ? ? ? ? ? Hop|? ? ? ? ? Hop|? ? ? ? ? ? Hop|? ? ? ? ? Hop
    |? ? ?|? ? ? ?|? ? ?|? ? ?|? ? ? ?|? ? ? ? ? Hop|? ? ? ? ? ? Hop|? ? ? ? ? Hop|? ? ? ? ? Hop|? ? ? ? ? Hop
    |? ? ? ? Hop|? ? ? ? Hop|u n m ? ? ? ? r Hu Hm _ Hop|? ? ? ? ? ? Hop|? ? ? ? ? ? ? Hop|? ? ? ? ? ? ? Hop
    |? ? ? ? ? ? ? Ha Hn Hop|? ? ? ? ? ? ? Ha Hn Hop|? ? ? ? ? ? ? ? ? ? _ Hop|? ? ? ? ? ? ? _ Hop|num ? ? ? ? r Hal Hop
    |num ? ? ?|? ? ? ? ? ? _ Hop|? ? ? ? ? ? _ Hop|? ? ? ? ? Hop]; subst;
    try (left; by eauto 6); try (right; split; [done|]).
  - apply follows_memory. by eapply enqueue_task_config.
  - destruct (dequeue_task_spec p Hwf) as (ts & ts' & _ & _ & _ & E & _). rewrite E in Hop. by inv_ret; apply follows_same.
  - destruct (remove_upcall_spec id p Hwf) as (ts & ts' & _ & _ & _ & E & _). rewrite E in Hop. by inv_ret; apply follows_same.
  - destruct (remove_pending_upcalls_spec id p Hwf) as (ts & ts' & _ & _ & _ & E & _). rewrite E in Hop. by inv_ret; apply follows_same.
  - apply follows_memory, state_operations_keep. by left.
  - apply follows_memory, state_operations_keep. right; left; by eexists.
  - apply follows_memory, state_operations_keep. by do 2 right; left.
  - apply follows_memory, state_operations_keep. by do 3 right.
  - apply terminate_follow.
  - by eapply start_follow.
  - by eapply try_restart_follow.
  - by eapply fault_follow.
  - apply map_debug_frame in Hop as (? & _). by apply follows_memory.
  - by apply (add_region_follow u n m p r).
  - by eapply remove_region_follow.
  - unfold sbrk in Hop. destruct (negb _); [right; by inv_ret|left; by eauto 6].
  - apply build_readwrite_spec in Hop as (_ & Hs & _); [|done..]. by apply follows_memory in Hs.
  - apply build_readonly_spec in Hop as (_ & Hs & _); [|done..]. by apply follows_memory in Hs.
  - by eapply allocate_grant_follow.
  - unfold allocate_custom_grant in Hop. destruct (negb _); [by inv_ret|].
    apply obind_Ret in Hop as ([o q] & Hal' & Hop). apply allocate_internal_follow in Hal'.
    destruct o; [apply obind_Ret in Hop as (? & _ & Hop)|]; by inv_ret.
  - destruct (enter_grant_wf num p r p') as [_ [->|[gs ->] ] ]; [done..|by apply follows_same].
  - destruct (leave_grant_wf num p Hwf) as [_ [->|[gs ->] ] ]; by apply follows_same.
  - by eapply return_value_follow.
  - by eapply function_follow.
  - apply switch_to_wf in Hop as (_ & ? & _); [|done]. by apply follows_memory.
Qed.

Lemma step_tracks p h k p' h' k' : wf p -> step (mkWorld p h k) (mkWorld p' h' k') -> tracks p h p' h'.
Proof using.
  intros Hwf [ [Hs|[(nb & r & Hb)|[-> Hen] ] ]|[-> Hf] ]%step_follows; [..|done].
  - by apply setup_mpu_tracks.
  - by eapply brk_tracks.
  - assert (Hk : forall d, valid d -> in_step d h -> in_step d h').
    { intros d Hv Hd. destruct Hen; [by eapply enable_in_step|by eapply disable_in_step]. }
    split_and!; [by eauto| |by auto]. intros Hs c Hc. apply Hk; [by apply (wf_valid p Hwf)|by apply Hs].
  - by apply follows_tracks.
Qed.

(** A new process has a configuration of its own, in step with the hardware, and the
    configurations of the processes there are stay in step. *)
Lemma create_synced uninit pb ptr len idx k h p rest k' h' :
  sound_hw h -> u32_range (pb_flash_ptr pb) ->
  create CB PS uninit pb (ptr, len) idx k h = Ret (Ok (p, rest), k', h') ->
  synced p h' /\ (exists c, mpu_config p = Some c /\ config_id c = next_id h) /\ next_id h < next_id h' /\
  sound_hw h' /\ forall d, in_step d h -> in_step d h'.
Proof using.
  intros Hh Hfp H. unfold create in H. destruct (new_config h) as [ [c|] h1] eqn:Hnc; [|by inv_ret].
  destruct (new_config_fresh _ _ _ Hh Hnc) as (Hin & Hid & Hlt & Hh1 & Hoth).
  apply obind_Ret in H as ([rf c1] & Hf & H). apply allocate_region_follows in Hf as Hk1; [|done].
  destruct rf as [rf|]; [|by inv_ret]. cbn [get_grant_count_and_finalize] in H.
  apply obind_Ret in H as (gp & _ & H). apply obind_Ret in H as (kern & _ & H).
  apply obind_Ret in H as (tot & _ & H). apply obind_Ret in H as (m & _ & H).
  destruct m as [ [ptr1 len1]|e]; [|by inv_ret].
  apply obind_Ret in H as ([am c2] & Ham & H). apply allocate_app_follows in Ham as Hk2.
  destruct (keeps_step_trans _ _ _ Hk1 Hk2) as [Eid Hks]. destruct am as [ [ms ml]|]; [|by inv_ret].
  apply obind_Ret in H as (off & _ & H). apply obind_Ret in H as (mis & _ & H). destruct mis as [e|]; [by inv_ret|].
  apply obind_Ret in H as (cut & _ & H). apply obind_Ret in H as ([apm unused] & _ & H).
  apply obind_Ret in H as ([pad alm] & _ & H). apply obind_Ret in H as ([aam akm] & _ & H).
  apply obind_Ret in H as ([uid k2] & _ & H).
  destruct (ukb_initialize_process _ _ _) as [ [[]|[]] st]; [|by inv_ret].
  apply obind_Ret in H as (t & _ & H). apply obind_Ret in H as (ts & _ & H).
  injection H as <- _ _ <-. split_and!; [|exists c2; split; [done|congruence]|done..].
  intros c' [= <-]. by apply Hks.
Qed.

End processes.

#[export] Instance demo_enforces : MpuEnforces CortexM.Mpu CortexM.CortexMConfig.
Proof. apply cortexm_enforces. Defined.

End Enforce.
