(* ===== verification/Grant.v ===== *)
(** Grants ([kernel/src/grant.rs]): per-process memory that a driver keeps in the
    kernel-owned part of a process.

    The kernel-managed part of a grant is raw memory: a word of packed counters
    followed by the saved upcalls and the saved read-only and read-write buffers,
    then padding and the driver's own data.  [Grant.memory] is that memory, byte
    by byte; the operations compute addresses in it the way the source does with
    pointers.  The abstract table of a grant and the relation between the two are
    in [GrantSpec]. *)

From stdpp Require Import base numbers list gmap.
From S2P Require Import Prelude RingBuffer Mpu Syscall Process ProcessInv.
Import Ring Mpu Syscall Proc ProcInv.
Local Open Scope Z_scope.

Module Grant.

(** * Memory

    Little-endian, as on all targets; a byte that was never written reads as
    zero. *)
Notation memory := (gmap Z Z).

Definition load8 (m : memory) (a : Z) : Z := default 0 (m !! a).
Definition read_usize (m : memory) (a : Z) : Z :=
  load8 m a + 2 ^ 8 * load8 m (a + 1) + 2 ^ 16 * load8 m (a + 2) + 2 ^ 24 * load8 m (a + 3).
Definition write_usize (a v : Z) (m : memory) : memory :=
  <[a := v mod U8]> (<[a + 1 := (v / 2 ^ 8) mod U8]>
    (<[a + 2 := (v / 2 ^ 16) mod U8]> (<[a + 3 := (v / 2 ^ 24) mod U8]> m))).

(** [core::ptr::write] of a value given by its bytes. *)
Fixpoint write_bytes (a : Z) (bs : list Z) (m : memory) : memory :=
  match bs with
  | [] => m
  | b :: bs => <[a := b]> (write_bytes (a + 1) bs m)
  end.
Definition read_bytes (m : memory) (a : Z) (n : nat) : list Z :=
  map (fun i => load8 m (a + Z.of_nat i)) (seq 0 n).

(** * Data *)

Record SavedUpcall := mkSavedUpcall { su_appdata : Z; su_fn_ptr : option Z }.
(** [SavedAllowRo] and [SavedAllowRw]: same fields, same layout. *)
Record SavedAllow := mkSavedAllow { sa_ptr : Z; sa_len : Z }.

(** A [#[repr(C)]] type of two words with a default value. *)
Class Repr (A : Type) := {
  words : A -> Z * Z;
  of_words : Z * Z -> A;
  fresh_value : A;
}.
#[export] Instance SavedUpcall_repr : Repr SavedUpcall := {|
  words s := (su_appdata s, default 0 (su_fn_ptr s));
  of_words w := mkSavedUpcall w.1 (if w.2 =? 0 then None else Some w.2);
  fresh_value := mkSavedUpcall 0 None;
|}.
#[export] Instance SavedAllow_repr : Repr SavedAllow := {|
  words s := (sa_ptr s, sa_len s);
  of_words w := mkSavedAllow w.1 w.2;
  fresh_value := mkSavedAllow 0 0;
|}.

Definition SLOT_SIZE : Z := 8.

Section slots.
  Context {A : Type} `{Repr A}.

Definition load (m : memory) (a : Z) : A := of_words (read_usize m a, read_usize m (a + WORD)).
Definition store (a : Z) (x : A) (m : memory) : memory :=
  write_usize a (words x).1 (write_usize (a + WORD) (words x).2 m).

(** [base.add(i)] for a pointer to [A]. *)
Definition slot (base : Z) (i : Z) : Z := base + SLOT_SIZE * i.

(** [slice::from_raw_parts(base, n)], and [get_mut(i)] of it. *)
Definition slots (m : memory) (base : Z) (n : Z) : list A :=
  map (fun i => load m (slot base (Z.of_nat i))) (seq 0 (Z.to_nat n)).
Definition get_mut (base n i : Z) : option Z :=
  if i <? n then Some (slot base i) else None.

Fixpoint write_default_array_from (base : Z) (i n : nat) (m : memory) : memory :=
  match n with
  | O => m
  | S n => write_default_array_from base (S i) n (store (slot base (Z.of_nat i)) fresh_value m)
  end.
Definition write_default_array (base n : Z) (m : memory) : memory :=
  write_default_array_from base 0 (Z.to_nat n) m.

End slots.
Arguments load A {_}.
Arguments slots A {_}.
Arguments write_default_array A {_}.
Arguments write_default_array_from A {_}.

Record Layout := mkLayout {
  l_grant_num : nat;
  counters_ptr : Z;
  upcalls_array : Z;
  allow_ro_array : Z;
  allow_rw_array : Z;
}.

Definition to_be_bytes32 (v : Z) : list Z :=
  map (fun i => Z.land (Z.shiftr v (8 * i)) 255) [3; 2; 1; 0].

Definition read_from_base (base_ptr : Z) (grant_num : nat) (m : memory) : Layout :=
  let counters_val := read_usize m base_ptr in
  let '(allow_ro_num, upcalls_num) :=
    match to_be_bytes32 counters_val with
    | [_; _; ro; up] => (ro, up)
    | _ => (0, 0)
    end in
  let upcalls_array := base_ptr + WORD in
  let allow_ro_array := slot upcalls_array upcalls_num in
  let allow_rw_array := slot allow_ro_array allow_ro_num in
  mkLayout grant_num base_ptr upcalls_array allow_ro_array allow_rw_array.

Definition initialize_from_counts (base_ptr upcalls_num allow_ro_num allow_rw_num : Z)
    (grant_num : nat) (m : memory) : Layout * memory :=
  let counter := from_be_bytes32 0 allow_rw_num allow_ro_num upcalls_num in
  let upcalls_array := base_ptr + WORD in
  let allow_ro_array := slot upcalls_array upcalls_num in
  let allow_rw_array := slot allow_ro_array allow_ro_num in
  let m := write_usize base_ptr counter m in
  let m := write_default_array SavedUpcall upcalls_array upcalls_num m in
  let m := write_default_array SavedAllow allow_ro_array allow_ro_num m in
  let m := write_default_array SavedAllow allow_rw_array allow_rw_num m in
  (mkLayout grant_num base_ptr upcalls_array allow_ro_array allow_rw_array, m).

Definition grant_size (upcalls_num allow_ro_num allow_rw_num grant_t_size grant_t_align : Z)
    : outcome Z :=
  let! s1 := mul32 upcalls_num SLOT_SIZE in
  let! s2 := mul32 allow_ro_num SLOT_SIZE in
  let! s3 := mul32 allow_rw_num SLOT_SIZE in
  let! s := add32 WORD s1 in
  let! s := add32 s s2 in
  let! kernel_managed_size := add32 s s3 in
  let! grant_t_align_mask := sub32 grant_t_align 1 in
  let! d := sub32 grant_t_align (Z.land kernel_managed_size grant_t_align_mask) in
  let padding := Z.land d grant_t_align_mask in
  let! s := add32 kernel_managed_size padding in
  add32 s grant_t_size.

Definition grant_align (grant_t_align : Z) : Z := Z.max WORD grant_t_align.

Definition offset_of_grant_data_t (base_ptr grant_size grant_t_size : Z) : outcome Z :=
  let! off := sub32 grant_size grant_t_size in
  Ret (base_ptr + off).

Definition get_counter_offset (l : Layout) (m : memory) (offset_bits : Z) : Z :=
  Z.land (Z.shiftr (read_usize m (counters_ptr l)) offset_bits) 255.
Definition get_upcalls_number (l : Layout) (m : memory) : Z := get_counter_offset l m 0.
Definition get_allow_ro_number (l : Layout) (m : memory) : Z := get_counter_offset l m 8.
Definition get_allow_rw_number (l : Layout) (m : memory) : Z := get_counter_offset l m 16.

Definition get_resource_slices (l : Layout) (m : memory)
    : list SavedUpcall * list SavedAllow * list SavedAllow :=
  (slots SavedUpcall m (upcalls_array l) (get_upcalls_number l m),
   slots SavedAllow m (allow_ro_array l) (get_allow_ro_number l m),
   slots SavedAllow m (allow_rw_array l) (get_allow_rw_number l m)).

(** * Operations of the kernel on a process's grants *)

Section operations.
  Context {hw config stored : Type} {mpu : MPU hw config}.
  Implicit Type p : process stored config.

Definition enter_grant_kernel_managed (driver_num : Z) p (m : memory)
    : result Layout ErrorCode * process stored config :=
  match lookup_grant_from_driver_num driver_num p with
  | Err e => (Err (errorcode_of_error e), p)
  | Ok grant_num =>
    match grant_is_allocated grant_num p with
    | Some false => (Err NOMEM, p)
    | None => (Err FAIL, p)
    | Some true =>
      let '(r, p) := enter_grant grant_num p in
      match r with
      | Err _ => (Err NOMEM, p)
      | Ok grant_base_ptr => (Ok (read_from_base grant_base_ptr grant_num m), p)
      end
    end
  end.

Definition subscribe (u : Upcall) p (m : memory)
    : result Upcall (Upcall * ErrorCode) * process stored config * memory :=
  let '(r, p) := enter_grant_kernel_managed (driver_num (up_upcall_id u)) p m in
  match r with
  | Err e => (Err (u, e), p, m)
  | Ok layout =>
    let '(res, m) :=
      match get_mut (upcalls_array layout) (get_upcalls_number layout m)
              (subscribe_num (up_upcall_id u)) with
      | Some a =>
        let saved_upcall := load SavedUpcall m a in
        let old_upcall := mkUpcall (process_id p) (up_upcall_id u)
                            (su_appdata saved_upcall) (su_fn_ptr saved_upcall) in
        (Ok old_upcall, store a (mkSavedUpcall (appdata u) (fn_ptr u)) m)
      | None => (Err (u, NOSUPPORT), m)
      end in
    (res, leave_grant (l_grant_num layout) p, m)
  end.

Definition allow_ro (driver_num allow_num : Z) (buffer : ProcessBuffer) p (m : memory)
    : result ProcessBuffer (ProcessBuffer * ErrorCode) * process stored config * memory :=
  let '(r, p) := enter_grant_kernel_managed driver_num p m in
  match r with
  | Err e => (Err (buffer, e), p, m)
  | Ok layout =>
    let '(res, m) :=
      match get_mut (allow_ro_array layout) (get_allow_ro_number layout m) allow_num with
      | Some a =>
        let saved := load SavedAllow m a in
        let old_allow := mkProcessBuffer (sa_ptr saved) (sa_len saved) (process_id p) in
        (Ok old_allow, store a (mkSavedAllow (buf_ptr buffer) (buf_len buffer)) m)
      | None => (Err (buffer, NOSUPPORT), m)
      end in
    (res, leave_grant (l_grant_num layout) p, m)
  end.

Definition allow_rw (driver_num allow_num : Z) (buffer : ProcessBuffer) p (m : memory)
    : result ProcessBuffer (ProcessBuffer * ErrorCode) * process stored config * memory :=
  let '(r, p) := enter_grant_kernel_managed driver_num p m in
  match r with
  | Err e => (Err (buffer, e), p, m)
  | Ok layout =>
    let '(res, m) :=
      match get_mut (allow_rw_array layout) (get_allow_rw_number layout m) allow_num with
      | Some a =>
        let saved := load SavedAllow m a in
        let old_allow := mkProcessBuffer (sa_ptr saved) (sa_len saved) (process_id p) in
        (Ok old_allow, store a (mkSavedAllow (buf_ptr buffer) (buf_len buffer)) m)
      | None => (Err (buffer, NOSUPPORT), m)
      end in
    (res, leave_grant (l_grant_num layout) p, m)
  end.

(** * Operations of a driver on its grant *)

(** A [Grant<T, Upcalls, AllowROs, AllowRWs>]: its numbers, its counts, and
    [T]'s layout and default value (as bytes). *)
Record GrantType := mkGrantType {
  g_grant_num : nat;
  g_driver_num : Z;
  g_upcalls : Z;
  g_allow_ros : Z;
  g_allow_rws : Z;
  g_t_align : Z;
  g_t_default : list Z;
}.
Definition g_t_size (g : GrantType) : Z := Z.of_nat (length (g_t_default g)).

(** [ProcessGrant::new] for a process that was found. *)
Definition process_grant_new (g : GrantType) p (k : Kernel) (m : memory)
    : outcome (result unit Error * process stored config * Kernel * memory) :=
  match grant_is_allocated (g_grant_num g) p with
  | Some false =>
    let alloc_align := grant_align (g_t_align g) in
    let! alloc_size := grant_size (g_upcalls g) (g_allow_ros g) (g_allow_rws g)
                         (g_t_size g) (g_t_align g) in
    let! '(r, p, k) := allocate_grant (g_grant_num g) (g_driver_num g)
                         alloc_size alloc_align p k in
    match r with
    | Err _ => Ret (Err OutOfMemory, p, k, m)
    | Ok _ =>
      let '(r, p) := enter_grant (g_grant_num g) p in
      match r with
      | Err e => Ret (Err e, p, k, m)
      | Ok grant_ptr =>
        let '(_, m) := initialize_from_counts grant_ptr (g_upcalls g) (g_allow_ros g)
                         (g_allow_rws g) (g_grant_num g) m in
        let p := leave_grant (g_grant_num g) p in
        let! allocated_ptr := offset_of_grant_data_t grant_ptr alloc_size (g_t_size g) in
        Ret (Ok tt, p, k, write_bytes allocated_ptr (g_t_default g) m)
      end
    end
  | Some true => Ret (Ok tt, p, k, m)
  | None => Ret (Err InactiveApp, p, k, m)
  end.

(** What a driver can do with the data and the kernel resources of an entered
    grant: [GrantKernelData] and [GrantData]. *)
Definition schedule_upcall (g : GrantType) (upcalls : list SavedUpcall) (subscribe_num : Z)
    (r0 r1 r2 : Z) p : outcome (result unit UpcallError * process stored config) :=
  match upcalls !! Z.to_nat subscribe_num with
  | None => Ret (Err InvalidSubscribeNum, p)
  | Some saved_upcall =>
    let upcall := mkUpcall (process_id p) (mkUpcallId (g_driver_num g) subscribe_num)
                    (su_appdata saved_upcall) (su_fn_ptr saved_upcall) in
    schedule upcall p r0 r1 r2
  end.

Definition get_processbuffer (allows : list SavedAllow) (allow_num : Z) p
    : result ProcessBuffer Error :=
  match allows !! Z.to_nat allow_num with
  | None => Err AddressOutOfBounds
  | Some saved => Ok (mkProcessBuffer (sa_ptr saved) (sa_len saved) (process_id p))
  end.

(** [ProcessGrant::access_grant_with_allocator]: [fun_] is the driver's closure,
    which gets the bytes of its data and the kernel resources and gives new
    bytes; the grant is left when it returns. *)
Definition access_grant {R} (g : GrantType)
    (fun_ : list Z -> list SavedUpcall -> list SavedAllow -> list SavedAllow ->
            process stored config -> outcome (R * list Z * process stored config))
    (panic_on_reenter : bool) p (m : memory)
    : outcome (option R * process stored config * memory) :=
  let '(r, p) := enter_grant (g_grant_num g) p in
  match r with
  | Err _ => if panic_on_reenter then Panic else Ret (None, p, m)
  | Ok grant_ptr =>
    let! alloc_size := grant_size (g_upcalls g) (g_allow_ros g) (g_allow_rws g)
                         (g_t_size g) (g_t_align g) in
    let layout := read_from_base grant_ptr (g_grant_num g) m in
    let '(saved_upcalls, saved_allow_ro, saved_allow_rw) := get_resource_slices layout m in
    let! data_ptr := offset_of_grant_data_t grant_ptr alloc_size (g_t_size g) in
    let data := read_bytes m data_ptr (length (g_t_default g)) in
    let! '(res, data, p) := fun_ data saved_upcalls saved_allow_ro saved_allow_rw p in
    let m := write_bytes data_ptr data m in
    Ret (Some res, leave_grant (g_grant_num g) p, m)
  end.

(** [Grant::enter]. *)
Definition grant_enter {R} (g : GrantType)
    (fun_ : list Z -> list SavedUpcall -> list SavedAllow -> list SavedAllow ->
            process stored config -> outcome (R * list Z * process stored config))
    p (k : Kernel) (m : memory)
    : outcome (result R Error * process stored config * Kernel * memory) :=
  let! '(r, p, k, m) := process_grant_new g p k m in
  match r with
  | Err e => Ret (Err e, p, k, m)
  | Ok _ =>
    let! '(o, p, m) := access_grant g fun_ true p m in
    let! res := of_option o in
    Ret (Ok res, p, k, m)
  end.

(** [GrantRegionAllocator::alloc_n_raw_inner] for a process that was found. *)
Definition alloc_n_raw_inner (num_items single_alloc_size alloc_align : Z) p
    : outcome (result (Z * Z) Error * process stored config) :=
  let alloc_size := single_alloc_size * num_items in
  if U32 <=? alloc_size then Ret (Err OutOfMemory, p)
  else
    let! '(r, p) := allocate_custom_grant alloc_size alloc_align p in
    match r with
    | Err _ => Ret (Err OutOfMemory, p)
    | Ok x => Ret (Ok x, p)
    end.

End operations.
End Grant.
