(* ===== verification/GrantSpec.v ===== *)
(** Correctness of grants: the layout of a grant, and the refinement of the raw
    memory of all grants of a process to a table of saved upcalls, saved buffers
    and driver data, over every sequence of subscriptions, allows and entries by
    drivers. *)

From stdpp Require Import base numbers list gmap.
From S2P Require Import Prelude RingBuffer Math Mpu Syscall Process ProcessInv ProcessSpec Grant.
Import Ring Mpu Syscall Proc ProcInv ProcSpec Grant.
Local Open Scope Z_scope.

Module GrantSpec.

(** * Memory lemmas *)

Lemma load8_insert m a b v : load8 (<[a := v]> m) b = if decide (a = b) then v else load8 m b.
Proof.
  unfold load8. destruct (decide (a = b)) as [->|Hne].
  - by rewrite lookup_insert_eq.
  - by rewrite lookup_insert_ne.
Qed.

Lemma load8_write_usize a v m b :
  ~ a <= b < a + 4 -> load8 (write_usize a v m) b = load8 m b.
Proof.
  intros Hb. unfold write_usize. rewrite !load8_insert.
  repeat (destruct (decide _); [lia|]). done.
Qed.

Lemma read_usize_agree m m' a :
  (forall b, a <= b < a + 4 -> load8 m b = load8 m' b) -> read_usize m a = read_usize m' a.
Proof. intros Ha. unfold read_usize. by rewrite !Ha by lia. Qed.

Lemma read_write_usize a v m : u32_range v -> read_usize (write_usize a v m) a = v.
Proof.
  intros [Hl Hu]. unfold read_usize, write_usize, U8, U32 in *. rewrite !load8_insert.
  repeat (destruct (decide _); try lia). Z.to_euclidean_division_equations. lia.
Qed.

Section slots.
  Context {A : Type} `{Repr A}.

(** Values that fit two words and are recovered from them. *)
Definition storable (x : A) : Prop :=
  u32_range (words x).1 /\ u32_range (words x).2 /\ of_words (words x) = x.

Lemma load8_store a (x : A) m b :
  ~ a <= b < a + 8 -> load8 (store a x m) b = load8 m b.
Proof.
  intros Hb. unfold store, WORD. rewrite !load8_write_usize by lia. done.
Qed.

Lemma load_agree m m' a :
  (forall b, a <= b < a + 8 -> load8 m b = load8 m' b) -> load A m a = load A m' a.
Proof.
  intros Ha. unfold load, WORD.
  rewrite (read_usize_agree m m' a), (read_usize_agree m m' (a + 4)); [done|..];
    intros b Hb; apply Ha; lia.
Qed.

Lemma load_store a (x : A) m : storable x -> load A (store a x m) a = x.
Proof.
  intros (H1 & H2 & H3). unfold load, store, WORD.
  rewrite read_write_usize by done.
  rewrite (read_usize_agree _ (write_usize (a + 4) (words x).2 m) (a + 4)).
  - rewrite read_write_usize by done. by rewrite <- surjective_pairing.
  - intros b Hb. apply load8_write_usize. lia.
Qed.

Lemma slots_length m base n : length (slots A m base n) = Z.to_nat n.
Proof. unfold slots. by rewrite length_map, length_seq. Qed.

Lemma slots_lookup m base n i :
  (i < Z.to_nat n)%nat -> slots A m base n !! i = Some (load A m (slot base (Z.of_nat i))).
Proof.
  intros Hi. unfold slots. rewrite list_lookup_fmap, lookup_seq_lt by done. done.
Qed.

Lemma slots_agree m m' base n :
  (forall b, base <= b < base + 8 * n -> load8 m b = load8 m' b) ->
  slots A m base n = slots A m' base n.
Proof.
  intros Ha. apply list_eq_same_length with (n := Z.to_nat n); [by rewrite slots_length..|].
  intros i x y Hi. rewrite !slots_lookup by done. intros Hx Hy. simplify_eq.
  apply load_agree. intros b Hb. apply Ha. unfold slot, SLOT_SIZE in Hb. lia.
Qed.

Lemma slots_store m base n i (x : A) :
  storable x -> 0 <= i < n ->
  slots A (store (slot base i) x m) base n = <[Z.to_nat i := x]> (slots A m base n).
Proof.
  intros Hx Hi. apply list_eq_same_length with (n := Z.to_nat n);
    [by rewrite ?length_insert, slots_length..|].
  intros j y z Hj. rewrite slots_lookup by done. intros Hy. simplify_eq.
  destruct (decide (j = Z.to_nat i)) as [->|Hne].
  - rewrite list_lookup_insert_eq by (by rewrite slots_length). rewrite Z2Nat.id by lia.
    rewrite load_store by done. by intros ?; simplify_eq.
  - rewrite list_lookup_insert_ne by done. rewrite slots_lookup by done.
    intros ?; simplify_eq. apply load_agree. intros b Hb. apply load8_store.
    unfold slot, SLOT_SIZE in *. lia.
Qed.

Lemma write_default_from_other base i n m b :
  ~ (base + 8 * Z.of_nat i <= b < base + 8 * Z.of_nat (i + n)) ->
  load8 (write_default_array_from A base i n m) b = load8 m b.
Proof.
  revert i m. induction n as [|n IH]; intros i m Hb; [done|]. cbn.
  rewrite IH by lia. apply load8_store. unfold slot, SLOT_SIZE. lia.
Qed.

Lemma write_default_from_slots base i n m j :
  storable fresh_value -> (i <= j < i + n)%nat ->
  load A (write_default_array_from A base i n m) (slot base (Z.of_nat j)) = fresh_value.
Proof.
  intros Hf. revert i m. induction n as [|n IH]; intros i m Hj; [lia|]. cbn.
  destruct (decide (j = i)) as [->|]; [|apply IH; lia].
  erewrite load_agree; [apply load_store, Hf|]. intros b Hb.
  apply write_default_from_other. unfold slot, SLOT_SIZE in Hb. lia.
Qed.

Lemma write_default_other base n m b :
  0 <= n -> ~ (base <= b < base + 8 * n) -> load8 (write_default_array A base n m) b = load8 m b.
Proof. intros Hn Hb. apply write_default_from_other. lia. Qed.

Lemma write_default_slots base n m :
  storable fresh_value ->
  slots A (write_default_array A base n m) base n = replicate (Z.to_nat n) fresh_value.
Proof.
  intros Hf. apply list_eq_same_length with (n := Z.to_nat n);
    [by rewrite length_replicate|by rewrite slots_length|].
  intros j x y Hj. rewrite slots_lookup by done. rewrite lookup_replicate_2 by done.
  unfold write_default_array. rewrite write_default_from_slots by (done || lia). congruence.
Qed.

End slots.

Lemma load8_write_bytes a bs m b :
  ~ (a <= b < a + Z.of_nat (length bs)) -> load8 (write_bytes a bs m) b = load8 m b.
Proof.
  revert a. induction bs as [|x bs IH]; intros a Hb; [done|]. cbn [write_bytes length] in *.
  rewrite load8_insert. destruct (decide (a = b)); [lia|]. apply IH. lia.
Qed.

Lemma read_write_bytes a bs m : read_bytes (write_bytes a bs m) a (length bs) = bs.
Proof.
  revert a. induction bs as [|x bs IH]; intros a; [done|].
  cbn [write_bytes length]. unfold read_bytes. cbn [seq map]. f_equal.
  - rewrite load8_insert, decide_True by lia. done.
  - rewrite <- (IH (a + 1)) at 2. unfold read_bytes.
    rewrite <- seq_shift, map_map. apply map_ext. intros i.
    rewrite load8_insert, decide_False by lia. f_equal. lia.
Qed.

Lemma read_bytes_agree m m' a n :
  (forall b, a <= b < a + Z.of_nat n -> load8 m b = load8 m' b) ->
  read_bytes m a n = read_bytes m' a n.
Proof.
  intros Ha. unfold read_bytes. apply map_ext_in. intros i Hi%in_seq. apply Ha. lia.
Qed.

(** * The layout of a grant *)

Definition kernel_managed (g : GrantType) : Z :=
  4 + 8 * (g_upcalls g + g_allow_ros g + g_allow_rws g).
Definition padding (g : GrantType) : Z := (- kernel_managed g) mod g_t_align g.
Definition layout_size (g : GrantType) : Z := kernel_managed g + padding g + g_t_size g.
Definition data_ptr (g : GrantType) (base : Z) : Z := base + kernel_managed g + padding g.

(** A grant type that Rust accepts: byte-sized counts, a power-of-two alignment,
    and a layout that fits the address space. *)
Record type_ok (g : GrantType) : Prop := mkTypeOk {
  ok_upcalls : 0 <= g_upcalls g < U8;
  ok_ros : 0 <= g_allow_ros g < U8;
  ok_rws : 0 <= g_allow_rws g < U8;
  ok_align : exists j, 0 <= j <= 31 /\ g_t_align g = 2 ^ j;
  ok_fits : layout_size g + grant_align (g_t_align g) <= U32;
}.

Lemma type_ok_sizes g :
  type_ok g -> 4 <= kernel_managed g /\ 0 < g_t_align g /\ 0 <= padding g < g_t_align g /\
    0 <= g_t_size g /\ layout_size g + 4 <= U32 /\
    (g_t_align g | kernel_managed g + padding g).
Proof.
  intros [H1 H2 H3 (j & Hj & E) H5]. unfold grant_align, WORD in H5.
  assert (0 < g_t_align g) by (rewrite E; apply Z.pow_pos_nonneg; lia).
  pose proof (Z.mod_pos_bound (- kernel_managed g) (g_t_align g) ltac:(done)).
  fold (padding g) in *. unfold layout_size in *.
  assert (4 <= kernel_managed g) by (unfold kernel_managed; lia).
  assert (0 <= g_t_size g) by (unfold g_t_size; lia).
  split_and!; try lia. apply Z.mod_divide; [lia|]. unfold padding.
  rewrite Z.add_mod_idemp_r by lia. replace (_ + _) with 0 by lia. apply Z.mod_0_l. lia.
Qed.

Lemma grant_size_ok g :
  type_ok g ->
  grant_size (g_upcalls g) (g_allow_ros g) (g_allow_rws g) (g_t_size g) (g_t_align g)
    = Ret (layout_size g).
Proof.
  intros Hok. pose proof (type_ok_sizes g Hok) as (Hk & Ha & Hp & Ht & Hs & _).
  destruct Hok as [H1 H2 H3 (j & Hj & E) H5]. unfold U8 in *.
  unfold grant_size, SLOT_SIZE, WORD. unfold layout_size, U32 in Hs.
  assert (Ha32 : g_t_align g <= 2 ^ 31) by (rewrite E; apply Z.pow_le_mono_r; lia).
  do 6 ck. replace (4 + g_upcalls g * 8 + g_allow_ros g * 8 + g_allow_rws g * 8)
    with (kernel_managed g) by (unfold kernel_managed; lia).
  ck. assert (Hmask : forall x, Z.land x (g_t_align g - 1) = x mod g_t_align g).
  { intros x. rewrite E.
    replace (2 ^ j - 1) with (Z.ones j) by (rewrite Z.ones_equiv; lia).
    by rewrite Z.land_ones by lia. }
  rewrite !Hmask. pose proof (Z.mod_pos_bound (kernel_managed g) (g_t_align g) Ha). ck.
  assert (Hpad : (g_t_align g - kernel_managed g mod g_t_align g) mod g_t_align g = padding g).
  { unfold padding. rewrite <- Zminus_mod_idemp_l, Z.mod_same, Zminus_mod_idemp_r by lia.
    f_equal. }
  cbv zeta. rewrite Hmask, Hpad. ck. ck. done.
Qed.

(** * The packed counters *)

Lemma lor_shiftl_add a b n :
  0 <= n -> 0 <= b < 2 ^ n -> Z.lor (Z.shiftl a n) b = a * 2 ^ n + b.
Proof.
  intros Hn Hb. pose proof (Z.add_lor_land (Z.shiftl a n) b) as Hsum.
  assert (Z.land (Z.shiftl a n) b = 0) as Hz; [|rewrite Z.shiftl_mul_pow2 in * by done; lia].
  apply Z.bits_inj'. intros i Hi. rewrite Z.land_spec, Z.bits_0.
  destruct (Z.lt_ge_cases i n).
  - rewrite Z.shiftl_spec_low by done. done.
  - rewrite <- (Z.mod_small b (2 ^ n)) by done. rewrite Z.mod_pow2_bits_high by lia.
    apply andb_false_r.
Qed.

Definition counter (g : GrantType) : Z :=
  from_be_bytes32 0 (g_allow_rws g) (g_allow_ros g) (g_upcalls g).

Lemma counter_value g :
  type_ok g -> counter g = g_upcalls g + 2 ^ 8 * g_allow_ros g + 2 ^ 16 * g_allow_rws g.
Proof.
  intros [H1 H2 H3 _ _]. unfold counter, from_be_bytes32, U8 in *.
  rewrite Z.shiftl_0_l, Z.lor_0_l, (lor_shiftl_add (g_allow_ros g)) by lia.
  rewrite lor_shiftl_add by lia. lia.
Qed.

Lemma land_byte x k : 0 <= k -> Z.land (Z.shiftr x k) 255 = (x / 2 ^ k) mod U8.
Proof.
  intros Hk. change 255 with (Z.ones 8). rewrite Z.land_ones, Z.shiftr_div_pow2 by lia. done.
Qed.

Lemma counter_range g : type_ok g -> u32_range (counter g).
Proof.
  intros Hok. rewrite counter_value by done. destruct Hok as [H1 H2 H3 _ _].
  unfold U8, u32_range, U32 in *. lia.
Qed.

(** Reading the counters back, as [read_from_base] and the accessors do. *)
Lemma counter_fields g :
  type_ok g ->
  Z.land (Z.shiftr (counter g) 0) 255 = g_upcalls g /\
  Z.land (Z.shiftr (counter g) 8) 255 = g_allow_ros g /\
  Z.land (Z.shiftr (counter g) 16) 255 = g_allow_rws g.
Proof.
  intros Hok. rewrite !land_byte, counter_value by (done || lia).
  destruct Hok as [H1 H2 H3 _ _]. unfold U8 in *.
  change (2 ^ 8) with 256 in *. change (2 ^ 0) with 1. change (2 ^ 16) with 65536.
  split_and!; Z.to_euclidean_division_equations; lia.
Qed.

(** * The contents of a grant *)

Record table := mkTable {
  t_upcalls : list SavedUpcall;
  t_ros : list SavedAllow;
  t_rws : list SavedAllow;
  t_data : list Z;
}.

Definition fresh_table (g : GrantType) : table :=
  mkTable (replicate (Z.to_nat (g_upcalls g)) fresh_value)
    (replicate (Z.to_nat (g_allow_ros g)) fresh_value)
    (replicate (Z.to_nat (g_allow_rws g)) fresh_value) (g_t_default g).

Definition ro_array (g : GrantType) (base : Z) : Z := base + 4 + 8 * g_upcalls g.
Definition rw_array (g : GrantType) (base : Z) : Z := ro_array g base + 8 * g_allow_ros g.

(** Memory [m] holds a grant of type [g] with contents [t] at [base]. *)
Record grant_in (m : memory) (base : Z) (g : GrantType) (t : table) : Prop := mkGrantIn {
  gi_counter : read_usize m base = counter g;
  gi_upcalls : slots SavedUpcall m (base + 4) (g_upcalls g) = t_upcalls t;
  gi_ros : slots SavedAllow m (ro_array g base) (g_allow_ros g) = t_ros t;
  gi_rws : slots SavedAllow m (rw_array g base) (g_allow_rws g) = t_rws t;
  gi_data : read_bytes m (data_ptr g base) (length (g_t_default g)) = t_data t;
}.

Lemma read_from_base_layout m base g t num :
  type_ok g -> grant_in m base g t ->
  read_from_base base num m
    = mkLayout num base (base + 4) (ro_array g base) (rw_array g base).
Proof.
  intros Hok Hin. destruct (counter_fields g Hok) as (E0 & E8 & _).
  unfold read_from_base, to_be_bytes32. cbn [map]. rewrite (gi_counter _ _ _ _ Hin).
  change (8 * 1) with 8. change (8 * 0) with 0. rewrite E0, E8.
  unfold slot, SLOT_SIZE, WORD, rw_array, ro_array. f_equal; lia.
Qed.

Lemma read_counts m base g t num :
  type_ok g -> grant_in m base g t ->
  let l := mkLayout num base (base + 4) (ro_array g base) (rw_array g base) in
  get_upcalls_number l m = g_upcalls g /\ get_allow_ro_number l m = g_allow_ros g /\
  get_allow_rw_number l m = g_allow_rws g.
Proof.
  intros Hok Hin l. destruct (counter_fields g Hok) as (E0 & E8 & E16).
  unfold get_upcalls_number, get_allow_ro_number, get_allow_rw_number, get_counter_offset, l.
  cbn [counters_ptr]. rewrite (gi_counter _ _ _ _ Hin). done.
Qed.

(** A grant depends only on its own bytes. *)
Lemma grant_in_agree m m' base g t :
  type_ok g -> grant_in m base g t ->
  (forall b, base <= b < base + layout_size g -> load8 m' b = load8 m b) ->
  grant_in m' base g t.
Proof.
  intros Hok [H1 H2 H3 H4 H5] Ha. destruct (type_ok_sizes g Hok) as (_ & _ & Hp & Ht & _).
  destruct Hok as [U1 U2 U3 _ _]. unfold layout_size, kernel_managed in Ha.
  split; [rewrite <- H1; apply read_usize_agree|rewrite <- H2; apply slots_agree
    |rewrite <- H3; apply slots_agree|rewrite <- H4; apply slots_agree
    |rewrite <- H5; apply read_bytes_agree]; intros b Hb; apply Ha;
    unfold rw_array, ro_array, data_ptr, kernel_managed, g_t_size in *; lia.
Qed.

Lemma fresh_upcall_storable : storable (A := SavedUpcall) fresh_value.
Proof. by repeat split. Qed.
Lemma fresh_allow_storable : storable (A := SavedAllow) fresh_value.
Proof. by repeat split. Qed.

(** A freshly initialised grant. *)
Definition initialized (g : GrantType) (base : Z) (m : memory) : memory :=
  write_bytes (data_ptr g base) (g_t_default g)
    (initialize_from_counts base (g_upcalls g) (g_allow_ros g) (g_allow_rws g)
       (g_grant_num g) m).2.

Lemma initialized_other g base m b :
  type_ok g -> ~ base <= b < base + layout_size g ->
  load8 (initialized g base m) b = load8 m b.
Proof.
  intros Hok Hb. destruct (type_ok_sizes g Hok) as (_ & _ & Hp & Ht & _).
  destruct Hok as [U1 U2 U3 _ _]. unfold layout_size, kernel_managed in Hb.
  unfold initialized, initialize_from_counts. cbn [snd].
  unfold slot, SLOT_SIZE, WORD, data_ptr, kernel_managed, g_t_size in *.
  rewrite load8_write_bytes, !write_default_other, load8_write_usize by lia. done.
Qed.

Lemma initialized_grant g base m :
  type_ok g -> grant_in (initialized g base m) base g (fresh_table g).
Proof.
  intros Hok. pose proof (counter_range g Hok) as Hc.
  destruct (type_ok_sizes g Hok) as (_ & _ & Hp & Ht & _).
  destruct Hok as [U1 U2 U3 _ _].
  unfold initialized, initialize_from_counts. cbn [snd]. fold (counter g).
  replace (slot (base + WORD) (g_upcalls g)) with (ro_array g base)
    by (unfold slot, SLOT_SIZE, WORD, ro_array; lia).
  replace (slot (ro_array g base) (g_allow_ros g)) with (rw_array g base)
    by (unfold slot, SLOT_SIZE, rw_array; lia).
  change (base + WORD) with (base + 4).
  set (m0 := write_usize base (counter g) m).
  set (m1 := write_default_array SavedUpcall (base + 4) (g_upcalls g) m0).
  set (m2 := write_default_array SavedAllow (ro_array g base) (g_allow_ros g) m1).
  set (m3 := write_default_array SavedAllow (rw_array g base) (g_allow_rws g) m2).
  assert (E3 : forall b, b < data_ptr g base ->
    load8 (write_bytes (data_ptr g base) (g_t_default g) m3) b = load8 m3 b)
    by (intros; apply load8_write_bytes; lia).
  assert (E2 : forall b, b < rw_array g base -> load8 m3 b = load8 m2 b)
    by (intros; apply write_default_other; lia).
  assert (E1 : forall b, b < ro_array g base -> load8 m2 b = load8 m1 b)
    by (intros; apply write_default_other; lia).
  assert (E0 : forall b, b < base + 4 -> load8 m1 b = load8 m0 b)
    by (intros; apply write_default_other; lia).
  unfold rw_array, ro_array, data_ptr, kernel_managed in *. split.
  - rewrite <- (read_write_usize base (counter g) m) by done. apply read_usize_agree.
    intros b Hb. rewrite E3, E2, E1, E0 by lia. done.
  - unfold fresh_table, t_upcalls.
    rewrite <- (write_default_slots (base + 4) (g_upcalls g) m0) by apply fresh_upcall_storable.
    apply slots_agree. intros b Hb. rewrite E3, E2, E1 by lia. done.
  - unfold fresh_table, t_ros, ro_array.
    rewrite <- (write_default_slots (base + 4 + 8 * g_upcalls g) (g_allow_ros g) m1)
      by apply fresh_allow_storable.
    apply slots_agree. intros b Hb. rewrite E3, E2 by lia. done.
  - unfold fresh_table, t_rws, rw_array, ro_array.
    rewrite <- (write_default_slots (base + 4 + 8 * g_upcalls g + 8 * g_allow_ros g)
      (g_allow_rws g) m2) by apply fresh_allow_storable.
    apply slots_agree. intros b Hb. rewrite E3 by lia. done.
  - unfold fresh_table, t_data. apply read_write_bytes.
Qed.

(** The kernel-managed part right after [initialize_from_counts]. *)
Lemma initialize_memory g base num m l m' :
  type_ok g ->
  initialize_from_counts base (g_upcalls g) (g_allow_ros g) (g_allow_rws g) num m = (l, m') ->
  grant_in m' base g
    (mkTable (t_upcalls (fresh_table g)) (t_ros (fresh_table g)) (t_rws (fresh_table g))
       (read_bytes m' (data_ptr g base) (length (g_t_default g)))) /\
  l = mkLayout num base (base + 4) (ro_array g base) (rw_array g base) /\
  (forall b, ~ base <= b < data_ptr g base -> load8 m' b = load8 m b).
Proof.
  intros Hok Hinit. destruct (initialized_grant g base m Hok) as [H1 H2 H3 H4 _].
  destruct (type_ok_sizes g Hok) as (_ & _ & Hp & Ht & _). destruct Hok as [U1 U2 U3 _ _].
  assert (Hm : initialized g base m = write_bytes (data_ptr g base) (g_t_default g) m').
  { unfold initialized. unfold initialize_from_counts in *. cbn [snd].
    injection Hinit as _ <-. reflexivity. }
  assert (Hag : forall b, b < data_ptr g base -> load8 m' b = load8 (initialized g base m) b)
    by (intros b Hb; rewrite Hm; symmetry; apply load8_write_bytes; lia).
  unfold data_ptr, kernel_managed, rw_array, ro_array in *. split_and!.
  - split; [rewrite <- H1; apply read_usize_agree|rewrite <- H2; apply slots_agree
      |rewrite <- H3; apply slots_agree|rewrite <- H4; apply slots_agree|done];
      intros b Hb; apply Hag; unfold rw_array, ro_array in *; lia.
  - unfold initialize_from_counts, slot, SLOT_SIZE, WORD in Hinit. injection Hinit as <- _.
    f_equal; lia.
  - intros b Hb. unfold initialize_from_counts in Hinit. injection Hinit as _ <-.
    unfold slot, SLOT_SIZE, WORD. rewrite !write_default_other, load8_write_usize by lia. done.
Qed.

(** * Updating a grant in place *)

(** The slots of each array lie in the kernel-managed part. *)
Lemma grant_in_store_upcall m base g t i x :
  type_ok g -> grant_in m base g t -> 0 <= i < g_upcalls g -> storable x ->
  grant_in (store (slot (base + 4) i) x m) base g
    (mkTable (<[Z.to_nat i := x]> (t_upcalls t)) (t_ros t) (t_rws t) (t_data t)).
Proof.
  intros Hok [H1 H2 H3 H4 H5] Hi Hx. destruct (type_ok_sizes g Hok) as (_ & _ & Hp & Ht & _).
  destruct Hok as [U1 U2 U3 _ _].
  split; [rewrite <- H1; apply read_usize_agree
    |cbn [t_upcalls]; rewrite <- H2; by apply slots_store
    |rewrite <- H3; apply slots_agree|rewrite <- H4; apply slots_agree
    |rewrite <- H5; apply read_bytes_agree]; intros b Hb; apply load8_store;
    unfold slot, SLOT_SIZE, rw_array, ro_array, data_ptr, kernel_managed in *; lia.
Qed.

Lemma grant_in_store_ro m base g t i x :
  type_ok g -> grant_in m base g t -> 0 <= i < g_allow_ros g -> storable x ->
  grant_in (store (slot (ro_array g base) i) x m) base g
    (mkTable (t_upcalls t) (<[Z.to_nat i := x]> (t_ros t)) (t_rws t) (t_data t)).
Proof.
  intros Hok [H1 H2 H3 H4 H5] Hi Hx. destruct (type_ok_sizes g Hok) as (_ & _ & Hp & Ht & _).
  destruct Hok as [U1 U2 U3 _ _].
  split; [rewrite <- H1; apply read_usize_agree
    |rewrite <- H2; apply slots_agree
    |cbn [t_ros]; rewrite <- H3; by apply slots_store|rewrite <- H4; apply slots_agree
    |rewrite <- H5; apply read_bytes_agree]; intros b Hb; apply load8_store;
    unfold slot, SLOT_SIZE, rw_array, ro_array, data_ptr, kernel_managed in *; lia.
Qed.

Lemma grant_in_store_rw m base g t i x :
  type_ok g -> grant_in m base g t -> 0 <= i < g_allow_rws g -> storable x ->
  grant_in (store (slot (rw_array g base) i) x m) base g
    (mkTable (t_upcalls t) (t_ros t) (<[Z.to_nat i := x]> (t_rws t)) (t_data t)).
Proof.
  intros Hok [H1 H2 H3 H4 H5] Hi Hx. destruct (type_ok_sizes g Hok) as (_ & _ & Hp & Ht & _).
  destruct Hok as [U1 U2 U3 _ _].
  split; [rewrite <- H1; apply read_usize_agree
    |rewrite <- H2; apply slots_agree
    |rewrite <- H3; apply slots_agree|cbn [t_rws]; rewrite <- H4; by apply slots_store
    |rewrite <- H5; apply read_bytes_agree]; intros b Hb; apply load8_store;
    unfold slot, SLOT_SIZE, rw_array, ro_array, data_ptr, kernel_managed in *; lia.
Qed.

Lemma grant_in_write_data m base g t bs :
  type_ok g -> grant_in m base g t -> length bs = length (g_t_default g) ->
  grant_in (write_bytes (data_ptr g base) bs m) base g
    (mkTable (t_upcalls t) (t_ros t) (t_rws t) bs).
Proof.
  intros Hok [H1 H2 H3 H4 H5] Hl. destruct (type_ok_sizes g Hok) as (_ & _ & Hp & Ht & _).
  destruct Hok as [U1 U2 U3 _ _].
  split; [rewrite <- H1; apply read_usize_agree
    |rewrite <- H2; apply slots_agree|rewrite <- H3; apply slots_agree
    |rewrite <- H4; apply slots_agree|cbn [t_data]; rewrite <- Hl; apply read_write_bytes];
    intros b Hb; apply load8_write_bytes;
    unfold slot, SLOT_SIZE, rw_array, ro_array, data_ptr, kernel_managed in *; lia.
Qed.

(** * All grants of a process *)

(** The abstract state: for each driver number, the grant type and contents. *)
Notation tables := (gmap Z (GrantType * table)).

Lemma position_Some {A} (f : A -> bool) (l : list A) i :
  position f l = Some i -> exists x, l !! i = Some x /\ f x = true.
Proof.
  revert i. induction l as [|y l IH]; intros i; cbn; [done|].
  destruct (f y) eqn:E; [intros ?; simplify_eq; by exists y|].
  destruct (position f l) as [j|]; [|done]. cbn. intros ?; simplify_eq.
  by apply (IH j).
Qed.

Lemma position_None {A} (f : A -> bool) (l : list A) i x :
  position f l = None -> l !! i = Some x -> f x = false.
Proof.
  revert i. induction l as [|y l IH]; intros i; cbn; [done|].
  destruct (f y) eqn:E; [done|]. destruct (position f l); [done|]. intros _ Hi.
  destruct i; cbn in Hi; [by simplify_eq|by apply (IH i)].
Qed.

Section represents.
  Context {hw config stored : Type} {mpu : MPU hw config} {iso : MpuIsolation hw config}.
  (** The grants the board created, by driver number; every grant has a grant
      number of its own ([Kernel::create_grant]). *)
  Context (decl : gmap Z GrantType).
  Implicit Type p : process stored config.

Definition declared : Prop :=
  (forall d g, decl !! d = Some g -> g_driver_num g = d /\ type_ok g) /\
  (forall d d' g g', decl !! d = Some g -> decl !! d' = Some g' ->
     g_grant_num g = g_grant_num g' -> d = d').

(** The grant of driver [d] is allocated at [base] and holds [t]. *)
Record holds p (m : memory) (d : Z) (g : GrantType) (t : table) (base : Z) : Prop := mkHolds {
  h_decl : decl !! d = Some g;
  h_entry : exists gs, grant_pointers p = Some gs /\
    gs !! g_grant_num g = Some (mkGrantEntry d base);
  h_base : 0 < base /\ (4 | base) /\ kernel_memory_break p <= base /\
    base + layout_size g <= memory_start p + memory_len p < U32;
  h_in : grant_in m base g t;
}.

Record represents p (m : memory) (T : tables) : Prop := mkRepresents {
  rep_running : is_running p = true;
  rep_grants : is_Some (grant_pointers p);
  rep_holds : forall d g t, T !! d = Some (g, t) -> exists base, holds p m d g t base;
  rep_cover : forall gs i e, grant_pointers p = Some gs -> gs !! i = Some e -> grant_ptr e <> 0 ->
    exists g t, T !! ge_driver_num e = Some (g, t) /\ g_grant_num g = i;
  rep_disjoint : forall d d' g g' t t' base base', d <> d' ->
    T !! d = Some (g, t) -> T !! d' = Some (g', t') ->
    holds p m d g t base -> holds p m d' g' t' base' ->
    base + layout_size g <= base' \/ base' + layout_size g' <= base;
}.

Lemma matches_spec d e : grant_matches d e = true <-> grant_ptr e <> 0 /\ ge_driver_num e = d.
Proof. unfold grant_matches, is_null. rewrite andb_true_iff, negb_true_iff. lia. Qed.

Lemma lookup_driver p m T d :
  represents p m T ->
  lookup_grant_from_driver_num d p =
    match T !! d with Some (g, _) => Ok (g_grant_num g) | None => Err OutOfMemory end.
Proof.
  intros Hrep. destruct (rep_grants _ _ _ Hrep) as [gs Hg].
  unfold lookup_grant_from_driver_num. rewrite Hg.
  destruct (position (grant_matches d) gs) as [i|] eqn:Hpos.
  - apply position_Some in Hpos as (e & He & [Hn <-]%matches_spec).
    destruct (rep_cover _ _ _ Hrep gs i e Hg He Hn) as (g & t & -> & ->). done.
  - destruct (T !! d) as [ [g t]|] eqn:HT; [|done].
    destruct (rep_holds _ _ _ Hrep d g t HT) as (base & [Hd (gs' & Hg' & He) Hb _]).
    rewrite Hg in Hg'. simplify_eq.
    pose proof (position_None _ _ _ _ Hpos He) as Hm.
    assert (grant_matches d (mkGrantEntry d base) = true); [|congruence].
    apply matches_spec. cbn. split; [lia|done].
Qed.

Context (Hdecl : declared).

Lemma holds_type p m d g t base : holds p m d g t base -> type_ok g /\ g_driver_num g = d.
Proof using Hdecl. intros [Hd _ _ _]. by destruct (proj1 Hdecl d g Hd). Qed.

Lemma holds_even p m d g t base : holds p m d g t base -> base mod 2 = 0 /\ u32_range base.
Proof using Hdecl.
  intros Hh. destruct (holds_type _ _ _ _ _ _ Hh) as [Hok _].
  destruct (type_ok_sizes g Hok) as (Hk & _ & Hp & Ht & _).
  destruct Hh as [Hd _ (H0 & [q Hq] & Hkb & Hf) _]. unfold layout_size in Hf.
  split; [|split; lia]. rewrite Hq. replace (q * 4) with (q * 2 * 2) by lia.
  apply Z.mod_mul. lia.
Qed.

(** Entering the grant of a driver that has one. *)
Lemma enter_managed p m T d g t base :
  represents p m T -> T !! d = Some (g, t) -> holds p m d g t base ->
  exists p1, enter_grant (g_grant_num g) p = (Ok base, p1) /\
    process_id p1 = process_id p /\ leave_grant (g_grant_num g) p1 = p /\
    grant_is_allocated (g_grant_num g) p = Some true /\
    enter_grant_kernel_managed d p m =
      (Ok (mkLayout (g_grant_num g) base (base + 4) (ro_array g base) (rw_array g base)), p1).
Proof using Hdecl.
  intros Hrep HT Hh. pose proof (holds_even _ _ _ _ _ _ Hh) as [Hev Hu].
  destruct (holds_type _ _ _ _ _ _ Hh) as [Hok _].
  destruct Hh as [Hd (gs & Hg & He) (H0 & Hal & Hkb & Hf) Hin].
  pose proof (rep_running _ _ _ Hrep) as Hr.
  destruct (enter_grant_cycle (g_grant_num g) p gs _ Hr Hg He Hu Hev) as [Henter Hleave].
  assert (Hall : grant_is_allocated (g_grant_num g) p = Some true).
  { unfold grant_is_allocated. rewrite Hr, Hg, He. cbn. unfold is_null.
    destruct (Z.eqb_spec base 0); [lia|done]. }
  exists (locked (g_grant_num g) (mkGrantEntry d base) gs p). split_and!; try done.
  unfold enter_grant_kernel_managed.
  rewrite (lookup_driver p m T d Hrep), HT, Hall, Henter.
  by rewrite (read_from_base_layout m base g t).
Qed.

Lemma enter_managed_none p m T d :
  represents p m T -> T !! d = None ->
  enter_grant_kernel_managed d p m = (Err NOMEM, p).
Proof using.
  intros Hrep HT. unfold enter_grant_kernel_managed.
  by rewrite (lookup_driver p m T d Hrep), HT.
Qed.

(** Changing the contents of one grant leaves the others alone. *)
Lemma represents_update p m m' T d g t t' base :
  represents p m T -> T !! d = Some (g, t) -> holds p m d g t base ->
  grant_in m' base g t' ->
  (forall b, ~ base <= b < base + layout_size g -> load8 m' b = load8 m b) ->
  represents p m' (<[d := (g, t')]> T).
Proof using Hdecl.
  intros Hrep HT Hh Hin Hout.
  assert (Hkeep : forall d1 g1 t1, d1 <> d -> T !! d1 = Some (g1, t1) ->
    exists base1, holds p m d1 g1 t1 base1 /\ holds p m' d1 g1 t1 base1).
  { intros d1 g1 t1 Hne HT1. destruct (rep_holds _ _ _ Hrep _ _ _ HT1) as [base1 Hh1].
    exists base1. split; [done|].
    pose proof (rep_disjoint _ _ _ Hrep _ _ _ _ _ _ _ _ Hne HT1 HT Hh1 Hh) as Hdis.
    destruct (holds_type _ _ _ _ _ _ Hh1) as [Hok1 _].
    destruct Hh1 as [A1 A2 A3 A4]. split; try done.
    apply (grant_in_agree m); [done..|]. intros b Hb. apply Hout. lia. }
  assert (Hback : forall d1 g1 t1 base1, d1 <> d -> T !! d1 = Some (g1, t1) ->
    holds p m' d1 g1 t1 base1 -> holds p m d1 g1 t1 base1).
  { intros d1 g1 t1 base1 Hne HT1 Hh1. destruct (Hkeep d1 g1 t1 Hne HT1) as (b2 & Hb2 & _).
    assert (b2 = base1) as ->; [|done].
    destruct Hh1 as [_ (gs & Hg & He) _ _], Hb2 as [_ (gs' & Hg' & He') _ _]. congruence. }
  assert (Hself : forall t1 base1, holds p m' d g t1 base1 -> base1 = base).
  { intros t1 base1 [_ (gs & Hg & He) _ _]. destruct Hh as [_ (gs' & Hg' & He') _ _]. congruence. }
  destruct Hrep as [R1 R1' R2 R3 R4]. split; [done|done|..].
  - intros d1 g1 t1 [ [<- [= <- <-]]|[Hne HT1]]%lookup_insert_Some.
    + exists base. destruct Hh as [A1 A2 A3 A4]. by split.
    + destruct (Hkeep d1 g1 t1) as (b1 & _ & ?); [done..|]. by exists b1.
  - intros gs i e Hg He Hn. destruct (R3 gs i e Hg He Hn) as (g1 & t1 & HT1 & <-).
    destruct (decide (ge_driver_num e = d)) as [E|E].
    + rewrite E in *. rewrite HT in HT1. simplify_eq. exists g1, t'. by rewrite lookup_insert_eq.
    + exists g1, t1. by rewrite lookup_insert_ne.
  - intros d1 d2 g1 g2 t1 t2 b1 b2 Hne [ [<- [= <- <-]]|[N1 T1]]%lookup_insert_Some
      [ [<- [= <- <-]]|[N2 T2]]%lookup_insert_Some Hh1 Hh2; [done|..].
    + apply Hself in Hh1 as ->. apply (R4 d d2 g g2 t t2); auto.
    + apply Hself in Hh2 as ->. apply (R4 d1 d g1 g t1 t); auto.
    + apply (R4 d1 d2 g1 g2 t1 t2); auto.
Qed.

(** * The kernel's operations swap table entries *)

Definition saved_of (u : Upcall) : SavedUpcall := mkSavedUpcall (appdata u) (fn_ptr u).
Definition allow_of (b : ProcessBuffer) : SavedAllow := mkSavedAllow (buf_ptr b) (buf_len b).

Definition set_upcall (i : Z) (x : SavedUpcall) (t : table) : table :=
  mkTable (<[Z.to_nat i := x]> (t_upcalls t)) (t_ros t) (t_rws t) (t_data t).
Definition set_ro (i : Z) (x : SavedAllow) (t : table) : table :=
  mkTable (t_upcalls t) (<[Z.to_nat i := x]> (t_ros t)) (t_rws t) (t_data t).
Definition set_rw (i : Z) (x : SavedAllow) (t : table) : table :=
  mkTable (t_upcalls t) (t_ros t) (<[Z.to_nat i := x]> (t_rws t)) (t_data t).
Definition set_data (bs : list Z) (t : table) : table :=
  mkTable (t_upcalls t) (t_ros t) (t_rws t) bs.

(** Exchange entry [i] of the array [arr] of driver [d]'s table. *)
Definition spec_swap {A} (arr : table -> list A) (set : Z -> A -> table -> table)
    (d i : Z) (x : A) (T : tables) : result A ErrorCode * tables :=
  match T !! d with
  | None => (Err NOMEM, T)
  | Some (g, t) =>
    match arr t !! Z.to_nat i with
    | None => (Err NOSUPPORT, T)
    | Some old => (Ok old, <[d := (g, set i x t)]> T)
    end
  end.

Definition upcall_ok (u : Upcall) : Prop :=
  0 <= subscribe_num (up_upcall_id u) /\ u32_range (appdata u) /\
  forall fp, fn_ptr u = Some fp -> 0 < fp < U32.
Definition buffer_words (b : ProcessBuffer) : Prop := u32_range (buf_ptr b) /\ u32_range (buf_len b).

Lemma saved_of_storable u : upcall_ok u -> storable (saved_of u).
Proof using.
  intros (_ & Ha & Hf). unfold storable, saved_of. cbn. split; [done|].
  destruct (fn_ptr u) as [fp|]; cbn; [|by split].
  specialize (Hf fp eq_refl). split; [unfold u32_range; lia|].
  destruct (Z.eqb_spec fp 0); [lia|done].
Qed.

(** What [get_mut] finds is what the table has. *)
Lemma get_mut_slots {A} `{Repr A} m base n i (l : list A) :
  0 <= i -> 0 <= n -> slots A m base n = l ->
  match get_mut base n i with
  | Some a => i < n /\ a = slot base i /\ l !! Z.to_nat i = Some (load A m a)
  | None => l !! Z.to_nat i = None
  end.
Proof using.
  intros Hi Hn <-. unfold get_mut. destruct (Z.ltb_spec i n).
  - split_and!; [done..|]. rewrite slots_lookup by lia. by rewrite Z2Nat.id by lia.
  - apply lookup_ge_None. rewrite slots_length. lia.
Qed.

Lemma slot_inside g base :
  type_ok g -> forall b, ~ base <= b < base + layout_size g ->
  ~ (base <= b < base + kernel_managed g).
Proof using.
  intros Hok b Hb. destruct (type_ok_sizes g Hok) as (_ & _ & Hp & Ht & _).
  unfold layout_size in Hb. lia.
Qed.

Lemma subscribe_refines p m T u :
  represents p m T -> upcall_ok u ->
  let d := driver_num (up_upcall_id u) in
  let '(r, T') := spec_swap t_upcalls set_upcall d (subscribe_num (up_upcall_id u))
                    (saved_of u) T in
  exists m', represents p m' T' /\
    subscribe u p m =
      (match r with
       | Ok old => Ok (mkUpcall (process_id p) (up_upcall_id u) (su_appdata old) (su_fn_ptr old))
       | Err e => Err (u, e)
       end, p, m').
Proof using Hdecl.
  intros Hrep Hu d. set (i := subscribe_num (up_upcall_id u)). unfold spec_swap, subscribe.
  fold d. fold i. destruct (T !! d) as [ [g t]|] eqn:HT.
  2: { exists m. split; [done|]. by rewrite (enter_managed_none p m T d). }
  destruct (rep_holds _ _ _ Hrep d g t HT) as [base Hh].
  destruct (enter_managed p m T d g t base Hrep HT Hh) as (p1 & _ & Hid & Hlv & _ & ->).
  destruct (holds_type _ _ _ _ _ _ Hh) as [Hok _]. pose proof (h_in _ _ _ _ _ _ Hh) as Hin.
  destruct (read_counts m base g t (g_grant_num g) Hok Hin) as (E & _ & _). rewrite E.
  cbn [upcalls_array l_grant_num]. rewrite Hlv, Hid.
  assert (Hi : 0 <= i) by (by destruct Hu).
  pose proof (get_mut_slots m (base + 4) (g_upcalls g) i (t_upcalls t) Hi
    (proj1 (ok_upcalls g Hok)) (gi_upcalls _ _ _ _ Hin)) as Hget.
  destruct (get_mut _ _ _) as [a|]; [|by rewrite Hget; exists m].
  destruct Hget as (Hlt & -> & ->).
  exists (store (slot (base + 4) i) (saved_of u) m). split; [|done].
  apply (represents_update p m _ T d g t _ base); try done.
  - apply grant_in_store_upcall; try done. by apply saved_of_storable.
  - intros b Hb%slot_inside; [|done]. apply load8_store.
    destruct Hok. unfold slot, SLOT_SIZE, kernel_managed in *. lia.
Qed.

Lemma allow_ro_refines p m T d i buf :
  represents p m T -> 0 <= i -> buffer_words buf ->
  let '(r, T') := spec_swap t_ros set_ro d i (allow_of buf) T in
  exists m', represents p m' T' /\
    allow_ro d i buf p m =
      (match r with
       | Ok old => Ok (mkProcessBuffer (sa_ptr old) (sa_len old) (process_id p))
       | Err e => Err (buf, e)
       end, p, m').
Proof using Hdecl.
  intros Hrep Hi Hbuf. unfold spec_swap, allow_ro. destruct (T !! d) as [ [g t]|] eqn:HT.
  2: { exists m. split; [done|]. by rewrite (enter_managed_none p m T d). }
  destruct (rep_holds _ _ _ Hrep d g t HT) as [base Hh].
  destruct (enter_managed p m T d g t base Hrep HT Hh) as (p1 & _ & Hid & Hlv & _ & ->).
  destruct (holds_type _ _ _ _ _ _ Hh) as [Hok _]. pose proof (h_in _ _ _ _ _ _ Hh) as Hin.
  destruct (read_counts m base g t (g_grant_num g) Hok Hin) as (_ & E & _). rewrite E.
  cbn [allow_ro_array l_grant_num]. rewrite Hlv, Hid.
  pose proof (get_mut_slots m (ro_array g base) (g_allow_ros g) i (t_ros t) Hi
    (proj1 (ok_ros g Hok)) (gi_ros _ _ _ _ Hin)) as Hget.
  destruct (get_mut _ _ _) as [a|]; [|by rewrite Hget; exists m].
  destruct Hget as (Hlt & -> & ->).
  exists (store (slot (ro_array g base) i) (allow_of buf) m). split; [|done].
  apply (represents_update p m _ T d g t _ base); try done.
  - apply grant_in_store_ro; try done. by destruct Hbuf.
  - intros b Hb%slot_inside; [|done]. apply load8_store.
    destruct Hok. unfold slot, SLOT_SIZE, ro_array, kernel_managed in *. lia.
Qed.

Lemma allow_rw_refines p m T d i buf :
  represents p m T -> 0 <= i -> buffer_words buf ->
  let '(r, T') := spec_swap t_rws set_rw d i (allow_of buf) T in
  exists m', represents p m' T' /\
    allow_rw d i buf p m =
      (match r with
       | Ok old => Ok (mkProcessBuffer (sa_ptr old) (sa_len old) (process_id p))
       | Err e => Err (buf, e)
       end, p, m').
Proof using Hdecl.
  intros Hrep Hi Hbuf. unfold spec_swap, allow_rw. destruct (T !! d) as [ [g t]|] eqn:HT.
  2: { exists m. split; [done|]. by rewrite (enter_managed_none p m T d). }
  destruct (rep_holds _ _ _ Hrep d g t HT) as [base Hh].
  destruct (enter_managed p m T d g t base Hrep HT Hh) as (p1 & _ & Hid & Hlv & _ & ->).
  destruct (holds_type _ _ _ _ _ _ Hh) as [Hok _]. pose proof (h_in _ _ _ _ _ _ Hh) as Hin.
  destruct (read_counts m base g t (g_grant_num g) Hok Hin) as (_ & _ & E). rewrite E.
  cbn [allow_rw_array l_grant_num]. rewrite Hlv, Hid.
  pose proof (get_mut_slots m (rw_array g base) (g_allow_rws g) i (t_rws t) Hi
    (proj1 (ok_rws g Hok)) (gi_rws _ _ _ _ Hin)) as Hget.
  destruct (get_mut _ _ _) as [a|]; [|by rewrite Hget; exists m].
  destruct Hget as (Hlt & -> & ->).
  exists (store (slot (rw_array g base) i) (allow_of buf) m). split; [|done].
  apply (represents_update p m _ T d g t _ base); try done.
  - apply grant_in_store_rw; try done. by destruct Hbuf.
  - intros b Hb%slot_inside; [|done]. apply load8_store.
    destruct Hok. unfold slot, SLOT_SIZE, rw_array, ro_array, kernel_managed in *. lia.
Qed.

Lemma holds_unique p m m' d g t t' base base' :
  holds p m d g t base -> holds p m' d g t' base' -> base' = base.
Proof using.
  intros [_ (gs & Hg & He) _ _] [_ (gs' & Hg' & He') _ _]. congruence.
Qed.

(** * Drivers enter their grants *)

Lemma represents_frame p p' m T :
  represents p m T -> is_running p' = true -> grant_pointers p' = grant_pointers p ->
  memory_start p' = memory_start p -> memory_len p' = memory_len p ->
  kernel_memory_break p' <= kernel_memory_break p -> represents p' m T.
Proof using.
  intros [R1 R1' R2 R3 R4] Hr Hg Es El Hk.
  assert (Hh : forall d g t base, holds p m d g t base -> holds p' m d g t base).
  { intros d g t base [A1 A2 A3 A4]. split; try done; [by rewrite Hg|].
    rewrite Es, El. destruct_and!. split_and!; try done. lia. }
  assert (Hback : forall d g t base, T !! d = Some (g, t) -> holds p' m d g t base ->
    holds p m d g t base).
  { intros d g t base HT [_ (gs & Hgs & He) _ _]. rewrite Hg in Hgs.
    destruct (R2 d g t HT) as [base' Hb]. assert (base' = base) as ->; [|done].
    destruct Hb as [_ (gs' & Hgs' & He') _ _]. congruence. }
  split; [done|by rewrite Hg|..].
  - intros d g t HT. destruct (R2 d g t HT) as [base Hb]. exists base. by apply Hh.
  - rewrite Hg. exact R3.
  - intros d d' g g' t t' base base' Hne HT HT' H1 H2.
    apply (R4 d d' g g' t t' base base'); auto.
Qed.

(** Only the kernel-owned memory matters. *)
Lemma represents_memory p m m' T :
  represents p m T ->
  (forall b, kernel_memory_break p <= b < memory_start p + memory_len p ->
     load8 m' b = load8 m b) ->
  represents p m' T.
Proof using Hdecl.
  intros [R1 R1' R2 R3 R4] Hm.
  assert (Hh : forall d g t base, holds p m d g t base -> holds p m' d g t base).
  { intros d g t base Hh. destruct (holds_type _ _ _ _ _ _ Hh) as [Hok _].
    destruct Hh as [A1 A2 A3 A4]. split; try done.
    apply (grant_in_agree m); [done..|]. intros b Hb. apply Hm. destruct_and!. lia. }
  split; [done|done| |done|].
  - intros d g t HT. destruct (R2 d g t HT) as [base Hb]. exists base. by apply Hh.
  - intros d d' g g' t t' base base' Hne HT HT' H1 H2.
    destruct (R2 d g t HT) as [b1 Hb1], (R2 d' g' t' HT') as [b2 Hb2].
    rewrite (holds_unique _ _ _ _ _ _ _ _ _ Hb1 H1), (holds_unique _ _ _ _ _ _ _ _ _ Hb2 H2).
    by apply (R4 d d' g g' t t').
Qed.

(** Grant memory is allocated without a panic when the process has app memory
    and lies in the low half of the address space. *)
Lemma allocate_grant_returns num d size align p k :
  wf p -> layout_request size align -> memory_start p + memory_len p <= 2 ^ 31 ->
  memory_start p < app_break p ->
  exists r p' k', allocate_grant num d size align p k = Ret (r, p', k').
Proof using iso.
  intros Hwf Hreq Htop Hab. unfold allocate_grant.
  destruct (is_running p) eqn:Hr; cbn [negb]; [|by eexists _, _, _].
  cbn [get_grant_count_and_finalize]. destruct (_ <=? _); [by eexists _, _, _|].
  assert (Hint : exists r p', allocate_in_grant_region_internal size align p = Ret (r, p')).
  { destruct (wf_active p Hwf Hr) as (Ho & (c & Hc & Hm & _) & _). unfold ordered in Ho.
    unfold allocate_in_grant_region_internal. rewrite Hc.
    set (nb := Z.land _ _). destruct (_ <? _); [by eexists _, _|].
    destruct (Z.ltb_spec (kernel_memory_break p) nb); [by eexists _, _|].
    destruct (update_total c (memory_start p) (memory_len p) (app_break p) nb)
      as [ [ [ [] | [] ] c1] -> ]; try done; try lia; by eexists _, _. }
  destruct Hint as (r & p' & Hint).
  destruct (grant_is_allocated num p) as [ []|]; [by eexists _, _, _|..];
    (destruct (match grant_pointers p with None => false | Some gs => _ end);
     [by eexists _, _, _|]; rewrite Hint; cbn [obind]; destruct r; [|by eexists _, _, _];
     destruct (grant_pointers p') as [gs|]; [|by eexists _, _, _];
     destruct (gs !! num); by eexists _, _, _).
Qed.

Lemma grant_request g :
  type_ok g -> layout_request (layout_size g) (grant_align (g_t_align g)).
Proof using.
  intros Hok. destruct (type_ok_sizes g Hok) as (Hk & Ha & Hp & Ht & _).
  destruct Hok as [_ _ _ (j & Hj & E) Hf]. unfold layout_request.
  split; [unfold layout_size; lia|]. unfold grant_align, WORD in *. rewrite E in *.
  destruct (Z.le_gt_cases 4 (2 ^ j)).
  - exists j. rewrite Z.max_r in * by lia. split_and!; try done; lia.
  - exists 2. rewrite (Z.max_l 4) in * by lia. split_and!; try done; lia.
Qed.

Lemma grant_align_div g x :
  type_ok g -> (grant_align (g_t_align g) | x) -> (4 | x) /\ (g_t_align g | x).
Proof using.
  intros [_ _ _ (j & Hj & E) _] Hd. unfold grant_align, WORD in Hd. rewrite E in *.
  destruct (decide (2 <= j)) as [Hge|Hlt].
  - assert (H4 : (4 | 2 ^ j)).
    { exists (2 ^ (j - 2)). change 4 with (2 ^ 2). rewrite <- Z.pow_add_r by lia. f_equal. lia. }
    assert (4 <= 2 ^ j) by (apply (Z.pow_le_mono_r 2 2); lia).
    rewrite Z.max_r in Hd by lia. split; [by etrans|done].
  - assert (Hj' : j = 0 \/ j = 1) by lia. destruct Hj' as [-> | ->]; cbn in *.
    + split; [done|]. apply Z.divide_1_l.
    + split; [done|]. etrans; [|done]. by exists 2.
Qed.

(** A new grant below all others. *)
Lemma represents_alloc p p' m T d g gs e ptr :
  represents p m T -> decl !! d = Some g -> T !! d = None ->
  grant_pointers p = Some gs -> gs !! g_grant_num g = Some e -> is_running p' = true ->
  grant_pointers p' = Some (<[g_grant_num g := mkGrantEntry d ptr]> gs) ->
  kernel_memory_break p' = ptr -> 0 < ptr -> (4 | ptr) ->
  memory_start p' = memory_start p -> memory_len p' = memory_len p ->
  ptr + layout_size g <= kernel_memory_break p ->
  kernel_memory_break p <= memory_start p + memory_len p < U32 ->
  represents p' (initialized g ptr m) (<[d := (g, fresh_table g)]> T).
Proof using Hdecl.
  intros Hrep Hd HT Hg He Hr' Hg' Hk' Hpos H4 Es El Hfit Htop.
  destruct (proj1 Hdecl d g Hd) as [_ Hok].
  destruct (type_ok_sizes g Hok) as (Hkm & _ & Hp & Hts & _).
  assert (Hsz : 0 <= layout_size g) by (unfold layout_size; lia).
  assert (Hnew : holds p' (initialized g ptr m) d g (fresh_table g) ptr).
  { split; [done| |rewrite Es, El; split_and!; try done; lia|by apply initialized_grant].
    eexists. split; [done|]. by apply (locked_lookup _ e). }
  assert (Hold : forall d1 g1 t1, T !! d1 = Some (g1, t1) -> d1 <> d /\ exists base1,
    holds p m d1 g1 t1 base1 /\ holds p' (initialized g ptr m) d1 g1 t1 base1).
  { intros d1 g1 t1 HT1. assert (Hne : d1 <> d) by congruence. split; [done|].
    destruct (rep_holds _ _ _ Hrep _ _ _ HT1) as [base1 Hh1]. exists base1. split; [done|].
    destruct (holds_type _ _ _ _ _ _ Hh1) as [Hok1 _].
    destruct Hh1 as [A1 (gs1 & B1 & B2) A3 A4]. rewrite Hg in B1. injection B1 as <-.
    split; [done| |rewrite Es, El; destruct_and!; split_and!; done || lia|].
    - eexists. split; [done|]. rewrite list_lookup_insert_ne; [done|].
      intros Heq. apply Hne. by apply (proj2 Hdecl d1 d g1 g).
    - apply (grant_in_agree m); [done..|]. intros b0 Hb0. apply initialized_other; [done|].
      destruct_and!. lia. }
  split; [done|by rewrite Hg'|..].
  - intros d1 g1 t1 [ [<- [= <- <-]]|[_ HT1]]%lookup_insert_Some; [by exists ptr|].
    destruct (Hold _ _ _ HT1) as (_ & base1 & _ & ?). by exists base1.
  - intros gs1 i e1 Hg1 He1 Hn. rewrite Hg' in Hg1. injection Hg1 as <-.
    destruct (decide (i = g_grant_num g)) as [->|Hi].
    + rewrite (locked_lookup _ e) in He1 by done. injection He1 as <-.
      exists g, (fresh_table g). by rewrite lookup_insert_eq.
    + rewrite list_lookup_insert_ne in He1 by done.
      destruct (rep_cover _ _ _ Hrep gs i e1 Hg He1 Hn) as (g1 & t1 & HT1 & E1).
      exists g1, t1. split; [|done]. rewrite lookup_insert_ne; [done|].
      intros Heq. by destruct (Hold _ _ _ HT1).
  - intros d1 d2 g1 g2 t1 t2 b1 b2 Hne [ [<- [= <- <-]]|[N1 T1]]%lookup_insert_Some
      [ [<- [= <- <-]]|[N2 T2]]%lookup_insert_Some Hh1 Hh2; [done|..].
    + destruct (Hold _ _ _ T2) as (_ & b & Hb & Hb').
      rewrite (holds_unique _ _ _ _ _ _ _ _ _ Hnew Hh1), (holds_unique _ _ _ _ _ _ _ _ _ Hb' Hh2).
      left. destruct Hb as [_ _ (_ & _ & ? & _) _]. lia.
    + destruct (Hold _ _ _ T1) as (_ & b & Hb & Hb').
      rewrite (holds_unique _ _ _ _ _ _ _ _ _ Hnew Hh2), (holds_unique _ _ _ _ _ _ _ _ _ Hb' Hh1).
      right. destruct Hb as [_ _ (_ & _ & ? & _) _]. lia.
    + destruct (Hold _ _ _ T1) as (_ & c1 & Hc1 & Hc1'), (Hold _ _ _ T2) as (_ & c2 & Hc2 & Hc2').
      rewrite (holds_unique _ _ _ _ _ _ _ _ _ Hc1' Hh1), (holds_unique _ _ _ _ _ _ _ _ _ Hc2' Hh2).
      by apply (rep_disjoint _ _ _ Hrep d1 d2 g1 g2 t1 t2).
Qed.

(** A new grant is counted by [grant_allocated_count]. *)
Lemma count_insert (gs : list GrantPointerEntry) i e e' :
  gs !! i = Some e -> grant_ptr e = 0 -> grant_ptr e' <> 0 ->
  length (List.filter (fun e => negb (is_null (grant_ptr e))) (<[i := e']> gs))
    = S (length (List.filter (fun e => negb (is_null (grant_ptr e))) gs)).
Proof using.
  intros He Hz Hn. revert i He. induction gs as [|x gs IH]; intros i He; [done|].
  assert (Hn' : is_null (grant_ptr e') = false) by (unfold is_null; lia).
  destruct i as [|i]; cbn in *.
  - simplify_eq. rewrite Hz, Hn'. done.
  - destruct (negb (is_null (grant_ptr x))); cbn; by rewrite IH.
Qed.

(** The condition under which the MPU driver does not panic on this process. *)
Definition steady p : Prop :=
  wf p /\ memory_start p + memory_len p <= 2 ^ 31 /\ memory_start p < app_break p.

(** A grant that the process reports as allocated is in the tables. *)
Lemma allocated_table g p m T :
  represents p m T -> decl !! g_driver_num g = Some g ->
  grant_is_allocated (g_grant_num g) p = Some true ->
  exists t, T !! g_driver_num g = Some (g, t).
Proof using Hdecl.
  intros Hrep Hd Hal. pose proof (rep_running _ _ _ Hrep) as Hr.
  destruct (rep_grants _ _ _ Hrep) as [gs Hg].
  unfold grant_is_allocated in Hal. rewrite Hr, Hg in Hal. cbn [negb] in Hal.
  destruct (gs !! g_grant_num g) as [e|] eqn:He; [|done]. cbn in Hal.
  assert (Hn : grant_ptr e <> 0)
    by (unfold is_null in Hal; by destruct (Z.eqb_spec (grant_ptr e) 0)).
  destruct (rep_cover _ _ _ Hrep gs _ e Hg He Hn) as (g1 & t1 & HT1 & Hnum).
  destruct (rep_holds _ _ _ Hrep _ _ _ HT1) as [base [Hd1 _ _ _]].
  assert (ge_driver_num e = g_driver_num g) as E by (by apply (proj2 Hdecl _ _ g1 g)).
  rewrite E in *. assert (g1 = g) as -> by congruence. by exists t1.
Qed.

(** A grant that is not allocated is not in the tables. *)
Lemma unallocated_table g p m T :
  represents p m T -> decl !! g_driver_num g = Some g ->
  grant_is_allocated (g_grant_num g) p <> Some true -> T !! g_driver_num g = None.
Proof using Hdecl.
  intros Hrep Hd Hna. destruct (T !! g_driver_num g) as [ [g1 t1]|] eqn:HT; [|done]. destruct Hna.
  destruct (rep_holds _ _ _ Hrep _ _ _ HT) as [base Hh].
  assert (g1 = g) as -> by (destruct Hh; congruence).
  by destruct (enter_managed p m T _ g t1 base Hrep HT Hh) as (_ & _ & _ & _ & ? & _).
Qed.

(** The first use of a grant: allocation, initialisation of the kernel part and
    of the data. *)
Lemma first_use_refines g p k m T r p1 k1 :
  represents p m T -> steady p -> decl !! g_driver_num g = Some g -> T !! g_driver_num g = None ->
  allocate_grant (g_grant_num g) (g_driver_num g) (layout_size g) (grant_align (g_t_align g)) p k
    = Ret (Ok r, p1, k1) ->
  exists q, enter_grant (g_grant_num g) p1 = (Ok (kernel_memory_break p1), q) /\
    leave_grant (g_grant_num g) q = p1 /\ steady p1 /\
    process_id p1 = process_id p /\ tasks p1 = tasks p /\
    0 < kernel_memory_break p1 /\ kernel_memory_break p1 + layout_size g < U32 /\
    represents p1 (initialized g (kernel_memory_break p1) m)
      (<[g_driver_num g := (g, fresh_table g)]> T) /\
    grant_allocated_count p1 <> grant_allocated_count p.
Proof using Hdecl iso.
  intros Hrep (Hwf & Htop & Hab) Hd HTn Hrun. set (d := g_driver_num g) in *.
  destruct (proj1 Hdecl d g Hd) as [_ Hok]. pose proof (rep_running _ _ _ Hrep) as Hr.
  apply allocate_grant_spec in Hrun as (Hwf1 & _ & Hres); [|done|by apply grant_request].
  destruct Hres as (_ & Hal & c & gs & e & ptr & Hg & He & -> & Hptr & Hfit & Hdv & _).
  destruct (grant_align_div g ptr Hok Hdv) as [H4 _].
  assert (Hnull : grant_ptr e = 0).
  { unfold grant_is_allocated in Hal. rewrite Hr, Hg, He in Hal. cbn in Hal. unfold is_null in Hal.
    by destruct (Z.eqb_spec (grant_ptr e) 0). }
  pose proof (wf_start p Hwf). pose proof (wf_end p Hwf).
  destruct (wf_active p Hwf Hr) as (Ho & _). unfold ordered in Ho.
  destruct (type_ok_sizes g Hok) as (Hkm & _ & Hp & Hts & _).
  assert (Hsz : 0 < layout_size g) by (unfold layout_size; lia).
  destruct (new_grant_cycle (g_grant_num g) d ptr
    (set_kernel_memory_break ptr (set_mpu_config (Some c) p)) gs e)
    as (q & Henter & Hleave & _); [done|done|unfold U32; lia|done|].
  set (p1 := set_grant_pointers _ _) in *. exists q.
  split; [done|]. split; [done|]. split; [split; [done|]; unfold p1; cbn; split; lia|].
  split; [done|]. split; [done|]. split; [cbn; lia|]. split; [cbn; lia|]. split.
  - apply (represents_alloc p p1 m T d g gs e ptr); try done; unfold U32; lia.
  - unfold grant_allocated_count. change (is_running p1) with (is_running p). rewrite Hr, Hg. cbn.
    rewrite (count_insert gs _ e) by (done || (cbn; lia)). intros [=]. lia.
Qed.

Lemma process_grant_new_refines g p k m T :
  represents p m T -> steady p -> decl !! g_driver_num g = Some g ->
  exists r p' k' m', process_grant_new g p k m = Ret (r, p', k', m') /\ steady p' /\
    process_id p' = process_id p /\ tasks p' = tasks p /\
    match r with
    | Ok _ => exists t, represents p' m' (<[g_driver_num g := (g, t)]> T) /\
        (T !! g_driver_num g = Some (g, t) \/
         T !! g_driver_num g = None /\ t = fresh_table g /\
         grant_allocated_count p' <> grant_allocated_count p)
    | Err _ => T !! g_driver_num g = None /\ represents p' m' T
    end.
Proof using Hdecl iso.
  intros Hrep Hst Hd. pose proof Hst as (Hwf & Htop & Hab).
  destruct (proj1 Hdecl _ g Hd) as [_ Hok]. pose proof (unallocated_table g p m T Hrep Hd) as HTn.
  unfold process_grant_new.
  destruct (grant_is_allocated (g_grant_num g) p) as [ []|] eqn:Hal.
  - eexists _, _, _, _. split; [done|]. split; [done|]. split; [done|]. split; [done|].
    destruct (allocated_table g p m T Hrep Hd Hal) as [t HT].
    exists t. split; [|by left]. by rewrite insert_id.
  - rewrite grant_size_ok by done. cbn [obind].
    destruct (allocate_grant_returns (g_grant_num g) (g_driver_num g) (layout_size g)
      (grant_align (g_t_align g)) p k) as (r & p1 & k1 & Hrun); [done|by apply grant_request|done..|].
    rewrite Hrun. cbn [obind]. destruct r as [ []|[] ].
    + destruct (first_use_refines g p k m T tt p1 k1 Hrep Hst Hd)
        as (q & Henter & Hleave & Hst1 & Hid & Htk & Hb & Hfit & Hrep1 & Hcount); [by apply HTn|done|].
      rewrite Henter. unfold offset_of_grant_data_t.
      destruct (initialize_from_counts _ _ _ _ _ _) as [l m1] eqn:Hinit.
      destruct (type_ok_sizes g Hok) as (Hkm & _ & Hp & Hts & _). unfold layout_size in *.
      ck. rewrite Hleave. eexists _, _, _, _. split; [done|].
      split; [done|]. split; [done|]. split; [done|]. exists (fresh_table g).
      split; [|right; split; [by apply HTn|done] ].
      enough (write_bytes (kernel_memory_break p1 +
        (kernel_managed g + padding g + g_t_size g - g_t_size g)) (g_t_default g) m1
        = initialized g (kernel_memory_break p1) m) as -> by done.
      unfold initialized. rewrite Hinit. cbn [snd]. f_equal. unfold data_ptr. lia.
    + apply allocate_grant_spec in Hrun as (Hwf1 & (Ems & Eml & _) & Hres); [|done|by apply grant_request].
      destruct Hres as (Hgp & Hrun1 & Hid1 & Htk1 & Hab1 & Hkb1).
      pose proof (rep_running _ _ _ Hrep) as Hr. eexists _, _, _, _. split; [done|].
      split; [split; [done|]; rewrite Ems, Eml, Hab1; done|].
      split; [done|]. split; [done|]. split; [by apply HTn|]. by apply (represents_frame p); [|congruence..|].
  - eexists _, _, _, _. split; [done|]. split; [done|]. split; [done|]. split; [done|].
    split; [by apply HTn|done].
Qed.

(** A driver's closure: from its data and the kernel resources to a result and
    new data. *)
Definition closure (R : Type) : Type :=
  list Z -> list SavedUpcall -> list SavedAllow -> list SavedAllow -> R * list Z.
Definition apply_closure {R} (f : closure R) (t : table) : R * list Z :=
  f (t_data t) (t_upcalls t) (t_ros t) (t_rws t).
Definition run_closure {R} (f : closure R) (data : list Z) (ups : list SavedUpcall)
    (ros rws : list SavedAllow) p : outcome (R * list Z * process stored config) :=
  let '(r, data) := f data ups ros rws in Ret (r, data, p).
(** It writes a value of the same type back. *)
Definition closure_ok {R} (g : GrantType) (f : closure R) : Prop :=
  forall data ups ros rws, length data = length (g_t_default g) ->
    length (f data ups ros rws).2 = length (g_t_default g).

(** A process that differs only in what a closure may change. *)
Record same_grants p p' : Prop := mkSameGrants {
  sg_running : is_running p' = is_running p;
  sg_grants : grant_pointers p' = grant_pointers p;
  sg_start : memory_start p' = memory_start p;
  sg_len : memory_len p' = memory_len p;
  sg_break : kernel_memory_break p' = kernel_memory_break p;
}.

Lemma represents_same_grants p p' m T : represents p m T -> same_grants p p' -> represents p' m T.
Proof using.
  intros Hrep [H1 H2 H3 H4 H5]. apply (represents_frame p); try done; [|lia].
  rewrite H1. apply Hrep.
Qed.

(** Scheduling an upcall neither reads nor changes the grants. *)
Lemma schedule_set_grants u p gs r0 r1 r2 :
  schedule u (set_grant_pointers gs p) r0 r1 r2 =
  (let! '(r, p) := schedule u p r0 r1 r2 in Ret (r, set_grant_pointers gs p)).
Proof using.
  assert (He : forall t, enqueue_task t (set_grant_pointers gs p) =
    (let! '(r, p) := enqueue_task t p in Ret (r, set_grant_pointers gs p))).
  { intros t. unfold enqueue_task. change (is_running (set_grant_pointers gs p)) with (is_running p).
    destruct (is_running p); cbn [negb]; [|done]. change (tasks (set_grant_pointers gs p)) with (tasks p).
    destruct (tasks p) as [ts|]; cbn [obind is_err].
    - destruct (enqueue ts t) as [ [ok ts']| |]; cbn [obind]; [|done..]. destruct ok; cbn [is_err obind]; [done|].
      unfold map_debug. cbn [debug set_tasks set_grant_pointers]. destruct (debug p) as [d|]; [|done].
      by destruct (add32 (dropped_upcall_count d) 1).
    - unfold map_debug. cbn [debug set_grant_pointers]. destruct (debug p) as [d|]; [|done].
      by destruct (add32 (dropped_upcall_count d) 1). }
  unfold schedule. destruct (fn_ptr u); rewrite He; by destruct (enqueue_task _ p) as [ [r p']| |].
Qed.

Lemma schedule_effect u p r0 r1 r2 : wf p -> dropped_room p ->
  exists r p', schedule u p r0 r1 r2 = Ret (r, p') /\ wf p' /\ same_memory p p' /\ state p' = state p.
Proof using.
  intros Hwf Hroom. unfold schedule.
  assert (He : forall t, exists r p', enqueue_task t p = Ret (r, p') /\ wf p' /\ same_memory p p' /\ state p' = state p).
  { intros t. destruct (enqueue_task_returns t p Hwf Hroom) as [ [r p'] Hrun]. exists r, p'.
    split; [done|]. by apply enqueue_task_spec in Hrun as (? & ? & ? & _). }
  destruct (fn_ptr u); edestruct He as (r & p' & -> & ?); cbn [obind]; by eexists _, p'.
Qed.

Lemma schedule_upcall_effect g upcalls n p r0 r1 r2 : wf p -> dropped_room p ->
  exists r p', schedule_upcall g upcalls n r0 r1 r2 p = Ret (r, p') /\ wf p' /\ same_memory p p' /\
    state p' = state p /\
    forall gs, schedule_upcall g upcalls n r0 r1 r2 (set_grant_pointers gs p) = Ret (r, set_grant_pointers gs p').
Proof using.
  intros Hwf Hroom. unfold schedule_upcall. destruct (upcalls !! Z.to_nat n) as [up|].
  - set (u := mkUpcall _ _ _ _). destruct (schedule_effect u p r0 r1 r2 Hwf Hroom) as (r & p' & E & Hwf' & Hs & Hst).
    exists r, p'. do 4 (split; [done|]).
    intros gs. change (process_id (set_grant_pointers gs p)) with (process_id p). fold u.
    by rewrite schedule_set_grants, E.
  - eexists _, p. split; [done|]. split; [done|]. split; [apply same_memory_refl|done].
Qed.

Lemma same_memory_steady p p' : steady p -> wf p' -> same_memory p p' -> steady p'.
Proof using.
  intros (_ & Hmem & Hbrk) Hwf' Hs. unfold same_memory in Hs. destruct_and!. split; [done|]. split; congruence.
Qed.

Lemma same_memory_grants p p' : same_memory p p' -> state p' = state p -> same_grants p p'.
Proof using. intros Hs Hst. unfold same_memory in Hs. destruct_and!. split; [by apply is_running_state|done..]. Qed.

(** Allocating a grant leaves the debugging state alone. *)
Lemma allocate_region_debug size al p r p' :
  allocate_in_grant_region_internal size al p = Ret (r, p') -> debug p' = debug p.
Proof using.
  unfold allocate_in_grant_region_internal. intros Hrun. repeat case_match; inv_ret; repeat case_match; by inv_ret.
Qed.

Lemma allocate_grant_debug n d size al p k r p' k' :
  Proc.allocate_grant n d size al p k = Ret (r, p', k') -> debug p' = debug p.
Proof using.
  unfold Proc.allocate_grant. intros Hrun. repeat case_match; try by inv_ret.
  all: inv_ret; destruct x as [o q]; apply allocate_region_debug in Hret; repeat case_match; by inv_ret.
Qed.

Lemma process_grant_new_debug g p k m r p' k' m' :
  process_grant_new g p k m = Ret (r, p', k', m') -> debug p' = debug p.
Proof using.
  assert (Henter : forall n (q : process stored config), debug (enter_grant n q).2 = debug q)
    by (intros; unfold enter_grant; repeat case_match; done).
  assert (Hleave : forall n (q : process stored config), debug (leave_grant n q) = debug q)
    by (intros; unfold leave_grant; repeat case_match; done).
  unfold process_grant_new. intros Hrun. destruct (grant_is_allocated _ p) as [ []|]; [by inv_ret| |by inv_ret].
  inv_ret. destruct x0 as [ [o q] k1]. apply allocate_grant_debug in Hret0 as Hq. rewrite <- Hq.
  destruct o; [|by inv_ret]. pose proof (Henter (g_grant_num g) q) as Hen.
  destruct (enter_grant (g_grant_num g) q) as [ [ptr|e] q1]; cbn [snd] in Hen; [|by inv_ret].
  destruct (initialize_from_counts _ _ _ _ _ _). inv_ret. by rewrite Hleave.
Qed.

(** Entering a grant with a closure that also acts on the process, which it does
    not see as entered: the data is at a fixed place. *)
Lemma access_grant_at g p m T t : represents p m T -> T !! g_driver_num g = Some (g, t) ->
  exists a, forall R fun_ again (res : R) bs p',
    (forall gs, fun_ (t_data t) (t_upcalls t) (t_ros t) (t_rws t) (set_grant_pointers gs p)
       = Ret (res, bs, set_grant_pointers gs p')) ->
    length bs = length (g_t_default g) -> same_grants p p' ->
    access_grant g fun_ again p m = Ret (Some res, p', write_bytes a bs m) /\
    represents p' (write_bytes a bs m) (<[g_driver_num g := (g, set_data bs t)]> T).
Proof using Hdecl.
  intros Hrep HT. set (d := g_driver_num g) in *.
  destruct (rep_holds _ _ _ Hrep d g t HT) as [base Hh].
  pose proof (holds_even _ _ _ _ _ _ Hh) as [Hev Hu].
  destruct (holds_type _ _ _ _ _ _ Hh) as [Hok _]. pose proof (h_in _ _ _ _ _ _ Hh) as Hin.
  destruct (h_entry _ _ _ _ _ _ Hh) as (gs & Hg & He). pose proof (rep_running _ _ _ Hrep) as Hr.
  destruct (enter_grant_cycle (g_grant_num g) p gs _ Hr Hg He Hu Hev) as [Henter _].
  exists (data_ptr g base). intros R fun_ again res bs p' Hf Hlen Hsame.
  destruct (enter_grant_cycle (g_grant_num g) p' gs (mkGrantEntry d base)) as [_ Hleave];
    [by rewrite (sg_running _ _ Hsame)|by rewrite (sg_grants _ _ Hsame)|done..|].
  destruct (type_ok_sizes g Hok) as (Hkm & _ & Hp & Hts & Hsz & _).
  destruct (read_counts m base g t (g_grant_num g) Hok Hin) as (E1 & E2 & E3).
  unfold access_grant. rewrite Henter, grant_size_ok by done. cbn [obind].
  cbn [grant_ptr] in *. rewrite (read_from_base_layout m base g t) by done. unfold get_resource_slices.
  rewrite E1, E2, E3.
  cbn [upcalls_array allow_ro_array allow_rw_array].
  unfold offset_of_grant_data_t. unfold layout_size in *. ck.
  replace (base + (kernel_managed g + padding g + g_t_size g - g_t_size g))
    with (data_ptr g base) by (unfold data_ptr; lia).
  pose proof Hin as [H1 H2 H3 H4 H5]. rewrite H2, H3, H4, H5. unfold locked at 1. rewrite Hf. cbn [obind].
  unfold locked in Hleave. cbn [ge_driver_num grant_ptr] in *. rewrite Hleave. split; [done|].
  apply (represents_same_grants p); [|done].
  apply (represents_update p m _ T d g t _ base); try done.
  - by apply grant_in_write_data.
  - intros b Hb. apply load8_write_bytes. rewrite Hlen.
    unfold layout_size, data_ptr, g_t_size in *. lia.
Qed.

Lemma access_grant_effect {R} fun_ g p m T t again (res : R) bs p' :
  represents p m T -> T !! g_driver_num g = Some (g, t) ->
  (forall gs, fun_ (t_data t) (t_upcalls t) (t_ros t) (t_rws t) (set_grant_pointers gs p)
     = Ret (res, bs, set_grant_pointers gs p')) ->
  length bs = length (g_t_default g) -> same_grants p p' ->
  exists m', access_grant g fun_ again p m = Ret (Some res, p', m') /\
    represents p' m' (<[g_driver_num g := (g, set_data bs t)]> T).
Proof using Hdecl.
  intros Hrep HT Hf Hlen Hsame. destruct (access_grant_at g p m T t Hrep HT) as [a Ha].
  eexists. by apply Ha.
Qed.

Lemma access_grant_refines {R} (f : closure R) g p m T t again :
  represents p m T -> T !! g_driver_num g = Some (g, t) -> closure_ok g f ->
  exists m', access_grant g (run_closure f) again p m
      = Ret (Some (apply_closure f t).1, p, m') /\
    represents p m' (<[g_driver_num g := (g, set_data (apply_closure f t).2 t)]> T).
Proof using Hdecl.
  intros Hrep HT Hf. apply access_grant_effect; try done.
  - intros gs. unfold run_closure. fold (apply_closure f t). by destruct (apply_closure f t).
  - apply Hf. destruct (rep_holds _ _ _ Hrep _ _ _ HT) as [base Hh].
    rewrite <- (gi_data _ _ _ _ (h_in _ _ _ _ _ _ Hh)). unfold read_bytes. by rewrite length_map, length_seq.
Qed.

Lemma grant_enter_refines {R} (f : closure R) g p k m T :
  represents p m T -> steady p -> decl !! g_driver_num g = Some g -> closure_ok g f ->
  exists r p' k' m', grant_enter g (run_closure f) p k m = Ret (r, p', k', m') /\ steady p' /\
    process_id p' = process_id p /\ tasks p' = tasks p /\
    match r with
    | Ok x => exists t,
        (T !! g_driver_num g = Some (g, t) \/
         T !! g_driver_num g = None /\ t = fresh_table g /\
         grant_allocated_count p' <> grant_allocated_count p) /\
        x = (apply_closure f t).1 /\
        represents p' m' (<[g_driver_num g := (g, set_data (apply_closure f t).2 t)]> T)
    | Err _ => T !! g_driver_num g = None /\ represents p' m' T
    end.
Proof using Hdecl iso.
  intros Hrep Hst Hd Hf. unfold grant_enter.
  destruct (process_grant_new_refines g p k m T Hrep Hst Hd)
    as (r & p1 & k1 & m1 & -> & Hst1 & Hid1 & Htk1 & Hres). cbn [obind].
  destruct r as [ []|e]; [|by eexists _, _, _, _].
  destruct Hres as (t & Hrep1 & Hsrc).
  destruct (access_grant_refines f g p1 m1 _ t true Hrep1) as (m2 & -> & Hrep2);
    [by rewrite lookup_insert_eq|done|].
  cbn [obind of_option]. eexists _, _, _, _. split; [done|]. split; [done|]. split; [done|]. split; [done|].
  exists t. split; [done|]. split; [done|]. by rewrite insert_insert_eq in Hrep2.
Qed.

(** * Sequences of operations *)

Inductive op (R : Type) :=
  | OSubscribe (u : Upcall)
  | OAllowRo (d i : Z) (buf : ProcessBuffer)
  | OAllowRw (d i : Z) (buf : ProcessBuffer)
  | OEnter (g : GrantType) (f : closure R).
Inductive reply (R : Type) :=
  | RUpcall (r : result Upcall (Upcall * ErrorCode))
  | RBuffer (r : result ProcessBuffer (ProcessBuffer * ErrorCode))
  | REnter (r : result R Error).

Definition op_ok {R} (o : op R) : Prop :=
  match o with
  | OSubscribe _ u => upcall_ok u
  | OAllowRo _ _ i buf | OAllowRw _ _ i buf => 0 <= i /\ buffer_words buf
  | OEnter _ g f => decl !! g_driver_num g = Some g /\ closure_ok g f
  end.

Definition exec_op {R} (o : op R) p (k : Kernel) (m : memory)
    : outcome (reply R * process stored config * Kernel * memory) :=
  match o with
  | OSubscribe _ u => let '(r, p, m) := subscribe u p m in Ret (RUpcall R r, p, k, m)
  | OAllowRo _ d i buf => let '(r, p, m) := allow_ro d i buf p m in Ret (RBuffer R r, p, k, m)
  | OAllowRw _ d i buf => let '(r, p, m) := allow_rw d i buf p m in Ret (RBuffer R r, p, k, m)
  | OEnter _ g f =>
    let! '(r, p, k, m) := grant_enter g (run_closure f) p k m in Ret (REnter R r, p, k, m)
  end.

Fixpoint exec {R} (ops : list (op R)) p (k : Kernel) (m : memory)
    : outcome (list (reply R) * process stored config * Kernel * memory) :=
  match ops with
  | [] => Ret ([], p, k, m)
  | o :: ops =>
    let! '(r, p, k, m) := exec_op o p k m in
    let! '(rs, p, k, m) := exec ops p k m in
    Ret (r :: rs, p, k, m)
  end.

(** What each operation promises, on tables. *)
Inductive spec_op {R} (pid : ProcessId) : tables -> op R -> reply R -> tables -> Prop :=
  | spec_subscribe u T r T' :
      spec_swap t_upcalls set_upcall (driver_num (up_upcall_id u))
        (subscribe_num (up_upcall_id u)) (saved_of u) T = (r, T') ->
      spec_op pid T (OSubscribe R u)
        (RUpcall R (match r with
                    | Ok old => Ok (mkUpcall pid (up_upcall_id u) (su_appdata old) (su_fn_ptr old))
                    | Err e => Err (u, e)
                    end)) T'
  | spec_allow_ro d i buf T r T' :
      spec_swap t_ros set_ro d i (allow_of buf) T = (r, T') ->
      spec_op pid T (OAllowRo R d i buf)
        (RBuffer R (match r with
                    | Ok old => Ok (mkProcessBuffer (sa_ptr old) (sa_len old) pid)
                    | Err e => Err (buf, e)
                    end)) T'
  | spec_allow_rw d i buf T r T' :
      spec_swap t_rws set_rw d i (allow_of buf) T = (r, T') ->
      spec_op pid T (OAllowRw R d i buf)
        (RBuffer R (match r with
                    | Ok old => Ok (mkProcessBuffer (sa_ptr old) (sa_len old) pid)
                    | Err e => Err (buf, e)
                    end)) T'
  | spec_enter g f t T :
      T !! g_driver_num g = Some (g, t) \/ T !! g_driver_num g = None /\ t = fresh_table g ->
      spec_op pid T (OEnter R g f) (REnter R (Ok (apply_closure f t).1))
        (<[g_driver_num g := (g, set_data (apply_closure f t).2 t)]> T)
  | spec_refuse g f e T :
      T !! g_driver_num g = None -> spec_op pid T (OEnter R g f) (REnter R (Err e)) T.

Inductive spec_ops {R} (pid : ProcessId) :
    tables -> list (op R) -> list (reply R) -> tables -> Prop :=
  | spec_nil T : spec_ops pid T [] [] T
  | spec_cons o ops r rs T T1 T2 :
      spec_op pid T o r T1 -> spec_ops pid T1 ops rs T2 ->
      spec_ops pid T (o :: ops) (r :: rs) T2.

Lemma exec_op_refines {R} (o : op R) p k m T :
  represents p m T -> steady p -> op_ok o ->
  exists r p' k' m' T', exec_op o p k m = Ret (r, p', k', m') /\
    spec_op (process_id p) T o r T' /\ represents p' m' T' /\ steady p' /\
    process_id p' = process_id p.
Proof using Hdecl iso.
  intros Hrep Hst Hok. destruct o as [u|d i buf|d i buf|g f]; cbn [exec_op].
  - pose proof (subscribe_refines p m T u Hrep Hok) as Href. cbv zeta in Href.
    destruct (spec_swap _ _ _ _ _ _) as [r T'] eqn:E. destruct Href as (m' & Hrep' & ->).
    eexists _, _, _, _, T'. split; [done|]. by split; [constructor|].
  - destruct Hok as [Hi Hb]. pose proof (allow_ro_refines p m T d i buf Hrep Hi Hb) as Href.
    destruct (spec_swap _ _ _ _ _ _) as [r T'] eqn:E. destruct Href as (m' & Hrep' & ->).
    eexists _, _, _, _, T'. split; [done|]. by split; [constructor|].
  - destruct Hok as [Hi Hb]. pose proof (allow_rw_refines p m T d i buf Hrep Hi Hb) as Href.
    destruct (spec_swap _ _ _ _ _ _) as [r T'] eqn:E. destruct Href as (m' & Hrep' & ->).
    eexists _, _, _, _, T'. split; [done|]. by split; [constructor|].
  - destruct Hok as [Hd Hf].
    destruct (grant_enter_refines f g p k m T Hrep Hst Hd Hf)
      as (r & p' & k' & m' & -> & Hst' & Hid & _ & Hres). cbn [obind]. destruct r as [x|e].
    + destruct Hres as (t & Hsrc & -> & Hrep').
      eexists _, _, _, _, _. split; [done|]. split; [apply spec_enter; naive_solver|done].
    + destruct Hres as [Hnone Hrep']. eexists _, _, _, _, T. split; [done|].
      split; [by constructor|done].
Qed.

End represents.

(** C5: the raw memory of the grants of a process behaves as one table per
    driver.  From any state that represents such tables, every sequence of
    subscribe, allow-read-only and allow-read-write calls and of entries by
    drivers returns, and replies as the tables do: a call swaps exactly the
    addressed entry and reports the old one, an unknown number is refused with
    [NOSUPPORT], a driver that has no grant yet with [NOMEM]; an entry runs the
    driver's closure on its own data, which starts out as the type's default and
    with null upcalls and empty buffers; a refused entry only happens for a
    grant that is not allocated.  No operation of one driver changes the
    contents of another driver's grant. *)
Theorem grants_refine_tables {hw config stored R} {mpu : MPU hw config}
    {iso : MpuIsolation hw config} decl (ops : list (op R)) (p : process stored config) k m T :
  declared decl -> represents decl p m T -> steady p -> Forall (op_ok decl) ops ->
  exists rs p' k' m' T', exec ops p k m = Ret (rs, p', k', m') /\
    spec_ops (process_id p) T ops rs T' /\ represents decl p' m' T' /\ steady p'.
Proof.
  intros Hdecl Hrep Hst Hok. revert p k m T Hrep Hst.
  induction Hok as [|o ops Ho _ IH]; intros p k m T Hrep Hst.
  - eexists _, _, _, _, T. split; [done|]. by split; [constructor|].
  - destruct (exec_op_refines decl Hdecl o p k m T Hrep Hst Ho)
      as (r & p1 & k1 & m1 & T1 & E1 & Hs1 & Hrep1 & Hst1 & Hid1).
    destruct (IH p1 k1 m1 T1 Hrep1 Hst1) as (rs & p2 & k2 & m2 & T2 & E2 & Hs2 & Hrep2 & Hst2).
    exists (r :: rs), p2, k2, m2, T2. cbn [exec]. rewrite E1. cbn [obind]. rewrite E2.
    split; [done|]. split; [|done]. rewrite Hid1 in Hs2. by apply (spec_cons _ _ _ _ _ _ T1).
Qed.

(** A process without grants. *)
Lemma represents_empty {stored config} decl (p : process stored config) m gs :
  is_running p = true -> grant_pointers p = Some gs -> Forall (fun e => grant_ptr e = 0) gs ->
  represents decl p m ∅.
Proof.
  intros Hr Hg Hz. split; [done|by eexists|..].
  - intros d g t Hl. rewrite lookup_empty in Hl. discriminate Hl.
  - intros gs' i e Hg' He Hn. rewrite Hg in Hg'. injection Hg' as <-. destruct Hn.
    by apply (Forall_lookup_1 _ _ _ _ Hz He).
  - intros d d' g g' t t' b b' _ Hl. rewrite lookup_empty in Hl. discriminate Hl.
Qed.

Definition demo_grant : GrantType := mkGrantType 0 7 2 1 1 4 [1; 2; 3; 4].
Definition demo_decl : gmap Z GrantType := {[ 7 := demo_grant ]}.
Definition demo_upcall : Upcall := mkUpcall (mkProcessId 0 0) (mkUpcallId 7 1) 5 (Some 65536).
Definition demo_ops : list (op (list Z)) :=
  [OSubscribe _ demo_upcall; OEnter _ demo_grant (fun data _ _ _ => (data, rev data));
   OSubscribe _ demo_upcall; OAllowRw _ 7 0 (mkProcessBuffer 8192 16 (mkProcessId 0 0))].

Lemma demo_declared : declared demo_decl.
Proof.
  unfold declared, demo_decl. split.
  - intros d g [<- <-]%lookup_singleton_Some. split; [reflexivity|].
    split; [done..|by exists 2|vm_compute; discriminate].
  - intros d d' g g' [<- _]%lookup_singleton_Some [<- _]%lookup_singleton_Some _. reflexivity.
Qed.

Lemma demo_ops_ok : Forall (op_ok demo_decl) demo_ops.
Proof.
  assert (Hu : upcall_ok demo_upcall).
  { split; [discriminate|]. split; [by split|]. intros fp [= <-]. done. }
  unfold demo_ops. repeat apply Forall_cons_2; try exact Hu; [| |by apply Forall_nil_2].
  - split; [reflexivity|]. intros data ups ros rws Hl. cbn. rewrite length_rev. exact Hl.
  - split; [discriminate|]. by split.
Qed.

Lemma grants_refine_tables_witness :
  exists p rest k h, demo_create = Ret (Ok (p, rest), k, h) /\
  exists rs p' k' m' T', exec demo_ops p k ∅ = Ret (rs, p', k', m') /\
    spec_ops (process_id p) ∅ demo_ops rs T' /\ represents demo_decl p' m' T' /\ steady p'.
Proof.
  destruct demo_created as (p & rest & k & h & E & Hwf & _ & Hr & _ & Htop & _).
  exists p, rest, k, h. split; [exact E|].
  destruct (demo_fresh p rest k h E) as (Hab & gs & Hg & Hz). clear E.
  apply (grants_refine_tables demo_decl demo_ops p k ∅ ∅).
  - exact demo_declared.
  - exact (represents_empty demo_decl p ∅ gs Hr Hg Hz).
  - split; [exact Hwf|]. split; [exact Htop|exact Hab].
  - exact demo_ops_ok.
Defined.

(** The layout of a grant.  For every grant type, [grant_size] does not
    overflow, and at a base address aligned to [grant_align] the counters, the
    saved upcalls, the saved read-only and read-write buffers and the driver's
    data follow each other without overlap inside [grant_size] bytes; all arrays
    are word aligned, the data is aligned for its type and fills the grant to its
    end.  Initialising the grant and reading it back gives the same layout, the
    declared counts, null upcalls and empty buffers, and touches nothing outside
    the grant. *)
Theorem grant_layout g base num m :
  type_ok g -> 0 <= base -> (grant_align (g_t_align g) | base) ->
  exists size data l m',
    grant_size (g_upcalls g) (g_allow_ros g) (g_allow_rws g) (g_t_size g) (g_t_align g) = Ret size /\
    offset_of_grant_data_t base size (g_t_size g) = Ret data /\
    initialize_from_counts base (g_upcalls g) (g_allow_ros g) (g_allow_rws g) num m = (l, m') /\
    upcalls_array l = base + 4 /\
    allow_ro_array l = upcalls_array l + 8 * g_upcalls g /\
    allow_rw_array l = allow_ro_array l + 8 * g_allow_ros g /\
    allow_rw_array l + 8 * g_allow_rws g <= data /\
    data + g_t_size g = base + size /\
    (4 | upcalls_array l) /\ (4 | allow_ro_array l) /\ (4 | allow_rw_array l) /\
    (g_t_align g | data) /\
    read_from_base base num m' = l /\
    get_resource_slices l m' =
      (replicate (Z.to_nat (g_upcalls g)) (mkSavedUpcall 0 None),
       replicate (Z.to_nat (g_allow_ros g)) (mkSavedAllow 0 0),
       replicate (Z.to_nat (g_allow_rws g)) (mkSavedAllow 0 0)) /\
    (forall b, ~ base <= b < data -> load8 m' b = load8 m b).
Proof.
  intros Hok Hb Hdiv. destruct (grant_align_div g base Hok Hdiv) as [ [q Hq] Hal].
  destruct (type_ok_sizes g Hok) as (Hkm & _ & Hp & Hts & Hsz & Hdvd).
  destruct (initialize_from_counts base (g_upcalls g) (g_allow_ros g) (g_allow_rws g) num m)
    as [l m'] eqn:Hinit.
  destruct (initialize_memory g base num m l m' Hok Hinit) as (Hin & Hl & Hout).
  destruct (read_counts m' base g _ num Hok Hin) as (E1 & E2 & E3).
  exists (layout_size g), (data_ptr g base), l, m'. split; [by apply grant_size_ok|].
  unfold offset_of_grant_data_t. unfold layout_size in Hsz |- *. ck.
  rewrite (read_from_base_layout m' base g _ num Hok Hin). rewrite Hl in *.
  unfold get_resource_slices. rewrite E1, E2, E3. cbn [upcalls_array allow_ro_array allow_rw_array].
  rewrite (gi_upcalls _ _ _ _ Hin), (gi_ros _ _ _ _ Hin), (gi_rws _ _ _ _ Hin).
  destruct Hok as [U1 U2 U3 _ _]. unfold data_ptr, rw_array, ro_array in *.
  split_and!; try done; try (unfold kernel_managed; lia).
  - f_equal. lia.
  - exists (q + 1). lia.
  - exists (q + 1 + 2 * g_upcalls g). lia.
  - exists (q + 1 + 2 * g_upcalls g + 2 * g_allow_ros g). lia.
  - rewrite <- Z.add_assoc. by apply Z.divide_add_r.
Qed.

Lemma grant_layout_witness :
  exists size data l m',
    grant_size 2 1 1 4 4 = Ret size /\ offset_of_grant_data_t 8192 size 4 = Ret data /\
    initialize_from_counts 8192 2 1 1 0 ∅ = (l, m') /\
    upcalls_array l = 8192 + 4 /\ allow_ro_array l = upcalls_array l + 8 * 2 /\
    allow_rw_array l = allow_ro_array l + 8 * 1 /\ allow_rw_array l + 8 * 1 <= data /\
    data + 4 = 8192 + size /\
    (4 | upcalls_array l) /\ (4 | allow_ro_array l) /\ (4 | allow_rw_array l) /\ (4 | data) /\
    read_from_base 8192 0 m' = l /\
    get_resource_slices l m' =
      (replicate 2 (mkSavedUpcall 0 None), replicate 1 (mkSavedAllow 0 0),
       replicate 1 (mkSavedAllow 0 0)) /\
    (forall b, ~ 8192 <= b < data -> load8 m' b = load8 ∅ b).
Proof.
  apply (grant_layout demo_grant 8192 0 ∅).
  - exact (proj2 (proj1 demo_declared 7 demo_grant eq_refl)).
  - discriminate.
  - exists 2048. reflexivity.
Defined.

End GrantSpec.
