(* ===== verification/Kernel.v ===== *)
(** The kernel thread of one process: memory operations ([kernel/src/memop.rs]),
    system-call handling and the process loop ([kernel/src/kernel.rs]:
    [try_allocate_grant], [handle_syscall], [do_process]).

    The state [Kern.sys] is the process, the MPU registers, the kernel counters,
    the memory that holds the grants, and the state of everything a board plugs
    into the kernel (drivers, scheduler, timer).  The board's parts are a record
    of operations ([Kern.Board]): the traits of [kernel/src/platform/] and
    [kernel/src/syscall_driver.rs].  Tracing output is not modelled. *)

From stdpp Require Import base numbers list gmap.
From S2P Require Import Prelude RingBuffer Mpu Syscall Tbf Process Grant.
Import Ring Mpu Syscall Proc Grant.
Local Open Scope Z_scope.

Module Kern.

(** * Memory operations *)

Section memop.
  Context {hw config stored : Type} {mpu : MPU hw config}.
  Implicit Type p : process stored config.

Definition number_writeable_flash_regions p : Z := Tbf.number_writeable_flash_regions (header p).
Definition get_writeable_flash_region (index : Z) p : outcome (Z * Z) :=
  Tbf.get_writeable_flash_region (header p) index.

Record ProcessAddresses := mkAddresses {
  pa_flash_start : Z; pa_flash_end : Z;
  pa_sram_start : Z; pa_sram_end : Z; pa_sram_grant_start : Z;
}.
(** [get_addresses]: all fields are computed, so its additions can overflow; the
    fields that [memop] does not use are left out of the result. *)
Definition get_addresses p : outcome ProcessAddresses :=
  let! _ := flash_non_protected_start p in
  let! _ := add32 (flash_ptr p) (Tbf.get_binary_end (header p)) in
  Ret (mkAddresses (flash_start p) (flash_end p) (mem_start p) (mem_end p)
         (kernel_memory_break p)).

Definition memop (op_type r1 : Z) p (h : hw)
    : outcome (SyscallReturn * process stored config * hw) :=
  if op_type =? 0 then
    let! '(r, p, h) := brk r1 p h in
    Ret (match r with Ok _ => Success | Err _ => Failure NOMEM end, p, h)
  else if op_type =? 1 then
    let! '(r, p, h) := sbrk r1 p h in
    Ret (match r with Ok addr => SuccessU32 addr | Err _ => Failure NOMEM end, p, h)
  else if op_type =? 2 then
    let! a := get_addresses p in Ret (SuccessU32 (pa_sram_start a), p, h)
  else if op_type =? 3 then
    let! a := get_addresses p in Ret (SuccessU32 (pa_sram_end a), p, h)
  else if op_type =? 4 then
    let! a := get_addresses p in Ret (SuccessU32 (pa_flash_start a), p, h)
  else if op_type =? 5 then
    let! a := get_addresses p in Ret (SuccessU32 (pa_flash_end a), p, h)
  else if op_type =? 6 then
    let! a := get_addresses p in Ret (SuccessU32 (pa_sram_grant_start a), p, h)
  else if op_type =? 7 then
    Ret (SuccessU32 (wrap32 (number_writeable_flash_regions p)), p, h)
  else if op_type =? 8 then
    let! a := get_addresses p in
    let! '(offset, size) := get_writeable_flash_region r1 p in
    if size =? 0 then Ret (Failure FAIL, p, h)
    else let! v := add32 (pa_flash_start a) offset in Ret (SuccessU32 v, p, h)
  else if op_type =? 9 then
    let! a := get_addresses p in
    let! '(offset, size) := get_writeable_flash_region r1 p in
    if size =? 0 then Ret (Failure FAIL, p, h)
    else
      let! v := add32 (pa_flash_start a) offset in
      let! v := add32 v size in
      Ret (SuccessU32 v, p, h)
  else if op_type =? 10 then
    let! p := update_stack_start_pointer r1 p in Ret (Success, p, h)
  else if op_type =? 11 then
    let! p := update_heap_start_pointer r1 p in Ret (Success, p, h)
  else Ret (Failure NOSUPPORT, p, h).

End memop.

(** * State *)

Section kernel.
  Context {hw config stored E : Type} {mpu : MPU hw config} {ukb : UKB stored}.
  Context (CALLBACKS_OFFSET PROCESS_STRUCT_OFFSET : Z).
  Context (fault_action : process stored config -> FaultAction).

Record sys := mkSys {
  s_proc : process stored config;
  s_hw : hw;
  s_kern : Kernel;
  s_mem : memory;
  s_env : E;
  (** Ghost: the process and the MPU registers at each switch to userspace, the
      latest first. *)
  s_runs : list (process stored config * hw);
}.

Definition set_proc (p : process stored config) (s : sys) : sys :=
  mkSys p (s_hw s) (s_kern s) (s_mem s) (s_env s) (s_runs s).
Definition set_kern (k : Kernel) (s : sys) : sys :=
  mkSys (s_proc s) (s_hw s) k (s_mem s) (s_env s) (s_runs s).
Definition set_hw (h : hw) (s : sys) : sys :=
  mkSys (s_proc s) h (s_kern s) (s_mem s) (s_env s) (s_runs s).
Definition set_mem (m : memory) (s : sys) : sys :=
  mkSys (s_proc s) (s_hw s) (s_kern s) m (s_env s) (s_runs s).
Definition set_env (e : E) (s : sys) : sys :=
  mkSys (s_proc s) (s_hw s) (s_kern s) (s_mem s) e (s_runs s).

(** A capsule, as the kernel calls it ([SyscallDriver]). *)
Record SyscallDriver := mkDriver {
  d_command : Z -> Z -> Z -> sys -> outcome (SyscallReturn * sys);
  d_allocate_grant : sys -> outcome (result unit Error * sys);
  d_allow_userspace_readable : Z -> ProcessBuffer -> sys ->
    outcome (result ProcessBuffer (ProcessBuffer * ErrorCode) * sys);
}.

(** What a board gives the kernel ([KernelResources], [SchedulerTimer],
    [Scheduler::continue_process], [IPC::schedule_upcall]), and what userspace
    does to memory while it runs. *)
Record Board := mkBoard {
  with_driver : Z -> option SyscallDriver;
  filter_syscall : process stored config -> Syscall -> result unit ErrorCode;
  process_fault_hook : sys -> outcome (result unit unit * sys);
  context_switch_hook : process stored config -> E -> E;
  continue_process : ProcessId -> E -> bool * E;
  ipc_schedule_upcall : option (ProcessId -> IPCUpcallType -> sys -> outcome sys);
  timer_reset : E -> E;
  timer_start : Z -> E -> E;
  timer_arm : E -> E;
  timer_disarm : E -> E;
  timer_get_remaining_us : E -> option Z * E;
  user_writes : process stored config -> hw -> memory -> memory;
}.
Context (board : Board).

(** The dummy timer of [impl SchedulerTimer for ()]. *)
Definition unit_get_remaining_us (e : E) : option Z * E := (Some 10000, e).

Definition get_remaining_us (timeslice_us : option Z) (s : sys) : option Z * sys :=
  let '(r, e) := match timeslice_us with
                 | None => unit_get_remaining_us (s_env s)
                 | Some _ => timer_get_remaining_us board (s_env s)
                 end in
  (r, set_env e s).
Definition timer_do (f : Board -> E -> E) (timeslice_us : option Z) (s : sys) : sys :=
  match timeslice_us with
  | None => s
  | Some _ => set_env (f board (s_env s)) s
  end.

(** Calls of process methods. *)
Definition return_value (rv : SyscallReturn) (s : sys) : outcome sys :=
  let! '(p, k) := set_syscall_return_value CALLBACKS_OFFSET PROCESS_STRUCT_OFFSET fault_action
                    rv (s_proc s) (s_kern s) in
  Ret (set_kern k (set_proc p s)).
Definition fault (s : sys) : outcome sys :=
  let! '(p, k) := set_fault_state CALLBACKS_OFFSET PROCESS_STRUCT_OFFSET fault_action
                    (s_proc s) (s_kern s) in
  Ret (set_kern k (set_proc p s)).
Definition on_proc (f : process stored config -> outcome (process stored config)) (s : sys)
    : outcome sys :=
  let! p := f (s_proc s) in Ret (set_proc p s).

(** * System calls *)

Inductive AllocResult := NoAllocation | NewAllocation | SameAllocation.

Definition try_allocate_grant (driver : SyscallDriver) (s : sys) : outcome (AllocResult * sys) :=
  let before_count := default 0%nat (grant_allocated_count (s_proc s)) in
  let! '(r, s) := d_allocate_grant driver s in
  match r with
  | Ok _ =>
    if Nat.eqb before_count (default 0%nat (grant_allocated_count (s_proc s)))
    then Ret (SameAllocation, s) else Ret (NewAllocation, s)
  | Err _ => Ret (NoAllocation, s)
  end.

Definition sys_subscribe (u : Upcall) (s : sys) : result Upcall (Upcall * ErrorCode) * sys :=
  let '(r, p, m) := subscribe u (s_proc s) (s_mem s) in (r, set_mem m (set_proc p s)).

Definition subscribe_value (driver : option SyscallDriver) (upcall : Upcall) (s : sys)
    : outcome (SyscallReturn * sys) :=
  match driver with
  | None => Ret (into_subscribe_failure upcall NODEVICE, s)
  | Some driver =>
    let '(r, s) := sys_subscribe upcall s in
    match r with
    | Ok upcall => Ret (into_subscribe_success upcall, s)
    | Err (upcall, NOMEM) =>
      let! '(a, s) := try_allocate_grant driver s in
      match a with
      | NewAllocation =>
        let '(r, s) := sys_subscribe upcall s in
        match r with
        | Ok upcall => Ret (into_subscribe_success upcall, s)
        | Err (upcall, err) => Ret (into_subscribe_failure upcall err, s)
        end
      | _ => Ret (into_subscribe_failure upcall NOMEM, s)
      end
    | Err (upcall, err) => Ret (into_subscribe_failure upcall err, s)
    end
  end.

Definition handle_subscribe (driver : option SyscallDriver)
    (driver_number subdriver_number upcall_ptr appdata : Z) (s : sys) : outcome sys :=
  let upcall_id := mkUpcallId driver_number subdriver_number in
  let ptr := if upcall_ptr =? 0 then None else Some upcall_ptr in
  let upcall := mkUpcall (process_id (s_proc s)) upcall_id appdata ptr in
  let! rval1 := match ptr with
                | None => Ret None
                | Some upcall_ptr_nonnull =>
                  let! valid := is_valid_upcall_function_pointer upcall_ptr_nonnull (s_proc s) in
                  Ret (if valid : bool then None else Some INVAL)
                end in
  let! '(rval, s) := match rval1 with
                     | Some err => Ret (into_subscribe_failure upcall err, s)
                     | None => subscribe_value driver upcall s
                     end in
  let! s := (if is_success rval then on_proc (remove_pending_upcalls upcall_id) s
             else Ret s) in
  return_value rval s.

Definition handle_command (driver : option SyscallDriver) (subdriver_number arg0 arg1 : Z)
    (s : sys) : outcome sys :=
  let! '(res, s) := match driver with
                    | Some d => d_command d subdriver_number arg0 arg1 s
                    | None => Ret (command_failure NODEVICE, s)
                    end in
  return_value res s.

(** The two allow calls share their structure: [build] checks the buffer, [swap]
    stores it in the grant. *)
Section allow.
  Context (build : sys -> outcome (result ProcessBuffer ErrorCode * sys)).
  Context (swap : ProcessBuffer -> sys ->
    result ProcessBuffer (ProcessBuffer * ErrorCode) * sys).
  Context (success : Z -> Z -> SyscallReturn).
  Context (failure : ErrorCode -> Z -> Z -> SyscallReturn).

Definition allow_value (driver : option SyscallDriver) (allow_address allow_size : Z) (s : sys)
    : outcome (SyscallReturn * sys) :=
  match driver with
  | None => Ret (failure NODEVICE allow_address allow_size, s)
  | Some driver =>
    let! '(b, s) := build s in
    match b with
    | Err allow_error => Ret (failure allow_error allow_address allow_size, s)
    | Ok pbuf =>
      let '(r, s) := swap pbuf s in
      match r with
      | Ok pbuf => Ret (success (buf_ptr pbuf) (buf_len pbuf), s)
      | Err (pbuf, NOMEM) =>
        let! '(a, s) := try_allocate_grant driver s in
        match a with
        | NewAllocation =>
          let '(r, s) := swap pbuf s in
          match r with
          | Ok pbuf => Ret (success (buf_ptr pbuf) (buf_len pbuf), s)
          | Err (pbuf, err) => Ret (failure err (buf_ptr pbuf) (buf_len pbuf), s)
          end
        | _ => Ret (failure NOMEM (buf_ptr pbuf) (buf_len pbuf), s)
        end
      | Err (pbuf, err) => Ret (failure err (buf_ptr pbuf) (buf_len pbuf), s)
      end
    end
  end.
End allow.

Definition sys_build_rw (a n : Z) (s : sys) : outcome (result ProcessBuffer ErrorCode * sys) :=
  let '(r, p) := build_readwrite_process_buffer a n (s_proc s) in Ret (r, set_proc p s).
Definition sys_build_ro (a n : Z) (s : sys) : outcome (result ProcessBuffer ErrorCode * sys) :=
  let! '(r, p) := build_readonly_process_buffer a n (s_proc s) in Ret (r, set_proc p s).
Definition sys_allow_rw (d n : Z) (buf : ProcessBuffer) (s : sys) :=
  let '(r, p, m) := allow_rw d n buf (s_proc s) (s_mem s) in (r, set_mem m (set_proc p s)).
Definition sys_allow_ro (d n : Z) (buf : ProcessBuffer) (s : sys) :=
  let '(r, p, m) := allow_ro d n buf (s_proc s) (s_mem s) in (r, set_mem m (set_proc p s)).

Definition handle_readwrite_allow (driver : option SyscallDriver)
    (driver_number subdriver_number allow_address allow_size : Z) (s : sys) : outcome sys :=
  let! '(res, s) := allow_value (sys_build_rw allow_address allow_size)
    (sys_allow_rw driver_number subdriver_number) AllowReadWriteSuccess AllowReadWriteFailure
    driver allow_address allow_size s in
  return_value res s.

Definition handle_readonly_allow (driver : option SyscallDriver)
    (driver_number subdriver_number allow_address allow_size : Z) (s : sys) : outcome sys :=
  let! '(res, s) := allow_value (sys_build_ro allow_address allow_size)
    (sys_allow_ro driver_number subdriver_number) AllowReadOnlySuccess AllowReadOnlyFailure
    driver allow_address allow_size s in
  return_value res s.

Definition handle_userspace_readable_allow (driver : option SyscallDriver)
    (subdriver_number allow_address allow_size : Z) (s : sys) : outcome sys :=
  let! '(res, s) :=
    match driver with
    | None => Ret (UserspaceReadableAllowFailure NODEVICE allow_address allow_size, s)
    | Some d =>
      let! '(b, s) := sys_build_rw allow_address allow_size s in
      match b with
      | Err allow_error => Ret (UserspaceReadableAllowFailure allow_error allow_address allow_size, s)
      | Ok rw_pbuf =>
        let! '(r, s) := d_allow_userspace_readable d subdriver_number rw_pbuf s in
        match r with
        | Ok b => Ret (UserspaceReadableAllowSuccess (buf_ptr b) (buf_len b), s)
        | Err (b, err) => Ret (UserspaceReadableAllowFailure err (buf_ptr b) (buf_len b), s)
        end
      end
    end in
  return_value res s.

Definition handle_yield (which param_a param_b : Z) (s : sys) : outcome sys :=
  match YieldCall_try_from which with
  | Ok NoWait =>
    let has := has_tasks (s_proc s) in
    let s := if set_byte param_a (s_proc s)
             then set_mem (<[param_a := if has then 1 else 0]> (s_mem s)) s else s in
    Ret (if has then set_proc (set_yielded_state (s_proc s)) s else s)
  | Ok Wait => Ret (set_proc (set_yielded_state (s_proc s)) s)
  | Ok WaitFor =>
    Ret (set_proc (set_yielded_for_state (mkUpcallId param_a param_b) (s_proc s)) s)
  | Err _ => Ret s
  end.

Definition handle_exit (which completion_code : Z) (s : sys) : outcome sys :=
  if which =? 0 then Ret (set_proc (terminate (Some completion_code) (s_proc s)) s)
  else if which =? 1 then
    let! '(p, k) := try_restart CALLBACKS_OFFSET PROCESS_STRUCT_OFFSET
                      (Some completion_code) (s_proc s) (s_kern s) in
    Ret (set_kern k (set_proc p s))
  else return_value (Failure NOSUPPORT) s.

Definition handle_memop (operand arg0 : Z) (s : sys) : outcome sys :=
  let! '(rval, p, h) := memop operand arg0 (s_proc s) (s_hw s) in
  return_value rval (set_hw h (set_proc p s)).

(** Dispatch after filtering. *)
Definition dispatch_syscall (syscall : Syscall) (s : sys) : outcome sys :=
  match syscall with
  | Memop operand arg0 => handle_memop operand arg0 s
  | Yield which param_a param_b => handle_yield which param_a param_b s
  | Subscribe d n ptr data => handle_subscribe (with_driver board d) d n ptr data s
  | Command d n a b => handle_command (with_driver board d) n a b s
  | ReadWriteAllow d n a l => handle_readwrite_allow (with_driver board d) d n a l s
  | UserspaceReadableAllow d n a l => handle_userspace_readable_allow (with_driver board d) n a l s
  | ReadOnlyAllow d n a l => handle_readonly_allow (with_driver board d) d n a l s
  | Exit which completion_code => handle_exit which completion_code s
  end.

Definition filterable (syscall : Syscall) : bool :=
  match syscall with Yield _ _ _ | Exit _ _ | Memop _ _ => false | _ => true end.

Definition handle_syscall (syscall : Syscall) (s : sys) : outcome sys :=
  let! s := on_proc (debug_syscall_called syscall) s in
  match (if filterable syscall then filter_syscall board (s_proc s) syscall else Ok tt) with
  | Err response => return_value (Failure response) s
  | Ok _ => dispatch_syscall syscall s
  end.

(** * The process loop *)

Inductive StoppedExecutingReason :=
  | NoWorkLeft | StoppedFaulted | RStopped | TimesliceExpired | KernelPreemption.

#[global] Instance StoppedExecutingReason_eq_dec : EqDecision StoppedExecutingReason.
Proof. solve_decision. Defined.

Definition MIN_QUANTA_THRESHOLD_US : Z := 500.

(** [process.switch_to()]: userspace runs with the MPU registers as they are. *)
Definition switch (s : sys) : outcome (option ContextSwitchReason * sys) :=
  let! '(r, p) := switch_to (s_proc s) in
  Ret (r, mkSys p (s_hw s) (s_kern s) (user_writes board (s_proc s) (s_hw s) (s_mem s)) (s_env s)
            ((s_proc s, s_hw s) :: s_runs s)).

(** Setting up the MPU and the timer, and running userspace. *)
Definition enter_userspace (timeslice_us : option Z) (s : sys)
    : outcome (option ContextSwitchReason * sys) :=
  let s := set_env (context_switch_hook board (s_proc s) (s_env s)) s in
  let! '(p, h) := setup_mpu (s_proc s) (s_hw s) in
  let s := set_hw h (set_proc p s) in
  let! h := enable_app_mpu (s_hw s) in
  let s := timer_do timer_arm timeslice_us (set_hw h s) in
  let! '(context_switch_reason, s) := switch s in
  let s := timer_do timer_disarm timeslice_us s in
  let! h := disable_app_mpu (s_hw s) in
  Ret (context_switch_reason, set_hw h s).

(** The arm of [State::Running]: [Some reason] leaves the loop. *)
Definition run_running (timeslice_us : option Z) (s : sys)
    : outcome (option StoppedExecutingReason * sys) :=
  let! '(context_switch_reason, s) := enter_userspace timeslice_us s in
  match context_switch_reason with
  | Some Fault =>
    let! '(r, s) := process_fault_hook board s in
    let! s := (if is_err r then fault s else Ret s) in
    Ret (None, s)
  | Some (SyscallFired syscall) => let! s := handle_syscall syscall s in Ret (None, s)
  | Some Interrupted =>
    let '(r, s) := get_remaining_us timeslice_us s in
    match r with
    | None => let! s := on_proc debug_timeslice_expired s in Ret (Some TimesliceExpired, s)
    | Some _ => Ret (None, s)
    end
  | None => let! s := fault s in Ret (None, s)
  end.

Definition run_yielded (s : sys) : outcome (option StoppedExecutingReason * sys) :=
  let! '(t, p) := dequeue_task (s_proc s) in
  let s := set_proc p s in
  match t with
  | None => Ret (Some NoWorkLeft, s)
  | Some (TReturnValue _) => Ret (Some NoWorkLeft, s)
  | Some (TFunctionCall ccb) =>
    let! '(p, k) := set_process_function CALLBACKS_OFFSET PROCESS_STRUCT_OFFSET fault_action
                      ccb (s_proc s) (s_kern s) in
    Ret (None, set_kern k (set_proc p s))
  | Some (TIPC otherapp ipc_type) =>
    match ipc_schedule_upcall board with
    | None => Panic
    | Some f => let! s := f otherapp ipc_type s in Ret (None, s)
    end
  end.

Definition run_yielded_for (upcall_id : UpcallId) (s : sys)
    : outcome (option StoppedExecutingReason * sys) :=
  let! '(t, p) := remove_upcall upcall_id (s_proc s) in
  let s := set_proc p s in
  match t with
  | None => Ret (Some NoWorkLeft, s)
  | Some task =>
    let! rv := match task with
               | TReturnValue rv => Ret (YieldWaitFor (ra_argument0 rv) (ra_argument1 rv) (ra_argument2 rv))
               | TFunctionCall ccb => Ret (YieldWaitFor (argument0 ccb) (argument1 ccb) (argument2 ccb))
               | TIPC _ _ => Panic
               end in
    let! s := return_value rv s in
    Ret (None, s)
  end.

(** One iteration of the loop of [do_process]. *)
Definition do_process_iteration (timeslice_us : option Z) (s : sys)
    : outcome (option StoppedExecutingReason * sys) :=
  let '(remaining, s) := get_remaining_us timeslice_us s in
  let stop_running := match remaining with
                      | Some us => us <=? MIN_QUANTA_THRESHOLD_US
                      | None => true
                      end in
  if stop_running then
    let! s := on_proc debug_timeslice_expired s in
    Ret (Some TimesliceExpired, s)
  else
    let '(continue, e) := continue_process board (process_id (s_proc s)) (s_env s) in
    let s := set_env e s in
    if negb continue then Ret (Some KernelPreemption, s)
    else if negb (ready (s_proc s)) then Ret (Some NoWorkLeft, s)
    else match state (s_proc s) with
    | Running => run_running timeslice_us s
    | Yielded => run_yielded s
    | YieldedFor upcall_id => run_yielded_for upcall_id s
    | Faulted | Terminated => Panic
    | Stopped _ => Ret (Some RStopped, s)
    end.

(** [fuel] iterations; [None]: the loop is still running. *)
Fixpoint do_process_loop (fuel : nat) (timeslice_us : option Z) (s : sys)
    : outcome (option StoppedExecutingReason * sys) :=
  match fuel with
  | O => Ret (None, s)
  | S fuel =>
    let! '(r, s) := do_process_iteration timeslice_us s in
    match r with
    | Some reason => Ret (Some reason, s)
    | None => do_process_loop fuel timeslice_us s
    end
  end.

Definition do_process_start (timeslice_us : option Z) (s : sys) : sys :=
  let s := timer_do timer_reset timeslice_us s in
  match timeslice_us with
  | Some timeslice => set_env (timer_start board timeslice (s_env s)) s
  | None => s
  end.

Definition do_process_finish (timeslice_us : option Z) (return_reason : StoppedExecutingReason)
    (s : sys) : outcome (StoppedExecutingReason * option Z * sys) :=
  let! '(time_executed_us, s) :=
    match timeslice_us with
    | None => Ret (None, s)
    | Some timeslice =>
      if bool_decide (return_reason = TimesliceExpired) then Ret (Some timeslice, s)
      else
        let '(r, s) := get_remaining_us timeslice_us s in
        match r with
        | Some remaining => let! t := sub32 timeslice remaining in Ret (Some t, s)
        | None => Ret (Some timeslice, s)
        end
    end in
  Ret (return_reason, time_executed_us, timer_do timer_reset timeslice_us s).

Definition do_process (fuel : nat) (timeslice_us : option Z) (s : sys)
    : outcome (StoppedExecutingReason * option Z * sys) :=
  let! '(r, s) := do_process_loop fuel timeslice_us (do_process_start timeslice_us s) in
  match r with
  | None => Diverge
  | Some return_reason => do_process_finish timeslice_us return_reason s
  end.

End kernel.
End Kern.
