(* ===== verification/KernelSpec.v ===== *)
(** Correctness of the kernel thread: everything it does to a process is a
    sequence of the operations of [ProcInv.step], so the isolation invariant
    holds throughout, and userspace only ever runs under it; what subscribe and
    allow calls do to the grant tables and the task queue; filtering; memory
    operations. *)

From stdpp Require Import base numbers list gmap relations.
From S2P Require Import Prelude RingBuffer Mpu CortexMpu CortexMpuSystem Syscall Tbf ProcessBinary Process ProcessInv ProcessSpec.
From S2P Require Import Confine Enforce Grant GrantSpec Kernel.
Import Ring Mpu Syscall Pb Proc ProcInv ProcSpec Confine Enforce Grant GrantSpec Kern.
Local Open Scope Z_scope.

Module KernSpec.

(** Arguments that arrive in 32-bit registers. *)
Definition syscall_in_range (sc : Syscall) : Prop :=
  match sc with
  | ReadWriteAllow _ n a l | UserspaceReadableAllow _ n a l | ReadOnlyAllow _ n a l =>
    u32_range n /\ u32_range a /\ u32_range l
  | Subscribe _ n ptr data => u32_range n /\ u32_range ptr /\ u32_range data
  | _ => True
  end.

Section kernel.
  Context {hw config stored E : Type} {mpu : MPU hw config} {iso : MpuIsolation hw config}.
  Context {enf : MpuEnforces hw config} {ukb : UKB stored}.
  Context (CALLBACKS_OFFSET PROCESS_STRUCT_OFFSET : Z).
  Context (fault_action : process stored config -> FaultAction).
  Notation sys := (@sys hw config stored E).
  Notation Board := (@Board hw config stored E).
  Notation SyscallDriver := (@SyscallDriver hw config stored E).
  Notation step := (step CALLBACKS_OFFSET PROCESS_STRUCT_OFFSET fault_action).
  Implicit Type s : sys.

Definition world_of s : world := mkWorld (s_proc s) (s_hw s) (s_kern s).

(** How the rest of the system may change meanwhile. *)
Context (R : relation E) {Rpre : PreOrder R}.

(** From [s] to [s'] by operations on the process, without running it. *)
Definition steps s s' : Prop :=
  rtc step (world_of s) (world_of s') /\ s_runs s' = s_runs s /\ R (s_env s) (s_env s').
Definition active s : Prop := is_running (s_proc s) = true.

Lemma steps_refl s : steps s s.
Proof using Rpre. split; [apply rtc_refl|by split]. Qed.
Lemma steps_trans s1 s2 s3 : steps s1 s2 -> steps s2 s3 -> steps s1 s3.
Proof using Rpre. intros (H1 & E1 & R1) (H2 & E2 & R2). split; [by etrans|]. split; [congruence|by etrans]. Qed.
Lemma steps_one s p h k :
  step (world_of s) (mkWorld p h k) -> steps s (set_kern k (set_hw h (set_proc p s))).
Proof using Rpre. intros H. split; [by apply rtc_once|by split]. Qed.
Lemma steps_proc s p :
  step (world_of s) (mkWorld p (s_hw s) (s_kern s)) -> steps s (set_proc p s).
Proof using Rpre. intros H. split; [by apply rtc_once|by split]. Qed.
Lemma steps_hw s h :
  step (world_of s) (mkWorld (s_proc s) h (s_kern s)) -> steps s (set_hw h s).
Proof using Rpre. intros H. split; [by apply rtc_once|by split]. Qed.
Lemma steps_mem s m : steps s (set_mem m s).
Proof using Rpre. split; [apply rtc_refl|by split]. Qed.
Lemma steps_env s e : R (s_env s) e -> steps s (set_env e s).
Proof using. intros H. split; [apply rtc_refl|by split]. Qed.

(** The invariant of the process, in RAM that does not start at address 0, with its
    configuration in step with the hardware. *)
Definition fit s : Prop :=
  wwf CALLBACKS_OFFSET PROCESS_STRUCT_OFFSET (world_of s) /\ 0 < memory_start (s_proc s) /\
  synced (s_proc s) (s_hw s).

Context (Happ : 0 <= initial_process_app_brk_size).

Lemma steps_fit w w' :
  wwf CALLBACKS_OFFSET PROCESS_STRUCT_OFFSET w -> rtc step w w' ->
  wwf CALLBACKS_OFFSET PROCESS_STRUCT_OFFSET w' /\ memory_start (proc w') = memory_start (proc w) /\
  tracks (proc w) (mpu_hw w) (proc w') (mpu_hw w').
Proof using Happ.
  intros Hw Hs. induction Hs as [w|w1 w2 w3 H12 _ IH]; [split_and!; [done..|by apply follows_tracks, follows_refl]|].
  destruct (step_wwf _ _ _ Happ _ _ Hw H12) as [Hw2 (E2 & _)]. destruct (IH Hw2) as (Hw3 & E3 & T23).
  split_and!; [done|congruence|]. destruct w1 as [p1 h1 k1], w2 as [p2 h2 k2]. eapply tracks_trans; [|exact T23].
  by apply (step_tracks _ _ _ _ _ _ _ _ _ (proj1 Hw) H12).
Qed.

Lemma rtc_fit s s' : fit s -> rtc step (world_of s) (world_of s') -> fit s'.
Proof using Happ.
  intros (Hw & H0 & Hy) Hs. destruct (steps_fit _ _ Hw Hs) as (Hw' & E0 & _ & Hy' & _).
  split; [done|]. cbn in E0. split; [lia|by apply Hy'].
Qed.
Lemma fit_steps s s' : fit s -> steps s s' -> fit s'.
Proof using Happ. intros Hf [Hs _]. by apply (rtc_fit s). Qed.

(** What a board's code may do: act on the process through the operations the
    kernel offers, and not deactivate a process while it handles a call of it. *)
Definition acts {X} (f : sys -> outcome (X * sys)) : Prop :=
  forall s x s', fit s -> f s = Ret (x, s') -> steps s s'.
Definition serves {X} (f : sys -> outcome (X * sys)) : Prop :=
  forall s x s', fit s -> f s = Ret (x, s') -> steps s s' /\ (active s -> active s').

Record driver_laws (d : SyscallDriver) : Prop := mkDriverLaws {
  law_command : forall n a b, serves (d_command d n a b);
  law_allocate : serves (d_allocate_grant d);
  law_readable : forall n buf, serves (d_allow_userspace_readable d n buf);
}.
Record board_laws (b : Board) : Prop := mkBoardLaws {
  law_drivers : forall num d, with_driver b num = Some d -> driver_laws d;
  law_fault_hook : acts (process_fault_hook b);
  law_ipc : forall f other ty s s', ipc_schedule_upcall b = Some f ->
    fit s -> f other ty s = Ret s' -> steps s s';
  law_hook : forall p e, R e (context_switch_hook b p e);
  law_continue : forall id e c e', continue_process b id e = (c, e') -> R e e';
  law_timer : forall e, R e (timer_reset b e) /\ R e (timer_arm b e) /\ R e (timer_disarm b e) /\
    forall us, R e (timer_start b us e);
  law_remaining : forall e r e', timer_get_remaining_us b e = (r, e') -> R e e';
  law_registers : forall start brk st sc sp st',
    ukb_switch_to_process start brk st = (SyscallFired sc, sp, st') -> syscall_in_range sc;
}.

Context (board : Board) (Hboard : board_laws board).
Notation return_value := (return_value CALLBACKS_OFFSET PROCESS_STRUCT_OFFSET fault_action).
Notation fault := (fault CALLBACKS_OFFSET PROCESS_STRUCT_OFFSET fault_action).
Notation handle_syscall := (handle_syscall CALLBACKS_OFFSET PROCESS_STRUCT_OFFSET fault_action board).

(** * Every handler is a sequence of operations *)

Lemma return_value_steps rv s s' : active s -> return_value rv s = Ret s' -> steps s s'.
Proof using Rpre.
  intros Ha H. apply obind_Ret in H as ([p k] & Hr & H). inv_ret.
  apply (steps_one s p (s_hw s) k). by apply (step_return_value _ _ _ rv).
Qed.

Lemma fault_steps s s' : fault s = Ret s' -> steps s s'.
Proof using Rpre.
  intros H. apply obind_Ret in H as ([p k] & Hr & H). inv_ret.
  apply (steps_one s p (s_hw s) k). by apply step_fault.
Qed.

Lemma debug_steps f s s' : on_proc (map_debug f) s = Ret s' -> steps s s' /\ (active s -> active s').
Proof using Rpre.
  intros H. apply obind_Ret in H as (p & Hp & H). inv_ret. split.
  - apply steps_proc. by apply (step_debug _ _ _ f).
  - apply map_debug_frame in Hp as (_ & Hst & _). unfold active. cbn.
    by rewrite (is_running_state _ _ Hst).
Qed.

Lemma enter_managed_steps d s r p :
  enter_grant_kernel_managed d (s_proc s) (s_mem s) = (r, p) ->
  steps s (set_proc p s) /\ (active s -> is_running p = true).
Proof using Rpre.
  assert (Hsame : steps s (set_proc (s_proc s) s) /\ (active s -> is_running (s_proc s) = true)).
  { split; [|done]. destruct s; apply steps_refl. }
  unfold enter_grant_kernel_managed. destruct (lookup_grant_from_driver_num _ _) as [num|];
    [|by intros; simplify_eq].
  destruct (grant_is_allocated num (s_proc s)) as [ []|] eqn:Hal; [|by intros; simplify_eq..].
  destruct (enter_grant num (s_proc s)) as [r1 p1] eqn:Hen. intros Hr.
  assert (p = p1) as -> by (destruct r1; by simplify_eq). split.
  - apply steps_proc. by apply (step_enter_grant _ _ _ num _ _ _ _ r1).
  - intros Ha. unfold active in Ha. unfold enter_grant in Hen. rewrite Ha in Hen. cbn [negb] in Hen.
    destruct (grant_pointers _) as [gs|]; [|by simplify_eq].
    destruct (gs !! num) as [e|]; [|by simplify_eq]. destruct (_ =? 1); by simplify_eq.
Qed.

Lemma leave_grant_running {st cf} num (p : process st cf) :
  is_running (leave_grant num p) = is_running p.
Proof using.
  unfold leave_grant. destruct (is_running p) eqn:Hr; cbn [negb]; [|done].
  destruct (grant_pointers p) as [gs|]; [|done]. by destruct (gs !! num).
Qed.

(** The common shape of subscribe and allow: enter, swap, leave. *)
Lemma swap_steps d s r p m :
  enter_grant_kernel_managed d (s_proc s) (s_mem s) = (r, p) ->
  (steps s (set_mem m (set_proc p s)) /\ (active s -> active (set_mem m (set_proc p s)))) /\
  forall l, steps s (set_mem m (set_proc (leave_grant l p) s)) /\
    (active s -> active (set_mem m (set_proc (leave_grant l p) s))).
Proof using Rpre.
  intros Hen. apply enter_managed_steps in Hen as [H1 H2]. split; [split; [|done]|].
  { eapply steps_trans; [exact H1|apply steps_mem]. }
  intros l. split.
  - eapply steps_trans; [exact H1|]. eapply steps_trans; [|apply steps_mem].
    destruct s. apply (steps_proc (set_proc p _)). apply step_leave_grant.
  - intros Ha. unfold active. cbn. rewrite leave_grant_running. auto.
Qed.

Lemma subscribe_steps u s r s' :
  sys_subscribe u s = (r, s') -> steps s s' /\ (active s -> active s').
Proof using Rpre.
  unfold sys_subscribe, subscribe.
  destruct (enter_grant_kernel_managed _ _ _) as [ [layout|e] p] eqn:Hen; intros H;
    [destruct (get_mut _ _ _)|]; simplify_eq; by apply (swap_steps _ _ _ _ _ Hen).
Qed.

Lemma allow_rw_steps d n buf s r s' :
  sys_allow_rw d n buf s = (r, s') -> steps s s' /\ (active s -> active s').
Proof using Rpre.
  unfold sys_allow_rw, allow_rw.
  destruct (enter_grant_kernel_managed _ _ _) as [ [layout|e] p] eqn:Hen; intros H;
    [destruct (get_mut _ _ _)|]; simplify_eq; by apply (swap_steps _ _ _ _ _ Hen).
Qed.

Lemma allow_ro_steps d n buf s r s' :
  sys_allow_ro d n buf s = (r, s') -> steps s s' /\ (active s -> active s').
Proof using Rpre.
  unfold sys_allow_ro, allow_ro.
  destruct (enter_grant_kernel_managed _ _ _) as [ [layout|e] p] eqn:Hen; intros H;
    [destruct (get_mut _ _ _)|]; simplify_eq; by apply (swap_steps _ _ _ _ _ Hen).
Qed.

Lemma serves_chain s1 s2 s3 :
  steps s1 s2 /\ (active s1 -> active s2) -> steps s2 s3 /\ (active s2 -> active s3) ->
  steps s1 s3 /\ (active s1 -> active s3).
Proof using Rpre. intros [? ?] [? ?]. split; [by eapply steps_trans|auto]. Qed.
Lemma serves_refl s : steps s s /\ (active s -> active s).
Proof using Rpre. split; [apply steps_refl|done]. Qed.

Lemma try_allocate_steps d s a s' :
  driver_laws d -> fit s -> try_allocate_grant d s = Ret (a, s') ->
  steps s s' /\ (active s -> active s').
Proof using.
  intros Hd Hfit H. unfold try_allocate_grant in H. apply obind_Ret in H as ([r s1] & Hr & H).
  apply (law_allocate d Hd) in Hr; [|done]. assert (s' = s1) as ->; [|done].
  destruct r; [destruct (Nat.eqb _ _)|]; by inv_ret.
Qed.

Lemma subscribe_value_steps d u s rv s' :
  (forall d', d = Some d' -> driver_laws d') -> fit s -> subscribe_value d u s = Ret (rv, s') ->
  steps s s' /\ (active s -> active s').
Proof using Happ Rpre.
  intros Hd Hfit H. unfold subscribe_value in H. destruct d as [d|]; [|inv_ret; apply serves_refl].
  specialize (Hd d eq_refl). destruct (sys_subscribe u s) as [r s1] eqn:Hsub.
  apply subscribe_steps in Hsub. eapply serves_chain; [exact Hsub|].
  assert (Hfit1 : fit s1) by (by eapply fit_steps; [|apply Hsub]). clear Hsub.
  assert (Hretry : forall u', (let! '(a, s) := try_allocate_grant d s1 in
      match a with
      | NewAllocation =>
        let '(r, s) := sys_subscribe u' s in
        match r with
        | Ok upcall => Ret (into_subscribe_success upcall, s)
        | Err (upcall, err) => Ret (into_subscribe_failure upcall err, s)
        end
      | _ => Ret (into_subscribe_failure u' NOMEM, s)
      end) = Ret (rv, s') -> steps s1 s' /\ (active s1 -> active s')).
  { intros u' H'. apply obind_Ret in H' as ([a s2] & Ha & H').
    apply try_allocate_steps in Ha; [|done..]. eapply serves_chain; [exact Ha|].
    destruct a; [inv_ret; apply serves_refl| |inv_ret; apply serves_refl].
    destruct (sys_subscribe u' s2) as [r2 s3] eqn:Hsub. apply subscribe_steps in Hsub.
    assert (s' = s3) as ->; [|done]. destruct r2 as [?|[? ?]]; by inv_ret. }
  destruct r as [u'|[u' e]]; [inv_ret; apply serves_refl|].
  destruct e; try (inv_ret; apply serves_refl). by apply (Hretry u').
Qed.

Lemma allow_value_steps build swap succ fail d a n s rv s' :
  (forall d', d = Some d' -> driver_laws d') ->
  serves build ->
  (forall buf t r t', swap buf t = (r, t') -> steps t t' /\ (active t -> active t')) ->
  fit s -> allow_value build swap succ fail d a n s = Ret (rv, s') ->
  steps s s' /\ (active s -> active s').
Proof using Happ Rpre.
  intros Hd Hb Hsw Hfit H. unfold allow_value in H. destruct d as [d|]; [|inv_ret; apply serves_refl].
  specialize (Hd d eq_refl). apply obind_Ret in H as ([b s0] & Hb0 & H). apply Hb in Hb0; [|done].
  eapply serves_chain; [exact Hb0|].
  assert (Hfit0 : fit s0) by (by eapply fit_steps; [|apply Hb0]). clear Hb0.
  destruct b as [buf|e]; [|inv_ret; apply serves_refl].
  destruct (swap buf s0) as [r s1] eqn:Hs1. apply Hsw in Hs1.
  eapply serves_chain; [exact Hs1|].
  assert (Hfit1 : fit s1) by (by eapply fit_steps; [|apply Hs1]). clear Hs1.
  assert (Hretry : forall b', (let! '(x, s) := try_allocate_grant d s1 in
      match x with
      | NewAllocation =>
        let '(r, s) := swap b' s in
        match r with
        | Ok pbuf => Ret (succ (buf_ptr pbuf) (buf_len pbuf), s)
        | Err (pbuf, err) => Ret (fail err (buf_ptr pbuf) (buf_len pbuf), s)
        end
      | _ => Ret (fail NOMEM (buf_ptr b') (buf_len b'), s)
      end) = Ret (rv, s') -> steps s1 s' /\ (active s1 -> active s')).
  { intros b' H'. apply obind_Ret in H' as ([x s2] & Hx & H').
    apply try_allocate_steps in Hx; [|done..]. eapply serves_chain; [exact Hx|].
    destruct x; [inv_ret; apply serves_refl| |inv_ret; apply serves_refl].
    destruct (swap b' s2) as [r2 s3] eqn:Hs3. apply Hsw in Hs3.
    assert (s' = s3) as ->; [|done]. destruct r2 as [?|[? ?]]; by inv_ret. }
  destruct r as [b'|[b' e]]; [inv_ret; apply serves_refl|].
  destruct e; try (inv_ret; apply serves_refl). by apply (Hretry b').
Qed.

Lemma build_rw_serves a n : u32_range a -> u32_range n -> serves (sys_build_rw a n).
Proof using Rpre.
  intros Ha Hn s r s' _ H. unfold sys_build_rw in H.
  destruct (build_readwrite_process_buffer a n (s_proc s)) as [r0 p] eqn:Hb. inv_ret. split.
  - apply steps_proc. by apply (step_allow_rw _ _ _ a n _ _ _ _ r).
  - unfold active. cbn. intros Hr. unfold build_readwrite_process_buffer in Hb.
    rewrite Hr in Hb. cbn [negb] in Hb.
    destruct (n =? 0); [by simplify_eq|]. destruct (in_app_owned_memory a n (s_proc s)); by simplify_eq.
Qed.

Lemma build_ro_serves a n : u32_range a -> u32_range n -> serves (sys_build_ro a n).
Proof using Rpre.
  intros Ha Hn s r s' _ H. unfold sys_build_ro in H. apply obind_Ret in H as ([r0 p] & Hb & H).
  inv_ret. split.
  - apply steps_proc. by apply (step_allow_ro _ _ _ a n _ _ _ _ r).
  - unfold active. cbn. intros Hr. unfold build_readonly_process_buffer in Hb.
    rewrite Hr in Hb. cbn [negb] in Hb. destruct (n =? 0); [by inv_ret|].
    apply obind_Ret in Hb as (b & _ & Hb). destruct b; [|by inv_ret].
    destruct (in_app_owned_memory a n (s_proc s)); by inv_ret.
Qed.

Lemma remove_pending_steps id s s' :
  on_proc (remove_pending_upcalls id) s = Ret s' -> steps s s' /\ (active s -> active s').
Proof using Rpre.
  intros H. apply obind_Ret in H as (p & Hp & H). inv_ret. split.
  - apply steps_proc. by apply (step_remove_pending _ _ _ id).
  - unfold active. cbn. unfold remove_pending_upcalls in Hp.
    destruct (tasks (s_proc s)); [|by inv_ret]. inv_ret_step. inv_ret_step. by inv_ret.
Qed.

Lemma brk_running nb (p : process stored config) (h : hw) r p' h' :
  brk nb p h = Ret (r, p', h') -> is_running p' = is_running p.
Proof using.
  unfold brk. destruct (is_running p) eqn:Hr; cbn [negb]; [|intros; by inv_ret].
  destruct (mpu_config p) as [c|]; [|intros; by inv_ret].
  destruct (_ || _); [intros; by inv_ret|]. destruct (_ <? _); [intros; by inv_ret|].
  intros H. apply obind_Ret in H as ([r1 c1] & _ & H).
  destruct r1; [apply obind_Ret in H as ([c2 h2] & _ & H)|]; by inv_ret.
Qed.

Lemma memop_steps o r1 s rv p h :
  memop o r1 (s_proc s) (s_hw s) = Ret (rv, p, h) ->
  steps s (set_hw h (set_proc p s)) /\ (active s -> active (set_hw h (set_proc p s))).
Proof using Rpre.
  assert (Hsame : steps s (set_hw (s_hw s) (set_proc (s_proc s) s)) /\
    (active s -> active (set_hw (s_hw s) (set_proc (s_proc s) s)))).
  { split; [|done]. destruct s; apply steps_refl. }
  assert (Hdbg : forall f, map_debug f (s_proc s) = Ret p -> h = s_hw s ->
    steps s (set_hw h (set_proc p s)) /\ (active s -> active (set_hw h (set_proc p s)))).
  { intros f Hp ->. destruct (debug_steps f s (set_proc p s)) as [H1 H2].
    - unfold on_proc. by rewrite Hp.
    - destruct s; by split. }
  assert (Hbrk : forall nb r, brk nb (s_proc s) (s_hw s) = Ret (r, p, h) ->
    steps s (set_hw h (set_proc p s)) /\ (active s -> active (set_hw h (set_proc p s)))).
  { intros nb r Hb. split.
    - assert (H1 : steps s (set_kern (s_kern s) (set_hw h (set_proc p s)))).
      { apply steps_one. by apply (step_brk _ _ _ nb _ _ _ _ _ r). }
      destruct s; exact H1.
    - unfold active. cbn. by rewrite (brk_running _ _ _ _ _ _ Hb). }
  intros H. unfold memop in H.
  repeat match type of H with (if ?b then _ else _) = _ => destruct b eqn:? end;
    try (inv_ret; by apply Hsame).
  - apply obind_Ret in H as ([ [r p1] h1] & Hb & H). inv_ret. by apply (Hbrk r1 r).
  - apply obind_Ret in H as ([ [r p1] h1] & Hb & H). inv_ret. unfold sbrk in Hb.
    destruct (negb (is_running (s_proc s))); [inv_ret; by apply Hsame|].
    by apply (Hbrk _ r Hb).
  - apply obind_Ret in H as (ad & _ & H). apply obind_Ret in H as ([off sz] & _ & H).
    destruct (sz =? 0); inv_ret; by apply Hsame.
  - apply obind_Ret in H as (ad & _ & H). apply obind_Ret in H as ([off sz] & _ & H).
    destruct (sz =? 0); inv_ret; by apply Hsame.
  - apply obind_Ret in H as (p1 & Hp & H). inv_ret. unfold update_stack_start_pointer in Hp.
    destruct (_ && _); [|inv_ret; by apply Hsame]. by eapply Hdbg.
  - apply obind_Ret in H as (p1 & Hp & H). inv_ret. unfold update_heap_start_pointer in Hp.
    destruct (_ && _); [|inv_ret; by apply Hsame]. by eapply Hdbg.
Qed.

(** A reply after a served call. *)
Lemma reply_steps (o : outcome (SyscallReturn * sys)) s s' :
  active s -> (forall x s1, o = Ret (x, s1) -> steps s s1 /\ (active s -> active s1)) ->
  (let! '(x, s) := o in return_value x s) = Ret s' -> steps s s'.
Proof using Rpre.
  intros Ha Hf H. apply obind_Ret in H as ([x s1] & Hx & H).
  apply Hf in Hx as [H1 H2]. eapply steps_trans; [exact H1|]. apply (return_value_steps x); auto.
Qed.

Lemma board_driver num d : with_driver board num = d -> forall d', d = Some d' -> driver_laws d'.
Proof using Hboard. intros <- d' Hd. by apply (law_drivers board Hboard num). Qed.

Lemma handle_subscribe_steps num n ptr data s s' :
  active s -> fit s ->
  handle_subscribe CALLBACKS_OFFSET PROCESS_STRUCT_OFFSET fault_action
    (with_driver board num) num n ptr data s = Ret s' -> steps s s'.
Proof using Hboard Happ Rpre.
  intros Ha Hfit H. unfold handle_subscribe in H. apply obind_Ret in H as (rv1 & _ & H).
  apply obind_Ret in H as ([rv s1] & Hv & H). apply obind_Ret in H as (s2 & Hs2 & H).
  assert (H1 : steps s s1 /\ (active s -> active s1)).
  { destruct rv1; [inv_ret; apply serves_refl|].
    eapply subscribe_value_steps; [|exact Hfit|exact Hv]. by apply (board_driver num). }
  assert (H2 : steps s1 s2 /\ (active s1 -> active s2)).
  { destruct (is_success rv); [by apply remove_pending_steps in Hs2|inv_ret; apply serves_refl]. }
  destruct (serves_chain _ _ _ H1 H2) as [H3 H4]. eapply steps_trans; [exact H3|].
  apply (return_value_steps rv); auto.
Qed.

Lemma handle_yield_steps w a b s s' : handle_yield w a b s = Ret s' -> steps s s'.
Proof using Rpre.
  intros H. unfold handle_yield in H. destruct (YieldCall_try_from w) as [ []|];
    [| | |inv_ret; apply steps_refl].
  - set (s1 := if set_byte a (s_proc s) then _ else s) in H.
    assert (H1 : steps s s1) by (unfold s1; destruct (set_byte _ _); [apply steps_mem|apply steps_refl]).
    destruct (has_tasks (s_proc s)); inv_ret; [|done]. eapply steps_trans; [exact H1|].
    apply steps_proc, step_yield.
  - inv_ret. apply steps_proc, step_yield.
  - inv_ret. apply steps_proc, step_yield_for.
Qed.

Lemma handle_exit_steps w cc s s' :
  active s -> handle_exit CALLBACKS_OFFSET PROCESS_STRUCT_OFFSET fault_action w cc s = Ret s' ->
  steps s s'.
Proof using Rpre.
  intros Ha H. unfold handle_exit in H.
  destruct (w =? 0); [inv_ret; apply steps_proc, step_terminate|].
  destruct (w =? 1); [|by apply return_value_steps in H].
  apply obind_Ret in H as ([p k] & Hr & H). inv_ret.
  apply (steps_one s p (s_hw s) k). by apply (step_restart _ _ _ (Some cc)).
Qed.

Lemma handle_syscall_steps sc s s' :
  active s -> fit s -> syscall_in_range sc -> handle_syscall sc s = Ret s' -> steps s s'.
Proof using Hboard Happ Rpre.
  intros Ha Hfit Hrng H. unfold handle_syscall in H. apply obind_Ret in H as (s1 & Hd & H).
  apply debug_steps in Hd as [H1 Ha1]. specialize (Ha1 Ha). eapply steps_trans; [exact H1|].
  apply (fit_steps _ _ Hfit) in H1. clear s Hfit Ha. rename s1 into s, H1 into Hfit.
  destruct (if filterable sc then _ else _) as [ []|err]; [|by apply return_value_steps in H].
  destruct sc as [w a b|num n ptr data|num n a b|num n a l|num n a l|num n a l|o a|w cc];
    cbn [dispatch_syscall] in H; cbn [syscall_in_range] in Hrng; destruct_and?.
  - by apply handle_yield_steps in H.
  - by apply handle_subscribe_steps in H.
  - unfold handle_command in H. refine (reply_steps _ s s' Ha1 _ H).
    intros x s1 Hx. destruct (with_driver board num) as [d|] eqn:Hdr;
      [|inv_ret; apply serves_refl].
    exact (law_command d (law_drivers board Hboard num d Hdr) n a b s x s1 Hfit Hx).
  - unfold handle_readwrite_allow in H. refine (reply_steps _ s s' Ha1 _ H).
    intros x s1 Hx. eapply allow_value_steps; [| | |exact Hfit|exact Hx].
    + by apply (board_driver num).
    + by apply build_rw_serves.
    + intros buf t r t'. apply allow_rw_steps.
  - unfold handle_userspace_readable_allow in H. refine (reply_steps _ s s' Ha1 _ H).
    intros x s1 Hx. destruct (with_driver board num) as [d|] eqn:Hdr;
      [|inv_ret; apply serves_refl].
    apply obind_Ret in Hx as ([b s2] & Hb & Hx). apply build_rw_serves in Hb; [|done..].
    assert (Hfit2 : fit s2) by (by eapply fit_steps; [|apply Hb]).
    eapply serves_chain; [exact Hb|]. destruct b as [buf|e]; [|inv_ret; apply serves_refl].
    apply obind_Ret in Hx as ([r s3] & Hr & Hx).
    apply (law_readable d (law_drivers board Hboard num d Hdr)) in Hr; [|done].
    assert (s1 = s3) as ->; [|done]. destruct r as [?|[? ?]]; by inv_ret.
  - unfold handle_readonly_allow in H. refine (reply_steps _ s s' Ha1 _ H).
    intros x s1 Hx. eapply allow_value_steps; [| | |exact Hfit|exact Hx].
    + by apply (board_driver num).
    + by apply build_ro_serves.
    + intros buf t r t'. apply allow_ro_steps.
  - unfold handle_memop in H. apply obind_Ret in H as ([ [rv p] h] & Hm & H).
    apply memop_steps in Hm as [H2 H3]. eapply steps_trans; [exact H2|].
    apply (return_value_steps rv); auto.
  - by apply handle_exit_steps in H.
Qed.

(** * Userspace runs isolated *)


(** Process [p] runs with MPU registers [h]: the hardware enforces them, they permit
    exactly what the configuration of the process exposes (less what the hardware
    withholds from userspace by itself), which is all of its app memory and none of the
    kernel-owned memory of its block. *)
Definition isolated_run (r : process stored config * hw) : Prop :=
  let '(p, h) := r in
  state p = Running /\ ordered p /\ protecting h /\
  (forall a, u32_range a -> (permits h a <-> reaches p a /\ ~ withheld h a)) /\
  (forall a, memory_start p <= a < app_break p -> ~ withheld h a -> permits h a) /\
  (forall a, kernel_memory_break p <= a < memory_start p + memory_len p -> ~ permits h a).

(** Operations on the process, with isolated runs of userspace between them. *)
Definition advances s s' : Prop :=
  rtc step (world_of s) (world_of s') /\ R (s_env s) (s_env s') /\
  exists runs, s_runs s' = runs ++ s_runs s /\
    Forall (fun r => isolated_run r /\ exists h k, rtc step (world_of s) (mkWorld (fst r) h k)) runs.

Lemma steps_advances s s' : steps s s' -> advances s s'.
Proof using. intros (H1 & H2 & H3). split; [done|]. split; [done|]. by exists []. Qed.
Lemma advances_trans s1 s2 s3 : advances s1 s2 -> advances s2 s3 -> advances s1 s3.
Proof using Rpre.
  intros (H1 & R1 & r1 & E1 & F1) (H2 & R2 & r2 & E2 & F2). split; [by etrans|]. split; [by etrans|].
  exists (r2 ++ r1). rewrite E2, E1, app_assoc. split; [done|]. apply Forall_app. split; [|done].
  eapply Forall_impl; [exact F2|]. intros r (Hr & h & k & Hs). split; [done|]. exists h, k. by etrans.
Qed.
Lemma advances_fit s s' : fit s -> advances s s' -> fit s'.
Proof using Happ. intros Hf [Hs _]. by apply (rtc_fit s). Qed.

Lemma timer_do_steps f ts s : (forall e, R e (f board e)) -> steps s (timer_do board f ts s).
Proof using Rpre. intros Hf. unfold timer_do. destruct ts; [by apply steps_env|apply steps_refl]. Qed.
Lemma timer_do_proc f ts s : s_proc (timer_do board f ts s) = s_proc s.
Proof using. by destruct ts. Qed.
Lemma timer_do_hw f ts s : s_hw (timer_do board f ts s) = s_hw s.
Proof using. by destruct ts. Qed.

Lemma timer_do_mem f ts s : s_mem (timer_do board f ts s) = s_mem s.
Proof using. by destruct ts. Qed.

Lemma get_remaining_steps ts s r s' :
  get_remaining_us board ts s = (r, s') -> steps s s' /\ s_proc s' = s_proc s.
Proof using iso Rpre Hboard.
  unfold get_remaining_us. destruct (match ts with None => _ | Some _ => _ end) as [r0 e] eqn:Hrem.
  intros ?; simplify_eq. split; [apply steps_env|done].
  destruct ts; [by eapply (law_remaining board Hboard)|]. injection Hrem as _ <-. done.
Qed.

(** Setting up the MPU for an active process: the registers are those of its
    configuration. *)
Lemma setup_configured (p : process stored config) h p' h1 h' :
  wf p -> is_running p = true -> synced p h -> setup_mpu p h = Ret (p', h1) -> enable_app_mpu h1 = Ret h' ->
  exists c, p' = set_mpu_config (Some c) p /\ protecting h' /\
    (forall a, u32_range a -> (permits h' a <-> exposed c a /\ ~ withheld h' a)) /\
    (forall a, memory_start p <= a < app_break p -> ~ withheld h' a -> permits h' a) /\
    (forall a, kernel_memory_break p <= a < memory_start p + memory_len p -> ~ permits h' a).
Proof using.
  intros Hwf Hr Hy Hset Hen. destruct (wf_active _ Hwf Hr) as (Ho & (c & Hc & Hm & Hex & Hno) & _).
  unfold setup_mpu in Hset. rewrite Hc in Hset.
  apply obind_Ret in Hset as ([c' h2] & Hconf & Hset). inv_ret.
  destruct (configure_ok c h c' h1 (memory_start p) (memory_len p) Hm Hconf) as [Hm' Hiff].
  destruct (configure_holds c h c' h1) as [_ Hh]; [by eapply manages_valid|by apply Hy|done|].
  pose proof (enable_enforces _ _ _ Hh Hen) as Hact.
  assert (Hx : forall a, u32_range a -> (permits h' a <-> exposed c' a /\ ~ withheld h' a)).
  { intros a Ha. apply enforced_exact; [by eapply manages_valid|done..]. }
  pose proof (wf_start p Hwf). pose proof (wf_end p Hwf). unfold ordered in Ho.
  exists c'. split; [done|]. split; [by eapply enable_ok|]. split; [done|]. split.
  - intros a Ha Hw. apply Hx; [unfold u32_range; lia|]. split; [by apply Hiff, Hex|done].
  - intros a Ha [He%Hiff _]%Hx; [by apply (Hno a)|unfold u32_range; lia].
Qed.

(** Setting up the MPU for a running process and switching to it. *)
Lemma setup_isolated s p h1 h :
  fit s -> state (s_proc s) = Running -> setup_mpu (s_proc s) (s_hw s) = Ret (p, h1) ->
  enable_app_mpu h1 = Ret h ->
  steps s (set_hw h (set_proc p s)) /\ isolated_run (p, h) /\ is_running p = true.
Proof using Rpre.
  intros ([Hwf Hroom] & H0 & Hy) Hst Hset Hen. cbn in Hwf.
  assert (Hr : is_running (s_proc s) = true) by (unfold is_running; by rewrite Hst).
  assert (H1 : steps s (set_kern (s_kern s) (set_hw h1 (set_proc p s))))
    by (apply steps_one; by apply step_setup_mpu).
  split.
  { eapply steps_trans; [exact H1|]. eapply (steps_hw (set_kern (s_kern s) (set_hw h1 (set_proc p s)))).
    by apply step_enable_mpu. }
  destruct (wf_active _ Hwf Hr) as (Ho & _).
  destruct (setup_configured _ _ _ _ _ Hwf Hr Hy Hset Hen) as (c & -> & Hpr & Hx & Happm & Hker).
  split; [|exact Hr]. split; [exact Hst|]. split; [exact Ho|]. split; [done|]. split; [|done].
  intros a Ha. rewrite (Hx a Ha). unfold reaches. cbn. split.
  - intros [He Hw]. split; [by exists c|done].
  - intros [(c1 & [= <-] & He) Hw]. done.
Qed.

Lemma switch_advances s r s' :
  isolated_run (s_proc s, s_hw s) -> switch board s = Ret (r, s') -> advances s s'.
Proof using Rpre.
  intros Hrun H. unfold switch in H. apply obind_Ret in H as ([r0 p] & Hsw & H). inv_ret.
  split; [cbn; apply rtc_once; by apply (step_switch _ _ _ _ _ _ _ r)|]. split; [done|].
  exists [(s_proc s, s_hw s)]. split; [done|]. apply Forall_singleton. split; [done|].
  exists (s_hw s), (s_kern s). apply rtc_refl.
Qed.

(** While the process runs, it stays active, and what traps are system calls
    with register arguments. *)
Lemma switch_result s r s' :
  active s -> switch board s = Ret (r, s') ->
  active s' /\ forall sc, r = Some (SyscallFired sc) -> syscall_in_range sc.
Proof using Hboard.
  intros Ha H. unfold switch in H. apply obind_Ret in H as ([r0 p] & Hsw & H). inv_ret.
  unfold switch_to in Hsw. unfold active in *. rewrite Ha in Hsw. cbn [negb] in Hsw. cbn.
  destruct (stored_state (s_proc s)) as [st|]; [|inv_ret; by split].
  destruct (ukb_switch_to_process _ _ st) as [ [r1 sp] st'] eqn:Hu.
  apply obind_Ret in Hsw as (p1 & Hp1 & Hsw). inv_ret. split.
  - assert (Hst : state p = state (s_proc s)); [|by rewrite (is_running_state _ _ Hst)].
    destruct sp; [apply map_debug_frame in Hp1 as (_ & -> & _)|inv_ret]; done.
  - intros sc [= ->]. by apply (law_registers board Hboard _ _ _ _ _ _ Hu).
Qed.

Notation run_running := (run_running CALLBACKS_OFFSET PROCESS_STRUCT_OFFSET fault_action board).
Notation iteration := (do_process_iteration CALLBACKS_OFFSET PROCESS_STRUCT_OFFSET fault_action board).
Notation loop := (do_process_loop CALLBACKS_OFFSET PROCESS_STRUCT_OFFSET fault_action board).

Lemma enter_userspace_advances ts s r s' :
  fit s -> state (s_proc s) = Running -> enter_userspace board ts s = Ret (r, s') ->
  advances s s' /\ active s' /\ forall sc, r = Some (SyscallFired sc) -> syscall_in_range sc.
Proof using Hboard Rpre.
  intros Hg Hst H. unfold enter_userspace in H. cbn [s_proc s_hw set_env] in H.
  apply obind_Ret in H as ([p h1] & Hset & H). cbn [s_hw set_hw] in H.
  apply obind_Ret in H as (h & Hen & H).
  destruct (setup_isolated s p h1 h Hg Hst Hset Hen) as (Hs1 & Hiso & Hrun).
  set (e := context_switch_hook board (s_proc s) (s_env s)) in H.
  set (s1 := timer_do board timer_arm ts (set_hw h (set_hw h1 (set_proc p (set_env e s))))) in H.
  assert (Ha1 : advances s s1).
  { apply (advances_trans _ (set_env e (set_hw h (set_proc p s)))).
    - apply steps_advances. eapply steps_trans; [exact Hs1|apply steps_env, (law_hook board Hboard)].
    - apply steps_advances, timer_do_steps. intros e0. apply (law_timer board Hboard). }
  assert (Hproc : s_proc s1 = p) by (by unfold s1; rewrite timer_do_proc).
  assert (Hhw : s_hw s1 = h) by (by unfold s1; rewrite timer_do_hw).
  apply obind_Ret in H as ([reason s2] & Hsw & H).
  assert (Hact1 : active s1) by (unfold active; by rewrite Hproc).
  destruct (switch_result s1 reason s2 Hact1 Hsw) as [Hact2 Hrng].
  apply switch_advances in Hsw; [|by rewrite Hproc, Hhw]. clearbody s1.
  apply obind_Ret in H as (h2 & Hdis & H). injection H as <- <-. split; [|split; [|done] ].
  - eapply advances_trans; [exact Ha1|]. eapply advances_trans; [exact Hsw|].
    apply steps_advances. eapply steps_trans; [apply timer_do_steps; intros e0; apply (law_timer board Hboard)|].
    apply steps_hw. by apply step_disable_mpu.
  - unfold active. cbn [s_proc set_hw]. by rewrite timer_do_proc.
Qed.

Lemma run_running_advances ts s r s' :
  fit s -> state (s_proc s) = Running -> run_running ts s = Ret (r, s') -> advances s s'.
Proof using Hboard Happ Rpre.
  intros Hg Hst H. unfold Kern.run_running in H. apply obind_Ret in H as ([reason s3] & Hin & H).
  destruct (enter_userspace_advances ts s reason s3 Hg Hst Hin) as (Hadv & Hact3 & Hrng).
  pose proof (advances_fit _ _ Hg Hadv) as Hfit3.
  apply (advances_trans _ s3); [done|].
  apply steps_advances. destruct reason as [ [sc| |]|].
  - apply obind_Ret in H as (s4 & Hsc & H). inv_ret.
    apply (handle_syscall_steps sc); [done|done|by apply Hrng|done].
  - apply obind_Ret in H as ([fr s4] & Hf & H). apply (law_fault_hook board Hboard) in Hf; [|done].
    apply obind_Ret in H as (s5 & Hf5 & H). inv_ret. eapply steps_trans; [exact Hf|].
    destruct (is_err fr); [by apply fault_steps|inv_ret; apply steps_refl].
  - destruct (get_remaining_us board ts s3) as [rem s4] eqn:Hrem.
    apply get_remaining_steps in Hrem as [Hs4 _]. destruct rem; [by inv_ret|].
    apply obind_Ret in H as (s5 & H5 & H). inv_ret. eapply steps_trans; [exact Hs4|].
    by apply debug_steps in H5 as [? _].
  - apply obind_Ret in H as (s4 & Hf & H). inv_ret. by apply fault_steps.
Qed.

Lemma iteration_advances ts s r s' :
  fit s -> iteration ts s = Ret (r, s') -> advances s s'.
Proof using Hboard Happ Rpre.
  intros Hg H. unfold do_process_iteration in H.
  destruct (get_remaining_us board ts s) as [rem s1] eqn:Hrem.
  apply get_remaining_steps in Hrem as [Hs1 _]. apply steps_advances in Hs1.
  eapply advances_trans; [exact Hs1|]. pose proof (advances_fit _ _ Hg Hs1) as Hg1.
  clear s Hg Hs1. rename s1 into s.
  destruct (match rem with Some us => _ | None => true end).
  { apply obind_Ret in H as (s1 & H1 & H). inv_ret. apply steps_advances.
    by apply debug_steps in H1 as [? _]. }
  destruct (continue_process board (process_id (s_proc s)) (s_env s)) as [cont e] eqn:Hcont.
  apply (law_continue board Hboard) in Hcont.
  eapply advances_trans; [by apply steps_advances, (steps_env s e)|].
  assert (Hg2 : fit (set_env e s)) by exact Hg1. revert H Hg2.
  generalize (set_env e s). clear s Hg1 Hcont. intros s H Hg.
  destruct cont; cbn [negb] in H; [|inv_ret; by apply steps_advances, steps_refl].
  destruct (ready (s_proc s)); cbn [negb] in H; [|inv_ret; by apply steps_advances, steps_refl].
  destruct (state (s_proc s)) as [| |id| | |] eqn:Hst; try done.
  - by apply run_running_advances in H.
  - apply steps_advances. unfold run_yielded in H.
    apply obind_Ret in H as ([t p] & Hd & H).
    assert (Hsd : steps s (set_proc p s)) by (apply steps_proc; by apply (step_dequeue _ _ _ _ _ _ _ t)).
    eapply steps_trans; [exact Hsd|].
    destruct t as [ [ccb|rv|other ty]|]; [|by inv_ret; apply steps_refl| |by inv_ret; apply steps_refl].
    + apply obind_Ret in H as ([p1 k1] & Hf & H). inv_ret. cbn [s_proc s_kern set_proc] in Hf.
      apply (steps_one (set_proc p s) p1 (s_hw s) k1).
      apply (step_function _ _ _ ccb); [|done]. cbn.
      unfold dequeue_task in Hd. destruct (tasks (s_proc s)); [inv_ret_step; destruct x|]; inv_ret;
        unfold is_running; cbn; by rewrite Hst.
    + destruct (ipc_schedule_upcall board) as [f|] eqn:Hf; [|done].
      apply obind_Ret in H as (s1 & H1 & H). inv_ret. apply (law_ipc board Hboard f other ty); [done| |done].
      by eapply fit_steps.
  - apply steps_advances. unfold run_yielded_for in H.
    apply obind_Ret in H as ([t p] & Hd & H).
    assert (Hsd : steps s (set_proc p s))
      by (apply steps_proc; by apply (step_remove_upcall _ _ _ id _ _ _ _ t)).
    eapply steps_trans; [exact Hsd|].
    destruct t as [task|]; [|by inv_ret; apply steps_refl].
    apply obind_Ret in H as (rv & _ & H). apply obind_Ret in H as (s1 & H1 & H). inv_ret.
    apply (return_value_steps rv); [|done]. unfold active. cbn.
    unfold remove_upcall in Hd. destruct (tasks (s_proc s)); [inv_ret_step; destruct x|]; inv_ret;
      unfold is_running; cbn; by rewrite Hst.
  - inv_ret. by apply steps_advances, steps_refl.
Qed.

Lemma loop_advances fuel ts s r s' : fit s -> loop fuel ts s = Ret (r, s') -> advances s s'.
Proof using Hboard Happ Rpre.
  revert s. induction fuel as [|fuel IH]; intros s Hg H; cbn [do_process_loop] in H.
  { inv_ret. by apply steps_advances, steps_refl. }
  apply obind_Ret in H as ([r1 s1] & H1 & H). apply iteration_advances in H1; [|done].
  eapply advances_trans; [exact H1|]. destruct r1; [inv_ret; by apply steps_advances, steps_refl|].
  apply IH; [|done]. by apply (advances_fit s).
Qed.

Lemma start_steps ts s : steps s (do_process_start board ts s).
Proof using Hboard Rpre.
  unfold do_process_start. pose proof (law_timer board Hboard) as Ht.
  assert (Hr : steps s (timer_do board timer_reset ts s)) by (apply timer_do_steps; intros e; apply Ht).
  destruct ts; [|done]. eapply steps_trans; [exact Hr|apply steps_env, Ht].
Qed.

(** The whole of [do_process]. *)
Lemma do_process_advances fuel ts s reason time s' : fit s ->
  do_process CALLBACKS_OFFSET PROCESS_STRUCT_OFFSET fault_action board fuel ts s = Ret (reason, time, s') ->
  advances s s'.
Proof using Hboard Happ Rpre.
  intros Hfit H. unfold do_process in H. apply obind_Ret in H as ([r s1] & Hl & H).
  pose proof (start_steps ts s) as H0. pose proof (fit_steps _ _ Hfit H0) as Hfit0.
  apply loop_advances in Hl; [|done]. eapply advances_trans; [apply steps_advances, H0|].
  eapply advances_trans; [exact Hl|]. destruct r as [rr|]; [|done]. apply steps_advances.
  unfold do_process_finish in H. apply obind_Ret in H as ([t s2] & H2 & H). injection H as <- <- <-.
  apply (steps_trans _ s2); [|apply timer_do_steps; intros e; apply (law_timer board Hboard)].
  destruct ts as [us|]; [|injection H2 as <- <-; apply steps_refl].
  case_bool_decide; [injection H2 as <- <-; apply steps_refl|].
  destruct (get_remaining_us board (Some us) s1) as [rem s3] eqn:Hrem.
  apply get_remaining_steps in Hrem as [Hs3 _].
  destruct rem; [apply obind_Ret in H2 as (? & _ & H2)|]; by injection H2 as <- <-.
Qed.

End kernel.

(** * Drivers that allocate their grant by entering it *)

(** [SyscallDriver::allocate_grant] as capsules write it:
    [self.apps.enter(processid, |_, _| {})]. *)
Definition enter_to_allocate {hw config stored E} {mpu : MPU hw config} (g : GrantType)
    (s : @sys hw config stored E) : outcome (result unit Error * @sys hw config stored E) :=
  let! '(r, p, k, m) := grant_enter g (run_closure (fun data _ _ _ => (tt, data)))
                          (s_proc s) (s_kern s) (s_mem s) in
  Ret (r, set_mem m (set_kern k (set_proc p s))).

Section drivers.
  Context {hw config stored E : Type} {mpu : MPU hw config} {iso : MpuIsolation hw config}.
  Context {enf : MpuEnforces hw config} {ukb : UKB stored}.
  Context (CB PS : Z) (fault_action : process stored config -> FaultAction).
  Implicit Type p : process stored config.

Lemma enter_leave_steps num p p1 r (h : hw) k :
  grant_is_allocated num p = Some true -> enter_grant num p = (r, p1) ->
  rtc (step CB PS fault_action) (mkWorld p h k) (mkWorld (leave_grant num p1) h k) /\
  (is_running p = true -> is_running p1 = true).
Proof using.
  intros Hal Hen. split.
  - apply (rtc_l _ _ (mkWorld p1 h k)); [by apply (step_enter_grant _ _ _ num _ _ _ _ r)|].
    eapply rtc_l; [apply step_leave_grant|apply rtc_refl].
  - unfold enter_grant. intros Hr. unfold enter_grant in Hen. rewrite Hr in Hen. cbn [negb] in Hen.
    destruct (grant_pointers p) as [gs|]; [|by simplify_eq].
    destruct (gs !! num) as [e|]; [|by simplify_eq]. destruct (_ =? 1); by simplify_eq.
Qed.

Lemma access_grant_steps {R} (f : closure R) g p m again o p' m' (h : hw) k :
  grant_is_allocated (g_grant_num g) p = Some true ->
  access_grant g (run_closure f) again p m = Ret (Some o, p', m') ->
  rtc (step CB PS fault_action) (mkWorld p h k) (mkWorld p' h k) /\
  (is_running p = true -> is_running p' = true).
Proof using.
  intros Hal H. unfold access_grant in H.
  destruct (enter_grant (g_grant_num g) p) as [r p1] eqn:Hen.
  destruct (enter_leave_steps _ _ _ _ h k Hal Hen) as [H1 H2].
  destruct r as [ptr|e]; [|by destruct again].
  apply obind_Ret in H as (sz & _ & H). unfold get_resource_slices in H.
  apply obind_Ret in H as (dp & _ & H). apply obind_Ret in H as ([ [res data] p2] & Hf & H).
  unfold run_closure in Hf. destruct (f _ _ _ _). injection Hf as -> -> ->. injection H as <- <- <-.
  split; [done|]. intros Hr. rewrite leave_grant_running. auto.
Qed.

Lemma enter_to_allocate_serves (Rel : relation E) {Hpre : PreOrder Rel} g :
  type_ok g -> serves CB PS fault_action Rel (enter_to_allocate g).
Proof using.
  intros Hok s r s' ([Hwf _] & H0 & _) H. unfold enter_to_allocate in H. cbn in Hwf.
  apply obind_Ret in H as ([ [ [r0 p] k] m] & Hen & H). injection H as -> <-.
  assert (Hmain : rtc (step CB PS fault_action) (world_of s) (mkWorld p (s_hw s) k) /\
    (active s -> is_running p = true)).
  2: { destruct Hmain as [H1 H2]. split; [|done]. split; [done|by split]. }
  unfold grant_enter in Hen. apply obind_Ret in Hen as ([ [ [r1 p1] k1] m1] & Hnew & Hen).
  unfold process_grant_new in Hnew. set (num := g_grant_num g) in *.
  assert (Haccess : forall q kq, r1 = Ok tt -> p1 = q -> k1 = kq ->
    grant_is_allocated num q = Some true ->
    rtc (step CB PS fault_action) (mkWorld q (s_hw s) kq) (mkWorld p (s_hw s) k) /\
    (is_running q = true -> is_running p = true)).
  { intros q kq -> -> -> Hal. apply obind_Ret in Hen as ([ [o p2] m2] & Hacc & Hen).
    apply obind_Ret in Hen as (res & Hres & Hen). apply of_option_Ret in Hres as ->.
    injection Hen as <- <- <- <-. by apply (access_grant_steps _ _ _ _ _ _ _ _ (s_hw s) kq) in Hacc. }
  destruct (grant_is_allocated num (s_proc s)) as [ []|] eqn:Hal.
  - injection Hnew as <- <- <- <-. by apply Haccess.
  - rewrite grant_size_ok in Hnew by done. cbn [obind] in Hnew.
    apply obind_Ret in Hnew as ([ [r2 p2] k2] & Hag & Hnew).
    assert (Hstep : step CB PS fault_action (world_of s) (mkWorld p2 (s_hw s) k2)).
    { apply (step_allocate_grant _ _ _ num (g_driver_num g) (layout_size g)
        (grant_align (g_t_align g)) _ _ _ _ _ r2); [by apply grant_request|done]. }
    apply allocate_grant_spec in Hag as (Hwf2 & _ & Hres); [|done|by apply grant_request].
    destruct r2 as [ []|[]].
    2: { injection Hnew as <- <- <- <-. injection Hen as <- <- <- <-.
         destruct Hres as (_ & Hrun & _). split; [by apply rtc_once|].
         unfold active. by rewrite Hrun. }
    destruct Hres as (Hr & _ & c & gs & e & ptr & Hg & He & -> & Hab & Hfit & Hdv & _).
    destruct (grant_align_div g ptr Hok Hdv) as [ [q Hq] _].
    destruct (wf_active _ Hwf Hr) as (Ho & _). unfold ordered in Ho. pose proof (wf_end _ Hwf).
    destruct (type_ok_sizes g Hok) as (Hkm & _ & Hp & Hts & _). unfold layout_size in Hfit.
    destruct (new_grant_cycle num (g_driver_num g) ptr
      (set_kernel_memory_break ptr (set_mpu_config (Some c) (s_proc s))) gs e)
      as (p3 & Henter & Hleave & Hal2); [done|done|lia|by exists q|].
    set (p2 := set_grant_pointers _ _) in *.
    rewrite Henter in Hnew. destruct (initialize_from_counts _ _ _ _ _ _) as [l m2].
    apply obind_Ret in Hnew as (dp & _ & Hnew). rewrite Hleave in Hnew.
    injection Hnew as <- <- <- <-. destruct (Haccess p2 k2) as [H1 H2]; [done..|].
    destruct (enter_leave_steps num p2 _ _ (s_hw s) k2 Hal2 Henter) as [H3 _].
    rewrite Hleave in H3. split; [|intros _; by apply H2].
    eapply rtc_l; [exact Hstep|]. by etrans.
  - injection Hnew as <- <- <- <-. injection Hen as <- <- <- <-. split; [apply rtc_refl|done].
Qed.

End drivers.

(** * Subscribe and allow, on the tables *)

Section calls.
  Context {hw config stored E : Type} {mpu : MPU hw config} {iso : MpuIsolation hw config}.
  Context {ukb : UKB stored}.
  Context (decl : gmap Z GrantType) (Hdecl : declared decl).
  Notation sys := (@sys hw config stored E).
  Implicit Type s : sys.

(** The process has room for the grant: its allocation succeeds. *)
Definition grantable (g : GrantType) (p : process stored config) (k : Kernel) : bool :=
  match allocate_grant (g_grant_num g) (g_driver_num g) (layout_size g) (grant_align (g_t_align g)) p k with
  | Ret (Ok _, _, _) => true
  | _ => false
  end.

(** The tables in which a call to driver [d] finds its entry: on first use the grant is
    allocated if there is [room] for it. *)
Definition tables_for (d : Z) (g : GrantType) (room : bool) (T : gmap Z (GrantType * table))
    : gmap Z (GrantType * table) :=
  match T !! d with
  | Some _ => T
  | None => if room then <[d := (g, fresh_table g)]> T else T
  end.

(** The kernel break moves down by at least the size of a new grant, and only then. *)
Definition break_for (d : Z) (g : GrantType) (room : bool) (T : gmap Z (GrantType * table))
    (p p' : process stored config) : Prop :=
  match T !! d with
  | None => if room then kernel_memory_break p' + layout_size g <= kernel_memory_break p
            else kernel_memory_break p' = kernel_memory_break p
  | Some _ => kernel_memory_break p' = kernel_memory_break p
  end.

Lemma grantable_frame g p q k : is_running q = is_running p -> grant_pointers q = grant_pointers p ->
  mpu_config q = mpu_config p -> kernel_memory_break q = kernel_memory_break p -> app_break q = app_break p ->
  grantable g q k = grantable g p k.
Proof using.
  intros E1 E2 E3 E4 E5. unfold grantable, allocate_grant, grant_is_allocated, allocate_in_grant_region_internal.
  rewrite E1, E2, E3, E4, E5. destruct (negb _); [done|]. cbn [get_grant_count_and_finalize].
  destruct (_ <=? _); [done|].
  unfold obind. repeat (case_match; simplify_eq/=; try congruence).
Qed.

(** The state represents tables [T]. *)
Record tabled s T : Prop := mkTabled {
  tb_rep : represents decl (s_proc s) (s_mem s) T;
  tb_steady : steady (s_proc s);
}.

(** An allocation that fails leaves the process alone. *)
Lemma allocate_grant_err num d size align (p : process stored config) k p' k' : wf p -> layout_request size align ->
  grant_is_allocated num p = Some false -> allocate_grant num d size align p k = Ret (Err tt, p', k') -> p' = p.
Proof using iso.
  intros Hwf Hreq Hal H. unfold allocate_grant in H. rewrite Hal in H.
  destruct (is_running p) eqn:Hr; cbn [negb get_grant_count_and_finalize] in H; [|by inv_ret].
  destruct (_ <=? _); [by inv_ret|].
  unfold grant_is_allocated in Hal. rewrite Hr in Hal. cbn [negb] in Hal.
  destruct (grant_pointers p) as [gs|] eqn:Hg; [|done]. destruct (existsb _ _); [by inv_ret|].
  apply obind_Ret in H as ([o q] & Hal2 & H).
  apply allocate_internal_spec in Hal2 as [_ Hq]; [|done..]. destruct o as [ptr|]; [|by inv_ret].
  destruct Hq as (_ & _ & _ & _ & c & ->). cbn in H. rewrite Hg in H.
  destruct (gs !! num) as [e|]; [done|by cbn in Hal].
Qed.

(** The first entry of a grant: with room it is allocated, else nothing changes. *)
Lemma grant_enter_first {X} (f : closure X) g (p : process stored config) k m T r p' k' m' :
  represents decl p m T -> steady p -> decl !! g_driver_num g = Some g -> closure_ok g f ->
  T !! g_driver_num g = None -> grant_enter g (run_closure f) p k m = Ret (r, p', k', m') ->
  match r with
  | Ok _ => grantable g p k = true /\ kernel_memory_break p' + layout_size g <= kernel_memory_break p
  | Err _ => grantable g p k = false /\ p' = p /\ m' = m
  end.
Proof using Hdecl.
  intros Hrep Hst Hd Hf HT H. pose proof Hst as (Hwf & Htop & Hab). destruct (proj1 Hdecl _ g Hd) as [_ Hok].
  unfold grant_enter, process_grant_new in H. unfold grantable.
  destruct (grant_is_allocated (g_grant_num g) p) as [ []|] eqn:Hal.
  - destruct (allocated_table decl Hdecl g p m T Hrep Hd Hal) as [t HT']. congruence.
  - rewrite grant_size_ok in H by done. cbn [obind] in H.
    destruct (allocate_grant_returns (g_grant_num g) (g_driver_num g) (layout_size g)
      (grant_align (g_t_align g)) p k) as (r1 & p1 & k1 & Hrun); [done|by apply grant_request|done..|].
    rewrite Hrun in H |- *. cbn [obind] in H. destruct r1 as [ []|[] ].
    + destruct (first_use_refines decl Hdecl g p k m T tt p1 k1 Hrep Hst Hd HT Hrun)
        as (q & Henter & Hleave & Hst1 & _ & _ & Hb & Hfit & Hrep1 & _).
      rewrite Henter in H. unfold offset_of_grant_data_t in H.
      destruct (initialize_from_counts _ _ _ _ _ _) as [l m1] eqn:Hinit.
      apply obind_Ret in H as ([ [ [r2 p2] k2] m2] & Hn & H).
      apply obind_Ret in Hn as (dp & Hdp & Hn). rewrite Hleave in Hn. injection Hn as <- <- <- <-.
      apply obind_Ret in Hdp as (off & Hoff & Hdp). apply checked32_Ret in Hoff as [-> _]. injection Hdp as <-.
      assert (Hm : write_bytes (kernel_memory_break p1 + (layout_size g - g_t_size g)) (g_t_default g) m1
        = initialized g (kernel_memory_break p1) m).
      { unfold initialized. rewrite Hinit. cbn [snd]. f_equal. unfold data_ptr, layout_size. lia. }
      rewrite Hm in H.
      destruct (access_grant_refines decl Hdecl f g p1 _ _ (fresh_table g) true Hrep1) as (m3 & Hacc & _);
        [by rewrite lookup_insert_eq|done|]. rewrite Hacc in H. cbn [obind of_option] in H. injection H as <- <- <- <-.
      apply allocate_grant_spec in Hrun as (_ & _ & _ & _ & c & gs & e & ptr & _ & _ & -> & _ & Hle & _);
        [|done|by apply grant_request]. done.
    + cbn [obind] in H. injection H as <- <- <- <-. split; [done|]. split; [|done].
      by apply (allocate_grant_err _ _ _ _ _ _ _ _ Hwf (grant_request g Hok) Hal Hrun).
  - cbn [obind] in H. injection H as <- <- <- <-. split; [|done].
    unfold allocate_grant. unfold grant_is_allocated in Hal. rewrite (rep_running _ _ _ _ Hrep) in Hal |- *.
    cbn [negb get_grant_count_and_finalize] in *. destruct (_ <=? _); [done|].
    unfold grant_is_allocated. rewrite (rep_running _ _ _ _ Hrep). cbn [negb].
    destruct (grant_pointers p) as [gs|] eqn:Hg; cbn in Hal |- *.
    2: { destruct (rep_grants _ _ _ _ Hrep) as [gs Hg']. congruence. }
    destruct (gs !! g_grant_num g) as [e|] eqn:He; [done|]. cbn.
    destruct (existsb _ _); [done|].
    destruct (allocate_in_grant_region_internal _ _ p) as [ [o q]| |] eqn:Hal2; cbn [obind]; [|done..].
    apply allocate_internal_spec in Hal2 as [_ Hq]; [|done|apply Hrep|by apply grant_request].
    destruct o as [ptr|]; [|done]. destruct Hq as (_ & _ & _ & _ & c & ->). cbn. by rewrite Hg, He.
Qed.

(** Allocation on first use. *)
Lemma try_allocate_tabled (drv : @SyscallDriver hw config stored E) g s T :
  tabled s T -> decl !! g_driver_num g = Some g -> T !! g_driver_num g = None ->
  d_allocate_grant drv = enter_to_allocate g ->
  exists a s1, try_allocate_grant drv s = Ret (a, s1) /\
    tasks (s_proc s1) = tasks (s_proc s) /\ process_id (s_proc s1) = process_id (s_proc s) /\
    if grantable g (s_proc s) (s_kern s)
    then a = NewAllocation /\ tabled s1 (<[g_driver_num g := (g, fresh_table g)]> T) /\
      kernel_memory_break (s_proc s1) + layout_size g <= kernel_memory_break (s_proc s)
    else a <> NewAllocation /\ s_proc s1 = s_proc s /\ tabled s1 T.
Proof using Hdecl.
  intros [Hrep Hst] Hd HT Halloc. unfold try_allocate_grant. rewrite Halloc.
  unfold enter_to_allocate.
  assert (Hcl : closure_ok g (fun data _ _ _ => (tt, data))) by (by intros ? * ?).
  destruct (grant_enter_refines decl Hdecl (fun data _ _ _ => (tt, data)) g (s_proc s) (s_kern s)
    (s_mem s) T Hrep Hst Hd Hcl) as (r & p' & k' & m' & Hen & Hst' & Hid & Htk & Hres).
  pose proof (grant_enter_first _ g _ _ _ T _ _ _ _ Hrep Hst Hd Hcl HT Hen) as Hroom. rewrite Hen.
  cbn [obind]. destruct r as [ []|e].
  - destruct Hroom as [-> Hbrk]. destruct Hres as (t & [Hsome|(_ & -> & Hcount)] & _ & Hrep'); [congruence|].
    destruct (Nat.eqb_spec (default 0%nat (grant_allocated_count (s_proc s)))
      (default 0%nat (grant_allocated_count p'))) as [Heq|Hne]; cbn [s_proc set_mem set_kern set_proc].
    + exfalso. apply Hcount. unfold grant_allocated_count in *.
      rewrite (rep_running _ _ _ _ Hrep), (rep_running _ _ _ _ Hrep') in *. cbn [negb] in *.
      destruct (rep_grants _ _ _ _ Hrep) as [gs Hg], (rep_grants _ _ _ _ Hrep') as [gs' Hg'].
      rewrite Hg, Hg' in *. cbn in *. by rewrite Heq.
    + destruct (Nat.eqb_spec (default 0%nat (grant_allocated_count (s_proc s)))
        (default 0%nat (grant_allocated_count p'))); [done|].
      eexists _, _. split; [done|]. cbn. split_and!; [done|done|done| |done].
      split; [|done]. destruct (fresh_table g) eqn:Hf. exact Hrep'.
  - destruct Hroom as (-> & -> & _). destruct Hres as [_ Hrep']. eexists _, _. split; [done|]. cbn. by split_and!.
Qed.

Lemma sys_subscribe_tabled u s T :
  tabled s T -> upcall_ok u ->
  let '(r, T') := spec_swap t_upcalls set_upcall (driver_num (up_upcall_id u))
                    (subscribe_num (up_upcall_id u)) (saved_of u) T in
  exists s1, tabled s1 T' /\ s_proc s1 = s_proc s /\ s_kern s1 = s_kern s /\
    sys_subscribe u s =
      (match r with
       | Ok old => Ok (mkUpcall (process_id (s_proc s)) (up_upcall_id u) (su_appdata old) (su_fn_ptr old))
       | Err e => Err (u, e)
       end, s1).
Proof using Hdecl.
  intros [Hrep Hst] Hu. pose proof (subscribe_refines decl Hdecl _ _ T u Hrep Hu) as H.
  cbv zeta in H. destruct (spec_swap _ _ _ _ _ _) as [r T']. destruct H as (m' & Hrep' & Heq).
  exists (set_mem m' (set_proc (s_proc s) s)). split; [by split|]. split; [done|]. split; [done|].
  unfold sys_subscribe. by rewrite Heq.
Qed.

(** A swap fails for a missing grant with [NOMEM] and for an unknown number with
    [NOSUPPORT], and then changes no table. *)
Definition swap_error (d : Z) (T : gmap Z (GrantType * table)) : ErrorCode :=
  match T !! d with Some _ => NOSUPPORT | None => NOMEM end.
Lemma spec_swap_Err {A} arr set d i (x : A) T e T' :
  spec_swap arr set d i x T = (Err e, T') -> T' = T /\ e = swap_error d T.
Proof using.
  unfold spec_swap, swap_error. destruct (T !! d) as [ [g t]|]; [destruct (arr t !! Z.to_nat i)|]; intros; by simplify_eq.
Qed.
Lemma spec_swap_NOMEM {A} arr set d i (x : A) T T' :
  spec_swap arr set d i x T = (Err NOMEM, T') -> T !! d = None.
Proof using. intros [_ H]%spec_swap_Err. unfold swap_error in H. by destruct (T !! d). Qed.
Lemma is_nomem {A} (r : result A ErrorCode) : r = Err NOMEM \/ r <> Err NOMEM.
Proof using. destruct r as [a|[] ]; (by left) || (by right). Qed.
Lemma tables_for_allocated {A} arr set d g room i (x : A) T r T' :
  spec_swap arr set d i x T = (r, T') -> r <> Err NOMEM -> tables_for d g room T = T /\ is_Some (T !! d).
Proof using. unfold spec_swap, tables_for. destruct (T !! d) as [ [? ?]|]; intros H Hne; [by eauto|by simplify_eq]. Qed.

Lemma subscribe_value_tabled (drv : @SyscallDriver hw config stored E) g u s T :
  let d := driver_num (up_upcall_id u) in let room := grantable g (s_proc s) (s_kern s) in
  tabled s T -> decl !! d = Some g -> d_allocate_grant drv = enter_to_allocate g -> upcall_ok u ->
  exists r T' s1,
    spec_swap t_upcalls set_upcall d (subscribe_num (up_upcall_id u)) (saved_of u) (tables_for d g room T) = (r, T') /\
    subscribe_value (Some drv) u s =
      Ret (match r with
           | Ok old => into_subscribe_success (mkUpcall (process_id (s_proc s)) (up_upcall_id u)
                         (su_appdata old) (su_fn_ptr old))
           | Err e => into_subscribe_failure u e
           end, s1) /\
    tabled s1 T' /\ break_for d g room T (s_proc s) (s_proc s1) /\ tasks (s_proc s1) = tasks (s_proc s).
Proof using Hdecl.
  intros d room Htb Hd Halloc Hu. destruct (proj1 Hdecl d g Hd) as [Hdn _]. unfold subscribe_value, break_for.
  pose proof (sys_subscribe_tabled u s T Htb Hu) as H. fold d in H.
  destruct (spec_swap _ _ d _ _ T) as [r T'] eqn:Hsw. destruct H as (s1 & Htb1 & Hp1 & Hk1 & ->).
  destruct (is_nomem r) as [->|Hne].
  2: { destruct (tables_for_allocated _ _ d g room _ _ _ _ _ Hsw Hne) as [-> [x Hx] ].
       exists r, T', s1. rewrite Hsw, Hp1, Hx. destruct r as [old|[] ]; by split_and!. }
  pose proof (spec_swap_NOMEM _ _ _ _ _ _ _ Hsw) as Hnone.
  apply spec_swap_Err in Hsw as Hsw'. destruct Hsw' as [-> _].
  rewrite <- Hdn in Hd. destruct (try_allocate_tabled drv g s1 T Htb1 Hd) as (a & s2 & -> & Htk & Hid & Hres);
    [by rewrite Hdn|done|]. rewrite Hdn, Hp1, Hk1 in Hres. fold room in Hres. cbn [obind].
  unfold tables_for. rewrite Hnone. destruct room.
  - destruct Hres as (-> & Htb2 & Hbrk). pose proof (sys_subscribe_tabled u s2 _ Htb2 Hu) as H. fold d in H.
    destruct (spec_swap _ _ d _ _ (<[d := _]> T)) as [r2 T2] eqn:Hsw2.
    destruct H as (s3 & Htb3 & Hp3 & _ & ->). exists r2, T2, s3. rewrite Hp3, Htk, Hid, Hp1. by destruct r2; split_and!.
  - destruct Hres as (Ha & Hp2 & Htb2). exists (Err NOMEM), T, s2. rewrite Hsw, Htk, Hp1, Hp2.
    split_and!; [done|by destruct a|done..].
Qed.

(** Raising the high-water mark concerns neither the tables nor the queue. *)
Lemma tabled_proc s p T :
  tabled s T -> wf p -> is_running p = true -> grant_pointers p = grant_pointers (s_proc s) ->
  memory_start p = memory_start (s_proc s) -> memory_len p = memory_len (s_proc s) ->
  app_break p = app_break (s_proc s) ->
  kernel_memory_break p = kernel_memory_break (s_proc s) -> tabled (set_proc p s) T.
Proof using.
  intros [Hrep (Hwf & Htop & Hab)] Hwf' Hr Hg Es El Ea Ek. split; cbn [s_proc s_mem set_proc].
  - apply (represents_frame decl (s_proc s)); try done. lia.
  - split; [done|]. rewrite Es, El, Ea. done.
Qed.

Section allow.
  Context (arr : table -> list SavedAllow) (set : Z -> SavedAllow -> table -> table).
  Context (build : sys -> outcome (result ProcessBuffer ErrorCode * sys)).
  Context (swap : ProcessBuffer -> sys -> result ProcessBuffer (ProcessBuffer * ErrorCode) * sys).
  Context (success : Z -> Z -> SyscallReturn) (failure : ErrorCode -> Z -> Z -> SyscallReturn).
  Context (d i : Z).
  Context (Hswap : forall buf s T, tabled s T -> buffer_words buf ->
    let '(r, T') := spec_swap arr set d i (allow_of buf) T in
    exists s1, tabled s1 T' /\ s_proc s1 = s_proc s /\ s_kern s1 = s_kern s /\
      swap buf s = (match r with
                    | Ok old => Ok (mkProcessBuffer (sa_ptr old) (sa_len old) (process_id (s_proc s)))
                    | Err e => Err (buf, e)
                    end, s1)).

Lemma allow_value_tabled (drv : @SyscallDriver hw config stored E) g a n buf s s0 T :
  build s = Ret (Ok buf, s0) -> tabled s0 T -> buffer_words buf ->
  buf_ptr buf = a -> buf_len buf = n ->
  decl !! d = Some g -> d_allocate_grant drv = enter_to_allocate g ->
  let room := grantable g (s_proc s0) (s_kern s0) in
  exists r T' s1,
    spec_swap arr set d i (allow_of buf) (tables_for d g room T) = (r, T') /\
    allow_value build swap success failure (Some drv) a n s =
      Ret (match r with
           | Ok old => success (sa_ptr old) (sa_len old)
           | Err e => failure e a n
           end, s1) /\
    tabled s1 T' /\ break_for d g room T (s_proc s0) (s_proc s1) /\ tasks (s_proc s1) = tasks (s_proc s0).
Proof using Hdecl Hswap.
  intros Hbuild Htb Hbw <- <- Hd Halloc room. destruct (proj1 Hdecl d g Hd) as [Hdn _].
  unfold allow_value, break_for. rewrite Hbuild. cbn [obind].
  pose proof (Hswap buf s0 T Htb Hbw) as H.
  destruct (spec_swap arr set d i (allow_of buf) T) as [r T'] eqn:Hsw.
  destruct H as (s1 & Htb1 & Hp1 & Hk1 & ->).
  destruct (is_nomem r) as [->|Hne].
  2: { destruct (tables_for_allocated _ _ d g room _ _ _ _ _ Hsw Hne) as [-> [x Hx] ].
       exists r, T', s1. rewrite Hsw, Hp1, Hx. destruct r as [old|[] ]; by split_and!. }
  pose proof (spec_swap_NOMEM _ _ _ _ _ _ _ Hsw) as Hnone.
  apply spec_swap_Err in Hsw as Hsw'. destruct Hsw' as [-> _].
  rewrite <- Hdn in Hd. destruct (try_allocate_tabled drv g s1 T Htb1 Hd) as (x & s2 & -> & Htk & Hid & Hres);
    [by rewrite Hdn|done|]. rewrite Hdn, Hp1, Hk1 in Hres. fold room in Hres. cbn [obind].
  unfold tables_for. rewrite Hnone. destruct room.
  - destruct Hres as (-> & Htb2 & Hbrk). pose proof (Hswap buf s2 _ Htb2 Hbw) as H.
    destruct (spec_swap arr set d i (allow_of buf) (<[d := _]> T)) as [r2 T2] eqn:Hsw2.
    destruct H as (s3 & Htb3 & Hp3 & _ & ->). exists r2, T2, s3. rewrite Hp3, Htk, Hp1. by destruct r2; split_and!.
  - destruct Hres as (Hx & Hp2 & Htb2). exists (Err NOMEM), T, s2. rewrite Hsw, Htk, Hp1, Hp2.
    split_and!; [done|by destruct x|done..].
Qed.
End allow.

Lemma allow_rw_tabled d i buf s T :
  0 <= i -> tabled s T -> buffer_words buf ->
  let '(r, T') := spec_swap t_rws set_rw d i (allow_of buf) T in
  exists s1, tabled s1 T' /\ s_proc s1 = s_proc s /\ s_kern s1 = s_kern s /\
    sys_allow_rw d i buf s =
      (match r with
       | Ok old => Ok (mkProcessBuffer (sa_ptr old) (sa_len old) (process_id (s_proc s)))
       | Err e => Err (buf, e)
       end, s1).
Proof using Hdecl.
  intros Hi [Hrep Hst] Hb. pose proof (allow_rw_refines decl Hdecl _ _ T d i buf Hrep Hi Hb) as H.
  destruct (spec_swap _ _ _ _ _ _) as [r T']. destruct H as (m' & Hrep' & Heq).
  exists (set_mem m' (set_proc (s_proc s) s)). split; [by split|]. split; [done|]. split; [done|].
  unfold sys_allow_rw. by rewrite Heq.
Qed.

Lemma allow_ro_tabled d i buf s T :
  0 <= i -> tabled s T -> buffer_words buf ->
  let '(r, T') := spec_swap t_ros set_ro d i (allow_of buf) T in
  exists s1, tabled s1 T' /\ s_proc s1 = s_proc s /\ s_kern s1 = s_kern s /\
    sys_allow_ro d i buf s =
      (match r with
       | Ok old => Ok (mkProcessBuffer (sa_ptr old) (sa_len old) (process_id (s_proc s)))
       | Err e => Err (buf, e)
       end, s1).
Proof using Hdecl.
  intros Hi [Hrep Hst] Hb. pose proof (allow_ro_refines decl Hdecl _ _ T d i buf Hrep Hi Hb) as H.
  destruct (spec_swap _ _ _ _ _ _) as [r T']. destruct H as (m' & Hrep' & Heq).
  exists (set_mem m' (set_proc (s_proc s) s)). split; [by split|]. split; [done|]. split; [done|].
  unfold sys_allow_ro. by rewrite Heq.
Qed.

Lemma build_rw_tabled a n s T :
  tabled s T -> u32_range a -> u32_range n ->
  (n = 0 \/ in_app_owned_memory a n (s_proc s) = true) ->
  exists s0, sys_build_rw a n s = Ret (Ok (mkProcessBuffer a n (process_id (s_proc s))), s0) /\
    tabled s0 T /\ tasks (s_proc s0) = tasks (s_proc s) /\ s_kern s0 = s_kern s /\
    kernel_memory_break (s_proc s0) = kernel_memory_break (s_proc s) /\
    forall g, grantable g (s_proc s0) (s_kern s0) = grantable g (s_proc s) (s_kern s).
Proof using.
  intros Htb Ha Hn Hok. pose proof (rep_running _ _ _ _ (tb_rep _ _ Htb)) as Hr.
  pose proof (proj1 (tb_steady _ _ Htb)) as Hwf. unfold sys_build_rw.
  destruct (build_readwrite_process_buffer a n (s_proc s)) as [r p] eqn:Hb.
  pose proof (build_readwrite_spec a n (s_proc s) r p Hwf Ha Hn Hb) as [Hwf' _].
  unfold build_readwrite_process_buffer in Hb. rewrite Hr in Hb. cbn [negb] in Hb.
  destruct (Z.eqb_spec n 0) as [->|Hne].
  - injection Hb as <- <-. exists (set_proc (s_proc s) s). split; [done|].
    split; [by apply tabled_proc|by split_and!; [..|intros g; by apply grantable_frame] ].
  - destruct Hok as [?|Hin]; [done|]. rewrite Hin in Hb. injection Hb as <- <-.
    eexists; split; [done|]. split; [by apply tabled_proc|by split_and!; [..|intros g; by apply grantable_frame] ].
Qed.

Lemma build_ro_tabled a n s T :
  tabled s T -> u32_range a -> u32_range n ->
  (n = 0 \/ in_app_owned_memory a n (s_proc s) = true \/
   in_app_flash_memory a n (s_proc s) = Ret true) ->
  exists s0, sys_build_ro a n s = Ret (Ok (mkProcessBuffer a n (process_id (s_proc s))), s0) /\
    tabled s0 T /\ tasks (s_proc s0) = tasks (s_proc s) /\ s_kern s0 = s_kern s /\
    kernel_memory_break (s_proc s0) = kernel_memory_break (s_proc s) /\
    forall g, grantable g (s_proc s0) (s_kern s0) = grantable g (s_proc s) (s_kern s).
Proof using.
  intros Htb Ha Hn Hok. pose proof (rep_running _ _ _ _ (tb_rep _ _ Htb)) as Hr.
  pose proof (proj1 (tb_steady _ _ Htb)) as Hwf. unfold sys_build_ro.
  assert (Hb : exists p, build_readonly_process_buffer a n (s_proc s)
      = Ret (Ok (mkProcessBuffer a n (process_id (s_proc s))), p) /\
    (p = s_proc s \/ p = raise_water_mark (wrapping_add32 a n) (s_proc s))).
  { unfold build_readonly_process_buffer. rewrite Hr. cbn [negb].
    destruct (Z.eqb_spec n 0) as [->|Hne]; [by eexists; split; [|left]|].
    destruct (in_app_owned_memory a n (s_proc s)) eqn:Hin; cbn [obind].
    - eexists; split; [done|by right].
    - destruct Hok as [?|[?|Hf]]; [done..|]. rewrite Hf. cbn [obind]. by eexists; split; [|left]. }
  destruct Hb as (p & Hb & Hp). rewrite Hb. cbn [obind].
  pose proof (build_readonly_spec a n (s_proc s) _ p Hwf Ha Hn Hb) as [Hwf' _].
  eexists; split; [done|]. destruct Hp as [-> | ->]; (split; [by apply tabled_proc|by split_and!; [..|intros g; by apply grantable_frame] ]).
Qed.

End calls.

(** * A concrete board

    One driver, number 7, which owns [demo_grant]. *)
Definition demo_driver : @SyscallDriver CortexM.Mpu CortexM.CortexMConfig unit unit :=
  mkDriver (fun _ _ _ s => Ret (Success, s)) (enter_to_allocate demo_grant)
    (fun _ b s => Ret (Ok b, s)).
(** Userspace tries to write the first byte of its memory and the first that the kernel
    owns; the registers decide. *)
Definition hw_permits (h : CortexM.Mpu) (a : Z) : bool :=
  existsb (fun '(rbar, rasr) => CortexM.hw_covers rbar rasr a) (CortexM.hw_regions h).
Definition demo_writes (p : process unit CortexM.CortexMConfig) (h : CortexM.Mpu) (m : memory) : memory :=
  foldr (fun a m => if hw_permits h a then <[a := 170]> m else m) m [memory_start p; kernel_memory_break p].
Lemma demo_writes_permitted p h m a : ~ permits h a -> load8 (demo_writes p h m) a = load8 m a.
Proof.
  intros Hno. unfold demo_writes. induction [memory_start p; kernel_memory_break p] as [|b l IH]; [reflexivity|]. cbn.
  destruct (hw_permits h b) eqn:Hb; [|exact IH]. rewrite load8_insert. destruct (decide (b = a)) as [->|]; [|exact IH].
  destruct Hno. apply existsb_exists in Hb as ([rbar rasr] & Hin & Hc).
  apply list_elem_of_In, list_elem_of_lookup in Hin as [i Hi]. by exists i, rbar, rasr.
Qed.

Definition demo_board : @Board CortexM.Mpu CortexM.CortexMConfig unit unit :=
  mkBoard (fun n => if n =? 7 then Some demo_driver else None) (fun _ _ => Ok tt)
    (fun s => Ret (Err tt, s)) (fun _ e => e) (fun _ e => (true, e)) None
    (fun e => e) (fun _ e => e) (fun e => e) (fun e => e) (fun e => (Some 10000, e))
    demo_writes.

Lemma demo_board_laws : board_laws 280 400 demo_fault eq demo_board.
Proof.
  assert (Hd : driver_laws 280 400 demo_fault eq demo_driver).
  { split.
    - intros n a b s x s' _ H. injection H as <- <-. apply (serves_refl _ _ _ eq).
    - apply (enter_to_allocate_serves _ _ _ eq). exact (proj2 (proj1 demo_declared 7 demo_grant eq_refl)).
    - intros n buf s x s' _ H. injection H as <- <-. apply (serves_refl _ _ _ eq). }
  split.
  - intros num d. cbn. destruct (num =? 7); intros H; [injection H as <-; exact Hd|discriminate H].
  - intros s x s' _ H. injection H as <- <-. apply (steps_refl _ _ _ eq).
  - intros f other ty s s' H. discriminate H.
  - reflexivity.
  - intros id e c e' H. by injection H.
  - repeat split; reflexivity.
  - intros e r e' H. by injection H.
  - intros start brk st sc sp st' H. discriminate H.
Qed.

Definition demo_start p h k : @sys CortexM.Mpu CortexM.CortexMConfig unit unit :=
  mkSys p h k ∅ tt [].

(** The demo process starts above address 0. *)
Lemma demo_fit p rest k h :
  demo_create = Ret (Ok (p, rest), k, h) -> fit 280 400 (demo_start p h k).
Proof.
  intros H. split; [exact (demo_wwf p rest k h H)|]. split.
  2: { unfold demo_create in H. destruct demo_inputs as [_ _ _ _ _ _ _ _ H9 _].
       apply create_synced in H as [Hs _]; [exact Hs|reflexivity|exact H9]. }
  assert (Hm : match demo_create with Ret (Ok (q, _), _, _) => 0 <? memory_start q | _ => true end = true)
    by (vm_compute; reflexivity).
  rewrite H in Hm. by apply Z.ltb_lt.
Qed.

(** C2: whatever a process does and however its drivers, the scheduler and the
    timer behave within their interfaces, after any number of iterations of the
    process loop every switch to userspace has happened with the process in the
    Running state, its breaks in order, the MPU switched on, and registers that permit
    exactly what the configuration of the process exposes (less what the hardware
    withholds by itself): all of its app memory, and no byte of the kernel-owned memory
    of its block.  The driver may skip writing a configuration that is already loaded;
    the class [MpuEnforces] says, and its instances prove, that it only does so when the
    registers hold it.  The process starts well formed, with room in its block for its
    initial memory as the driver rounds it ([fit]), which creation does not ensure on
    Cortex-M; the invariant holds in the state reached.  (The laws of the board include
    a relation [R] that each of its operations keeps on the rest of the system; the
    loop keeps it too.) *)
Theorem userspace_runs_isolated {hw config stored E} {mpu : MPU hw config}
    {iso : MpuIsolation hw config} {enf : MpuEnforces hw config} {ukb : UKB stored} CB PS
    (fault_action : process stored config -> FaultAction) (R : relation E) {Rpre : PreOrder R}
    (board : @Board hw config stored E) fuel ts s r s' :
  0 <= initial_process_app_brk_size -> board_laws CB PS fault_action R board ->
  fit CB PS s -> s_runs s = [] ->
  do_process_loop CB PS fault_action board fuel ts (do_process_start board ts s) = Ret (r, s') ->
  Forall isolated_run (s_runs s') /\ wf (s_proc s') /\
  rtc (step CB PS fault_action) (world_of s) (world_of s') /\ R (s_env s) (s_env s').
Proof.
  intros Happ Hb Hfit Hruns H.
  pose proof (start_steps CB PS fault_action R board Hb ts s) as H1.
  pose proof (fit_steps _ _ _ R Happ _ _ Hfit H1) as Hfit1.
  apply (loop_advances CB PS fault_action R Happ board Hb) in H; [|done].
  apply steps_advances in H1. destruct (advances_fit _ _ _ R Happ _ _ Hfit1 H) as ([Hwf _] & _ & Hy).
  destruct (advances_trans _ _ _ _ _ _ _ H1 H) as (H2 & HR & runs & Hrs & Hall).
  rewrite Hrs, Hruns, app_nil_r. split; [|done]. eapply Forall_impl; [exact Hall|]. by intros r0 [? _].
Qed.

(** In three iterations the demo process starts and runs twice. *)
Lemma userspace_runs_isolated_witness :
  exists p rest k h, demo_create = Ret (Ok (p, rest), k, h) /\
  exists r s', do_process_loop 280 400 demo_fault demo_board 3 None
      (do_process_start demo_board None (demo_start p h k)) = Ret (r, s') /\
    length (s_runs s') = 2%nat /\
    Forall isolated_run (s_runs s') /\ wf (s_proc s') /\
    rtc (step 280 400 demo_fault) (world_of (demo_start p h k)) (world_of s') /\
    s_env (demo_start p h k) = s_env s'.
Proof.
  destruct demo_created as (p & rest & k & h & E & _).
  exists p, rest, k, h. split; [exact E|].
  assert (Hm : match demo_create with
      | Ret (Ok (q, _), k, h) =>
        match do_process_loop 280 400 demo_fault demo_board 3 None
          (do_process_start demo_board None (demo_start q h k)) with
        | Ret (_, s') => Nat.eqb (length (s_runs s')) 2
        | _ => false
        end
      | _ => true end = true) by (vm_compute; reflexivity).
  rewrite E in Hm.
  destruct (do_process_loop 280 400 demo_fault demo_board 3 None
    (do_process_start demo_board None (demo_start p h k))) as [ [r s']| |] eqn:Hloop;
    [|discriminate Hm..].
  exists r, s'. split; [reflexivity|]. split; [by apply Nat.eqb_eq|].
  apply (userspace_runs_isolated 280 400 demo_fault eq demo_board 3 None (demo_start p h k) r s');
    [discriminate|exact demo_board_laws|exact (demo_fit p rest k h E)|reflexivity|exact Hloop].
Defined.

(** C31: running userspace does not change any grant.  Userspace writes only where the
    protection hardware lets it, which is all that is assumed of it.  The kernel sets up
    the MPU for a well-formed process, whose configuration is in step with the hardware
    (as every operation keeps it), and switches to it: no byte of the kernel-owned part
    of the block of the process changes, and the tables that its memory represented
    before are those it represents after, because the registers that the driver wrote,
    or did not need to write, permit no such byte. *)
Theorem userspace_keeps_grants {hw config stored E} {mpu : MPU hw config}
    {iso : MpuIsolation hw config} {enf : MpuEnforces hw config} {ukb : UKB stored}
    (board : @Board hw config stored E) decl T ts s r s' :
  declared decl ->
  (forall p h m a, protecting h -> ~ permits h a -> load8 (user_writes board p h m) a = load8 m a) ->
  wf (s_proc s) -> synced (s_proc s) (s_hw s) -> represents decl (s_proc s) (s_mem s) T ->
  enter_userspace board ts s = Ret (r, s') ->
  represents decl (s_proc s') (s_mem s') T /\
  forall a, kernel_memory_break (s_proc s) <= a < memory_start (s_proc s) + memory_len (s_proc s) ->
    load8 (s_mem s') a = load8 (s_mem s) a.
Proof.
  intros Hdecl Hmem Hwf Hy Hrep H. unfold enter_userspace in H. cbn [s_proc s_hw set_env] in H.
  pose proof (rep_running _ _ _ _ Hrep) as Hr.
  apply obind_Ret in H as ([p h1] & Hset & H). cbn [s_hw set_hw] in H.
  apply obind_Ret in H as (h & Hen & H).
  destruct (setup_mpu_wf _ _ _ _ Hwf Hset) as [Hwf1 _].
  destruct (setup_configured _ _ _ _ _ Hwf Hr Hy Hset Hen) as (c & Hp & Hpr & _ & _ & Hno).
  apply obind_Ret in H as ([reason s2] & Hsw & H). apply obind_Ret in H as (h2 & _ & H).
  injection H as <- <-. cbn [s_proc s_mem set_hw].
  rewrite timer_do_proc, timer_do_mem. unfold switch in Hsw.
  rewrite timer_do_proc, timer_do_hw, timer_do_mem in Hsw. cbn [s_proc s_hw s_mem set_hw set_proc set_env] in Hsw.
  apply obind_Ret in Hsw as ([r0 p1] & Hsw & H). inv_ret. cbn [s_proc s_mem].
  apply switch_to_wf in Hsw as (_ & Hsame & Hst); [|done]. unfold same_memory in Hsame. destruct_and!.
  assert (Hkeep : forall a, kernel_memory_break (s_proc s) <= a < memory_start (s_proc s) + memory_len (s_proc s) ->
    load8 (user_writes board (set_mpu_config (Some c) (s_proc s)) h (s_mem s)) a = load8 (s_mem s) a).
  { intros a Ha. apply Hmem; [done|]. by apply Hno. }
  split; [|done].
  apply (represents_frame decl (set_mpu_config (Some c) (s_proc s))); try done;
    [|by rewrite (is_running_state _ _ Hst)|cbn in *; lia].
  apply (represents_frame decl (s_proc s)); try done.
  by apply (represents_memory decl Hdecl _ (s_mem s)).
Qed.

(** A process with the grant of driver 7, which writes its first byte and fails to write
    the first byte of its grant. *)
Lemma userspace_keeps_grants_witness :
  exists p rest k h, demo_create = Ret (Ok (p, rest), k, h) /\
  exists a s, try_allocate_grant demo_driver (demo_start p h k) = Ret (a, s) /\
  exists r s', enter_userspace demo_board None s = Ret (r, s') /\
    load8 (s_mem s) (memory_start p) = 0 /\ load8 (s_mem s') (memory_start p) = 170 /\
    represents demo_decl (s_proc s') (s_mem s') (<[7 := (demo_grant, fresh_table demo_grant)]> ∅) /\
    forall a, kernel_memory_break (s_proc s) <= a < memory_start (s_proc s) + memory_len (s_proc s) ->
      load8 (s_mem s') a = load8 (s_mem s) a.
Proof.
  destruct demo_created as (p & rest & k & h & E & Hwf & _ & Hr & _ & Htop & _).
  exists p, rest, k, h. split; [exact E|].
  destruct (demo_fresh p rest k h E) as (Hab & gs & Hg & Hz).
  pose proof (demo_fit p rest k h E) as Hfit.
  assert (Hm : match demo_create with
      | Ret (Ok (q, _), k, h) =>
        grantable demo_grant q k &&
        match try_allocate_grant demo_driver (demo_start q h k) with
        | Ret (_, s) =>
          match enter_userspace demo_board None s with
          | Ret (_, s') => (load8 (s_mem s) (memory_start q) =? 0) && (load8 (s_mem s') (memory_start q) =? 170)
          | _ => false
          end
        | _ => false
        end
      | _ => true end = true) by (vm_compute; reflexivity).
  rewrite E in Hm. clear E. apply andb_true_iff in Hm as [Hgr Hm].
  destruct (try_allocate_tabled demo_decl demo_declared demo_driver demo_grant (demo_start p h k) ∅)
    as (a & s & Hal & _ & _ & Hres); [|reflexivity|reflexivity|reflexivity|].
  { split; [exact (represents_empty demo_decl p ∅ gs Hr Hg Hz)|].
    split; [exact Hwf|]. split; [exact Htop|exact Hab]. }
  exists a, s. split; [exact Hal|]. rewrite Hal in Hm.
  assert (Hfit2 : fit 280 400 s).
  { eapply (fit_steps 280 400 demo_fault eq); [discriminate|exact Hfit|].
    apply (try_allocate_steps 280 400 demo_fault eq demo_driver _ a); [|exact Hfit|exact Hal].
    exact (law_drivers _ _ _ _ _ demo_board_laws 7 demo_driver eq_refl). }
  destruct (enter_userspace demo_board None s) as [ [r s']| |] eqn:Hsw; [|discriminate Hm..].
  apply andb_true_iff in Hm as [Hm1%Z.eqb_eq Hm2%Z.eqb_eq].
  exists r, s'. split; [reflexivity|]. split; [exact Hm1|]. split; [exact Hm2|].
  cbn [s_proc s_kern demo_start] in Hres. rewrite Hgr in Hres. destruct Hres as (_ & [Hrep _] & _).
  destruct Hfit2 as ([Hwf2 _] & _ & Hy2).
  apply (userspace_keeps_grants demo_board demo_decl _ None s r s');
    [exact demo_declared|intros q h0 m b _; apply demo_writes_permitted|exact Hwf2|exact Hy2|exact Hrep|exact Hsw].
Defined.

(** The pending tasks of a process. *)
Definition pending {stored config} (p : process stored config) : list Task :=
  match tasks p with Some ts => contents ts | None => [] end.

(** C7: the subscribe system call.  An upcall function outside the process's
    memory is refused with [INVAL] and an unknown driver with [NODEVICE], without
    any change.  Otherwise the driver's grant is allocated first if this is the first
    use and there is room for it, which moves the kernel break down by its size, and the
    call swaps the addressed entry of the driver's table: on success the process gets
    the old function and data back and exactly the pending calls of that upcall leave
    the queue.  It fails with [NOMEM] exactly if the grant was not there and could not be
    allocated, and then tables and kernel break are as before the call; and with
    [NOSUPPORT] exactly if the table has no such number, and then no entry changes, but
    a grant that was allocated for the call stays allocated.  On failure the process
    gets its own function and data back, and the queue is as before. *)
Theorem subscribe_syscall {hw config stored E} {mpu : MPU hw config}
    {iso : MpuIsolation hw config} {ukb : UKB stored} CB PS
    (fault_action : process stored config -> FaultAction)
    decl T (driver : option SyscallDriver) g d n ptr data (s : @sys hw config stored E) valid :
  declared decl -> tabled decl s T -> decl !! d = Some g ->
  (forall drv, driver = Some drv -> d_allocate_grant drv = enter_to_allocate g) ->
  u32_range n -> u32_range ptr -> u32_range data ->
  (ptr = 0 -> valid = true) ->
  (ptr <> 0 -> is_valid_upcall_function_pointer ptr (s_proc s) = Ret valid) ->
  exists rv s1,
    handle_subscribe CB PS fault_action driver d n ptr data s = return_value CB PS fault_action rv s1 /\
    match valid, driver with
    | false, _ => rv = SubscribeFailure INVAL ptr data /\ s1 = s
    | true, None => rv = SubscribeFailure NODEVICE ptr data /\ s1 = s
    | true, Some _ =>
      let room := grantable g (s_proc s) (s_kern s) in
      let T0 := tables_for d g room T in
      break_for d g room T (s_proc s) (s_proc s1) /\
      exists r T', tabled decl s1 T' /\
        spec_swap t_upcalls set_upcall d n
          (mkSavedUpcall data (if ptr =? 0 then None else Some ptr)) T0 = (r, T') /\
        match r with
        | Ok old => rv = SubscribeSuccess (default 0 (su_fn_ptr old)) (su_appdata old) /\
            pending (s_proc s1) = filter (keeps_upcall (mkUpcallId d n)) (pending (s_proc s))
        | Err e => rv = SubscribeFailure e ptr data /\ e = swap_error d T0 /\ T' = T0 /\
            pending (s_proc s1) = pending (s_proc s)
        end
    end.
Proof.
  intros Hdecl Htb Hd Hdrv Hn Hp Hdata Hnull Hvalid. unfold handle_subscribe.
  set (fp := if ptr =? 0 then None else Some ptr).
  set (u := mkUpcall (process_id (s_proc s)) (mkUpcallId d n) data fp).
  assert (Hfail : forall e, into_subscribe_failure u e = SubscribeFailure e ptr data).
  { intros e. unfold into_subscribe_failure, u, fp. cbn. by destruct (Z.eqb_spec ptr 0) as [->|]. }
  assert (Hu : upcall_ok u).
  { unfold upcall_ok, u, fp, u32_range in *. cbn. split_and!; try lia.
    intros q. destruct (Z.eqb_spec ptr 0); [done|]. intros [= <-]. lia. }
  assert (Hv : (match fp with
      | None => Ret None
      | Some q => let! v := is_valid_upcall_function_pointer q (s_proc s) in
                  Ret (if v : bool then None else Some INVAL)
      end) = Ret (if valid then None else Some INVAL)).
  { unfold fp. destruct (Z.eqb_spec ptr 0) as [Hz|Hz]; [by rewrite (Hnull Hz)|].
    rewrite (Hvalid Hz). by destruct valid. }
  rewrite Hv. cbn [obind]. destruct valid.
  2: { eexists _, s. rewrite Hfail. split; [done|done]. }
  destruct driver as [drv|].
  2: { cbn [subscribe_value obind]. eexists _, s. rewrite Hfail. split; [done|done]. }
  destruct (subscribe_value_tabled decl Hdecl drv g u s T Htb Hd (Hdrv drv eq_refl) Hu)
    as (r & T' & s1 & Hsw & -> & Htb1 & Hbrk & Htk). cbn [obind].
  destruct r as [old|e].
  - assert (Hsucc : into_subscribe_success (mkUpcall (process_id (s_proc s)) (up_upcall_id u)
      (su_appdata old) (su_fn_ptr old)) = SubscribeSuccess (default 0 (su_fn_ptr old)) (su_appdata old)).
    { unfold into_subscribe_success. cbn. by destruct (su_fn_ptr old). }
    rewrite Hsucc. cbn [is_success]. unfold on_proc.
    destruct (remove_pending_upcalls_spec (mkUpcallId d n) (s_proc s1) (proj1 (tb_steady _ _ _ Htb1)))
      as (ts & ts' & Ht & _ & Hc & -> & Hwf'). cbn [obind].
    eexists _, _. split; [done|]. split; [done|]. exists (Ok old), T'.
    split_and!; [|done|done|].
    + pose proof (rep_running _ _ _ _ (tb_rep _ _ _ Htb1)) as Hr1. by apply tabled_proc.
    + unfold pending. cbn. by rewrite Hc, <- Htk, Ht.
  - rewrite Hfail. cbn [is_success obind]. eexists _, s1. split; [done|].
    split; [done|]. exists (Err e), T'. destruct (spec_swap_Err _ _ _ _ _ _ _ _ Hsw) as [-> ->].
    split_and!; try done. unfold pending. by rewrite Htk.
Qed.

(** A first use with an unknown number: the call is refused, and the grant stays. *)
Lemma subscribe_syscall_witness :
  exists p rest k h, demo_create = Ret (Ok (p, rest), k, h) /\
  exists rv s1,
    handle_subscribe 280 400 demo_fault (Some demo_driver) 7 5 0 99 (demo_start p h k)
      = return_value 280 400 demo_fault rv s1 /\
    rv = SubscribeFailure NOSUPPORT 0 99 /\ kernel_memory_break (s_proc s1) + layout_size demo_grant <= kernel_memory_break p /\
    tabled demo_decl s1 (<[7 := (demo_grant, fresh_table demo_grant)]> ∅) /\
    pending (s_proc s1) = pending p.
Proof.
  destruct demo_created as (p & rest & k & h & E & Hwf & _ & Hr & _ & Htop & _).
  exists p, rest, k, h. split; [exact E|].
  destruct (demo_fresh p rest k h E) as (Hab & gs & Hg & Hz).
  assert (Hm : match demo_create with Ret (Ok (q, _), k, _) => grantable demo_grant q k | _ => true end = true)
    by (vm_compute; reflexivity).
  rewrite E in Hm. clear E.
  destruct (subscribe_syscall 280 400 demo_fault demo_decl ∅ (Some demo_driver) demo_grant 7 5 0 99
    (demo_start p h k) true) as (rv & s1 & Hrun & Hbrk & r & T' & Htb & Hsw & Hres).
  - exact demo_declared.
  - split; [exact (represents_empty demo_decl p ∅ gs Hr Hg Hz)|].
    split; [exact Hwf|]. split; [exact Htop|exact Hab].
  - reflexivity.
  - intros drv [= <-]. reflexivity.
  - by split.
  - by split.
  - by split.
  - reflexivity.
  - intros H. by destruct H.
  - exists rv, s1. split; [exact Hrun|]. cbn [s_proc s_kern demo_start] in Hbrk, Hsw, Hres. rewrite Hm in Hbrk, Hsw, Hres.
    vm_compute in Hsw. injection Hsw as <- <-. destruct Hres as (-> & _ & _ & Hpend).
    split; [reflexivity|]. split; [exact Hbrk|]. split; [exact Htb|exact Hpend].
Defined.

(** What an allow call does once its buffer is accepted: it allocates the driver's
    grant on first use if there is room, swaps the addressed entry of one array of the
    driver's table and reports the old buffer, or reports the caller's own buffer with
    [NOMEM] if there is no grant and no room for it, or [NOSUPPORT] for an unknown
    number. *)
Definition allow_effect {hw config stored E} {mpu : MPU hw config} {iso : MpuIsolation hw config}
    decl T g (arr : table -> list SavedAllow) (set : Z -> SavedAllow -> table -> table)
    (success : Z -> Z -> SyscallReturn) (failure : ErrorCode -> Z -> Z -> SyscallReturn)
    (d n a l : Z) (s s1 : @sys hw config stored E) (rv : SyscallReturn) : Prop :=
  let room := grantable g (s_proc s) (s_kern s) in
  let T0 := tables_for d g room T in
  break_for d g room T (s_proc s) (s_proc s1) /\ pending (s_proc s1) = pending (s_proc s) /\
  exists r T', tabled decl s1 T' /\
    spec_swap arr set d n (mkSavedAllow a l) T0 = (r, T') /\
    match r with
    | Ok old => rv = success (sa_ptr old) (sa_len old)
    | Err e => rv = failure e a l /\ e = swap_error d T0 /\ T' = T0
    end.

Lemma allow_effect_intro {hw config stored E} {mpu : MPU hw config} {iso : MpuIsolation hw config}
    decl T g arr set success failure d n a l (s s0 s1 : @sys hw config stored E) r T' :
  kernel_memory_break (s_proc s0) = kernel_memory_break (s_proc s) ->
  break_for d g (grantable g (s_proc s) (s_kern s)) T (s_proc s0) (s_proc s1) ->
  pending (s_proc s1) = pending (s_proc s) -> tabled decl s1 T' ->
  spec_swap arr set d n (mkSavedAllow a l) (tables_for d g (grantable g (s_proc s) (s_kern s)) T) = (r, T') ->
  allow_effect decl T g arr set success failure d n a l s s1
    (match r with Ok old => success (sa_ptr old) (sa_len old) | Err e => failure e a l end).
Proof.
  intros Hkb Hbrk Hp Htb Hsw. split; [|split; [done|] ].
  - unfold break_for in *. by rewrite Hkb in Hbrk.
  - exists r, T'. split; [done|]. split; [done|]. destruct r; [done|]. by apply spec_swap_Err in Hsw as [-> ->].
Qed.

(** C30: the allow system calls.  For an unknown driver the call is refused with
    [NODEVICE], for a buffer that is not empty and not inside the process's
    memory (its RAM, or for a read-only buffer also its flash) with [INVAL], in
    both cases without any change and handing the buffer back.  Otherwise the
    buffer is swapped into the driver's table, whose grant is allocated on first
    use, and the old buffer is reported; the call only fails with [NOMEM], if the grant
    is not there and there is no room for it, or [NOSUPPORT], if the table has no such
    number, and then changes no entry. *)
Theorem allow_syscalls {hw config stored E} {mpu : MPU hw config}
    {iso : MpuIsolation hw config} {ukb : UKB stored} CB PS
    (fault_action : process stored config -> FaultAction)
    decl T (driver : option SyscallDriver) g d n a l (s : @sys hw config stored E) flash :
  declared decl -> tabled decl s T -> decl !! d = Some g ->
  (forall drv, driver = Some drv -> d_allocate_grant drv = enter_to_allocate g) ->
  u32_range n -> u32_range a -> u32_range l ->
  in_app_flash_memory a l (s_proc s) = Ret flash ->
  let owned := (l =? 0) || in_app_owned_memory a l (s_proc s) in
  (exists rv s1,
    handle_readwrite_allow CB PS fault_action driver d n a l s = return_value CB PS fault_action rv s1 /\
    match driver with
    | None => rv = AllowReadWriteFailure NODEVICE a l /\ s1 = s
    | Some _ =>
      if owned then allow_effect decl T g t_rws set_rw AllowReadWriteSuccess AllowReadWriteFailure
                      d n a l s s1 rv
      else rv = AllowReadWriteFailure INVAL a l /\ s1 = s
    end) /\
  (exists rv s1,
    handle_readonly_allow CB PS fault_action driver d n a l s = return_value CB PS fault_action rv s1 /\
    match driver with
    | None => rv = AllowReadOnlyFailure NODEVICE a l /\ s1 = s
    | Some _ =>
      if owned || flash
      then allow_effect decl T g t_ros set_ro AllowReadOnlySuccess AllowReadOnlyFailure
             d n a l s s1 rv
      else rv = AllowReadOnlyFailure INVAL a l /\ s1 = s
    end).
Proof.
  intros Hdecl Htb Hd Hdrv Hn Ha Hl Hflash owned.
  pose proof (rep_running _ _ _ _ (tb_rep _ _ _ Htb)) as Hr.
  assert (Hself : set_proc (s_proc s) s = s) by (by destruct s).
  assert (Hw : buffer_words (mkProcessBuffer a l (process_id (s_proc s)))) by (by split).
  split.
  - unfold handle_readwrite_allow. destruct driver as [drv|]; [|by eexists _, s].
    specialize (Hdrv drv eq_refl). unfold owned.
    destruct ((l =? 0) || in_app_owned_memory a l (s_proc s)) eqn:Hown.
    + destruct (build_rw_tabled decl a l s T Htb Ha Hl) as (s0 & Hb & Htb0 & Htk0 & Hk0 & Hkb0 & Hgr0).
      { destruct (Z.eqb_spec l 0); [by left|by right]. }
      destruct (allow_value_tabled decl Hdecl t_rws set_rw (sys_build_rw a l) (sys_allow_rw d n)
        AllowReadWriteSuccess AllowReadWriteFailure d n
        (fun buf s T => allow_rw_tabled decl Hdecl d n buf s T (proj1 Hn))
        drv g a l _ s s0 T Hb Htb0 Hw eq_refl eq_refl Hd Hdrv)
        as (r & T' & s1 & Hsw & -> & Htb1 & Hbrk & Htk1). cbn [obind].
      rewrite Hgr0 in Hsw, Hbrk. eexists _, s1. split; [done|]. eapply allow_effect_intro; try done.
      unfold pending. by rewrite Htk1, Htk0.
    + eexists _, s. cbn [allow_value]. unfold sys_build_rw, build_readwrite_process_buffer.
      apply orb_false_iff in Hown as [H0 Hin]. rewrite Hr, H0, Hin. cbn [negb obind].
      by rewrite Hself.
  - unfold handle_readonly_allow. destruct driver as [drv|]; [|by eexists _, s].
    specialize (Hdrv drv eq_refl). unfold owned.
    destruct ((l =? 0) || in_app_owned_memory a l (s_proc s) || flash) eqn:Hown.
    + destruct (build_ro_tabled decl a l s T Htb Ha Hl) as (s0 & Hb & Htb0 & Htk0 & Hk0 & Hkb0 & Hgr0).
      { destruct (Z.eqb_spec l 0); [by left|right].
        destruct (in_app_owned_memory a l (s_proc s)); [by left|right]. by destruct flash. }
      destruct (allow_value_tabled decl Hdecl t_ros set_ro (sys_build_ro a l) (sys_allow_ro d n)
        AllowReadOnlySuccess AllowReadOnlyFailure d n
        (fun buf s T => allow_ro_tabled decl Hdecl d n buf s T (proj1 Hn))
        drv g a l _ s s0 T Hb Htb0 Hw eq_refl eq_refl Hd Hdrv)
        as (r & T' & s1 & Hsw & -> & Htb1 & Hbrk & Htk1). cbn [obind].
      rewrite Hgr0 in Hsw, Hbrk. eexists _, s1. split; [done|]. eapply allow_effect_intro; try done.
      unfold pending. by rewrite Htk1, Htk0.
    + eexists _, s. cbn [allow_value]. unfold sys_build_ro, build_readonly_process_buffer.
      apply orb_false_iff in Hown as [Hown ->]. apply orb_false_iff in Hown as [H0 Hin].
      rewrite Hr, H0, Hin, Hflash. cbn [negb obind]. by rewrite Hself.
Qed.

(** A buffer in flash: refused as a read-write buffer, accepted as a read-only one. *)
Lemma allow_syscalls_witness :
  exists p rest k h, demo_create = Ret (Ok (p, rest), k, h) /\
  let s := demo_start p h k in
  let owned := (16 =? 0) || in_app_owned_memory 262400 16 p in
  (exists rv s1,
    handle_readwrite_allow 280 400 demo_fault (Some demo_driver) 7 0 262400 16 s
      = return_value 280 400 demo_fault rv s1 /\
    if owned then allow_effect demo_decl ∅ demo_grant t_rws set_rw AllowReadWriteSuccess
                    AllowReadWriteFailure 7 0 262400 16 s s1 rv
    else rv = AllowReadWriteFailure INVAL 262400 16 /\ s1 = s) /\
  (exists rv s1,
    handle_readonly_allow 280 400 demo_fault (Some demo_driver) 7 0 262400 16 s
      = return_value 280 400 demo_fault rv s1 /\
    if owned || true then allow_effect demo_decl ∅ demo_grant t_ros set_ro AllowReadOnlySuccess
                            AllowReadOnlyFailure 7 0 262400 16 s s1 rv
    else rv = AllowReadOnlyFailure INVAL 262400 16 /\ s1 = s).
Proof.
  destruct demo_created as (p & rest & k & h & E & Hwf & _ & Hr & _ & Htop & _).
  exists p, rest, k, h. split; [exact E|].
  destruct (demo_fresh p rest k h E) as (Hab & gs & Hg & Hz).
  assert (Hm : match demo_create with
      | Ret (Ok (q, _), _, _) => bool_decide (in_app_flash_memory 262400 16 q = Ret true)
      | _ => true end = true) by (vm_compute; reflexivity).
  rewrite E in Hm. clear E. apply bool_decide_eq_true in Hm.
  apply (allow_syscalls 280 400 demo_fault demo_decl ∅ (Some demo_driver) demo_grant 7 0 262400 16
    (demo_start p h k) true).
  - exact demo_declared.
  - split; [exact (represents_empty demo_decl p ∅ gs Hr Hg Hz)|].
    split; [exact Hwf|]. split; [exact Htop|exact Hab].
  - reflexivity.
  - intros drv [= <-]. reflexivity.
  - by split.
  - by split.
  - by split.
  - exact Hm.
Defined.

(** A debugging counter that has not saturated. *)
Definition timeslice_room {stored config} (p : process stored config) : Prop :=
  forall d, debug p = Some d -> 0 <= timeslice_expiration_count d < U32 - 1.

(** A process that has faulted or terminated is never run: the loop leaves it
    in its first iteration, without a panic, without switching to userspace and
    without touching its state, its memory or its grants, whatever the timer and
    the scheduler say. *)
Theorem inactive_process_not_run {hw config stored E} {mpu : MPU hw config}
    {iso : MpuIsolation hw config} {ukb : UKB stored} CB PS
    (fault_action : process stored config -> FaultAction) (board : @Board hw config stored E)
    fuel ts s :
  wf (s_proc s) -> is_running (s_proc s) = false -> timeslice_room (s_proc s) ->
  exists reason s',
    do_process_loop CB PS fault_action board (S fuel) ts s = Ret (Some reason, s') /\
    reason <> RStopped /\ s_runs s' = s_runs s /\ s_mem s' = s_mem s /\ s_hw s' = s_hw s /\
    same_memory (s_proc s) (s_proc s') /\ state (s_proc s') = state (s_proc s).
Proof.
  intros Hwf Hr Hroom. cbn [do_process_loop]. unfold do_process_iteration.
  destruct (get_remaining_us board ts s) as [rem s1] eqn:Hrem.
  assert (Hs1 : exists e, s1 = set_env e s).
  { unfold get_remaining_us in Hrem. destruct (match ts with None => _ | Some _ => _ end) as [r0 e].
    injection Hrem as _ <-. by exists e. }
  destruct Hs1 as [e ->]. cbn [s_proc s_env set_env].
  destruct (match rem with Some us => _ | None => true end).
  - unfold on_proc, debug_timeslice_expired, map_debug. cbn [s_proc set_env].
    destruct (debug (s_proc s)) as [d|] eqn:Hd; [pose proof (Hroom d Hd); ck|cbn [obind]];
      (eexists _, _; split; [done|]; cbn; by split_and!).
  - destruct (continue_process board (process_id (s_proc s)) e) as [[] e'] eqn:Hc; cbn [negb].
    2: { eexists _, _; split; [done|]. cbn. by split_and!. }
    destruct (wf_inactive _ Hwf Hr) as [(qts & Ht & Hemp) _].
    assert (Hready : ready (s_proc s) = false).
    { destruct (wf_queue _ Hwf) as (q & Hq & Hu). rewrite Ht in Hq. injection Hq as <-.
      unfold ready, has_tasks. rewrite Ht. unfold is_running in Hr.
      rewrite has_elements_spec, Hemp by apply Hu. cbn. by destruct (state (s_proc s)). }
    cbn [s_proc set_env]. rewrite Hready. cbn [negb obind].
    eexists _, _; split; [done|]. cbn. by split_and!.
Qed.

Lemma inactive_process_not_run_witness :
  exists p rest k h, demo_create = Ret (Ok (p, rest), k, h) /\
  let s := demo_start (terminate None p) h k in
  exists reason s',
    do_process_loop 280 400 demo_fault demo_board 1 None s = Ret (Some reason, s') /\
    reason <> RStopped /\ s_runs s' = s_runs s /\ s_mem s' = s_mem s /\ s_hw s' = s_hw s /\
    same_memory (s_proc s) (s_proc s') /\ state (s_proc s') = state (s_proc s).
Proof.
  destruct demo_created as (p & rest & k & h & E & Hwf & _ & Hr & _).
  exists p, rest, k, h. split; [exact E|].
  assert (Hm : match demo_create with
      | Ret (Ok (q, _), _, _) => negb (is_running (terminate None q))
          && match debug (terminate None q) with
             | Some d => (0 <=? timeslice_expiration_count d) && (timeslice_expiration_count d <? U32 - 1)
             | None => true
             end
      | _ => true end = true) by (vm_compute; reflexivity).
  rewrite E in Hm. clear E. apply andb_true_iff in Hm as [H1 H2].
  apply (inactive_process_not_run 280 400 demo_fault demo_board 0 None (demo_start (terminate None p) h k)).
  - exact (proj1 (terminate_wf None p Hwf)).
  - by apply negb_true_iff.
  - intros d Hd. cbn [s_proc demo_start] in Hd. rewrite Hd in H2.
    apply andb_true_iff in H2 as [H3%Z.leb_le H4%Z.ltb_lt]. split; [exact H3|exact H4].
Defined.

(** Yield-WaitFor delivers exactly one event: the first pending task of the
    awaited upcall, whether or not a function is subscribed, leaves the queue and
    its three values are the reply; all other tasks stay pending in order, and
    with no such task the process keeps waiting with its queue as it was.  The
    unfinished branch for IPC tasks is never reached. *)
Theorem yield_wait_for_delivers {hw config stored E} {mpu : MPU hw config}
    {iso : MpuIsolation hw config} {ukb : UKB stored} CB PS
    (fault_action : process stored config -> FaultAction) id (s : @sys hw config stored E) :
  wf (s_proc s) ->
  exists p', same_memory (s_proc s) p' /\ state p' = state (s_proc s) /\ wf p' /\
  ((Forall (fun t => is_upcall id t = false) (pending (s_proc s)) /\
    run_yielded_for CB PS fault_action id s = Ret (Some NoWorkLeft, set_proc p' s) /\
    pending p' = pending (s_proc s)) \/
   (exists before t after a0 a1 a2,
    pending (s_proc s) = before ++ t :: after /\
    Forall (fun t => is_upcall id t = false) before /\
    ((exists pc a3, t = TFunctionCall (mkFunctionCall (SDriver id) a0 a1 a2 a3 pc)) \/
     t = TReturnValue (mkReturnArguments id a0 a1 a2)) /\
    pending p' = before ++ after /\
    run_yielded_for CB PS fault_action id s =
      (let! s := return_value CB PS fault_action (YieldWaitFor a0 a1 a2) (set_proc p' s) in
       Ret (None, s)))).
Proof.
  intros Hwf. destruct (remove_upcall_spec id (s_proc s) Hwf) as (ts & ts' & Ht & Hu & Hc & Hrun & Hwf').
  exists (set_tasks (Some ts') (s_proc s)). split; [by repeat split|]. split; [done|]. split; [done|].
  unfold run_yielded_for, pending. rewrite Hrun, Ht. cbn [obind tasks set_tasks].
  pose proof (remove_first_split (is_upcall id) (contents ts)) as Hsp.
  destruct (remove_first (is_upcall id) (contents ts)) as [ [t l]|] eqn:Hrf; cbn [fmap option_fmap option_map fst].
  - right. destruct Hsp as (l1 & l2 & E1 & E2 & Hm & Hall). rewrite Hc, E2.
    destruct t as [ [src a0 a1 a2 a3 pc]|[i a0 a1 a2]|from ty]; cbn in Hm; [| |done].
    + destruct src as [|i]; [done|]. apply bool_decide_eq_true in Hm as ->.
      exists l1, (TFunctionCall (mkFunctionCall (SDriver id) a0 a1 a2 a3 pc)), l2, a0, a1, a2.
      split_and!; try done. left. by exists pc, a3.
    + apply bool_decide_eq_true in Hm as ->.
      exists l1, (TReturnValue (mkReturnArguments id a0 a1 a2)), l2, a0, a1, a2.
      split_and!; try done. by right.
  - left. by rewrite Hc.
Qed.

Lemma yield_wait_for_delivers_witness :
  exists p rest k h, demo_create = Ret (Ok (p, rest), k, h) /\
  let s := demo_start p h k in let id := mkUpcallId 7 1 in
  exists p', same_memory p p' /\ state p' = state p /\ wf p' /\
  ((Forall (fun t => is_upcall id t = false) (pending p) /\
    run_yielded_for 280 400 demo_fault id s = Ret (Some NoWorkLeft, set_proc p' s) /\
    pending p' = pending p) \/
   (exists before t after a0 a1 a2,
    pending p = before ++ t :: after /\
    Forall (fun t => is_upcall id t = false) before /\
    ((exists pc a3, t = TFunctionCall (mkFunctionCall (SDriver id) a0 a1 a2 a3 pc)) \/
     t = TReturnValue (mkReturnArguments id a0 a1 a2)) /\
    pending p' = before ++ after /\
    run_yielded_for 280 400 demo_fault id s =
      (let! s := return_value 280 400 demo_fault (YieldWaitFor a0 a1 a2) (set_proc p' s) in
       Ret (None, s)))).
Proof.
  destruct demo_created as (p & rest & k & h & E & Hwf & _).
  exists p, rest, k, h. split; [exact E|]. clear E.
  apply (yield_wait_for_delivers 280 400 demo_fault (mkUpcallId 7 1) (demo_start p h k)). exact Hwf.
Defined.

(** An entry of the writeable flash regions in the header. *)
Lemma region_of_entry (l : list Z) n :
  (8 <= length l)%nat ->
  match Tbf.region_try_from (take (n + 8 - n) l) with
  | Ok wr => Ret (Tbf.wfr_offset wr, Tbf.wfr_size wr)
  | Err _ => Ret (0, 0)
  end = Ret (from_le_bytes (take 4 l), from_le_bytes (take 4 (drop 4 l))).
Proof.
  intros Hl. replace (n + 8 - n)%nat with 8%nat by lia.
  do 8 (destruct l as [|? l]; [cbn in Hl; lia|]). done.
Qed.

(** Memory operations 8 and 9 multiply the region number that the process
    passes without a bound check, so for a process whose header has a
    writeable-flash-regions entry the multiplication overflows from number
    2^29 - 1 on; below, a number names the region it should, or none. *)
Theorem memop_flash_region_overflow {hw config stored} {mpu : MPU hw config}
    (p : process stored config) (h : hw) hd bytes addrs i :
  header p = Tbf.HeaderV2 hd -> Tbf.writeable_regions hd = Some bytes ->
  get_addresses p = Ret addrs -> 0 <= i ->
  (2 ^ 29 - 1 <= i -> memop 8 i p h = Panic /\ memop 9 i p h = Panic) /\
  (i < 2 ^ 29 - 1 ->
     get_writeable_flash_region i p =
       Ret (if i <? number_writeable_flash_regions p
            then (from_le_bytes (take 4 (drop (8 * Z.to_nat i) bytes)),
                  from_le_bytes (take 4 (drop (8 * Z.to_nat i + 4) bytes)))
            else (0, 0))).
Proof.
  intros Hh Hw Hg Hi. unfold memop, number_writeable_flash_regions, get_writeable_flash_region.
  unfold Tbf.number_writeable_flash_regions, Tbf.get_writeable_flash_region.
  rewrite Hg, Hh, Hw. cbn [Z.eqb Pos.eqb obind]. split.
  - intros Hge. assert (Hpanic : (let! a := mul32 i 8 in let! i1 := add32 i 1 in mul32 i1 8) = Panic).
    { unfold mul32, add32. destruct (decide (2 ^ 29 <= i)).
      - assert (checked32 (i * 8) = Panic) as ->; [|done].
        apply checked32_Panic. unfold u32_range, U32. lia.
      - ck. ck. apply checked32_Panic. unfold u32_range, U32. lia. }
    destruct (mul32 i 8) as [x| |]; cbn [obind] in *; try done.
    destruct (add32 i 1) as [i1| |]; cbn [obind] in *; try done. by rewrite Hpanic.
  - intros Hlt. do 3 ck. unfold get.
    replace (Z.to_nat (i * 8)) with (8 * Z.to_nat i)%nat by lia.
    replace (Z.to_nat ((i + 1) * 8)) with (8 * Z.to_nat i + 8)%nat by lia.
    destruct (Nat.leb_spec (8 * Z.to_nat i) (8 * Z.to_nat i + 8)); [|lia].
    destruct (Nat.leb_spec (8 * Z.to_nat i + 8) (length bytes)) as [Hle|Hle]; cbn [andb].
    + assert ((i <? Z.of_nat (length bytes) / 8) = true) as ->.
      { apply Z.ltb_lt. apply Z.lt_le_trans with (i + 1); [lia|]. apply Z.div_le_lower_bound; lia. }
      rewrite region_of_entry by (rewrite length_drop; lia). by rewrite drop_drop.
    + assert ((i <? Z.of_nat (length bytes) / 8) = false) as ->; [|done].
      apply Z.ltb_ge. assert (Z.of_nat (length bytes) / 8 < i + 1); [|lia].
      apply Z.div_lt_upper_bound; lia.
Qed.

Definition demo_writer : process unit unit :=
  mkProcess (mkProcessId 3 0) 8192 4096 262144 16384
    (ProcSpec.demo_header (Some [0; 1; 0; 0; 0; 2; 0; 0]))
    (Some []) 12288 8192 8192 (Some tt) Running (Some tt) [] None 0 None None.

Lemma memop_flash_region_overflow_witness :
  (2 ^ 29 - 1 <= 2 ^ 29 ->
     memop 8 (2 ^ 29) demo_writer tt = Panic /\ memop 9 (2 ^ 29) demo_writer tt = Panic) /\
  get_writeable_flash_region 0 demo_writer = Ret (256, 512).
Proof.
  split; [|reflexivity].
  eapply (memop_flash_region_overflow demo_writer tt _ [0; 1; 0; 0; 0; 2; 0; 0]
    (mkAddresses 262144 278528 8192 12288 12288) (2 ^ 29));
    [reflexivity|reflexivity|reflexivity|discriminate].
Defined.

End KernSpec.
