(* ===== verification/Scheduler.v ===== *)
(** The schedulers ([kernel/src/scheduler/]): round robin, cooperative, priority
    and multi-level feedback queue.

    A queue of process nodes is the list of their slots in the process array; the
    intrusive lists that hold them are verified in [LinkedList].  The process
    array is a list of optional processes. *)

From stdpp Require Import base numbers list gmap.
From S2P Require Import Prelude RingBuffer Mpu Syscall Process Kernel.
Import Ring Mpu Syscall Proc Kern.
Local Open Scope Z_scope.

Module Sched.

Inductive SchedulingDecision :=
  | RunProcess (processid : ProcessId) (timeslice_us : option Z)
  | TrySleep.

(** [self.processes.push_tail(self.processes.pop_head().unwrap())] *)
Definition rotate (queue : list nat) : outcome (list nat) :=
  match queue with
  | [] => Panic
  | n :: queue => Ret (queue ++ [n])
  end.

Section schedulers.
  Context {config stored : Type}.
  Context (procs : list (option (process stored config))).

(** The process in a node's slot, and whether it is there and ready. *)
Definition proc_at (slot : nat) : option (process stored config) := mjoin (procs !! slot).
Definition ready_at (slot : nat) : bool :=
  match proc_at slot with Some p => ready p | None => false end.

(** * Round robin and cooperative *)

Inductive search := Found (processid : ProcessId) | FullTurn | NoNode.

(** The [while let] loop that both schedulers begin with. *)
Fixpoint next_ready (fuel : nat) (first_head : option nat) (queue : list nat)
    : outcome (search * list nat) :=
  match fuel with
  | O => Diverge
  | S fuel =>
    match queue with
    | [] => Ret (NoNode, queue)
    | node :: _ =>
      if bool_decide (first_head = Some node) then Ret (FullTurn, queue)
      else
        let first_head := match first_head with None => Some node | Some f => Some f end in
        match proc_at node with
        | Some proc =>
          if ready proc then Ret (Found (process_id proc), queue)
          else let! queue := rotate queue in next_ready fuel first_head queue
        | None => let! queue := rotate queue in next_ready fuel first_head queue
        end
    end
  end.

Record RoundRobinSched := mkRoundRobin {
  time_remaining : Z;
  timeslice_length : Z;
  rr_processes : list nat;
  last_rescheduled : bool;
}.

Definition DEFAULT_TIMESLICE_US : Z := 10000.
Definition rr_new_with_time (time_us : Z) : RoundRobinSched := mkRoundRobin time_us time_us [] false.
Definition rr_new : RoundRobinSched := rr_new_with_time DEFAULT_TIMESLICE_US.

Definition rr_next (fuel : nat) (s : RoundRobinSched)
    : outcome (SchedulingDecision * RoundRobinSched) :=
  let! '(r, queue) := next_ready fuel None (rr_processes s) in
  let s := mkRoundRobin (time_remaining s) (timeslice_length s) queue (last_rescheduled s) in
  match r with
  | FullTurn | NoNode => Ret (TrySleep, s)
  | Found next =>
    let '(timeslice, s) :=
      if last_rescheduled s then (time_remaining s, s)
      else (timeslice_length s,
            mkRoundRobin (timeslice_length s) (timeslice_length s) (rr_processes s)
              (last_rescheduled s)) in
    if timeslice =? 0 then Panic else Ret (RunProcess next (Some timeslice), s)
  end.

Definition rr_result (result : StoppedExecutingReason) (execution_time_us : option Z)
    (s : RoundRobinSched) : outcome RoundRobinSched :=
  let! execution_time_us := of_option execution_time_us in
  let! '(reschedule, s) :=
    match result with
    | KernelPreemption =>
      if execution_time_us <? time_remaining s then
        let! t := sub32 (time_remaining s) execution_time_us in
        Ret (true, mkRoundRobin t (timeslice_length s) (rr_processes s) (last_rescheduled s))
      else Ret (false, s)
    | _ => Ret (false, s)
    end in
  let! queue := (if reschedule : bool then Ret (rr_processes s) else rotate (rr_processes s)) in
  Ret (mkRoundRobin (time_remaining s) (timeslice_length s) queue reschedule).

(** The cooperative scheduler: its queue. *)
Definition coop_next (fuel : nat) (queue : list nat) : outcome (SchedulingDecision * list nat) :=
  let! '(r, queue) := next_ready fuel None queue in
  match r with
  | FullTurn => Ret (TrySleep, queue)
  | NoNode => Panic
  | Found next => Ret (RunProcess next None, queue)
  end.

Definition coop_result (result : StoppedExecutingReason) (queue : list nat) : outcome (list nat) :=
  match result with KernelPreemption => Ret queue | _ => rotate queue end.

(** * Priority *)

(** [kernel.get_process_iter().find(|proc| proc.ready())] *)
Definition first_ready : option (process stored config) :=
  List.find (fun p => ready p) (omap (fun x => x) procs).

(** The state is [running]. *)
Definition prio_next : SchedulingDecision * option ProcessId :=
  let next := process_id <$> first_ready in
  (match next with None => TrySleep | Some next => RunProcess next None end, next).

Definition prio_new : option ProcessId := None.
Definition prio_result (result : StoppedExecutingReason) (execution_time_us : option Z)
    (running : option ProcessId) : option ProcessId := None.

Definition prio_continue_process (running : option ProcessId) (has_pending_interrupts has_tasks : bool)
    : bool :=
  negb (has_pending_interrupts || has_tasks ||
    match first_ready with
    | None => false
    | Some ready_proc =>
      match running with
      | None => false
      | Some running => pindex (process_id ready_proc) <? pindex running
      end
    end).

(** * Multi-level feedback queue *)

Record MLFQSched := mkMLFQ {
  mf_processes : list (list nat);
  (** [MfProcState] of each node. *)
  us_used_this_queue : nat -> Z;
  next_reset : Z;
  last_reset_check : Z;
  last_timeslice : Z;
  last_queue_idx : nat;
}.

Definition NUM_QUEUES : nat := 3.
Definition mlfq_new : MLFQSched := mkMLFQ [[]; []; []] (fun _ => 0) 0 0 0 0.

Definition get_timeslice_us (queue_idx : nat) : outcome Z :=
  match queue_idx with
  | 0%nat => Ret 10000
  | 1%nat => Ret 20000
  | 2%nat => Ret 50000
  | _ => Panic
  end.

(** [redeem_all_procs]: for each queue but the first. *)
Definition redeem_all_procs (queues : list (list nat)) : list (list nat) :=
  match queues with
  | [] => []
  | q0 :: rest =>
    let '(q0, rest) :=
      foldl (fun '(q0, done) queue =>
        match queue with
        | proc :: queue => (q0 ++ [proc], done ++ [queue])
        | [] => (q0, done ++ [[]])
        end) (q0, []) rest in
    q0 :: rest
  end.

(** The inner loop of [get_next_ready_process_node]. *)
Fixpoint pop_until (fuel : nat) (next : nat) (queue : list nat) : outcome (list nat) :=
  match fuel with
  | O => Diverge
  | S fuel =>
    match queue with
    | [] => pop_until fuel next queue
    | node :: rest => if Nat.eqb node next then Ret queue else pop_until fuel next (rest ++ [node])
    end
  end.

Fixpoint get_next_ready_process_node (fuel idx : nat) (queues : list (list nat))
    : outcome (option (nat * nat) * list (list nat)) :=
  match queues with
  | [] => Ret (None, [])
  | queue :: queues =>
    match List.find ready_at queue with
    | Some next =>
      let! queue := pop_until fuel next queue in
      Ret (Some (next, idx), queue :: queues)
    | None =>
      let! '(r, queues) := get_next_ready_process_node fuel (S idx) queues in
      Ret (r, queue :: queues)
    end
  end.

Definition within_range (now start end_ : Z) : bool :=
  wrapping_sub32 now start <? wrapping_sub32 end_ start.

Definition mlfq_next (fuel : nat) (now refresh_ticks : Z) (s : MLFQSched)
    : outcome (SchedulingDecision * MLFQSched) :=
  let s :=
    if negb (within_range now (last_reset_check s) (next_reset s)) then
      mkMLFQ (redeem_all_procs (mf_processes s)) (us_used_this_queue s)
        (wrapping_add32 now refresh_ticks) (last_reset_check s) (last_timeslice s) (last_queue_idx s)
    else s in
  let! '(r, queues) := get_next_ready_process_node fuel 0 (mf_processes s) in
  let s := mkMLFQ queues (us_used_this_queue s) (next_reset s) now (last_timeslice s)
             (last_queue_idx s) in
  match r with
  | None => Ret (TrySleep, s)
  | Some (node, queue_idx) =>
    let! q := get_timeslice_us queue_idx in
    let! timeslice := sub32 q (us_used_this_queue s node) in
    let! p := of_option (proc_at node) in
    Ret (RunProcess (process_id p) (Some timeslice),
         mkMLFQ (mf_processes s) (us_used_this_queue s) (next_reset s) (last_reset_check s)
           timeslice queue_idx)
  end.

Definition set_used (node : nat) (v : Z) (f : nat -> Z) : nat -> Z :=
  fun n => if Nat.eqb n node then v else f n.

Definition mlfq_result (result : StoppedExecutingReason) (execution_time_us : option Z)
    (s : MLFQSched) : outcome MLFQSched :=
  let! execution_time_us := of_option execution_time_us in
  let queue_idx := last_queue_idx s in
  let! queue := index (mf_processes s) queue_idx in
  let! node := of_option (List.hd_error queue) in
  let! left := sub32 (last_timeslice s) execution_time_us in
  let used := set_used node left (us_used_this_queue s) in
  let punish := bool_decide (result = TimesliceExpired) in
  let used := if punish then set_used node 0 used else used in
  let next_queue :=
    if punish then (if Nat.eqb queue_idx (NUM_QUEUES - 1) then queue_idx else S queue_idx)
    else queue_idx in
  let! queues := set_index (mf_processes s) queue_idx (List.tl queue) in
  let! target := index queues next_queue in
  let! queues := set_index queues next_queue (target ++ [node]) in
  Ret (mkMLFQ queues used (next_reset s) (last_reset_check s) (last_timeslice s) (last_queue_idx s)).

End schedulers.
End Sched.
