(* ===== verification/SchedulerSpec.v ===== *)
(** Correctness of the schedulers: which process each one picks, fairness of the
    round robin, strictness of the priorities, and what the feedback queue does
    to timeslices and priorities. *)

From stdpp Require Import base numbers list gmap.
From S2P Require Import Prelude RingBuffer Mpu Syscall Tbf Process Kernel Scheduler.
Import Ring Mpu Syscall Proc Kern Sched.
Local Open Scope Z_scope.

Module SchedSpec.

(** * The search for a ready process *)

Section search.
  Context {config stored : Type}.
  Context (procs : list (option (process stored config))).
  Notation idle := (fun n => ready_at procs n = false).

Lemma not_ready_rotates fuel f node queue :
  ready_at procs node = false -> f <> Some node ->
  next_ready procs (S fuel) f (node :: queue) =
    next_ready procs fuel (match f with None => Some node | Some x => Some x end) (queue ++ [node]).
Proof using.
  intros Hr Hf. cbn [next_ready]. rewrite bool_decide_false by done. unfold ready_at in Hr.
  destruct (proc_at procs node) as [p|]; [rewrite Hr|]; done.
Qed.

Lemma ready_found fuel f node queue :
  ready_at procs node = true -> f <> Some node ->
  exists p, proc_at procs node = Some p /\ ready p = true /\
    next_ready procs (S fuel) f (node :: queue) = Ret (Found (process_id p), node :: queue).
Proof using.
  intros Hr Hf. cbn [next_ready]. rewrite bool_decide_false by done. unfold ready_at in Hr.
  destruct (proc_at procs node) as [p|]; [|done]. exists p. by rewrite Hr.
Qed.

(** The rest of the turn, once [f] and [vis] were found idle. *)
Lemma next_ready_turn fuel f vis rest :
  NoDup (rest ++ f :: vis) -> (length rest < fuel)%nat ->
  (exists r1 n p r2, rest = r1 ++ n :: r2 /\ Forall idle r1 /\
     proc_at procs n = Some p /\ ready p = true /\
     next_ready procs fuel (Some f) (rest ++ f :: vis)
       = Ret (Found (process_id p), n :: r2 ++ f :: vis ++ r1)) \/
  (Forall idle rest /\
   next_ready procs fuel (Some f) (rest ++ f :: vis) = Ret (FullTurn, f :: vis ++ rest)).
Proof using.
  revert fuel vis. induction rest as [|x rest IH]; intros fuel vis Hnd Hfuel.
  { right. split; [constructor|]. destruct fuel as [|fuel]; [cbn in Hfuel; lia|]. cbn [next_ready app].
    rewrite bool_decide_true, app_nil_r by done. done. }
  destruct fuel as [|fuel]; [cbn in Hfuel; lia|]. cbn [app length] in *.
  assert (Hx : Some f <> Some x).
  { intros [= ->]. apply NoDup_cons in Hnd as [Hx _]. apply Hx. set_solver. }
  destruct (ready_at procs x) eqn:Hrx.
  - destruct (ready_found fuel (Some f) x (rest ++ f :: vis) Hrx Hx) as (p & Hp & Hr & ->).
    left. exists [], x, p, rest. rewrite app_nil_r. by split_and!.
  - rewrite not_ready_rotates by done. rewrite <- app_assoc. cbn [app].
    assert (Hnd' : NoDup (rest ++ f :: vis ++ [x])).
    { apply NoDup_cons in Hnd as [Hxin Hnd]. replace (rest ++ f :: vis ++ [x])
        with ((rest ++ f :: vis) ++ [x]) by (by rewrite <- app_assoc).
      apply NoDup_app. split; [done|]. split; [set_solver|apply NoDup_singleton]. }
    destruct (IH fuel (vis ++ [x]) Hnd' ltac:(lia))
      as [(r1 & n & p & r2 & -> & Hall & Hp & Hr & ->)|[Hall ->] ].
    + left. exists (x :: r1), n, p, r2. rewrite <- app_assoc. split_and!; try done. by constructor.
    + right. rewrite <- app_assoc. split; [by constructor|done].
Qed.

(** One turn of the queue finds the first ready process and moves the idle ones
    before it to the back; without a ready process the queue ends as it was. *)
Lemma next_ready_spec fuel queue :
  NoDup queue -> (length queue < fuel)%nat ->
  (exists q1 n p q2, queue = q1 ++ n :: q2 /\ Forall idle q1 /\
     proc_at procs n = Some p /\ ready p = true /\
     next_ready procs fuel None queue = Ret (Found (process_id p), n :: q2 ++ q1)) \/
  (Forall idle queue /\ next_ready procs fuel None queue
     = Ret (match queue with [] => NoNode | _ => FullTurn end, queue)).
Proof using.
  intros Hnd Hfuel. destruct fuel as [|fuel]; [lia|].
  destruct queue as [|x queue]; [by right|].
  destruct (ready_at procs x) eqn:Hrx.
  - destruct (ready_found fuel None x queue Hrx) as (p & Hp & Hr & ->); [done|].
    left. exists [], x, p, queue. rewrite app_nil_r. by split_and!.
  - rewrite not_ready_rotates by done. cbn [length] in Hfuel.
    destruct (next_ready_turn fuel x [] queue) as [(r1 & n & p & r2 & -> & Hall & Hp & Hr & ->)|[Hall ->] ].
    + apply NoDup_cons in Hnd as [Hx Hnd]. apply NoDup_app. split; [done|].
      split; [set_solver|apply NoDup_singleton].
    + lia.
    + left. exists (x :: r1), n, p, r2. split_and!; try done. by constructor.
    + right. split; [by constructor|done].
Qed.

End search.

(** * Round robin *)

Record rr_ok (s : RoundRobinSched) : Prop := mkRrOk {
  rr_nodup : NoDup (rr_processes s);
  rr_length : 0 < timeslice_length s < U32;
  rr_time : 0 <= time_remaining s < U32;
  rr_left : last_rescheduled s = true -> 0 < time_remaining s;
}.

Section rounds.
  Context {config stored : Type}.

(** One decision of the scheduler and its report, with the process array and the
    outcome of the run at that time. *)
Record round := mkRound {
  rd_procs : list (option (process stored config));
  rd_reason : StoppedExecutingReason;
  rd_time : Z;
}.

Definition rr_round (rd : round) (s : RoundRobinSched)
    : outcome (option ProcessId * RoundRobinSched) :=
  let! '(d, s) := rr_next (rd_procs rd) (S (length (rr_processes s))) s in
  match d with
  | TrySleep => Ret (None, s)
  | RunProcess pid _ =>
    let! s := rr_result (rd_reason rd) (Some (rd_time rd)) s in Ret (Some pid, s)
  end.

Fixpoint rr_rounds (rds : list round) (s : RoundRobinSched)
    : outcome (list (option ProcessId) * RoundRobinSched) :=
  match rds with
  | [] => Ret ([], s)
  | rd :: rds =>
    let! '(c, s) := rr_round rd s in
    let! '(cs, s) := rr_rounds rds s in
    Ret (c :: cs, s)
  end.

(** The process [pid] in slot [m] is ready in a round. *)
Definition wants (m : nat) (pid : ProcessId) (rd : round) : Prop :=
  0 <= rd_time rd < U32 /\
  exists p, proc_at (rd_procs rd) m = Some p /\ ready p = true /\ process_id p = pid.
Definition completed (rd : round) : bool := negb (bool_decide (rd_reason rd = KernelPreemption)).

(** The decision: the first ready process of the queue, with a fresh timeslice
    or what was left of the last one. *)
Lemma rr_next_spec (procs : list (option (process stored config))) s :
  rr_ok s ->
  let ts := if last_rescheduled s then time_remaining s else timeslice_length s in
  (exists q1 n p q2, rr_processes s = q1 ++ n :: q2 /\
     Forall (fun n => ready_at procs n = false) q1 /\
     proc_at procs n = Some p /\ ready p = true /\ 0 < ts < U32 /\
     rr_next procs (S (length (rr_processes s))) s =
       Ret (RunProcess (process_id p) (Some ts),
            mkRoundRobin ts (timeslice_length s) (n :: q2 ++ q1) (last_rescheduled s))) \/
  (Forall (fun n => ready_at procs n = false) (rr_processes s) /\
   rr_next procs (S (length (rr_processes s))) s = Ret (TrySleep, s)).
Proof using.
  intros [Hnd Hlen Htime Hleft] ts. unfold rr_next.
  assert (Hts : 0 < ts < U32).
  { unfold ts. destruct (last_rescheduled s); [specialize (Hleft eq_refl)|]; lia. }
  destruct (next_ready_spec procs (S (length (rr_processes s))) (rr_processes s) Hnd ltac:(lia))
    as [(q1 & n & p & q2 & Hq & Hidle & Hp & Hr & ->)|[Hidle ->] ]; cbn [obind].
  - left. exists q1, n, p, q2. split_and!; try done; try lia.
    cbn [last_rescheduled time_remaining timeslice_length rr_processes].
    unfold ts in *. destruct (last_rescheduled s).
    + destruct (Z.eqb_spec (time_remaining s) 0); [lia|done].
    + destruct (Z.eqb_spec (timeslice_length s) 0); [lia|done].
  - right. split; [done|]. destruct (rr_processes s) eqn:Hq; destruct s; cbn in *; by subst.
Qed.

(** The report: with time left after a kernel preemption the process stays at the
    front, otherwise it goes to the back. *)
Lemma rr_result_spec reason t ts len n queue b :
  0 <= t < U32 -> 0 < ts < U32 ->
  rr_result reason (Some t) (mkRoundRobin ts len (n :: queue) b) =
    Ret (if bool_decide (reason = KernelPreemption) && (t <? ts)
         then mkRoundRobin (ts - t) len (n :: queue) true
         else mkRoundRobin ts len (queue ++ [n]) false).
Proof using.
  intros Ht Hts. unfold rr_result. cbn [of_option obind time_remaining].
  destruct reason; try done. rewrite bool_decide_true by done. cbn [andb].
  destruct (Z.ltb_spec t ts); [ck|]; done.
Qed.

(** In each round a process that wants to run is picked or moves forward. *)
Lemma rr_round_spec rd s m pid k :
  rr_ok s -> rr_processes s !! k = Some m -> wants m pid rd ->
  exists c s', rr_round rd s = Ret (Some c, s') /\ rr_ok s' /\
    exists k', rr_processes s' !! k' = Some m /\
      (c = pid \/ (k' <= k)%nat /\ (completed rd = true -> (k' < k)%nat)).
Proof using.
  intros Hok Hk (Ht & pm & Hpm & Hrm & Hid). unfold rr_round.
  destruct (rr_next_spec (rd_procs rd) s Hok)
    as [(q1 & n & p & q2 & Hq & Hidle & Hp & Hr & Hts & ->)|[Hidle _] ].
  2: { pose proof (Forall_lookup_1 _ _ _ _ Hidle Hk) as Hf. cbn in Hf.
       unfold ready_at in Hf. rewrite Hpm, Hrm in Hf. done. }
  set (ts := if last_rescheduled s then _ else _) in *. cbn [obind].
  rewrite rr_result_spec by done. cbn [obind].
  assert (Hk1 : (length q1 <= k)%nat).
  { destruct (decide (length q1 <= k)%nat) as [|Hlt]; [done|].
    rewrite Hq, lookup_app_l in Hk by lia. pose proof (Forall_lookup_1 _ _ _ _ Hidle Hk) as Hf.
    cbn in Hf. unfold ready_at in Hf. by rewrite Hpm, Hrm in Hf. }
  rewrite Hq, lookup_app_r in Hk by done.
  destruct Hok as [Hnd Hlen Htime Hleft]. rewrite Hq in Hnd.
  assert (Hnd1 : NoDup (n :: q2 ++ q1)) by (by rewrite Permutation_app_comm in Hnd).
  eexists (process_id p), _. split; [done|].
  destruct (bool_decide (rd_reason rd = KernelPreemption) && (rd_time rd <? ts)) eqn:Hpre.
  - apply andb_true_iff in Hpre as [Hke Hlt%Z.ltb_lt].
    split; [split; cbn; [done|done|lia|lia]|]. cbn [rr_processes].
    exists (k - length q1)%nat. split.
    + rewrite app_comm_cons, lookup_app_l; [done|]. by apply lookup_lt_Some in Hk.
    + right. split; [lia|]. unfold completed. by rewrite Hke.
  - assert (Hnd2 : NoDup ((q2 ++ q1) ++ [n])) by (by rewrite Permutation_app_comm).
    split; [split; cbn; [done|done|lia|done]|]. cbn [rr_processes].
    destruct (k - length q1)%nat as [|j] eqn:Hj; cbn in Hk.
    + injection Hk as <-. exists (length (q2 ++ q1)). split.
      * rewrite lookup_app_r, Nat.sub_diag by lia. done.
      * left. congruence.
    + exists j. split.
      * rewrite <- app_assoc, lookup_app_l; [done|]. by apply lookup_lt_Some in Hk.
      * right. lia.
Qed.

(** With [m] ready throughout, every sequence of rounds returns. *)
Lemma rr_rounds_return rds s m pid k :
  rr_ok s -> rr_processes s !! k = Some m -> Forall (wants m pid) rds ->
  exists cs s', rr_rounds rds s = Ret (cs, s') /\ rr_ok s' /\
    ((k < length (List.filter completed rds))%nat -> Some pid ∈ cs).
Proof using.
  revert s k. induction rds as [|rd rds IH]; intros s k Hok Hk Hw.
  { exists [], s. split; [done|]. split; [done|]. cbn. lia. }
  apply Forall_cons in Hw as [Hw1 Hw]. cbn [rr_rounds].
  destruct (rr_round_spec rd s m pid k Hok Hk Hw1) as (c & s1 & -> & Hok1 & k1 & Hk1 & Hprog).
  cbn [obind]. destruct (IH s1 k1 Hok1 Hk1 Hw) as (cs & s2 & -> & Hok2 & Hin). cbn [obind].
  exists (Some c :: cs), s2. split; [done|]. split; [done|]. cbn [List.filter].
  destruct Hprog as [->|[Hle Hlt]]; [set_solver|].
  destruct (completed rd); cbn; intros Hcnt.
  - apply elem_of_cons. right. apply Hin. specialize (Hlt eq_refl). lia.
  - apply elem_of_cons. right. apply Hin. lia.
Qed.

End rounds.
Arguments round : clear implicits.

(** C38: the round robin is fair.  Whatever the other processes do, a process that
    stays ready at position [k] of the queue is picked before [k + 1] runs have
    been completed (run to the end of their timeslice, or out of work); a run
    that the kernel preempts with time left is resumed first.  No decision
    panics. *)
Theorem round_robin_fair {config stored} (rds : list (round config stored)) s m pid k :
  rr_ok s -> rr_processes s !! k = Some m -> Forall (wants m pid) rds ->
  (k < length (List.filter completed rds))%nat ->
  exists cs s', rr_rounds rds s = Ret (cs, s') /\ rr_ok s' /\ Some pid ∈ cs.
Proof.
  intros Hok Hk Hw Hcnt. destruct (rr_rounds_return rds s m pid k Hok Hk Hw) as (cs & s' & E & Hok' & Hin).
  exists cs, s'. split_and!; auto.
Qed.

Definition demo_ready (id : Z) : process unit unit :=
  mkProcess (mkProcessId id 0) 0 0 0 0 (Tbf.Padding (Tbf.mkBase 2 16 16 0 0)) None 0 0 0 None Running None []
    None 0 None None.
Definition demo_round : round unit unit :=
  mkRound [Some (demo_ready 5); None; Some (demo_ready 6)] NoWorkLeft 300.

Lemma round_robin_fair_witness :
  exists cs s', rr_rounds [demo_round; demo_round; demo_round]
      (mkRoundRobin 10000 10000 [0; 1; 2]%nat false) = Ret (cs, s') /\ rr_ok s' /\
    Some (mkProcessId 6 0) ∈ cs.
Proof.
  apply (round_robin_fair [demo_round; demo_round; demo_round]
    (mkRoundRobin 10000 10000 [0; 1; 2]%nat false) 2 (mkProcessId 6 0) 2).
  - split; [cbn; apply (bool_decide_unpack _); vm_compute; exact I|done|done|discriminate].
  - reflexivity.
  - repeat apply Forall_cons_2; try apply Forall_nil_2;
      (split; [done|]; exists (demo_ready 6); repeat split).
  - apply Nat.ltb_lt. reflexivity.
Defined.

(** The cooperative scheduler picks the first ready process of its queue, runs
    it without a timeslice and moves the idle ones before it to the back; with no
    ready process it asks to sleep and leaves the queue alone.  With no process
    node at all it panics. *)
Theorem cooperative_next {config stored} (procs : list (option (process stored config))) queue :
  NoDup queue ->
  (queue = [] -> coop_next procs (S (length queue)) queue = Panic) /\
  (queue <> [] -> Forall (fun n => ready_at procs n = false) queue ->
     coop_next procs (S (length queue)) queue = Ret (TrySleep, queue)) /\
  (~ Forall (fun n => ready_at procs n = false) queue ->
     exists q1 n p q2, queue = q1 ++ n :: q2 /\
       Forall (fun n => ready_at procs n = false) q1 /\
       proc_at procs n = Some p /\ ready p = true /\
       coop_next procs (S (length queue)) queue = Ret (RunProcess (process_id p) None, n :: q2 ++ q1)).
Proof.
  intros Hnd. split; [by intros ->|]. unfold coop_next.
  destruct (next_ready_spec procs (S (length queue)) queue Hnd ltac:(lia))
    as [(q1 & n & p & q2 & Hq & Hidle & Hp & Hr & ->)|[Hidle ->] ]; cbn [obind]; split.
  - intros _ Hall. rewrite Hq, Forall_app, Forall_cons in Hall. destruct Hall as (_ & Hn & _).
    unfold ready_at in Hn. by rewrite Hp, Hr in Hn.
  - intros _. by exists q1, n, p, q2.
  - intros Hne _. by destruct queue.
  - done.
Qed.

Lemma cooperative_next_witness :
  coop_next (rd_procs demo_round) 1 [] = Panic /\
  exists q1 n p q2, [1; 2; 0]%nat = q1 ++ n :: q2 /\
    Forall (fun n => ready_at (rd_procs demo_round) n = false) q1 /\
    proc_at (rd_procs demo_round) n = Some p /\ ready p = true /\
    coop_next (rd_procs demo_round) 4 [1; 2; 0]%nat = Ret (RunProcess (process_id p) None, n :: q2 ++ q1).
Proof.
  split.
  - apply (cooperative_next (rd_procs demo_round) []); [apply NoDup_nil_2|reflexivity].
  - apply (cooperative_next (rd_procs demo_round) [1; 2; 0]%nat).
    + apply (bool_decide_unpack _); vm_compute; exact I.
    + intros H. apply Forall_cons in H as [_ H]. apply Forall_cons in H as [H _]. discriminate H.
Defined.

(** * Priority *)

(** Process identifiers carry the position in the process array. *)
Definition indices_ok {config stored} (procs : list (option (process stored config))) : Prop :=
  forall i p, procs !! i = Some (Some p) -> pindex (process_id p) = Z.of_nat i.

Lemma first_ready_spec {config stored} (procs : list (option (process stored config))) :
  match first_ready procs with
  | Some p => ready p = true /\ exists i, procs !! i = Some (Some p) /\
      forall j q, (j < i)%nat -> procs !! j = Some (Some q) -> ready q = false
  | None => forall j q, procs !! j = Some (Some q) -> ready q = false
  end.
Proof.
  unfold first_ready. induction procs as [|o procs IH]; cbn; [done|].
  destruct o as [p|]; cbn.
  - destruct (ready p) eqn:Hr.
    + split; [done|]. exists 0%nat. split; [done|]. intros j q Hj. lia.
    + destruct (List.find _ _) as [q|].
      * destruct IH as (Hq & i & Hi & Hlow). split; [done|]. exists (S i). split; [done|].
        intros [|j] q' Hj Hlk; cbn in Hlk; [by simplify_eq|]. apply (Hlow j); [lia|done].
      * intros [|j] q' Hlk; cbn in Hlk; [by simplify_eq|]. by apply (IH j).
  - destruct (List.find _ _) as [q|].
    + destruct IH as (Hq & i & Hi & Hlow). split; [done|]. exists (S i). split; [done|].
      intros [|j] q' Hj Hlk; cbn in Hlk; [done|]. apply (Hlow j); [lia|done].
    + intros [|j] q' Hlk; cbn in Hlk; [done|]. by apply (IH j).
Qed.

(** The priority scheduler is strict.  It runs a ready process such that no
    process before it in the process array is ready, and sleeps only when no
    process is ready; a running process may continue exactly when there is no
    kernel work and no process before it in the array has become ready. *)
Theorem priority_strict {config stored} (procs : list (option (process stored config)))
    interrupts deferred :
  indices_ok procs ->
  match prio_next procs with
  | (RunProcess pid ts, running) => ts = None /\ running = Some pid /\
      exists i p, procs !! i = Some (Some p) /\ process_id p = pid /\ ready p = true /\
        forall j q, (j < i)%nat -> procs !! j = Some (Some q) -> ready q = false
  | (TrySleep, running) => running = None /\
      forall j q, procs !! j = Some (Some q) -> ready q = false
  end /\
  forall running,
    prio_continue_process procs (Some running) interrupts deferred = true <->
    interrupts = false /\ deferred = false /\
    forall j q, Z.of_nat j < pindex running -> procs !! j = Some (Some q) -> ready q = false.
Proof.
  intros Hidx. pose proof (first_ready_spec procs) as Hf.
  unfold prio_next, prio_continue_process. split.
  - destruct (first_ready procs) as [p|]; cbn; [|done].
    destruct Hf as (Hr & i & Hi & Hlow). split; [done|]. split; [done|]. by exists i, p.
  - intros running. rewrite negb_true_iff, !orb_false_iff.
    destruct (first_ready procs) as [p|]; [|naive_solver].
    destruct Hf as (Hr & i & Hi & Hlow). rewrite (Hidx i p Hi), Z.ltb_ge. split.
    + intros [ [? ?] Hge]. split_and!; try done. intros j q Hj. apply Hlow. lia.
    + intros (? & ? & Hnone). split_and!; try done.
      destruct (Z.le_gt_cases (pindex running) (Z.of_nat i)) as [|Hlt]; [done|].
      by rewrite (Hnone i p Hlt Hi) in Hr.
Qed.

Definition demo_table : list (option (process unit unit)) :=
  [None; Some (set_process_id (mkProcessId 5 1) (demo_ready 5))].

Lemma priority_strict_witness :
  match prio_next demo_table with
  | (RunProcess pid ts, running) => ts = None /\ running = Some pid /\
      exists i p, demo_table !! i = Some (Some p) /\ process_id p = pid /\ ready p = true /\
        forall j q, (j < i)%nat -> demo_table !! j = Some (Some q) -> ready q = false
  | (TrySleep, running) => running = None /\
      forall j q, demo_table !! j = Some (Some q) -> ready q = false
  end /\
  forall running,
    prio_continue_process demo_table (Some running) false false = true <->
    false = false /\ false = false /\
    forall j q, Z.of_nat j < pindex running -> demo_table !! j = Some (Some q) -> ready q = false.
Proof.
  apply (priority_strict demo_table false false).
  intros [|[|i] ] p Hp; cbn in Hp; [discriminate Hp|injection Hp as <-; reflexivity|discriminate Hp].
Defined.

(** * Multi-level feedback queue *)

(** The feedback queue turns the time a process used around: a process that
    runs for [t] of its 10 ms and stops for another reason than the end of the
    timeslice is offered [t], not the rest of its 10 ms, when it is next picked
    from the same queue. *)
Theorem mlfq_timeslice_inverted {config stored} (procs : list (option (process stored config)))
    n p t reason now1 now2 refresh s fuel :
  proc_at procs n = Some p -> ready p = true -> (0 < fuel)%nat ->
  mf_processes s = [[n]; []; []] -> us_used_this_queue s n = 0 ->
  0 <= t <= 10000 -> reason <> TimesliceExpired ->
  exists s1 s2 s3,
    mlfq_next procs fuel now1 refresh s = Ret (RunProcess (process_id p) (Some 10000), s1) /\
    mlfq_result reason (Some t) s1 = Ret s2 /\
    mlfq_next procs fuel now2 refresh s2 = Ret (RunProcess (process_id p) (Some t), s3).
Proof.
  intros Hp Hr Hfuel Hq Hused Ht Hreason. destruct fuel as [|fuel]; [lia|].
  assert (Hat : ready_at procs n = true) by (unfold ready_at; by rewrite Hp).
  assert (Hnext : forall now st, mf_processes st = [[n]; []; []] ->
    0 <= us_used_this_queue st n <= 10000 ->
    exists st', mlfq_next procs (S fuel) now refresh st
        = Ret (RunProcess (process_id p) (Some (10000 - us_used_this_queue st n)), st') /\
      mf_processes st' = [[n]; []; []] /\ us_used_this_queue st' = us_used_this_queue st /\
      last_timeslice st' = 10000 - us_used_this_queue st n /\ last_queue_idx st' = 0%nat).
  { intros now st Hst Hu. unfold mlfq_next.
    destruct (negb (within_range now (last_reset_check st) (next_reset st)));
      cbn [mf_processes us_used_this_queue]; rewrite Hst;
      cbn [redeem_all_procs foldl app get_next_ready_process_node List.find]; rewrite Hat;
      cbn [pop_until]; rewrite Nat.eqb_refl;
      cbn [obind get_timeslice_us mf_processes us_used_this_queue]; ck; rewrite Hp;
      cbn [of_option obind]; eexists; by split_and!. }
  destruct (Hnext now1 s Hq ltac:(lia)) as (s1 & -> & Hq1 & Hu1 & Hts1 & Hi1).
  rewrite Hused in *. change (10000 - 0) with 10000 in *.
  set (s2 := mkMLFQ [[n]; []; []] (set_used n (10000 - t) (us_used_this_queue s1)) (next_reset s1)
    (last_reset_check s1) 10000 0).
  assert (E2 : mlfq_result reason (Some t) s1 = Ret s2).
  { unfold mlfq_result. cbn [of_option obind]. rewrite Hi1, Hq1, Hts1.
    change (index [[n]; []; []] 0) with (Ret [n]). cbn [obind List.hd_error of_option]. ck.
    by rewrite bool_decide_false. }
  assert (Hu2 : us_used_this_queue s2 n = 10000 - t) by (cbn; unfold set_used; by rewrite Nat.eqb_refl).
  destruct (Hnext now2 s2 eq_refl ltac:(lia)) as (s3 & E3 & _).
  exists s1, s2, s3. split; [done|]. split; [done|]. rewrite E3, Hu2. repeat f_equal. lia.
Qed.

(** A process that used a tenth of its timeslice gets only a tenth the next time. *)
Lemma mlfq_timeslice_inverted_witness :
  exists s1 s2 s3,
    mlfq_next [Some (demo_ready 5)] 1 0 5000 (mkMLFQ [[0%nat]; []; []] (fun _ => 0) 0 0 0 0)
      = Ret (RunProcess (mkProcessId 5 0) (Some 10000), s1) /\
    mlfq_result NoWorkLeft (Some 1000) s1 = Ret s2 /\
    mlfq_next [Some (demo_ready 5)] 1 20 5000 s2 = Ret (RunProcess (mkProcessId 5 0) (Some 1000), s3).
Proof.
  apply (mlfq_timeslice_inverted [Some (demo_ready 5)] 0 (demo_ready 5) 1000 NoWorkLeft 0 20 5000
    (mkMLFQ [[0%nat]; []; []] (fun _ => 0) 0 0 0 0) 1);
    [reflexivity|reflexivity|lia|reflexivity|reflexivity|lia|discriminate].
Defined.

(** Only the first process of each lower queue is restored to the highest
    priority at a refresh; the others stay where they are. *)
Lemma redeem_moves_heads q0 a q1 b q2 :
  redeem_all_procs [q0; a :: q1; b :: q2] = [q0 ++ [a; b]; q1; q2].
Proof. cbn. by rewrite <- app_assoc. Qed.

End SchedSpec.
