(* ===== verification/Checker.v ===== *)
(** Credential checking ([kernel/src/process_checker.rs]): the machine that walks
    the footers of a process binary and asks a policy about each credential.

    The policy is code of the board, a record of operations on a state of its
    own ([Checker.Policy]).  The machine calls its client with the outcome; the
    calls are collected in order.  [Checker.run] closes the system: the policy
    answers each check that it has started, as its documentation asks.
    [Checker.decision] is the rule that the machine implements, over the list of
    footers instead of their encoding. *)

From stdpp Require Import base numbers list.
From S2P Require Import Prelude Tbf Syscall ProcessBinary.
Import Syscall Pb.
Local Open Scope Z_scope.

Module Checker.

(** * Data *)

Inductive CheckResult := Accept (metadata : option Z) | Pass | Reject.

(** [AppCredentialsPolicy]: [check_credentials] starts a check. *)
Record Policy (PS : Type) := mkPolicy {
  require_credentials : bool;
  check_credentials : Tbf.TbfFooterV2Credentials -> list Z -> PS -> result unit ErrorCode * PS;
}.
Arguments require_credentials {PS}.
Arguments check_credentials {PS}.

Inductive FooterCheckResult :=
  | Checking | PastLastFooter | FooterNotCheckable | BadFooter | FError.

(** The outcome of a check, [Result<Option<AcceptedCredential>, ProcessCheckError>]. *)
Definition Outcome : Type := result (option AcceptedCredential) ProcessCheckError.

Section machine.
  Context {PS : Type}.

(** [ProcessCheckerMachine]: whether it has a client, its policy, the binary under
    check and the number of the next footer. *)
Record Machine := mkMachine {
  client : bool;
  policy : option (Policy PS);
  process_binary : option ProcessBinary;
  footer_index : nat;
}.
Definition set_process_binary (b : option ProcessBinary) (m : Machine) : Machine :=
  mkMachine (client m) (policy m) b (footer_index m).
Definition set_footer_index (i : nat) (m : Machine) : Machine :=
  mkMachine (client m) (policy m) (process_binary m) i.
Definition increment (m : Machine) : Machine := set_footer_index (S (footer_index m)) m.

(** A call of [client.done], if there is a client. *)
Definition done_ (m : Machine) (pb : ProcessBinary) (r : Outcome) : list (ProcessBinary * Outcome) :=
  if client m then [(pb, r)] else [].

(** [ProcessCheckerMachine::new] and the setters. *)
Definition new (p : Policy PS) : Machine := mkMachine false (Some p) None 0.
Definition set_client (m : Machine) : Machine :=
  mkMachine true (policy m) (process_binary m) (footer_index m).
Definition set_policy (p : Policy PS) (m : Machine) : Machine :=
  mkMachine (client m) (Some p) (process_binary m) (footer_index m).

(** * Operations *)

(** The loop of [check_footer] from footer number [current_footer]; [n] is
    [next_footer + 1 - current_footer]. *)
Fixpoint check_footer_loop (policy : Policy PS) (integrity_slice : list Z) (n : nat)
    (footer_slice : list Z) (ps : PS) : FooterCheckResult * PS :=
  match n with
  | O => (PastLastFooter, ps)
  | S n =>
    match Tbf.parse_tbf_footer footer_slice with
    | Err Tbf.NotEnoughFlash => (PastLastFooter, ps)
    | Err (Tbf.BadTlvEntry _) => (BadFooter, ps)
    | Err _ => (BadFooter, ps)
    | Ok (footer, len) =>
      match get_from footer_slice (Z.to_nat len + 4) with
      | None => (BadFooter, ps)
      | Some slice =>
        if (n =? 0)%nat then
          let '(r, ps) := check_credentials policy footer integrity_slice ps in
          (match r with
           | Ok _ => Checking
           | Err NOSUPPORT => FooterNotCheckable
           | Err ALREADY => FooterNotCheckable
           | Err _ => FError
           end, ps)
        else check_footer_loop policy integrity_slice n slice ps
      end
    end
  end.

Definition check_footer (pb : ProcessBinary) (policy : Policy PS) (next_footer : nat) (ps : PS)
    : outcome (FooterCheckResult * PS) :=
  let! integrity_slice := get_integrity_region_slice pb in
  Ret (check_footer_loop policy integrity_slice (S next_footer) (pb_footers pb) ps).

(** The loop of [next]. *)
Fixpoint next_loop (fuel : nat) (policy : Policy PS) (pb : ProcessBinary) (m : Machine) (ps : PS)
    : outcome (Machine * PS * list (ProcessBinary * Outcome)) :=
  match fuel with
  | O => Diverge
  | S fuel =>
    let! '(check_result, ps) := check_footer pb policy (footer_index m) ps in
    match check_result with
    | Checking => Ret (set_process_binary (Some pb) m, ps, [])
    | PastLastFooter | BadFooter =>
      let r := if require_credentials policy then Err CredentialsNotAccepted else Ok None in
      Ret (m, ps, done_ m pb r)
    | FooterNotCheckable => next_loop fuel policy pb (increment m) ps
    | FError => Ret (m, ps, done_ m pb (Err CheckInternalError))
    end
  end.

(** Footers take at least eight bytes each, so [next] makes fewer turns than the
    footers have bytes. *)
Definition next_fuel (pb : ProcessBinary) : nat := S (length (pb_footers pb)).

Definition next (m : Machine) (ps : PS)
    : outcome (result unit ProcessCheckError * Machine * PS * list (ProcessBinary * Outcome)) :=
  match policy m with
  | None => Ret (Err CheckInternalError, m, ps, [])
  | Some policy =>
    match process_binary m with
    | None => Ret (Err CheckInternalError, m, ps, [])
    | Some pb =>
      let! '(m, ps, calls) := next_loop (next_fuel pb) policy pb (set_process_binary None m) ps in
      Ret (Ok tt, m, ps, calls)
    end
  end.

Definition check (pb : ProcessBinary) (m : Machine) (ps : PS)
    : outcome (result unit ProcessCheckError * Machine * PS * list (ProcessBinary * Outcome)) :=
  next (set_process_binary (Some pb) (set_footer_index 0 m)) ps.

(** The binary under check, taken and handed to the client with an outcome. *)
Definition finish (r : Outcome) (m : Machine) : Machine * list (ProcessBinary * Outcome) :=
  if client m then
    match process_binary m with
    | Some pb => (set_process_binary None m, [(pb, r)])
    | None => (m, [])
    end
  else (m, []).

Definition check_done (res : result CheckResult ErrorCode) (credentials : Tbf.TbfFooterV2Credentials)
    (m : Machine) (ps : PS) : outcome (Machine * PS * list (ProcessBinary * Outcome)) :=
  let '(cont, m, calls) :=
    match res with
    | Ok (Accept opaque) =>
      let '(m, calls) := finish (Ok (Some (mkAccepted credentials opaque))) m in (false, m, calls)
    | Ok Pass => (true, increment m, [])
    | Ok Reject =>
      let '(m, calls) := finish (Err (CredentialsRejected (Z.of_nat (footer_index m)))) m in
      (false, m, calls)
    | Err _ => (true, increment m, [])
    end in
  if cont then
    let! '(_, m, ps, calls) := next m ps in
    Ret (m, ps, calls)
  else Ret (m, ps, calls).

End machine.
Arguments Machine : clear implicits.

End Checker.
