(* ===== verification/CheckerSpec.v ===== *)
(** The credential checker implements its rule: it terminates, asks the policy
    about the footers in order, and decides as [decision] says; under a policy
    that requires credentials it approves a binary only with a credential of the
    binary that the policy has accepted. *)

From stdpp Require Import base numbers list.
From S2P Require Import Prelude Tbf TbfSpec Syscall ProcessBinary Checker.
Import Syscall Pb Checker.
Local Open Scope Z_scope.

Module CheckerSpec.

(** * The footers of a binary *)

(** The credentials at the front of a slice, up to the first footer that is not
    one. *)
Fixpoint footer_list (n : nat) (slice : list Z) : list Tbf.TbfFooterV2Credentials :=
  match n with
  | O => []
  | S n =>
    match Tbf.parse_tbf_footer slice with
    | Err _ => []
    | Ok (footer, len) => footer :: footer_list n (drop (Z.to_nat len + 4) slice)
    end
  end.
Definition footers_in (slice : list Z) : list Tbf.TbfFooterV2Credentials :=
  footer_list (length slice) slice.

Lemma parse_footer_length slice c len :
  Tbf.parse_tbf_footer slice = Ok (c, len) -> (Z.to_nat len + 4 <= length slice)%nat.
Proof.
  unfold Tbf.parse_tbf_footer. destruct (get slice 0 4) as [t|] eqn:Hg; [|done]. cbn [ok_or rbind].
  apply get_Some in Hg as [Hg _].
  destruct (Tbf.tlv_try_from t) as [tlv|]; [|done]. cbn [rbind]. unfold get_from.
  destruct (Nat.leb_spec 4 (length slice)); [|done]. cbn [ok_or rbind].
  destruct (Tbf.tlv_tipe tlv); try done.
  destruct (get (drop 4 slice) 0 _) as [s|] eqn:Hs; [|done]. cbn [ok_or rbind].
  apply get_Some in Hs as [Hs _]. rewrite length_drop in Hs.
  destruct (Tbf.credentials_try_from s); [|done]. intros [= _ <-]. lia.
Qed.

Lemma footer_list_fuel n slice : (length slice <= n)%nat -> footer_list n slice = footers_in slice.
Proof.
  unfold footers_in. remember (length slice) as k eqn:Hk. assert (length slice <= k)%nat as H by lia.
  clear Hk. revert n slice H. induction k as [|k IH]; intros n slice Hk Hn.
  - destruct n; [done|]. cbn. destruct (Tbf.parse_tbf_footer slice) as [ [c len]|] eqn:Hp; [|done].
    apply parse_footer_length in Hp. lia.
  - destruct n as [|n]; [lia|]. cbn.
    destruct (Tbf.parse_tbf_footer slice) as [ [c len]|] eqn:Hp; [|done].
    apply parse_footer_length in Hp. f_equal.
    apply IH; rewrite ?length_drop; lia.
Qed.

Lemma footers_in_unfold slice :
  footers_in slice =
  match Tbf.parse_tbf_footer slice with
  | Err _ => []
  | Ok (footer, len) => footer :: footers_in (drop (Z.to_nat len + 4) slice)
  end.
Proof.
  rewrite <- (footer_list_fuel (S (length slice))) by lia. cbn [footer_list].
  destruct (Tbf.parse_tbf_footer slice) as [ [c len]|]; [|done].
  by rewrite footer_list_fuel by (rewrite length_drop; lia).
Qed.

Lemma footers_in_length slice : (length (footers_in slice) <= length slice)%nat.
Proof.
  assert (forall n sl, (length (footer_list n sl) <= n)%nat) as H; [|apply H].
  induction n as [|n IH]; intros sl; cbn; [lia|].
  destruct (Tbf.parse_tbf_footer sl) as [ [c len]|]; cbn; [|lia].
  specialize (IH (drop (Z.to_nat len + 4) sl)). lia.
Qed.

Section spec.
  Context {PS : Type} (pol : Policy PS).
  (** The answer of the policy to a check that it has started. *)
  Context (answer : Tbf.TbfFooterV2Credentials -> list Z -> PS -> result CheckResult ErrorCode * PS).

(** The checks of [check_footer] that start none. *)
Definition classify (r : result unit ErrorCode) : FooterCheckResult :=
  match r with
  | Ok _ => Checking
  | Err NOSUPPORT => FooterNotCheckable
  | Err ALREADY => FooterNotCheckable
  | Err _ => FError
  end.

Lemma footer_step integrity n slice ps :
  check_footer_loop pol integrity (S n) slice ps =
  match Tbf.parse_tbf_footer slice with
  | Err e => (match e with Tbf.NotEnoughFlash => PastLastFooter | _ => BadFooter end, ps)
  | Ok (footer, len) =>
    match get_from slice (Z.to_nat len + 4) with
    | None => (BadFooter, ps)
    | Some slice =>
      if (n =? 0)%nat then
        let '(r, ps) := check_credentials pol footer integrity ps in (classify r, ps)
      else check_footer_loop pol integrity n slice ps
    end
  end.
Proof using.
  cbn [check_footer_loop]. destruct (Tbf.parse_tbf_footer slice) as [ [c len]|[] ]; done.
Qed.

(** [check_footer] looks at the footer with the given number. *)
Lemma check_footer_loop_spec integrity i slice ps :
  match footers_in slice !! i with
  | Some c =>
    check_footer_loop pol integrity (S i) slice ps =
      (classify (fst (check_credentials pol c integrity ps)), snd (check_credentials pol c integrity ps))
  | None => exists r, (r = PastLastFooter \/ r = BadFooter) /\
      check_footer_loop pol integrity (S i) slice ps = (r, ps)
  end.
Proof using.
  revert slice. induction i as [|i IH]; intros slice; rewrite footers_in_unfold, footer_step;
    destruct (Tbf.parse_tbf_footer slice) as [ [c len]|e] eqn:Hp; cbn [lookup list_lookup].
  2, 4: destruct e; eexists; (split; [|reflexivity]); tauto.
  all: apply parse_footer_length in Hp; unfold get_from;
    destruct (Nat.leb_spec (Z.to_nat len + 4) (length slice)); [|lia].
  - cbn. by destruct (check_credentials pol c integrity ps) as [ [ [] | [] ] ? ].
  - apply (IH (drop (Z.to_nat len + 4) slice)).
Qed.

(** * The rule *)

(** The footers from number [i] on: the first credential that the policy accepts
    or rejects decides, one that it does not support is skipped. *)
Fixpoint decision (integrity : list Z) (i : nat) (cs : list Tbf.TbfFooterV2Credentials) (ps : PS)
    : Outcome * PS :=
  match cs with
  | [] => (if require_credentials pol then Err CredentialsNotAccepted else Ok None, ps)
  | c :: cs =>
    let '(r, ps) := check_credentials pol c integrity ps in
    match classify r with
    | Checking =>
      let '(a, ps) := answer c integrity ps in
      match a with
      | Ok (Accept m) => (Ok (Some (mkAccepted c m)), ps)
      | Ok Reject => (Err (CredentialsRejected (Z.of_nat i)), ps)
      | Ok Pass | Err _ => decision integrity (S i) cs ps
      end
    | FooterNotCheckable => decision integrity (S i) cs ps
    | _ => (Err CheckInternalError, ps)
    end
  end.

(** * The machine driven by the policy's answers *)

Fixpoint drive (fuel : nat) (integrity : list Z) (pb : ProcessBinary)
    (st : Machine PS * PS * list (ProcessBinary * Outcome))
    : outcome (Machine PS * PS * list (ProcessBinary * Outcome)) :=
  let '(m, ps, calls) := st in
  match calls with
  | _ :: _ => Ret st
  | [] =>
    match fuel with
    | O => Diverge
    | S fuel =>
      let! c := of_option (footers_in (pb_footers pb) !! footer_index m) in
      let '(a, ps) := answer c integrity ps in
      let! st := check_done a c m ps in
      drive fuel integrity pb st
    end
  end.

Definition run (pb : ProcessBinary) (m : Machine PS) (ps : PS)
    : outcome (Machine PS * PS * list (ProcessBinary * Outcome)) :=
  let! integrity := get_integrity_region_slice pb in
  let! '(_, m, ps, calls) := check pb m ps in
  drive (S (length (pb_footers pb))) integrity pb (m, ps, calls).

Section proofs.
  Context (pb : ProcessBinary) (integrity : list Z).
  Context (Hint : get_integrity_region_slice pb = Ret integrity).
  Abbreviation cs := (footers_in (pb_footers pb)).

(** A machine that is set up to check [pb] under [pol]. *)
Definition ready (b : option ProcessBinary) (m : Machine PS) : Prop :=
  client m = true /\ policy m = Some pol /\ process_binary m = b.

(** What is left to do in a state of the driven machine, as the rule sees it:
    nothing, or the answer to the check of footer [footer_index]. *)
Definition pending (st : Machine PS * PS * list (ProcessBinary * Outcome)) (d : Outcome * PS) : Prop :=
  let '(m, ps, calls) := st in
  (ready None m /\ calls = [(pb, fst d)] /\ ps = snd d) \/
  (ready (Some pb) m /\ calls = [] /\ exists c, cs !! footer_index m = Some c /\
    d = let '(a, ps) := answer c integrity ps in
        match a with
        | Ok (Accept md) => (Ok (Some (mkAccepted c md)), ps)
        | Ok Reject => (Err (CredentialsRejected (Z.of_nat (footer_index m))), ps)
        | Ok Pass | Err _ =>
          decision integrity (S (footer_index m)) (drop (S (footer_index m)) cs) ps
        end).

Lemma next_loop_pending fuel m ps :
  ready None m -> (length cs < fuel + footer_index m)%nat -> (0 < fuel)%nat ->
  exists st, next_loop fuel pol pb m ps = Ret st /\
    pending st (decision integrity (footer_index m) (drop (footer_index m) cs) ps) /\
    (footer_index m <= footer_index (fst (fst st)))%nat.
Proof using Hint.
  revert m ps. induction fuel as [|fuel IH]; intros m ps (Hc & Hp & Hb) Hf H0; [lia|].
  cbn [next_loop]. unfold check_footer. rewrite Hint. cbn [obind].
  pose proof (check_footer_loop_spec integrity (footer_index m) (pb_footers pb) ps) as Hs.
  destruct (cs !! footer_index m) as [c|] eqn:Hcs.
  - rewrite Hs. cbn [obind]. rewrite (drop_S _ _ _ Hcs). cbn [decision].
    destruct (check_credentials pol c integrity ps) as [r ps1]. cbn [fst snd] in *.
    destruct (classify r) eqn:Hcl.
    + eexists. split; [done|]. split; [|done]. right. split; [done|]. split; [done|]. by exists c.
    + destruct r as [ [] | [] ]; done.
    + apply lookup_lt_Some in Hcs.
      destruct (IH (increment m) ps1) as (st & Hst & Hpend & Hle);
        [done|cbn [increment set_footer_index footer_index]; lia|lia|].
      exists st. split; [done|]. split; [done|]. cbn in Hle. lia.
    + destruct r as [ [] | [] ]; done.
    + eexists. split; [done|]. split; [|done]. left. unfold done_. by rewrite Hc.
  - destruct Hs as (r & Hr & ->). cbn [obind].
    rewrite drop_ge by (by apply lookup_ge_None). cbn [decision].
    destruct Hr as [-> | ->]; (eexists; split; [done|]; split; [|done]; left; unfold done_; by rewrite Hc).
Qed.

Lemma next_pending m ps :
  ready (Some pb) m ->
  exists m' ps' calls, next m ps = Ret (Ok tt, m', ps', calls) /\
    pending (m', ps', calls) (decision integrity (footer_index m) (drop (footer_index m) cs) ps) /\
    (footer_index m <= footer_index m')%nat.
Proof using Hint.
  intros (Hc & Hp & Hb). unfold next. rewrite Hp, Hb.
  pose proof (footers_in_length (pb_footers pb)).
  destruct (next_loop_pending (next_fuel pb) (set_process_binary None m) ps)
    as ([ [m' ps'] calls] & -> & Hpend & Hle); [done|unfold next_fuel; cbn; lia|unfold next_fuel; lia|].
  by exists m', ps', calls.
Qed.

Lemma drive_decides fuel st d :
  pending st d -> (length cs < fuel + footer_index (fst (fst st)))%nat ->
  exists m, drive fuel integrity pb st = Ret (m, snd d, [(pb, fst d)]) /\ ready None m.
Proof using Hint.
  revert st d. induction fuel as [|fuel IH]; intros [ [m ps] calls] d [(Hr & -> & ->) | (Hr & -> & c & Hc & Hd)] Hf;
    try (exists m; done).
  - cbn in Hf. apply lookup_lt_Some in Hc. lia.
  - cbn [drive]. rewrite Hc. cbn [of_option obind].
    destruct (answer c integrity ps) as [a ps1]. unfold check_done.
    assert (Hcont : forall st1, pending st1 d -> (footer_index m < footer_index (fst (fst st1)))%nat ->
      exists m', drive fuel integrity pb st1 = Ret (m', snd d, [(pb, fst d)]) /\ ready None m').
    { intros st1 Hp Hl. apply IH; [done|]. cbn [fst] in Hf. lia. }
    assert (Hnext : d = decision integrity (S (footer_index m)) (drop (S (footer_index m)) cs) ps1 ->
      exists m', (let! st1 := (let! '(_, m1, ps2, calls) := next (increment m) ps1 in Ret (m1, ps2, calls)) in
        drive fuel integrity pb st1) = Ret (m', snd d, [(pb, fst d)]) /\ ready None m').
    { intros Hd'. destruct (next_pending (increment m) ps1) as (m1 & ps2 & calls & -> & Hp & Hl); [done|].
      cbn [obind]. apply Hcont; [by rewrite Hd'|cbn in *; lia]. }
    destruct Hr as (Hcl & Hpol & Hpb).
    destruct a as [ [md| |]|e]; unfold finish; rewrite ?Hcl, ?Hpb; cbn [obind]; subst d.
    + destruct fuel; cbn; by eexists.
    + by apply Hnext.
    + destruct fuel; cbn; by eexists.
    + by apply Hnext.
Qed.

End proofs.

(** The driven machine decides by the rule. *)
Lemma run_decides pb m ps :
  pb_wf pb -> client m = true -> policy m = Some pol ->
  exists integrity m', get_integrity_region_slice pb = Ret integrity /\
    let d := decision integrity 0 (footers_in (pb_footers pb)) ps in
    run pb m ps = Ret (m', snd d, [(pb, fst d)]) /\ process_binary m' = None.
Proof using.
  intros Hwf Hc Hp. destruct (pbw_split pb Hwf) as (integrity & Hint & _).
  unfold run. rewrite Hint. cbn [obind].
  destruct (next_pending pb integrity Hint (set_process_binary (Some pb) (set_footer_index 0 m)) ps)
    as (m1 & ps1 & calls & Hn & Hpend & Hle); [done|].
  unfold check. rewrite Hn. cbn [obind]. cbn [set_process_binary set_footer_index footer_index] in *.
  rewrite drop_0 in Hpend. pose proof (footers_in_length (pb_footers pb)).
  destruct (drive_decides pb integrity Hint (S (length (pb_footers pb))) _ _ Hpend) as (m' & Hd & _ & _ & Hb);
    [cbn; lia|].
  by exists integrity, m'.
Qed.

(** An approval under a policy that requires credentials names a footer of the
    binary that the policy has accepted. *)
Lemma decision_accepts integrity i fs ps o ps' :
  require_credentials pol = true -> decision integrity i fs ps = (Ok o, ps') ->
  exists c md ps1 ps2, o = Some (mkAccepted c md) /\ c ∈ fs /\
    answer c integrity ps1 = (Ok (Accept md), ps2).
Proof using.
  intros Hreq. revert i ps. induction fs as [|c fs IH]; intros i ps; cbn [decision]; [by rewrite Hreq|].
  destruct (check_credentials pol c integrity ps) as [r ps1]. 
  assert (forall i ps, decision integrity i fs ps = (Ok o, ps') ->
    exists c0 md ps1 ps2, o = Some (mkAccepted c0 md) /\ c0 ∈ c :: fs /\
    answer c0 integrity ps1 = (Ok (Accept md), ps2)) as Hrest.
  { intros j ps0 H. destruct (IH j ps0 H) as (c0 & md & pa & pb & ? & ? & ?).
    exists c0, md, pa, pb. split_and!; [done|by right|done]. }
  destruct (classify r); try done; [|by apply Hrest].
  destruct (answer c integrity ps1) as [ [ [md| |]|e] ps2] eqn:Ha; try done; try by apply Hrest.
  intros [= <- <-]. exists c, md, ps1, ps2. split_and!; [done|left|done].
Qed.

End spec.

(** C8: the credential checker, driven by the answers of its policy, terminates,
    calls its client exactly once, with the binary, and decides as the rule says:
    credentials are looked at in the order of the footers, an unsupported one is
    skipped, the first that is accepted or rejected decides, and when none is
    left the policy's requirement does. *)
Theorem checker_refines {PS} (pol : Policy PS) answer pb m ps :
  pb_wf pb -> client m = true -> policy m = Some pol ->
  exists integrity m', get_integrity_region_slice pb = Ret integrity /\
    let d := decision pol answer integrity 0 (footers_in (pb_footers pb)) ps in
    run answer pb m ps = Ret (m', snd d, [(pb, fst d)]) /\ process_binary m' = None.
Proof. apply run_decides. Qed.

(** Under a policy that requires credentials, a binary is approved only with
    one of its own footers, for which the policy answered, about the binary's
    integrity region, that it accepts it. *)
Theorem checker_requires_credentials {PS} (pol : Policy PS) answer pb m ps m' ps' calls pb' o :
  pb_wf pb -> client m = true -> policy m = Some pol -> require_credentials pol = true ->
  run answer pb m ps = Ret (m', ps', calls) -> (pb', Ok o) ∈ calls ->
  pb' = pb /\ exists integrity c md ps1 ps2,
    get_integrity_region_slice pb = Ret integrity /\ pb_flash pb = integrity ++ pb_footers pb /\
    o = Some (mkAccepted c md) /\ c ∈ footers_in (pb_footers pb) /\
    answer c integrity ps1 = (Ok (Accept md), ps2).
Proof.
  intros Hwf Hc Hp Hreq Hrun Hin.
  destruct (run_decides pol answer pb m ps Hwf Hc Hp) as (integrity & m1 & Hi & Hr & _).
  rewrite Hr in Hrun. injection Hrun as <- <- <-. apply list_elem_of_singleton in Hin.
  injection Hin as -> Ho. split; [done|].
  destruct (decision pol answer integrity 0 (footers_in (pb_footers pb)) ps) as [d ps'] eqn:Hd.
  cbn in Ho. subst d.
  destruct (decision_accepts _ _ _ _ _ _ _ _ Hreq Hd) as (c & md & ps1 & ps2 & ? & ? & ?).
  destruct (pbw_split pb Hwf) as (integrity' & Hi' & Hsplit). rewrite Hi in Hi'. injection Hi' as <-.
  by exists integrity, c, md, ps1, ps2.
Qed.

(** * Examples *)

(** A binary with a program header, 16 bytes of code and a SHA-256 footer. *)
Definition demo_flash : list Z :=
  TbfSpec.encode_header 104 1
    [TbfSpec.EProgram (Tbf.mkProgram 0 0 2048 64 1); TbfSpec.EKernelVersion (Tbf.mkKernelVersion 2 1)]
  ++ replicate 16 7 ++ TbfSpec.row 2 [128; 36] ++ TbfSpec.row 4 [3] ++ replicate 32 9.
Definition demo_binary : ProcessBinary :=
  match Pb.create 262144 demo_flash 48 2 true with
  | Ret (Ok pb) => pb
  | _ => mkProcessBinary 0 [] [] (Tbf.Padding (Tbf.mkBase 0 0 0 0 0)) None
  end.

Lemma demo_binary_wf : pb_wf demo_binary.
Proof.
  apply (create_wf 262144 demo_flash 48 2 true). unfold demo_binary.
  by destruct (Pb.create 262144 demo_flash 48 2 true) as [ [pb|e]| |] eqn:E; vm_compute in E.
Qed.

Definition demo_policy : Policy unit :=
  mkPolicy unit true (fun c _ s => (match Tbf.cred_format c with Tbf.SHA256 => Ok tt | _ => Err NOSUPPORT end, s)).
Definition demo_answer (c : Tbf.TbfFooterV2Credentials) (integrity : list Z) (s : unit)
    : result CheckResult ErrorCode * unit :=
  (Ok (if decide (Tbf.cred_data c = replicate 32 9) then Accept (Some 1) else Reject), s).
Definition demo_machine : Machine unit := set_client (new demo_policy).

Lemma checker_refines_witness :
  exists integrity m', get_integrity_region_slice demo_binary = Ret integrity /\
    run demo_answer demo_binary demo_machine tt =
      Ret (m', tt, [(demo_binary, Ok (Some (mkAccepted (Tbf.mkCredentials Tbf.SHA256 (replicate 32 9)) (Some 1))))]).
Proof.
  destruct (checker_refines demo_policy demo_answer demo_binary demo_machine tt demo_binary_wf eq_refl eq_refl)
    as (integrity & m' & Hi & Hr & _).
  exists integrity, m'. split; [exact Hi|]. exact Hr.
Defined.

Lemma checker_requires_credentials_witness :
  exists m' o, run demo_answer demo_binary demo_machine tt = Ret (m', tt, [(demo_binary, Ok o)]) /\
    exists integrity c md ps1 ps2,
    get_integrity_region_slice demo_binary = Ret integrity /\
    pb_flash demo_binary = integrity ++ pb_footers demo_binary /\
    o = Some (mkAccepted c md) /\ c ∈ footers_in (pb_footers demo_binary) /\
    demo_answer c integrity ps1 = (Ok (Accept md), ps2).
Proof.
  eexists. eexists. split; [vm_compute; reflexivity|].
  eapply (checker_requires_credentials demo_policy demo_answer demo_binary demo_machine tt);
    [exact demo_binary_wf|reflexivity|reflexivity|reflexivity|vm_compute; reflexivity|left].
Defined.

End CheckerSpec.
