(* ===== verification/Loader.v ===== *)
(** Process loading ([kernel/src/process_loading.rs]): finding process binaries in
    flash, loading them one after the other ([load_processes_from_flash]), and
    the asynchronous machine [SequentialProcessLoaderMachine] that has every
    binary checked first and then loads those that no other excludes.

    A slice of flash is its address and its bytes; memory is its address and its
    length.  Debug output is not modelled; a loaded process is kept with the
    [ShortId] that it was created with. *)

From stdpp Require Import base numbers list.
From S2P Require Import Prelude Mpu Tbf Syscall ProcessBinary Checker Process.
Import Mpu Syscall Pb Proc.
Local Open Scope Z_scope.

Module Loader.

(** * Discovery *)

Definition Flash : Type := Z * list Z.

(** [discover_process_binary]: the slice after the binary, and the binary or why
    it is not one. *)
Definition discover_process_binary (flash : Flash)
    : outcome (Flash * result ProcessBinary ProcessBinaryError) :=
  let '(addr, bytes) := flash in
  match get bytes 0 8 with
  | None => Ret (flash, Err NotEnoughFlash)
  | Some header =>
    match (match Tbf.parse_tbf_header_lengths header with
           | Ok (v, hl, el) => Some (v, hl, el)
           | Err (Tbf.InvalidHeader app_length) => Some (0, 0, app_length)
           | Err Tbf.UnableToParse => None
           end) with
    | None => Ret (flash, Err TbfHeaderNotFound)
    | Some (version, header_length, app_length) =>
      match get bytes 0 (Z.to_nat app_length) with
      | None => Ret (flash, Err NotEnoughFlash)
      | Some app_flash =>
        match get_from bytes (length app_flash) with
        | None => Ret (flash, Err NotEnoughFlash)
        | Some remaining =>
          let! pb := Pb.create addr app_flash (Z.to_nat header_length) version true in
          Ret ((addr + Z.of_nat (length app_flash), remaining), pb)
        end
      end
    end
  end.

(** * Identifiers *)

Inductive ShortId := LocallyUnique | Fixed (id : Z).

(** [PartialEq] for [ShortId]: no identifier equals [LocallyUnique]. *)
Definition short_id_eqb (a b : ShortId) : bool :=
  match a, b with Fixed a, Fixed b => a =? b | _, _ => false end.

Definition ShortId_from (id : option Z) : ShortId :=
  match id with Some fixed => Fixed fixed | None => LocallyUnique end.

Section loader.
  Context {hw config stored : Type} {mpu : MPU hw config} {ukb : UKB stored}.
  Context (CALLBACKS_OFFSET PROCESS_STRUCT_OFFSET : Z).
  (** The memory in which a new upcall buffer is built. *)
  Context (uninit : list Task).

(** A process and the [ShortId] that it runs with. *)
Record Loaded := mkLoaded { l_process : process stored config; l_short_id : ShortId }.

(** The kernel's counters, the MPU and the memory left for processes. *)
Record World := mkWorld { w_kernel : Kernel; w_hw : hw; w_memory : Z * Z }.

(** [load_process] *)
Definition load_process (pb : ProcessBinary) (app_id : ShortId) (index : nat) (w : World)
    : outcome (result Loaded ProcessLoadError * World) :=
  let! '(r, k, h) := Proc.create CALLBACKS_OFFSET PROCESS_STRUCT_OFFSET uninit pb (w_memory w)
                       (Z.of_nat index) (w_kernel w) (w_hw w) in
  match r with
  | Ok (p, unused_memory) => Ret (Ok (mkLoaded p app_id), mkWorld k h unused_memory)
  | Err (e, memory) => Ret (Err e, mkWorld k h memory)
  end.

(** * Synchronous loading *)

Fixpoint load_processes_from_flash (fuel : nat) (index : nat) (flash : Flash) (w : World)
    (procs : list (option Loaded)) : outcome (World * list (option Loaded)) :=
  if (index <? length procs)%nat then
    match fuel with
    | O => Diverge
    | S fuel =>
      let! '(flash, r) := discover_process_binary flash in
      match r with
      | Ok pb =>
        let! '(l, w) := load_process pb LocallyUnique index w in
        match l with
        | Ok proc =>
          let! procs := set_index procs index (Some proc) in
          load_processes_from_flash fuel (S index) flash w procs
        | Err _ => load_processes_from_flash fuel index flash w procs
        end
      | Err NotEnoughFlash | Err TbfHeaderNotFound => Ret (w, procs)
      | Err _ => load_processes_from_flash fuel index flash w procs
      end
    end
  else Ret (w, procs).

(** [load_processes], with the fuel that [LoaderSpec] shows to be enough. *)
Definition load_processes (flash : Flash) (w : World) (procs : list (option Loaded))
    : outcome (World * list (option Loaded)) :=
  load_processes_from_flash (S (length (snd flash))) 0 flash w procs.

(** * The asynchronous machine *)

(** [AppIdPolicy]: [AppUniqueness] and [Compress]. *)
Record AppIdPolicy := mkAppIdPolicy {
  different_identifier : ProcessBinary -> ProcessBinary -> bool;
  different_identifier_process : ProcessBinary -> Loaded -> bool;
  to_short_id : ProcessBinary -> ShortId;
}.

Inductive LoaderState := DiscoverProcessBinaries | LoadProcesses.

(** The calls of the client. *)
Inductive ClientCall := ProcessLoaded (r : result unit ProcessLoadError) | ProcessLoadingFinished.

Context {PS : Type}.

Record LoaderMachine := mkLoader {
  lm_client : bool;
  lm_checker : Checker.Machine PS;
  lm_procs : list (option Loaded);
  lm_proc_binaries : option (list (option ProcessBinary));
  lm_flash : Flash;
  lm_world : World;
  lm_deferred : bool;
  lm_policy : option AppIdPolicy;
  lm_state : option LoaderState;
  lm_calls : list ClientCall;
  (** The state of the credential policy. *)
  lm_ps : PS;
}.

Definition set_checker v ps (m : LoaderMachine) : LoaderMachine :=
  mkLoader (lm_client m) v (lm_procs m) (lm_proc_binaries m) (lm_flash m) (lm_world m)
    (lm_deferred m) (lm_policy m) (lm_state m) (lm_calls m) ps.
Definition set_procs v (m : LoaderMachine) : LoaderMachine :=
  mkLoader (lm_client m) (lm_checker m) v (lm_proc_binaries m) (lm_flash m) (lm_world m)
    (lm_deferred m) (lm_policy m) (lm_state m) (lm_calls m) (lm_ps m).
Definition set_proc_binaries v (m : LoaderMachine) : LoaderMachine :=
  mkLoader (lm_client m) (lm_checker m) (lm_procs m) v (lm_flash m) (lm_world m)
    (lm_deferred m) (lm_policy m) (lm_state m) (lm_calls m) (lm_ps m).
Definition set_flash v (m : LoaderMachine) : LoaderMachine :=
  mkLoader (lm_client m) (lm_checker m) (lm_procs m) (lm_proc_binaries m) v (lm_world m)
    (lm_deferred m) (lm_policy m) (lm_state m) (lm_calls m) (lm_ps m).
Definition set_world v (m : LoaderMachine) : LoaderMachine :=
  mkLoader (lm_client m) (lm_checker m) (lm_procs m) (lm_proc_binaries m) (lm_flash m) v
    (lm_deferred m) (lm_policy m) (lm_state m) (lm_calls m) (lm_ps m).
Definition set_deferred v (m : LoaderMachine) : LoaderMachine :=
  mkLoader (lm_client m) (lm_checker m) (lm_procs m) (lm_proc_binaries m) (lm_flash m) (lm_world m)
    v (lm_policy m) (lm_state m) (lm_calls m) (lm_ps m).
Definition set_lstate v (m : LoaderMachine) : LoaderMachine :=
  mkLoader (lm_client m) (lm_checker m) (lm_procs m) (lm_proc_binaries m) (lm_flash m) (lm_world m)
    (lm_deferred m) (lm_policy m) v (lm_calls m) (lm_ps m).
Definition call_client (c : ClientCall) (m : LoaderMachine) : LoaderMachine :=
  mkLoader (lm_client m) (lm_checker m) (lm_procs m) (lm_proc_binaries m) (lm_flash m) (lm_world m)
    (lm_deferred m) (lm_policy m) (lm_state m)
    (if lm_client m then lm_calls m ++ [c] else lm_calls m) (lm_ps m).

(** [SequentialProcessLoaderMachine::new] and the setters; the arrays are empty at
    start. *)
Definition new_machine (checker : Checker.Machine PS) (procs binaries : nat) (flash : Flash) (w : World)
    (policy : AppIdPolicy) (ps : PS) : LoaderMachine :=
  mkLoader false checker (replicate procs None) (Some (replicate binaries None)) flash w false
    (Some policy) None [] ps.
Definition set_client (m : LoaderMachine) : LoaderMachine :=
  mkLoader true (lm_checker m) (lm_procs m) (lm_proc_binaries m) (lm_flash m) (lm_world m)
    (lm_deferred m) (lm_policy m) (lm_state m) (lm_calls m) (lm_ps m).
Definition set_policy (policy : AppIdPolicy) (m : LoaderMachine) : LoaderMachine :=
  mkLoader (lm_client m) (lm_checker m) (lm_procs m) (lm_proc_binaries m) (lm_flash m) (lm_world m)
    (lm_deferred m) (Some policy) (lm_state m) (lm_calls m) (lm_ps m).

(** The first free place of an array. *)
Fixpoint find_open {A} (l : list (option A)) : option nat :=
  match l with
  | [] => None
  | None :: _ => Some O
  | Some _ :: l => S <$> find_open l
  end.
Definition find_open_process_slot (m : LoaderMachine) : option nat := find_open (lm_procs m).
Definition find_open_process_binary_slot (m : LoaderMachine) : option nat :=
  bs ← lm_proc_binaries m; find_open bs.

Definition is_blocked_from_loading_by (policy : option AppIdPolicy) (pb1 pb2 : ProcessBinary) : bool :=
  let same_app_id :=
    match policy with Some p => negb (different_identifier p pb1 pb2) | None => false end in
  let same_short_app_id :=
    match policy with
    | Some p => short_id_eqb (to_short_id p pb1) (to_short_id p pb2)
    | None => false
    end in
  let other_newer :=
    Tbf.get_binary_version (pb_header pb1) <? Tbf.get_binary_version (pb_header pb2) in
  (same_app_id || same_short_app_id) && other_newer.

Definition is_blocked_from_loading_by_process (policy : option AppIdPolicy) (pb : ProcessBinary)
    (process : Loaded) : bool :=
  let same_app_id :=
    match policy with Some p => negb (different_identifier_process p pb process) | None => false end in
  let same_short_app_id :=
    match policy with
    | Some p => short_id_eqb (to_short_id p pb) (l_short_id process)
    | None => false
    end in
  same_app_id || same_short_app_id.

(** [self.discover_process_binary()]: the slice is advanced when there is an
    entry, also when it is not a binary that can be loaded. *)
Definition discover (m : LoaderMachine)
    : outcome (result ProcessBinary ProcessBinaryError * LoaderMachine) :=
  let! '(flash, r) := discover_process_binary (lm_flash m) in
  Ret (r, set_flash flash m).

(** [ProcessCheckerMachineClient::done] *)
Definition done (process_binary : ProcessBinary) (res : Checker.Outcome) (m : LoaderMachine)
    : outcome LoaderMachine :=
  let! m :=
    match res with
    | Ok optional_credential =>
      match find_open_process_binary_slot m with
      | Some index =>
        match lm_proc_binaries m with
        | Some bs =>
          let! bs := set_index bs index (Some (set_credential optional_credential process_binary)) in
          Ret (set_proc_binaries (Some bs) m)
        | None => Ret m
        end
      | None => Ret (call_client (ProcessLoaded (Err NoProcessSlot)) m)
      end
    | Err e => Ret (call_client (ProcessLoaded (Err (CheckError e))) m)
    end in
  Ret (set_deferred true m).

Fixpoint handle_done (calls : list (ProcessBinary * Checker.Outcome)) (m : LoaderMachine)
    : outcome LoaderMachine :=
  match calls with
  | [] => Ret m
  | (pb, r) :: calls => let! m := done pb r m in handle_done calls m
  end.

(** [load_and_check] *)
Definition load_and_check (m : LoaderMachine) : outcome LoaderMachine :=
  let! '(ret, m) := discover m in
  match ret with
  | Ok pb =>
    let! '(r, checker, ps, calls) := Checker.check pb (lm_checker m) (lm_ps m) in
    let! m := handle_done calls (set_checker checker ps m) in
    match r with
    | Ok _ => Ret m
    | Err e => Ret (call_client (ProcessLoaded (Err (CheckError e))) m)
    end
  | Err NotEnoughFlash | Err TbfHeaderNotFound =>
    Ret (set_deferred true (set_lstate (Some LoadProcesses) m))
  | Err e => Ret (set_deferred true (call_client (ProcessLoaded (Err (BinaryError e))) m))
  end.

(** The body of the loop of [load_process_objects] for a binary that has been
    taken out of the array; [others] is what is left in it. *)
Definition load_process_object (process_binary : ProcessBinary)
    (others : list (option ProcessBinary)) (m : LoaderMachine) : outcome LoaderMachine :=
  if existsb (fun o => match o with
                       | Some other => is_blocked_from_loading_by (lm_policy m) process_binary other
                       | None => false end) others then Ret m
  else if existsb (fun o => match o with
                            | Some p => is_blocked_from_loading_by_process (lm_policy m) process_binary p
                            | None => false end) (lm_procs m) then Ret m
  else
    match find_open_process_slot m with
    | None => Ret (call_client (ProcessLoaded (Err NoProcessSlot)) m)
    | Some index =>
      let short_app_id :=
        match lm_policy m with Some p => to_short_id p process_binary | None => LocallyUnique end in
      let! '(r, w) := load_process process_binary short_app_id index (lm_world m) in
      let m := set_world w m in
      match r with
      | Ok l =>
        let! procs := set_index (lm_procs m) index (Some l) in
        Ret (call_client (ProcessLoaded (Ok tt)) (set_procs procs m))
      | Err e => Ret (call_client (ProcessLoaded (Err e)) m)
      end
    end.

(** The loop over the numbers of the binaries. *)
Fixpoint load_loop (is_ : list nat) (bs : list (option ProcessBinary)) (m : LoaderMachine)
    : outcome (list (option ProcessBinary) * LoaderMachine) :=
  match is_ with
  | [] => Ret (bs, m)
  | i :: is_ =>
    let! b := index bs i in
    match b with
    | Some process_binary =>
      let bs := <[i := None]> bs in
      let! m := load_process_object process_binary bs m in
      load_loop is_ bs m
    | None => load_loop is_ bs m
    end
  end.

Definition load_process_objects (m : LoaderMachine) : outcome (result unit unit * LoaderMachine) :=
  match lm_proc_binaries m with
  | None => Ret (Err tt, m)
  | Some bs =>
    let! '(bs, m) := load_loop (seq 0 (length bs)) bs (set_proc_binaries None m) in
    let m := set_proc_binaries (Some bs) m in
    Ret (Ok tt, set_lstate None (call_client ProcessLoadingFinished m))
  end.

Definition start (m : LoaderMachine) : LoaderMachine :=
  set_deferred true (set_lstate (Some DiscoverProcessBinaries) m).

(** A deferred call that is pending is cleared when it is handled. *)
Definition handle_deferred_call (m : LoaderMachine) : outcome LoaderMachine :=
  let m := set_deferred false m in
  match lm_state m with
  | Some DiscoverProcessBinaries => load_and_check m
  | Some LoadProcesses =>
    let! '(ret, m) := load_process_objects m in
    Ret (match ret with Ok _ => m | Err _ => call_client ProcessLoadingFinished m end)
  | None => Ret m
  end.

(** The policy answers a check: the checker goes on and calls [done]. *)
Definition policy_answers (res : result Checker.CheckResult ErrorCode)
    (credentials : Tbf.TbfFooterV2Credentials) (ps : PS) (m : LoaderMachine) : outcome LoaderMachine :=
  let! '(checker, ps, calls) := Checker.check_done res credentials (lm_checker m) ps in
  handle_done calls (set_checker checker ps m).

End loader.
End Loader.
