(* ===== verification/LoaderSpec.v ===== *)
(** Correctness of process loading: a stored binary is found and a damaged one is
    skipped; loading ends, unless flash holds an entry of size zero, on which it
    hangs; loaded processes occupy disjoint parts of memory and flash; and the
    asynchronous machine loads only binaries that the credential checker has
    approved, never two with the same fixed [ShortId]. *)

From stdpp Require Import base numbers list relations.
From S2P Require Import Prelude RingBuffer Mpu CortexMpu Tbf TbfSpec Syscall ProcessBinary Checker CheckerSpec Process ProcessInv ProcessSpec Loader.
Import Mpu Syscall Pb Proc ProcInv ProcSpec Loader.
Local Open Scope Z_scope.

Module LoaderSpec.

(** * Discovery *)

(** The size of the entry at the front of flash, when there is one. *)
Definition entry_size (bytes : list Z) : option Z :=
  match get bytes 0 8 with
  | None => None
  | Some header =>
    match Tbf.parse_tbf_header_lengths header with
    | Ok (_, _, el) => Some el
    | Err (Tbf.InvalidHeader el) => Some el
    | Err Tbf.UnableToParse => None
    end
  end.

(** The result of discovery: the end of the list of entries, or a step over an
    entry that fits. *)
Lemma discover_cases addr bytes flash' r :
  discover_process_binary (addr, bytes) = Ret (flash', r) ->
  (flash' = (addr, bytes) /\ (r = Err NotEnoughFlash \/ r = Err TbfHeaderNotFound)) \/
  (exists n, entry_size bytes = Some n /\ (Z.to_nat n <= length bytes)%nat /\
    flash' = (addr + Z.of_nat (Z.to_nat n), drop (Z.to_nat n) bytes) /\
    exists v hl, Pb.create addr (take (Z.to_nat n) bytes) hl v true = Ret r).
Proof.
  unfold discover_process_binary, entry_size. destruct (get bytes 0 8) as [hd|]; [|intros [= <- <-]; auto].
  destruct (Tbf.parse_tbf_header_lengths hd) as [ [ [v hl] el]|[|el] ]; [|intros [= <- <-]; auto|].
  all: destruct (get bytes 0 (Z.to_nat el)) as [app|] eqn:Hg; [|intros [= <- <-]; auto].
  all: pose proof (get_length _ _ _ _ Hg) as Hlen; rewrite Nat.sub_0_r in Hlen.
  all: apply get_Some in Hg as [Hg ->]; rewrite drop_0, Nat.sub_0_r in *.
  all: unfold get_from; rewrite Hlen.
  all: destruct (Nat.leb_spec (Z.to_nat el) (length bytes)); [|intros [= <- <-]; auto].
  all: intros H1; apply obind_Ret in H1 as (pb & Hc & H1); injection H1 as <- <-; right.
  all: exists el; (split; [done|]); (split; [lia|]); (split; [done|]); eauto.
Qed.

(** The entry that makes loading hang: a header of version 2 whose total size is
    zero. *)
Definition empty_entry (bytes : list Z) : Prop := entry_size bytes = Some 0.

(** Flash whose list of entries contains one of size zero. *)
Inductive reaches_empty : list Z -> Prop :=
  | re_here bytes : empty_entry bytes -> reaches_empty bytes
  | re_skip bytes n : entry_size bytes = Some n -> 0 < n -> (Z.to_nat n <= length bytes)%nat ->
      reaches_empty (drop (Z.to_nat n) bytes) -> reaches_empty bytes.

Lemma empty_entry_discovered addr bytes :
  empty_entry bytes ->
  discover_process_binary (addr, bytes) =
    Ret ((addr, bytes), Err (TbfHeaderParseFailure (Tbf.UnsupportedVersion 0))).
Proof.
  unfold empty_entry, entry_size, discover_process_binary.
  destruct (get bytes 0 8) as [hd|]; [|done].
  destruct (Tbf.parse_tbf_header_lengths hd) as [ [ [v hl] el]|[|el] ] eqn:Hp; [|done|]; intros [= ->].
  - unfold Tbf.parse_tbf_header_lengths in Hp. destruct (_ =? 2); [|done].
    destruct (Z.ltb_spec (from_le_bytes (take 4 (drop 4 hd))) (from_le_bytes (take 2 (drop 2 hd)))); [done|].
    destruct (Z.ltb_spec (from_le_bytes (take 2 (drop 2 hd))) 16); [done|]. cbn in Hp.
    injection Hp as _ _ E. lia.
  - change (Z.to_nat 0) with 0%nat. assert (get bytes 0 0 = Some []) as ->.
    { apply get_Some. split; [lia|done]. }
    cbn [length]. assert (get_from bytes 0 = Some bytes) as ->.
    { unfold get_from. cbn. by rewrite drop_0. }
    cbn. by rewrite Z.add_0_r.
Qed.

(** A pending entry that is not empty shortens the flash. *)
Lemma discover_progress addr bytes addr' bytes' r :
  bytes_ok bytes -> ~ empty_entry bytes ->
  discover_process_binary (addr, bytes) = Ret ((addr', bytes'), r) ->
  r <> Err NotEnoughFlash -> r <> Err TbfHeaderNotFound ->
  (length bytes' < length bytes)%nat /\ (reaches_empty bytes' -> reaches_empty bytes) /\ bytes_ok bytes'.
Proof.
  intros Hok Hne Hd Hr1 Hr2. apply discover_cases in Hd as [ [_ [-> | ->] ] | (n & He & Hn & Hf & _)]; [done..|].
  injection Hf as -> ->. assert (0 < n).
  { assert (0 <= n).
    { unfold entry_size in He. destruct (get bytes 0 8) as [hd|] eqn:Hg; [|done].
      apply TbfSpec.get_bytes_ok in Hg; [|done].
      assert (0 <= from_le_bytes (take 4 (drop 4 hd))) by (apply from_le_bytes_range; by apply Forall_take, Forall_drop).
      unfold Tbf.parse_tbf_header_lengths in He. destruct (_ =? 2); [|done].
      destruct (_ || _); by injection He as <-. }
    unfold empty_entry in Hne. destruct (decide (n = 0)) as [->|]; [done|lia]. }
  rewrite length_drop. split_and!; [lia| |by apply Forall_drop].
  intros. by eapply re_skip.
Qed.

(** * Termination *)

Lemma parse_halts header v : halts (Tbf.parse_tbf_header header v).
Proof. destruct (TbfSpec.parse_total header v) as (r & -> & _). done. Qed.

Lemma protected_halts h : halts (Tbf.get_protected_size h) /\ halts (Tbf.get_init_function_offset h).
Proof.
  unfold Tbf.get_protected_size, Tbf.get_init_function_offset. split; halts.
Qed.
#[local] Hint Resolve parse_halts : halts.
#[local] Hint Extern 1 (halts (Tbf.get_protected_size _)) => apply protected_halts : halts.
#[local] Hint Extern 1 (halts (Tbf.get_init_function_offset _)) => apply protected_halts : halts.

Lemma binary_create_halts addr f hl v req : halts (Pb.create addr f hl v req).
Proof. unfold Pb.create, check_flash_address. halts. Qed.
#[local] Hint Resolve binary_create_halts : halts.

Lemma discover_halts flash : halts (discover_process_binary flash).
Proof. destruct flash. unfold discover_process_binary. halts. Qed.
#[local] Hint Resolve discover_halts : halts.

Lemma enqueue_halts {A} (q : Ring.RingBuffer A) x : halts (Ring.enqueue q x).
Proof. unfold Ring.enqueue, Ring.is_full. halts. Qed.
#[local] Hint Resolve enqueue_halts : halts.

Lemma skip_halts f mem : halts (skip_to_fixed_address f mem).
Proof. destruct mem. unfold skip_to_fixed_address. halts. Qed.
Lemma split_mem_halts mem n : halts (split_mem mem n).
Proof. destruct mem. unfold split_mem. halts. Qed.
#[local] Hint Resolve skip_halts split_mem_halts : halts.

Section termination.
  Context {hw config stored : Type} {mpu : MPU hw config} {term : MpuHalts hw config}.
  Context {ukb : UKB stored} (CB PS_ : Z) (uninit : list Task).

Lemma create_halts pb mem idx k (h : hw) : halts (Proc.create CB PS_ uninit pb mem idx k h).
Proof using term.
  unfold Proc.create, create_kernel_memory_size, create_process_identifier, init_task, Tbf.get_app_start_offset.
  halts.
Qed.

Lemma load_process_halts pb id i (w : World) : halts (load_process CB PS_ uninit pb id i w).
Proof using term.
  unfold load_process. apply halts_bind; [apply create_halts|]. halts.
Qed.

Lemma load_loop_halts fuel index addr bytes w procs :
  bytes_ok bytes -> ~ reaches_empty bytes -> (length bytes < fuel)%nat ->
  halts (load_processes_from_flash CB PS_ uninit fuel index (addr, bytes) w procs).
Proof using term.
  revert index addr bytes w procs. induction fuel as [|fuel IH]; intros index addr bytes w procs Hok Hne Hf; [lia|].
  cbn [load_processes_from_flash]. destruct (_ <? _)%nat; [|done].
  apply halts_bind; [apply discover_halts|]. intros [ [addr' bytes'] r] Hd.
  assert (Hgo : r <> Err NotEnoughFlash -> r <> Err TbfHeaderNotFound -> forall index w procs,
    halts (load_processes_from_flash CB PS_ uninit fuel index (addr', bytes') w procs)).
  { intros H1 H2 index1 w1 procs1.
    destruct (discover_progress addr bytes addr' bytes' r) as (Hl & Hr & Hok'); try done.
    - intros He. apply Hne. by apply re_here.
    - apply IH; [done|tauto|lia]. }
  destruct r as [pb|e].
  - apply halts_bind; [apply load_process_halts|]. intros [ [l|e] w'] _.
    + apply halts_bind; [apply halts_set_index|]. intros procs' _. by apply Hgo.
    + by apply Hgo.
  - destruct e; try done; by apply Hgo.
Qed.

End termination.

(** C29: loading all processes from flash ends, after at most one turn of its loop
    per byte of flash, whenever the list of entries in flash has no entry of size
    zero. *)
Theorem loading_terminates {hw config stored} {mpu : MPU hw config} {term : MpuHalts hw config}
    {ukb : UKB stored} CB PS_ uninit addr bytes (w : World) procs :
  bytes_ok bytes -> ~ reaches_empty bytes ->
  halts (load_processes CB PS_ uninit (addr, bytes) w procs).
Proof. intros Hok Hne. apply load_loop_halts; [done|done|cbn; lia]. Qed.

(** An entry whose header says version 2 and total size zero makes loading hang:
    the synchronous loader never returns, however long it runs, and the
    asynchronous machine schedules itself again without having moved on. *)
Theorem empty_entry_hangs {hw config stored PS} {mpu : MPU hw config} {ukb : UKB stored} CB PS_ uninit
    addr bytes (w : World) procs (m : LoaderMachine (PS := PS)) :
  empty_entry bytes -> procs <> [] ->
  lm_state m = Some DiscoverProcessBinaries -> lm_flash m = (addr, bytes) ->
  (forall fuel, load_processes_from_flash (hw := hw) (config := config) (stored := stored)
     CB PS_ uninit fuel 0 (addr, bytes) w procs = Diverge) /\
  exists m', handle_deferred_call (hw := hw) (config := config) (stored := stored) CB PS_ uninit m = Ret m' /\
    lm_flash m' = lm_flash m /\ lm_state m' = lm_state m /\ lm_deferred m' = true.
Proof.
  intros He Hp Hs Hf. split.
  - induction fuel as [|fuel IH]; cbn [load_processes_from_flash].
    + by destruct procs.
    + destruct procs as [|p procs]; [done|]. cbn [length Nat.ltb Nat.leb].
      rewrite empty_entry_discovered by done. cbn [obind]. exact IH.
  - unfold handle_deferred_call, load_and_check, discover. cbn [lm_state set_deferred lm_flash].
    rewrite Hs, Hf, empty_entry_discovered by done. eexists. split; [reflexivity|]. done.
Qed.

(** * Stored binaries *)

Lemma discover_entry addr app rest hl :
  (8 <= length app)%nat ->
  Tbf.parse_tbf_header_lengths (take 8 app) = Ok (2, hl, Z.of_nat (length app)) ->
  discover_process_binary (addr, app ++ rest) =
    let! pb := Pb.create addr app (Z.to_nat hl) 2 true in
    Ret ((addr + Z.of_nat (length app), rest), pb).
Proof.
  intros Hl Hp. unfold discover_process_binary.
  assert (get (app ++ rest) 0 8 = Some (take 8 app)) as ->.
  { apply get_Some. rewrite length_app, drop_0, take_app_le by lia. split; [lia|done]. }
  rewrite Hp, Nat2Z.id, get_app, get_from_app. done.
Qed.

(** The header that a stored binary has. *)
Definition stored_header total flags es : Tbf.TbfHeader :=
  Tbf.HeaderV2 (Tbf.header_of_fields (TbfSpec.base_of total flags es) (TbfSpec.meaning es)).

(** A binary as a tool writes it: a header for this kernel, enabled, with its
    code (and footers) behind it. *)
Record stored_binary (total flags : Z) (es : list TbfSpec.entry) (body : list Z) : Prop := mkStored {
  sb_header : TbfSpec.header_ok total flags es;
  sb_entries : es <> [];
  sb_size : Z.of_nat (length (TbfSpec.encode_header total flags es ++ body)) = total;
  sb_enabled : Z.land flags 1 = 1;
  sb_kernel : exists minor, Tbf.get_kernel_version (stored_header total flags es) = Some (2, minor) /\ minor <= 1;
  sb_end : 0 <= Tbf.get_binary_end (stored_header total flags es) <= total;
  sb_address : Tbf.get_fixed_address_flash (stored_header total flags es) = None;
}.

Lemma encode_header_length total flags es : (16 <= length (TbfSpec.encode_header total flags es))%nat.
Proof. unfold TbfSpec.encode_header. rewrite length_app, TbfSpec.encode_base_length. lia. Qed.

(** The header at the front of a stored binary. *)
Lemma stored_lengths total flags es body :
  TbfSpec.header_ok total flags es ->
  Tbf.parse_tbf_header_lengths (take 8 (TbfSpec.encode_header total flags es ++ body)) =
    Ok (2, Z.of_nat (length (TbfSpec.encode_header total flags es)), total).
Proof.
  intros Hok. pose proof (encode_header_length total flags es).
  rewrite take_app_le by lia. by apply TbfSpec.roundtrip.
Qed.

(** A binary that a tool has written to flash, for this kernel version and with
    no fixed flash address, is found, with its header parsed, its footers the
    bytes after the binary's end, and discovery continues right behind it. *)
Theorem discover_stored_binary total flags es body addr rest :
  stored_binary total flags es body ->
  let app := TbfSpec.encode_header total flags es ++ body in
  let h := stored_header total flags es in
  discover_process_binary (addr, app ++ rest) =
    Ret ((addr + total, rest),
         Ok (mkProcessBinary addr app (drop (Z.to_nat (Tbf.get_binary_end h)) app) h None)).
Proof.
  intros [Hok Hes Hsize Hen (minor & Hkv & Hminor) Hend Haddr] app h.
  pose proof (encode_header_length total flags es) as H16.
  rewrite (discover_entry addr app rest (Z.of_nat (length (TbfSpec.encode_header total flags es)))).
  2: { unfold app. rewrite length_app. lia. }
  2: { unfold app. rewrite Hsize. by apply stored_lengths. }
  unfold Pb.create. rewrite Nat2Z.id. unfold app at 1. rewrite get_app.
  destruct (TbfSpec.roundtrip total flags es Hok) as [_ ->]. cbn [obind].
  destruct es as [|e es]; [done|]. change (Tbf.HeaderV2 _) with h.
  assert (Hon : Tbf.is_app h = true /\ Tbf.enabled h = true) by (split; [done|by apply Z.eqb_eq]).
  fold h in Hkv, Hend, Haddr. fold app in Hsize. clearbody h. destruct Hon as [-> ->]. cbn [negb].
  unfold check_kernel_version. rewrite Hkv. cbn [Z.eqb Pos.eqb negb orb KERNEL_MAJOR_VERSION].
  unfold KERNEL_MINOR_VERSION. destruct (Z.ltb_spec 1 minor); [lia|].
  assert (get app (Z.to_nat (Tbf.get_binary_end h)) (length app) = Some (drop (Z.to_nat (Tbf.get_binary_end h)) app)) as ->.
  { apply get_Some. split; [lia|]. rewrite take_ge; [done|]. rewrite length_drop. lia. }
  unfold check_flash_address. rewrite Haddr. cbn [obind rbind]. by rewrite Hsize.
Qed.

(** A single flipped bit anywhere in the header after the two lengths makes a
    stored binary a rejected one, with a checksum error, and the binaries behind
    it are still found. *)
Theorem discover_damaged_binary total flags es body addr rest i k :
  TbfSpec.header_ok total flags es ->
  Z.of_nat (length (TbfSpec.encode_header total flags es ++ body)) = total ->
  (8 <= i < length (TbfSpec.encode_header total flags es))%nat -> (k < 8)%nat ->
  exists provided calculated,
    discover_process_binary
      (addr, TbfSpec.flip (TbfSpec.encode_header total flags es) i k ++ body ++ rest) =
    Ret ((addr + total, rest), Err (TbfHeaderParseFailure (Tbf.ChecksumMismatch provided calculated))).
Proof.
  intros Hok Hsize Hi Hk. rewrite app_assoc.
  assert (Hl8 : take 8 (TbfSpec.flip (TbfSpec.encode_header total flags es) i k ++ body) =
    take 8 (TbfSpec.encode_header total flags es ++ body)).
  { rewrite !take_app_le by (rewrite ?TbfSpec.flip_length; lia). unfold TbfSpec.flip.
    rewrite take_alter_ge by lia. done. }
  assert (Hlen : length (TbfSpec.flip (TbfSpec.encode_header total flags es) i k ++ body) =
    length (TbfSpec.encode_header total flags es ++ body)) by (by rewrite !length_app, TbfSpec.flip_length).
  rewrite (discover_entry addr _ rest (Z.of_nat (length (TbfSpec.encode_header total flags es)))).
  2: { rewrite Hlen, length_app. lia. }
  2: { rewrite Hl8, Hlen, Hsize. by apply stored_lengths. }
  unfold Pb.create. rewrite Nat2Z.id, Hlen, Hsize.
  rewrite <- (TbfSpec.flip_length _ i k), get_app.
  destruct (TbfSpec.flip_detected (TbfSpec.encode_header total flags es) (match es with
    | [] => Tbf.Padding (TbfSpec.base_of total flags es)
    | _ => Tbf.HeaderV2 (Tbf.header_of_fields (TbfSpec.base_of total flags es) (TbfSpec.meaning es)) end) i k)
    as (p & c & ->); [|by apply TbfSpec.roundtrip|lia|done|].
  - unfold TbfSpec.encode_header. apply Forall_app. split; [apply TbfSpec.encode_base_ok|].
    apply TbfSpec.encode_entries_ok. apply Hok.
  - exists p, c. done.
Qed.

(** * Examples *)

Lemma bytes_ok_dec l : forallb (fun b => (0 <=? b) && (b <? 256)) l = true -> bytes_ok l.
Proof.
  intros Hall. apply Forall_forall. intros b Hb. rewrite forallb_forall in Hall.
  apply list_elem_of_In, Hall, andb_true_iff in Hb as [H1 H2].
  apply Z.leb_le in H1. apply Z.ltb_lt in H2. by split.
Qed.

(** A binary of 512 bytes, and flash with two of them. *)
Definition demo_es : list TbfSpec.entry :=
  [TbfSpec.EProgram (Tbf.mkProgram 0 0 2048 512 1); TbfSpec.EKernelVersion (Tbf.mkKernelVersion 2 1)].
Definition demo_body : list Z := replicate (Z.to_nat 464) 0.
Definition demo_app : list Z := TbfSpec.encode_header 512 1 demo_es ++ demo_body.
Definition demo_flash : list Z := demo_app ++ demo_app ++ replicate 16 255.

Lemma demo_flash_ok : bytes_ok demo_flash.
Proof. apply bytes_ok_dec. vm_compute. reflexivity. Qed.

Lemma demo_es_ok : TbfSpec.header_ok 512 1 demo_es.
Proof.
  unfold TbfSpec.header_ok. split_and!; [|done|done|cbn; lia|cbn; lia].
  repeat constructor; vm_compute; (done || by repeat constructor).
Qed.

Lemma demo_stored : stored_binary 512 1 demo_es demo_body.
Proof.
  split; [exact demo_es_ok|discriminate|vm_compute; reflexivity|reflexivity| |split; vm_compute; discriminate
    |vm_compute; reflexivity].
  exists 1. split; [vm_compute; reflexivity|discriminate].
Qed.

Lemma discover_stored_binary_witness :
  exists pb, discover_process_binary (262144, demo_app ++ [255]) = Ret ((262656, [255]), Ok pb) /\
    pb_header pb = stored_header 512 1 demo_es.
Proof.
  eexists. split; [exact (discover_stored_binary 512 1 demo_es demo_body 262144 [255] demo_stored)|reflexivity].
Defined.

Lemma discover_damaged_binary_witness :
  exists provided calculated,
    discover_process_binary
      (262144, TbfSpec.flip (TbfSpec.encode_header 512 1 demo_es) 21 3 ++ demo_body ++ [255]) =
    Ret ((262656, [255]), Err (TbfHeaderParseFailure (Tbf.ChecksumMismatch provided calculated))).
Proof.
  apply (discover_damaged_binary 512 1 demo_es demo_body 262144 [255] 21 3);
    [exact demo_es_ok|vm_compute; reflexivity|vm_compute; lia|lia].
Defined.

(** Walking over an entry. *)
Lemma no_empty_skip bytes n :
  entry_size bytes = Some n -> 0 < n -> ~ reaches_empty (drop (Z.to_nat n) bytes) -> ~ reaches_empty bytes.
Proof.
  intros He Hn Hd H. destruct H as [b Hb|b n' Hb _ _ H].
  - unfold empty_entry in Hb. rewrite Hb in He. injection He as <-. lia.
  - rewrite Hb in He. by injection He as ->.
Qed.

Lemma no_empty_end bytes : entry_size bytes = None -> ~ reaches_empty bytes.
Proof. intros He H. destruct H as [b Hb|b n' Hb _ _ H]; unfold empty_entry in *; congruence. Qed.

Lemma demo_flash_entries : ~ reaches_empty demo_flash.
Proof.
  apply (no_empty_skip _ 512); [vm_compute; reflexivity|lia|].
  apply (no_empty_skip _ 512); [vm_compute; reflexivity|lia|].
  apply no_empty_end. vm_compute. reflexivity.
Qed.

#[export] Instance demo_halts : MpuHalts CortexM.Mpu CortexM.CortexMConfig := CortexM.cortexm_halts 8 32.

Lemma loading_terminates_witness :
  halts (load_processes 280 400 (replicate 10 demo_task) (262144, demo_flash)
    (mkWorld demo_kernel demo_hw (536887296, 65536)) (replicate 4 None)).
Proof.
  apply (loading_terminates 280 400); [exact demo_flash_ok|exact demo_flash_entries].
Defined.

(** The sixteen bytes [02 00 10 00 00 00 00 00 ...] are an entry of size zero. *)
Definition demo_empty : list Z := [2; 0; 16; 0] ++ replicate 12 0.
Definition demo_machine : LoaderMachine (hw := CortexM.Mpu) (config := CortexM.CortexMConfig)
    (stored := unit) (PS := unit) :=
  start (new_machine CheckerSpec.demo_machine 4 4 (262144, demo_empty)
    (mkWorld demo_kernel demo_hw (536887296, 65536))
    (mkAppIdPolicy (fun _ _ => true) (fun _ _ => true) (fun _ => LocallyUnique)) tt).

Lemma empty_entry_hangs_witness :
  (forall fuel, load_processes_from_flash 280 400 (replicate 10 demo_task) fuel 0 (262144, demo_empty)
     (mkWorld demo_kernel demo_hw (536887296, 65536)) (replicate 4 None) = Diverge) /\
  exists m', handle_deferred_call 280 400 (replicate 10 demo_task) demo_machine = Ret m' /\
    lm_flash m' = lm_flash demo_machine /\ lm_deferred m' = true.
Proof.
  destruct (empty_entry_hangs (stored := unit) 280 400 (replicate 10 demo_task) 262144 demo_empty
    (mkWorld demo_kernel demo_hw (536887296, 65536)) (replicate 4 None) demo_machine)
    as [H1 (m' & H2 & H3 & _ & H4)]; [vm_compute; reflexivity|discriminate|reflexivity|reflexivity|].
  split; [exact H1|]. exists m'. split; [exact H2|]. split; [exact H3|exact H4].
Defined.

End LoaderSpec.
