(* ===== verification/LoaderIso.v ===== *)
(** Loaded processes are separate: each gets a block of memory of its own, its own
    identifier and, from the synchronous loader, its own part of flash; with room
    for the initial memory at the MPU's granularity every one is well formed in
    the sense of [ProcInv.wf].  The lemma [load_process_layout] serves the
    synchronous loader here and the asynchronous machine. *)

From stdpp Require Import base numbers list relations.
From S2P Require Import Prelude RingBuffer Mpu CortexMpu Tbf TbfSpec Syscall ProcessBinary Process ProcessInv ProcessSpec Loader LoaderSpec.
Import Mpu Syscall Pb Proc ProcInv ProcSpec Loader LoaderSpec.
Local Open Scope Z_scope.

Module LoaderIso.

Section iso.
  Context {hw config stored : Type} {mpu : MPU hw config} {iso : MpuIsolation hw config}.
  Context {ukb : UKB stored} (CB PS_ : Z) (uninit : list Task).

Abbreviation Loaded := (Loaded (config := config) (stored := stored)).
Abbreviation World := (World (hw := hw)).

(** What is known of a binary that comes from flash. *)
Record binary_ok (pb : ProcessBinary) : Prop := mkBinaryOk {
  bo_flash : u32_range (pb_flash_ptr pb);
  bo_len : u32_range (pb_flash_len pb);
  bo_ram : 0 <= Tbf.get_minimum_app_ram_size (pb_header pb);
}.

(** Two processes share no memory and no identifier. *)
Definition separate (l1 l2 : Loaded) : Prop :=
  let p1 := l_process l1 in let p2 := l_process l2 in
  (memory_start p1 + memory_len p1 <= memory_start p2 \/
   memory_start p2 + memory_len p2 <= memory_start p1) /\
  identifier (process_id p1) <> identifier (process_id p2).

(** A process in place [i], in the memory from [lo] to [hi]. *)
Record placed (k : Kernel) (lo hi : Z) (i : nat) (l : Loaded) : Prop := mkPlaced {
  pl_start : lo <= memory_start (l_process l);
  pl_len : 0 <= memory_len (l_process l);
  pl_end : memory_start (l_process l) + memory_len (l_process l) <= hi;
  pl_index : pindex (process_id (l_process l)) = Z.of_nat i;
  pl_id : identifier (process_id (l_process l)) < process_identifier_max k;
  pl_wf : has_room CB PS_ k (l_process l) -> wf (l_process l);
}.

(** The memory from [lo] to [hi]: the processes have the front of it. *)
Record layout (lo hi : Z) (w : World) (procs : list (option Loaded)) : Prop := mkLayout {
  la_lo : 0 <= lo;
  la_front : lo <= fst (w_memory w);
  la_rest : 0 <= snd (w_memory w);
  la_hi : fst (w_memory w) + snd (w_memory w) = hi;
  la_space : hi < U32;
  la_placed : forall i l, procs !! i = Some (Some l) ->
    placed (w_kernel w) lo (fst (w_memory w)) i l;
  la_separate : forall i j l1 l2, i <> j -> procs !! i = Some (Some l1) ->
    procs !! j = Some (Some l2) -> separate l1 l2;
}.

Lemma has_room_grants k k' (p : process stored config) :
  grant_counter k' = grant_counter k -> has_room CB PS_ k' p -> has_room CB PS_ k p.
Proof using. unfold has_room, create_kernel_memory_size. by intros ->. Qed.

Lemma placed_mono k k' lo hi hi' i l :
  placed k lo hi i l -> hi <= hi' -> process_identifier_max k <= process_identifier_max k' ->
  grant_counter k' = grant_counter k -> placed k' lo hi' i l.
Proof using.
  intros [H1 H2 H3 H4 H5 H6] Hhi Hid Hg. split; try done; try lia.
  intros Hr. apply H6. by eapply has_room_grants.
Qed.

(** What is known of a process that has just been created for a binary. *)
Record created_for (pb : ProcessBinary) (id : ShortId) (l : Loaded) : Prop := mkCreatedFor {
  cf_flash : flash_ptr (l_process l) = pb_flash_ptr pb;
  cf_flash_len : flash_len (l_process l) = pb_flash_len pb;
  cf_header : header (l_process l) = pb_header pb;
  cf_id : l_short_id l = id;
}.

(** * Flash *)

(** Flash from [lo] to [hi]: the part that is left, and the parts of the
    processes before it. *)
Record flash_layout (lo hi : Z) (flash : Flash) (procs : list (option Loaded)) : Prop := mkFlashLayout {
  fl_lo : 0 <= lo;
  fl_front : lo <= fst flash;
  fl_hi : fst flash + Z.of_nat (length (snd flash)) = hi;
  fl_space : hi < U32;
  fl_bytes : bytes_ok (snd flash);
  fl_placed : forall i l, procs !! i = Some (Some l) -> lo <= flash_ptr (l_process l) /\
    0 <= flash_len (l_process l) /\ flash_ptr (l_process l) + flash_len (l_process l) <= fst flash;
  fl_ordered : forall i j l1 l2, (i < j)%nat -> procs !! i = Some (Some l1) -> procs !! j = Some (Some l2) ->
    flash_ptr (l_process l1) + flash_len (l_process l1) <= flash_ptr (l_process l2);
}.

(** Discovery steps over the part of flash that the binary gets. *)
Lemma discover_layout lo hi flash procs flash' r :
  flash_layout lo hi flash procs -> discover_process_binary flash = Ret (flash', r) ->
  flash_layout lo hi flash' procs /\
  forall pb, r = Ok pb -> binary_ok pb /\ pb_flash_ptr pb = fst flash /\
    fst flash + pb_flash_len pb = fst flash'.
Proof using.
  destruct flash as [addr bytes]. intros [F1 F2 F3 F4 F5 F6 F7] Hd. cbn in *.
  apply discover_cases in Hd as [ [-> [-> | ->] ] | (n & He & Hn & -> & v & hl & Hc)];
    [split; [by split|done]..|].
  split.
  - split; cbn; try done; try lia.
    + rewrite length_drop. lia.
    + by apply Forall_drop.
    + intros i l Hi. destruct (F6 i l Hi) as (? & ? & ?). lia.
  - intros pb ->. apply create_wf in Hc as ([(m & Hm & Hp) _ _] & E1 & E2 & _).
    assert (Hlen : pb_flash_len pb = Z.of_nat (Z.to_nat n)).
    { unfold pb_flash_len. rewrite E2, length_take. lia. }
    split; [|split; [done|cbn; lia] ]. split.
    + rewrite E1. unfold u32_range. lia.
    + rewrite Hlen. unfold u32_range. lia.
    + apply TbfSpec.parse_header_ranges in Hp as [Hr _]; [apply Hr|].
      rewrite E2. by apply Forall_take, Forall_take.
Qed.

(** The places below [index] are taken and the others free. *)
Definition filled (index : nat) (procs : list (option Loaded)) : Prop :=
  forall i, (i < length procs)%nat ->
    if (i <? index)%nat then exists l, procs !! i = Some (Some l) else procs !! i = Some None.

Lemma filled_next index procs l :
  filled index procs -> (index < length procs)%nat -> filled (S index) (<[index := Some l]> procs).
Proof using.
  intros Hf Hi i. rewrite length_insert. intros Hl. specialize (Hf i Hl).
  destruct (decide (i = index)) as [->|Hne].
  - destruct (Nat.ltb_spec index (S index)); [|lia]. exists l. by rewrite list_lookup_insert_eq.
  - rewrite list_lookup_insert_ne by done.
    destruct (Nat.ltb_spec i index), (Nat.ltb_spec i (S index)); first [done|lia].
Qed.

(** * Loading *)

Context (Happ : 0 <= initial_process_app_brk_size) (Hcb : 0 <= CB) (Hps : 0 <= PS_).
Context (Huninit : length uninit = CALLBACK_LEN).

Lemma load_process_layout lo hi pb id index w procs r w' :
  layout lo hi w procs -> binary_ok pb -> procs !! index = Some None ->
  load_process CB PS_ uninit pb id index w = Ret (r, w') ->
  match r with
  | Ok l => layout lo hi w' (<[index := Some l]> procs) /\ created_for pb id l
  | Err _ => layout lo hi w' procs
  end.
Proof using iso Happ Hcb Hps Huninit.
  intros [L1 L2 L3 L4 L5 L6 L7] [B1 B2 B3] Hslot H. unfold load_process in H.
  apply obind_Ret in H as ([ [res k'] h'] & Hc & H). destruct w as [k h [ptr len] ]. cbn [w_memory w_kernel w_hw fst snd] in *.
  destruct res as [ [p [ptr' len'] ]|[e [ptr' len'] ] ]; injection H as <- <-.
  - apply create_block in Hc as (Hcr & Hid & Hwf); [|first [done|lia].. ].
    destruct Hcr as [C1 C2 C3 C4 C5 C6 C7 C8 C9 C10]. destruct Hid as [I1 I2 I3 I4 I5 I6]. cbn in *.
    assert (Hold : forall i l, <[index := Some (mkLoaded p id)]> procs !! i = Some (Some l) ->
      (i = index /\ l = mkLoaded p id) \/ (i <> index /\ procs !! i = Some (Some l))).
    { intros i l Hi. destruct (decide (i = index)) as [->|Hne].
      - apply lookup_lt_Some in Hslot. rewrite list_lookup_insert_eq in Hi by done. left. by injection Hi as <-.
      - rewrite list_lookup_insert_ne in Hi by done. by right. }
    assert (Hsep : forall i l, procs !! i = Some (Some l) -> separate l (mkLoaded p id) /\ separate (mkLoaded p id) l).
    { intros i l Hi. destruct (L6 _ _ Hi). unfold separate. cbn. rewrite I1. cbn. split; split; lia. }
    split; [|by split]. split; cbn; try done; try lia.
    + intros i l [ [-> ->] | [Hne Hi] ]%Hold.
      * split; cbn; rewrite ?I1; cbn; try done; try lia. intros Hr. apply Hwf. intros n Hn.
        apply Hr. unfold create_kernel_memory_size in *. by rewrite I3.
      * eapply placed_mono; [by apply L6|lia..].
    + intros i j l1 l2 Hij [ [-> ->] | [_ Hi] ]%Hold [ [-> ->] | [_ Hj] ]%Hold; [done|..].
      * by eapply Hsep.
      * by eapply Hsep.
      * by eapply L7.
  - apply create_failed in Hc as (F1 & F2 & F3 & F4 & F5); [|first [done|lia].. ].
    split; cbn; try done; try lia. intros i l Hi. eapply placed_mono; [by apply L6|lia..].
Qed.

Lemma load_loop_layout fuel index flash w procs w' procs' lo hi flo fhi :
  layout lo hi w procs -> flash_layout flo fhi flash procs -> filled index procs ->
  load_processes_from_flash CB PS_ uninit fuel index flash w procs = Ret (w', procs') ->
  length procs' = length procs /\ layout lo hi w' procs' /\
  (exists flash', flash_layout flo fhi flash' procs') /\ exists index', filled index' procs'.
Proof using iso Happ Hcb Hps Huninit.
  revert index flash w procs. induction fuel as [|fuel IH]; intros index flash w procs Hl Hfl Hfill;
    cbn [load_processes_from_flash]; destruct (Nat.ltb_spec index (length procs)) as [Hi|Hi];
    try (intros H; done); try (by intros [= <- <-]; split_and!; [|  |eexists|eexists]).
  intros H. apply obind_Ret in H as ([flash1 r] & Hd & H).
  destruct (discover_layout _ _ _ _ _ _ Hfl Hd) as [Hfl1 Hpb].
  destruct r as [pb|e].
  2: { destruct e; try by apply (IH index flash1 w procs).
       all: by injection H as <- <-; split_and!; [| |eexists|eexists]. }
  destruct (Hpb pb eq_refl) as (Hok & Hptr & Hlen).
  apply obind_Ret in H as ([r1 w1] & Hload & H).
  assert (Hslot : procs !! index = Some None).
  { specialize (Hfill index Hi). by destruct (Nat.ltb_spec index index); [lia|]. }
  pose proof (load_process_layout _ _ _ _ _ _ _ _ _ Hl Hok Hslot Hload) as Hr.
  destruct r1 as [l|e]; [|by apply (IH index flash1 w1 procs)].
  destruct Hr as [Hl1 [Cf Cl Ch _] ]. rewrite set_index_ok in H by done. cbn [obind] in H.
  apply IH in H as (E & ?); [rewrite length_insert in E; by split|done| |by apply filled_next].
  destruct Hfl1 as [G1 G2 G3 G4 G5 G6 G7]. split; try done.
  - intros i l1 Hi1. destruct (decide (i = index)) as [->|Hne].
    + rewrite list_lookup_insert_eq in Hi1 by done. injection Hi1 as <-.
      rewrite Cf, Cl. destruct Hfl as [? Hfr _ _ _ _ _]. unfold pb_flash_len in *. lia.
    + rewrite list_lookup_insert_ne in Hi1 by done. by eapply G6.
  - intros i j l1 l2 Hij Hi1 Hj1. destruct (decide (j = index)) as [->|Hne].
    + rewrite list_lookup_insert_eq in Hj1 by done. injection Hj1 as <-.
      rewrite list_lookup_insert_ne in Hi1 by lia. rewrite Cf, Hptr.
      by destruct (fl_placed _ _ _ _ Hfl i l1 Hi1) as (_ & _ & ?).
    + rewrite list_lookup_insert_ne in Hj1 by done. destruct (decide (i = index)) as [->|Hne2].
      * apply lookup_lt_Some in Hj1 as Hj2. specialize (Hfill j Hj2).
        destruct (Nat.ltb_spec j index); [lia|]. congruence.
      * rewrite list_lookup_insert_ne in Hi1 by done. by eapply (G7 i j).
Qed.

End iso.

(** C9: the processes that the loader creates from flash are separate: the process
    in place [i] knows its place; each lies in the memory and the flash that the
    loader was given; any two have disjoint memory blocks, disjoint parts of
    flash in the order of their places, and different identifiers; and each is
    well formed (its MPU configuration exposes its app memory and none of the
    kernel's) when its block has room at the MPU's granularity. *)
Theorem loaded_processes_separate {hw config stored} {mpu : MPU hw config} {iso : MpuIsolation hw config}
    {ukb : UKB stored} CB PS_ uninit addr bytes ptr len k (h : hw) n w' procs' :
  0 <= initial_process_app_brk_size -> 0 <= CB -> 0 <= PS_ -> length uninit = CALLBACK_LEN ->
  0 <= ptr -> 0 <= len -> ptr + len < U32 ->
  0 <= addr -> addr + Z.of_nat (length bytes) < U32 -> bytes_ok bytes ->
  load_processes CB PS_ uninit (addr, bytes) (mkWorld k h (ptr, len)) (replicate n None) = Ret (w', procs') ->
  length procs' = n /\
  (forall i l, procs' !! i = Some (Some l) ->
     let p := l_process l in
     pindex (process_id p) = Z.of_nat i /\
     ptr <= memory_start p /\ memory_start p + memory_len p <= ptr + len /\
     addr <= flash_ptr p /\ flash_ptr p + flash_len p <= addr + Z.of_nat (length bytes) /\
     (has_room CB PS_ (w_kernel w') p -> wf p)) /\
  (forall i j l1 l2, (i < j)%nat -> procs' !! i = Some (Some l1) -> procs' !! j = Some (Some l2) ->
     separate l1 l2 /\
     flash_ptr (l_process l1) + flash_len (l_process l1) <= flash_ptr (l_process l2)).
Proof.
  intros Happ Hcb Hps Hun Hp Hl Hpl Ha Hal Hok H.
  assert (Hnone : forall i (l : Loaded (stored := stored) (config := config)),
    replicate n None !! i = Some (Some l) -> False).
  { intros i l. by intros [? _]%lookup_replicate. }
  apply (load_loop_layout CB PS_ uninit Happ Hcb Hps Hun _ _ _ _ _ _ _ ptr (ptr + len) addr
    (addr + Z.of_nat (length bytes))) in H as (Hn & [L1 L2 L3 L4 L5 L6 L7] & (flash' & [F1 F2 F3 F4 F5 F6 F7]) & _).
  - rewrite length_replicate in Hn. split; [done|]. split.
    + intros i l Hi. destruct (L6 i l Hi) as [P1 P2 P3 P4 P5 P6]. destruct (F6 i l Hi) as (G1 & G2 & G3).
      cbn in *. split_and!; try done; lia.
    + intros i j l1 l2 Hij Hi Hj. split; [by apply (L7 i j); [lia|..]|by eapply F7].
  - split; cbn; try done; try lia; intros; exfalso; by eapply Hnone.
  - split; cbn; try done; try lia; intros; exfalso; by eapply Hnone.
  - intros i Hi. rewrite length_replicate in Hi. destruct (Nat.ltb_spec i 0); [lia|].
    by apply lookup_replicate.
Qed.

(** * Examples *)

Definition demo_load :=
  load_processes 280 400 (replicate 10 demo_task) (262144, demo_flash)
    (mkWorld demo_kernel demo_hw (536887296, 65536)) (replicate 4 None).

Lemma loaded_processes_separate_witness :
  exists w' procs', demo_load = Ret (w', procs') /\ length procs' = 4%nat /\
    exists l1 l2, procs' !! 0%nat = Some (Some l1) /\ procs' !! 1%nat = Some (Some l2) /\
      separate l1 l2 /\ flash_ptr (l_process l1) + flash_len (l_process l1) <= flash_ptr (l_process l2).
Proof.
  destruct demo_load as [ [w' procs']| |] eqn:E; try (exfalso; vm_compute in E; discriminate E).
  exists w', procs'. split; [reflexivity|].
  destruct (loaded_processes_separate 280 400 (replicate 10 demo_task) 262144 demo_flash 536887296 65536
    demo_kernel demo_hw 4 w' procs') as (Hn & _ & Hsep);
    [discriminate|discriminate|discriminate|reflexivity|discriminate|discriminate|reflexivity|discriminate
    |vm_compute; reflexivity|exact demo_flash_ok|exact E|].
  split; [exact Hn|].
  assert (Htwo : match demo_load with
    | Ret (_, Some _ :: Some _ :: _) => true | _ => false end = true) by (vm_compute; reflexivity).
  rewrite E in Htwo. destruct procs' as [|[l1|] [|[l2|] rest] ]; try discriminate Htwo.
  exists l1, l2. split; [reflexivity|]. split; [reflexivity|]. apply (Hsep 0%nat 1%nat); [lia|reflexivity|reflexivity].
Defined.

End LoaderIso.
