(* ===== verification/LoaderMachine.v ===== *)
(** Invariants of the asynchronous loader ([SequentialProcessLoaderMachine] of
    [kernel/src/process_loading.rs] with its [ProcessCheckerMachine]).

    [LoaderMachine.lstep] is everything that can happen to the machine: its
    deferred call runs, or the credential policy answers the check that is under
    way.  Whatever happens, the loaded processes are separate, come from binaries
    that the checker has approved, and have different fixed [ShortId]s. *)

From stdpp Require Import base numbers list relations.
From S2P Require Import Prelude RingBuffer Mpu CortexMpu Tbf TbfSpec Syscall ProcessBinary Checker CheckerSpec Process ProcessInv ProcessSpec Loader LoaderSpec LoaderIso.
Import Mpu Syscall Pb Proc ProcInv ProcSpec CheckerSpec Loader LoaderSpec LoaderIso.
Local Open Scope Z_scope.

Module LoaderMachine.

(** * What the checker reports *)

Section checker.
  Context {PS : Type} (pol : Checker.Policy PS).

(** A call of the client that is not the acceptance of a credential. *)
Definition unaccepted (pb : ProcessBinary) (call : ProcessBinary * Checker.Outcome) : Prop :=
  fst call = pb /\ forall o, snd call = Ok o -> o = None /\ Checker.require_credentials pol = false.

(** The machine keeps its client and its policy, and the binary or nothing. *)
Definition same_machine (m m' : Checker.Machine PS) : Prop :=
  Checker.client m' = Checker.client m /\ Checker.policy m' = Checker.policy m.

Lemma next_loop_calls fuel pb m ps m' ps' calls :
  Checker.next_loop fuel pol pb m ps = Ret (m', ps', calls) ->
  same_machine m m' /\
  (Checker.process_binary m' = Checker.process_binary m \/ Checker.process_binary m' = Some pb) /\
  Forall (unaccepted pb) calls.
Proof using.
  revert m ps. induction fuel as [|fuel IH]; intros m ps; cbn [Checker.next_loop]; [done|].
  intros H. apply obind_Ret in H as ([r ps1] & _ & H).
  assert (Hend : forall out, (forall o, out = Ok o -> o = None /\ Checker.require_credentials pol = false) ->
    Forall (unaccepted pb) (Checker.done_ m pb out)).
  { intros out Hout. unfold Checker.done_. destruct (Checker.client m); [|constructor]. apply Forall_singleton. by split. }
  destruct r.
  - injection H as <- <- <-. split; [done|]. split; [by right|done].
  - injection H as <- <- <-. split; [done|]. split; [by left|]. apply Hend. intros o.
    destruct (Checker.require_credentials pol); [done|]. by intros [= <-].
  - by apply IH in H.
  - injection H as <- <- <-. split; [done|]. split; [by left|]. apply Hend. intros o.
    destruct (Checker.require_credentials pol); [done|]. by intros [= <-].
  - injection H as <- <- <-. split; [done|]. split; [by left|]. by apply Hend.
Qed.

Lemma next_calls m ps r m' ps' calls pb :
  Checker.policy m = Some pol -> Checker.process_binary m = Some pb ->
  Checker.next m ps = Ret (r, m', ps', calls) ->
  same_machine m m' /\
  (Checker.process_binary m' = None \/ Checker.process_binary m' = Some pb) /\
  Forall (unaccepted pb) calls.
Proof using.
  intros Hp Hb H. unfold Checker.next in H. rewrite Hp, Hb in H.
  apply obind_Ret in H as ([ [m1 ps1] calls1] & Hl & H). injection H as <- <- <- <-.
  by apply next_loop_calls in Hl.
Qed.

(** The answer to a check: the client hears of an accepted credential, or of an
    outcome without one. *)
Lemma check_done_calls res c m ps m' ps' calls pb :
  Checker.policy m = Some pol -> Checker.process_binary m = Some pb ->
  Checker.check_done res c m ps = Ret (m', ps', calls) ->
  same_machine m m' /\
  (Checker.process_binary m' = None \/ Checker.process_binary m' = Some pb) /\
  Forall (fun call => unaccepted pb call \/
    fst call = pb /\ exists md, res = Ok (Checker.Accept md) /\ snd call = Ok (Some (mkAccepted c md))) calls.
Proof using.
  intros Hp Hb. unfold Checker.check_done, Checker.finish.
  assert (Hnext : forall m' ps' calls,
    (let! '(_, m, ps, calls) := Checker.next (Checker.increment m) ps in Ret (m, ps, calls)) = Ret (m', ps', calls) ->
    same_machine m m' /\
    (Checker.process_binary m' = None \/ Checker.process_binary m' = Some pb) /\ Forall (unaccepted pb) calls).
  { intros m1 ps1 calls1 H. apply obind_Ret in H as ([ [ [r m2] ps2] calls2] & Hn & H). injection H as <- <- <-.
    by eapply next_calls in Hn. }
  assert (Hweak : forall calls, Forall (unaccepted pb) calls -> Forall (fun call => unaccepted pb call \/
    fst call = pb /\ exists md, res = Ok (Checker.Accept md) /\ snd call = Ok (Some (mkAccepted c md))) calls).
  { intros l Hl. eapply Forall_impl; [done|]. by left. }
  destruct res as [ [md| |]|e].
  - destruct (Checker.client m) eqn:Hc; rewrite ?Hb; intros [= <- <- <-]; [|by split_and!; [|right|] ].
    split; [by split|]. split; [by left|]. apply Forall_singleton. right. split; [done|]. by exists md.
  - intros H. apply Hnext in H as (? & ? & ?). eauto.
  - destruct (Checker.client m) eqn:Hc; rewrite ?Hb; intros [= <- <- <-]; [|by split_and!; [|right|] ].
    split; [by split|]. split; [by left|]. apply Forall_singleton. by left.
  - intros H. apply Hnext in H as (? & ? & ?). eauto.
Qed.

End checker.

(** * The machine *)

Section machine.
  Context {hw config stored PS : Type} {mpu : MPU hw config} {iso : MpuIsolation hw config}.
  Context {ukb : UKB stored} (CB PS_ : Z) (uninit : list Task).
  (** The credential policy, and the credentials (with metadata) that it accepts
      for an integrity region. *)
  Context (pol : Checker.Policy PS).
  Context (accepts : Tbf.TbfFooterV2Credentials -> option Z -> list Z -> Prop).

Abbreviation machine := (LoaderMachine (hw := hw) (config := config) (stored := stored) (PS := PS)).
Abbreviation Loaded := (Loaded (config := config) (stored := stored)).
Abbreviation AppIdPolicy := (AppIdPolicy (config := config) (stored := stored)).

Inductive lstep : machine -> machine -> Prop :=
  | step_deferred m m' :
      lm_deferred m = true -> handle_deferred_call CB PS_ uninit m = Ret m' -> lstep m m'
  | step_answer m m' pb c integrity res ps :
      Checker.process_binary (lm_checker m) = Some pb ->
      footers_in (pb_footers pb) !! Checker.footer_index (lm_checker m) = Some c ->
      get_integrity_region_slice pb = Ret integrity ->
      (forall md, res = Ok (Checker.Accept md) -> accepts c md integrity) ->
      policy_answers res c ps m = Ret m' -> lstep m m'.

(** A binary that the checker has let through. *)
Definition approved (pb : ProcessBinary) : Prop :=
  Checker.require_credentials pol = true ->
  exists c md integrity, pb_credential pb = Some (mkAccepted c md) /\
    c ∈ footers_in (pb_footers pb) /\ get_integrity_region_slice pb = Ret integrity /\
    accepts c md integrity.

(** A place of an array of binaries. *)
Definition slot_ok (o : option ProcessBinary) : Prop :=
  match o with Some pb => approved pb /\ binary_ok pb | None => True end.

(** The binary and the [ShortId] of a loaded process. *)
Definition comes_from (p : option AppIdPolicy) (l : Loaded) (pb : ProcessBinary) : Prop :=
  approved pb /\
  created_for pb (match p with Some p => to_short_id p pb | None => LocallyUnique end) l.

(** Two loaded processes do not exclude each other. *)
Definition compatible (p : option AppIdPolicy) (l1 l2 : Loaded) : Prop :=
  short_id_eqb (l_short_id l1) (l_short_id l2) = false /\
  forall q, p = Some q -> exists pb,
    (comes_from p l2 pb /\ different_identifier_process q pb l1 = true) \/
    (comes_from p l1 pb /\ different_identifier_process q pb l2 = true).

Record procs_ok (p : option AppIdPolicy) (lo hi : Z) (w : World) (procs : list (option Loaded)) : Prop := mkProcsOk {
  po_layout : layout CB PS_ lo hi w procs;
  po_from : forall i l, procs !! i = Some (Some l) -> exists pb, comes_from p l pb;
  po_compatible : forall i j l1 l2, i <> j -> procs !! i = Some (Some l1) -> procs !! j = Some (Some l2) ->
    compatible p l1 l2;
}.

Context (appid : AppIdPolicy).

Record minv (lo hi flo fhi : Z) (m : machine) : Prop := mkMinv {
  mi_appid : lm_policy m = Some appid;
  mi_client : Checker.client (lm_checker m) = true;
  mi_policy : Checker.policy (lm_checker m) = Some pol;
  mi_checking : forall pb, Checker.process_binary (lm_checker m) = Some pb -> binary_ok pb;
  mi_binaries : forall bs, lm_proc_binaries m = Some bs -> Forall slot_ok bs;
  mi_flash : flash_layout (config := config) (stored := stored) flo fhi (lm_flash m) [];
  mi_procs : procs_ok (lm_policy m) lo hi (lm_world m) (lm_procs m);
}.

Lemma find_open_Some {A} (l : list (option A)) i : find_open l = Some i -> l !! i = Some None.
Proof using.
  revert i. induction l as [|[x|] l IH]; intros i; cbn; [done| |by intros [= <-] ].
  destruct (find_open l) as [j|]; [|done]. intros [= <-]. by apply IH.
Qed.

(** The fields that the invariant does not look at. *)
Lemma minv_frame lo hi flo fhi (m m' : machine) :
  minv lo hi flo fhi m -> lm_checker m' = lm_checker m -> lm_proc_binaries m' = lm_proc_binaries m ->
  lm_flash m' = lm_flash m -> lm_policy m' = lm_policy m -> lm_world m' = lm_world m ->
  lm_procs m' = lm_procs m -> minv lo hi flo fhi m'.
Proof using.
  intros [H0 H1 H2 H3 H4 H5 H6] E1 E2 E3 E4 E5 E6. split; rewrite ?E1, ?E2, ?E3, ?E4, ?E5, ?E6; done.
Qed.

(** [done] puts an approved binary into a free place. *)
Lemma done_inv lo hi flo fhi pb r (m m' : machine) :
  minv lo hi flo fhi m -> binary_ok pb ->
  (forall o, r = Ok o -> approved (set_credential o pb)) ->
  done pb r m = Ret m' -> minv lo hi flo fhi m' /\ lm_checker m' = lm_checker m.
Proof using.
  intros Hinv Hpb Hr H. unfold done in H.
  apply obind_Ret in H as (m1 & Hm & H). injection H as <-.
  assert (minv lo hi flo fhi m1 /\ lm_checker m1 = lm_checker m) as [Hinv1 ?];
    [|split; [by apply (minv_frame _ _ _ _ m1)|done] ].
  destruct r as [o|e]; [|injection Hm as <-; split; [by apply (minv_frame _ _ _ _ m)|done] ].
  destruct (find_open_process_binary_slot m) as [i|] eqn:Hi;
    [|injection Hm as <-; split; [by apply (minv_frame _ _ _ _ m)|done] ].
  destruct (lm_proc_binaries m) as [bs|] eqn:Hbs; [|by injection Hm as <-].
  destruct Hinv as [H0 H1 H2 H3 H4 H5 H6].
  apply obind_Ret in Hm as (bs' & Hset & Hm). injection Hm as <-.
  unfold set_index in Hset. destruct (_ <? _)%nat; [|done]. injection Hset as <-.
  split; [|done]. split; cbn; try done. intros bs' [= <-].
  apply Forall_insert; [by apply H4|].
  split; [by apply Hr|]. destruct Hpb. by split.
Qed.

Lemma handle_done_inv lo hi flo fhi pb calls (m m' : machine) :
  minv lo hi flo fhi m -> binary_ok pb ->
  Forall (fun call => fst call = pb /\ forall o, snd call = Ok o -> approved (set_credential o pb)) calls ->
  handle_done calls m = Ret m' -> minv lo hi flo fhi m'.
Proof using.
  intros Hm Hpb Hc. revert m Hm. induction Hc as [|[pb1 r] calls [Hp Hr] _ IH]; intros m Hm H; cbn [handle_done] in H.
  - by injection H as <-.
  - apply obind_Ret in H as (m1 & H1 & H). cbn in Hp, Hr. subst pb1.
    apply (done_inv lo hi flo fhi) in H1 as [H1 _]; [|done..]. by apply (IH m1).
Qed.

(** The check starts with a binary from flash. *)
Lemma load_and_check_inv lo hi flo fhi (m m' : machine) :
  minv lo hi flo fhi m -> load_and_check m = Ret m' -> minv lo hi flo fhi m'.
Proof using.
  intros Hinv H. unfold load_and_check in H. apply obind_Ret in H as ([ret m1] & Hd & H).
  unfold discover in Hd. apply obind_Ret in Hd as ([flash r] & Hd & E). injection E as <- <-.
  destruct (discover_layout _ _ _ _ _ _ (mi_flash _ _ _ _ _ Hinv) Hd) as [Hfl Hpb].
  assert (Hinv1 : minv lo hi flo fhi (set_flash flash m)).
  { destruct Hinv as [H0 H1 H2 H3 H4 H5 H6]. by split. }
  destruct r as [pb|e].
  - destruct (Hpb pb eq_refl) as (Hok & _ & _).
    apply obind_Ret in H as ([ [ [r checker] ps] calls] & Hc & H).
    apply obind_Ret in H as (m2 & Hdone & H).
    unfold Checker.check in Hc. destruct Hinv1 as [H0 H1 H2 H3 H4 H5 H6].
    apply (next_calls pol _ _ _ _ _ _ pb) in Hc as ([Hcl Hpol] & Hb & Hcalls); [|done|done].
    assert (Hinv2 : minv lo hi flo fhi m2).
    { eapply (handle_done_inv _ _ _ _ pb); [|done| |exact Hdone].
      - split; cbn; try done; [by rewrite Hcl|by rewrite Hpol|].
        intros pb1 Hpb1. destruct Hb as [Hb|Hb]; rewrite Hb in Hpb1; [done|by injection Hpb1 as <-].
      - eapply Forall_impl; [exact Hcalls|]. intros [pb1 r1] [Hp1 Ho]. split; [done|].
        intros o Ho1 Hreq. destruct (Ho o Ho1) as [_ Hf]. congruence. }
    destruct r; injection H as <-; [done|]. by apply (minv_frame _ _ _ _ m2).
  - destruct e; injection H as <-; by apply (minv_frame _ _ _ _ (set_flash flash m)).
Qed.

(** The answer of the policy. *)
Lemma policy_answers_inv lo hi flo fhi (m m' : machine) pb c integrity res ps :
  minv lo hi flo fhi m -> Checker.process_binary (lm_checker m) = Some pb ->
  footers_in (pb_footers pb) !! Checker.footer_index (lm_checker m) = Some c ->
  get_integrity_region_slice pb = Ret integrity ->
  (forall md, res = Ok (Checker.Accept md) -> accepts c md integrity) ->
  policy_answers res c ps m = Ret m' -> minv lo hi flo fhi m'.
Proof using.
  intros [H0 H1 H2 H3 H4 H5 H6] Hb Hc Hint Hacc H. unfold policy_answers in H.
  apply obind_Ret in H as ([ [checker ps1] calls] & Hd & H).
  apply (check_done_calls pol _ _ _ _ _ _ _ pb) in Hd as ([Hcl Hpol] & Hb1 & Hcalls); [|done|done].
  eapply (handle_done_inv _ _ _ _ pb); [|by apply H3| |exact H].
  - split; cbn; try done; [by rewrite Hcl|by rewrite Hpol|].
    intros pb1 Hpb1. destruct Hb1 as [Hb1|Hb1]; rewrite Hb1 in Hpb1; [done|]. injection Hpb1 as <-. by apply H3.
  - eapply Forall_impl; [exact Hcalls|]. intros [pb1 r1] Hcall. cbn in Hcall |- *.
    destruct Hcall as [ [Hp1 Ho] | (Hp1 & md & Hres & Hr1)]; (split; [done|]); intros o Ho1 Hreq.
    + destruct (Ho o Ho1) as [_ Hf]. congruence.
    + cbn in Hr1. rewrite Hr1 in Ho1. injection Ho1 as <-. exists c, md, integrity.
      split; [done|]. split; [by eapply list_elem_of_lookup_2|]. split; [done|by apply Hacc].
Qed.

(** A process that no loaded one excludes is compatible with all of them. *)
Lemma unblocked_compatible p pb l l' :
  comes_from p l pb -> is_blocked_from_loading_by_process p pb l' = false ->
  compatible p l' l /\ compatible p l l'.
Proof using.
  intros Hfrom Hb. pose proof Hfrom as [_ [_ _ _ Hid] ]. unfold is_blocked_from_loading_by_process in Hb.
  apply orb_false_iff in Hb as [Ha Hs].
  assert (Hsym : forall a b, short_id_eqb a b = short_id_eqb b a).
  { intros [] []; try done. apply Z.eqb_sym. }
  assert (Hshort : short_id_eqb (l_short_id l) (l_short_id l') = false).
  { rewrite Hid. by destruct p. }
  assert (Hdiff : forall q, p = Some q -> different_identifier_process q pb l' = true).
  { intros q ->. by apply negb_false_iff in Ha. }
  split; (split; [first [done|by rewrite Hsym]|]); intros q Hq; exists pb; [left|right]; (split; [done|by apply Hdiff]).
Qed.

Lemma existsb_slots {A} (f : A -> bool) (l : list (option A)) :
  existsb (fun o => match o with Some x => f x | None => false end) l = false ->
  forall i x, l !! i = Some (Some x) -> f x = false.
Proof using.
  intros H i x Hi. destruct (f x) eqn:Hf; [|done]. apply not_true_iff_false in H. destruct H.
  apply existsb_exists. exists (Some x). split; [|done]. apply list_elem_of_In. by eapply list_elem_of_lookup_2.
Qed.

Context (Happ : 0 <= initial_process_app_brk_size) (Hcb : 0 <= CB) (Hps : 0 <= PS_).
Context (Huninit : length uninit = CALLBACK_LEN).

Lemma load_process_object_inv lo hi flo fhi pb others (m m' : machine) :
  minv lo hi flo fhi m -> approved pb -> binary_ok pb ->
  load_process_object CB PS_ uninit pb others m = Ret m' ->
  minv lo hi flo fhi m' /\ lm_proc_binaries m' = lm_proc_binaries m.
Proof using iso Happ Hcb Hps Huninit.
  intros Hinv Happr Hok H. unfold load_process_object in H.
  destruct (existsb _ others); [by injection H as <-|].
  destruct (existsb _ (lm_procs m)) eqn:Hblock; [by injection H as <-|].
  destruct (find_open_process_slot m) as [i|] eqn:Hi;
    [|injection H as <-; split; [by apply (minv_frame _ _ _ _ m)|done] ].
  apply find_open_Some in Hi. apply obind_Ret in H as ([r w] & Hl & H).
  destruct Hinv as [H0 H1 H2 H3 H4 H5 [P1 P2 P3] ].
  pose proof (load_process_layout CB PS_ uninit Happ Hcb Hps Huninit _ _ _ _ _ _ _ _ _ P1 Hok Hi Hl) as Hr.
  destruct r as [l|e].
  - destruct Hr as [Hlay Hcf]. apply obind_Ret in H as (procs & Hset & H). injection H as <-.
    unfold set_index in Hset. destruct (_ <? _)%nat; [|done]. injection Hset as <-. cbn [lm_procs set_world].
    assert (Hfrom : comes_from (lm_policy m) l pb) by (by split).
    assert (Hcomp : forall j l', lm_procs m !! j = Some (Some l') ->
      compatible (lm_policy m) l' l /\ compatible (lm_policy m) l l').
    { intros j l' Hj. apply (unblocked_compatible _ pb); [done|]. by apply (existsb_slots _ _ Hblock j). }
    split; [|done]. split; cbn; try done. apply lookup_lt_Some in Hi as Hlt. split; [done|..].
    + intros j l1 Hj. destruct (decide (j = i)) as [->|Hne].
      * rewrite list_lookup_insert_eq in Hj by done. injection Hj as <-. by exists pb.
      * rewrite list_lookup_insert_ne in Hj by done. by eapply P2.
    + intros j1 j2 l1 l2 Hne Hj1 Hj2.
      destruct (decide (j1 = i)) as [->|Hn1], (decide (j2 = i)) as [->|Hn2]; [done|..];
        rewrite ?list_lookup_insert_eq in Hj1 by done; rewrite ?list_lookup_insert_eq in Hj2 by done;
        rewrite ?list_lookup_insert_ne in Hj1 by done; rewrite ?list_lookup_insert_ne in Hj2 by done.
      * injection Hj1 as <-. by eapply Hcomp.
      * injection Hj2 as <-. by eapply Hcomp.
      * by eapply (P3 j1 j2).
  - injection H as <-. split; [|done]. split; cbn; try done.
Qed.

Lemma load_loop_inv lo hi flo fhi is_ bs bs' (m m' : machine) :
  minv lo hi flo fhi m -> Forall slot_ok bs ->
  load_loop CB PS_ uninit is_ bs m = Ret (bs', m') ->
  minv lo hi flo fhi m' /\ Forall slot_ok bs'.
Proof using iso Happ Hcb Hps Huninit.
  revert bs m. induction is_ as [|i is_ IH]; intros bs m Hinv Hbs H; cbn [load_loop] in H.
  - by injection H as <- <-.
  - apply obind_Ret in H as (o & Ho & H). unfold index in Ho. apply of_option_Ret in Ho.
    destruct o as [pb|]; [|by apply (IH bs m)].
    apply obind_Ret in H as (m1 & H1 & H).
    eapply Forall_lookup_1 in Ho as Hs; [|exact Hbs]. destruct Hs as [Happr Hok].
    apply (load_process_object_inv lo hi flo fhi) in H1 as [H1 _]; [|done..].
    apply (IH _ m1) in H; [done|done|]. by apply Forall_insert.
Qed.

Lemma lstep_inv lo hi flo fhi (m m' : machine) :
  minv lo hi flo fhi m -> lstep m m' -> minv lo hi flo fhi m'.
Proof using iso Happ Hcb Hps Huninit.
  intros Hinv Hs. destruct Hs as [m m' _ H|m m' pb c integrity res ps Hb Hc Hint Hacc H].
  2: { by eapply policy_answers_inv. }
  assert (Hinv0 : minv lo hi flo fhi (set_deferred false m)) by (by apply (minv_frame _ _ _ _ m)).
  unfold handle_deferred_call in H. destruct (lm_state (set_deferred false m)) as [ []|].
  - by apply (load_and_check_inv lo hi flo fhi) in H.
  - apply obind_Ret in H as ([ret m1] & H1 & H). injection H as <-.
    assert (Hinv1 : minv lo hi flo fhi m1).
    { unfold load_process_objects in H1. destruct (lm_proc_binaries (set_deferred false m)) as [bs|] eqn:Hbs;
        [|by injection H1 as <- <-].
      apply obind_Ret in H1 as ([bs' m2] & Hl & H1). injection H1 as <- <-.
      destruct Hinv0 as [G0 G1 G2 G3 G4 G5 G6].
      apply (load_loop_inv lo hi flo fhi) in Hl as [ [K0 K1 K2 K3 K4 K5 K6] Hbs']; [|by split|by apply G4].
      split; cbn; try done. by intros bs1 [= <-]. }
    destruct ret; [done|]. by apply (minv_frame _ _ _ _ m1).
  - by injection H as <-.
Qed.

(** The invariant holds at the start and is kept. *)
Lemma machine_inv checker nprocs nbins addr bytes ptr len k (h : hw) ps m :
  Checker.client checker = true -> Checker.policy checker = Some pol ->
  Checker.process_binary checker = None ->
  0 <= ptr -> 0 <= len -> ptr + len < U32 ->
  0 <= addr -> addr + Z.of_nat (length bytes) < U32 -> bytes_ok bytes ->
  rtc lstep (start (set_client (new_machine checker nprocs nbins (addr, bytes)
    (mkWorld k h (ptr, len)) appid ps))) m ->
  minv ptr (ptr + len) addr (addr + Z.of_nat (length bytes)) m.
Proof using iso Happ Hcb Hps Huninit.
  intros Hc Hp Hb Hptr Hlen Hend Haddr Haend Hok Hsteps.
  assert (Hnone : forall i (l : Loaded), replicate nprocs None !! i = Some (Some l) -> False).
  { intros i l. by intros [? _]%lookup_replicate. }
  assert (Hinv : minv ptr (ptr + len) addr (addr + Z.of_nat (length bytes))
    (start (set_client (new_machine checker nprocs nbins (addr, bytes) (mkWorld k h (ptr, len)) appid ps)))).
  { split; cbn; try done.
    - intros pb Hpb. congruence.
    - intros bs [= <-]. by apply Forall_replicate.
    - split; [split; cbn; try done; try lia|..]; intros; exfalso; by eapply Hnone. }
  clear Hnone. induction Hsteps as [m0|m0 m1 m2 Hs _ IH]; [done|]. apply IH. by eapply lstep_inv.
Qed.

End machine.

(** C10: whatever the order in which the loader's deferred call and the answers of
    the credential policy happen, every loaded process runs the flash and the
    header of a binary that the checker let through; under a policy that requires
    credentials, that binary has a footer that the policy accepted for the
    binary's integrity region. *)
Theorem async_loaded_approved {hw config stored PS} {mpu : MPU hw config} {iso : MpuIsolation hw config}
    {ukb : UKB stored} CB PS_ uninit (pol : Checker.Policy PS) accepts appid checker nprocs nbins
    addr bytes ptr len k (h : hw) ps m :
  0 <= initial_process_app_brk_size -> 0 <= CB -> 0 <= PS_ -> length uninit = CALLBACK_LEN ->
  Checker.client checker = true -> Checker.policy checker = Some pol ->
  Checker.process_binary checker = None -> 0 <= ptr -> 0 <= len -> ptr + len < U32 ->
  0 <= addr -> addr + Z.of_nat (length bytes) < U32 -> bytes_ok bytes ->
  rtc (lstep CB PS_ uninit accepts) (start (set_client (new_machine checker nprocs nbins (addr, bytes)
    (mkWorld k h (ptr, len)) appid ps))) m ->
  forall i l, lm_procs m !! i = Some (Some l) -> exists pb,
    flash_ptr (l_process l) = pb_flash_ptr pb /\ flash_len (l_process l) = pb_flash_len pb /\
    header (l_process l) = pb_header pb /\ l_short_id l = to_short_id appid pb /\
    (Checker.require_credentials pol = true -> exists c md integrity,
       pb_credential pb = Some (mkAccepted c md) /\ c ∈ footers_in (pb_footers pb) /\
       get_integrity_region_slice pb = Ret integrity /\ accepts c md integrity).
Proof.
  intros Happ Hcb Hps Hun Hc Hp Hb H1 H2 H3 H4 H5 H6 Hs i l Hi.
  pose proof (machine_inv CB PS_ uninit pol accepts appid Happ Hcb Hps Hun checker nprocs nbins addr bytes
    ptr len k h ps m Hc Hp Hb H1 H2 H3 H4 H5 H6 Hs) as Hinv.
  destruct (po_from _ _ _ _ _ _ _ _ _ (mi_procs _ _ _ _ _ _ _ _ _ _ Hinv) i l Hi) as (pb & Happr & [C1 C2 C3 C4]).
  rewrite (mi_appid _ _ _ _ _ _ _ _ _ _ Hinv) in C4. by exists pb.
Qed.

(** Whatever the order of events, no two processes that the asynchronous loader
    has running have the same fixed [ShortId], their memory blocks are disjoint
    and their identifiers differ. *)
Theorem async_loaded_distinct {hw config stored PS} {mpu : MPU hw config} {iso : MpuIsolation hw config}
    {ukb : UKB stored} CB PS_ uninit (pol : Checker.Policy PS) accepts appid checker nprocs nbins
    addr bytes ptr len k (h : hw) ps m :
  0 <= initial_process_app_brk_size -> 0 <= CB -> 0 <= PS_ -> length uninit = CALLBACK_LEN ->
  Checker.client checker = true -> Checker.policy checker = Some pol ->
  Checker.process_binary checker = None -> 0 <= ptr -> 0 <= len -> ptr + len < U32 ->
  0 <= addr -> addr + Z.of_nat (length bytes) < U32 -> bytes_ok bytes ->
  rtc (lstep CB PS_ uninit accepts) (start (set_client (new_machine checker nprocs nbins (addr, bytes)
    (mkWorld k h (ptr, len)) appid ps))) m ->
  forall i j l1 l2, i <> j -> lm_procs m !! i = Some (Some l1) -> lm_procs m !! j = Some (Some l2) ->
    separate l1 l2 /\ (forall a b, l_short_id l1 = Fixed a -> l_short_id l2 = Fixed b -> a <> b).
Proof.
  intros Happ Hcb Hps Hun Hc Hp Hb H1 H2 H3 H4 H5 H6 Hs i j l1 l2 Hij Hi Hj.
  pose proof (machine_inv CB PS_ uninit pol accepts appid Happ Hcb Hps Hun checker nprocs nbins addr bytes
    ptr len k h ps m Hc Hp Hb H1 H2 H3 H4 H5 H6 Hs) as Hinv.
  destruct (mi_procs _ _ _ _ _ _ _ _ _ _ Hinv) as [L _ Hcomp]. split.
  - by eapply (la_separate _ _ _ _ _ _ L i j).
  - intros a b Ha Hb'. destruct (Hcomp i j l1 l2 Hij Hi Hj) as [Hne _]. rewrite Ha, Hb' in Hne.
    cbn in Hne. by apply Z.eqb_neq.
Qed.

(** * Examples *)

(** A binary of 512 bytes with a SHA-256 footer; the fixed [ShortId] is that of
    the header. *)
Definition demo_signed (id : Z) : list Z :=
  TbfSpec.encode_header 512 1
    [TbfSpec.EProgram (Tbf.mkProgram 0 0 2048 472 1); TbfSpec.EKernelVersion (Tbf.mkKernelVersion 2 1);
     TbfSpec.EShortId (Tbf.mkShortId (Some id))]
  ++ replicate (Z.to_nat 416) 0 ++ TbfSpec.row 2 [128; 36] ++ TbfSpec.row 4 [3] ++ replicate 32 9.
Definition demo_bytes : list Z := demo_signed 7 ++ demo_signed 8 ++ replicate 16 255.
Definition demo_appid : AppIdPolicy (config := CortexM.CortexMConfig) (stored := unit) :=
  mkAppIdPolicy (fun _ _ => true) (fun _ _ => true)
    (fun pb => ShortId_from (Tbf.get_fixed_short_id (pb_header pb))).
Definition demo_accepts (c : Tbf.TbfFooterV2Credentials) (md : option Z) (integrity : list Z) : Prop :=
  Tbf.cred_data c = replicate 32 9.
Definition demo_cred : Tbf.TbfFooterV2Credentials := Tbf.mkCredentials Tbf.SHA256 (replicate 32 9).

Abbreviation demo_loader := (LoaderMachine (hw := CortexM.Mpu) (config := CortexM.CortexMConfig)
  (stored := unit) (PS := unit)).
Definition or_else (o : outcome demo_loader) (d : demo_loader) : demo_loader :=
  match o with Ret m => m | _ => d end.
Definition demo_start : demo_loader :=
  start (set_client (new_machine CheckerSpec.demo_machine 4 4 (262144, demo_bytes)
    (mkWorld demo_kernel demo_hw (536887296, 65536)) demo_appid tt)).
Definition deferred (m : demo_loader) : demo_loader :=
  or_else (handle_deferred_call 280 400 (replicate 10 demo_task) m) m.
Definition answered (m : demo_loader) : demo_loader :=
  or_else (policy_answers (Ok (Checker.Accept None)) demo_cred tt m) m.
(** Two binaries are found, checked and accepted, the end of flash is found, and
    they are loaded. *)
Definition demo_done : demo_loader :=
  deferred (deferred (answered (deferred (answered (deferred demo_start))))).

Lemma demo_step (m : demo_loader) :
  lm_deferred m && (match handle_deferred_call 280 400 (replicate 10 demo_task) m with Ret _ => true | _ => false end) = true ->
  lstep 280 400 (replicate 10 demo_task) demo_accepts m (deferred m).
Proof.
  intros [Hd H]%andb_true_iff. apply step_deferred; [done|]. unfold deferred, or_else.
  by destruct (handle_deferred_call _ _ _ m).
Qed.

Lemma demo_answer (m : demo_loader) :
  match Checker.process_binary (lm_checker m) with
  | Some pb => (match get_integrity_region_slice pb with Ret _ => true | _ => false end) &&
      match footers_in (pb_footers pb) !! Checker.footer_index (lm_checker m) with
      | Some (Tbf.mkCredentials Tbf.SHA256 d) => bool_decide (d = replicate 32 9)
      | _ => false
      end
  | None => false
  end &&
  (match policy_answers (Ok (Checker.Accept None)) demo_cred tt m with Ret _ => true | _ => false end) = true ->
  lstep 280 400 (replicate 10 demo_task) demo_accepts m (answered m).
Proof.
  intros [H Ha]%andb_true_iff. destruct (Checker.process_binary (lm_checker m)) as [pb|] eqn:Hb; [|done].
  apply andb_true_iff in H as [Hi Hf].
  destruct (get_integrity_region_slice pb) as [integrity| |] eqn:Hint; [|done..].
  destruct (footers_in (pb_footers pb) !! _) as [ [ [] d]|] eqn:Hc; try done.
  apply bool_decide_eq_true in Hf. subst d.
  eapply (step_answer _ _ _ _ m _ pb demo_cred integrity (Ok (Checker.Accept None)) tt);
    [done|done|done|by intros md _|].
  unfold answered, or_else. by destruct (policy_answers _ _ _ m).
Qed.

Lemma demo_steps : rtc (lstep 280 400 (replicate 10 demo_task) demo_accepts) demo_start demo_done.
Proof.
  unfold demo_done. eapply rtc_l; [apply demo_step; vm_compute; reflexivity|].
  eapply rtc_l; [apply demo_answer; vm_compute; reflexivity|].
  eapply rtc_l; [apply demo_step; vm_compute; reflexivity|].
  eapply rtc_l; [apply demo_answer; vm_compute; reflexivity|].
  eapply rtc_l; [apply demo_step; vm_compute; reflexivity|].
  eapply rtc_l; [apply demo_step; vm_compute; reflexivity|]. apply rtc_refl.
Qed.

Lemma demo_bytes_ok : bytes_ok demo_bytes.
Proof. apply bytes_ok_dec. vm_compute. reflexivity. Qed.

Definition slot_id (o : option (Loaded (config := CortexM.CortexMConfig) (stored := unit))) : option Z :=
  match o with Some (mkLoaded _ (Fixed id)) => Some id | _ => None end.

Lemma slot_id_Some (procs : list (option (Loaded (config := CortexM.CortexMConfig) (stored := unit))))
    (i : nat) id :
  mbind slot_id (procs !! i) = Some id -> exists l, procs !! i = Some (Some l) /\ l_short_id l = Fixed id.
Proof.
  destruct (procs !! i) as [ [ [p [|z] ]|]|]; try done. intros [= ->]. by exists (mkLoaded p (Fixed id)).
Qed.

Lemma demo_loaded : exists l1 l2,
  (lm_procs demo_done !! 0%nat = Some (Some l1) /\ l_short_id l1 = Fixed 7) /\
  (lm_procs demo_done !! 1%nat = Some (Some l2) /\ l_short_id l2 = Fixed 8).
Proof.
  destruct (slot_id_Some (lm_procs demo_done) 0 7) as (l1 & H1); [vm_compute; reflexivity|].
  destruct (slot_id_Some (lm_procs demo_done) 1 8) as (l2 & H2); [vm_compute; reflexivity|].
  exists l1, l2. split; [exact H1|exact H2].
Qed.

Lemma async_loaded_approved_witness :
  exists l pb, lm_procs demo_done !! 0%nat = Some (Some l) /\ header (l_process l) = pb_header pb /\
    exists c md integrity, pb_credential pb = Some (mkAccepted c md) /\ c ∈ footers_in (pb_footers pb) /\
      get_integrity_region_slice pb = Ret integrity /\ demo_accepts c md integrity.
Proof.
  destruct demo_loaded as (l1 & l2 & [H1 _] & _).
  destruct (async_loaded_approved 280 400 (replicate 10 demo_task) demo_policy demo_accepts demo_appid
    CheckerSpec.demo_machine 4 4 262144 demo_bytes 536887296 65536 demo_kernel demo_hw tt demo_done)
    with (i := 0%nat) (l := l1) as (pb & _ & _ & Hh & _ & Hc);
    [discriminate|discriminate|discriminate|reflexivity|reflexivity|reflexivity|reflexivity|discriminate
    |discriminate|reflexivity|discriminate|vm_compute; reflexivity|exact demo_bytes_ok|exact demo_steps|exact H1|].
  exists l1, pb. split; [exact H1|]. split; [exact Hh|]. exact (Hc eq_refl).
Defined.

Lemma async_loaded_distinct_witness :
  exists l1 l2, lm_procs demo_done !! 0%nat = Some (Some l1) /\ lm_procs demo_done !! 1%nat = Some (Some l2) /\
    separate l1 l2.
Proof.
  destruct demo_loaded as (l1 & l2 & [H1 _] & [H2 _]).
  destruct (async_loaded_distinct 280 400 (replicate 10 demo_task) demo_policy demo_accepts demo_appid
    CheckerSpec.demo_machine 4 4 262144 demo_bytes 536887296 65536 demo_kernel demo_hw tt demo_done)
    with (i := 0%nat) (j := 1%nat) (l1 := l1) (l2 := l2) as [Hs _];
    [discriminate|discriminate|discriminate|reflexivity|reflexivity|reflexivity|reflexivity|discriminate
    |discriminate|reflexivity|discriminate|vm_compute; reflexivity|exact demo_bytes_ok|exact demo_steps
    |discriminate|exact H1|exact H2|].
  exists l1, l2. split; [exact H1|]. split; [exact H2|exact Hs].
Defined.

End LoaderMachine.
