(* ===== verification/Ticks.v ===== *)
(** Time values of hardware counters ([kernel/src/hil/time.rs]), module [Ticks]:
    the trait [Ticks] as a class with its provided methods, the types [Ticks16],
    [Ticks24], [Ticks32] and [Ticks64], the conversions between ticks and seconds,
    and the traits [Time] and [Alarm].  The class [TicksLaws] says what clients
    rely on: a value of [width] bits that wraps around. *)

From stdpp Require Import base numbers option.
From S2P Require Import Prelude.
Local Open Scope Z_scope.

Module Ticks.

(** * The traits *)

Class Ticks (T : Type) := {
  width : Z;
  into_usize : T -> Z;
  into_u32 : T -> Z;
  from_u32 : Z -> T;
  wrapping_add : T -> T -> T;
  wrapping_sub : T -> T -> T;
  within_range : T -> T -> T -> bool;
  max_value : T;
  half_max_value : T;
  from_or_max : Z -> T;
  saturating_scale : T -> Z -> Z -> outcome Z;
  (** [a < b], from [Ord] *)
  lt_ticks : T -> T -> bool;
}.

Section provided.
  Context {T : Type} `{!Ticks T}.

Definition u32_padding : Z := saturating_sub 32 width.
Definition usize_padding : Z := saturating_sub 32 width.
(** [x << padding] on 32 bits: bits shifted out are lost, a shift by the width of
    the type panics. *)
Definition shl32 (x n : Z) : outcome Z :=
  if n <? 32 then Ret (wrap32 (Z.shiftl x n)) else Panic.
Definition into_u32_left_justified (x : T) : outcome Z := shl32 (into_u32 x) u32_padding.
Definition into_usize_left_justified (x : T) : outcome Z := shl32 (into_usize x) usize_padding.
Definition u32_left_justified_scale_freq (frequency : Z) : outcome Z := shl32 frequency u32_padding.
Definition usize_left_justified_scale_freq (frequency : Z) : outcome Z := shl32 frequency usize_padding.

(** [ConvertTicks], for a clock with this frequency.  The product of two [u32] fits
    in a [u64]. *)
Definition ticks_from_seconds (frequency s : Z) : T := from_or_max (frequency * s).
Definition ticks_from_ms (frequency ms : Z) : T := from_or_max (frequency * ms / 1000).
Definition ticks_from_us (frequency us : Z) : T := from_or_max (frequency * us / 1000000).
Definition ticks_to_seconds (frequency : Z) (tick : T) : outcome Z := saturating_scale tick 1 frequency.
Definition ticks_to_ms (frequency : Z) (tick : T) : outcome Z := saturating_scale tick 1000 frequency.
Definition ticks_to_us (frequency : Z) (tick : T) : outcome Z := saturating_scale tick 1000000 frequency.

End provided.

(** [impl Frequency] *)
Definition Freq100MHz : Z := 100000000.
Definition Freq16MHz : Z := 16000000.
Definition Freq10MHz : Z := 10000000.
Definition Freq1MHz : Z := 1000000.
Definition Freq32KHz : Z := 32768.
Definition Freq16KHz : Z := 16000.
Definition Freq1KHz : Z := 1000.

(** * The types *)

(** The saturation at the end of [saturating_scale]. *)
Definition saturate32 (scaled : Z) : Z := if scaled <? U32 - 1 then scaled else U32 - 1.
Definition scale (v numerator denominator : Z) : outcome Z :=
  let! scaled := div32 (v * numerator) denominator in
  Ret (saturate32 scaled).

Record Ticks32 := mkTicks32 { t32 : Z }.
#[export] Instance ticks32 : Ticks Ticks32 := {|
  width := 32;
  into_usize x := t32 x;
  into_u32 x := t32 x;
  from_u32 v := mkTicks32 v;
  wrapping_add x y := mkTicks32 (wrapping_add32 (t32 x) (t32 y));
  wrapping_sub x y := mkTicks32 (wrapping_sub32 (t32 x) (t32 y));
  within_range x start end_ :=
    wrapping_sub32 (t32 x) (t32 start) <? wrapping_sub32 (t32 end_) (t32 start);
  max_value := mkTicks32 0xffffffff;
  half_max_value := mkTicks32 (1 + 0xffffffff / 2);
  from_or_max val := if val <? 0xffffffff then mkTicks32 (wrap32 val) else mkTicks32 0xffffffff;
  saturating_scale x := scale (t32 x);
  lt_ticks x y := t32 x <? t32 y;
|}.

Definition MASK : Z := 0x00ffffff.
Record Ticks24 := mkTicks24 { t24 : Z }.
#[export] Instance ticks24 : Ticks Ticks24 := {|
  width := 24;
  into_usize x := t24 x;
  into_u32 x := t24 x;
  from_u32 v := mkTicks24 (Z.land v MASK);
  wrapping_add x y := mkTicks24 (Z.land (wrapping_add32 (t24 x) (t24 y)) MASK);
  wrapping_sub x y := mkTicks24 (Z.land (wrapping_sub32 (t24 x) (t24 y)) MASK);
  within_range x start end_ :=
    Z.land (wrapping_sub32 (t24 x) (t24 start)) MASK
    <? Z.land (wrapping_sub32 (t24 end_) (t24 start)) MASK;
  max_value := mkTicks24 MASK;
  half_max_value := mkTicks24 (1 + MASK / 2);
  from_or_max val :=
    if val <? MASK then mkTicks24 (Z.land (wrap32 val) MASK) else mkTicks24 MASK;
  saturating_scale x := scale (t24 x);
  lt_ticks x y := t24 x <? t24 y;
|}.

Definition wrap16 (z : Z) : Z := z mod U16.
Record Ticks16 := mkTicks16 { t16 : Z }.
#[export] Instance ticks16 : Ticks Ticks16 := {|
  width := 16;
  into_usize x := t16 x;
  into_u32 x := t16 x;
  from_u32 v := mkTicks16 (wrap16 (Z.land v 0xffff));
  wrapping_add x y := mkTicks16 (wrap16 (t16 x + t16 y));
  wrapping_sub x y := mkTicks16 (wrap16 (t16 x - t16 y));
  within_range x start end_ := wrap16 (t16 x - t16 start) <? wrap16 (t16 end_ - t16 start);
  max_value := mkTicks16 0xffff;
  half_max_value := mkTicks16 (1 + 0xffff / 2);
  from_or_max val :=
    if val <? 0xffff then mkTicks16 (wrap16 (Z.land (wrap32 val) 0xffff)) else mkTicks16 0xffff;
  saturating_scale x := scale (t16 x);
  lt_ticks x y := t16 x <? t16 y;
|}.

Definition saturating_mul64 (a b : Z) : Z := Z.min (a * b) (U64 - 1).
Record Ticks64 := mkTicks64 { t64 : Z }.
#[export] Instance ticks64 : Ticks Ticks64 := {|
  width := 64;
  into_usize x := wrap32 (t64 x);
  into_u32 x := wrap32 (t64 x);
  from_u32 v := mkTicks64 v;
  wrapping_add x y := mkTicks64 (wrap64 (t64 x + t64 y));
  wrapping_sub x y := mkTicks64 (wrap64 (t64 x - t64 y));
  within_range x start end_ := wrap64 (t64 x - t64 start) <? wrap64 (t64 end_ - t64 start);
  max_value := mkTicks64 (U64 - 1);
  half_max_value := mkTicks64 (1 + (U64 - 1) / 2);
  from_or_max val := mkTicks64 val;
  saturating_scale x num den :=
    let! scaled := div32 (saturating_mul64 (t64 x) num) den in
    Ret (saturate32 scaled);
  lt_ticks x y := t64 x <? t64 y;
|}.

(** * Alarms *)

(** [Time] and [Alarm] of the hardware [H], whose reading of the clock changes the
    state since time passes. *)
Class Alarm (H T : Type) := {
  now : H -> T * H;
  hw_set_alarm : T -> T -> H -> H;
  hw_get_alarm : H -> T;
  hw_disarm : H -> result unit unit * H;
  minimum_dt : H -> T;
}.

(** * What clients rely on *)

(** The number a value stands for, and the laws of wrapping arithmetic. *)
Class TicksLaws (T : Type) `{!Ticks T} := {
  val : T -> Z;
  width_pos : 0 < width;
  val_from_u32 v : u32_range v -> v < 2 ^ width -> val (from_u32 v) = v;
  val_add x y : val (wrapping_add x y) = (val x + val y) mod 2 ^ width;
  val_sub x y : val (wrapping_sub x y) = (val x - val y) mod 2 ^ width;
  within_spec x start end_ :
    within_range x start end_
    = ((val x - val start) mod 2 ^ width <? (val end_ - val start) mod 2 ^ width);
  val_max : val max_value = 2 ^ width - 1;
  val_half : val half_max_value = 2 ^ (width - 1);
  val_from_or_max v : 0 <= v < U64 -> val (from_or_max v) = Z.min v (2 ^ width - 1);
  lt_spec x y : lt_ticks x y = (val x <? val y);
  into_u32_spec x : 0 <= val x < 2 ^ width -> into_u32 x = wrap32 (val x);
  into_usize_spec x : 0 <= val x < 2 ^ width -> into_usize x = wrap32 (val x);
  scale_spec x n d : 0 <= val x < 2 ^ width -> 0 <= n -> 0 < d ->
    (val x * n < U64) -> saturating_scale x n d = Ret (Z.min (val x * n / d) (U32 - 1));
}.

Lemma land_mask a n : 0 <= n -> Z.land a (2 ^ n - 1) = a mod 2 ^ n.
Proof. intros Hn. rewrite <- Z.land_ones by done. f_equal. rewrite Z.ones_equiv. lia. Qed.

Lemma mod_mod_divide a n k : 0 <= n <= k -> (a mod 2 ^ k) mod 2 ^ n = a mod 2 ^ n.
Proof.
  intros H. replace (2 ^ k) with (2 ^ n * 2 ^ (k - n)) by (rewrite <- Z.pow_add_r by lia; f_equal; lia).
  rewrite Z.rem_mul_r by (apply Z.pow_nonzero || apply Z.pow_pos_nonneg; lia).
  rewrite (Z.mul_comm (2 ^ n)), Z.mod_add by (apply Z.pow_nonzero; lia).
  by rewrite Z.mod_mod by (apply Z.pow_nonzero; lia).
Qed.

Lemma saturate32_min v : saturate32 v = Z.min v (U32 - 1).
Proof. unfold saturate32. destruct (Z.ltb_spec v (U32 - 1)); lia. Qed.

Lemma scale_ok v n d : 0 < d -> scale v n d = Ret (Z.min (v * n / d) (U32 - 1)).
Proof. intros Hd. unfold scale. rewrite div32_ok by lia. cbn [obind]. by rewrite saturate32_min. Qed.

Lemma land_24 a : Z.land a 16777215 = a mod 2 ^ 24.
Proof. by apply (land_mask a 24). Qed.
Lemma land_16 a : Z.land a 65535 = a mod 2 ^ 16.
Proof. by apply (land_mask a 16). Qed.

(** The laws whose proofs are the same for all types. *)
Ltac ticks_law :=
  intros; cbn -[Z.pow Z.land Z.modulo Z.div Z.add Z.sub Z.mul Z.ltb] in *;
  unfold u32_range, wrapping_add32, wrapping_sub32, wrap64, wrap32, wrap16, MASK, U64, U32, U16 in *;
  repeat match goal with |- context [if ?a <? ?b then _ else _] => destruct (Z.ltb_spec a b) end;
  rewrite ?land_24, ?land_16; cbn -[Z.pow Z.modulo Z.div Z.add Z.sub Z.mul Z.ltb];
  rewrite ?mod_mod_divide by lia;
  rewrite ?Z.mod_small by lia; first [done | lia | idtac].

#[export] Instance ticks32_laws : TicksLaws Ticks32.
Proof.
  refine {| val := t32 |}; try ticks_law. by apply scale_ok.
Defined.

#[export] Instance ticks24_laws : TicksLaws Ticks24.
Proof.
  refine {| val := t24 |}; try ticks_law. by apply scale_ok.
Defined.

#[export] Instance ticks16_laws : TicksLaws Ticks16.
Proof.
  refine {| val := t16 |}; try ticks_law. by apply scale_ok.
Defined.

#[export] Instance ticks64_laws : TicksLaws Ticks64.
Proof.
  refine {| val := t64 |}; try ticks_law.
  unfold saturating_mul64. rewrite Z.min_l by (unfold U64; lia). rewrite div32_ok by lia. cbn [obind].
  by rewrite saturate32_min.
Defined.

(** * Left-justified values and conversions *)

Section laws.
  Context {T : Type} `{L : TicksLaws T}.
  Implicit Types x y z : T.

Definition in_range x : Prop := 0 <= val x < 2 ^ width.

Lemma width_modulus : 0 < 2 ^ width.
Proof using L. apply Z.pow_pos_nonneg; [done|]. pose proof width_pos. lia. Qed.

Lemma u32_padding_spec : 0 <= u32_padding < 32 /\ (width <= 32 -> u32_padding = 32 - width) /\
  (32 <= width -> u32_padding = 0).
Proof using L. pose proof width_pos. unfold u32_padding, saturating_sub. lia. Qed.

(** Reducing modulo the width first makes no difference to the justified value. *)
Lemma justified_mod a : wrap32 (wrap32 (a mod 2 ^ width) * 2 ^ u32_padding) = wrap32 (a * 2 ^ u32_padding).
Proof using L.
  destruct u32_padding_spec as (Hp & Hs & Hl). pose proof width_pos as Hw. unfold wrap32, U32.
  rewrite Z.mul_mod_idemp_l by done.
  destruct (Z.le_gt_cases width 32) as [H|H].
  - rewrite Hs by done. replace (2 ^ 32) with (2 ^ width * 2 ^ (32 - width))
      by (rewrite <- Z.pow_add_r by lia; f_equal; lia).
    rewrite !Z.mul_mod_distr_r by (apply Z.pow_nonzero; lia).
    by rewrite Z.mod_mod by (apply Z.pow_nonzero; lia).
  - rewrite Hl, !Z.mul_1_r by lia. apply mod_mod_divide. lia.
Qed.

Definition justified x : Z := wrap32 (val x * 2 ^ u32_padding).

Lemma into_u32_left_justified_ok x : in_range x -> into_u32_left_justified x = Ret (justified x).
Proof using L.
  intros Hx. unfold into_u32_left_justified, shl32. destruct u32_padding_spec as (Hp & _).
  rewrite (proj2 (Z.ltb_lt _ _)) by lia. rewrite into_u32_spec, Z.shiftl_mul_pow2 by (done || lia).
  f_equal. unfold justified. rewrite <- (Z.mod_small (val x) (2 ^ width)) at 1 by done. apply justified_mod.
Qed.

Lemma justified_add x y : justified (wrapping_add x y) = wrapping_add32 (justified x) (justified y).
Proof using L.
  unfold justified, wrapping_add32. rewrite val_add, <- justified_mod, Z.mod_mod, justified_mod
    by (pose proof width_modulus; lia).
  unfold wrap32. rewrite <- Z.add_mod by done. f_equal. lia.
Qed.
Lemma justified_sub x y : justified (wrapping_sub x y) = wrapping_sub32 (justified x) (justified y).
Proof using L.
  unfold justified, wrapping_sub32. rewrite val_sub, <- justified_mod, Z.mod_mod, justified_mod
    by (pose proof width_modulus; lia).
  unfold wrap32. rewrite <- Zminus_mod. f_equal. lia.
Qed.

Lemma sub_in_range x y : in_range (wrapping_sub x y).
Proof using L. unfold in_range. rewrite val_sub. apply Z.mod_pos_bound, width_modulus. Qed.
Lemma add_in_range x y : in_range (wrapping_add x y).
Proof using L. unfold in_range. rewrite val_add. apply Z.mod_pos_bound, width_modulus. Qed.

(** At most 32 bits wide, justified values are in the order of the values. *)
Lemma justified_lt x y : width <= 32 -> in_range x -> in_range y ->
  (justified x <? justified y) = (val x <? val y).
Proof using L.
  intros Hw Hx Hy. unfold justified, in_range in *. destruct u32_padding_spec as (_ & -> & _); [|done].
  pose proof width_pos.
  assert (Hs : forall v, 0 <= v < 2 ^ width -> wrap32 (v * 2 ^ (32 - width)) = v * 2 ^ (32 - width)).
  { intros v Hv. apply Z.mod_small. unfold U32.
    replace (2 ^ 32) with (2 ^ width * 2 ^ (32 - width)) by (rewrite <- Z.pow_add_r by lia; f_equal; lia).
    assert (0 < 2 ^ (32 - width)) by (apply Z.pow_pos_nonneg; lia). nia. }
  rewrite !Hs by done. assert (0 < 2 ^ (32 - width)) by (apply Z.pow_pos_nonneg; lia).
  destruct (Z.ltb_spec (val x) (val y)); [apply Z.ltb_lt|apply Z.ltb_ge]; nia.
Qed.

Lemma within_range_sub x y z :
  within_range z x y = lt_ticks (wrapping_sub z x) (wrapping_sub y x).
Proof using L. by rewrite within_spec, lt_spec, !val_sub. Qed.

(** Left-justified values wrap around at 32 bits whatever the width of the
    counter: on all values the conversion returns, sums and differences of ticks
    convert to wrapping 32-bit sums and differences, and for counters of at most 32
    bits the question whether a time lies in a window has the same answer for the
    converted values, so that a 32-bit client can reason about any counter. *)
Theorem left_justified_wraps x y z : in_range x -> in_range y -> in_range z ->
  exists jx jy jz,
    into_u32_left_justified x = Ret jx /\ into_u32_left_justified y = Ret jy /\
    into_u32_left_justified z = Ret jz /\ u32_range jx /\
    into_u32_left_justified (wrapping_add x y) = Ret (wrapping_add32 jx jy) /\
    into_u32_left_justified (wrapping_sub x y) = Ret (wrapping_sub32 jx jy) /\
    (width <= 32 ->
     within_range z x y = (wrapping_sub32 jz jx <? wrapping_sub32 jy jx)).
Proof using L.
  intros Hx Hy Hz. exists (justified x), (justified y), (justified z).
  rewrite !into_u32_left_justified_ok by (done || apply add_in_range || apply sub_in_range).
  rewrite justified_add, justified_sub. do 3 (split; [done|]).
  split; [apply wrap32_range|]. split; [done|]. split; [done|].
  intros Hw. rewrite <- !justified_sub, justified_lt by (done || apply sub_in_range).
  by rewrite within_range_sub, lt_spec.
Qed.

(** Milliseconds survive the way through a clock of at least 1 kHz but for one. *)
Lemma ms_round_trip f ms : 1000 <= f < U32 -> u32_range ms -> f * ms / 1000 < 2 ^ width - 1 ->
  f * ms / 1000 * 1000 < U64 ->
  exists ms', ticks_to_ms f (ticks_from_ms f ms : T) = Ret ms' /\ ms - 1 <= ms' <= ms.
Proof using L.
  intros Hf Hms Hmax Hfit. unfold ticks_to_ms, ticks_from_ms, u32_range, U32, U64 in *.
  pose proof (Z.div_mod (f * ms) 1000 ltac:(lia)). pose proof (Z.mod_pos_bound (f * ms) 1000 ltac:(lia)).
  assert (Hv : val (from_or_max (f * ms / 1000) : T) = f * ms / 1000).
  { rewrite val_from_or_max by (unfold U64; nia). lia. }
  rewrite scale_spec by (rewrite ?Hv; unfold U64; nia). rewrite Hv. eexists. split; [done|].
  set (q := f * ms / 1000) in *.
  pose proof (Z.div_mod (q * 1000) f ltac:(lia)). pose proof (Z.mod_pos_bound (q * 1000) f ltac:(lia)).
  unfold U32. nia.
Qed.

End laws.

Lemma left_justified_wraps_witness :
  exists jx jy jz,
    into_u32_left_justified (mkTicks24 0xfffff0) = Ret jx /\
    into_u32_left_justified (mkTicks24 0x20) = Ret jy /\
    into_u32_left_justified (mkTicks24 0x5) = Ret jz /\ u32_range jx /\
    into_u32_left_justified (wrapping_add (mkTicks24 0xfffff0) (mkTicks24 0x20))
      = Ret (wrapping_add32 jx jy) /\
    into_u32_left_justified (wrapping_sub (mkTicks24 0xfffff0) (mkTicks24 0x20))
      = Ret (wrapping_sub32 jx jy) /\
    (width (T := Ticks24) <= 32 ->
     within_range (mkTicks24 0x5) (mkTicks24 0xfffff0) (mkTicks24 0x20)
     = (wrapping_sub32 jz jx <? wrapping_sub32 jy jx)).
Proof.
  apply (left_justified_wraps (mkTicks24 0xfffff0) (mkTicks24 0x20) (mkTicks24 0x5));
    unfold in_range; cbn; lia.
Defined.

End Ticks.
