(* ===== verification/VirtualAlarm.v ===== *)
(** Virtual alarms ([capsules/core/src/virtualizers/virtual_alarm.rs]), module
    [VirtualAlarm]: many alarms multiplexed over one hardware alarm.  A virtual
    alarm is a node of the mux's list, named by its place in [nodes]; the list
    itself ([virtual_alarms]) behaves as the functional list of its nodes, new ones
    at the head.  What clients do when their alarm fires is the parameter
    [callback]: it may call the virtual alarms again.  The state also records the
    calls of clients and the callbacks ([trace], newest first), which the theorems
    of [VirtualAlarmSpec] are about; nothing reads it. *)

From stdpp Require Import base numbers list.
From S2P Require Import Prelude Ticks.
Import Ticks.
Local Open Scope Z_scope.

Module VirtualAlarm.

Record TickDtReference (T : Type) := mkRef { reference : T; dt : T; extended : bool }.
Arguments mkRef {T}.
Arguments reference {T}.
Arguments dt {T}.
Arguments extended {T}.

Record VirtualMuxAlarm (T C : Type) := mkNode {
  dt_reference : TickDtReference T;
  armed : bool;
  client : option C;
}.
Arguments mkNode {T C}.
Arguments dt_reference {T C}.
Arguments armed {T C}.
Arguments client {T C}.

(** Calls of clients, with the hardware as it was, and callbacks. *)
Inductive Event (T H : Type) : Type :=
  | SetAlarm (i : nat) (reference dt : T) (h : H)
  | Disarm (i : nat)
  | Fired (i : nat) (h : H).
Arguments SetAlarm {T H}.
Arguments Disarm {T H}.
Arguments Fired {T H}.

Record MuxAlarm (T H C E : Type) := mkMux {
  virtual_alarms : list nat;
  nodes : list (VirtualMuxAlarm T C);
  enabled : Z;
  alarm : H;
  firing : bool;
  next_tick_vals : option (T * T);
  (** the state of the clients *)
  env : E;
  trace : list (Event T H);
}.
Arguments mkMux {T H C E}.
Arguments virtual_alarms {T H C E}.
Arguments nodes {T H C E}.
Arguments enabled {T H C E}.
Arguments alarm {T H C E}.
Arguments firing {T H C E}.
Arguments next_tick_vals {T H C E}.
Arguments env {T H C E}.
Arguments trace {T H C E}.

Section mux.
  Context {T H C E : Type} `{!Ticks T} `{!Alarm H T}.
  Notation Mux := (MuxAlarm T H C E).
  Implicit Types (s : Mux) (v : VirtualMuxAlarm T C).

(** ** Fields *)

Definition set_virtual_alarms l s : Mux :=
  mkMux l (nodes s) (enabled s) (alarm s) (firing s) (next_tick_vals s) (env s) (trace s).
Definition set_nodes ns s : Mux :=
  mkMux (virtual_alarms s) ns (enabled s) (alarm s) (firing s) (next_tick_vals s) (env s) (trace s).
Definition set_enabled n s : Mux :=
  mkMux (virtual_alarms s) (nodes s) n (alarm s) (firing s) (next_tick_vals s) (env s) (trace s).
Definition set_hw h s : Mux :=
  mkMux (virtual_alarms s) (nodes s) (enabled s) h (firing s) (next_tick_vals s) (env s) (trace s).
Definition set_firing b s : Mux :=
  mkMux (virtual_alarms s) (nodes s) (enabled s) (alarm s) b (next_tick_vals s) (env s) (trace s).
Definition set_next n s : Mux :=
  mkMux (virtual_alarms s) (nodes s) (enabled s) (alarm s) (firing s) n (env s) (trace s).
Definition set_env e s : Mux :=
  mkMux (virtual_alarms s) (nodes s) (enabled s) (alarm s) (firing s) (next_tick_vals s) e (trace s).
Definition record_event ev s : Mux :=
  mkMux (virtual_alarms s) (nodes s) (enabled s) (alarm s) (firing s) (next_tick_vals s) (env s)
    (ev :: trace s).
Definition set_node (i : nat) v s : Mux := set_nodes (<[i := v]> (nodes s)) s.

Definition reference_plus_dt (r : TickDtReference T) : T := wrapping_add (reference r) (dt r).

(** ** Construction *)

Definition mux_new (h : H) (e : E) : Mux := mkMux [] [] 0 h false None e [].
Definition virtual_new : VirtualMuxAlarm T C :=
  mkNode (mkRef (from_u32 0) (from_u32 0) false) false None.
Definition setup (i : nat) s : Mux := set_virtual_alarms (i :: virtual_alarms s) s.

(** ** The mux *)

Definition mux_set_alarm (reference dt : T) s : Mux :=
  set_hw (hw_set_alarm reference dt (alarm s)) (set_next (Some (reference, dt)) s).
Definition mux_disarm s : Mux := set_hw (hw_disarm (alarm s)).2 (set_next None s).

(** [self.alarm.now()] *)
Definition read_now s : T * Mux :=
  let '(x, h) := now (alarm s) in (x, set_hw h s).

(** ** A virtual alarm *)

Definition set_alarm_client (i : nat) (c : C) s : outcome Mux :=
  let! v := index (nodes s) i in
  Ret (set_node i (mkNode (dt_reference v) (armed v) (Some c)) s).

Definition disarm (i : nat) s : outcome (result unit unit * Mux) :=
  let s := record_event (Disarm i) s in
  let! v := index (nodes s) i in
  if negb (armed v) then Ret (Ok tt, s)
  else
    let s := set_node i (mkNode (dt_reference v) false (client v)) s in
    let! enabled := sub32 (enabled s) 1 in
    let s := set_enabled enabled s in
    Ret (Ok tt, if enabled =? 0 then set_hw (hw_disarm (alarm s)).2 s else s).

Definition is_armed (i : nat) s : outcome bool :=
  let! v := index (nodes s) i in
  Ret (armed v).

(** The choice of [dt_reference] in [set_alarm]. *)
Definition split_dt (reference dt : T) (min : T) : TickDtReference T :=
  if lt_ticks (wrapping_add half_max_value min) dt then
    mkRef reference (wrapping_sub dt half_max_value) true
  else mkRef reference dt false.

(** Another alarm is set already: is this one sooner? *)
Definition set_sooner (reference dt : T) s : Mux :=
  let cur_alarm := hw_get_alarm (alarm s) in
  let '(now, s) := read_now s in
  let expiration := wrapping_add reference dt in
  if negb (within_range cur_alarm reference expiration) then
    if match next_tick_vals s with
       | None => true
       | Some (next_reference, next_dt) =>
         within_range now next_reference (wrapping_add next_reference next_dt)
       end
    then mux_set_alarm reference dt s else s
  else s.

Definition set_alarm (i : nat) (reference dt_ : T) s : outcome Mux :=
  let s := record_event (SetAlarm i reference dt_ (alarm s)) s in
  let enabled := enabled s in
  let dt_reference := split_dt reference dt_ (minimum_dt (alarm s)) in
  let! v := index (nodes s) i in
  let s := set_node i (mkNode dt_reference (armed v) (client v)) s in
  let dt_ := dt dt_reference in
  let! s :=
    (if negb (armed v) then
       let! enabled1 := add32 enabled 1 in
       Ret (set_node i (mkNode dt_reference true (client v)) (set_enabled enabled1 s))
     else Ret s) in
  if enabled =? 0 then Ret (mux_set_alarm reference dt_ s)
  else if negb (firing s) then Ret (set_sooner reference dt_ s)
  else Ret s.

Definition get_alarm (i : nat) s : outcome T :=
  let! v := index (nodes s) i in
  let extension := if extended (dt_reference v) then half_max_value else from_u32 0 in
  Ret (wrapping_add (reference_plus_dt (dt_reference v)) extension).

(** ** The hardware alarm fires *)

  (** What the client of an alarm does. *)
  Context (callback : C -> Mux -> outcome Mux).

(** [cur.alarm()] *)
Definition node_alarm (i : nat) s : outcome Mux :=
  let s := record_event (Fired i (alarm s)) s in
  let! v := index (nodes s) i in
  match client v with
  | Some c => callback c s
  | None => Ret s
  end.

(** The body of [for_each], on an alarm that passed the filter. *)
Definition fire_node (i : nat) v s : outcome Mux :=
  let dt_ref := dt_reference v in
  if extended dt_ref then
    Ret (set_node i (mkNode (mkRef (reference_plus_dt dt_ref) half_max_value false)
                       (armed v) (client v)) s)
  else
    let s := set_node i (mkNode dt_ref false (client v)) s in
    let! enabled := sub32 (enabled s) 1 in
    node_alarm i (set_enabled enabled s).

(** [iter().filter(..).for_each(..)]: lazily, one alarm after the other.  Alarms
    that are pushed meanwhile are in front of the iterator. *)
Fixpoint fire_loop (is_ : list nat) s : outcome Mux :=
  match is_ with
  | [] => Ret s
  | i :: is_ =>
    let! v := index (nodes s) i in
    let '(now, s) := read_now s in
    let expired :=
      armed v && negb (within_range now (reference (dt_reference v))
                         (reference_plus_dt (dt_reference v))) in
    let! s := (if expired then fire_node i v s else Ret s) in
    fire_loop is_ s
  end.

(** The key of [min_by_key]. *)
Definition time_left (now : T) (when : TickDtReference T) : T :=
  if negb (within_range now (reference when) (reference_plus_dt when)) then from_u32 0
  else wrapping_sub (reference_plus_dt when) now.

(** [min_by_key]: the first of the smallest. *)
Fixpoint soonest (now : T) (rs : list (TickDtReference T)) : option (TickDtReference T) :=
  match rs with
  | [] => None
  | r :: rs =>
    match soonest now rs with
    | Some r' => if lt_ticks (time_left now r') (time_left now r) then Some r' else Some r
    | None => Some r
    end
  end.

(** [iter().filter(|cur| cur.armed.get())] *)
Definition armed_refs s : list (TickDtReference T) :=
  omap (fun i => v ← nodes s !! i; if armed v then Some (dt_reference v) else None)
    (virtual_alarms s).

Definition set_next_alarm s : Mux :=
  let '(now, s) := read_now s in
  match soonest now (armed_refs s) with
  | Some r => mux_set_alarm (reference r) (dt r) s
  | None => mux_disarm s
  end.

Definition mux_alarm s : outcome Mux :=
  let s := set_firing true s in
  let! s := fire_loop (virtual_alarms s) s in
  Ret (set_next_alarm (set_firing false s)).

End mux.
End VirtualAlarm.
