(* ===== verification/VirtualAlarmSpec.v ===== *)
(** What virtual alarms promise, module [VirtualAlarmSpec]: a virtual alarm never
    fires early, whatever clients and the hardware do, and when callbacks are served
    with bounded delay it fires in time.  Time is the unbounded tick count of the
    hardware ([time]), of which the counter shows the low bits; requests and
    callbacks are read from the trace of the mux. *)

From stdpp Require Import base numbers list relations.
From S2P Require Import Prelude Ticks VirtualAlarm.
Import Ticks VirtualAlarm.
Local Open Scope Z_scope.

Module VirtualAlarmSpec.

(** * The hardware alarm

    [time] is the true time and [expiry] when the hardware calls back, following
    the documentation of the trait [Alarm]: an alarm for [reference + dt] that lies
    ahead fires then, one that has passed fires at once, and a [dt] below the
    minimum is raised to it. *)
Class AlarmLaws (H T : Type) `{L : TicksLaws T} `{!Alarm H T} := {
  time : H -> Z;
  expiry : H -> option Z;
  now_spec h x h' : now h = (x, h') ->
    time h <= time h' /\ val x = time h' mod 2 ^ width /\ expiry h' = expiry h /\
    hw_get_alarm h' = hw_get_alarm h /\ minimum_dt h' = minimum_dt h;
  set_time r d h : time h <= time (hw_set_alarm r d h);
  set_minimum r d h : minimum_dt (hw_set_alarm r d h) = minimum_dt h;
  set_get r d h : val (hw_get_alarm (hw_set_alarm r d h)) mod 2 ^ width = (val r + val d) mod 2 ^ width;
  set_expiry r d h : let h' := hw_set_alarm r d h in
    exists e, expiry h' = Some e /\
      e <= Z.max (time h' - (time h' - val r) mod 2 ^ width + val d) (time h' + val (minimum_dt h));
  disarm_time h : time h <= time (hw_disarm h).2;
  disarm_minimum h : minimum_dt (hw_disarm h).2 = minimum_dt h;
}.

Section spec.
  Context {T H C E : Type} `{AL : AlarmLaws H T}.
  Notation Mux := (MuxAlarm T H C E).
  Implicit Types (s : Mux) (v : VirtualMuxAlarm T C) (r : TickDtReference T).
  Context (callback : C -> Mux -> outcome Mux).
  (** The minimum of the hardware; the greatest age of a reference that clients
      use. *)
  Context (MIN A : Z).

Definition M : Z := 2 ^ width.
Definition half : Z := 2 ^ (width - 1).
Definition clock s : Z := time (alarm s).

(** The time a counter value stands for, when it lies in the past. *)
Definition past (t : Z) (x : T) : Z := t - (t - val x) mod M.

(** The pending request of an alarm: its deadline and when it was made. *)
Fixpoint due (tr : list (Event T H)) (i : nat) : option (Z * Z) :=
  match tr with
  | [] => None
  | SetAlarm j r d h :: tr =>
    if decide (j = i) then Some (past (time h) r + val d, time h) else due tr i
  | Disarm j :: tr => if decide (j = i) then None else due tr i
  | Fired j h :: tr => if decide (j = i) then None else due tr i
  end.

(** Every callback of the trace comes at or after the deadline then pending. *)
Fixpoint never_early (tr : list (Event T H)) : Prop :=
  match tr with
  | [] => True
  | Fired i h :: tr =>
    (exists deadline made, due tr i = Some (deadline, made) /\ deadline <= time h) /\ never_early tr
  | _ :: tr => never_early tr
  end.

(** * What clients and time may do *)

Inductive client_step s : Mux -> Prop :=
  | step_set i (r d : T) s' : i ∈ virtual_alarms s -> in_range d -> (clock s - val r) mod M <= A ->
      set_alarm i r d s = Ret s' -> client_step s s'
  | step_disarm i e s' : disarm i s = Ret (e, s') -> client_step s s'
  | step_client i c s' : set_alarm_client i c s = Ret s' -> client_step s s'
  | step_new : Z.of_nat (S (length (nodes s))) < U32 ->
      client_step s (setup (length (nodes s)) (set_nodes (nodes s ++ [virtual_new]) s))
  | step_env e : client_step s (set_env e s)
  | step_now : client_step s (read_now s).2
  | step_pass h : clock s <= time h -> expiry h = expiry (alarm s) ->
      hw_get_alarm h = hw_get_alarm (alarm s) -> minimum_dt h = minimum_dt (alarm s) ->
      client_step s (set_hw h s).

(** Callbacks use the virtual alarms through their interface. *)
Definition callback_ok : Prop :=
  forall c s s', callback c s = Ret s' -> rtc client_step s s'.

Inductive step s : Mux -> Prop :=
  | step_call s' : client_step s s' -> step s s'
  | step_fire s' : mux_alarm callback s = Ret s' -> step s s'.

(** * The invariant *)

Definition extension r : Z := if extended r then half else 0.

(** [r] waits for its part of a request made at [made] with this deadline. *)
Record staged r (deadline made t : Z) : Prop := mkStaged {
  st_reference : val (reference r) mod M = (deadline - extension r - val (dt r)) mod M;
  st_past : deadline - extension r - val (dt r) <= t;
  st_made : made <= t;
  st_age : made <= deadline - extension r - val (dt r) + A;
  st_dt : 0 <= val (dt r) <= half + MIN;
}.

Definition count_armed s : nat := length (armed_refs s).

Record inv s : Prop := mkInv {
  inv_nodup : NoDup (virtual_alarms s);
  inv_range i : i ∈ virtual_alarms s -> (i < length (nodes s))%nat;
  inv_small : Z.of_nat (length (nodes s)) < U32;
  inv_count : enabled s = Z.of_nat (count_armed s);
  inv_linked i v : nodes s !! i = Some v -> armed v = true -> i ∈ virtual_alarms s;
  inv_staged i v : nodes s !! i = Some v -> armed v = true ->
    exists deadline made, due (trace s) i = Some (deadline, made) /\
      staged (dt_reference v) deadline made (clock s);
  inv_idle i : (forall v, nodes s !! i = Some v -> armed v = false) -> due (trace s) i = None;
  inv_early : never_early (trace s);
  inv_min : val (minimum_dt (alarm s)) = MIN;
}.

  Context (HMIN : 0 <= MIN < half).

Lemma M_half : M = 2 * half /\ 0 < half.
Proof using L.
  unfold M, half. pose proof width_pos. split; [|apply Z.pow_pos_nonneg; lia].
  rewrite <- Z.pow_succ_r by lia. f_equal. lia.
Qed.

Lemma past_spec t x : past t x <= t /\ t - past t x < M /\ past t x mod M = val x mod M /\
  t - past t x = (t - val x) mod M.
Proof using L.
  unfold past. destruct M_half. pose proof (Z.mod_pos_bound (t - val x) M ltac:(lia)).
  split_and!; [lia..| |lia]. rewrite Zminus_mod_idemp_r. f_equal. lia.
Qed.

(** ** Windows *)

Lemma window r deadline made t t' x :
  staged r deadline made t -> t <= t' -> val x = t' mod M ->
  within_range x (reference r) (reference_plus_dt r)
  = ((t' - (deadline - extension r - val (dt r))) mod M <? val (dt r)).
Proof using L HMIN.
  intros [Hr Hp _ _ Hd] Ht Hx. destruct M_half. rewrite within_spec. unfold reference_plus_dt.
  rewrite val_add. fold M. f_equal.
  - rewrite Hx, Zminus_mod_idemp_l. rewrite <- Zminus_mod_idemp_r, Hr, Zminus_mod_idemp_r. done.
  - rewrite Zminus_mod_idemp_l. replace (_ + _ - _) with (val (dt r)) by lia. apply Z.mod_small. lia.
Qed.

(** An alarm whose window the clock has left is not early. *)
Lemma left_window r deadline made t t' x :
  staged r deadline made t -> t <= t' -> val x = t' mod M ->
  within_range x (reference r) (reference_plus_dt r) = false -> deadline - extension r <= t'.
Proof using L HMIN.
  intros Hs Ht Hx Hw. rewrite (window _ _ _ _ _ _ Hs Ht Hx) in Hw. apply Z.ltb_ge in Hw.
  destruct Hs as [_ Hp _ _ Hd]. destruct M_half.
  destruct (Z.le_gt_cases (deadline - extension r) t') as [?|?]; [done|].
  rewrite Z.mod_small in Hw by lia. lia.
Qed.

(** Within one turn of the counter the window is exact. *)
Lemma window_exact r deadline made t t' x :
  staged r deadline made t -> t <= t' -> val x = t' mod M ->
  t' - (deadline - extension r - val (dt r)) < M ->
  within_range x (reference r) (reference_plus_dt r) = (t' <? deadline - extension r).
Proof using L HMIN.
  intros Hs Ht Hx Hm. rewrite (window _ _ _ _ _ _ Hs Ht Hx).
  destruct Hs as [_ Hp _ _ Hd]. rewrite Z.mod_small by lia.
  destruct (Z.ltb_spec t' (deadline - extension r)); [apply Z.ltb_lt|apply Z.ltb_ge]; lia.
Qed.

Lemma staged_later r deadline made t t' :
  staged r deadline made t -> t <= t' -> staged r deadline made t'.
Proof using. intros [??? ??] ?. split; try done; lia. Qed.

(** The request that [set_alarm] stores. *)
Lemma split_staged (r d : T) t m : in_range d -> val m = MIN -> (t - val r) mod M <= A ->
  staged (split_dt r d m) (past t r + val d) t t.
Proof using L HMIN.
  intros [Hd0 Hd1] Hm Ha. fold M in Hd1. destruct M_half as [HM Hh]. destruct (past_spec t r) as (Hp & _ & Hpr & Hpa).
  unfold split_dt. rewrite lt_spec, val_add, val_half, Hm. fold half M.
  rewrite Z.mod_small by lia.
  destruct (Z.ltb_spec (half + MIN) (val d)) as [Hl|Hl].
  - assert (Hv : val (wrapping_sub d half_max_value) = val d - half).
    { rewrite val_sub, val_half. fold half M. apply Z.mod_small. lia. }
    split; cbn; unfold extension; cbn; rewrite ?Hv; try lia.
    rewrite <- Hpr. f_equal. lia.
  - split; cbn; unfold extension; cbn; try lia. rewrite <- Hpr. f_equal. lia.
Qed.

(** The second part of a split request. *)
Lemma extended_staged r deadline made t t' x :
  staged r deadline made t -> extended r = true -> t <= t' -> val x = t' mod M ->
  within_range x (reference r) (reference_plus_dt r) = false ->
  staged (mkRef (reference_plus_dt r) half_max_value false) deadline made t'.
Proof using L HMIN.
  intros Hs He Ht Hx Hw. pose proof (left_window _ _ _ _ _ _ Hs Ht Hx Hw) as Hl.
  destruct Hs as [Hr Hp Hm Ha Hd]. destruct M_half. unfold extension in *. rewrite He in *.
  split; cbn; unfold reference_plus_dt; rewrite ?val_add, ?val_half; fold M half; try lia.
  rewrite Z.mod_mod, <- Zplus_mod_idemp_l, Hr, Zplus_mod_idemp_l by lia. f_equal. lia.
Qed.

(** ** The count of armed alarms *)

Definition armed_at (ns : list (VirtualMuxAlarm T C)) (i : nat) : option (TickDtReference T) :=
  v ← ns !! i; if armed v then Some (dt_reference v) else None.

Lemma armed_at_insert ns i v' j : (i < length ns)%nat ->
  armed_at (<[i := v']> ns) j
  = if decide (j = i) then (if armed v' then Some (dt_reference v') else None) else armed_at ns j.
Proof using.
  intros Hi. unfold armed_at. case_decide as E0.
  - subst. by rewrite list_lookup_insert_eq by done.
  - by rewrite list_lookup_insert_ne by done.
Qed.

Lemma omap_armed_other ns i v' (l : list nat) : (i < length ns)%nat -> i ∉ l ->
  omap (armed_at (<[i := v']> ns)) l = omap (armed_at ns) l.
Proof using.
  intros Hi. induction l as [|j l IH]; intros Hl; [done|]. apply not_elem_of_cons in Hl as [Hj Hl].
  cbn. rewrite armed_at_insert, decide_False by done. by rewrite IH.
Qed.

Lemma omap_armed_insert ns i v v' (l : list nat) : NoDup l -> ns !! i = Some v -> i ∈ l ->
  Z.of_nat (length (omap (armed_at (<[i := v']> ns)) l))
  = Z.of_nat (length (omap (armed_at ns) l)) - Z.b2z (armed v) + Z.b2z (armed v').
Proof using.
  intros Hnd Hi Hl. apply list_elem_of_split in Hl as (l1 & l2 & ->).
  apply NoDup_app in Hnd as (_ & Hd & Hnd). apply NoDup_cons in Hnd as [H2 _].
  assert (H1 : i ∉ l1) by (intros Hin; apply (Hd i Hin); left).
  pose proof (lookup_lt_Some _ _ _ Hi) as Hlen.
  rewrite !omap_app, !length_app. cbn. rewrite armed_at_insert, decide_True by done.
  rewrite !omap_armed_other by done.
  assert (armed_at ns i = if armed v then Some (dt_reference v) else None) as -> by (unfold armed_at; by rewrite Hi).
  destruct (armed v), (armed v'); cbn; lia.
Qed.

Lemma armed_refs_omap s : armed_refs s = omap (armed_at (nodes s)) (virtual_alarms s).
Proof using. done. Qed.

Lemma armed_counted s i v : inv s -> nodes s !! i = Some v -> armed v = true -> 1 <= enabled s.
Proof using.
  intros Hi Hv Ha. rewrite (inv_count _ Hi). unfold count_armed.
  assert (Hin : dt_reference v ∈ armed_refs s).
  { apply list_elem_of_omap. exists i. split; [by apply (inv_linked _ Hi i v)|]. by rewrite Hv; cbn; rewrite Ha. }
  destruct (armed_refs s); [by apply elem_of_nil in Hin|cbn; lia].
Qed.

Lemma enabled_zero s i v : inv s -> enabled s = 0 -> nodes s !! i = Some v -> armed v = false.
Proof using.
  intros Hi He Hv. destruct (armed v) eqn:Ha; [|done]. pose proof (armed_counted _ _ _ Hi Hv Ha). lia.
Qed.

Lemma omap_armed_le ns (l : list nat) : (length (omap (armed_at ns) l) <= length l)%nat.
Proof using. induction l as [|i l IH]; cbn; [lia|]. destruct (armed_at ns i); cbn; lia. Qed.

Lemma linked_bound s : inv s -> Z.of_nat (length (virtual_alarms s)) < U32.
Proof using.
  intros Hi. pose proof (inv_small _ Hi). enough (length (virtual_alarms s) <= length (nodes s))%nat by lia.
  transitivity (length (seq 0 (length (nodes s)))); [|by rewrite length_seq].
  apply submseteq_length, NoDup_submseteq; [apply Hi|].
  intros i Hin. apply elem_of_seq. split; [lia|]. by apply (inv_range _ Hi).
Qed.

(** The count never overflows. *)
Lemma enabled_room s i v : inv s -> nodes s !! i = Some v -> i ∈ virtual_alarms s -> armed v = false ->
  0 <= enabled s /\ enabled s + 1 < U32.
Proof using.
  intros Hi Hv Hin Ha. pose proof (linked_bound s Hi). rewrite (inv_count _ Hi).
  unfold count_armed. rewrite armed_refs_omap.
  pose proof (omap_armed_insert (nodes s) i v (mkNode (dt_reference v) true None) _ (inv_nodup _ Hi) Hv Hin) as Hc.
  rewrite Ha in Hc. cbn in Hc. pose proof (omap_armed_le (<[i := mkNode (dt_reference v) true None]> (nodes s)) (virtual_alarms s)).
  lia.
Qed.
Lemma enabled_range s : inv s -> 0 <= enabled s < U32.
Proof using.
  intros Hi. pose proof (linked_bound s Hi). rewrite (inv_count _ Hi). unfold count_armed.
  rewrite armed_refs_omap. pose proof (omap_armed_le (nodes s) (virtual_alarms s)). lia.
Qed.

(** ** Preservation *)

(** Only some parts of the state matter. *)
Lemma inv_frame s s' :
  inv s -> virtual_alarms s' = virtual_alarms s -> nodes s' = nodes s -> enabled s' = enabled s ->
  trace s' = trace s -> clock s <= clock s' -> minimum_dt (alarm s') = minimum_dt (alarm s) -> inv s'.
Proof using.
  intros [Hn Hr Hs Hc Hl Hst Hi He Hm] Ev En Ee Et Hclk Emin.
  assert (Ec : count_armed s' = count_armed s) by (unfold count_armed; rewrite !armed_refs_omap; by rewrite Ev, En).
  split; rewrite ?Ev, ?En, ?Ee, ?Et, ?Emin, ?Ec; try done.
  intros i v Hv Ha. destruct (Hst i v Hv Ha) as (dl & mk & Hd & Hg). exists dl, mk. split; [done|].
  by eapply staged_later.
Qed.

Lemma inv_change s i v v' n tr' :
  inv s -> nodes s !! i = Some v -> i ∈ virtual_alarms s ->
  n = enabled s - Z.b2z (armed v) + Z.b2z (armed v') ->
  (forall j, j <> i -> due tr' j = due (trace s) j) -> never_early tr' ->
  (armed v' = false -> due tr' i = None) ->
  (armed v' = true -> exists deadline made, due tr' i = Some (deadline, made) /\
     staged (dt_reference v') deadline made (clock s)) ->
  inv (mkMux (virtual_alarms s) (<[i := v']> (nodes s)) n (alarm s) (firing s) (next_tick_vals s)
         (env s) tr').
Proof using.
  intros [Hn Hr Hs Hc Hl Hst Hi He Hm] Hv Hin En Hd He' Hoff Hon.
  pose proof (lookup_lt_Some _ _ _ Hv) as Hlt.
  assert (Hother : forall j w, <[i := v']> (nodes s) !! j = Some w -> j <> i -> nodes s !! j = Some w).
  { intros j w Hw Hj. by rewrite list_lookup_insert_ne in Hw. }
  assert (Hsame : forall w, <[i := v']> (nodes s) !! i = Some w -> w = v').
  { intros w Hw. rewrite list_lookup_insert_eq in Hw by done. by simplify_eq. }
  split; cbn; rewrite ?length_insert; try done.
  - rewrite En, Hc. symmetry. by apply omap_armed_insert.
  - intros j w Hw Ha. destruct (decide (j = i)) as [->|Hj]; [done|]. by apply (Hl j w); [apply Hother|].
  - intros j w Hw Ha. destruct (decide (j = i)) as [->|Hj].
    + rewrite (Hsame w Hw) in *. by apply Hon.
    + rewrite Hd by done. by apply Hst; [apply Hother|].
  - intros j Hj. destruct (decide (j = i)) as [->|Hji].
    + apply Hoff, Hj. by rewrite list_lookup_insert_eq.
    + rewrite Hd by done. apply Hi. intros w Hw. apply Hj. by rewrite list_lookup_insert_ne.
Qed.

(** ** Operations on the hardware only *)

Record hw_only s s' : Prop := mkHwOnly {
  ho_list : virtual_alarms s' = virtual_alarms s;
  ho_nodes : nodes s' = nodes s;
  ho_enabled : enabled s' = enabled s;
  ho_firing : firing s' = firing s;
  ho_trace : trace s' = trace s;
  ho_clock : clock s <= clock s';
  ho_min : minimum_dt (alarm s') = minimum_dt (alarm s);
}.

Lemma hw_only_refl s : hw_only s s.
Proof using. split; done || lia. Qed.
Lemma hw_only_trans s1 s2 s3 : hw_only s1 s2 -> hw_only s2 s3 -> hw_only s1 s3.
Proof using. intros [] []. split; congruence || lia. Qed.
Lemma hw_only_mux_set (r d : T) s : hw_only s (mux_set_alarm r d s).
Proof using. split; try done; [apply set_time|apply set_minimum]. Qed.
Lemma hw_only_read_now s : hw_only s (read_now s).2.
Proof using.
  unfold read_now. destruct (now (alarm s)) as [x h] eqn:En. cbn.
  destruct (now_spec _ _ _ En) as (Ht & _ & _ & _ & Hm). by split.
Qed.
Lemma hw_only_disarm s : hw_only s (set_hw (hw_disarm (alarm s)).2 s).
Proof using. split; try done; [apply disarm_time|apply disarm_minimum]. Qed.
Lemma hw_only_mux_disarm s : hw_only s (mux_disarm s).
Proof using. split; try done; [apply disarm_time|apply disarm_minimum]. Qed.
Lemma hw_only_set_sooner (r d : T) s : hw_only s (set_sooner r d s).
Proof using.
  unfold set_sooner. pose proof (hw_only_read_now s) as Hn. destruct (read_now s) as [x s1]. cbn in Hn.
  repeat case_match; try done; (eapply hw_only_trans; [exact Hn|apply hw_only_mux_set]).
Qed.
Lemma hw_only_set_next s : hw_only s (set_next_alarm s).
Proof using.
  unfold set_next_alarm. pose proof (hw_only_read_now s) as Hn. destruct (read_now s) as [x s1]. cbn in Hn.
  destruct (soonest x (armed_refs s1)); (eapply hw_only_trans; [exact Hn|]);
    [apply hw_only_mux_set|apply hw_only_mux_disarm].
Qed.

Lemma inv_hw_only s s' : inv s -> hw_only s s' -> inv s'.
Proof using. intros Hi []. by eapply inv_frame. Qed.

(** ** Operations of clients *)

(** What [set_alarm] does but for the hardware. *)
Definition requested (i : nat) (r d : T) v s : Mux :=
  mkMux (virtual_alarms s)
    (<[i := mkNode (split_dt r d (minimum_dt (alarm s))) true (client v)]> (nodes s))
    (enabled s - Z.b2z (armed v) + 1) (alarm s) (firing s) (next_tick_vals s) (env s)
    (SetAlarm i r d (alarm s) :: trace s).

Lemma set_alarm_requested i (r d : T) s s' :
  inv s -> i ∈ virtual_alarms s -> set_alarm i r d s = Ret s' ->
  exists v, nodes s !! i = Some v /\
    let s1 := requested i r d v s in
    let dt_ := dt (split_dt r d (minimum_dt (alarm s))) in
    s' = (if enabled s =? 0 then mux_set_alarm r dt_ s1
          else if firing s then s1 else set_sooner r dt_ s1).
Proof using.
  intros Hi Hin Hs. unfold set_alarm in Hs. cbn [record_event enabled alarm nodes] in Hs.
  destruct (nodes s !! i) as [v|] eqn:Hv; [|by unfold index in Hs; rewrite Hv in Hs].
  unfold index in Hs. rewrite Hv in Hs. cbn [of_option obind] in Hs. exists v. split; [done|]. cbn zeta.
  assert (Hreq : forall n, n = enabled s - Z.b2z (armed v) + 1 ->
    set_node i (mkNode (split_dt r d (minimum_dt (alarm s))) true (client v))
      (set_enabled n (set_node i (mkNode (split_dt r d (minimum_dt (alarm s))) (armed v) (client v))
        (record_event (SetAlarm i r d (alarm s)) s))) = requested i r d v s).
  { intros n ->. unfold requested, set_node, set_nodes, set_enabled, record_event. cbn.
    by rewrite list_insert_insert_eq. }
  destruct (armed v) eqn:Ha; cbn [negb] in Hs.
  - cbn [obind] in Hs.
    assert (Hr : set_node i (mkNode (split_dt r d (minimum_dt (alarm s))) true (client v))
                   (record_event (SetAlarm i r d (alarm s)) s) = requested i r d v s).
    { unfold requested, set_node, set_nodes, record_event. cbn. rewrite Ha. cbn. f_equal. lia. }
    rewrite Hr in Hs. cbn [requested firing] in Hs. destruct (enabled s =? 0); [by simplify_eq|].
    destruct (firing s); cbn [negb] in Hs; by simplify_eq.
  - destruct (enabled_room s i v Hi Hv Hin Ha). unfold add32 in Hs.
    rewrite checked32_ok in Hs by (unfold u32_range; lia). cbn [obind] in Hs.
    rewrite Hreq in Hs by (cbn; lia). cbn [requested firing] in Hs.
    destruct (enabled s =? 0); [by simplify_eq|]. destruct (firing s); cbn [negb] in Hs; by simplify_eq.
Qed.

Lemma set_alarm_hw_only i (r d : T) s s' :
  inv s -> i ∈ virtual_alarms s -> set_alarm i r d s = Ret s' ->
  exists v, nodes s !! i = Some v /\ hw_only (requested i r d v s) s'.
Proof using.
  intros Hi Hin Hs. destruct (set_alarm_requested _ _ _ _ _ Hi Hin Hs) as (v & Hv & ->). exists v.
  split; [done|]. cbn zeta.
  repeat case_match; auto using hw_only_mux_set, hw_only_refl, hw_only_set_sooner.
Qed.

Lemma inv_requested i (r d : T) v s :
  inv s -> i ∈ virtual_alarms s -> nodes s !! i = Some v -> in_range d ->
  (clock s - val r) mod M <= A -> inv (requested i r d v s).
Proof using HMIN.
  intros Hi Hin Hv Hd Ha. apply (inv_change s i v); try done.
  - intros j Hj. cbn. by rewrite decide_False.
  - apply Hi.
  - intros _. cbn. rewrite decide_True by done. eexists _, _. split; [done|]. cbn.
    apply split_staged; try done. apply Hi.
Qed.

Lemma set_alarm_returns i (r d : T) s : inv s -> i ∈ virtual_alarms s -> returns (set_alarm i r d s).
Proof using.
  intros Hi Hin. destruct (lookup_lt_is_Some_2 _ _ (inv_range _ Hi i Hin)) as [v Hv].
  unfold set_alarm, index. cbn [record_event enabled nodes]. rewrite Hv. cbn [of_option obind].
  destruct (armed v) eqn:Ha; cbn [negb obind]; [by repeat case_match; eexists|].
  destruct (enabled_room s i v Hi Hv Hin Ha). unfold add32.
  rewrite checked32_ok by (unfold u32_range; lia). cbn [obind]. by repeat case_match; eexists.
Qed.

(** Changes that keep the requests. *)
Lemma inv_same s ns' tr' :
  inv s -> length ns' = length (nodes s) ->
  (forall j v', ns' !! j = Some v' -> exists v, nodes s !! j = Some v /\ armed v' = armed v /\
     dt_reference v' = dt_reference v) ->
  (forall j, due tr' j = due (trace s) j) -> never_early tr' ->
  inv (mkMux (virtual_alarms s) ns' (enabled s) (alarm s) (firing s) (next_tick_vals s) (env s) tr').
Proof using.
  intros [Hn Hr Hs Hc Hl Hst Hi He Hm] Hlen Hns Hd He'.
  split; cbn; rewrite ?Hlen; try done.
  - rewrite Hc. f_equal. unfold count_armed. rewrite armed_refs_omap. f_equal. unfold armed_refs. cbn.
    apply list_omap_ext, Forall_Forall2_diag, Forall_true. intros j. unfold armed_at.
    destruct (ns' !! j) as [v'|] eqn:Hj.
    + destruct (Hns j v' Hj) as (v & -> & Ea & Er). cbn. by rewrite Ea, Er.
    + apply lookup_ge_None in Hj. by rewrite (proj2 (lookup_ge_None (nodes s) j)) by lia.
  - intros j v' Hj Ha. destruct (Hns j v' Hj) as (v & Hv & Ea & Er). apply (Hl j v); congruence.
  - intros j v' Hj Ha. destruct (Hns j v' Hj) as (v & Hv & Ea & Er). rewrite Er, Hd.
    apply (Hst j v); congruence.
  - intros j Hj. rewrite Hd. apply Hi. intros v Hv. destruct (ns' !! j) as [v'|] eqn:Hj'.
    + destruct (Hns j v' Hj') as (w & Hw & Ea & Er). simplify_eq. rewrite <- Ea. by apply Hj.
    + apply lookup_ge_None in Hj'. apply lookup_lt_Some in Hv. lia.
Qed.

Definition disarmed (i : nat) v s : Mux :=
  mkMux (virtual_alarms s) (<[i := mkNode (dt_reference v) false (client v)]> (nodes s))
    (enabled s - 1) (alarm s) (firing s) (next_tick_vals s) (env s) (Disarm i :: trace s).

Lemma disarm_result i s e s' : inv s -> disarm i s = Ret (e, s') ->
  exists v, nodes s !! i = Some v /\
    if armed v then
      s' = (if enabled s - 1 =? 0 then set_hw (hw_disarm (alarm s)).2 (disarmed i v s) else disarmed i v s)
    else s' = record_event (Disarm i) s.
Proof using.
  intros Hi Hs. unfold disarm in Hs. cbn [record_event nodes] in Hs. unfold index in Hs.
  destruct (nodes s !! i) as [v|] eqn:Hv; [|done]. cbn [of_option obind] in Hs. exists v. split; [done|].
  destruct (armed v) eqn:Ha; cbn [negb] in Hs; [|by simplify_eq].
  pose proof (armed_counted _ _ _ Hi Hv Ha). pose proof (enabled_range s Hi). unfold sub32 in Hs.
  cbn [set_node set_nodes record_event enabled] in Hs.
  rewrite checked32_ok in Hs by (unfold u32_range; lia). cbn [obind] in Hs. by injection Hs as _ <-.
Qed.

Lemma disarm_cases i s e s' : inv s -> disarm i s = Ret (e, s') ->
  exists v, nodes s !! i = Some v /\
    if armed v then hw_only (disarmed i v s) s' else s' = record_event (Disarm i) s.
Proof using.
  intros Hi Hs. destruct (disarm_result _ _ _ _ Hi Hs) as (v & Hv & Hc). exists v. split; [done|].
  destruct (armed v); [|done]. subst s'.
  destruct (enabled s - 1 =? 0); [exact (hw_only_disarm (disarmed i v s))|exact (hw_only_refl (disarmed i v s))].
Qed.

Lemma inv_disarmed i v s : inv s -> nodes s !! i = Some v -> armed v = true -> inv (disarmed i v s).
Proof using.
  intros Hi Hv Ha. apply (inv_change s i v); try done.
  - by apply (inv_linked _ Hi i v).
  - rewrite Ha. cbn. lia.
  - intros j Hj. cbn. by rewrite decide_False.
  - apply Hi.
  - intros _. cbn. by rewrite decide_True.
Qed.

Lemma due_idle_event i v s j : inv s -> nodes s !! i = Some v -> armed v = false ->
  due (Disarm i :: trace s) j = due (trace s) j.
Proof using.
  intros Hi Hv Ha. cbn. case_decide as Hj; [|done]. subst j. symmetry. apply Hi. intros w Hw. congruence.
Qed.

Lemma mux_inv_new s : inv s -> Z.of_nat (S (length (nodes s))) < U32 ->
  inv (setup (length (nodes s)) (set_nodes (nodes s ++ [virtual_new]) s)).
Proof using.
  intros [Hn Hr Hs Hc Hl Hst Hi He Hm] Hsmall.
  assert (Hlook : forall j v, (nodes s ++ [virtual_new]) !! j = Some v -> armed v = true -> nodes s !! j = Some v).
  { intros j v Hj Ha. apply lookup_app_Some in Hj as [Hj|[_ Hj] ]; [done|].
    apply list_lookup_singleton_Some in Hj as [_ <-]. done. }
  split; cbn [setup set_virtual_alarms set_nodes virtual_alarms nodes enabled trace alarm]; try done.
  - constructor; [|done]. intros Hin. apply Hr in Hin. lia.
  - intros j Hj. rewrite length_app. cbn. apply elem_of_cons in Hj as [->|Hj]; [lia|]. apply Hr in Hj. lia.
  - rewrite length_app. cbn. lia.
  - rewrite Hc. f_equal. unfold count_armed, armed_refs. cbn.
    rewrite lookup_app_r, Nat.sub_diag by lia. cbn. f_equal.
    apply list_omap_ext, Forall_Forall2_diag, Forall_forall. intros j Hj. apply Hr in Hj.
    by rewrite lookup_app_l by done.
  - intros j v Hj Ha. right. by apply (Hl j v); [apply Hlook|].
  - intros j v Hj Ha. by apply (Hst j v); [apply Hlook|].
  - intros j Hj. apply Hi. intros v Hv. apply Hj. by apply lookup_app_l_Some.
Qed.

Lemma set_client_same i c s s' : inv s -> set_alarm_client i c s = Ret s' ->
  exists v, nodes s !! i = Some v /\ s' = set_node i (mkNode (dt_reference v) (armed v) (Some c)) s.
Proof using.
  intros Hi Hs. unfold set_alarm_client, index in Hs. destruct (nodes s !! i) as [v|]; [|done].
  cbn in Hs. exists v. by simplify_eq.
Qed.

Lemma inv_client_step s s' : inv s -> client_step s s' -> inv s'.
Proof using HMIN.
  intros Hi Hs. destruct Hs as [i r d s' Hin Hd Ha Hs|i e s' Hs|i c s' Hs|Hl|e| |h Ht _ _ Hm].
  - destruct (set_alarm_hw_only _ _ _ _ _ Hi Hin Hs) as (v & Hv & Hh).
    eapply inv_hw_only; [by apply inv_requested|exact Hh].
  - destruct (disarm_cases _ _ _ _ Hi Hs) as (v & Hv & Hc). destruct (armed v) eqn:Ha.
    + eapply inv_hw_only; [by apply inv_disarmed|exact Hc].
    + subst s'. apply inv_same; try done; [by eauto|intros j; by eapply due_idle_event|apply Hi].
  - destruct (set_client_same _ _ _ _ Hi Hs) as (v & Hv & ->). apply inv_same; try done.
    + by rewrite length_insert.
    + intros j w Hw. destruct (decide (j = i)) as [->|Hj].
      * rewrite list_lookup_insert_eq in Hw by (by eapply lookup_lt_Some). simplify_eq. by exists v.
      * rewrite list_lookup_insert_ne in Hw by done. by exists w.
    + apply Hi.
  - by apply mux_inv_new.
  - by eapply inv_frame.
  - eapply inv_hw_only; [done|apply hw_only_read_now].
  - by eapply inv_frame.
Qed.

Lemma client_step_clock s s' : inv s -> client_step s s' -> clock s <= clock s' /\ firing s' = firing s.
Proof using HMIN.
  intros Hi Hs. destruct Hs as [i r d s' Hin Hd Ha Hs|i e s' Hs|i c s' Hs|Hl|e| |h Ht _ _ Hm].
  - destruct (set_alarm_hw_only _ _ _ _ _ Hi Hin Hs) as (v & Hv & Hh). destruct Hh as [_ _ _ Hf _ Ht _]. done.
  - destruct (disarm_cases _ _ _ _ Hi Hs) as (v & Hv & Hc). destruct (armed v).
    + destruct Hc as [_ _ _ Hf _ Ht _]. done.
    + by subst s'.
  - by destruct (set_client_same _ _ _ _ Hi Hs) as (v & Hv & ->).
  - done.
  - done.
  - destruct (hw_only_read_now s) as [_ _ _ Hf _ Ht _]. done.
  - done.
Qed.

Lemma client_steps_inv s s' : inv s -> rtc client_step s s' ->
  inv s' /\ clock s <= clock s' /\ firing s' = firing s.
Proof using HMIN.
  intros Hi Hs. induction Hs as [s|s s1 s' H1 _ IH]; [by split; [|split]|].
  destruct (client_step_clock _ _ Hi H1). destruct IH as (Hi' & ? & ?); [by eapply inv_client_step|].
  split; [done|]. split; [lia|congruence].
Qed.

(** ** The interrupt *)

Lemma read_now_spec s x s1 : read_now s = (x, s1) -> hw_only s s1 /\ val x = clock s1 mod M.
Proof using.
  intros Hn. pose proof (hw_only_read_now s) as Ho. rewrite Hn in Ho. split; [done|].
  unfold read_now in Hn. destruct (now (alarm s)) as [y h] eqn:En. injection Hn as <- <-. cbn.
  by destruct (now_spec _ _ _ En) as (_ & ? & _).
Qed.

Definition fired (i : nat) v s : Mux :=
  mkMux (virtual_alarms s) (<[i := mkNode (dt_reference v) false (client v)]> (nodes s))
    (enabled s - 1) (alarm s) (firing s) (next_tick_vals s) (env s) (Fired i (alarm s) :: trace s).
Definition continued (i : nat) v s : Mux :=
  set_node i (mkNode (mkRef (reference_plus_dt (dt_reference v)) half_max_value false)
                (armed v) (client v)) s.

Lemma fire_node_cases i v s : inv s -> nodes s !! i = Some v -> armed v = true ->
  fire_node callback i v s
  = if extended (dt_reference v) then Ret (continued i v s)
    else match client v with Some c => callback c (fired i v s) | None => Ret (fired i v s) end.
Proof using.
  intros Hi Hv Ha. unfold fire_node. destruct (extended (dt_reference v)); [done|].
  pose proof (armed_counted _ _ _ Hi Hv Ha). pose proof (enabled_range s Hi).
  cbn [set_node set_nodes enabled]. unfold sub32. rewrite checked32_ok by (unfold u32_range; lia).
  cbn [obind]. unfold node_alarm. cbn [record_event set_enabled set_node set_nodes nodes]. unfold index.
  rewrite list_lookup_insert_eq by (by eapply lookup_lt_Some). done.
Qed.

(** The alarm of node [i] has left its window. *)
Definition expired (x : T) v : Prop :=
  within_range x (reference (dt_reference v)) (reference_plus_dt (dt_reference v)) = false.

Lemma inv_fired i v s x : inv s -> nodes s !! i = Some v -> armed v = true ->
  val x = clock s mod M -> expired x v -> extended (dt_reference v) = false -> inv (fired i v s).
Proof using HMIN.
  intros Hi Hv Ha Hx He Hext. destruct (inv_staged _ Hi i v Hv Ha) as (dl & mk & Hd & Hst).
  pose proof (left_window _ _ _ _ _ _ Hst (Z.le_refl _) Hx He) as Hl.
  unfold extension in Hl. rewrite Hext in Hl.
  apply (inv_change s i v); try done.
  - by apply (inv_linked _ Hi i v).
  - rewrite Ha. cbn. lia.
  - intros j Hj. cbn. by rewrite decide_False.
  - split; [|apply Hi]. exists dl, mk. split; [done|]. unfold clock in Hl. lia.
  - intros _. cbn. by rewrite decide_True.
Qed.

Lemma inv_continued i v s x : inv s -> nodes s !! i = Some v -> armed v = true ->
  val x = clock s mod M -> expired x v -> extended (dt_reference v) = true -> inv (continued i v s).
Proof using HMIN.
  intros Hi Hv Ha Hx He Hext. destruct (inv_staged _ Hi i v Hv Ha) as (dl & mk & Hd & Hst).
  apply (inv_change s i v); try done; cbn [armed dt_reference].
  - by apply (inv_linked _ Hi i v).
  - lia.
  - apply Hi.
  - congruence.
  - intros _. exists dl, mk. split; [done|]. by eapply extended_staged.
Qed.

(** One turn of the loop: from [s1], the state after the clock was read. *)
Lemma fire_node_inv i v s1 x s' : callback_ok -> inv s1 -> nodes s1 !! i = Some v -> armed v = true ->
  val x = clock s1 mod M -> expired x v -> fire_node callback i v s1 = Ret s' ->
  inv s' /\ clock s1 <= clock s' /\ firing s' = firing s1.
Proof using HMIN.
  intros Hcb Hi Hv Ha Hx He Hf. rewrite fire_node_cases in Hf by done.
  destruct (extended (dt_reference v)) eqn:Hext.
  - simplify_eq. split; [by eapply inv_continued|done].
  - assert (Hi2 : inv (fired i v s1)) by (by eapply inv_fired).
    destruct (client v) as [c|]; [|by simplify_eq].
    by apply (client_steps_inv (fired i v s1)), (Hcb c).
Qed.

(** A turn, as an equation. *)
Lemma fire_loop_cons i is_ s s' : fire_loop callback (i :: is_) s = Ret s' ->
  exists v x s1 s2, nodes s !! i = Some v /\ read_now s = (x, s1) /\
    fire_loop callback is_ s2 = Ret s' /\
    (s2 = s1 /\ (armed v = true -> within_range x (reference (dt_reference v))
                                   (reference_plus_dt (dt_reference v)) = true) \/
     armed v = true /\ expired x v /\ fire_node callback i v s1 = Ret s2).
Proof using.
  intros Hl. cbn [fire_loop] in Hl. apply obind_Ret in Hl as (v & Hv & Hl).
  unfold index in Hv. apply of_option_Ret in Hv. destruct (read_now s) as [x s1] eqn:Hn.
  apply obind_Ret in Hl as (s2 & H2 & Hl). exists v, x, s1, s2. do 3 (split; [done|]).
  destruct (armed v) eqn:Ha; cbn [andb] in H2; [|left; by simplify_eq].
  destruct (within_range x _ _) eqn:Hw; cbn [negb] in H2; [left; by simplify_eq|by right].
Qed.

Lemma fire_loop_inv is_ s s' : callback_ok -> inv s -> fire_loop callback is_ s = Ret s' ->
  inv s' /\ clock s <= clock s' /\ firing s' = firing s.
Proof using HMIN.
  intros Hcb. revert s. induction is_ as [|i is_ IH]; intros s Hi Hl.
  { cbn in Hl. simplify_eq. done. }
  destruct (fire_loop_cons _ _ _ _ Hl) as (v & x & s1 & s2 & Hv & Hn & Hrest & Hcase).
  destruct (read_now_spec _ _ _ Hn) as [Ho Hx]. pose proof (inv_hw_only _ _ Hi Ho) as Hi1.
  assert (H2 : inv s2 /\ clock s1 <= clock s2 /\ firing s2 = firing s1).
  { destruct Hcase as [ [-> _]|(Ha & He & Hf)]; [done|].
    eapply fire_node_inv; try done. by rewrite (ho_nodes _ _ Ho). }
  destruct H2 as (Hi2 & Ht2 & Hf2). destruct (IH s2 Hi2 Hrest) as (Hi' & Ht' & Hf').
  destruct Ho as [_ _ _ Hfo _ Hto _]. split; [done|]. split; [lia|congruence].
Qed.

Lemma inv_mux_alarm s s' : callback_ok -> inv s -> mux_alarm callback s = Ret s' -> inv s'.
Proof using HMIN.
  intros Hcb Hi Hm. unfold mux_alarm in Hm. apply obind_Ret in Hm as (s1 & Hl & Hm).
  injection Hm as <-. eapply inv_hw_only; [|apply hw_only_set_next].
  apply (inv_frame s1); try done. by eapply fire_loop_inv; [done| |exact Hl]; eapply inv_frame.
Qed.

Lemma mux_inv_step s s' : callback_ok -> inv s -> step s s' -> inv s'.
Proof using HMIN. intros Hcb Hi [s1 Hs|s1 Hs]; [by eapply inv_client_step|by eapply inv_mux_alarm]. Qed.

Lemma mux_inv_initial h e : val (minimum_dt h) = MIN -> inv (mux_new h e).
Proof using. intros Hm. split; try done; [constructor|intros i Hi; by apply elem_of_nil in Hi]. Qed.

(** The interrupt handler does not panic. *)
Lemma client_step_length s s' : inv s -> client_step s s' -> (length (nodes s) <= length (nodes s'))%nat.
Proof using.
  intros Hi Hs. destruct Hs as [i r d s' Hin Hd Ha Hs|i e s' Hs|i c s' Hs|Hl|e| |h Ht _ _ Hm]; try done.
  - destruct (set_alarm_hw_only _ _ _ _ _ Hi Hin Hs) as (v & _ & [_ -> _ _ _ _ _]). cbn. by rewrite length_insert.
  - destruct (disarm_cases _ _ _ _ Hi Hs) as (v & Hv & Hc). destruct (armed v).
    + destruct Hc as [_ -> _ _ _ _ _]. cbn. by rewrite length_insert.
    + by subst s'.
  - destruct (set_client_same _ _ _ _ Hi Hs) as (v & Hv & ->). cbn. by rewrite length_insert.
  - cbn. rewrite length_app. lia.
  - by rewrite (ho_nodes _ _ (hw_only_read_now s)).
Qed.
Lemma client_steps_length s s' : inv s -> rtc client_step s s' -> (length (nodes s) <= length (nodes s'))%nat.
Proof using HMIN.
  intros Hi Hs. induction Hs as [|s s1 s' H1 _ IH]; [done|].
  etransitivity; [by apply client_step_length|]. apply IH. by eapply inv_client_step.
Qed.

Lemma fire_node_returns i v s1 x : callback_ok -> (forall c s, returns (callback c s)) ->
  inv s1 -> nodes s1 !! i = Some v -> armed v = true -> val x = clock s1 mod M -> expired x v ->
  exists s2, fire_node callback i v s1 = Ret s2 /\ inv s2 /\ (length (nodes s1) <= length (nodes s2))%nat.
Proof using HMIN.
  intros Hcb Htot Hi Hv Ha Hx He.
  assert (Hr : exists s2, fire_node callback i v s1 = Ret s2 /\ (length (nodes s1) <= length (nodes s2))%nat).
  { rewrite fire_node_cases by done. destruct (extended (dt_reference v)) eqn:Hext.
    - eexists. split; [done|]. cbn. by rewrite length_insert.
    - assert (Hl : length (nodes (fired i v s1)) = length (nodes s1)) by (cbn; apply length_insert).
      destruct (client v) as [c|]; [|eexists; split; [done|lia] ].
      destruct (Htot c (fired i v s1)) as [s2 H2]. exists s2. split; [done|]. rewrite <- Hl.
      apply client_steps_length; [by eapply inv_fired|by apply (Hcb c)]. }
  destruct Hr as (s2 & H2 & Hl). exists s2. split; [done|]. split; [|done]. by eapply fire_node_inv.
Qed.

Lemma fire_loop_returns is_ s : callback_ok -> (forall c s, returns (callback c s)) -> inv s ->
  (forall i, i ∈ is_ -> (i < length (nodes s))%nat) -> returns (fire_loop callback is_ s).
Proof using HMIN.
  intros Hcb Htot. revert s. induction is_ as [|i is_ IH]; intros s Hi Hr; [by eexists|].
  destruct (lookup_lt_is_Some_2 (nodes s) i) as [v Hv]; [apply Hr; left|].
  cbn [fire_loop]. unfold index. rewrite Hv. cbn [of_option obind].
  destruct (read_now s) as [x s1] eqn:Hn. destruct (read_now_spec _ _ _ Hn) as [Ho Hx].
  pose proof (inv_hw_only _ _ Hi Ho) as Hi1. pose proof (ho_nodes _ _ Ho) as En.
  assert (Hrest : forall j, j ∈ is_ -> (j < length (nodes s1))%nat).
  { intros j Hj. rewrite En. apply Hr. by right. }
  destruct (armed v) eqn:Ha; cbn [andb]; [|by apply IH].
  destruct (within_range x _ _) eqn:Hw; cbn [negb]; [by apply IH|].
  destruct (fire_node_returns i v s1 x) as (s2 & -> & Hi2 & Hl); try done; [by rewrite En|].
  cbn [obind]. apply IH; [done|]. intros j Hj. apply Hrest in Hj. lia.
Qed.

Lemma mux_alarm_returns s : callback_ok -> (forall c s, returns (callback c s)) -> inv s ->
  returns (mux_alarm callback s).
Proof using HMIN.
  intros Hcb Htot Hi. unfold mux_alarm.
  destruct (fire_loop_returns (virtual_alarms s) (set_firing true s)) as [s1 H1]; try done.
  - by eapply inv_frame.
  - intros i Hin. by apply (inv_range _ Hi).
  - cbn [set_firing virtual_alarms] in *. rewrite H1. by eexists.
Qed.

Lemma never_early_at post i h pre : never_early (post ++ Fired i h :: pre) ->
  exists deadline made, due pre i = Some (deadline, made) /\ deadline <= time h.
Proof using.
  induction post as [|[] post IH]; cbn; [by intros [? _]|exact IH..|]. intros [_ Hn]. by apply IH.
Qed.

Lemma steps_inv s s' : callback_ok -> inv s -> rtc step s s' -> inv s'.
Proof using HMIN. intros Hcb Hi Hs. induction Hs as [|s s1 s' H1 _ IH]; [done|]. apply IH. by eapply mux_inv_step. Qed.

(** * In time

    The hardware calls back at most [LATE] ticks after the alarm it was given, and
    a call of a client or of the interrupt handler takes at most [D] ticks. *)
  Context (D LATE : Z).
Definition K : Z := D + MIN + LATE.
Definition slack : Prop := 0 <= A /\ 0 <= D /\ 0 <= LATE /\ A + 3 * K < half.

Definition on_time s : Prop := forall e, expiry (alarm s) = Some e -> clock s <= e + LATE.

Inductive timely s : Mux -> Prop :=
  | timely_call s' : client_step s s' -> clock s' <= clock s + D -> on_time s' -> timely s s'
  | timely_fire s' : mux_alarm callback s = Ret s' -> clock s' <= clock s + D -> on_time s' -> timely s s'.

(** Alarm [i] is armed, to be looked at again at [p]; the request is of [made]. *)
Definition pend s (i : nat) (p made : Z) : Prop :=
  exists v deadline, nodes s !! i = Some v /\ armed v = true /\
    due (trace s) i = Some (deadline, made) /\ p = deadline - extension (dt_reference v).

(** The hardware alarm was set at [ts] for [nr + nd]. *)
Record hw_due s (nr nd ts : Z) : Prop := mkHwDue {
  hd_next : exists r d : T, next_tick_vals s = Some (r, d) /\ val r mod M = nr mod M /\ val d = nd;
  hd_get : val (hw_get_alarm (alarm s)) mod M = (nr + nd) mod M;
  hd_nd : 0 <= nd <= half + MIN;
  hd_ts : nr <= ts <= clock s;
  hd_age : ts - nr <= half + MIN + A + D;
  hd_expiry : exists e, expiry (alarm s) = Some e /\ e <= Z.max (nr + nd) (ts + MIN);
}.

(** That is soon enough for all armed alarms. *)
Definition covers s (nr nd ts : Z) : Prop :=
  forall i p made, pend s i p made ->
    ts <= Z.max p made + D /\
    (nr + nd <= Z.max p made \/ nr + nd <= clock s /\ nr + nd <= Z.max p made + D).

Definition served s : Prop :=
  enabled s <> 0 -> exists nr nd ts, hw_due s nr nd ts /\ covers s nr nd ts.

Lemma pend_bounds s i p made : inv s -> pend s i p made ->
  exists v, nodes s !! i = Some v /\ armed v = true /\
    val (reference (dt_reference v)) mod M = (p - val (dt (dt_reference v))) mod M /\
    p - val (dt (dt_reference v)) <= clock s /\ made <= clock s /\
    made <= p - val (dt (dt_reference v)) + A /\ 0 <= val (dt (dt_reference v)) <= half + MIN.
Proof using.
  intros Hi (v & dl & Hv & Ha & Hd & ->). destruct (inv_staged _ Hi i v Hv Ha) as (dl' & mk & Hd' & [Hr Hp Hm Hg Ht]).
  rewrite Hd in Hd'. simplify_eq. by exists v.
Qed.

Lemma pend_enabled s i p made : inv s -> pend s i p made -> enabled s <> 0.
Proof using. intros Hi (v & dl & Hv & Ha & _). pose proof (armed_counted _ _ _ Hi Hv Ha). lia. Qed.

Lemma served_late s i p made : slack -> inv s -> served s -> on_time s -> pend s i p made ->
  clock s <= Z.max p made + K.
Proof using HMIN.
  intros (_ & HD & _ & _) Hi Hs Ht Hp. destruct (Hs (pend_enabled _ _ _ _ Hi Hp)) as (nr & nd & ts & [_ _ Hn Hts _ (e & He & Hle)] & Hc).
  destruct (Hc i p made Hp) as [H1 H2]. pose proof (Ht e He). unfold K. lia.
Qed.

Lemma pend_same s s' i p made : nodes s' = nodes s -> trace s' = trace s -> pend s' i p made -> pend s i p made.
Proof using. unfold pend. by intros -> ->. Qed.

(** Steps that leave the hardware alarm alone and add no request. *)
Lemma hw_due_frame s s' nr nd ts :
  hw_due s nr nd ts -> next_tick_vals s' = next_tick_vals s ->
  hw_get_alarm (alarm s') = hw_get_alarm (alarm s) -> expiry (alarm s') = expiry (alarm s) ->
  clock s <= clock s' -> hw_due s' nr nd ts.
Proof using. intros [Hn Hg Hd Ht Ha He] En Eg Ee Hc. split; rewrite ?En, ?Eg, ?Ee; try done. lia. Qed.

Lemma covers_frame s s' nr nd ts : covers s nr nd ts -> clock s <= clock s' ->
  (forall i p made, pend s' i p made -> pend s i p made) -> covers s' nr nd ts.
Proof using. intros Hc Ht Hp i p made H'. destruct (Hc i p made (Hp _ _ _ H')) as [? ?]. lia. Qed.

Lemma served_frame s s' :
  served s -> (enabled s' <> 0 -> enabled s <> 0) -> next_tick_vals s' = next_tick_vals s ->
  hw_get_alarm (alarm s') = hw_get_alarm (alarm s) -> expiry (alarm s') = expiry (alarm s) ->
  clock s <= clock s' -> (forall i p made, pend s' i p made -> pend s i p made) -> served s'.
Proof using.
  intros Hs He En Eg Ex Ht Hp H'. destruct (Hs (He H')) as (nr & nd & ts & Hd & Hc).
  exists nr, nd, ts. split; [by eapply hw_due_frame|by eapply covers_frame].
Qed.

Lemma hw_due_age s nr nd ts : slack -> hw_due s nr nd ts -> on_time s -> clock s + D - nr < M.
Proof using HMIN.
  intros (? & ? & ? & Hsl) [_ _ Hn Hts Ha (e & He & Hle)] Ht. destruct M_half. pose proof (Ht e He).
  unfold K in Hsl. lia.
Qed.

Lemma mux_set_due (r d : T) s nr : slack -> inv s -> val r mod M = nr mod M -> 0 <= val d <= half + MIN ->
  nr <= clock s -> clock (mux_set_alarm r d s) - nr <= half + MIN + A + D ->
  hw_due (mux_set_alarm r d s) nr (val d) (clock (mux_set_alarm r d s)).
Proof using HMIN.
  intros (? & ? & ? & Hsl) Hi Hr Hd Hn Hc. destruct M_half. unfold K in Hsl.
  pose proof (ho_clock _ _ (hw_only_mux_set r d s)) as Ht.
  split; try done; cbn.
  - by exists r, d.
  - unfold M. rewrite set_get. fold M. by rewrite <- Zplus_mod_idemp_l, Hr, Zplus_mod_idemp_l.
  - lia.
  - destruct (set_expiry r d (alarm s)) as (e & He & Hle). exists e. split; [done|].
    rewrite (inv_min _ Hi) in Hle. unfold clock in *. cbn in *.
    replace ((time (hw_set_alarm r d (alarm s)) - val r) mod 2 ^ width)
      with (time (hw_set_alarm r d (alarm s)) - nr) in Hle; [lia|].
    fold M. rewrite <- Zminus_mod_idemp_r, Hr, Zminus_mod_idemp_r. rewrite Z.mod_small; lia.
Qed.

(** ** Calls of clients between interrupts *)

(** The alarms that are armed after [set_alarm]. *)
Lemma pend_requested i (r d : T) v s j p made :
  nodes s !! i = Some v -> pend (requested i r d v s) j p made ->
  j <> i /\ pend s j p made \/
  j = i /\ made = clock s /\
    p = past (clock s) r + val d - extension (split_dt r d (minimum_dt (alarm s))).
Proof using.
  intros Hv (w & dl & Hw & Ha & Hd & ->). cbn in Hw, Hd. destruct (decide (i = j)) as [->|Hj].
  - right. rewrite list_lookup_insert_eq in Hw by (by eapply lookup_lt_Some).
    simplify_eq. done.
  - left. rewrite list_lookup_insert_ne in Hw by done. split; [done|]. by exists w, dl.
Qed.

(** The window that [set_sooner] looks at: the hardware alarm against the new one. *)
Lemma cur_alarm_window s (r d : T) nr nd ts rr :
  slack -> hw_due s nr nd ts -> val r mod M = rr mod M -> rr <= clock s <= rr + A ->
  0 <= val d <= half + MIN ->
  (within_range (hw_get_alarm (alarm s)) r (wrapping_add r d) = true -> nr + nd <= Z.max (rr + val d) (clock s)) /\
  (within_range (hw_get_alarm (alarm s)) r (wrapping_add r d) = false -> rr + val d <= nr + nd \/ nr + nd < clock s).
Proof using HMIN.
  intros (? & ? & ? & Hsl) Hd Hr Hrr Hdt. destruct M_half. unfold K in Hsl.
  rewrite within_spec, val_add. fold M.
  assert (E1 : (val (hw_get_alarm (alarm s)) - val r) mod M = (nr + nd - rr) mod M).
  { by rewrite Zminus_mod, (hd_get _ _ _ _ Hd), Hr, <- Zminus_mod. }
  assert (E2 : ((val r + val d) mod M - val r) mod M = val d).
  { rewrite Zminus_mod_idemp_l. replace (_ - _) with (val d) by lia. apply Z.mod_small. lia. }
  rewrite E1, E2. destruct (hd_nd _ _ _ _ Hd). destruct (hd_ts _ _ _ _ Hd).
  destruct (Z.le_gt_cases rr (nr + nd)) as [Hle|Hgt].
  - rewrite Z.mod_small by lia. rewrite Z.ltb_lt, Z.ltb_ge. lia.
  - split; lia.
Qed.

Lemma next_window s (x r d : T) nr nd ts t :
  hw_due s nr nd ts -> next_tick_vals s = Some (r, d) -> val x = t mod M -> clock s <= t -> t - nr < M ->
  within_range x r (wrapping_add r d) = (t <? nr + nd).
Proof using HMIN.
  intros Hd Hn Hx Ht Hm. destruct (hd_next _ _ _ _ Hd) as (r' & d' & Hn' & Hr & Hnd).
  rewrite Hn in Hn'. simplify_eq. destruct (hd_nd _ _ _ _ Hd). destruct (hd_ts _ _ _ _ Hd). destruct M_half.
  rewrite within_spec, val_add. fold M.
  assert (E1 : (val x - val r') mod M = t - nr).
  { rewrite Hx, Zminus_mod_idemp_l, <- Zminus_mod_idemp_r, Hr, Zminus_mod_idemp_r. apply Z.mod_small. lia. }
  assert (E2 : ((val r' + val d') mod M - val r') mod M = val d').
  { rewrite Zminus_mod_idemp_l. replace (_ - _) with (val d') by lia. apply Z.mod_small. lia. }
  rewrite E1, E2. destruct (Z.ltb_spec t (nr + val d')); [apply Z.ltb_lt|apply Z.ltb_ge]; lia.
Qed.

(** Where the new request is looked at again. *)
Definition new_due (r d : T) s : Z :=
  past (clock s) r + val d - extension (split_dt r d (minimum_dt (alarm s))).

Lemma pend_after i (r d : T) v s s' j p made :
  nodes s !! i = Some v -> hw_only (requested i r d v s) s' -> pend s' j p made ->
  pend s j p made \/ p = new_due r d s /\ made = clock s.
Proof using.
  intros Hv Ho Hp. assert (Hp1 : pend (requested i r d v s) j p made).
  { eapply pend_same; [| |exact Hp]; apply Ho. }
  destruct (pend_requested _ _ _ _ _ _ _ _ Hv Hp1) as [[_ ?]|(_ & ? & ?)]; [by left|by right].
Qed.

(** Keeping the hardware alarm is right when it is due by then. *)
Lemma covers_kept i (r d : T) v s s' nr nd ts :
  slack -> nodes s !! i = Some v -> hw_due s nr nd ts -> covers s nr nd ts ->
  hw_only (requested i r d v s) s' -> clock s' <= clock s + D ->
  nr + nd <= clock s' \/ nr + nd <= Z.max (new_due r d s) (clock s) -> covers s' nr nd ts.
Proof using.
  intros (_ & HD & _) Hv Hdue Hcov Ho Hdur Hle j p made Hj. destruct (hd_ts _ _ _ _ Hdue).
  pose proof (ho_clock _ _ Ho) as Ht. change (clock (requested i r d v s)) with (clock s) in Ht.
  destruct (pend_after _ _ _ _ _ _ _ _ _ Hv Ho Hj) as [Hj'|[-> ->] ].
  - destruct (Hcov j p made Hj') as [? ?]. lia.
  - lia.
Qed.

(** The new request, as parts of [split_staged]. *)
Lemma new_request (r d : T) s : inv s -> in_range d -> (clock s - val r) mod M <= A ->
  let d1 := dt (split_dt r d (minimum_dt (alarm s))) in let rr := new_due r d s - val d1 in
  val r mod M = rr mod M /\ rr <= clock s <= rr + A /\ 0 <= val d1 <= half + MIN.
Proof using HMIN.
  intros Hi Hd Ha. destruct (split_staged r d (clock s) _ Hd (inv_min _ Hi) Ha) as [Hr Hp _ Hg Hdt].
  replace (reference (split_dt r d (minimum_dt (alarm s)))) with r in Hr by (unfold split_dt; by case_match).
  done.
Qed.

Lemma read_now_due s x s1 nr nd ts : hw_due s nr nd ts -> read_now s = (x, s1) ->
  hw_due s1 nr nd ts /\ next_tick_vals s1 = next_tick_vals s.
Proof using.
  intros Hd Hn. unfold read_now in Hn. destruct (now (alarm s)) as [y h] eqn:En. injection Hn as <- <-.
  destruct (now_spec _ _ _ En) as (? & _ & ? & ? & _). split; [|done]. by eapply hw_due_frame.
Qed.

Lemma served_set_sooner i (r d : T) v s s' :
  slack -> inv s -> served s -> on_time s -> enabled s <> 0 -> i ∈ virtual_alarms s ->
  nodes s !! i = Some v -> in_range d -> (clock s - val r) mod M <= A ->
  s' = set_sooner r (dt (split_dt r d (minimum_dt (alarm s)))) (requested i r d v s) ->
  clock s' <= clock s + D -> served s'.
Proof using HMIN.
  intros Hsl Hi Hsv Hot Hen Hin Hv Hd Ha -> Hdur _.
  destruct (Hsv Hen) as (nr & nd & ts & Hdue & Hcov).
  destruct (new_request r d s Hi Hd Ha) as (Hr & Hrr & Hdt).
  set (d1 := dt (split_dt r d (minimum_dt (alarm s)))) in *. set (s1 := requested i r d v s) in *.
  pose proof (hw_due_age _ _ _ _ Hsl Hdue Hot) as Hage.
  destruct (cur_alarm_window s r d1 nr nd ts _ Hsl Hdue Hr Hrr Hdt) as [Hwin Hwout].
  unfold set_sooner in Hdur |- *. destruct (read_now s1) as [x s2] eqn:Hn.
  destruct (read_now_spec _ _ _ Hn) as [Ho Hx].
  destruct (read_now_due s1 x s2 nr nd ts) as [Hdue2 En2]; [by eapply hw_due_frame|done|].
  pose proof (ho_clock _ _ Ho) as Ht2. change (clock s1) with (clock s) in Ht2.
  change (hw_get_alarm (alarm s1)) with (hw_get_alarm (alarm s)) in Hdur |- *.
  destruct (within_range (hw_get_alarm (alarm s)) r (wrapping_add r d1)) eqn:Hw; cbn [negb] in Hdur |- *.
  { exists nr, nd, ts. split; [done|]. apply (covers_kept i r d v s); try done. right.
    specialize (Hwin eq_refl). lia. }
  destruct (hd_next _ _ _ _ Hdue2) as (r0 & d0 & Hn0 & _ & _). rewrite Hn0 in Hdur |- *.
  pose proof (ho_clock _ _ (hw_only_mux_set r d1 s2)) as Ht3.
  assert (Hclk2 : clock s2 <= clock s + D) by (destruct (within_range x r0 _); lia).
  rewrite (next_window s2 x r0 d0 nr nd ts (clock s2) Hdue2 Hn0 Hx (Z.le_refl _) ltac:(lia)) in Hdur |- *.
  destruct (Z.ltb_spec (clock s2) (nr + nd)) as [Hlt|Hge].
  2: { exists nr, nd, ts. split; [done|]. apply (covers_kept i r d v s); try done. by left. }
  assert (Hi2 : inv s2) by (eapply inv_hw_only; [by apply inv_requested|exact Ho]).
  eexists _, _, _. split.
  - assert (Hk := Hsl). destruct Hk as (? & ? & ? & Hk). unfold K in Hk. destruct M_half.
    apply mux_set_due; [done|done|exact Hr|done|lia|lia].
  - intros j p made Hj. pose proof (hw_only_trans _ _ _ Ho (hw_only_mux_set r d1 s2)) as Ho3.
    destruct (pend_after _ _ _ _ _ _ _ _ _ Hv Ho3 Hj) as [Hj'|[-> ->] ]; [|lia].
    destruct (Hcov j p made Hj') as [? ?]. destruct (Hwout eq_refl); lia.
Qed.

Lemma served_set i (r d : T) s s' :
  slack -> inv s -> served s -> on_time s -> firing s = false -> i ∈ virtual_alarms s ->
  in_range d -> (clock s - val r) mod M <= A -> set_alarm i r d s = Ret s' ->
  clock s' <= clock s + D -> served s'.
Proof using HMIN.
  intros Hsl Hi Hsv Hot Hf Hin Hd Ha Hs Hdur.
  destruct (set_alarm_requested _ _ _ _ _ Hi Hin Hs) as (v & Hv & Es). cbn zeta in Es. rewrite Hf in Es.
  destruct (Z.eqb_spec (enabled s) 0) as [He|He]; [|by eapply served_set_sooner].
  intros _. destruct (new_request r d s Hi Hd Ha) as (Hr & Hrr & Hdt). subst s'.
  set (d1 := dt (split_dt r d (minimum_dt (alarm s)))) in *.
  eexists _, _, _. split.
  - assert (Hk := Hsl). destruct Hk as (? & ? & ? & Hk). unfold K in Hk. destruct M_half.
    apply mux_set_due; [done|by apply inv_requested|exact Hr|done|apply Hrr|lia].
  - intros j p made Hj. destruct (pend_after _ _ _ _ _ _ _ _ _ Hv (hw_only_mux_set r d1 _) Hj) as [Hj'|[-> ->] ].
    + by apply (pend_enabled _ _ _ _ Hi) in Hj'.
    + lia.
Qed.

(** Alarms that are armed after a call were armed before, or are new. *)
Lemma pend_disarm i e s s' j p made : inv s -> disarm i s = Ret (e, s') -> pend s' j p made -> pend s j p made.
Proof using.
  intros Hi Hs (w & dl & Hw & Haw & Hd & ->). destruct (disarm_cases _ _ _ _ Hi Hs) as (v & Hv & Hc).
  assert (Hw' : nodes s !! j = Some w /\ due (trace s) j = Some (dl, made)); [|destruct Hw'; by exists w, dl].
  destruct (armed v) eqn:Ha.
  - rewrite (ho_nodes _ _ Hc) in Hw. rewrite (ho_trace _ _ Hc) in Hd. cbn in Hw, Hd.
    destruct (decide (i = j)) as [->|Hj]; [done|]. by rewrite list_lookup_insert_ne in Hw.
  - subst s'. cbn in Hw, Hd. by destruct (decide (i = j)).
Qed.
Lemma pend_client i c v s j p made : nodes s !! i = Some v ->
  pend (set_node i (mkNode (dt_reference v) (armed v) (Some c)) s) j p made -> pend s j p made.
Proof using.
  intros Hv (w & dl & Hw & Haw & Hd & ->). cbn in Hw, Hd. destruct (decide (i = j)) as [->|Hj].
  - rewrite list_lookup_insert_eq in Hw by (by eapply lookup_lt_Some). simplify_eq. by exists v, dl.
  - rewrite list_lookup_insert_ne in Hw by done. by exists w, dl.
Qed.
Lemma pend_new s j p made :
  pend (setup (length (nodes s)) (set_nodes (nodes s ++ [virtual_new]) s)) j p made -> pend s j p made.
Proof using.
  intros (w & dl & Hw & Haw & Hd & ->). cbn in Hw, Hd.
  apply lookup_app_Some in Hw as [Hw|[_ Hw] ]; [by exists w, dl|].
  apply list_lookup_singleton_Some in Hw as [_ <-]. done.
Qed.

Lemma client_step_pend s s' i p made : inv s -> client_step s s' -> pend s' i p made ->
  pend s i p made \/ made = clock s.
Proof using.
  intros Hi Hs Hp. destruct Hs as [j r d s' Hin Hd Ha Hs|j e s' Hs|j c s' Hs|Hl|e| |h Ht _ _ Hm].
  - destruct (set_alarm_hw_only _ _ _ _ _ Hi Hin Hs) as (v & Hv & Ho).
    destruct (pend_after _ _ _ _ _ _ _ _ _ Hv Ho Hp) as [?|[_ ?] ]; [by left|by right].
  - left. by eapply pend_disarm.
  - left. destruct (set_client_same _ _ _ _ Hi Hs) as (v & Hv & ->). by eapply pend_client.
  - left. by apply pend_new.
  - by left.
  - left. eapply pend_same; [| |exact Hp]; apply (hw_only_read_now s).
  - by left.
Qed.

Lemma served_client_step s s' : slack -> inv s -> served s -> on_time s -> firing s = false ->
  client_step s s' -> clock s' <= clock s + D -> served s'.
Proof using HMIN.
  intros Hsl Hi Hsv Hot Hf Hs Hdur. destruct (client_step_clock _ _ Hi Hs) as [Hclk _].
  destruct Hs as [i r d s' Hin Hd Ha Hs|i e s' Hs|i c s' Hs|Hl|e| |h Ht He Hg Hm];
    [by eapply served_set| | | | | |].
  - destruct (disarm_result _ _ _ _ Hi Hs) as (v & Hv & Hc).
    assert (Hpend : forall j p made, pend s' j p made -> pend s j p made).
    { intros j p made Hj. by eapply pend_disarm. }
    destruct (armed v) eqn:Ha; [|by subst s'; eapply served_frame].
    pose proof (armed_counted _ _ _ Hi Hv Ha).
    destruct (Z.eqb_spec (enabled s - 1) 0); subst s'; [by intros []|eapply served_frame; try done; lia].
  - destruct (set_client_same _ _ _ _ Hi Hs) as (v & Hv & ->). eapply served_frame; try done.
    intros j p made Hj. by eapply pend_client.
  - eapply served_frame; try done. intros j p made Hj. by apply pend_new.
  - by eapply served_frame.
  - unfold read_now in *. destruct (now (alarm s)) as [x h] eqn:En. cbn in *.
    destruct (now_spec _ _ _ En) as (? & _ & ? & ? & _). by eapply served_frame.
  - by eapply served_frame.
Qed.

(** ** The interrupt handler *)

(** From the start of the handler at [t0] on, with the alarms [rem] still to look
    at. *)
Record looking (t0 : Z) (rem : list nat) s : Prop := mkLooking {
  lk_inv : inv s;
  lk_time : t0 <= clock s;
  lk_late i p made : pend s i p made -> t0 <= Z.max p made + K;
  lk_done i p made : pend s i p made -> i ∉ rem -> t0 <= Z.max p made;
}.

Lemma looking_hw_only t0 rem s s' : looking t0 rem s -> hw_only s s' -> looking t0 rem s'.
Proof using.
  intros [Hi Ht Hl Hd] Ho. pose proof (ho_clock _ _ Ho).
  assert (Hp : forall i p made, pend s' i p made -> pend s i p made).
  { intros i p made. apply pend_same; apply Ho. }
  split; [by eapply inv_hw_only|lia|eauto..].
Qed.

Lemma looking_client_steps t0 rem s s' : slack -> looking t0 rem s -> rtc client_step s s' -> looking t0 rem s'.
Proof using HMIN.
  intros Hsl Hk Hs. induction Hs as [|s s1 s' H1 _ IH]; [done|]. apply IH.
  destruct Hsl as (_ & HD & HL & _). destruct Hk as [Hi Ht Hl Hd]. destruct (client_step_clock _ _ Hi H1).
  split; [by eapply inv_client_step|lia|..]; intros i p made Hp;
    destruct (client_step_pend _ _ _ _ _ Hi H1 Hp) as [Hp'| ->]; unfold K; try lia.
  - by apply (Hl i).
  - by apply (Hd i).
Qed.

Lemma pend_change s s' i p made : pend s' i p made ->
  nodes s' !! i = nodes s !! i -> due (trace s') i = due (trace s) i -> pend s i p made.
Proof using. intros (v & dl & Hv & Ha & Hd & ->) En Ed. exists v, dl. by rewrite <- En, <- Ed. Qed.

Lemma looking_fired t0 rem i v s x : looking t0 (i :: rem) s -> nodes s !! i = Some v -> armed v = true ->
  val x = clock s mod M -> expired x v -> extended (dt_reference v) = false ->
  looking t0 rem (fired i v s).
Proof using HMIN.
  intros [Hi Ht Hl Hd] Hv Ha Hx He Hext.
  assert (Hp : forall j p made, pend (fired i v s) j p made -> j <> i /\ pend s j p made).
  { intros j p made Hj. destruct (decide (j = i)) as [->|Hji].
    - destruct Hj as (w & dl & _ & _ & Hdj & _). cbn in Hdj. by rewrite decide_True in Hdj.
    - split; [done|]. eapply pend_change; [exact Hj| |]; cbn;
        [by rewrite list_lookup_insert_ne|by rewrite decide_False]. }
  split; [by eapply inv_fired|done|..]; intros j p made Hj; destruct (Hp _ _ _ Hj) as [Hji Hj'].
  - by apply (Hl j).
  - intros Hr. apply (Hd j); [done|]. by apply not_elem_of_cons.
Qed.

Lemma looking_continued t0 rem i v s x : slack -> looking t0 (i :: rem) s -> nodes s !! i = Some v ->
  armed v = true -> val x = clock s mod M -> expired x v -> extended (dt_reference v) = true ->
  looking t0 rem (continued i v s).
Proof using HMIN.
  intros Hsl [Hi Ht Hl Hd] Hv Ha Hx He Hext.
  assert (Hp : forall j p made, pend (continued i v s) j p made ->
            j <> i /\ pend s j p made \/ pend s i (p - half) made /\ j = i).
  { intros j p made (w & dl & Hw & Haw & Hdj & ->). cbn in Hw, Hdj. destruct (decide (j = i)) as [->|Hji].
    - right. rewrite list_lookup_insert_eq in Hw by (by eapply lookup_lt_Some). simplify_eq. split; [|done].
      exists v, dl. split_and!; try done. unfold extension. rewrite Hext. cbn. lia.
    - left. rewrite list_lookup_insert_ne in Hw by done. split; [done|]. by exists w, dl. }
  assert (Hnew : forall p made, pend s i (p - half) made -> t0 <= Z.max p made).
  { intros p made Hj. destruct (pend_bounds _ _ _ _ Hi Hj) as (w & _ & _ & _ & _ & _ & Hm & Hdt).
    pose proof (Hl _ _ _ Hj). destruct Hsl as (? & ? & ? & Hk). unfold K in *. lia. }
  destruct Hsl as (? & ? & ? & Hk).
  split; [by eapply inv_continued|done|..]; intros j p made Hj;
    destruct (Hp _ _ _ Hj) as [[Hji Hj']|[Hj' ->] ].
  - by apply (Hl j).
  - apply Hnew in Hj'. unfold K. lia.
  - intros Hr. apply (Hd j); [done|]. by apply not_elem_of_cons.
  - intros _. by apply Hnew.
Qed.

(** An alarm that stays armed is not due. *)
Lemma looking_kept t0 rem i v s x : slack -> looking t0 (i :: rem) s -> clock s <= t0 + D ->
  nodes s !! i = Some v -> val x = clock s mod M ->
  (armed v = true -> within_range x (reference (dt_reference v)) (reference_plus_dt (dt_reference v)) = true) ->
  looking t0 rem s.
Proof using HMIN.
  intros Hsl [Hi Ht Hl Hd] Hdur Hv Hx Hw. split; try done.
  intros j p made Hj Hr. destruct (decide (j = i)) as [->|Hji].
  2: { apply (Hd j); [done|]. by apply not_elem_of_cons. }
  destruct (pend_bounds _ _ _ _ Hi Hj) as (w & Hw' & Ha & _ & Hb). simplify_eq.
  pose proof (Hl _ _ _ Hj) as Hlate. destruct (inv_staged _ Hi i v Hv Ha) as (dl & mk & Hdue & Hst).
  destruct Hj as (w' & dl' & Hv' & _ & Hdue' & ->). simplify_eq.
  destruct Hsl as (? & ? & ? & Hk). unfold K in *. destruct M_half.
  specialize (Hw Ha). rewrite (window_exact _ _ _ _ _ _ Hst (Z.le_refl _) Hx) in Hw by lia.
  apply Z.ltb_lt in Hw. lia.
Qed.

Lemma looking_loop t0 rem s s' : slack -> callback_ok -> looking t0 rem s ->
  fire_loop callback rem s = Ret s' -> clock s' <= t0 + D -> looking t0 [] s'.
Proof using HMIN.
  intros Hsl Hcb. revert s. induction rem as [|i rem IH]; intros s Hk Hl Hdur.
  { cbn in Hl. by simplify_eq. }
  destruct (fire_loop_cons _ _ _ _ Hl) as (v & x & s1 & s2 & Hv & Hn & Hrest & Hcase).
  destruct (read_now_spec _ _ _ Hn) as [Ho Hx]. pose proof (looking_hw_only _ _ _ _ Hk Ho) as Hk1.
  rewrite <- (ho_nodes _ _ Ho) in Hv. apply (IH s2); [|done|done].
  destruct Hcase as [[-> Hw]|(Ha & He & Hf)].
  - eapply looking_kept; try done. pose proof (fire_loop_inv _ _ _ Hcb (lk_inv _ _ _ Hk1) Hrest). lia.
  - rewrite fire_node_cases in Hf by (done || apply Hk1). destruct (extended (dt_reference v)) eqn:Hext.
    + simplify_eq. by eapply looking_continued.
    + assert (looking t0 rem (fired i v s1)) by (by eapply looking_fired).
      destruct (client v) as [c|]; [|by simplify_eq]. eapply looking_client_steps; [done..|by apply (Hcb c)].
Qed.

(** ** The next hardware alarm *)

Lemma soonest_spec x rs : match soonest x rs with
  | Some r => r ∈ rs /\ forall r', r' ∈ rs -> val (time_left x r) <= val (time_left x r')
  | None => rs = []
  end.
Proof using.
  induction rs as [|r rs IH]; cbn; [done|]. destruct (soonest x rs) as [r'|].
  - destruct IH as [Hin Hmin]. rewrite lt_spec. destruct (Z.ltb_spec (val (time_left x r')) (val (time_left x r))).
    + split; [by right|]. intros q Hq. apply elem_of_cons in Hq as [->|Hq]; [lia|by apply Hmin].
    + split; [left|]. intros q Hq. apply elem_of_cons in Hq as [->|Hq]; [lia|].
      etransitivity; [|by apply Hmin]. done.
  - subst rs. split; [left|]. intros q Hq. apply elem_of_cons in Hq as [->|Hq]; [lia|by apply elem_of_nil in Hq].
Qed.

Lemma time_left_spec s i v p made x : inv s -> pend s i p made -> nodes s !! i = Some v ->
  val x = clock s mod M -> clock s - (p - val (dt (dt_reference v))) < M ->
  val (time_left x (dt_reference v)) = Z.max 0 (p - clock s).
Proof using HMIN.
  intros Hi Hp Hv Hx Hm. destruct Hp as (v' & dl & Hv' & Ha & Hdue & ->). simplify_eq.
  destruct (inv_staged _ Hi i v' Hv' Ha) as (dl' & mk & Hdue' & Hst). simplify_eq.
  unfold time_left. rewrite (window_exact _ _ _ _ _ _ Hst (Z.le_refl _) Hx Hm).
  destruct Hst as [Hr Hp _ _ Hd]. destruct M_half.
  destruct (Z.ltb_spec (clock s) (dl - extension (dt_reference v'))); cbn [negb].
  - rewrite val_sub. unfold reference_plus_dt. rewrite val_add, Hx. fold M.
    rewrite <- Zminus_mod, Zminus_mod, <- Zplus_mod_idemp_l, Hr, Zplus_mod_idemp_l, <- Zminus_mod.
    rewrite Z.mod_small; lia.
  - rewrite val_from_u32; [lia|unfold u32_range, U32; lia|fold M; lia].
Qed.

Lemma armed_refs_pend s r : inv s -> r ∈ armed_refs s <->
  exists i v p made, pend s i p made /\ nodes s !! i = Some v /\ dt_reference v = r.
Proof using.
  intros Hi. rewrite armed_refs_omap, list_elem_of_omap. split.
  - intros (i & Hin & Hat). unfold armed_at in Hat. destruct (nodes s !! i) as [v|] eqn:Hv; [|done].
    cbn in Hat. destruct (armed v) eqn:Ha; [|done]. simplify_eq.
    destruct (inv_staged _ Hi i v Hv Ha) as (dl & mk & Hd & _). by eexists i, v, _, mk; split; [exists v, dl|].
  - intros (i & v & p & made & (v' & dl & Hv' & Ha & _) & Hv & <-). simplify_eq. exists i.
    split; [by apply (inv_linked _ Hi i v')|]. unfold armed_at. by rewrite Hv'; cbn; rewrite Ha.
Qed.

Lemma served_next t0 s : slack -> looking t0 [] s -> clock (set_next_alarm s) <= t0 + D ->
  served (set_next_alarm s).
Proof using HMIN.
  intros Hsl Hk Hdur Hen. unfold set_next_alarm in Hdur, Hen |- *. destruct (read_now s) as [x s1] eqn:Hn.
  destruct (read_now_spec _ _ _ Hn) as [Ho Hx]. destruct (looking_hw_only _ _ _ _ Hk Ho) as [Hi Ht _ Hd].
  assert (Hfresh : forall i p made, pend s1 i p made -> t0 <= Z.max p made).
  { intros i p made Hp. apply (Hd i); [done|]. apply not_elem_of_nil. }
  pose proof (soonest_spec x (armed_refs s1)) as Hso. destruct (soonest x (armed_refs s1)) as [r|].
  2: { destruct Hen. cbn. rewrite (inv_count _ Hi). unfold count_armed. by rewrite Hso. }
  destruct Hso as [Hin Hmin]. apply (armed_refs_pend s1 r Hi) in Hin as (j & v & p & made & Hp & Hv & <-).
  pose proof (ho_clock _ _ (hw_only_mux_set (reference (dt_reference v)) (dt (dt_reference v)) s1)) as Ht2.
  destruct (pend_bounds _ _ _ _ Hi Hp) as (v' & Hv' & _ & Hr & Hpast & Hmade & Hage & Hdt). simplify_eq.
  assert (Hk' := Hsl). destruct Hk' as (? & ? & ? & Hk'). unfold K in Hk'. destruct M_half.
  pose proof (Hfresh _ _ _ Hp) as Hf.
  eexists _, _, _. split; [apply mux_set_due; [done|done|exact Hr|done|done|lia]|].
  intros i q mq Hq. pose proof (Hfresh i q mq Hq) as Hfq.
  destruct (pend_bounds _ _ _ _ Hi Hq) as (w & Hw & _ & _ & Hqb). split; [lia|].
  assert (Hle := Hmin (dt_reference w) ltac:(apply (armed_refs_pend s1 _ Hi); by exists i, w, q, mq)).
  rewrite (time_left_spec s1 j v p made), (time_left_spec s1 i w q mq) in Hle by (done || lia). lia.
Qed.

Lemma served_fire s s' : slack -> callback_ok -> inv s -> served s -> on_time s ->
  mux_alarm callback s = Ret s' -> clock s' <= clock s + D -> served s' /\ firing s' = false.
Proof using HMIN.
  intros Hsl Hcb Hi Hsv Hot Hm Hdur. unfold mux_alarm in Hm. apply obind_Ret in Hm as (s1 & Hl & Hm).
  injection Hm as <-. split; [|by rewrite (ho_firing _ _ (hw_only_set_next _))].
  assert (Hk : looking (clock s) (virtual_alarms s) (set_firing true s)).
  { split; [by eapply inv_frame|done|..].
    - intros i p made Hp. by apply (served_late s i).
    - intros i p made (v & dl & Hv & Ha & _) Hn. destruct Hn. by apply (inv_linked _ Hi i v). }
  pose proof (ho_clock _ _ (hw_only_set_next (set_firing false s1))) as Ht.
  change (clock (set_firing false s1)) with (clock s1) in Ht. apply (served_next (clock s)); [done| |done].
  apply (looking_loop (clock s) (virtual_alarms s) (set_firing true s) s1 Hsl Hcb Hk) in Hl; [|lia].
  destruct Hl as [Hi1 Ht1 Hl1 Hd1]. split; [by eapply inv_frame|done|exact Hl1|exact Hd1].
Qed.

Lemma timely_step_inv s s' : slack -> callback_ok -> on_time s -> inv s -> served s -> firing s = false ->
  timely s s' -> inv s' /\ served s' /\ firing s' = false /\ on_time s'.
Proof using HMIN.
  intros Hsl Hcb Hot Hi Hsv Hf [s1 Hs Hd Ho|s1 Hs Hd Ho].
  - destruct (client_step_clock _ _ Hi Hs) as [_ Hf']. split_and!; try done; [by eapply inv_client_step| |congruence].
    by eapply served_client_step.
  - destruct (served_fire s s1) as [? ?]; try done. split_and!; try done. by eapply inv_mux_alarm.
Qed.

Lemma timely_steps_inv s s' : slack -> callback_ok -> on_time s -> inv s -> served s -> firing s = false ->
  rtc timely s s' -> inv s' /\ served s' /\ on_time s'.
Proof using HMIN.
  intros Hsl Hcb Hot Hi Hsv Hf Hs. induction Hs as [|s s1 s' H1 _ IH]; [done|].
  destruct (timely_step_inv s s1) as (? & ? & ? & ?); try done. by apply IH.
Qed.

(** A pending request is not late. *)
Lemma pending_not_late s i deadline made : slack -> inv s -> served s -> on_time s ->
  due (trace s) i = Some (deadline, made) -> clock s <= Z.max deadline made + K.
Proof using HMIN.
  intros Hsl Hi Hsv Hot Hd.
  assert (Hv : exists v, nodes s !! i = Some v /\ armed v = true).
  { destruct (nodes s !! i) as [v|] eqn:Hv; [destruct (armed v) eqn:Ha; [by exists v|]|];
      rewrite (inv_idle _ Hi i) in Hd; try done; intros w Hw; congruence. }
  destruct Hv as (v & Hv & Ha). destruct M_half.
  assert (Hl : clock s <= Z.max (deadline - extension (dt_reference v)) made + K).
  { apply (served_late s i); try done. by exists v, deadline. }
  unfold extension in Hl. destruct (extended _); lia.
Qed.

End spec.

(** * The theorems *)

Section theorems.
  Context {T H C E : Type} `{AL : AlarmLaws H T}.
  Notation Mux := (MuxAlarm T H C E).
  Context (callback : C -> Mux -> outcome Mux).

(** C15: a virtual alarm never fires early.  Over every interleaving of calls of
    clients, at any time and with any reference, of interrupts, spurious ones
    included, and of calls that clients make from their callbacks, each callback of
    an alarm answers the last request for it, and comes when the true time has
    reached the reference of that request plus its [dt]; and the interrupt handler
    does not panic. *)
Theorem virtual_alarm_never_early h e s :
  0 <= val (minimum_dt h) < half (T := T) -> callback_ok callback (M (T := T)) ->
  rtc (step callback (M (T := T))) (mux_new h e) s ->
  (forall post i h' pre, trace s = post ++ Fired i h' :: pre ->
     exists deadline made, due pre i = Some (deadline, made) /\ deadline <= time h') /\
  ((forall c s, returns (callback c s)) -> returns (mux_alarm callback s)).
Proof using AL.
  intros Hm Hcb Hs. pose proof (steps_inv callback _ _ Hm _ _ Hcb (mux_inv_initial _ _ h e eq_refl) Hs) as Hi.
  split.
  - intros post i h' pre Ht. pose proof (inv_early _ _ _ Hi) as He. rewrite Ht in He.
    by apply never_early_at in He.
  - intros Htot. by eapply mux_alarm_returns.
Qed.

(** C14: virtual alarms fire in time.  When the hardware calls back at most [LATE]
    ticks after the alarm it was given, calls take at most [D] ticks and clients use
    references at most [A] ticks old, and these delays together leave some slack
    below half the range of the counter, then in every reachable state a request
    that is still pending is late by no more than [D], [LATE] and the minimum of the
    hardware: until then each alarm has fired or was cancelled.  In particular
    choosing the next hardware alarm, keeping the current one for a later request
    and splitting long requests in two never lose an alarm. *)
Theorem virtual_alarm_in_time A D LATE h e s i deadline made :
  0 <= val (minimum_dt h) < half (T := T) -> slack (T := T) (val (minimum_dt h)) A D LATE ->
  callback_ok callback A -> expiry h = None ->
  rtc (timely callback A D LATE) (mux_new h e) s ->
  due (trace s) i = Some (deadline, made) ->
  time (alarm s) <= Z.max deadline made + (D + val (minimum_dt h) + LATE).
Proof using AL.
  intros Hm Hsl Hcb Hx Hs Hd.
  destruct (timely_steps_inv callback _ _ Hm D LATE (mux_new h e) s Hsl Hcb) as (Hi & Hsv & Hot); try done.
  - intros x Hx'. cbn in Hx'. congruence.
  - by apply mux_inv_initial.
  - by intros [].
  - by apply (pending_not_late _ A Hm D LATE s i).
Qed.

End theorems.

(** * A counter with a compare register

    Each reading of the clock takes a tick. *)
Record Counter := mkCounter { c_time : Z; c_alarm : Ticks32; c_expiry : option Z }.
#[export] Instance counter_alarm : Alarm Counter Ticks32 := {|
  now h := (mkTicks32 (wrap32 (c_time h + 1)), mkCounter (c_time h + 1) (c_alarm h) (c_expiry h));
  hw_set_alarm r d h :=
    mkCounter (c_time h) (wrapping_add r d)
      (Some (Z.max (c_time h - wrap32 (c_time h - t32 r) + t32 d) (c_time h)));
  hw_get_alarm := c_alarm;
  hw_disarm h := (Ok tt, mkCounter (c_time h) (c_alarm h) None);
  minimum_dt h := mkTicks32 0;
|}.
#[export] Instance counter_laws : AlarmLaws Counter Ticks32.
Proof.
  refine {| time := c_time; expiry := c_expiry |}; try done; cbn; intros.
  - simplify_eq. cbn. split_and!; try done. lia.
  - unfold wrapping_add32, wrap32. by rewrite Z.mod_mod.
  - eexists. split; [done|]. unfold wrap32, U32. lia.
Defined.

(** A client that asks for its alarm again, 100 ticks from now. *)
Definition again (i : nat) (s : MuxAlarm Ticks32 Counter nat unit) : outcome (MuxAlarm Ticks32 Counter nat unit) :=
  let '(x, s) := read_now s in
  if decide (i ∈ virtual_alarms s) then
    match set_alarm i x (mkTicks32 100) s with Ret s' => Ret s' | _ => Ret s end
  else Ret s.

Lemma again_ok A : 0 <= A -> callback_ok again A.
Proof.
  intros HA c s s' Hs. unfold again in Hs. destruct (read_now s) as [x s1] eqn:Hn.
  assert (H1 : client_step A s s1) by (replace s1 with (read_now s).2 by (by rewrite Hn); constructor).
  eapply rtc_l; [exact H1|]. case_decide as Hin; [|by simplify_eq].
  destruct (set_alarm c x (mkTicks32 100) s1) as [s2| |] eqn:H2; simplify_eq; try done.
  apply rtc_once, (step_set A s1 c x (mkTicks32 100) s'); [exact Hin|by split| |exact H2].
  destruct (read_now_spec _ _ _ Hn) as [_ Hx]. unfold M in *. rewrite Hx, Zminus_mod_idemp_r, Z.sub_diag.
  done.
Qed.

Notation demo := (MuxAlarm Ticks32 Counter nat unit).
Definition demo_h : Counter := mkCounter 0xfffffff0 (mkTicks32 0) None.
Definition demo0 : demo := mux_new demo_h tt.
Definition demo1 : demo := setup 0 (set_nodes [virtual_new] demo0).
Definition run (m : outcome demo) : demo := match m with Ret s => s | _ => demo0 end.
Definition demo2 : demo := run (set_alarm_client 0 0%nat demo1).
Definition demo3 : demo := run (set_alarm 0 (mkTicks32 0xffffffe8) (mkTicks32 40) demo2).
Definition demo4 : demo := set_hw (mkCounter 0x100000012 (mkTicks32 16) (Some 0x100000010)) demo3.
Definition demo5 : demo := run (mux_alarm again demo4).

Lemma demo_calls A : 24 <= A ->
  client_step A demo0 demo1 /\ client_step A demo1 demo2 /\ client_step A demo2 demo3 /\ client_step A demo3 demo4.
Proof.
  intros HA. split_and!.
  - apply (step_new A demo0). cbn. unfold U32. lia.
  - apply (step_client A demo1 0 0%nat demo2). by vm_compute.
  - apply (step_set A demo2 0 (mkTicks32 0xffffffe8) (mkTicks32 40) demo3);
      [apply list_elem_of_here|by split| |by vm_compute].
    replace ((clock demo2 - _) mod M) with 8; [lia|by vm_compute].
  - apply step_pass; by vm_compute.
Qed.

Lemma virtual_alarm_never_early_witness :
  exists post h' pre, trace demo5 = post ++ Fired 0 h' :: pre /\
    exists deadline made, due pre 0 = Some (deadline, made) /\ deadline <= time h'.
Proof.
  eexists [_], _, _. split; [by vm_compute|].
  destruct (virtual_alarm_never_early again demo_h tt demo5) as [He _].
  - by split.
  - by apply again_ok.
  - destruct (demo_calls (M (T := Ticks32))) as (H1 & H2 & H3 & H4); [by vm_compute|].
    eapply rtc_l; [apply step_call, H1|]. eapply rtc_l; [apply step_call, H2|].
    eapply rtc_l; [apply step_call, H3|]. eapply rtc_l; [apply step_call, H4|].
    apply rtc_once, step_fire. by vm_compute.
  - eapply (He [_]). by vm_compute.
Defined.

Lemma virtual_alarm_in_time_witness :
  exists deadline made, due (trace demo5) 0 = Some (deadline, made) /\
    time (alarm demo5) <= Z.max deadline made + (50 + 0 + 50).
Proof.
  eexists _, _. split; [by vm_compute|].
  refine (virtual_alarm_in_time again 24 50 50 demo_h tt demo5 0 _ _ _ _ _ _ _ _).
  - by split.
  - by split_and!.
  - by apply again_ok.
  - done.
  - destruct (demo_calls 24) as (H1 & H2 & H3 & H4); [done|].
    eapply rtc_l; [apply timely_call; [exact H1|by vm_compute|by intros ? [=]]|].
    eapply rtc_l; [apply timely_call; [exact H2|by vm_compute|by intros ? [=]]|].
    eapply rtc_l; [apply timely_call; [exact H3|by vm_compute|by intros ? [= <-]]|].
    eapply rtc_l; [apply timely_call; [exact H4|by vm_compute|by intros ? [= <-]]|].
    apply rtc_once, timely_fire; [by vm_compute|by vm_compute|].
    intros e He. vm_compute in He. by injection He as <-.
  - by vm_compute.
Defined.

(** * Old references *)

Definition old_start : demo :=
  setup 1 (setup 0 (set_nodes [virtual_new; virtual_new]
    (mux_new (mkCounter 0x200000000 (mkTicks32 0) None) tt))).
Definition old_set : demo :=
  run (let! s := set_alarm 0 (mkTicks32 0) (mkTicks32 1717986918) old_start in
       set_alarm 1 (mkTicks32 0x40000000) (mkTicks32 0xffffffff) s).
(** The hardware calls back on time. *)
Definition old_due : demo :=
  set_hw (mkCounter 0x266666666 (c_alarm (alarm old_set)) (c_expiry (alarm old_set))) old_set.
Definition old_fired : demo := run (mux_alarm again old_due).

(** A bound on the age of references is needed.  Alarm 0 is set for 0x66666666 ticks
    ahead, then alarm 1 with a reference 0xc0000000 ticks in the past, where the
    clock was, and the longest [dt], so that it is due 0x3fffffff ticks ahead and
    still lies in the future.  The hardware alarm is kept for alarm 0, since the
    comparison takes its time for one of the past turn of the counter; when it
    fires, exactly on time, alarm 1 is late by more than 2^29 ticks, and the handler
    takes it for one that is not due yet and sets the hardware alarm 2^31 ticks after
    the deadline. *)
Lemma old_reference_late :
  old_due = set_hw (mkCounter (default 0 (expiry (alarm old_set))) (c_alarm (alarm old_set))
                      (expiry (alarm old_set))) old_set /\
  mux_alarm again old_due = Ret old_fired /\
  exists deadline e,
    due (trace old_fired) 1 = Some (deadline, clock old_start) /\ clock old_start < deadline /\
    deadline + 2 ^ 29 < clock old_due /\
    expiry (alarm old_fired) = Some e /\ deadline + 2 ^ 31 <= e.
Proof.
  split; [by vm_compute|]. split; [by vm_compute|]. exists 0x23fffffff, 0x2bfffffff.
  split_and!; by vm_compute.
Qed.

End VirtualAlarmSpec.
