(* ===== verification/Crc32.v ===== *)
(** The checksum of the key-value store ([libraries/tickv/src/crc32.rs]), module
    [Crc32]: the table, the table-driven update, and that it computes the
    bit-serial remainder and detects every error burst of up to four bytes. *)

From stdpp Require Import base numbers list.
From S2P Require Import Prelude.
Local Open Scope Z_scope.

Module Crc32.

(** * The code *)

Definition reflect_8 (b : Z) : Z :=
  let b := Z.lor (Z.shiftr (Z.land b 0xf0) 4) (Z.shiftl (Z.land b 0x0f) 4) in
  let b := Z.lor (Z.shiftr (Z.land b 0xcc) 2) (Z.shiftl (Z.land b 0x33) 2) in
  Z.lor (Z.shiftr (Z.land b 0xaa) 1) (Z.shiftl (Z.land b 0x55) 1).
Definition reflect_32 (b : Z) : Z :=
  let b := Z.lor (Z.shiftr (Z.land b 0xffff0000) 16) (Z.shiftl (Z.land b 0x0000ffff) 16) in
  let b := Z.lor (Z.shiftr (Z.land b 0xff00ff00) 8) (Z.shiftl (Z.land b 0x00ff00ff) 8) in
  let b := Z.lor (Z.shiftr (Z.land b 0xf0f0f0f0) 4) (Z.shiftl (Z.land b 0x0f0f0f0f) 4) in
  let b := Z.lor (Z.shiftr (Z.land b 0xcccccccc) 2) (Z.shiftl (Z.land b 0x33333333) 2) in
  Z.lor (Z.shiftr (Z.land b 0xaaaaaaaa) 1) (Z.shiftl (Z.land b 0x55555555) 1).

Definition poly_sum_crc32 (poly value : Z) : Z :=
  Z.lxor (wrap32 (Z.shiftl value 1)) (Z.shiftr value 31 * poly).

Definition crc32 (poly byte : Z) : Z :=
  let byte := default 0 ([byte; reflect_8 byte] !! 0%nat) in
  let value := wrap32 (Z.shiftl byte 24) in
  let value := Nat.iter 8 (poly_sum_crc32 poly) value in
  default 0 ([value; reflect_32 value] !! 0%nat).

Definition POLY : Z := 0x04c11db7.
Definition CRC_TABLE : list Z := map (fun i => crc32 POLY (Z.of_nat i)) (seq 0 256).

Definition init : Z := 0.
Definition table_entry (index_ : Z) : Z := default 0 (CRC_TABLE !! Z.to_nat (Z.land index_ 0xff)).
Definition update_byte (crc b : Z) : Z :=
  Z.lxor (table_entry (Z.lxor b (Z.shiftr crc 24))) (wrap32 (Z.shiftl crc 8)).
Definition update (crc : Z) (bytes : list Z) : Z := foldl update_byte crc bytes.
Definition finalise (crc : Z) : Z := Z.lxor crc 0xffffffff.

(** * The reference: shifting in one bit at a time *)

Definition step : Z -> Z := poly_sum_crc32 POLY.
Definition steps (k : nat) (v : Z) : Z := Nat.iter k step v.
Definition serial_byte (crc b : Z) : Z := steps 8 (Z.lxor crc (Z.shiftl b 24)).

Lemma wrap32_testbit v n : 0 <= n -> Z.testbit (wrap32 v) n = (n <? 32) && Z.testbit v n.
Proof.
  intros Hn. unfold wrap32, U32. rewrite <- Z.land_ones, Z.land_spec, Z.testbit_ones by lia.
  destruct (Z.ltb_spec n 32), (Z.leb_spec 0 n); cbn; rewrite ?andb_true_r, ?andb_false_r; done || lia.
Qed.

Lemma u32_high v n : u32_range v -> 32 <= n -> Z.testbit v n = false.
Proof.
  intros [Hv0 Hv] Hn. destruct (Z.eq_dec v 0) as [->|Hz]; [apply Z.bits_0|].
  apply Z.bits_above_log2; [done|]. apply Z.lt_le_trans with 32; [|done]. by apply Z.log2_lt_pow2; [lia|].
Qed.

Lemma u32_of_bits v : (forall n, 32 <= n -> Z.testbit v n = false) -> 0 <= v -> u32_range v.
Proof.
  intros Hb Hv. split; [done|]. destruct (Z.eq_dec v 0) as [->|Hz]; [done|].
  unfold U32. apply Z.log2_lt_pow2; [lia|]. apply Z.lt_nge. intros Hl.
  specialize (Hb (Z.log2 v) Hl). rewrite Z.bit_log2 in Hb by lia. done.
Qed.

Lemma u32_lxor a b : u32_range a -> u32_range b -> u32_range (Z.lxor a b).
Proof.
  intros Ha Hb. apply u32_of_bits.
  - intros n Hn. by rewrite Z.lxor_spec, !u32_high.
  - apply Z.lxor_nonneg. unfold u32_range in *. lia.
Qed.

(** The top bit decides whether the polynomial is subtracted. *)
Lemma top_bit v : u32_range v -> Z.shiftr v 31 = Z.b2z (Z.testbit v 31).
Proof.
  intros Hv. apply Z.bits_inj'. intros n Hn. rewrite Z.shiftr_spec by done.
  destruct (Z.eq_dec n 0) as [->|Hz].
  - destruct (Z.testbit v 31) eqn:E; by rewrite Z.add_0_l, E.
  - rewrite u32_high by (done || lia). destruct (Z.testbit v 31); cbn; [|by rewrite Z.bits_0].
    symmetry. change 1 with (2 ^ 0). apply Z.pow2_bits_false. lia.
Qed.

Lemma step_bits v n : u32_range v -> 0 <= n ->
  Z.testbit (step v) n
  = xorb ((n <? 32) && Z.testbit (Z.shiftl v 1) n) (Z.testbit v 31 && Z.testbit POLY n).
Proof.
  intros Hv Hn. unfold step, poly_sum_crc32. rewrite Z.lxor_spec, wrap32_testbit, top_bit by done.
  f_equal. destruct (Z.testbit v 31); cbn [Z.b2z andb]; [by rewrite Z.mul_1_l|apply Z.bits_0].
Qed.

Lemma step_range v : u32_range v -> u32_range (step v).
Proof.
  intros Hv. unfold step, poly_sum_crc32. rewrite top_bit by done. apply u32_lxor; [apply wrap32_range|].
  by destruct (Z.testbit v 31).
Qed.

Lemma step_lxor a b : u32_range a -> u32_range b -> step (Z.lxor a b) = Z.lxor (step a) (step b).
Proof.
  intros Ha Hb. apply Z.bits_inj'. intros n Hn.
  rewrite Z.lxor_spec, !step_bits, Z.shiftl_lxor, !Z.lxor_spec by auto using u32_lxor.
  destruct (n <? 32), (Z.testbit (Z.shiftl a 1) n), (Z.testbit (Z.shiftl b 1) n), (Z.testbit a 31),
    (Z.testbit b 31), (Z.testbit POLY n); done.
Qed.

(** The polynomial has a constant term, so a step loses nothing. *)
Lemma step_inj a b : u32_range a -> u32_range b -> step a = step b -> a = b.
Proof.
  intros Ha Hb He.
  assert (Htop : Z.testbit a 31 = Z.testbit b 31).
  { pose proof (f_equal (fun v => Z.testbit v 0) He) as H0. cbn beta in H0. rewrite !step_bits in H0 by done.
    rewrite !Z.shiftl_spec_low in H0 by lia. change (Z.testbit POLY 0) with true in H0.
    by destruct (Z.testbit a 31), (Z.testbit b 31). }
  apply Z.bits_inj'. intros n Hn. destruct (Z.lt_ge_cases n 32) as [Hlt|Hge]; [|by rewrite !u32_high].
  destruct (Z.eq_dec n 31) as [->|H31]; [done|].
  pose proof (f_equal (fun v => Z.testbit v (n + 1)) He) as H1. cbn beta in H1. rewrite !step_bits, Htop in H1 by (done || lia).
  rewrite !Z.shiftl_spec, Z.add_simpl_r in H1 by lia. rewrite (proj2 (Z.ltb_lt _ _)) in H1 by lia. cbn [andb] in H1.
  destruct (Z.testbit a n), (Z.testbit b n), (Z.testbit b 31 && Z.testbit POLY (n + 1)); done.
Qed.

Lemma steps_S k v : steps (S k) v = step (steps k v).
Proof. done. Qed.
Lemma steps_range k v : u32_range v -> u32_range (steps k v).
Proof. intros Hv. induction k; [done|]. rewrite steps_S. auto using step_range. Qed.
Lemma steps_lxor k a b : u32_range a -> u32_range b -> steps k (Z.lxor a b) = Z.lxor (steps k a) (steps k b).
Proof.
  intros Ha Hb. induction k as [|k IH]; [done|]. rewrite !steps_S, IH.
  by apply step_lxor; apply steps_range.
Qed.
Lemma steps_inj k a b : u32_range a -> u32_range b -> steps k a = steps k b -> a = b.
Proof.
  intros Ha Hb. induction k as [|k IH]; [done|]. rewrite !steps_S. intros He. apply IH.
  by apply step_inj in He; [|apply steps_range..].
Qed.
Lemma steps_add j k v : steps (j + k) v = steps j (steps k v).
Proof. induction j as [|j IH]; [done|]. cbn [Nat.add]. by rewrite !steps_S, IH. Qed.

(** Bits that do not reach the top are only shifted. *)
Lemma steps_shift k v : 0 <= v -> v * 2 ^ Z.of_nat k < U32 -> steps k v = v * 2 ^ Z.of_nat k.
Proof.
  intros Hv. induction k as [|k IH]; [intros _; cbn; lia|]. intros Hk.
  rewrite Nat2Z.inj_succ, Z.pow_succ_r in * by lia.
  rewrite steps_S, IH by lia. set (w := v * 2 ^ Z.of_nat k) in *.
  assert (Hw : 0 <= w) by (unfold w; pose proof (Z.pow_nonneg 2 (Z.of_nat k)); nia).
  unfold step, poly_sum_crc32. rewrite Z.shiftl_mul_pow2 by lia. rewrite wrap32_small by (unfold u32_range, U32 in *; lia).
  rewrite Z.shiftr_div_pow2, Z.div_small by (unfold U32 in *; lia). cbn [Z.mul]. rewrite Z.lxor_0_r. lia.
Qed.

(** ** The table *)

Lemma table_checked :
  forallb (fun i => table_entry (Z.of_nat i) =? steps 8 (Z.shiftl (Z.of_nat i) 24)) (seq 0 256) = true.
Proof. by vm_compute. Qed.

Lemma table_entry_spec b : 0 <= b < 256 -> table_entry b = steps 8 (Z.shiftl b 24).
Proof.
  intros Hb. pose proof (proj1 (forallb_forall _ _) table_checked (Z.to_nat b)) as Ht.
  rewrite in_seq, Z2Nat.id, Z.eqb_eq in Ht by lia. apply Ht. lia.
Qed.

Lemma split_high v : u32_range v ->
  v = Z.lxor (Z.shiftl (Z.shiftr v 24) 24) (Z.land v 0xffffff) /\
  0 <= Z.shiftr v 24 < 256 /\ 0 <= Z.land v 0xffffff < 2 ^ 24.
Proof.
  intros Hv. change 0xffffff with (Z.ones 24). rewrite Z.land_ones by lia. split_and!.
  - apply Z.bits_inj'. intros n Hn. rewrite Z.lxor_spec. destruct (Z.lt_ge_cases n 24).
    + by rewrite Z.shiftl_spec_low, Z.mod_pow2_bits_low by lia.
    + rewrite Z.shiftl_spec, Z.shiftr_spec, Z.mod_pow2_bits_high, Z.sub_add by lia. by rewrite xorb_false_r.
  - rewrite Z.shiftr_div_pow2 by lia. apply Z.div_pos; [apply Hv|lia].
  - rewrite Z.shiftr_div_pow2 by lia. apply Z.div_lt_upper_bound; [lia|]. apply Hv.
  - apply Z.mod_pos_bound. lia.
  - apply Z.mod_pos_bound. lia.
Qed.

Lemma byte_shift_range b : 0 <= b < 256 -> u32_range (Z.shiftl b 24).
Proof. intros Hb. rewrite Z.shiftl_mul_pow2 by lia. unfold u32_range, U32. lia. Qed.

Lemma crc_byte_lxor a b : 0 <= a < 256 -> 0 <= b < 256 -> 0 <= Z.lxor a b < 256.
Proof.
  intros Ha Hb. split; [apply Z.lxor_nonneg; lia|].
  destruct (Z.eq_dec (Z.lxor a b) 0) as [->|Hz]; [done|]. change 256 with (2 ^ 8).
  apply Z.log2_lt_pow2; [pose proof (proj2 (Z.lxor_nonneg a b)); lia|].
  eapply Z.le_lt_trans; [apply Z.log2_lxor; lia|].
  apply Z.max_lub_lt; (destruct (Z.eq_dec a 0) as [->|?]; destruct (Z.eq_dec b 0) as [->|?]; [done|..]);
    try done; try (apply Z.log2_lt_pow2; lia).
Qed.

(** A table-driven update is eight serial steps. *)
Lemma update_byte_serial crc b : u32_range crc -> 0 <= b < 256 -> update_byte crc b = serial_byte crc b.
Proof.
  intros Hc Hb. destruct (split_high crc Hc) as (E & Hh & Hl). unfold update_byte, serial_byte.
  rewrite table_entry_spec by (by apply crc_byte_lxor).
  set (h := Z.shiftr crc 24) in *. set (l := Z.land crc 0xffffff) in *. rewrite E.
  replace (Z.lxor (Z.lxor (Z.shiftl h 24) l) (Z.shiftl b 24)) with (Z.lxor (Z.shiftl (Z.lxor b h) 24) l).
  2: { rewrite Z.shiftl_lxor. rewrite (Z.lxor_comm (Z.shiftl b 24)). rewrite !Z.lxor_assoc. f_equal. apply Z.lxor_comm. }
  rewrite steps_lxor; [|by apply byte_shift_range, crc_byte_lxor|unfold u32_range, U32; lia].
  f_equal. rewrite steps_shift by (unfold U32; cbn; lia). rewrite <- E. unfold l.
  rewrite Z.shiftl_mul_pow2 by lia. unfold wrap32, U32. change (2 ^ 32) with (2 ^ 24 * 2 ^ 8).
  rewrite Z.mul_mod_distr_r by lia. change 0xffffff with (Z.ones 24). by rewrite Z.land_ones by lia.
Qed.

Lemma serial_byte_range crc b : u32_range crc -> 0 <= b < 256 -> u32_range (serial_byte crc b).
Proof. intros Hc Hb. apply steps_range, u32_lxor; [done|by apply byte_shift_range]. Qed.

Lemma update_cons crc b bs : update crc (b :: bs) = update (update_byte crc b) bs.
Proof. reflexivity. Qed.

Lemma update_serial crc bs : u32_range crc -> bytes_ok bs ->
  update crc bs = foldl serial_byte crc bs /\ u32_range (update crc bs).
Proof.
  intros Hc Hb. revert crc Hc. induction Hb as [|b bs Hb _ IH]; intros crc Hc; [done|].
  unfold u8_range, U8 in Hb. assert (Hb' : 0 <= b < 256) by lia.
  rewrite update_cons, update_byte_serial by done. apply IH. by apply serial_byte_range.
Qed.

#[local] Opaque steps.

(** ** Error bursts *)

Lemma serial_byte_inj a b c : u32_range a -> u32_range b -> 0 <= c < 256 ->
  serial_byte a c = serial_byte b c -> a = b.
Proof.
  intros Ha Hb Hc He. pose proof (byte_shift_range c Hc). unfold serial_byte in He.
  apply (steps_inj 8) in He; [|by apply u32_lxor..].
  apply (f_equal (fun v => Z.lxor v (Z.shiftl c 24))) in He. cbn beta in He.
  by rewrite !Z.lxor_assoc, !Z.lxor_nilpotent, !Z.lxor_0_r in He.
Qed.

Lemma update_inj a b bs : u32_range a -> u32_range b -> bytes_ok bs -> update a bs = update b bs -> a = b.
Proof.
  intros Ha Hb Hbs. revert a b Ha Hb. induction Hbs as [|c bs Hc _ IH]; intros a b Ha Hb He; [done|].
  unfold u8_range, U8 in Hc. assert (Hc' : 0 <= c < 256) by lia.
  rewrite !update_cons, !update_byte_serial in He by done. apply IH in He; [|by apply serial_byte_range..].
  by apply serial_byte_inj in He.
Qed.

(** Bytes shifted in one after the other enter as one word. *)
Fixpoint word_of (k : nat) (bs : list Z) : Z :=
  match bs with
  | [] => 0
  | b :: bs => Z.lxor (Z.shiftl b (24 - 8 * Z.of_nat k)) (word_of (S k) bs)
  end.

Lemma shift_in_bound b r n : 0 <= n -> 0 <= b < 256 -> 0 <= r < 2 ^ n ->
  0 <= Z.lxor (Z.shiftl b n) r < 2 ^ (n + 8) /\ Z.shiftr (Z.lxor (Z.shiftl b n) r) n = b.
Proof.
  intros Hn Hb Hr. assert (Hp : 0 < 2 ^ n) by (apply Z.pow_pos_nonneg; lia).
  assert (E : Z.lxor (Z.shiftl b n) r = b * 2 ^ n + r).
  { rewrite <- Z.shiftl_mul_pow2 by done. symmetry. apply Z.add_nocarry_lxor. apply Z.bits_inj'. intros m Hm.
    rewrite Z.land_spec, Z.bits_0. destruct (Z.lt_ge_cases m n); [by rewrite Z.shiftl_spec_low|].
    rewrite <- (Z.mod_small r (2 ^ n)) by done. by rewrite Z.mod_pow2_bits_high, andb_false_r by lia. }
  rewrite E. split.
  - rewrite Z.pow_add_r by lia. nia.
  - rewrite Z.shiftr_div_pow2, Z.add_comm, Z.div_add, Z.div_small by lia. done.
Qed.

Lemma word_of_range k bs : bytes_ok bs -> (k + length bs <= 4)%nat ->
  0 <= word_of k bs < 2 ^ (32 - 8 * Z.of_nat k).
Proof.
  intros Hb. revert k. induction Hb as [|b bs Hb _ IH]; intros k Hk; cbn [word_of length] in *.
  - split; [done|]. apply Z.pow_pos_nonneg; lia.
  - specialize (IH (S k) ltac:(lia)). unfold u8_range, U8 in Hb.
    replace (32 - 8 * Z.of_nat k) with (24 - 8 * Z.of_nat k + 8) by lia.
    apply shift_in_bound; [lia|lia|]. by replace (24 - 8 * Z.of_nat k) with (32 - 8 * Z.of_nat (S k)) by lia.
Qed.

Lemma word_of_inj k a b : bytes_ok a -> bytes_ok b -> length a = length b -> (k + length a <= 4)%nat ->
  word_of k a = word_of k b -> a = b.
Proof.
  intros Ha. revert k b. induction Ha as [|x a Hx Ha IH]; intros k [|y b] Hb Hl Hk He; try done.
  apply Forall_cons in Hb as [Hy Hb]. cbn [word_of length] in *. unfold u8_range, U8 in Hx, Hy.
  pose proof (word_of_range (S k) a Ha ltac:(lia)) as Ra. pose proof (word_of_range (S k) b Hb ltac:(lia)) as Rb.
  replace (32 - 8 * Z.of_nat (S k)) with (24 - 8 * Z.of_nat k) in Ra, Rb by lia.
  destruct (shift_in_bound x (word_of (S k) a) (24 - 8 * Z.of_nat k)) as [_ E1]; [lia..|].
  destruct (shift_in_bound y (word_of (S k) b) (24 - 8 * Z.of_nat k)) as [_ E2]; [lia..|].
  assert (x = y) as <- by congruence. f_equal. apply (IH (S k) b Hb); [lia|lia|].
  apply (f_equal (Z.lxor (Z.shiftl x (24 - 8 * Z.of_nat k)))) in He.
  by rewrite <- !Z.lxor_assoc, !Z.lxor_nilpotent, !Z.lxor_0_l in He.
Qed.

Lemma word_of_u32 k bs : bytes_ok bs -> (k + length bs <= 4)%nat -> u32_range (word_of k bs).
Proof.
  intros Hb Hk. pose proof (word_of_range k bs Hb Hk) as Hr. unfold u32_range, U32.
  assert (2 ^ (32 - 8 * Z.of_nat k) <= 2 ^ 32) by (apply Z.pow_le_mono_r; lia). lia.
Qed.

Lemma serial_word k x bs : u32_range x -> bytes_ok bs -> (k + length bs <= 4)%nat ->
  foldl serial_byte (steps (8 * k) x) bs = steps (8 * (k + length bs)) (Z.lxor x (word_of k bs)).
Proof.
  intros Hx Hb. revert k x Hx. induction Hb as [|b bs Hb Hbs IH]; intros k x Hx Hk; cbn [foldl word_of length] in *.
  - by rewrite Z.lxor_0_r, Nat.add_0_r.
  - unfold u8_range, U8 in Hb.
    assert (Hsh : u32_range (Z.shiftl b (24 - 8 * Z.of_nat k))).
    { rewrite Z.shiftl_mul_pow2 by lia. unfold u32_range, U32.
      assert (0 < 2 ^ (24 - 8 * Z.of_nat k) <= 2 ^ 24) by (split; [apply Z.pow_pos_nonneg|apply Z.pow_le_mono_r]; lia).
      nia. }
    assert (Hs : serial_byte (steps (8 * k) x) b = steps (8 * S k) (Z.lxor x (Z.shiftl b (24 - 8 * Z.of_nat k)))).
    { unfold serial_byte. replace (8 * S k)%nat with (8 + 8 * k)%nat by lia. rewrite steps_add. f_equal.
      rewrite steps_lxor by done. f_equal. rewrite steps_shift.
      - rewrite !Z.shiftl_mul_pow2 by lia. rewrite <- Z.mul_assoc, <- Z.pow_add_r by lia. do 2 f_equal. lia.
      - apply Hsh.
      - rewrite Z.shiftl_mul_pow2, <- Z.mul_assoc, <- Z.pow_add_r by lia.
        replace (24 - 8 * Z.of_nat k + Z.of_nat (8 * k)) with 24 by lia. unfold U32. lia. }
    rewrite Hs, IH by (try apply u32_lxor; done || lia). f_equal; [lia|]. by rewrite Z.lxor_assoc.
Qed.

(** The checksum of a message. *)
Definition checksum (bytes : list Z) : Z := finalise (update init bytes).

Lemma update_app crc a b : update crc (a ++ b) = update (update crc a) b.
Proof. apply foldl_app. Qed.

Lemma update_burst crc a b : u32_range crc -> bytes_ok a -> bytes_ok b -> length a = length b ->
  (length a <= 4)%nat -> update crc a = update crc b -> a = b.
Proof.
  intros Hc Ha Hb Hl H4 He. destruct (update_serial crc a Hc Ha) as [Ea _]. destruct (update_serial crc b Hc Hb) as [Eb _].
  rewrite Ea, Eb in He.
  change crc with (steps (8 * 0) crc) in He. rewrite !serial_word in He by (done || lia).
  rewrite Hl in He. apply steps_inj in He; [|apply u32_lxor; [done|apply word_of_u32; done || lia]..].
  apply (f_equal (Z.lxor crc)) in He. rewrite <- !Z.lxor_assoc, !Z.lxor_nilpotent, !Z.lxor_0_l in He.
  by apply (word_of_inj 0) in He.
Qed.

(** C39: the table-driven checksum of the key-value store is the bit-serial
    remainder of the message, inverted, and detects every error burst that stays
    within four bytes: messages that differ only there have different checksums. *)
Theorem crc32_detects_bursts pre a b post :
  bytes_ok pre -> bytes_ok a -> bytes_ok b -> bytes_ok post ->
  length a = length b -> (length a <= 4)%nat -> a <> b ->
  checksum (pre ++ a ++ post) = Z.lxor (foldl serial_byte 0 (pre ++ a ++ post)) 0xffffffff /\
  checksum (pre ++ a ++ post) <> checksum (pre ++ b ++ post).
Proof.
  intros Hpre Ha Hb Hpost Hl H4 Hne.
  assert (H0 : u32_range init) by done.
  destruct (update_serial init pre H0 Hpre) as [_ R0].
  assert (Hall : bytes_ok (pre ++ a ++ post)) by (by repeat apply Forall_app_2).
  split; [unfold checksum; by rewrite (proj1 (update_serial init _ H0 Hall))|]. intros He. apply Hne.
  unfold checksum, finalise in He. apply (f_equal (fun v => Z.lxor v 0xffffffff)) in He. cbn beta in He.
  rewrite !Z.lxor_assoc, !Z.lxor_nilpotent, !Z.lxor_0_r, !update_app in He.
  apply update_inj in He; [by apply update_burst in He| | |done];
    by apply update_serial.
Qed.

Lemma crc32_detects_bursts_witness :
  checksum [1; 2; 3; 4; 5] = Z.lxor (foldl serial_byte 0 [1; 2; 3; 4; 5]) 0xffffffff /\
  checksum [1; 2; 3; 4; 5] <> checksum [1; 0; 7; 4; 5].
Proof.
  apply (crc32_detects_bursts [1] [2; 3] [0; 7] [4; 5]); try done;
    repeat constructor; unfold U8; lia.
Defined.

End Crc32.
