(* ===== verification/TicKV.v ===== *)
(** The key-value store TicKV ([libraries/tickv/src/tickv.rs]), module [TicKV]:
    objects appended to regions of flash memory, found by scanning the regions from
    the one of the key's hash on.  Operations are programs of a small monad with
    the state of the store and the errors of the source; [?] is its [bind].  The
    flash controller is a class; the operations that continue after an asynchronous
    flash operation are in the model through [state].  Loops take fuel: the loops
    over a region one more than its size, those over regions more than twice their
    number; [Diverge] is what is left when an entry of length zero makes the code
    loop. *)

From stdpp Require Import base numbers list.
From S2P Require Import Prelude Crc32.
Local Open Scope Z_scope.

Module TicKV.

(** * Codes *)

Inductive ErrorCode :=
  | UnsupportedVersion | CorruptData | InvalidCheckSum | KeyNotFound | KeyAlreadyExists
  | RegionFull | FlashFull | ReadFail | WriteFail | EraseFail | ObjectTooLarge
  | BufferTooSmall (len : nat) | ReadNotReady (reg : nat) | WriteNotReady (reg : nat)
  | EraseNotReady (reg : nat).
#[export] Instance ErrorCode_eq_dec : EqDecision ErrorCode.
Proof. solve_decision. Defined.
Definition error_isize (e : ErrorCode) : Z :=
  match e with
  | UnsupportedVersion => -1 | CorruptData => -2 | InvalidCheckSum => -3 | KeyNotFound => -4
  | KeyAlreadyExists => -5 | RegionFull => -6 | FlashFull => -7 | ReadFail => -8
  | WriteFail => -9 | EraseFail => -10 | ObjectTooLarge => -11 | BufferTooSmall _ => -12
  | ReadNotReady _ => -13 | WriteNotReady _ => -14 | EraseNotReady _ => -15
  end.

Inductive SuccessCode := Complete | Written | Queued.
Definition success_isize (c : SuccessCode) : Z :=
  match c with Complete => -1 | Written => -2 | Queued => -3 end.

(** * States *)

Inductive InitState :=
  | GetKeyReadRegion (reg : nat) | EraseRegion (reg : nat) | EraseComplete
  | AppendKeyReadRegion (reg : nat).
Inductive KeyState := ReadRegion (reg : nat).
Inductive RubbishState := RubbishReadRegion (reg freed : nat) | RubbishEraseRegion (reg freed : nat).
Inductive State :=
  | NoState | Init (s : InitState) | AppendKey (s : KeyState) | GetKey (s : KeyState)
  | InvalidateKey (s : KeyState) | ZeroiseKey (s : KeyState) | GarbageCollect (s : RubbishState).
#[export] Instance InitState_eq_dec : EqDecision InitState.
Proof. solve_decision. Defined.
#[export] Instance KeyState_eq_dec : EqDecision KeyState.
Proof. solve_decision. Defined.
#[export] Instance RubbishState_eq_dec : EqDecision RubbishState.
Proof. solve_decision. Defined.
#[export] Instance State_eq_dec : EqDecision State.
Proof. solve_decision. Defined.

(** [FlashController<S>]: reading fills the buffer it is given. *)
Class FlashController (F : Type) := {
  read_region : nat -> list Z -> F -> result unit ErrorCode * list Z * F;
  write : nat -> list Z -> F -> result unit ErrorCode * F;
  erase_region : nat -> F -> result unit ErrorCode * F;
}.

Record TicKV (F : Type) := mkTicKV {
  controller : F;
  flash_size : nat;
  read_buffer : option (list Z);
  state : State;
}.
Arguments mkTicKV {F}.
Arguments controller {F}.
Arguments flash_size {F}.
Arguments read_buffer {F}.
Arguments state {F}.

Definition VERSION : Z := 1.
Definition FLAGS_VALID : Z := 8.
Record ObjectHeader := mkHeader { version : Z; flags : Z; len : Z; hashed_key : Z }.
Definition header_new (hashed_key len : Z) : outcome ObjectHeader :=
  if len <? 0xfff then Ret (mkHeader VERSION FLAGS_VALID len hashed_key) else Panic.

Definition VERSION_OFFSET : nat := 0.
Definition LEN_OFFSET : nat := 1.
Definition HASH_OFFSET : nat := 3.
Definition HEADER_LENGTH : nat := HASH_OFFSET + 8.
Definition CHECK_SUM_LEN : nat := 4.

(** * The monad: state, errors, panics *)

Definition M (St A : Type) : Type := St -> outcome (result A ErrorCode * St).
Definition mret {St A} (a : A) : M St A := fun s => Ret (Ok a, s).
Definition fail {St A} (e : ErrorCode) : M St A := fun s => Ret (Err e, s).
Definition mbind_ {St A B} (m : M St A) (f : A -> M St B) : M St B :=
  fun s => let! '(r, s) := m s in match r with Ok a => f a s | Err e => Ret (Err e, s) end.
Definition lift {St A} (m : outcome A) : M St A := fun s => let! a := m in Ret (Ok a, s).
(** [o.ok_or(e)?] *)
Definition ok_or_ {St A} (o : option A) (e : ErrorCode) : M St A :=
  match o with Some a => mret a | None => fail e end.
(** [match m { Ok(..) => .., Err(..) => .. }] *)
Definition catch {St A} (m : M St A) : M St (result A ErrorCode) :=
  fun s => let! '(r, s) := m s in Ret (Ok r, s).

Declare Scope tickv_scope.
Delimit Scope tickv_scope with tickv.
Notation "x <-- m ;; k" := (mbind_ m (fun x => k))
  (at level 100, m at next level, right associativity) : tickv_scope.
Notation "' p <-- m ;; k" := (mbind_ m (fun x => match x with p => k end))
  (at level 100, p pattern, m at next level, right associativity) : tickv_scope.
Notation "m ;;; k" := (mbind_ m (fun _ => k)) (at level 100, right associativity) : tickv_scope.
Local Open Scope tickv_scope.

Section tickv.
  Context {F : Type} `{!FlashController F}.
  (** The const generic [S]: the size of a region. *)
  Context (SIZE : nat).
  Notation KV := (TicKV F).

Definition set_controller c (s : KV) : KV := mkTicKV c (flash_size s) (read_buffer s) (state s).
Definition set_read_buffer_ b (s : KV) : KV := mkTicKV (controller s) (flash_size s) b (state s).
Definition set_state_ st (s : KV) : KV := mkTicKV (controller s) (flash_size s) (read_buffer s) st.

Definition new (controller : F) (read_buffer : list Z) (flash_size : nat) : KV :=
  mkTicKV controller flash_size (Some read_buffer) NoState.

(** [self.state.get()], [self.state.set(..)] *)
Definition get_state : M KV State := fun s => Ret (Ok (state s), s).
Definition set_state (st : State) : M KV unit := fun s => Ret (Ok tt, set_state_ st s).
(** [self.read_buffer.take().unwrap()], [self.read_buffer.replace(Some(..))] *)
Definition take_buffer : M KV (list Z) := fun s =>
  match read_buffer s with Some b => Ret (Ok b, set_read_buffer_ None s) | None => Panic end.
Definition replace_buffer (b : list Z) : M KV unit := fun s => Ret (Ok tt, set_read_buffer_ (Some b) s).

(** The calls of the controller, with the [Result] as a value. *)
Definition read (reg : nat) (buf : list Z) : M KV (result unit ErrorCode * list Z) := fun s =>
  let '(r, buf, c) := read_region reg buf (controller s) in Ret (Ok (r, buf), set_controller c s).
Definition write_ (addr : nat) (buf : list Z) : M KV (result unit ErrorCode) := fun s =>
  let '(r, c) := write addr buf (controller s) in Ret (Ok r, set_controller c s).
Definition erase (reg : nat) : M KV (result unit ErrorCode) := fun s =>
  let '(r, c) := erase_region reg (controller s) in Ret (Ok r, set_controller c s).

Definition num_region : M KV nat := fun s =>
  if (SIZE =? 0)%nat then Panic else Ret (Ok (flash_size s / SIZE)%nat, s).

(** * Regions *)

Definition get_region (hash : Z) : M KV nat :=
  lift (if hash =? 0xffffffffffffffff then Panic else Ret tt) ;;;
  lift (if hash =? 0 then Panic else Ret tt) ;;;
  n <-- num_region ;;
  lift (rem_nat (Z.to_nat (Z.land (wrap32 hash) 0xffff)) n).

(** [while !too_big || !too_small] *)
Fixpoint increment_loop (fuel : nat) (region max : Z) (too_big too_small : bool) (new_offset : Z)
    : outcome (option Z) :=
  match fuel with
  | O => Diverge
  | S fuel =>
    if too_big && too_small then Ret None
    else
      let new_offset :=
        if new_offset =? 0 then 1
        else if 0 <? new_offset then - new_offset
        else - new_offset + 1 in
      if max <? region + new_offset then increment_loop fuel region max true too_small new_offset
      else if region + new_offset <? 0 then increment_loop fuel region max too_big true new_offset
      else Ret (Some new_offset)
  end.

Definition increment_region_offset (region : nat) (region_offset : Z) : M KV (option Z) :=
  n <-- num_region ;;
  max <-- lift (sub_nat n 1) ;;
  lift (increment_loop (2 * n + 3) (Z.of_nat region) (Z.of_nat max) false false region_offset).

(** [(region as isize + region_offset) as usize] *)
Definition region_at (region : nat) (region_offset : Z) : nat := Z.to_nat (Z.of_nat region + region_offset).

(** * Objects in a region *)

(** The total length of the entry at [offset]. *)
Definition entry_length (b1 b2 : Z) : nat := Z.to_nat (Z.lor (Z.shiftl (Z.land b1 0x0f) 8) b2).

(** [data[offset + HASH_OFFSET + i] == hash[7 - i]] for [i] from 0 to 7: [Some] of
    the comparison, [None] when a byte is out of range.  The comparison stops at the
    first difference. *)
Fixpoint same_bytes (region_data : list Z) (offset : nat) (expected : list Z) : option bool :=
  match expected with
  | [] => Some true
  | e :: expected =>
    b ← region_data !! offset;
    if b =? e then same_bytes region_data (S offset) expected else Some false
  end.
Definition hash_bytes (hash : Z) : list Z := rev (to_le_bytes 8 hash).

(** The result of [find_key_offset]. *)
Definition Found : Type := result (nat * nat) (bool * ErrorCode).

Fixpoint find_key_loop (fuel : nat) (hash : Z) (region_data : list Z) (offset : nat) (empty : bool)
    : outcome Found :=
  match fuel with
  | O => Diverge
  | S fuel =>
    if (SIZE <=? offset + HEADER_LENGTH)%nat then Ret (Err (false, KeyNotFound))
    else
      match region_data !! (offset + VERSION_OFFSET)%nat with
      | None => Ret (Err (false, KeyNotFound))
      | Some v =>
        if negb (v =? 0xff) then
          if negb (v =? VERSION) then Ret (Err (false, UnsupportedVersion))
          else
            match region_data !! (offset + LEN_OFFSET)%nat, region_data !! (offset + LEN_OFFSET + 1)%nat with
            | Some b1, Some b2 =>
              let total_length := entry_length b1 b2 in
              if (total_length =? 0)%nat then Ret (Err (false, KeyNotFound))
              else if negb (Z.land b1 0x80 =? 0x80) then
                find_key_loop fuel hash region_data (offset + total_length) false
              else
                match same_bytes region_data (offset + HASH_OFFSET) (hash_bytes hash) with
                | None => Ret (Err (false, CorruptData))
                | Some false => find_key_loop fuel hash region_data (offset + total_length) false
                | Some true => Ret (Ok (offset, total_length))
                end
            | _, _ => Ret (Err (false, CorruptData))
            end
        else Ret (Err (negb empty, KeyNotFound))
      end
  end.
Definition find_key_offset (hash : Z) (region_data : list Z) : outcome Found :=
  find_key_loop (SIZE + 1) hash region_data 0 true.

(** Overwriting part of a slice: [get_mut(a..b)] and [copy_from_slice]. *)
Definition overwrite (l : list Z) (a : nat) (bs : list Z) : option (list Z) :=
  if (a + length bs <=? length l)%nat then Some (take a l ++ bs ++ drop (a + length bs) l) else None.

(** The bytes of a header. *)
Definition header_bytes (h : ObjectHeader) : list Z :=
  [version h;
   Z.lor (Z.land (Z.land (Z.shiftr (len h) 8) 0xff) 0x0f) (Z.land (Z.land (Z.shiftl (flags h) 4) 0xff) 0xf0);
   Z.land (len h) 0xff]
  ++ hash_bytes (hashed_key h).

(** * Appending *)

(** What the inner loop of [append_key] finds: no room, or a free place. *)
Inductive Place := NoRoom | Free (offset : nat).

Fixpoint find_place (fuel : nat) (package_length : nat) (region_data : list Z) (offset : nat)
    : M KV Place :=
  match fuel with
  | O => fun _ => Diverge
  | S fuel =>
    if (SIZE <=? offset + package_length)%nat then
      replace_buffer region_data ;;; mret NoRoom
    else
      v <-- ok_or_ (region_data !! (offset + VERSION_OFFSET)%nat) KeyNotFound ;;
      if negb (v =? 0xff) then
        if negb (v =? VERSION) then replace_buffer region_data ;;; fail UnsupportedVersion
        else
          b1 <-- ok_or_ (region_data !! (offset + LEN_OFFSET)%nat) CorruptData ;;
          b2 <-- ok_or_ (region_data !! (offset + LEN_OFFSET + 1)%nat) CorruptData ;;
          find_place fuel package_length region_data (offset + entry_length b1 b2)
      else mret (Free offset)
  end.

(** [if data[offset + HASH_OFFSET + i] != 0xFF { .. return Err(CorruptData) }] for
    [i] from 0 to 7. *)
Fixpoint check_blank (region_data : list Z) (offsets : list nat) : M KV unit :=
  match offsets with
  | [] => mret tt
  | o :: offsets =>
    b <-- ok_or_ (region_data !! o) CorruptData ;;
    if negb (b =? 0xff) then replace_buffer region_data ;;; fail CorruptData
    else check_blank region_data offsets
  end.

(** Writing the object at a free place. *)
Definition write_object (header : ObjectHeader) (value : list Z) (region_data : list Z)
    (new_region offset : nat) : M KV SuccessCode :=
  let package_length := (HEADER_LENGTH + length value)%nat in
  check_blank region_data (map (fun i => offset + HASH_OFFSET + i)%nat (seq 0 8)) ;;;
  region_data <-- ok_or_ (overwrite region_data offset (header_bytes header)) RegionFull ;;
  head <-- ok_or_ (get region_data (offset + VERSION_OFFSET) (offset + HASH_OFFSET + 8)) CorruptData ;;
  let check_sum := Crc32.update Crc32.init head in
  region_data <-- ok_or_ (overwrite region_data (offset + HEADER_LENGTH) value) ObjectTooLarge ;;
  let check_sum := Crc32.finalise (Crc32.update check_sum value) in
  region_data <-- ok_or_ (overwrite region_data (offset + package_length) (to_le_bytes 4 check_sum))
                    ObjectTooLarge ;;
  data <-- ok_or_ (get region_data offset (offset + package_length + CHECK_SUM_LEN)) ObjectTooLarge ;;
  r <-- write_ (SIZE * new_region + offset) data ;;
  replace_buffer region_data ;;;
  match r with
  | Err (WriteNotReady _) => mret Queued
  | Err e => fail e
  | Ok _ => mret Written
  end.

(** The region to look at, from the state. *)
Definition append_region (st : State) (region : nat) (region_offset : Z) : outcome nat :=
  match st with
  | NoState => Ret (region_at region region_offset)
  | Init (AppendKeyReadRegion reg) => Ret reg
  | Init _ => Ret (region_at region region_offset)
  | AppendKey (ReadRegion reg) => Ret reg
  | _ => Panic
  end.

(** Read a region unless it is in the buffer already ([ready]). *)
Definition load (ready : bool) (not_ready : nat -> State) (reg : nat) : M KV (list Z) :=
  region_data <-- take_buffer ;;
  if ready then mret region_data
  else
    '(r, region_data) <-- read reg region_data ;;
    match r with
    | Ok _ => mret region_data
    | Err e =>
      replace_buffer region_data ;;;
      (match e with ReadNotReady reg => set_state (not_ready reg) | _ => mret tt end) ;;;
      fail e
    end.

(** [self.increment_region_offset(..)] and what follows: the next offset, or the
    error. *)
Definition next_region (region new_region : nat) (e : ErrorCode) : M KV Z :=
  o <-- increment_region_offset region (Z.of_nat new_region - Z.of_nat region) ;;
  match o with
  | Some o => set_state NoState ;;; mret o
  | None => fail e
  end.

Fixpoint append_loop (fuel : nat) (hash : Z) (value : list Z) (header : ObjectHeader) (region : nat)
    (region_offset : Z) : M KV SuccessCode :=
  match fuel with
  | O => fun _ => Diverge
  | S fuel =>
    st <-- get_state ;;
    new_region <-- lift (append_region st region region_offset) ;;
    region_data <-- load (bool_decide (st = AppendKey (ReadRegion new_region))
                          || bool_decide (st = Init (AppendKeyReadRegion new_region)))
                      (fun reg => AppendKey (ReadRegion reg)) new_region ;;
    found <-- lift (find_key_offset hash region_data) ;;
    match found with
    | Ok _ => replace_buffer region_data ;;; fail KeyAlreadyExists
    | Err _ =>
      place <-- find_place (SIZE + 1) (HEADER_LENGTH + length value) region_data 0 ;;
      match place with
      | NoRoom =>
        o <-- next_region region new_region FlashFull ;;
        append_loop fuel hash value header region o
      | Free offset => write_object header value region_data new_region offset
      end
    end
  end.

Definition fuel_regions (s : KV) : nat := 2 * (flash_size s / SIZE) + 2.

Definition append_key (hash : Z) (value : list Z) : M KV SuccessCode :=
  region <-- get_region hash ;;
  let object_length := (HEADER_LENGTH + length value + CHECK_SUM_LEN)%nat in
  if (0xfff <? object_length)%nat then fail ObjectTooLarge
  else
    header <-- lift (header_new hash (Z.of_nat object_length)) ;;
    fun s => append_loop (fuel_regions s) hash value header region 0 s.

(** * Reading *)

(** [get_key] also fills the buffer of the caller. *)
Definition on_kv {A} (m : M KV A) : M (KV * list Z) A := fun '(s, buf) =>
  let! '(r, s) := m s in Ret (r, (s, buf)).
Definition get_buf : M (KV * list Z) (list Z) := fun s => Ret (Ok s.2, s).
Definition set_buf (i : nat) (b : Z) (e : ErrorCode) : M (KV * list Z) unit := fun '(s, buf) =>
  if (i <? length buf)%nat then Ret (Ok tt, (s, <[i := b]> buf)) else Ret (Err e, (s, buf)).

Definition get_region_of (st : State) (region : nat) (region_offset : Z) : outcome nat :=
  match st with
  | NoState => Ret (region_at region region_offset)
  | Init (GetKeyReadRegion reg) => Ret reg
  | Init _ => Ret (region_at region region_offset)
  | GetKey (ReadRegion reg) => Ret reg
  | _ => Panic
  end.

(** [for i in ..]: copy bytes of the value. *)
Fixpoint copy_loop (is_ : list nat) (region_data : list Z) (start : nat) (e_buf e_data : ErrorCode)
    : M (KV * list Z) unit :=
  match is_ with
  | [] => mret tt
  | i :: is_ =>
    b <-- ok_or_ (region_data !! (start + i)%nat) e_data ;;
    set_buf i b e_buf ;;;
    copy_loop is_ region_data start e_buf e_data
  end.
Fixpoint copy_check_loop (is_ : list nat) (region_data : list Z) (start : nat) (e_buf : ErrorCode)
    (check_sum : Z) : M (KV * list Z) Z :=
  match is_ with
  | [] => mret check_sum
  | i :: is_ =>
    b <-- ok_or_ (region_data !! (start + i)%nat) CorruptData ;;
    set_buf i b e_buf ;;;
    buf <-- get_buf ;;
    b <-- ok_or_ (buf !! i) CorruptData ;;
    copy_check_loop is_ region_data start e_buf (Crc32.update check_sum [b])
  end.

(** The checksum against the last four bytes of the entry, from the end. *)
Fixpoint check_sum_differs (bs : list (Z * nat)) (region_data : list Z) : M KV bool :=
  match bs with
  | [] => mret false
  | (c, at_) :: bs =>
    b <-- ok_or_ (region_data !! at_) InvalidCheckSum ;;
    if negb (c =? b) then mret true else check_sum_differs bs region_data
  end.

Definition read_value (region_data : list Z) (offset total_length : nat)
    : M (KV * list Z) (SuccessCode * nat) :=
  head <-- ok_or_ (get region_data offset (HEADER_LENGTH + offset)) ObjectTooLarge ;;
  let check_sum := Crc32.update Crc32.init head in
  value_length <-- lift (let! l := sub_nat total_length HEADER_LENGTH in sub_nat l CHECK_SUM_LEN) ;;
  buf <-- get_buf ;;
  if (length buf <? value_length)%nat then
    copy_loop (seq 0 (length buf)) region_data (offset + HEADER_LENGTH)
      (BufferTooSmall value_length) (BufferTooSmall value_length) ;;;
    on_kv (replace_buffer region_data) ;;;
    fail (BufferTooSmall value_length)
  else
    check_sum <-- copy_check_loop (seq 0 value_length) region_data (offset + HEADER_LENGTH)
                    (BufferTooSmall value_length) check_sum ;;
    let check_sum := rev (to_le_bytes 4 (Crc32.finalise check_sum)) in
    differs <-- on_kv (check_sum_differs
                  (zip check_sum (map (fun i => offset + total_length - i)%nat [1; 2; 3; 4]%nat))
                  region_data) ;;
    if (differs : bool) then
      on_kv (replace_buffer region_data) ;;; fail InvalidCheckSum
    else
      on_kv (replace_buffer region_data) ;;; mret (Complete, value_length).

Fixpoint get_loop (fuel : nat) (hash : Z) (region : nat) (region_offset : Z)
    : M (KV * list Z) (SuccessCode * nat) :=
  match fuel with
  | O => fun _ => Diverge
  | S fuel =>
    st <-- on_kv get_state ;;
    new_region <-- lift (get_region_of st region region_offset) ;;
    region_data <-- on_kv (load (bool_decide (st = GetKey (ReadRegion new_region))
                                 || bool_decide (st = Init (GetKeyReadRegion new_region)))
                             (fun reg => GetKey (ReadRegion reg)) new_region) ;;
    found <-- lift (find_key_offset hash region_data) ;;
    match found with
    | Ok (offset, total_length) => read_value region_data offset total_length
    | Err (cont, e) =>
      on_kv (replace_buffer region_data) ;;;
      if (cont : bool) then
        o <-- on_kv (next_region region new_region e) ;;
        get_loop fuel hash region o
      else fail e
    end
  end.

Definition get_key (hash : Z) : M (KV * list Z) (SuccessCode * nat) :=
  region <-- on_kv (get_region hash) ;;
  fun s => get_loop (fuel_regions s.1) hash region 0 s.

(** * Deleting *)

(** The loop of [invalidate_key] and [zeroise_key], which differ in the state they
    use and in what they do with the entry. *)
Fixpoint delete_loop (fuel : nat) (in_state : KeyState -> State)
    (delete : list Z -> nat -> nat -> nat -> M KV SuccessCode) (hash : Z) (region : nat)
    (region_offset : Z) : M KV SuccessCode :=
  match fuel with
  | O => fun _ => Diverge
  | S fuel =>
    st <-- get_state ;;
    new_region <--
      (if decide (st = NoState) then mret (region_at region region_offset)
       else
         match st with
         | InvalidateKey (ReadRegion reg) | ZeroiseKey (ReadRegion reg) =>
           lift (if decide (st = in_state (ReadRegion reg)) then Ret reg else Panic)
         | _ => lift Panic
         end) ;;
    region_data <-- load (bool_decide (st = in_state (ReadRegion new_region)))
                      (fun reg => in_state (ReadRegion reg)) new_region ;;
    found <-- lift (find_key_offset hash region_data) ;;
    match found with
    | Ok (offset, total_length) => delete region_data new_region offset total_length
    | Err (cont, e) =>
      replace_buffer region_data ;;;
      if (cont : bool) then
        o <-- next_region region new_region e ;;
        delete_loop fuel in_state delete hash region o
      else fail e
    end
  end.

(** [*data.get_mut(offset + LEN_OFFSET)? &= !0x80] *)
Definition clear_valid (region_data : list Z) (offset : nat) : M KV (list Z) :=
  b <-- ok_or_ (region_data !! (offset + LEN_OFFSET)%nat) CorruptData ;;
  mret (<[(offset + LEN_OFFSET)%nat := Z.land b 0x7f]> region_data).

Definition write_back (region_data : list Z) (addr : nat) (data : list Z) : M KV SuccessCode :=
  r <-- write_ addr data ;;
  replace_buffer region_data ;;;
  match r with
  | Err (WriteNotReady _) => mret Queued
  | Err e => fail e
  | Ok _ => mret Written
  end.

Definition invalidate_entry (region_data : list Z) (new_region offset total_length : nat) : M KV SuccessCode :=
  region_data <-- clear_valid region_data offset ;;
  data <-- ok_or_ (get region_data (offset + LEN_OFFSET) (offset + LEN_OFFSET + 1)) ObjectTooLarge ;;
  write_back region_data (SIZE * new_region + offset + LEN_OFFSET) data.

(** [for i in HEADER_LENGTH..(data_len as usize + HEADER_LENGTH)] *)
Fixpoint zero_loop (is_ : list nat) (region_data : list Z) : M KV (list Z) :=
  match is_ with
  | [] => mret region_data
  | i :: is_ =>
    _ <-- ok_or_ (region_data !! i) RegionFull ;;
    zero_loop is_ (<[i := 0]> region_data)
  end.
Definition zeroise_entry (region_data : list Z) (new_region offset data_len : nat) : M KV SuccessCode :=
  region_data <-- clear_valid region_data offset ;;
  region_data <-- zero_loop (map (fun i => offset + i)%nat (seq HEADER_LENGTH data_len)) region_data ;;
  data <-- ok_or_ (get region_data offset (offset + data_len)) ObjectTooLarge ;;
  write_back region_data (SIZE * new_region + offset) data.

Definition invalidate_key (hash : Z) : M KV SuccessCode :=
  region <-- get_region hash ;;
  fun s => delete_loop (fuel_regions s) InvalidateKey invalidate_entry hash region 0 s.
Definition zeroise_key (hash : Z) : M KV SuccessCode :=
  region <-- get_region hash ;;
  fun s => delete_loop (fuel_regions s) ZeroiseKey zeroise_entry hash region 0 s.

(** * Garbage collection *)

(** Is the region to be erased?  The buffer is back in place, unless a byte was out
    of range. *)
Fixpoint rubbish_loop (fuel : nat) (region_data : list Z) (offset : nat) (entry_found : bool)
    : M KV bool :=
  match fuel with
  | O => fun _ => Diverge
  | S fuel =>
    if (SIZE <=? offset)%nat then replace_buffer region_data ;;; mret true
    else
      v <-- ok_or_ (region_data !! (offset + VERSION_OFFSET)%nat) KeyNotFound ;;
      if negb (v =? 0xff) then
        if negb (v =? VERSION) then replace_buffer region_data ;;; fail UnsupportedVersion
        else
          b1 <-- ok_or_ (region_data !! (offset + LEN_OFFSET)%nat) CorruptData ;;
          b2 <-- ok_or_ (region_data !! (offset + LEN_OFFSET + 1)%nat) CorruptData ;;
          if negb (Z.land b1 0x80 =? 0x80) then
            rubbish_loop fuel region_data (offset + entry_length b1 b2) true
          else replace_buffer region_data ;;; mret false
      else replace_buffer region_data ;;; mret entry_found
  end.

Definition garbage_collect_region (region flash_freed : nat) : M KV nat :=
  st <-- get_state ;;
  region_data <-- load (bool_decide (st = GarbageCollect (RubbishReadRegion region flash_freed)))
                    (fun reg => GarbageCollect (RubbishReadRegion reg flash_freed)) region ;;
  rubbish <-- rubbish_loop (SIZE + 1) region_data 0 false ;;
  if (rubbish : bool) then
    r <-- erase region ;;
    match r with
    | Err e =>
      (match e with
       | EraseNotReady reg => set_state (GarbageCollect (RubbishEraseRegion reg (flash_freed + SIZE)))
       | _ => mret tt
       end) ;;;
      fail e
    | Ok _ => mret SIZE
    end
  else mret 0%nat.

Fixpoint collect_loop (regions : list nat) (flash_freed : nat) : M KV nat :=
  match regions with
  | [] => mret flash_freed
  | i :: regions =>
    freed <-- garbage_collect_region i flash_freed ;;
    collect_loop regions (flash_freed + freed)
  end.

Definition garbage_collect : M KV nat :=
  n <-- num_region ;;
  st <-- get_state ;;
  '(start, flash_freed) <--
    match st with
    | NoState => mret (0, 0)%nat
    | GarbageCollect (RubbishReadRegion reg ff) => mret (reg, ff)
    | GarbageCollect (RubbishEraseRegion reg ff) => mret (reg + 1, ff)%nat
    | _ => lift Panic
    end ;;
  collect_loop (seq start (n - start)) flash_freed.

(** * Initialisation *)

Fixpoint erase_loop (regions : list nat) : M KV unit :=
  match regions with
  | [] => mret tt
  | r :: regions =>
    e <-- erase r ;;
    match e with
    | Ok _ => erase_loop regions
    | Err e => set_state (Init (EraseRegion r)) ;;; fail e
    end
  end.

(** [self.get_key(hashed_main_key, &mut buf)] with an empty buffer. *)
Definition get_main_key (hashed_main_key : Z) : M KV (SuccessCode * nat) := fun s =>
  let! '(r, (s, _)) := get_key hashed_main_key (s, []) in Ret (r, s).

Definition erase_all : M KV unit :=
  n <-- num_region ;;
  st <-- get_state ;;
  let start := match st with Init (EraseRegion reg) => (reg + 1)%nat | _ => 0%nat end in
  erase_loop (seq start (n - start)) ;;;
  set_state (Init EraseComplete).

(** What [initialise] does when the main key is not there. *)
Definition set_up (hashed_main_key : Z) : M KV SuccessCode :=
  st <-- get_state ;;
  (match st with
   | NoState | Init (GetKeyReadRegion _) | Init (EraseRegion _) => erase_all
   | _ => mret tt
   end) ;;;
  r <-- catch (append_key hashed_main_key []) ;;
  match r with
  | Ok ret => set_state NoState ;;; mret ret
  | Err (ReadNotReady reg) =>
    set_state (Init (AppendKeyReadRegion reg)) ;;; fail (ReadNotReady reg)
  | Err (WriteNotReady _) => set_state NoState ;;; mret Queued
  | Err e => fail e
  end.

Definition initialise (hashed_main_key : Z) : M KV SuccessCode :=
  st <-- get_state ;;
  key_ret <--
    match st with
    | NoState => catch (get_main_key hashed_main_key)
    | Init (GetKeyReadRegion _) => catch (get_main_key hashed_main_key)
    | Init _ => mret (Err (EraseNotReady 0))
    | _ => lift Panic
    end ;;
  match key_ret with
  | Ok (ret, _) => mret ret
  | Err (ReadNotReady reg) =>
    set_state (Init (GetKeyReadRegion reg)) ;;; fail (ReadNotReady reg)
  | Err e => set_up hashed_main_key
  end.

End tickv.
End TicKV.
