(* ===== verification/TicKVObjects.v ===== *)
(** Objects of the key-value store, module [TicKVObjects]: what a region holds as a
    list of objects, the bytes the source keeps for them, and what the scans of
    [TicKV] over those bytes find: the first valid object of a key, the end of the
    used part, whether anything valid is left. *)

From stdpp Require Import base numbers list.
From S2P Require Import Prelude Crc32 TicKV.
Local Open Scope Z_scope.

Module TicKVObjects.
Import TicKV.

(** * Lists *)

Lemma lookup_app_add {A} (pre l : list A) i : (pre ++ l) !! (length pre + i)%nat = l !! i.
Proof. rewrite lookup_app_r by lia. f_equal. lia. Qed.
Lemma lookup_app_0 {A} (pre l : list A) : (pre ++ l) !! length pre = l !! 0%nat.
Proof. rewrite <- (lookup_app_add pre l 0). f_equal. lia. Qed.

Lemma get_middle {A} (pre l post : list A) a b :
  a = length pre -> b = (length pre + length l)%nat -> get (pre ++ l ++ post) a b = Some l.
Proof.
  intros -> ->. apply get_Some. rewrite !length_app. split; [lia|].
  rewrite drop_app_length. replace (_ - _)%nat with (length l) by lia. by rewrite take_app_length.
Qed.

Lemma overwrite_middle (pre old bs post : list Z) a :
  a = length pre -> length bs = length old ->
  overwrite (pre ++ old ++ post) a bs = Some (pre ++ bs ++ post).
Proof.
  intros -> Hl. unfold overwrite. rewrite !length_app.
  destruct (Nat.leb_spec (length pre + length bs) (length pre + (length old + length post))); [|lia].
  rewrite take_app_length. do 3 f_equal. rewrite Hl, <- length_app, app_assoc. apply drop_app_length.
Qed.

Lemma insert_middle (pre post : list Z) x y i :
  i = length pre -> <[i := y]> (pre ++ x :: post) = pre ++ y :: post.
Proof. intros ->. rewrite <- (Nat.add_0_r (length pre)). by rewrite insert_app_r. Qed.

(** * Objects *)

Record obj := mkObj { o_hash : Z; o_valid : bool; o_value : list Z; o_sum : list Z }.
#[export] Instance obj_eq_dec : EqDecision obj.
Proof. solve_decision. Defined.

Definition o_len (o : obj) : nat := (HEADER_LENGTH + length (o_value o) + length (o_sum o))%nat.
Definition len_byte (valid : bool) (n : Z) : Z :=
  Z.lor (Z.land (Z.land (Z.shiftr n 8) 0xff) 0x0f) (if valid then 0x80 else 0).
Definition o_head (o : obj) : list Z :=
  [VERSION; len_byte (o_valid o) (Z.of_nat (o_len o)); Z.land (Z.of_nat (o_len o)) 0xff]
  ++ hash_bytes (o_hash o).
Definition encode (o : obj) : list Z := o_head o ++ o_value o ++ o_sum o.
Definition sum_of (o : obj) : list Z := to_le_bytes 4 (Crc32.checksum (o_head o ++ o_value o)).

Definition obj_ok (o : obj) : Prop :=
  u64_range (o_hash o) /\ bytes_ok (o_value o) /\ bytes_ok (o_sum o) /\ length (o_sum o) = CHECK_SUM_LEN /\
  (o_len o < 0xfff)%nat /\ (o_valid o = true -> o_sum o = sum_of o).

(** A new object, valid and with its checksum. *)
Definition fresh_obj (h : Z) (value : list Z) : obj :=
  let o := mkObj h true value [0; 0; 0; 0] in mkObj h true value (sum_of o).

Definition used (os : list obj) : nat := sum_list (map o_len os).
Definition encode_objs (os : list obj) : list Z := concat (map encode os).

(** * Lengths *)

Lemma hash_bytes_length h : length (hash_bytes h) = 8%nat.
Proof. unfold hash_bytes. by rewrite length_rev, to_le_bytes_length. Qed.
Lemma o_head_length o : length (o_head o) = HEADER_LENGTH.
Proof. unfold o_head. by rewrite length_app, hash_bytes_length. Qed.
Lemma encode_length o : length (encode o) = o_len o.
Proof. unfold encode, o_len. rewrite !length_app, o_head_length. lia. Qed.
Lemma used_cons o os : used (o :: os) = (o_len o + used os)%nat.
Proof. done. Qed.
Lemma used_app a b : used (a ++ b) = (used a + used b)%nat.
Proof. induction a as [|o a IH]; [done|]. cbn [app]. rewrite !used_cons, IH. lia. Qed.
Lemma encode_objs_length os : length (encode_objs os) = used os.
Proof.
  induction os as [|o os IH]; [done|]. unfold encode_objs in *. cbn [map concat].
  by rewrite length_app, encode_length, IH.
Qed.
Lemma encode_objs_cons o os : encode_objs (o :: os) = encode o ++ encode_objs os.
Proof. done. Qed.
Lemma encode_objs_app a b : encode_objs (a ++ b) = encode_objs a ++ encode_objs b.
Proof. unfold encode_objs. by rewrite map_app, concat_app. Qed.

Lemma obj_len o : obj_ok o -> o_len o = (15 + length (o_value o))%nat.
Proof. intros (_ & _ & _ & Hs & _). unfold o_len. rewrite Hs. unfold HEADER_LENGTH, HASH_OFFSET, CHECK_SUM_LEN. lia. Qed.

Lemma fresh_obj_ok h value :
  u64_range h -> bytes_ok value -> (HEADER_LENGTH + length value + CHECK_SUM_LEN < 0xfff)%nat ->
  obj_ok (fresh_obj h value) /\
  o_len (fresh_obj h value) = (HEADER_LENGTH + length value + CHECK_SUM_LEN)%nat.
Proof.
  intros Hh Hv Hl. assert (Hlen : o_len (fresh_obj h value) = (HEADER_LENGTH + length value + CHECK_SUM_LEN)%nat).
  { unfold o_len, fresh_obj, sum_of. cbn [o_value o_sum]. by rewrite to_le_bytes_length. }
  split; [|done]. repeat split; cbn [o_hash o_value o_sum fresh_obj]; try done; try apply Hh.
  apply to_le_bytes_ok.
Qed.

(** * The header *)

(** The byte with the valid bit and the high bits of the length, by evaluation. *)
Definition len_byte_check (n : nat) : bool :=
  let z := Z.of_nat n in
  let low := Z.land z 0xff in
  let on := len_byte true z in
  let off := len_byte false z in
  (entry_length on low =? n)%nat && (entry_length off low =? n)%nat &&
  (Z.land on 0x80 =? 0x80) && negb (Z.land off 0x80 =? 0x80) && (Z.land on 0x7f =? off) &&
  (Z.land on off =? off) && (0 <=? on) && (on <? 256) && (0 <=? off) && (off <? 256) && (0 <=? low) && (low <? 256).
Lemma len_byte_table : forallb len_byte_check (seq 0 4096) = true.
Proof. vm_compute. reflexivity. Qed.

Section len_byte.
  Context (n : nat) (Hn : (n < 4096)%nat).
Let z := Z.of_nat n.

Lemma len_byte_checked : len_byte_check n = true.
Proof using Hn.
  eapply forallb_forall; [apply len_byte_table|]. apply in_seq. change (0 + 4096)%nat with 4096%nat. lia.
Qed.

Lemma len_byte_spec :
  (forall v, entry_length (len_byte v z) (Z.land z 0xff) = n) /\
  (forall v, (Z.land (len_byte v z) 0x80 =? 0x80) = v) /\
  Z.land (len_byte true z) 0x7f = len_byte false z /\
  Z.land (len_byte true z) (len_byte false z) = len_byte false z /\
  (forall v, u8_range (len_byte v z)) /\ u8_range (Z.land z 0xff).
Proof using Hn.
  pose proof len_byte_checked as H. unfold len_byte_check in H. fold z in H.
  rewrite !andb_true_iff, !Nat.eqb_eq, !Z.eqb_eq, negb_true_iff, !Z.leb_le, !Z.ltb_lt in H.
  destruct H as (((((((((((H1 & H2) & H3) & H4) & H5) & H6) & H7) & H8) & H9) & H10) & H11) & H12).
  unfold u8_range, U8. split_and!; try done; intros [|]; try done. by apply Z.eqb_eq.
Qed.
End len_byte.

Lemma hash_bytes_ok h : bytes_ok (hash_bytes h).
Proof. unfold hash_bytes. apply Forall_rev, to_le_bytes_ok. Qed.
Lemma hash_bytes_inj a b : u64_range a -> u64_range b -> hash_bytes a = hash_bytes b -> a = b.
Proof.
  intros Ha Hb H. apply (f_equal (@rev Z)) in H. unfold hash_bytes in H. rewrite !rev_involutive in H.
  apply (f_equal from_le_bytes) in H. by rewrite !from_to_le_bytes in H.
Qed.

(** The four parts of an object that the scans look at. *)
Lemma encode_split o : encode o =
  VERSION :: len_byte (o_valid o) (Z.of_nat (o_len o)) :: Z.land (Z.of_nat (o_len o)) 0xff ::
  hash_bytes (o_hash o) ++ o_value o ++ o_sum o.
Proof. unfold encode, o_head. by rewrite <- app_assoc. Qed.

Lemma obj_len_byte o : obj_ok o -> let n := Z.of_nat (o_len o) in
  entry_length (len_byte (o_valid o) n) (Z.land n 0xff) = o_len o /\
  (Z.land (len_byte (o_valid o) n) 0x80 =? 0x80) = o_valid o.
Proof.
  intros (_ & _ & _ & _ & Hl & _). destruct (len_byte_spec (o_len o) ltac:(lia)) as (H1 & H2 & _). done.
Qed.

Lemma encode_bytes_ok o : obj_ok o -> bytes_ok (encode o).
Proof.
  intros (_ & Hv & Hs & _ & Hl & _). destruct (len_byte_spec (o_len o) ltac:(lia)) as (_ & _ & _ & _ & H1 & H2).
  rewrite encode_split. repeat (constructor; [done|]).
  apply Forall_app_2; [apply hash_bytes_ok|by apply Forall_app_2].
Qed.

Lemma header_of_fresh h value n : (n < 0xfff)%nat -> o_len (fresh_obj h value) = n ->
  header_bytes (mkHeader VERSION FLAGS_VALID (Z.of_nat n) h) = o_head (fresh_obj h value).
Proof. intros _ <-. unfold header_bytes, o_head. reflexivity. Qed.

Lemma same_bytes_eq (pre l post e : list Z) : length l = length e ->
  same_bytes (pre ++ l ++ post) (length pre) e = Some (bool_decide (l = e)).
Proof.
  revert pre e. induction l as [|x l IH]; intros pre [|y e] Hl; try done.
  cbn [same_bytes]. rewrite lookup_app_0. cbn [app lookup list_lookup mbind option_bind].
  destruct (Z.eqb_spec x y) as [->|Hne].
  - specialize (IH (pre ++ [y]) e ltac:(by injection Hl)). rewrite <- app_assoc, length_app, Nat.add_1_r in IH.
    cbn [app] in IH. rewrite IH. f_equal. apply bool_decide_ext. split; [by intros ->|by injection 1].
  - rewrite bool_decide_eq_false_2; [done|]. by injection 1.
Qed.

(** * Scans *)

Definition matches (h : Z) (o : obj) : Prop := o_valid o = true /\ o_hash o = h.
#[export] Instance matches_dec h o : Decision (matches h o).
Proof. apply _. Defined.
Definition locate (h : Z) (os : list obj) : option (nat * obj) := list_find (matches h) os.
Definition blank (k : nat) : list Z := replicate k 0xff.
Definition is_empty (os : list obj) : bool := match os with [] => true | _ => false end.

Lemma locate_cons h o os : locate h (o :: os) =
  if decide (matches h o) then Some (0%nat, o) else prod_map S id <$> locate h os.
Proof. done. Qed.

Lemma bind_ok {St A B} (m : M St A) (f : A -> M St B) s a s' :
  m s = Ret (Ok a, s') -> mbind_ m f s = f a s'.
Proof. intros H. unfold mbind_. by rewrite H. Qed.
Lemma bind_err {St A B} (m : M St A) (f : A -> M St B) s e s' :
  m s = Ret (Err e, s') -> mbind_ m f s = Ret (Err e, s').
Proof. intros H. unfold mbind_. by rewrite H. Qed.

(** Runs the monad as far as it goes. *)
Ltac msimp := cbn [negb obind mbind_ mret fail ok_or_ lift catch].
Ltac csimpl_loc := cbn [fmap option_fmap option_map prod_map fst snd take id].

(** Stepping over one object. *)
Lemma entry_fields pre o post : obj_ok o ->
  let data := pre ++ encode o ++ post in let n := Z.of_nat (o_len o) in let off := length pre in
  data !! (off + VERSION_OFFSET)%nat = Some VERSION /\
  data !! (off + LEN_OFFSET)%nat = Some (len_byte (o_valid o) n) /\
  data !! (off + LEN_OFFSET + 1)%nat = Some (Z.land n 0xff) /\
  (forall h, u64_range h -> same_bytes data (off + HASH_OFFSET) (hash_bytes h) = Some (bool_decide (o_hash o = h))).
Proof.
  intros Hok data n off. subst data off. rewrite encode_split.
  rewrite <- Nat.add_assoc, !lookup_app_add. split_and!; try done. intros h Hh.
  rewrite <- !app_comm_cons, <- app_assoc.
  set (l := VERSION :: _). change l with ([VERSION; len_byte (o_valid o) n; Z.land n 0xff] ++
    hash_bytes (o_hash o) ++ (o_value o ++ o_sum o) ++ post).
  rewrite app_assoc. replace (length pre + HASH_OFFSET)%nat
    with (length (pre ++ [VERSION; len_byte (o_valid o) n; Z.land n 0xff])) by (by rewrite length_app).
  rewrite same_bytes_eq by (by rewrite !hash_bytes_length). f_equal. apply bool_decide_ext.
  split; [|by intros ->]. apply hash_bytes_inj; [apply Hok|done].
Qed.

Lemma step_data (pre : list Z) o rest k :
  pre ++ encode_objs (o :: rest) ++ blank k = (pre ++ encode o) ++ encode_objs rest ++ blank k.
Proof. by rewrite encode_objs_cons, <- !app_assoc. Qed.
Lemma step_length (pre : list Z) o : length (pre ++ encode o) = (length pre + o_len o)%nat.
Proof. by rewrite length_app, encode_length. Qed.

Section scans.
  Context (SIZE : nat).

(** Can the search go on after this region?  The scan stops at an empty region and
    where no header fits after the last object. *)
Definition passable (os : list obj) : bool := negb (is_empty os) && (used os + HEADER_LENGTH <? SIZE)%nat.

Lemma find_key_encoded h rest : u64_range h -> Forall obj_ok rest -> forall fuel pre k empty,
  (length rest < fuel)%nat -> (length pre + used rest + k = SIZE)%nat ->
  find_key_loop SIZE fuel h (pre ++ encode_objs rest ++ blank k) (length pre) empty =
  Ret (match locate h rest with
       | Some (i, o) => Ok ((length pre + used (take i rest))%nat, o_len o)
       | None => Err (negb (empty && is_empty rest) && (length pre + used rest + HEADER_LENGTH <? SIZE)%nat, KeyNotFound)
       end).
Proof.
  intros Hh Hok. induction Hok as [|o rest Ho Hok IH]; intros fuel pre k empty Hf Hs;
    (destruct fuel as [|fuel]; [cbn in Hf; lia|]); cbn [find_key_loop].
  - change (used []) with 0%nat in *. cbn [locate list_find is_empty]. unfold VERSION_OFFSET.
    rewrite !Nat.add_0_r, andb_true_r in *. 
    destruct (Nat.leb_spec SIZE (length pre + HEADER_LENGTH)), (Nat.ltb_spec (length pre + HEADER_LENGTH) SIZE);
      try lia; [by destruct empty|].
    cbn [encode_objs map concat app]. rewrite lookup_app_0.
    destruct k as [|k]; [unfold HEADER_LENGTH in *; lia|]. by destruct empty.
  - pose proof (obj_len o Ho) as Hl. rewrite used_cons in Hs. cbn in Hf.
    destruct (Nat.leb_spec SIZE (length pre + HEADER_LENGTH)) as [Hle|_]; [unfold HEADER_LENGTH, HASH_OFFSET in Hle; lia|].
    rewrite encode_objs_cons, <- app_assoc.
    destruct (entry_fields pre o (encode_objs rest ++ blank k) Ho) as (E0 & E1 & E2 & E3).
    destruct (obj_len_byte o Ho) as [L1 L2].
    rewrite E0. change (negb (VERSION =? 255)) with true. change (negb (VERSION =? VERSION)) with false. cbn iota.
    rewrite E1, E2, L1, L2, E3 by done. cbn zeta.
    destruct (Nat.eqb_spec (o_len o) 0) as [?|_]; [lia|].
    rewrite (app_assoc pre), <- step_length. rewrite !IH by (try rewrite step_length; lia).
    rewrite locate_cons. rewrite step_length, used_cons. cbn [is_empty]. rewrite andb_false_r. cbn [andb negb].
    destruct (o_valid o) eqn:Ev; cbn [negb].
    + case_bool_decide as Eh.
      * rewrite decide_True by done. cbn [take used map sum_list]. by rewrite Nat.add_0_r.
      * rewrite decide_False by (by intros [_ ?]). destruct (locate h rest) as [ [i o']|]; csimpl_loc.
        -- rewrite used_cons. do 3 f_equal. lia.
        -- do 3 f_equal. by rewrite !Nat.add_assoc.
    + rewrite decide_False by (intros [? _]; congruence). destruct (locate h rest) as [ [i o']|]; csimpl_loc.
      * rewrite used_cons. do 3 f_equal. lia.
      * do 3 f_equal. by rewrite !Nat.add_assoc.
Qed.
Section store.
  Context {F : Type} `{!FlashController F}.
  Notation KV := (TicKV F).

Lemma find_place_encoded p rest : (0 < p)%nat -> Forall obj_ok rest -> forall fuel pre k (s : KV),
  (length rest < fuel)%nat -> (length pre + used rest + k = SIZE)%nat ->
  let data := pre ++ encode_objs rest ++ blank k in
  find_place SIZE fuel p data (length pre) s =
  if (SIZE <=? length pre + used rest + p)%nat then Ret (Ok NoRoom, set_read_buffer_ (Some data) s)
  else Ret (Ok (Free (length pre + used rest)), s).
Proof.
  intros Hp Hok. induction Hok as [|o rest Ho Hok IH]; intros fuel pre k s Hf Hs data; subst data;
    (destruct fuel as [|fuel]; [cbn in Hf; lia|]); cbn [find_place].
  - change (used []) with 0%nat in *. unfold VERSION_OFFSET. rewrite !Nat.add_0_r in *.
    destruct (Nat.leb_spec SIZE (length pre + p)); [done|].
    cbn [encode_objs map concat app]. rewrite lookup_app_0. destruct k as [|k]; [lia|]. done.
  - pose proof (obj_len o Ho) as Hl. rewrite used_cons in *. cbn in Hf.
    destruct (Nat.leb_spec SIZE (length pre + p)).
    { destruct (Nat.leb_spec SIZE (length pre + (o_len o + used rest) + p)); [done|lia]. }
    rewrite encode_objs_cons, <- app_assoc.
    destruct (entry_fields pre o (encode_objs rest ++ blank k) Ho) as (E0 & E1 & E2 & _).
    destruct (obj_len_byte o Ho) as [L1 _].
    rewrite E0. msimp. change (negb (VERSION =? 255)) with true. change (negb (VERSION =? VERSION)) with false. cbn iota.
    rewrite E1. msimp. rewrite E2. msimp. rewrite L1.
    rewrite (app_assoc pre), <- step_length, IH by (try rewrite step_length; lia).
    rewrite step_length, Nat.add_assoc. by rewrite <- !app_assoc.
Qed.

Lemma rubbish_encoded rest : Forall obj_ok rest -> forall fuel pre k ef (s : KV),
  (length rest < fuel)%nat -> (length pre + used rest + k = SIZE)%nat ->
  let data := pre ++ encode_objs rest ++ blank k in
  rubbish_loop SIZE fuel data (length pre) ef s =
  Ret (Ok (forallb (fun o => negb (o_valid o)) rest && (ef || negb (is_empty rest) || (k =? 0)%nat)),
       set_read_buffer_ (Some data) s).
Proof.
  intros Hok. induction Hok as [|o rest Ho Hok IH]; intros fuel pre k ef s Hf Hs data; subst data;
    (destruct fuel as [|fuel]; [cbn in Hf; lia|]); cbn [rubbish_loop].
  - change (used []) with 0%nat in *. unfold VERSION_OFFSET. rewrite !Nat.add_0_r in *. cbn [forallb is_empty negb andb].
    rewrite orb_false_r. destruct (Nat.leb_spec SIZE (length pre)).
    { destruct k; [|lia]. by rewrite orb_true_r. }
    cbn [encode_objs map concat app]. rewrite lookup_app_0. destruct k as [|k]; [lia|]. by rewrite orb_false_r.
  - pose proof (obj_len o Ho) as Hl. rewrite used_cons in *. cbn in Hf.
    destruct (Nat.leb_spec SIZE (length pre)) as [?|_]; [lia|].
    rewrite encode_objs_cons, <- app_assoc.
    destruct (entry_fields pre o (encode_objs rest ++ blank k) Ho) as (E0 & E1 & E2 & _).
    destruct (obj_len_byte o Ho) as [L1 L2].
    rewrite E0. msimp. change (negb (VERSION =? 255)) with true. change (negb (VERSION =? VERSION)) with false. cbn iota.
    rewrite E1. msimp. rewrite E2. msimp. rewrite L1, L2.
    cbn [forallb is_empty negb]. destruct (o_valid o); cbn [negb andb]; [done|].
    rewrite (app_assoc pre), <- step_length, IH by (try rewrite step_length; lia).
    rewrite <- !app_assoc. by rewrite !orb_true_r.
Qed.

Lemma check_blank_ok (pre : list Z) k (s : KV) l : Forall (fun i => length pre <= i < length pre + k)%nat l ->
  check_blank (pre ++ blank k) l s = Ret (Ok tt, s).
Proof.
  induction 1 as [|i l Hi _ IH]; [done|]. cbn [check_blank].
  replace i with (length pre + (i - length pre))%nat by lia. rewrite lookup_app_add.
  unfold blank. rewrite lookup_replicate_2 by lia. msimp. apply IH.
Qed.
Lemma blank_split a k : (a <= k)%nat -> blank k = blank a ++ blank (k - a).
Proof. intros H. unfold blank. rewrite <- replicate_add. f_equal. lia. Qed.
Lemma blank_length k : length (blank k) = k.
Proof. apply length_replicate. Qed.

(** The part of [write_object] that both cases share: the header and the value go
    to the buffer. *)
Lemma write_object_prefix h value pre k reg (s : KV) :
  let o := fresh_obj h value in obj_ok o ->
  (HEADER_LENGTH + length value < k)%nat ->
  let rest := blank (k - (HEADER_LENGTH + length value)) in
  write_object SIZE (mkHeader VERSION FLAGS_VALID (Z.of_nat (o_len o)) h) value (pre ++ blank k) reg (length pre) s =
  mbind_ (ok_or_ (overwrite (pre ++ (o_head o ++ value) ++ rest) (length pre + (HEADER_LENGTH + length value)) (o_sum o))
            ObjectTooLarge)
    (fun region_data =>
       mbind_ (ok_or_ (get region_data (length pre) (length pre + (HEADER_LENGTH + length value) + CHECK_SUM_LEN)) ObjectTooLarge)
         (fun data => write_back region_data (SIZE * reg + length pre) data)) s.
Proof.
  intros o Ho Hk rest. unfold write_object.
  assert (Hn : (o_len o < 0xfff)%nat) by apply Ho.
  unfold mbind_ at 1. rewrite check_blank_ok.
  2:{ apply Forall_forall. intros i Hi. apply list_elem_of_In, in_map_iff in Hi as (j & <- & Hj). apply in_seq in Hj.
      unfold HEADER_LENGTH, HASH_OFFSET in *. lia. }
  cbn [obind]. rewrite (header_of_fresh h value (o_len o) Hn eq_refl).
  rewrite (blank_split HEADER_LENGTH k) by (unfold HEADER_LENGTH in *; lia).
  rewrite overwrite_middle; [|done|by rewrite blank_length; apply o_head_length].
  msimp. rewrite (get_middle pre (o_head (fresh_obj h value)));
    [|unfold VERSION_OFFSET; lia|rewrite o_head_length; unfold HEADER_LENGTH; lia].
  msimp. rewrite (blank_split (length value) (k - HEADER_LENGTH)) by lia.
  rewrite (app_assoc pre). rewrite (overwrite_middle (pre ++ _));
    [|by rewrite length_app, o_head_length|by rewrite blank_length].
  msimp. rewrite <- Crc32.update_app. rewrite <- Nat.sub_add_distr, <- !app_assoc.
  reflexivity.
Qed.

Lemma write_object_room h value pre k reg (s : KV) :
  let o := fresh_obj h value in obj_ok o -> (o_len o <= k)%nat ->
  write_object SIZE (mkHeader VERSION FLAGS_VALID (Z.of_nat (o_len o)) h) value (pre ++ blank k) reg (length pre) s =
  write_back (pre ++ encode o ++ blank (k - o_len o)) (SIZE * reg + length pre) (encode o) s.
Proof.
  intros o Ho Hk. assert (Hs : length (o_sum o) = CHECK_SUM_LEN) by apply Ho.
  assert (Hl : o_len o = (HEADER_LENGTH + length value + CHECK_SUM_LEN)%nat) by (unfold o_len; by rewrite Hs).
  unfold o at 1. rewrite write_object_prefix by (done || (unfold CHECK_SUM_LEN in *; lia)). fold o. cbv zeta.
  rewrite (blank_split CHECK_SUM_LEN) by lia.
  rewrite (app_assoc pre). rewrite overwrite_middle;
    [|by rewrite !length_app, o_head_length|by rewrite Hs, blank_length].
  msimp. rewrite <- (app_assoc pre), (app_assoc _ (o_sum o)).
  replace ((o_head o ++ value) ++ o_sum o) with (encode o) by (by rewrite <- app_assoc).
  rewrite get_middle; [|done|rewrite encode_length, Hl; lia]. msimp.
  do 4 f_equal. lia.
Qed.

Lemma write_object_tight h value pre k reg (s : KV) :
  let o := fresh_obj h value in obj_ok o -> (HEADER_LENGTH + length value < k)%nat -> (k < o_len o)%nat ->
  write_object SIZE (mkHeader VERSION FLAGS_VALID (Z.of_nat (o_len o)) h) value (pre ++ blank k) reg (length pre) s =
  Ret (Err ObjectTooLarge, s).
Proof.
  intros o Ho Hk Hlt. assert (Hs : length (o_sum o) = CHECK_SUM_LEN) by apply Ho.
  assert (Hl : o_len o = (HEADER_LENGTH + length value + CHECK_SUM_LEN)%nat) by (unfold o_len; by rewrite Hs).
  unfold o at 1. rewrite write_object_prefix by done. fold o. cbv zeta. unfold overwrite.
  rewrite !length_app, o_head_length, blank_length, Hs.
  destruct (Nat.leb_spec (length pre + (HEADER_LENGTH + length value) + CHECK_SUM_LEN)
    (length pre + (HEADER_LENGTH + length value + (k - (HEADER_LENGTH + length value))))); [lia|]. done.
Qed.

(** * Reading *)

Lemma copy_loop_ok (vs : list Z) e e' start (s : KV) : forall pre post d old rest,
  length old = length vs -> length pre = (start + length d)%nat ->
  copy_loop (seq (length d) (length vs)) (pre ++ vs ++ post) start e e' (s, d ++ old ++ rest) =
  Ret (Ok tt, (s, d ++ vs ++ rest)).
Proof.
  induction vs as [|v vs IH]; intros pre post d [|x old] rest Ho Hp; try done.
  cbn [length seq copy_loop]. rewrite <- Hp, lookup_app_0. cbn [app lookup list_lookup]. msimp. unfold mbind_ at 1. cbn [set_buf].
  rewrite !length_app. cbn [length]. destruct (Nat.ltb_spec (length d) (length d + S (length (old ++ rest)))); [|lia].
  cbn [obind]. rewrite insert_middle by done.
  specialize (IH (pre ++ [v]) post (d ++ [v]) old rest ltac:(by injection Ho) ltac:(rewrite !length_app; cbn; lia)).
  rewrite <- !app_assoc, (length_app d), Nat.add_1_r in IH. exact IH.
Qed.

Lemma copy_check_loop_ok (vs : list Z) e start (s : KV) : forall pre post d old rest cs,
  length old = length vs -> length pre = (start + length d)%nat ->
  copy_check_loop (seq (length d) (length vs)) (pre ++ vs ++ post) start e cs (s, d ++ old ++ rest) =
  Ret (Ok (Crc32.update cs vs), (s, d ++ vs ++ rest)).
Proof.
  induction vs as [|v vs IH]; intros pre post d [|x old] rest cs Ho Hp; try done.
  cbn [length seq copy_check_loop]. rewrite <- Hp, lookup_app_0. cbn [app lookup list_lookup]. msimp. unfold mbind_ at 1. cbn [set_buf].
  rewrite !length_app. cbn [length]. destruct (Nat.ltb_spec (length d) (length d + S (length (old ++ rest)))); [|lia].
  cbn [obind]. rewrite insert_middle by done. unfold mbind_ at 1. cbn [get_buf obind snd]. rewrite lookup_app_0. cbn [lookup list_lookup]. msimp.
  specialize (IH (pre ++ [v]) post (d ++ [v]) old rest (Crc32.update cs [v])
    ltac:(by injection Ho) ltac:(rewrite !length_app; cbn; lia)).
  rewrite <- !app_assoc, (length_app d), Nat.add_1_r in IH. cbn [app length] in IH. msimp. rewrite IH.
  by rewrite <- Crc32.update_app.
Qed.

Lemma check_sum_same (pre post : list Z) c off (s : KV) :
  length pre = off ->
  check_sum_differs (zip (rev (to_le_bytes 4 c)) (map (fun i => off + 4 - i)%nat [1; 2; 3; 4]%nat))
    (pre ++ to_le_bytes 4 c ++ post) s = Ret (Ok false, s).
Proof.
  intros <-. cbn [to_le_bytes rev app map zip zip_with check_sum_differs].
  replace (length pre + 4 - 1)%nat with (length pre + 3)%nat by lia.
  replace (length pre + 4 - 2)%nat with (length pre + 2)%nat by lia.
  replace (length pre + 4 - 3)%nat with (length pre + 1)%nat by lia.
  replace (length pre + 4 - 4)%nat with (length pre + 0)%nat by lia.
  rewrite !lookup_app_add. cbn [app lookup list_lookup]. msimp. repeat (rewrite Z.eqb_refl; msimp). done.
Qed.

Definition read_result (o : obj) (buf : list Z) : result (SuccessCode * nat) ErrorCode * list Z :=
  let n := length (o_value o) in
  if (length buf <? n)%nat then (Err (BufferTooSmall n), take (length buf) (o_value o))
  else (Ok (Complete, n), o_value o ++ drop n buf).

Lemma read_value_ok (pre post : list Z) o buf (s : KV) :
  obj_ok o -> o_valid o = true -> let data := pre ++ encode o ++ post in
  read_value data (length pre) (o_len o) (s, buf) =
  Ret ((read_result o buf).1, (set_read_buffer_ (Some data) s, (read_result o buf).2)).
Proof.
  intros Ho Hv data. pose proof (obj_len o Ho) as Hl. unfold read_value, read_result.
  assert (Hd : data = (pre ++ o_head o) ++ o_value o ++ o_sum o ++ post).
  { unfold data, encode. by rewrite <- !app_assoc. }
  assert (Hph : length (pre ++ o_head o) = (length pre + HEADER_LENGTH)%nat) by (by rewrite length_app, o_head_length).
  replace (get data (length pre) (HEADER_LENGTH + length pre)) with (Some (o_head o)).
  2:{ symmetry. rewrite Hd, <- app_assoc. apply get_middle; [done|]. rewrite o_head_length. lia. }
  msimp. rewrite (sub_nat_ok (o_len o)) by (unfold HEADER_LENGTH, HASH_OFFSET; lia). cbn [obind].
  rewrite sub_nat_ok by (unfold HEADER_LENGTH, HASH_OFFSET, CHECK_SUM_LEN; lia).
  replace (o_len o - HEADER_LENGTH - CHECK_SUM_LEN)%nat with (length (o_value o)) by
    (unfold HEADER_LENGTH, HASH_OFFSET, CHECK_SUM_LEN; lia).
  unfold mbind_. cbn [lift obind get_buf snd].
  destruct (Nat.ltb_spec (length buf) (length (o_value o))) as [Hlt|Hge].
  - pose proof (copy_loop_ok (take (length buf) (o_value o)) (BufferTooSmall (length (o_value o)))
      (BufferTooSmall (length (o_value o))) (length pre + HEADER_LENGTH) s (pre ++ o_head o)
      (drop (length buf) (o_value o) ++ o_sum o ++ post) [] buf []) as H.
    rewrite length_take, Nat.min_l, app_nil_r, Nat.add_0_r, (app_assoc (take _ _)), take_drop, <- Hd in H by lia.
    cbn [length app] in H. rewrite H by done. cbn [obind]. by rewrite app_nil_r.
  - pose proof (copy_check_loop_ok (o_value o) (BufferTooSmall (length (o_value o)))
      (length pre + HEADER_LENGTH) s (pre ++ o_head o) (o_sum o ++ post) [] (take (length (o_value o)) buf)
      (drop (length (o_value o)) buf) (Crc32.update Crc32.init (o_head o))) as H.
    rewrite length_take, Nat.min_l, Nat.add_0_r, <- Hd in H by lia. cbn [length app] in H.
    rewrite take_drop in H. rewrite H by done. cbn [obind]. rewrite <- Crc32.update_app.
    assert (Hs : o_sum o = sum_of o) by (by apply Ho).
    pose proof (check_sum_same (pre ++ o_head o ++ o_value o) post (Crc32.checksum (o_head o ++ o_value o))
      (length pre + o_len o - 4) s) as Hc.
    rewrite !length_app, o_head_length, !Hl in Hc. rewrite !Hl.
    replace (pre ++ o_head o ++ o_value o) with (pre ++ (o_head o ++ o_value o)) in Hc by done.
    fold (sum_of o) in Hc. rewrite <- Hs in Hc.
    assert (Hd' : data = (pre ++ o_head o ++ o_value o) ++ o_sum o ++ post) by (by rewrite Hd, <- !app_assoc).
    rewrite <- Hd' in Hc. cbn [on_kv].
    change (to_le_bytes 4 (Crc32.finalise (Crc32.update Crc32.init (o_head o ++ o_value o)))) with (sum_of o).
    rewrite <- Hs.
    replace (length pre + (15 + length (o_value o)) - 4 + 4)%nat with (length pre + (15 + length (o_value o)))%nat in Hc by lia.
    rewrite Hc by (unfold HEADER_LENGTH, HASH_OFFSET; lia). done.
Qed.

(** * Deleting *)

Definition kill (o : obj) : obj := mkObj (o_hash o) false (o_value o) (o_sum o).
Definition zeroed (o : obj) : obj := mkObj (o_hash o) false (replicate (length (o_value o)) 0) (replicate CHECK_SUM_LEN 0).

Lemma zeros_ok n : bytes_ok (replicate n 0).
Proof. apply Forall_replicate. done. Qed.
Lemma kill_ok o : obj_ok o -> obj_ok (kill o) /\ o_len (kill o) = o_len o.
Proof. intros (H1 & H2 & H3 & H4 & H5 & _). by repeat split; try apply H1. Qed.
Lemma zeroed_ok o : obj_ok o -> obj_ok (zeroed o) /\ o_len (zeroed o) = o_len o.
Proof.
  intros Ho. destruct Ho as (H1 & H2 & H3 & H4 & H5 & _).
  assert (Hl : o_len (zeroed o) = o_len o).
  { unfold o_len, zeroed. cbn [o_value o_sum]. by rewrite !length_replicate, H4. }
  split; [|done]. split_and!; cbn [o_hash o_value o_sum zeroed o_valid]; try done.
  - apply zeros_ok.
  - apply (zeros_ok 4).
  - rewrite <- Hl in H5. exact H5.
Qed.

Lemma app_snoc (pre : list Z) x l : pre ++ x :: l = (pre ++ [x]) ++ l.
Proof. by rewrite <- app_assoc. Qed.

Lemma clear_valid_ok pre o post (s : KV) : obj_ok o -> o_valid o = true ->
  clear_valid (pre ++ encode o ++ post) (length pre) s = Ret (Ok (pre ++ encode (kill o) ++ post), s).
Proof.
  intros Ho Hv. assert (Hn : (o_len o < 4096)%nat) by (assert (o_len o < 0xfff)%nat by apply Ho; lia).
  destruct (len_byte_spec (o_len o) Hn) as (_ & _ & H7 & _). unfold clear_valid.
  destruct (entry_fields pre o post Ho) as (_ & E1 & _). rewrite E1, Hv. msimp. rewrite H7. unfold mret. do 3 f_equal.
  rewrite !encode_split, (proj2 (kill_ok o Ho)). cbn [kill o_valid o_hash o_value o_sum app].
  rewrite 2!(app_snoc pre VERSION (_ :: _ :: _)). apply insert_middle. rewrite length_app. done.
Qed.

Lemma invalidate_entry_ok pre o post reg len (s : KV) : obj_ok o -> o_valid o = true ->
  invalidate_entry SIZE (pre ++ encode o ++ post) reg (length pre) len s =
  write_back (pre ++ encode (kill o) ++ post) (SIZE * reg + length pre + LEN_OFFSET)
    [len_byte false (Z.of_nat (o_len o))] s.
Proof.
  intros Ho Hv. unfold invalidate_entry. erewrite bind_ok by (by apply clear_valid_ok).
  assert (Hg : get (pre ++ encode (kill o) ++ post) (length pre + LEN_OFFSET) (length pre + LEN_OFFSET + 1) =
    Some [len_byte false (Z.of_nat (o_len o))]).
  { rewrite encode_split, (proj2 (kill_ok o Ho)). cbn [app]. rewrite (app_snoc pre VERSION (_ :: _ :: _)).
    apply (get_middle (pre ++ [VERSION]) [_]); rewrite length_app; done. }
  rewrite Hg. done.
Qed.

Lemma zero_loop_ok n (s : KV) : forall pre old post, length old = n ->
  zero_loop (seq (length pre) n) (pre ++ old ++ post) s = Ret (Ok (pre ++ replicate n 0 ++ post), s).
Proof.
  induction n as [|n IH]; intros pre [|x old] post Hl; try done.
  cbn [seq zero_loop app]. rewrite lookup_app_0. cbn [lookup list_lookup]. msimp.
  rewrite insert_middle by done. specialize (IH (pre ++ [0]) old post ltac:(by injection Hl)).
  rewrite <- !app_assoc, length_app, Nat.add_1_r in IH. exact IH.
Qed.
Lemma zero_loop_short n (s : KV) : forall pre old, (length old < n)%nat ->
  zero_loop (seq (length pre) n) (pre ++ old) s = Ret (Err RegionFull, s).
Proof.
  induction n as [|n IH]; intros pre old Hl; [lia|]. cbn [seq zero_loop].
  rewrite lookup_app_0. destruct old as [|x old]; cbn [lookup list_lookup]; msimp; [done|].
  rewrite insert_middle by done. specialize (IH (pre ++ [0]) old ltac:(cbn in Hl; lia)).
  rewrite <- app_assoc, length_app, Nat.add_1_r in IH. exact IH.
Qed.

Lemma map_add_seq off a n : map (fun i => off + i)%nat (seq a n) = seq (off + a) n.
Proof.
  revert a. induction n as [|n IH]; intros a; [done|]. cbn [seq map]. by rewrite IH, Nat.add_succ_r.
Qed.

Lemma zeroise_entry_ok pre o post reg (s : KV) : obj_ok o -> o_valid o = true ->
  zeroise_entry SIZE (pre ++ encode o ++ post) reg (length pre) (o_len o) s =
  if (HEADER_LENGTH <=? length post)%nat then
    write_back (pre ++ encode (zeroed o) ++ replicate HEADER_LENGTH 0 ++ drop HEADER_LENGTH post) (SIZE * reg + length pre)
      (encode (zeroed o)) s
  else Ret (Err RegionFull, s).
Proof.
  intros Ho Hv. assert (Hs : length (o_sum o) = CHECK_SUM_LEN) by apply Ho.
  unfold zeroise_entry. erewrite bind_ok by (by apply clear_valid_ok).
  assert (Hw : pre ++ encode (kill o) ++ post = (pre ++ o_head (zeroed o)) ++ (o_value o ++ o_sum o) ++ post).
  { unfold encode, o_head. rewrite (proj2 (zeroed_ok o Ho)), (proj2 (kill_ok o Ho)). by rewrite <- !app_assoc. }
  rewrite Hw. rewrite map_add_seq.
  replace (length pre + HEADER_LENGTH)%nat with (length (pre ++ o_head (zeroed o))) by
    (by rewrite length_app, o_head_length).
  destruct (Nat.leb_spec HEADER_LENGTH (length post)) as [Hp|Hp].
  - rewrite <- (take_drop HEADER_LENGTH post) at 1. rewrite (app_assoc (o_value o ++ _)).
    erewrite bind_ok; [|apply zero_loop_ok; rewrite !length_app, length_take, Nat.min_l, Hs by done; unfold o_len; lia].
    rewrite <- app_assoc. assert (Hz : o_head (zeroed o) ++ replicate (o_len o) 0 ++ drop HEADER_LENGTH post =
      encode (zeroed o) ++ replicate HEADER_LENGTH 0 ++ drop HEADER_LENGTH post).
    { replace (o_len o) with ((length (o_value o) + CHECK_SUM_LEN) + HEADER_LENGTH)%nat by (unfold o_len; lia).
      unfold encode. cbn [zeroed o_value o_sum]. by rewrite !replicate_add, <- !app_assoc. }
    rewrite Hz.
    rewrite get_middle; [|done|by rewrite encode_length, (proj2 (zeroed_ok o Ho))]. msimp. done.
  - apply bind_err. apply zero_loop_short. rewrite !length_app, Hs. unfold o_len. rewrite Hs. lia.
Qed.
End store.
End scans.
End TicKVObjects.
