(* ===== verification/TicKVProbe.v ===== *)
(** The order in which the key-value store looks at its regions, module [TicKVProbe]:
    [increment_region_offset] walks the offsets 0, 1, -1, 2, -2, ... that stay in
    range; the walk visits every region exactly once. *)

From stdpp Require Import base numbers list.
From S2P Require Import Prelude Crc32 TicKV TicKVObjects.
Local Open Scope Z_scope.

Module TicKVProbe.
Import TicKV TicKVObjects.

(** The [k]-th offset. *)
Definition unrank (k : nat) : Z :=
  if Nat.even k then - Z.of_nat (k / 2) else Z.of_nat (k / 2) + 1.
Definition next_offset (z : Z) : Z := if z =? 0 then 1 else if 0 <? z then - z else - z + 1.

Lemma unrank_even j : unrank (2 * j) = - Z.of_nat j.
Proof. unfold unrank. rewrite Nat.even_mul. cbn [Nat.even orb]. by rewrite Nat.mul_comm, Nat.div_mul. Qed.
Lemma unrank_odd j : unrank (2 * j + 1) = Z.of_nat j + 1.
Proof.
  unfold unrank. rewrite Nat.add_1_r, Nat.even_succ, Nat.odd_mul. cbn [Nat.odd Nat.even negb andb].
  replace (S (2 * j)) with (1 + j * 2)%nat by lia. rewrite Nat.div_add by lia. done.
Qed.
Lemma even_or_odd k : exists j, k = (2 * j)%nat \/ k = (2 * j + 1)%nat.
Proof. exists (k / 2)%nat. pose proof (Nat.div_mod_eq k 2). pose proof (Nat.mod_upper_bound k 2). lia. Qed.

Lemma unrank_S k : unrank (S k) = next_offset (unrank k).
Proof.
  destruct (even_or_odd k) as (j & [->| ->]).
  - replace (S (2 * j)) with (2 * j + 1)%nat by lia. rewrite unrank_even, unrank_odd. unfold next_offset.
    destruct (Z.eqb_spec (- Z.of_nat j) 0), (Z.ltb_spec 0 (- Z.of_nat j)); lia.
  - replace (S (2 * j + 1)) with (2 * S j)%nat by lia. rewrite unrank_even, unrank_odd. unfold next_offset.
    destruct (Z.eqb_spec (Z.of_nat j + 1) 0), (Z.ltb_spec 0 (Z.of_nat j + 1)); lia.
Qed.

Section probe.
  Context (n r : nat) (Hr : (r < n)%nat).

Definition in_range (z : Z) : Prop := 0 <= Z.of_nat r + z < Z.of_nat n.
#[local] Instance in_range_dec z : Decision (in_range z).
Proof. apply _. Defined.

Definition offsets_from (k m : nat) : list Z := filter in_range (map unrank (seq k m)).
Definition probe : list nat := map (region_at r) (offsets_from 0 (2 * n)).

Lemma unrank_far k : (2 * n <= k)%nat -> ~ in_range (unrank k).
Proof using Hr.
  intros Hk Hin. unfold in_range in Hin. destruct (even_or_odd k) as (j & [->| ->]);
    rewrite ?unrank_even, ?unrank_odd in Hin; lia.
Qed.

(** Once two offsets in a row are out of range, all that follow are. *)
Lemma out_forever k : ~ in_range (unrank k) -> ~ in_range (unrank (S k)) -> forall j, (k <= j)%nat -> ~ in_range (unrank j).
Proof using Hr.
  intros H1 H2 j Hj. unfold in_range in *.
  destruct (even_or_odd k) as (a & [->| ->]), (even_or_odd j) as (b & [->| ->]).
  all: try replace (S (2 * a)) with (2 * a + 1)%nat in H2 by lia.
  all: try replace (S (2 * a + 1)) with (2 * S a)%nat in H2 by lia.
  all: rewrite ?unrank_even, ?unrank_odd in *; lia.
Qed.

Lemma offsets_out k m : (forall j, (k <= j)%nat -> ~ in_range (unrank j)) -> offsets_from k m = [].
Proof using Hr.
  intros H. unfold offsets_from. revert k H. induction m as [|m IH]; intros k H; [done|].
  cbn [seq map]. rewrite filter_cons_False by (apply H; lia). apply IH. intros j Hj. apply H. lia.
Qed.
Lemma offsets_in k m : in_range (unrank k) -> offsets_from k (S m) = unrank k :: offsets_from (S k) m.
Proof using Hr. intros H. unfold offsets_from. cbn [seq map]. by rewrite filter_cons_True. Qed.
Lemma offsets_skip k m : ~ in_range (unrank k) -> offsets_from k (S m) = offsets_from (S k) m.
Proof using Hr. intros H. unfold offsets_from. cbn [seq map]. by rewrite filter_cons_False. Qed.

(** The offset [increment_region_offset] returns is the next one of the list. *)
Lemma increment_loop_next fuel k m : (3 <= fuel)%nat -> in_range (unrank k) -> (2 * n <= k + S m)%nat ->
  exists k' m', increment_loop fuel (Z.of_nat r) (Z.of_nat n - 1) false false (unrank k) =
      Ret (head (offsets_from (S k) m)) /\
    (offsets_from (S k) m = [] \/
     offsets_from (S k) m = unrank k' :: offsets_from (S k') m' /\ in_range (unrank k') /\ (2 * n <= k' + S m')%nat).
Proof using Hr.
  intros Hf Hin Hm. destruct fuel as [|[|[|fuel] ] ]; try lia.
  assert (Hout : forall j, ~ in_range (unrank j) ->
    (Z.of_nat n - 1 < Z.of_nat r + unrank j /\ 0 < unrank j) \/ (Z.of_nat r + unrank j < 0)).
  { intros j Hj. unfold in_range in Hj. lia. }
  assert (Hgo : forall z, in_range z ->
    (Z.of_nat n - 1 <? Z.of_nat r + z) = false /\ (Z.of_nat r + z <? 0) = false).
  { intros z Hz. unfold in_range in Hz. split; [apply Z.ltb_ge|apply Z.ltb_ge]; lia. }
  assert (Hstep : forall fuel b1 b2 j, b1 && b2 = false ->
    increment_loop (S fuel) (Z.of_nat r) (Z.of_nat n - 1) b1 b2 (unrank j) =
    if Z.of_nat n - 1 <? Z.of_nat r + unrank (S j)
    then increment_loop fuel (Z.of_nat r) (Z.of_nat n - 1) true b2 (unrank (S j))
    else if Z.of_nat r + unrank (S j) <? 0
    then increment_loop fuel (Z.of_nat r) (Z.of_nat n - 1) b1 true (unrank (S j))
    else Ret (Some (unrank (S j)))).
  { intros fuel' b1 b2 j Hb. cbn [increment_loop]. rewrite Hb, unrank_S. done. }
  destruct (decide (in_range (unrank (S k)))) as [H1|H1].
  { destruct m as [|m]; [exfalso; revert H1; apply unrank_far; lia|].
    exists (S k), m. rewrite offsets_in by done. split; [|right; split_and!; [done|done|lia]].
    rewrite Hstep by done. by destruct (Hgo _ H1) as [-> ->]. }
  destruct (decide (in_range (unrank (S (S k))))) as [H2|H2].
  { destruct m as [|[|m] ]; [exfalso; revert H2; apply unrank_far; lia..|].
    exists (S (S k)), m. rewrite offsets_skip, offsets_in by done. split; [|right; split_and!; [done|done|lia]].
    rewrite Hstep by done. destruct (Hgo _ H2) as [E1 E2].
    destruct (Hout _ H1) as [ [Hb _]|Hb].
    - rewrite (proj2 (Z.ltb_lt _ _) Hb), Hstep by done. by rewrite E1, E2.
    - rewrite (proj2 (Z.ltb_ge (Z.of_nat n - 1) (Z.of_nat r + unrank (S k)))) by (unfold in_range in *; lia).
      rewrite (proj2 (Z.ltb_lt _ _) Hb), Hstep by done. by rewrite E1, E2. }
  exists 0%nat, 0%nat. rewrite offsets_out by (by apply out_forever). split; [|by left].
  rewrite Hstep by done. pose proof (unrank_S (S k)) as Hn. unfold next_offset in Hn.
  destruct (Hout _ H1) as [ [Hb Hp]|Hb].
  - rewrite (proj2 (Z.ltb_lt _ _) Hb), Hstep by done.
    destruct (Z.eqb_spec (unrank (S k)) 0), (Z.ltb_spec 0 (unrank (S k))); try lia.
    assert (Z.of_nat r + unrank (S (S k)) < 0) by (unfold in_range in H2; lia).
    destruct (Z.ltb_spec (Z.of_nat n - 1) (Z.of_nat r + unrank (S (S k)))); [lia|].
    rewrite (proj2 (Z.ltb_lt _ _)) by done. done.
  - destruct (Z.ltb_spec (Z.of_nat n - 1) (Z.of_nat r + unrank (S k))) as [?|_]; [lia|].
    rewrite (proj2 (Z.ltb_lt _ _) Hb), Hstep by done.
    destruct (Z.eqb_spec (unrank (S k)) 0), (Z.ltb_spec 0 (unrank (S k))); try lia.
    rewrite (proj2 (Z.ltb_lt _ _)) by (unfold in_range in H2; lia). done.
Qed.

Lemma probe_cons : exists m, (2 * n <= 0 + S m)%nat /\ offsets_from 0 (2 * n) = unrank 0 :: offsets_from 1 m.
Proof using Hr.
  exists (2 * n - 1)%nat. split; [lia|]. replace (2 * n)%nat with (S (2 * n - 1)) at 1 by lia.
  apply offsets_in. unfold in_range. change (unrank 0) with 0. lia.
Qed.

Lemma probe_elem x : x ∈ probe <-> (x < n)%nat.
Proof using Hr.
  unfold probe. rewrite list_elem_of_In, in_map_iff. unfold region_at. split.
  - intros (z & <- & Hz). apply list_elem_of_In, list_elem_of_filter in Hz as [Hz _]. unfold in_range in Hz. lia.
  - intros Hx. exists (Z.of_nat x - Z.of_nat r). split; [lia|]. apply list_elem_of_In, list_elem_of_filter.
    split; [unfold in_range; lia|]. apply list_elem_of_In, in_map_iff.
    destruct (decide (x <= r)%nat) as [Hle|Hgt].
    + exists (2 * (r - x))%nat. split; [rewrite unrank_even; lia|apply in_seq; lia].
    + exists (2 * (x - r - 1) + 1)%nat. split; [rewrite unrank_odd; lia|apply in_seq; lia].
Qed.

Lemma unrank_inj i j : unrank i = unrank j -> i = j.
Proof using Hr.
  intros H. destruct (even_or_odd i) as (a & [->| ->]), (even_or_odd j) as (b & [->| ->]);
    rewrite ?unrank_even, ?unrank_odd in H; lia.
Qed.

Lemma probe_NoDup : NoDup probe.
Proof using Hr.
  unfold probe, offsets_from. apply NoDup_fmap_2_strong.
  - intros a b Ha Hb. apply list_elem_of_filter in Ha as [Ha _], Hb as [Hb _].
    unfold in_range in *. unfold region_at. lia.
  - apply NoDup_filter. apply (NoDup_fmap_2_strong unrank); [intros i j _ _; apply unrank_inj|apply NoDup_seq].
Qed.

Lemma probe_length : length probe = n.
Proof using Hr.
  rewrite <- (length_seq n 0). apply Permutation_length, NoDup_Permutation;
    [apply probe_NoDup|apply NoDup_seq|]. intros x. rewrite probe_elem, list_elem_of_In, in_seq. lia.
Qed.
End probe.
End TicKVProbe.
