(* ===== verification/TicKVSpec.v ===== *)
(** What the key-value store does with the objects of its regions, module
    [TicKVSpec]: the operations on lists of objects, without bytes, and the theorems
    that the code of [TicKV] on flash memory with the behaviour of NOR flash does
    exactly that, with its errors and with the cases in which it loses its buffer. *)

From stdpp Require Import base numbers list.
From S2P Require Import Prelude Crc32 TicKV TicKVObjects TicKVProbe.
Local Open Scope Z_scope.

Module TicKVSpec.
Import TicKV TicKVObjects TicKVProbe.

(** * The operations on objects *)

(** The objects of each region. *)
Notation objects := (list (list obj)).

Section spec.
  (** The size of a region and the number of regions. *)
  Context (SIZE n : nat).

Definition region_bytes (os : list obj) : list Z := encode_objs os ++ blank (SIZE - used os).
Definition region_ok (os : list obj) : Prop := Forall obj_ok os /\ (used os <= SIZE)%nat.

Definition good_hash (h : Z) : Prop := u64_range h /\ h <> 0 /\ h <> 0xffffffffffffffff.
Definition home (h : Z) : nat := (Z.to_nat (Z.land (wrap32 h) 0xffff) mod n)%nat.
(** The regions in the order the key is looked for. *)
Definition path (h : Z) : list nat := probe n (home h).

Fixpoint search_in (h : Z) (objs : objects) (rs : list nat) : option (nat * nat * obj) :=
  match rs with
  | [] => None
  | r :: rs =>
    match locate h (objs !!! r) with
    | Some (i, o) => Some (r, i, o)
    | None => if passable SIZE (objs !!! r) then search_in h objs rs else None
    end
  end.

Inductive placing := AlreadyThere | Full | At (r : nat).
Fixpoint place_in (h : Z) (package_length : nat) (objs : objects) (rs : list nat) : placing :=
  match rs with
  | [] => Full
  | r :: rs =>
    match locate h (objs !!! r) with
    | Some _ => AlreadyThere
    | None =>
      if (SIZE <=? used (objs !!! r) + package_length)%nat then place_in h package_length objs rs else At r
    end
  end.

(** The result, the objects afterwards, and whether the store still has its buffer. *)
Definition spec_append (h : Z) (value : list Z) (objs : objects) : result SuccessCode ErrorCode * objects * bool :=
  match place_in h (HEADER_LENGTH + length value) objs (path h) with
  | AlreadyThere => (Err KeyAlreadyExists, objs, true)
  | Full => (Err FlashFull, objs, true)
  | At r =>
    if (used (objs !!! r) + (HEADER_LENGTH + length value + CHECK_SUM_LEN) <=? SIZE)%nat
    then (Ok Written, <[r := (objs !!! r) ++ [fresh_obj h value]]> objs, true)
    else (Err ObjectTooLarge, objs, false)
  end.

Definition spec_get (h : Z) (buf : list Z) (objs : objects) : result (SuccessCode * nat) ErrorCode * list Z :=
  match search_in h objs (path h) with
  | Some (_, _, o) => read_result o buf
  | None => (Err KeyNotFound, buf)
  end.

Definition set_obj (r i : nat) (o : obj) (objs : objects) : objects := <[r := <[i := o]> (objs !!! r)]> objs.

Definition spec_invalidate (h : Z) (objs : objects) : result SuccessCode ErrorCode * objects * bool :=
  match search_in h objs (path h) with
  | Some (r, i, o) => (Ok Written, set_obj r i (kill o) objs, true)
  | None => (Err KeyNotFound, objs, true)
  end.
Definition spec_zeroise (h : Z) (objs : objects) : result SuccessCode ErrorCode * objects * bool :=
  match search_in h objs (path h) with
  | Some (r, i, o) =>
    if (used (take (S i) (objs !!! r)) + HEADER_LENGTH <=? SIZE)%nat
    then (Ok Written, set_obj r i (zeroed o) objs, true)
    else (Err RegionFull, objs, false)
  | None => (Err KeyNotFound, objs, true)
  end.

Definition is_rubbish (os : list obj) : bool :=
  forallb (fun o => negb (o_valid o)) os && negb (is_empty os).
Definition collect (os : list obj) : list obj := if is_rubbish os then [] else os.
Definition spec_collect (objs : objects) : nat * objects :=
  ((SIZE * length (List.filter is_rubbish objs))%nat, map collect objs).
End spec.

(** * Flash memory

    What the store relies on, as documented for [FlashController]: a region is read
    as a whole; a write replaces bytes, and is only relied on to clear bits; erasing
    sets every bit. *)
Definition clears : list Z -> list Z -> Prop := Forall2 (fun old new => Z.land old new = new).

Class FlashView (F : Type) := regions : F -> list (list Z).
(** A controller writes at once, or queues the write and reports it later. *)
Definition write_result (c : SuccessCode) (r : result unit ErrorCode) : Prop :=
  match c with
  | Written => r = Ok tt
  | Queued => exists reg, r = Err (WriteNotReady reg)
  | Complete => False
  end.
Class FlashWrites (F : Type) (SIZE : nat) (c : SuccessCode) `{!FlashController F, !FlashView F} :=
  write_law : forall f reg pre old new post, regions f !! reg = Some (pre ++ old ++ post) ->
    length (pre ++ old ++ post) = SIZE -> clears old new -> new <> [] ->
    exists f' r, write (SIZE * reg + length pre) new f = (r, f') /\ write_result c r /\
      regions f' = <[reg := pre ++ new ++ post]> (regions f).
Class FlashLaws (F : Type) (SIZE : nat) `{!FlashController F, !FlashView F} := {
  read_law : forall f reg data buf, regions f !! reg = Some data -> length buf = length data ->
    exists f', read_region reg buf f = (Ok tt, data, f') /\ regions f' = regions f;
  flash_writes :: FlashWrites F SIZE Written;
  erase_law : forall f reg, (reg < length (regions f))%nat ->
    exists f', erase_region reg f = (Ok tt, f') /\ regions f' = <[reg := blank SIZE]> (regions f);
}.

Section refine.
  Context {F : Type} (SIZE n : nat) `{!FlashController F, !FlashView F, !FlashLaws F SIZE}.
  Notation KV := (TicKV F).

(** The store holds these objects; [kept] says whether it has its buffer.  Between
    operations its state is [NoState]. *)
Record rep_in {st : State} (s : KV) (objs : objects) (kept : bool) : Prop := {
  rep_state : state s = st;
  rep_size : SIZE <> 0%nat;
  rep_num : (flash_size s / SIZE)%nat = n;
  rep_some : (0 < n)%nat;
  rep_len : length objs = n;
  rep_ok : Forall (region_ok SIZE) objs;
  rep_flash : regions (controller s) = map (region_bytes SIZE) objs;
  rep_buf : if kept then exists b, read_buffer s = Some b /\ length b = SIZE else read_buffer s = None;
}.
Notation rep := (@rep_in NoState).

Lemma region_bytes_length os : region_ok SIZE os -> length (region_bytes SIZE os) = SIZE.
Proof. intros [_ Hu]. unfold region_bytes. rewrite length_app, encode_objs_length, blank_length. lia. Qed.

Lemma rep_region {st} s objs kept r : @rep_in st s objs kept -> (r < n)%nat ->
  regions (controller s) !! r = Some (region_bytes SIZE (objs !!! r)) /\ region_ok SIZE (objs !!! r).
Proof.
  intros Hrep Hr. rewrite (rep_flash _ _ _ Hrep). rewrite <- (rep_len _ _ _ Hrep) in Hr.
  apply lookup_lt_is_Some_2 in Hr as [os Hos]. rewrite (list_lookup_total_correct _ _ _ Hos). split.
  - rewrite list_lookup_fmap, Hos. done.
  - eapply Forall_lookup_1, Hos. apply (rep_ok _ _ _ Hrep).
Qed.

Lemma rep_num_region {st} s objs kept : @rep_in st s objs kept -> num_region SIZE s = Ret (Ok n, s).
Proof.
  intros Hrep. unfold num_region. destruct (Nat.eqb_spec SIZE 0); [by destruct (rep_size _ _ _ Hrep)|].
  by rewrite (rep_num _ _ _ Hrep).
Qed.

Lemma get_region_ok {st} s objs kept h : @rep_in st s objs kept -> good_hash h -> get_region SIZE h s = Ret (Ok (home n h), s).
Proof.
  intros Hrep (_ & H0 & Hf). unfold get_region.
  destruct (Z.eqb_spec h 0xffffffffffffffff); [done|]. msimp.
  destruct (Z.eqb_spec h 0); [done|]. msimp. erewrite bind_ok by (by eapply rep_num_region).
  unfold lift. rewrite rem_nat_ok by apply (rep_some _ _ _ Hrep). done.
Qed.

Lemma home_lt h : (0 < n)%nat -> (home n h < n)%nat.
Proof. intros H. apply Nat.mod_upper_bound. lia. Qed.

(** Reading a region into the buffer and giving the buffer back. *)
Lemma load_ok {st} s objs not_ready r : @rep_in st s objs true -> (r < n)%nat ->
  exists s', load false not_ready r s = Ret (Ok (region_bytes SIZE (objs !!! r)), s') /\ @rep_in st s' objs false.
Proof.
  intros Hrep Hr. destruct (rep_region _ _ _ _ Hrep Hr) as [Hd Hok].
  destruct (rep_buf _ _ _ Hrep) as (b & Hb & Hlen).
  destruct (read_law (controller s) r _ b Hd) as (f' & Hf & Hreg).
  { by rewrite Hlen, region_bytes_length. }
  eexists. split.
  - unfold load. unfold mbind_ at 1, take_buffer. rewrite Hb. cbn [obind].
    unfold mbind_ at 1, read. cbn [controller set_read_buffer_ obind]. rewrite Hf. msimp. done.
  - destruct Hrep. split; cbn; try done. by rewrite Hreg.
Qed.

Lemma replace_rep {st} s objs kept r d : @rep_in st s objs kept -> d = region_bytes SIZE (objs !!! r) -> (r < n)%nat ->
  @rep_in st (set_read_buffer_ (Some d) s) objs true.
Proof.
  intros Hrep -> Hr. destruct (rep_region _ _ _ _ Hrep Hr) as [_ Hok].
  destruct Hrep. split; cbn; try done. eexists. split; [done|]. by apply region_bytes_length.
Qed.

(** The regions in range of an offset. *)
Lemma region_at_ok h k : (0 < n)%nat -> in_range n (home n h) (unrank k) ->
  (region_at (home n h) (unrank k) < n)%nat /\
  Z.of_nat (region_at (home n h) (unrank k)) - Z.of_nat (home n h) = unrank k.
Proof. intros Hn Hin. unfold in_range in Hin. unfold region_at. pose proof (home_lt h Hn). lia. Qed.

Lemma next_region_in {st} s objs kept h k m e : @rep_in st s objs kept -> in_range n (home n h) (unrank k) -> (2 * n <= k + S m)%nat ->
  let os := offsets_from n (home n h) (S k) m in
  (os = [] /\ next_region SIZE (home n h) (region_at (home n h) (unrank k)) e s = Ret (Err e, s)) \/
  exists k' m', os = unrank k' :: offsets_from n (home n h) (S k') m' /\ in_range n (home n h) (unrank k') /\
    (2 * n <= k' + S m')%nat /\
    next_region SIZE (home n h) (region_at (home n h) (unrank k)) e s = Ret (Ok (unrank k'), set_state_ NoState s).
Proof.
  intros Hrep Hin Hm os. pose proof (rep_some _ _ _ Hrep) as Hn. unfold next_region, increment_region_offset.
  destruct (region_at_ok h k Hn Hin) as [_ ->].
  destruct (increment_loop_next n (home n h) (home_lt h Hn) (2 * n + 3) k m ltac:(lia) Hin Hm) as (k' & m' & El & Hos).
  fold os in El, Hos.
  assert (E : forall f : option Z -> M KV Z,
    mbind_ (mbind_ (num_region SIZE) (fun n0 => mbind_ (lift (sub_nat n0 1)) (fun max =>
       lift (increment_loop (2 * n0 + 3) (Z.of_nat (home n h)) (Z.of_nat max) false false (unrank k))))) f s = f (head os) s).
  { intros f. apply bind_ok. erewrite bind_ok by (by eapply rep_num_region).
    erewrite bind_ok by (unfold lift; rewrite sub_nat_ok by lia; done).
    unfold lift. rewrite Nat2Z.inj_sub by lia. change (Z.of_nat 1) with 1. by rewrite El. }
  rewrite E. destruct Hos as [Hos|(Hos & Hin' & Hm')]; rewrite Hos; [by left|right].
  by exists k', m'.
Qed.
Lemma next_region_ok s objs kept h k m e : rep s objs kept -> in_range n (home n h) (unrank k) -> (2 * n <= k + S m)%nat ->
  let os := offsets_from n (home n h) (S k) m in
  (os = [] /\ next_region SIZE (home n h) (region_at (home n h) (unrank k)) e s = Ret (Err e, s)) \/
  exists k' m', os = unrank k' :: offsets_from n (home n h) (S k') m' /\ in_range n (home n h) (unrank k') /\
    (2 * n <= k' + S m')%nat /\
    next_region SIZE (home n h) (region_at (home n h) (unrank k)) e s = Ret (Ok (unrank k'), s).
Proof.
  intros Hrep Hin Hm. pose proof (next_region_in s objs kept h k m e Hrep Hin Hm) as H.
  replace (set_state_ NoState s) with s in H; [exact H|].
  unfold set_state_. rewrite <- (rep_state _ _ _ Hrep). by destruct s.
Qed.

(** * A region *)

Lemma used_ge_length os : Forall obj_ok os -> (length os <= used os)%nat.
Proof.
  induction 1 as [|o os Ho _ IH]; [done|]. rewrite used_cons. cbn [length]. pose proof (obj_len o Ho). lia.
Qed.

Lemma find_region h os : u64_range h -> region_ok SIZE os ->
  find_key_offset SIZE h (region_bytes SIZE os) =
  Ret (match locate h os with
       | Some (i, o) => Ok (used (take i os), o_len o)
       | None => Err (passable SIZE os, KeyNotFound)
       end).
Proof.
  intros Hh [Hok Hu]. pose proof (used_ge_length os Hok). unfold find_key_offset.
  exact (find_key_encoded SIZE h os Hh Hok (SIZE + 1) [] (SIZE - used os) true ltac:(lia) ltac:(cbn; lia)).
Qed.

Lemma locate_split h os i o : locate h os = Some (i, o) ->
  os !! i = Some o /\ matches h o /\ os = take i os ++ o :: drop (S i) os.
Proof.
  intros H. apply list_find_Some in H as (Hi & Hm & _). split_and!; [done|apply Hm|].
  symmetry. by apply take_drop_middle.
Qed.

(** The bytes of a region around an object. *)
Definition after (os : list obj) (i : nat) : list Z := encode_objs (drop (S i) os) ++ blank (SIZE - used os).
Lemma region_split os i o : os !! i = Some o ->
  region_bytes SIZE os = encode_objs (take i os) ++ encode o ++ after os i.
Proof.
  intros Hi. unfold region_bytes, after. rewrite <- (take_drop_middle os i o Hi) at 1.
  by rewrite encode_objs_app, encode_objs_cons, <- !app_assoc.
Qed.
Lemma region_replace os i o o' : os !! i = Some o -> o_len o' = o_len o ->
  used (<[i := o']> os) = used os /\
  region_bytes SIZE (<[i := o']> os) = encode_objs (take i os) ++ encode o' ++ after os i.
Proof.
  intros Hi Hl. pose proof (lookup_lt_Some _ _ _ Hi).
  assert (Hu : used (<[i := o']> os) = used os).
  { rewrite insert_take_drop by done. rewrite <- (take_drop_middle os i o Hi) at 3.
    rewrite !used_app, !used_cons. lia. }
  split; [done|]. rewrite (region_split _ i o') by (by apply list_lookup_insert_eq).
  unfold after. rewrite Hu, take_insert_ge, drop_insert_lt by lia. done.
Qed.
Lemma replace_ok os i o o' : region_ok SIZE os -> os !! i = Some o -> obj_ok o' -> o_len o' = o_len o ->
  region_ok SIZE (<[i := o']> os).
Proof.
  intros [Hok Hu] Hi Ho' Hl. destruct (region_replace os i o o' Hi Hl) as [E _].
  split; [by apply Forall_insert|by rewrite E].
Qed.
Lemma take_used os i : length (encode_objs (take i os)) = used (take i os).
Proof. apply encode_objs_length. Qed.

(** * Reading *)

(** The rest of the path, from the [k]-th offset on. *)
Definition path_from (h : Z) (k m : nat) : list nat :=
  map (region_at (home n h)) (unrank k :: offsets_from n (home n h) (S k) m).
Lemma path_start h : (0 < n)%nat -> exists m, (2 * n <= 0 + S m)%nat /\ path n h = path_from h 0 m /\
  in_range n (home n h) (unrank 0) /\ length (path n h) = n.
Proof.
  intros Hn. pose proof (home_lt h Hn) as Hh. destruct (probe_cons n (home n h) Hh) as (m & Hm & E).
  exists m. split_and!; [done|unfold path, probe; by rewrite E| |by apply probe_length].
  unfold in_range. change (unrank 0) with 0. lia.
Qed.

(** One turn of the walk: the region is read, and the next one is the next of the
    path. *)
Lemma turn_ok {h k m} s objs : rep s objs true -> in_range n (home n h) (unrank k) ->
  let r := region_at (home n h) (unrank k) in
  (r < n)%nat /\ region_ok SIZE (objs !!! r) /\
  path_from h k m = r :: map (region_at (home n h)) (offsets_from n (home n h) (S k) m) /\
  forall st, exists s', load false st r s = Ret (Ok (region_bytes SIZE (objs !!! r)), s') /\ rep s' objs false /\
    rep (set_read_buffer_ (Some (region_bytes SIZE (objs !!! r))) s') objs true.
Proof.
  intros Hrep Hin r. pose proof (rep_some _ _ _ Hrep) as Hn.
  destruct (region_at_ok h k Hn Hin) as [Hr _]. fold r in Hr.
  destruct (rep_region _ _ _ _ Hrep Hr) as [_ Hok]. split_and!; try done.
  intros st. destruct (load_ok s objs st r Hrep Hr) as (s' & E & Hrep'). exists s'. split_and!; [done|done|].
  by eapply replace_rep.
Qed.

Lemma get_loop_ok h buf objs : good_hash h -> forall fuel k m s,
  rep s objs true -> in_range n (home n h) (unrank k) -> (2 * n <= k + S m)%nat ->
  (length (path_from h k m) <= fuel)%nat ->
  exists s', get_loop SIZE fuel h (home n h) (unrank k) (s, buf) =
      Ret (match search_in SIZE h objs (path_from h k m) with
           | Some (_, _, o) => ((read_result o buf).1, (s', (read_result o buf).2))
           | None => (Err KeyNotFound, (s', buf))
           end) /\ rep s' objs true.
Proof.
  intros Hh. induction fuel as [|fuel IH]; intros k m s Hrep Hin Hm Hf; [cbn in Hf; lia|].
  destruct (turn_ok (m := m) s objs Hrep Hin) as (Hr & Hok & Hp & Hload). rewrite Hp in *.
  set (r := region_at _ _) in *. cbn [get_loop search_in].
  destruct (Hload (fun reg => GetKey (ReadRegion reg))) as (s1 & E1 & Hrep1 & Hrep2).
  erewrite bind_ok by (cbn; done). erewrite bind_ok by (cbn; by rewrite (rep_state _ _ _ Hrep)).
  rewrite (rep_state _ _ _ Hrep), !bool_decide_eq_false_2 by done. fold r. cbn [orb].
  erewrite bind_ok by (cbn [on_kv]; rewrite E1; done).
  erewrite bind_ok by (unfold lift; rewrite find_region by (done || apply Hh); done).
  destruct (locate h (objs !!! r)) as [ [i o]|] eqn:El.
  - destruct (locate_split _ _ _ _ El) as (Hi & [Hv _] & _).
    rewrite (region_split _ _ _ Hi), <- take_used, read_value_ok; [|eapply Forall_lookup_1, Hi; apply Hok|done].
    rewrite <- (region_split _ _ _ Hi). eexists. split; [done|]. apply Hrep2.
  - erewrite bind_ok by (cbn; done). destruct (passable SIZE (objs !!! r)).
    + destruct (next_region_ok _ _ _ h k m KeyNotFound Hrep2 Hin Hm) as [ [E En]|(k' & m' & E & Hin' & Hm' & En)];
        fold r in En; rewrite E in *.
      * eexists. split; [|apply Hrep2]. apply bind_err. cbn [on_kv]. rewrite En. done.
      * erewrite bind_ok by (cbn [on_kv]; rewrite En; done).
        apply (IH k' m' _ Hrep2 Hin' Hm'). cbn [length map] in Hf. unfold path_from. cbn [map length]. lia.
    + eexists. split; [done|]. apply Hrep2.
Qed.

Lemma get_refines h buf s objs : good_hash h -> rep s objs true ->
  exists s', get_key SIZE h (s, buf) = Ret ((spec_get SIZE n h buf objs).1, (s', (spec_get SIZE n h buf objs).2)) /\
    rep s' objs true.
Proof.
  intros Hh Hrep. pose proof (rep_some _ _ _ Hrep) as Hn. destruct (path_start h Hn) as (m & Hm & Ep & Hin & Hl).
  unfold get_key. erewrite bind_ok by (cbn [on_kv]; erewrite get_region_ok by done; done).
  destruct (get_loop_ok h buf objs Hh (fuel_regions SIZE s) 0 m s Hrep Hin Hm) as (s' & E & Hrep').
  { rewrite <- Ep, Hl. unfold fuel_regions. rewrite (rep_num _ _ _ Hrep). lia. }
  exists s'. split; [|done]. cbn [fst]. change 0 with (unrank 0) at 1. rewrite E. unfold spec_get. rewrite Ep.
  by destruct (search_in _ _ _ _) as [ [ [? ?] ?]|].
Qed.

(** * Writing *)

Lemma clears_blank new : bytes_ok new -> clears (blank (length new)) new.
Proof.
  induction 1 as [|b new Hb _ IH]; [constructor|]. cbn [length blank replicate]. constructor; [|exact IH].
  rewrite Z.land_comm. change 255 with (Z.ones 8). rewrite Z.land_ones by done. apply Z.mod_small, Hb.
Qed.
Lemma clears_refl l : clears l l.
Proof. induction l; constructor; [apply Z.land_diag|done]. Qed.
Lemma clears_zero l : clears l (replicate (length l) 0).
Proof. induction l; constructor; [apply Z.land_0_r|done]. Qed.
Lemma clears_app a b c d : clears a b -> clears c d -> clears (a ++ c) (b ++ d).
Proof. apply Forall2_app. Qed.

Lemma clears_zeroed o : obj_ok o -> o_valid o = true -> clears (encode o) (encode (zeroed o)).
Proof.
  intros Ho Hv. rewrite !encode_split, (proj2 (zeroed_ok o Ho)), Hv. cbn [zeroed o_valid o_hash o_value o_sum].
  assert (Hn : (o_len o < 4096)%nat) by (assert (o_len o < 0xfff)%nat by apply Ho; lia).
  destruct (len_byte_spec (o_len o) Hn) as (_ & _ & _ & H & _).
  constructor; [done|]. constructor; [done|]. constructor; [apply Z.land_diag|].
  apply clears_app; [apply clears_refl|]. apply clears_app; [apply clears_zero|].
  replace CHECK_SUM_LEN with (length (o_sum o)) by apply Ho. apply clears_zero.
Qed.

Lemma write_back_ok {c st} `{!FlashWrites F SIZE c} s objs r pre old new post os' d : @rep_in st s objs false -> (r < n)%nat -> length d = SIZE ->
  region_bytes SIZE (objs !!! r) = pre ++ old ++ post -> clears old new -> new <> [] ->
  region_ok SIZE os' -> region_bytes SIZE os' = pre ++ new ++ post ->
  exists s', write_back d (SIZE * r + length pre) new s = Ret (Ok c, s') /\ @rep_in st s' (<[r := os']> objs) true.
Proof.
  intros Hrep Hr Hd Hold Hc Hne Hok Hnew. destruct (rep_region _ _ _ _ Hrep Hr) as [Hl Hr0]. rewrite Hold in Hl.
  destruct (write_law _ _ _ _ _ _ Hl ltac:(rewrite <- Hold; by apply region_bytes_length) Hc Hne) as (f' & r' & Ef & Hw & Hf).
  exists (set_read_buffer_ (Some d) (set_controller f' s)). split.
  - unfold write_back, write_, mbind_. rewrite Ef. cbn. destruct c; [done|by rewrite Hw|by destruct Hw as [? ->] ].
  - destruct Hrep as [? ? ? ? Hlen Hall Hfl _]. split; try done.
    + by rewrite length_insert.
    + by apply Forall_insert.
    + cbn [controller set_read_buffer_ set_controller]. rewrite Hf, Hfl, <- Hnew. symmetry. apply list_fmap_insert.
    + by exists d.
Qed.

Lemma used_one o : used [o] = o_len o.
Proof. rewrite used_cons. change (used []) with 0%nat. lia. Qed.

Lemma append_bytes os o : region_ok SIZE os -> obj_ok o -> (used os + o_len o <= SIZE)%nat ->
  region_ok SIZE (os ++ [o]) /\
  region_bytes SIZE os = encode_objs os ++ blank (o_len o) ++ blank (SIZE - used os - o_len o) /\
  region_bytes SIZE (os ++ [o]) = encode_objs os ++ encode o ++ blank (SIZE - used os - o_len o).
Proof.
  intros [Hok Hu] Ho Hl. split_and!.
  - split; [apply Forall_app_2; [done|by apply Forall_singleton]|]. rewrite used_app, used_one. lia.
  - unfold region_bytes. f_equal. apply blank_split. lia.
  - unfold region_bytes. rewrite encode_objs_app, used_app, used_one, encode_objs_cons. cbn [encode_objs map concat].
    rewrite app_nil_r, <- app_assoc. do 3 f_equal. lia.
Qed.

Lemma write_object_ok {c st} `{!FlashWrites F SIZE c} s objs r h value : @rep_in st s objs false -> (r < n)%nat -> good_hash h -> bytes_ok value ->
  (HEADER_LENGTH + length value + CHECK_SUM_LEN < 0xfff)%nat ->
  (used (objs !!! r) + (HEADER_LENGTH + length value) < SIZE)%nat ->
  let os := objs !!! r in let len := (HEADER_LENGTH + length value + CHECK_SUM_LEN)%nat in
  exists s', write_object SIZE (mkHeader VERSION FLAGS_VALID (Z.of_nat len) h) value (region_bytes SIZE os) r (used os) s =
      Ret ((if (used os + len <=? SIZE)%nat then Ok c else Err ObjectTooLarge), s') /\
    if (used os + len <=? SIZE)%nat then @rep_in st s' (<[r := os ++ [fresh_obj h value]]> objs) true else @rep_in st s' objs false.
Proof.
  intros Hrep Hr Hh Hv Hlen Hroom os len. destruct (rep_region _ _ _ _ Hrep Hr) as [_ Hok]. fold os in Hok.
  destruct (fresh_obj_ok h value) as [Ho Hol]; [apply Hh|done|done|]. fold len in Hol.
  destruct Hok as [Hok Hu]. fold os in Hroom. rewrite <- Hol.
  unfold region_bytes. set (k := (SIZE - used os)%nat).
  destruct (Nat.leb_spec (used os + o_len (fresh_obj h value)) SIZE) as [Hle|Hgt];
    rewrite <- (encode_objs_length os).
  - rewrite write_object_room by (done || (unfold k; lia)).
    destruct (append_bytes os (fresh_obj h value)) as (Hok' & E1 & E2); [done|done|lia|].
    unfold k. eapply write_back_ok; try done.
    + rewrite <- E2. by apply region_bytes_length.
    + rewrite <- (encode_length (fresh_obj h value)). apply clears_blank. by apply encode_bytes_ok.
  - rewrite write_object_tight by (done || (unfold k; lia)). by eexists.
Qed.

Lemma invalidate_stored {c st} `{!FlashWrites F SIZE c} s objs h r i o :
  @rep_in st s objs false -> (r < n)%nat -> locate h (objs !!! r) = Some (i, o) ->
  exists s', invalidate_entry SIZE (region_bytes SIZE (objs !!! r)) r (used (take i (objs !!! r))) (o_len o) s =
    Ret (Ok c, s') /\ @rep_in st s' (set_obj r i (kill o) objs) true.
Proof.
  intros Hrep Hr Hl. destruct (rep_region _ _ _ _ Hrep Hr) as [_ Hok].
  destruct (locate_split _ _ _ _ Hl) as (Hi & [Hv _] & _).
  assert (Ho : obj_ok o) by (eapply Forall_lookup_1, Hi; apply Hok).
  destruct (kill_ok o Ho) as [Hok' Hlen].
  destruct (region_replace _ _ _ (kill o) Hi Hlen) as [_ Hnew].
  pose proof (region_split _ _ _ Hi) as Hold. rewrite Hold, <- take_used, invalidate_entry_ok by done.
  set (pre := encode_objs _) in *. set (post := after _ _) in *.
  assert (Hn : (o_len o < 4096)%nat) by (assert (o_len o < 0xfff)%nat by apply Ho; lia).
  destruct (len_byte_spec (o_len o) Hn) as (_ & _ & _ & Hc & _).
  rewrite !encode_split, Hlen in *. cbn [kill o_valid o_hash o_value o_sum app] in *. rewrite Hv in Hold.
  rewrite (app_snoc pre VERSION (_ :: _ :: _)).
  rewrite (app_snoc pre VERSION (_ :: _ :: _)) in Hnew. rewrite (app_snoc pre VERSION (_ :: _ :: _)) in Hold.
  replace (SIZE * r + length pre + LEN_OFFSET)%nat with (SIZE * r + length (pre ++ [VERSION]))%nat by
    (rewrite length_app; unfold LEN_OFFSET; cbn; lia).
  eapply (write_back_ok _ _ _ (pre ++ [VERSION]) [_]); [done|done| |exact Hold|constructor; [exact Hc|constructor]|done| |exact Hnew].
  - rewrite <- Hnew. apply region_bytes_length. by eapply replace_ok.
  - by eapply replace_ok.
Qed.

Lemma zeroise_stored {c st} `{!FlashWrites F SIZE c} s objs h r i o :
  @rep_in st s objs false -> (r < n)%nat -> locate h (objs !!! r) = Some (i, o) ->
  let fits := (used (take (S i) (objs !!! r)) + HEADER_LENGTH <=? SIZE)%nat in
  exists s', zeroise_entry SIZE (region_bytes SIZE (objs !!! r)) r (used (take i (objs !!! r))) (o_len o) s =
    Ret ((if fits then Ok c else Err RegionFull), s') /\
    if fits then @rep_in st s' (set_obj r i (zeroed o) objs) true else @rep_in st s' objs false.
Proof.
  intros Hrep Hr Hl fits. destruct (rep_region _ _ _ _ Hrep Hr) as [_ Hok].
  destruct (locate_split _ _ _ _ Hl) as (Hi & [Hv _] & _).
  assert (Ho : obj_ok o) by (eapply Forall_lookup_1, Hi; apply Hok).
  destruct (zeroed_ok o Ho) as [Hok' Hlen].
  destruct (region_replace _ _ _ (zeroed o) Hi Hlen) as [_ Hnew].
  pose proof (region_split _ _ _ Hi) as Hold.
  assert (Hpost : (used (take (S i) (objs !!! r)) + length (after (objs !!! r) i) = SIZE)%nat).
  { pose proof (region_bytes_length _ Hok) as Hs. rewrite Hold, !length_app, encode_objs_length, encode_length in Hs.
    rewrite (take_S_r _ _ _ Hi), used_app, used_one. lia. }
  unfold fits. destruct (Nat.leb_spec (used (take (S i) (objs !!! r)) + HEADER_LENGTH) SIZE);
    rewrite Hold, <- take_used, zeroise_entry_ok by done;
    destruct (Nat.leb_spec HEADER_LENGTH (length (after (objs !!! r) i))) as [Hp|Hp]; try lia.
  - eapply write_back_ok; [done|done| |exact Hold|by apply clears_zeroed|done|by eapply replace_ok|exact Hnew].
    pose proof (region_bytes_length _ Hok) as Hs. rewrite Hold in Hs.
    rewrite !length_app, !encode_length, length_replicate, length_drop in *. lia.
  - by eexists.
Qed.

(** * Appending *)

Lemma place_region p os (s : KV) : region_ok SIZE os -> (0 < p)%nat ->
  find_place SIZE (SIZE + 1) p (region_bytes SIZE os) 0 s =
  if (SIZE <=? used os + p)%nat then Ret (Ok NoRoom, set_read_buffer_ (Some (region_bytes SIZE os)) s)
  else Ret (Ok (Free (used os)), s).
Proof.
  intros [Hok Hu] Hp. pose proof (used_ge_length _ Hok).
  exact (find_place_encoded SIZE p os Hp Hok (SIZE + 1) [] (SIZE - used os) s ltac:(lia) ltac:(cbn; lia)).
Qed.

Lemma append_loop_ok h value objs : good_hash h -> bytes_ok value ->
  (HEADER_LENGTH + length value + CHECK_SUM_LEN < 0xfff)%nat ->
  let len := (HEADER_LENGTH + length value + CHECK_SUM_LEN)%nat in
  let header := mkHeader VERSION FLAGS_VALID (Z.of_nat len) h in
  forall fuel k m s,
  rep s objs true -> in_range n (home n h) (unrank k) -> (2 * n <= k + S m)%nat ->
  (length (path_from h k m) <= fuel)%nat ->
  exists s', append_loop SIZE fuel h value header (home n h) (unrank k) s =
      Ret (match place_in SIZE h (HEADER_LENGTH + length value) objs (path_from h k m) with
           | AlreadyThere => Err KeyAlreadyExists
           | Full => Err FlashFull
           | At r => if (used (objs !!! r) + len <=? SIZE)%nat then Ok Written else Err ObjectTooLarge
           end, s') /\
    match place_in SIZE h (HEADER_LENGTH + length value) objs (path_from h k m) with
    | At r => if (used (objs !!! r) + len <=? SIZE)%nat
              then rep s' (<[r := (objs !!! r) ++ [fresh_obj h value]]> objs) true
              else rep s' objs false
    | _ => rep s' objs true
    end.
Proof.
  intros Hh Hv Hlen len header. induction fuel as [|fuel IH]; intros k m s Hrep Hin Hm Hf; [cbn in Hf; lia|].
  destruct (turn_ok (m := m) s objs Hrep Hin) as (Hr & Hok & Hp & Hload). rewrite Hp in *.
  set (r := region_at _ _) in *. cbn [append_loop place_in].
  destruct (Hload (fun reg => AppendKey (ReadRegion reg))) as (s1 & E1 & Hrep1 & Hrep2).
  erewrite bind_ok by done. erewrite bind_ok by (unfold lift; rewrite (rep_state _ _ _ Hrep); cbn; done).
  rewrite (rep_state _ _ _ Hrep), !bool_decide_eq_false_2 by done. fold r. cbn [orb].
  erewrite bind_ok by apply E1.
  erewrite bind_ok by (unfold lift; rewrite find_region by (done || apply Hh); done).
  destruct (locate h (objs !!! r)) as [ [i o]|] eqn:El.
  { erewrite bind_ok by done. by eexists. }
  pose proof (place_region (HEADER_LENGTH + length value) _ s1 Hok ltac:(unfold HEADER_LENGTH; lia)) as Hfp.
  destruct (Nat.leb_spec SIZE (used (objs !!! r) + (HEADER_LENGTH + length value))) as [Hno|Hroom];
    erewrite bind_ok by apply Hfp.
  - destruct (next_region_ok _ _ _ h k m FlashFull Hrep2 Hin Hm) as [ [E En]|(k' & m' & E & Hin' & Hm' & En)];
      fold r in En; rewrite E in *.
    + eexists. split; [|apply Hrep2]. apply bind_err. exact En.
    + erewrite bind_ok by exact En.
      apply (IH k' m' _ Hrep2 Hin' Hm'). cbn [length map] in Hf. unfold path_from. cbn [map length]. lia.
  - apply (write_object_ok s1 objs r h value Hrep1 Hr Hh Hv Hlen Hroom).
Qed.

Lemma append_refines h value s objs : good_hash h -> bytes_ok value ->
  (HEADER_LENGTH + length value + CHECK_SUM_LEN < 0xfff)%nat -> rep s objs true ->
  let '(r, objs', kept) := spec_append SIZE n h value objs in
  exists s', append_key SIZE h value s = Ret (r, s') /\ rep s' objs' kept.
Proof.
  intros Hh Hv Hlen Hrep. pose proof (rep_some _ _ _ Hrep) as Hn. destruct (path_start h Hn) as (m & Hm & Ep & Hin & Hl).
  destruct (append_loop_ok h value objs Hh Hv Hlen (fuel_regions SIZE s) 0 m s Hrep Hin Hm) as (s' & E & Hrep').
  { rewrite <- Ep, Hl. unfold fuel_regions. rewrite (rep_num _ _ _ Hrep). lia. }
  assert (Ea : append_key SIZE h value s = append_loop SIZE (fuel_regions SIZE s) h value
    (mkHeader VERSION FLAGS_VALID (Z.of_nat (HEADER_LENGTH + length value + CHECK_SUM_LEN)) h) (home n h) (unrank 0) s).
  { unfold append_key. erewrite bind_ok by (by eapply get_region_ok).
    destruct (Nat.ltb_spec 0xfff (HEADER_LENGTH + length value + CHECK_SUM_LEN)) as [?|_]; [lia|].
    erewrite bind_ok; [done|]. unfold lift, header_new.
    rewrite (proj2 (Z.ltb_lt _ _)) by lia. done. }
  rewrite Ea, E. unfold spec_append. rewrite Ep in *. destruct (place_in _ _ _ _ _); try by eexists.
  destruct (_ <=? _)%nat; by eexists.
Qed.

(** * Deleting *)

(** The search that [invalidate_key] and [zeroise_key] share ends at the object, with
    the region in the buffer. *)
Lemma delete_loop_ok in_state delete h objs : good_hash h -> (forall reg, in_state reg <> NoState) ->
  forall fuel k m s,
  rep s objs true -> in_range n (home n h) (unrank k) -> (2 * n <= k + S m)%nat ->
  (length (path_from h k m) <= fuel)%nat ->
  exists s', match search_in SIZE h objs (path_from h k m) with
   | Some (r, i, o) =>
     rep s' objs false /\ (r < n)%nat /\ locate h (objs !!! r) = Some (i, o) /\
     delete_loop SIZE fuel in_state delete h (home n h) (unrank k) s =
     delete (region_bytes SIZE (objs !!! r)) r (used (take i (objs !!! r))) (o_len o) s'
   | None => rep s' objs true /\
     delete_loop SIZE fuel in_state delete h (home n h) (unrank k) s = Ret (Err KeyNotFound, s')
   end.
Proof.
  intros Hh Hst. induction fuel as [|fuel IH]; intros k m s Hrep Hin Hm Hf; [cbn in Hf; lia|].
  destruct (turn_ok (m := m) s objs Hrep Hin) as (Hr & Hok & Hp & Hload). rewrite Hp in *.
  set (r := region_at _ _) in *. cbn [delete_loop search_in].
  destruct (Hload (fun reg => in_state (ReadRegion reg))) as (s1 & E1 & Hrep1 & Hrep2).
  erewrite bind_ok by done. rewrite (rep_state _ _ _ Hrep), decide_True by done. erewrite bind_ok by done.
  rewrite !bool_decide_eq_false_2 by (by intros H; symmetry in H; apply Hst in H). fold r.
  erewrite bind_ok by apply E1.
  erewrite bind_ok by (unfold lift; rewrite find_region by (done || apply Hh); done).
  destruct (locate h (objs !!! r)) as [ [i o]|] eqn:El.
  { exists s1. by split_and!. }
  erewrite bind_ok by done. destruct (passable SIZE (objs !!! r)).
  - destruct (next_region_ok _ _ _ h k m KeyNotFound Hrep2 Hin Hm) as [ [E En]|(k' & m' & E & Hin' & Hm' & En)];
      fold r in En; rewrite E in *.
    + eexists. split; [apply Hrep2|]. apply bind_err. exact En.
    + erewrite bind_ok by exact En.
      apply (IH k' m' _ Hrep2 Hin' Hm'). cbn [length map] in Hf. unfold path_from. cbn [map length]. lia.
  - eexists. split; [apply Hrep2|done].
Qed.

Lemma delete_key_ok in_state delete h s objs : good_hash h -> (forall reg, in_state reg <> NoState) -> rep s objs true ->
  exists s', match search_in SIZE h objs (path n h) with
   | Some (r, i, o) =>
     rep s' objs false /\ (r < n)%nat /\ locate h (objs !!! r) = Some (i, o) /\
     delete_loop SIZE (fuel_regions SIZE s) in_state delete h (home n h) 0 s =
     delete (region_bytes SIZE (objs !!! r)) r (used (take i (objs !!! r))) (o_len o) s'
   | None => rep s' objs true /\
     delete_loop SIZE (fuel_regions SIZE s) in_state delete h (home n h) 0 s = Ret (Err KeyNotFound, s')
   end.
Proof.
  intros Hh Hst Hrep. pose proof (rep_some _ _ _ Hrep) as Hn. destruct (path_start h Hn) as (m & Hm & Ep & Hin & Hl).
  rewrite Ep. apply (delete_loop_ok in_state delete h objs Hh Hst _ 0 m s Hrep Hin Hm).
  rewrite <- Ep, Hl. unfold fuel_regions. rewrite (rep_num _ _ _ Hrep). lia.
Qed.

Lemma invalidate_refines h s objs : good_hash h -> rep s objs true ->
  let '(r, objs', kept) := spec_invalidate SIZE n h objs in
  exists s', invalidate_key SIZE h s = Ret (r, s') /\ rep s' objs' kept.
Proof.
  intros Hh Hrep. unfold spec_invalidate, invalidate_key. erewrite bind_ok by (by eapply get_region_ok).
  destruct (delete_key_ok InvalidateKey (invalidate_entry SIZE) h s objs Hh ltac:(done) Hrep) as (s1 & H).
  destruct (search_in _ _ _ _) as [ [ [r i] o]|]; [|destruct H as [? ->]; by eexists].
  destruct H as (Hrep1 & Hr & Hl & ->). by eapply invalidate_stored.
Qed.

Lemma zeroise_refines h s objs : good_hash h -> rep s objs true ->
  let '(r, objs', kept) := spec_zeroise SIZE n h objs in
  exists s', zeroise_key SIZE h s = Ret (r, s') /\ rep s' objs' kept.
Proof.
  intros Hh Hrep. unfold spec_zeroise, zeroise_key. erewrite bind_ok by (by eapply get_region_ok).
  destruct (delete_key_ok ZeroiseKey (zeroise_entry SIZE) h s objs Hh ltac:(done) Hrep) as (s1 & H).
  destruct (search_in _ _ _ _) as [ [ [r i] o]|]; [|destruct H as [? ->]; by eexists].
  destruct H as (Hrep1 & Hr & Hl & ->). destruct (zeroise_stored _ _ _ _ _ _ Hrep1 Hr Hl) as (s2 & E & Hrep2).
  destruct (_ <=? _)%nat; by exists s2.
Qed.

(** * Garbage collection *)

Lemma region_bytes_nil : region_bytes SIZE [] = blank SIZE.
Proof. unfold region_bytes. change (used []) with 0%nat. by rewrite Nat.sub_0_r. Qed.

Lemma erase_ok {st} s objs kept r : @rep_in st s objs kept -> (r < n)%nat ->
  exists s', erase r s = Ret (Ok (Ok tt), s') /\ @rep_in st s' (<[r := []]> objs) kept.
Proof.
  intros Hrep Hr. destruct (erase_law (controller s) r) as (f' & Ef & Hf).
  { rewrite (rep_flash _ _ _ Hrep), length_map, (rep_len _ _ _ Hrep). done. }
  eexists. split; [unfold erase; rewrite Ef; done|].
  destruct Hrep as [? ? ? ? Hlen Hall Hfl ?]. split; try done.
  - by rewrite length_insert.
  - apply Forall_insert; [done|]. split; [constructor|]. unfold used. cbn. lia.
  - cbn [controller set_controller]. rewrite Hf, Hfl. symmetry. rewrite list_fmap_insert. by rewrite region_bytes_nil.
Qed.

Lemma rubbish_region os (s : KV) : region_ok SIZE os -> SIZE <> 0%nat ->
  rubbish_loop SIZE (SIZE + 1) (region_bytes SIZE os) 0 false s =
  Ret (Ok (is_rubbish os), set_read_buffer_ (Some (region_bytes SIZE os)) s).
Proof.
  intros [Hok Hu] H0. pose proof (used_ge_length os Hok).
  pose proof (rubbish_encoded SIZE os Hok (SIZE + 1) [] (SIZE - used os) false s ltac:(lia) ltac:(cbn; lia)) as E.
  cbn [app length orb] in E. fold (region_bytes SIZE os) in E. rewrite E. do 4 f_equal.
  destruct os as [|o os]; [|done]. cbn [is_empty negb orb]. change (used []) with 0%nat.
  destruct (Nat.eqb_spec (SIZE - 0) 0); [lia|done].
Qed.

Lemma collect_region_ok s objs r ff : rep s objs true -> (r < n)%nat ->
  exists s', garbage_collect_region SIZE r ff s = Ret (Ok (if is_rubbish (objs !!! r) then SIZE else 0%nat), s') /\
    rep s' (<[r := collect (objs !!! r)]> objs) true.
Proof.
  intros Hrep Hr. destruct (rep_region _ _ _ _ Hrep Hr) as [_ Hok].
  destruct (load_ok s objs (fun reg => GarbageCollect (RubbishReadRegion reg ff)) r Hrep Hr) as (s1 & E1 & Hrep1).
  pose proof (replace_rep _ _ _ r _ Hrep1 eq_refl Hr) as Hrep2.
  unfold garbage_collect_region. erewrite bind_ok by done.
  rewrite (rep_state _ _ _ Hrep), bool_decide_eq_false_2 by done. erewrite bind_ok by exact E1.
  erewrite bind_ok by (apply rubbish_region; [done|apply (rep_size _ _ _ Hrep)]).
  unfold collect. destruct (is_rubbish (objs !!! r)).
  - destruct (erase_ok _ _ _ r Hrep2 Hr) as (s2 & E2 & Hrep3). exists s2. split; [|done].
    erewrite bind_ok by exact E2. done.
  - eexists. split; [done|]. rewrite list_insert_id; [done|].
    apply list_lookup_lookup_total_lt. by rewrite (rep_len _ _ _ Hrep).
Qed.

Lemma collect_loop_ok rest : forall done_ ff s, rep s (done_ ++ rest) true ->
  exists s', collect_loop SIZE (seq (length done_) (length rest)) ff s =
      Ret (Ok (ff + SIZE * length (List.filter is_rubbish rest))%nat, s') /\
    rep s' (done_ ++ map collect rest) true.
Proof.
  induction rest as [|os rest IH]; intros done_ ff s Hrep.
  { exists s. cbn. rewrite Nat.mul_0_r, Nat.add_0_r. done. }
  cbn [length seq collect_loop map List.filter]. pose proof (rep_len _ _ _ Hrep) as Hl. rewrite length_app in Hl. cbn in Hl.
  destruct (collect_region_ok s _ (length done_) ff Hrep ltac:(lia)) as (s1 & E1 & Hrep1).
  rewrite (list_lookup_total_middle done_ rest os) in * by done.
  erewrite bind_ok by exact E1.
  replace (<[length done_:=collect os]> (done_ ++ os :: rest)) with ((done_ ++ [collect os]) ++ rest) in Hrep1.
  2:{ rewrite <- app_assoc. cbn. rewrite <- (Nat.add_0_r (length done_)), insert_app_r. done. }
  destruct (IH _ (ff + if is_rubbish os then SIZE else 0)%nat _ Hrep1) as (s2 & E2 & Hrep2).
  rewrite length_app, Nat.add_1_r in E2. exists s2. rewrite E2. split.
  - do 3 f_equal. destruct (is_rubbish os); cbn [length]; lia.
  - by rewrite <- app_assoc in Hrep2.
Qed.

Lemma collect_refines s objs : rep s objs true ->
  exists s', garbage_collect SIZE s = Ret (Ok (spec_collect SIZE objs).1, s') /\ rep s' (spec_collect SIZE objs).2 true.
Proof.
  intros Hrep. unfold garbage_collect. erewrite bind_ok by (by eapply rep_num_region). erewrite bind_ok by done.
  rewrite (rep_state _ _ _ Hrep). erewrite bind_ok by done. cbn iota. rewrite Nat.sub_0_r, <- (rep_len _ _ _ Hrep).
  destruct (collect_loop_ok objs [] 0 s Hrep) as (s' & E & Hrep'). exists s'. cbn [length app] in *.
  rewrite E. done.
Qed.

(** * Initialisation *)

Lemma set_state_rep {st} s objs kept st' : @rep_in st s objs kept -> @rep_in st' (set_state_ st' s) objs kept.
Proof. intros []. by split. Qed.

Lemma erase_loop_ok {st} rest : forall done_ s, @rep_in st s (done_ ++ rest) true ->
  exists s', erase_loop (seq (length done_) (length rest)) s = Ret (Ok tt, s') /\
    @rep_in st s' (done_ ++ replicate (length rest) []) true.
Proof.
  induction rest as [|os rest IH]; intros done_ s Hrep; [by exists s|].
  cbn [length seq erase_loop replicate]. pose proof (rep_len _ _ _ Hrep) as Hl. rewrite length_app in Hl. cbn in Hl.
  destruct (erase_ok s _ _ (length done_) Hrep ltac:(lia)) as (s1 & E1 & Hrep1). erewrite bind_ok by exact E1.
  replace (<[length done_:=[] ]> (done_ ++ os :: rest)) with ((done_ ++ [ [] ]) ++ rest) in Hrep1.
  2:{ rewrite <- app_assoc. cbn. rewrite <- (Nat.add_0_r (length done_)), insert_app_r. done. }
  destruct (IH _ _ Hrep1) as (s2 & E2 & Hrep2). rewrite length_app, Nat.add_1_r in E2. exists s2. split; [done|].
  by rewrite <- app_assoc in Hrep2.
Qed.

(** The first object of an empty store, while the store is being initialised. *)
Lemma append_first h s : good_hash h -> @rep_in (Init EraseComplete) s (replicate n []) true ->
  (HEADER_LENGTH + CHECK_SUM_LEN <= SIZE)%nat ->
  exists s', append_key SIZE h [] s = Ret (Ok Written, s') /\
    @rep_in (Init EraseComplete) s' (<[home n h := [fresh_obj h []]]> (replicate n [])) true.
Proof.
  intros Hh Hrep Hs. pose proof (rep_some _ _ _ Hrep) as Hn. pose proof (home_lt h Hn) as Hr.
  assert (Hos : (replicate n [] : objects) !!! home n h = []) by (by apply lookup_total_replicate_2).
  destruct (load_ok s _ (fun reg => AppendKey (ReadRegion reg)) (home n h) Hrep Hr) as (s1 & E1 & Hrep1).
  destruct (rep_region _ _ _ _ Hrep Hr) as [_ Hok].
  destruct (write_object_ok s1 _ (home n h) h [] Hrep1 Hr Hh) as (s2 & E2 & Hrep2);
    [constructor|by apply Nat.ltb_lt|rewrite Hos; unfold HEADER_LENGTH, HASH_OFFSET, CHECK_SUM_LEN in *; cbn; lia|].
  rewrite Hos in *. change (used []) with 0%nat in *. cbn [length app] in *.
  rewrite (proj2 (Nat.leb_le _ _)) in E2, Hrep2 by (unfold HEADER_LENGTH, HASH_OFFSET, CHECK_SUM_LEN in *; lia).
  exists s2. split; [|done].
  unfold append_key. erewrite bind_ok by (by eapply get_region_ok). cbn [length].
  rewrite (proj2 (Nat.ltb_ge _ _)) by (unfold HEADER_LENGTH, HASH_OFFSET, CHECK_SUM_LEN; lia).
  erewrite bind_ok by done. unfold fuel_regions. rewrite Nat.add_comm. cbn [Nat.add append_loop].
  erewrite bind_ok by done. rewrite (rep_state _ _ _ Hrep). erewrite bind_ok by done.
  unfold region_at. rewrite Z.add_0_r, Nat2Z.id.
  rewrite !bool_decide_eq_false_2 by done. erewrite bind_ok by exact E1.
  erewrite bind_ok by (unfold lift; rewrite find_region by (done || apply Hh); done). cbn [locate list_find].
  assert (Hfp : find_place SIZE (SIZE + 1) (HEADER_LENGTH + 0) (region_bytes SIZE []) 0 s1 = Ret (Ok (Free 0), s1)).
  { rewrite Nat.add_comm. cbn [Nat.add find_place].
    rewrite (proj2 (Nat.leb_gt _ _)) by (unfold HEADER_LENGTH, HASH_OFFSET, CHECK_SUM_LEN in *; lia).
    unfold region_bytes. change (used []) with 0%nat. rewrite Nat.sub_0_r. cbn [encode_objs map concat app].
    unfold blank, VERSION_OFFSET. rewrite lookup_replicate_2; [done|]. unfold HEADER_LENGTH in Hs. lia. }
  erewrite bind_ok by exact Hfp. exact E2.
Qed.

Definition spec_initialise (hk : Z) (objs : objects) : SuccessCode * objects :=
  let erased := (Written, <[home n hk := [fresh_obj hk []]]> (replicate n [])) in
  match search_in SIZE hk objs (path n hk) with
  | Some (_, _, o) => match o_value o with [] => (Complete, objs) | _ => erased end
  | None => erased
  end.

Lemma set_up_ok hk s objs : good_hash hk -> rep s objs true -> (HEADER_LENGTH + CHECK_SUM_LEN <= SIZE)%nat ->
  exists s', set_up SIZE hk s = Ret (Ok Written, s') /\ rep s' (<[home n hk := [fresh_obj hk []]]> (replicate n [])) true.
Proof.
  intros Hh Hrep Hs. unfold set_up. erewrite bind_ok by done. rewrite (rep_state _ _ _ Hrep).
  destruct (erase_loop_ok objs [] s Hrep) as (s1 & E1 & Hrep1). cbn [length app] in E1, Hrep1.
  rewrite (rep_len _ _ _ Hrep) in *.
  apply (set_state_rep _ _ _ (Init EraseComplete)) in Hrep1.
  destruct (append_first hk _ Hh Hrep1 Hs) as (s2 & E2 & Hrep2).
  apply (set_state_rep _ _ _ NoState) in Hrep2. eexists. split; [|exact Hrep2].
  erewrite bind_ok.
  2:{ unfold erase_all. erewrite bind_ok by (by eapply rep_num_region). erewrite bind_ok by done.
      rewrite (rep_state _ _ _ Hrep). cbv zeta. rewrite Nat.sub_0_r. erewrite bind_ok by exact E1. done. }
  erewrite bind_ok by (unfold catch; rewrite E2; done). done.
Qed.

Lemma initialise_refines hk s objs : good_hash hk -> rep s objs true -> (HEADER_LENGTH + CHECK_SUM_LEN <= SIZE)%nat ->
  exists s', initialise SIZE hk s = Ret (Ok (spec_initialise hk objs).1, s') /\ rep s' (spec_initialise hk objs).2 true.
Proof.
  intros Hh Hrep Hs. unfold initialise. erewrite bind_ok by done. rewrite (rep_state _ _ _ Hrep).
  destruct (get_refines hk [] s objs Hh Hrep) as (s1 & E1 & Hrep1).
  erewrite bind_ok by (unfold catch, get_main_key; rewrite E1; done).
  pose proof (set_up_ok hk s1 objs Hh Hrep1 Hs) as Hset.
  unfold spec_initialise, spec_get, read_result.
  destruct (search_in SIZE hk objs (path n hk)) as [ [ [r i] o]|]; [|exact Hset].
  destruct (o_value o) as [|b v] eqn:Ev; cbn [length Nat.ltb Nat.leb fst snd]; [by exists s1|exact Hset].
Qed.
End refine.
End TicKVSpec.
