(* ===== verification/TicKVRun.v ===== *)
(** Sequences of operations on the key-value store, module [TicKVRun]: the code and
    the operations on objects side by side, for any sequence of calls, including the
    calls that panic. *)

From stdpp Require Import base numbers list.
From S2P Require Import Prelude Crc32 TicKV TicKVObjects TicKVProbe TicKVSpec.
Local Open Scope Z_scope.

Module TicKVRun.
Import TicKV TicKVObjects TicKVProbe TicKVSpec.

(** * Calls *)

Inductive op :=
  | OpInitialise (h : Z) | OpAppend (h : Z) (value : list Z) | OpGet (h : Z) (buf : list Z)
  | OpInvalidate (h : Z) | OpZeroise (h : Z) | OpCollect.
Inductive answer :=
  | Done (r : result SuccessCode ErrorCode)
  | Value (r : result (SuccessCode * nat) ErrorCode) (buf : list Z)
  | Freed (r : result nat ErrorCode).

Definition op_ok (o : op) : Prop :=
  match o with
  | OpInitialise h | OpGet h _ | OpInvalidate h | OpZeroise h => u64_range h
  | OpAppend h value => u64_range h /\ bytes_ok value
  | OpCollect => True
  end.

Section run.
  Context {F : Type} `{!FlashController F} (SIZE : nat).
  Notation KV := (TicKV F).

Definition run_op (o : op) (s : KV) : outcome (answer * KV) :=
  match o with
  | OpInitialise h => let! '(r, s) := initialise SIZE h s in Ret (Done r, s)
  | OpAppend h value => let! '(r, s) := append_key SIZE h value s in Ret (Done r, s)
  | OpGet h buf => let! '(r, (s, buf)) := get_key SIZE h (s, buf) in Ret (Value r buf, s)
  | OpInvalidate h => let! '(r, s) := invalidate_key SIZE h s in Ret (Done r, s)
  | OpZeroise h => let! '(r, s) := zeroise_key SIZE h s in Ret (Done r, s)
  | OpCollect => let! '(r, s) := garbage_collect SIZE s in Ret (Freed r, s)
  end.
Fixpoint run_ops (os : list op) (s : KV) : outcome (list answer * KV) :=
  match os with
  | [] => Ret ([], s)
  | o :: os => let! '(a, s) := run_op o s in let! '(l, s) := run_ops os s in Ret (a :: l, s)
  end.
End run.

(** * The calls on objects *)

Section spec.
  Context (SIZE n : nat).

(** The assertions of [get_region]. *)
Definition hash_ok (h : Z) : bool := negb (h =? 0xffffffffffffffff) && negb (h =? 0).

(** What a call does on a store that has its buffer. *)
Definition spec_call (o : op) (objs : list (list obj)) : answer * list (list obj) * bool :=
  match o with
  | OpInitialise h => let '(c, objs) := spec_initialise SIZE n h objs in (Done (Ok c), objs, true)
  | OpAppend h value => let '(r, objs, kept) := spec_append SIZE n h value objs in (Done r, objs, kept)
  | OpGet h buf => let '(r, buf) := spec_get SIZE n h buf objs in (Value r buf, objs, true)
  | OpInvalidate h => let '(r, objs, kept) := spec_invalidate SIZE n h objs in (Done r, objs, kept)
  | OpZeroise h => let '(r, objs, kept) := spec_zeroise SIZE n h objs in (Done r, objs, kept)
  | OpCollect => let '(freed, objs) := spec_collect SIZE objs in (Freed (Ok freed), objs, true)
  end.

Definition hash_of (o : op) : option Z :=
  match o with
  | OpInitialise h | OpAppend h _ | OpGet h _ | OpInvalidate h | OpZeroise h => Some h
  | OpCollect => None
  end.
Definition object_length (o : op) : nat :=
  match o with OpAppend _ value => HEADER_LENGTH + length value + CHECK_SUM_LEN | _ => 0 end.

(** The calls with their panics: an impossible hash; a length the header cannot hold
    but the length check lets through; a buffer that was lost. *)
Definition spec_op (o : op) (objs : list (list obj)) (kept : bool) : outcome (answer * list (list obj) * bool) :=
  if negb (match hash_of o with Some h => hash_ok h | None => true end) then Panic
  else if (0xfff <? object_length o)%nat then Ret (Done (Err ObjectTooLarge), objs, kept)
  else if (0xfff =? object_length o)%nat then Panic
  else if kept then Ret (spec_call o objs) else Panic.
Fixpoint spec_ops (os : list op) (objs : list (list obj)) (kept : bool)
    : outcome (list answer * list (list obj) * bool) :=
  match os with
  | [] => Ret ([], objs, kept)
  | o :: os =>
    let! '(a, objs, kept) := spec_op o objs kept in
    let! '(l, objs, kept) := spec_ops os objs kept in
    Ret (a :: l, objs, kept)
  end.
End spec.

(** * The refinement *)

Section refine.
  Context {F : Type} (SIZE n : nat) `{!FlashController F, !FlashView F, !FlashLaws F SIZE}.
  Notation KV := (TicKV F).
  Notation rep := (@rep_in F SIZE n _ NoState).

Lemma good_hash_of h : u64_range h -> hash_ok h = true -> good_hash h.
Proof.
  intros Hh H. apply andb_true_iff in H as [H1 H2]. apply negb_true_iff, Z.eqb_neq in H1, H2. done.
Qed.

Lemma get_region_panics h (s : KV) {A} (f : nat -> M KV A) : hash_ok h = false ->
  mbind_ (get_region SIZE h) f s = Panic.
Proof.
  intros H. unfold hash_ok in H. unfold get_region, mbind_ at 1.
  destruct (Z.eqb_spec h 0xffffffffffffffff); [done|]. destruct (Z.eqb_spec h 0); [done|]. done.
Qed.

(** Without its buffer every call that reads a region panics. *)
Lemma load_panics (s : KV) b st r : read_buffer s = None -> load b st r s = Panic.
Proof. intros H. unfold load, mbind_, take_buffer. by rewrite H. Qed.

Lemma bind_panic {St A B} (m : M St A) (f : A -> M St B) s : m s = Panic -> mbind_ m f s = Panic.
Proof. intros H. unfold mbind_. by rewrite H. Qed.

Lemma get_lost h buf s objs : good_hash h -> rep s objs false -> get_key SIZE h (s, buf) = Panic.
Proof.
  intros Hh Hrep. unfold get_key. erewrite bind_ok by (cbn [on_kv]; erewrite get_region_ok by done; done).
  unfold fuel_regions. rewrite Nat.add_comm. cbn [Nat.add get_loop].
  erewrite bind_ok by (cbn; done). erewrite bind_ok by (cbn; by rewrite (rep_state _ _ _ _ _ Hrep)).
  apply bind_panic. cbn [on_kv]. rewrite load_panics; [done|apply Hrep].
Qed.
Lemma append_lost h value s objs : good_hash h -> rep s objs false ->
  (HEADER_LENGTH + length value + CHECK_SUM_LEN < 0xfff)%nat -> append_key SIZE h value s = Panic.
Proof.
  intros Hh Hrep Hlen. unfold append_key. erewrite bind_ok by (by eapply get_region_ok).
  rewrite (proj2 (Nat.ltb_ge _ _)) by lia.
  erewrite bind_ok by (unfold lift, header_new; rewrite (proj2 (Z.ltb_lt _ _)) by lia; done).
  unfold fuel_regions. rewrite Nat.add_comm. cbn [Nat.add append_loop].
  erewrite bind_ok by done. erewrite bind_ok by (unfold lift; rewrite (rep_state _ _ _ _ _ Hrep); cbn; done).
  apply bind_panic. apply load_panics. apply Hrep.
Qed.
Lemma delete_lost in_state delete h s objs : good_hash h -> rep s objs false ->
  delete_loop SIZE (fuel_regions SIZE s) in_state delete h (home n h) 0 s = Panic.
Proof.
  intros Hh Hrep. unfold fuel_regions. rewrite Nat.add_comm. cbn [Nat.add delete_loop].
  erewrite bind_ok by done. rewrite (rep_state _ _ _ _ _ Hrep), decide_True by done. erewrite bind_ok by done.
  apply bind_panic. apply load_panics. apply Hrep.
Qed.
Lemma collect_lost s objs : rep s objs false -> garbage_collect SIZE s = Panic.
Proof.
  intros Hrep. unfold garbage_collect. erewrite bind_ok by (by eapply rep_num_region). erewrite bind_ok by done.
  rewrite (rep_state _ _ _ _ _ Hrep). erewrite bind_ok by done. cbn iota. rewrite Nat.sub_0_r.
  pose proof (rep_some _ _ _ _ _ Hrep) as Hn. destruct n as [|n']; [lia|]. cbn [seq collect_loop].
  apply bind_panic. unfold garbage_collect_region. erewrite bind_ok by done. apply bind_panic, load_panics. apply Hrep.
Qed.

Lemma append_limits h value s objs kept : good_hash h -> rep s objs kept ->
  let len := (HEADER_LENGTH + length value + CHECK_SUM_LEN)%nat in
  ((0xfff < len)%nat -> append_key SIZE h value s = Ret (Err ObjectTooLarge, s)) /\
  (len = 0xfff%nat -> append_key SIZE h value s = Panic).
Proof.
  intros Hh Hrep len. unfold append_key. erewrite bind_ok by (by eapply get_region_ok). fold len. split; intros Hl.
  - by rewrite (proj2 (Nat.ltb_lt _ _)).
  - rewrite (proj2 (Nat.ltb_ge _ _)) by lia. apply bind_panic. unfold lift, header_new.
    rewrite (proj2 (Z.ltb_ge _ _)) by lia. done.
Qed.

(** The call on the bytes does what the call on the objects does. *)
Definition agrees (o : op) (s : KV) (r : outcome (answer * list (list obj) * bool)) : Prop :=
  match r with
  | Ret (a, objs', kept') => exists s', run_op SIZE o s = Ret (a, s') /\ rep s' objs' kept'
  | Panic => run_op SIZE o s = Panic
  | Diverge => False
  end.

Lemma call_refines o s objs : op_ok o -> (forall h, hash_of o = Some h -> hash_ok h = true) ->
  (object_length o < 0xfff)%nat -> (HEADER_LENGTH + CHECK_SUM_LEN <= SIZE)%nat ->
  rep s objs true -> agrees o s (Ret (spec_call SIZE n o objs)).
Proof.
  intros Hop Hh Hlen Hs Hrep.
  assert (Hg : forall h, hash_of o = Some h -> good_hash h).
  { intros h E. apply good_hash_of; [|by apply Hh]. destruct o; cbn in E, Hop; simplify_eq; naive_solver. }
  destruct o as [h|h value|h buf|h|h|]; cbn [hash_of] in Hg; unfold agrees, spec_call, run_op.
  - destruct (initialise_refines SIZE n h s objs (Hg h eq_refl) Hrep Hs) as (s' & -> & Hrep').
    destruct (spec_initialise SIZE n h objs) as [c objs']. by exists s'.
  - pose proof (append_refines SIZE n h value s objs (Hg h eq_refl) (proj2 Hop) Hlen Hrep) as H.
    destruct (spec_append SIZE n h value objs) as [ [r objs'] kept']. destruct H as (s' & -> & Hrep'). by exists s'.
  - destruct (get_refines SIZE n h buf s objs (Hg h eq_refl) Hrep) as (s' & -> & Hrep').
    destruct (spec_get SIZE n h buf objs) as [r buf']. by exists s'.
  - pose proof (invalidate_refines SIZE n h s objs (Hg h eq_refl) Hrep) as H.
    destruct (spec_invalidate SIZE n h objs) as [ [r objs'] kept']. destruct H as (s' & -> & Hrep'). by exists s'.
  - pose proof (zeroise_refines SIZE n h s objs (Hg h eq_refl) Hrep) as H.
    destruct (spec_zeroise SIZE n h objs) as [ [r objs'] kept']. destruct H as (s' & -> & Hrep'). by exists s'.
  - destruct (collect_refines SIZE n s objs Hrep) as (s' & -> & Hrep').
    destruct (spec_collect SIZE objs) as [freed objs']. by exists s'.
Qed.

Lemma get_key_panics h s buf : hash_ok h = false -> get_key SIZE h (s, buf) = Panic.
Proof.
  intros Hh. unfold get_key. apply bind_panic. cbn [on_kv].
  pose proof (get_region_panics h s (fun _ => mret tt) Hh) as E. unfold mbind_ in E at 1.
  destruct (get_region SIZE h s) as [ [ [?|?] ?]| |]; done.
Qed.
Lemma initialise_panics h s objs kept : rep s objs kept -> get_key SIZE h (s, []) = Panic -> initialise SIZE h s = Panic.
Proof.
  intros Hrep Hg. unfold initialise. erewrite bind_ok by done. rewrite (rep_state _ _ _ _ _ Hrep). apply bind_panic.
  unfold catch, get_main_key. by rewrite Hg.
Qed.

Lemma bad_hash_panics o h s objs kept : rep s objs kept -> hash_of o = Some h -> hash_ok h = false ->
  run_op SIZE o s = Panic.
Proof.
  intros Hrep Ho Hh. destruct o; cbn in Ho; simplify_eq; unfold run_op.
  - by erewrite initialise_panics by (done || by apply get_key_panics).
  - unfold append_key. by rewrite get_region_panics.
  - by rewrite get_key_panics.
  - unfold invalidate_key. by rewrite get_region_panics.
  - unfold zeroise_key. by rewrite get_region_panics.
Qed.

Lemma lost_panics o s objs : (forall h, hash_of o = Some h -> good_hash h) -> (object_length o < 0xfff)%nat ->
  rep s objs false -> run_op SIZE o s = Panic.
Proof.
  intros Hg Hlen Hrep. destruct o as [h|h value|h buf|h|h|]; cbn [hash_of] in Hg; unfold run_op.
  - by erewrite initialise_panics by (done || by eapply get_lost; [apply Hg|]).
  - by erewrite append_lost by (done || by apply Hg).
  - by erewrite get_lost by (done || by apply Hg).
  - unfold invalidate_key. erewrite bind_ok by (eapply get_region_ok; [done|by apply Hg]).
    by erewrite delete_lost by (done || by apply Hg).
  - unfold zeroise_key. erewrite bind_ok by (eapply get_region_ok; [done|by apply Hg]).
    by erewrite delete_lost by (done || by apply Hg).
  - by erewrite collect_lost.
Qed.

Lemma op_refines o s objs kept : op_ok o -> (HEADER_LENGTH + CHECK_SUM_LEN <= SIZE)%nat ->
  rep s objs kept -> agrees o s (spec_op SIZE n o objs kept).
Proof.
  intros Hop Hs Hrep. unfold spec_op.
  destruct (match hash_of o with Some h => hash_ok h | None => true end) eqn:Eh; cbn [negb].
  2:{ destruct (hash_of o) as [h|] eqn:Ho; [|done]. by eapply bad_hash_panics. }
  assert (Hh : forall h, hash_of o = Some h -> hash_ok h = true) by (intros h E; by rewrite E in Eh).
  assert (Hg : forall h, hash_of o = Some h -> good_hash h).
  { intros h E. apply good_hash_of; [|by apply Hh]. destruct o; cbn in E, Hop; simplify_eq; naive_solver. }
  destruct (Nat.ltb_spec 0xfff (object_length o)) as [Hlt|Hle].
  { destruct o; cbn [object_length] in Hlt; try (exfalso; revert Hlt; apply Nat.nlt_0_r).
    eexists. split; [|done]. unfold run_op.
    by rewrite (proj1 (append_limits _ _ _ _ _ (Hg _ eq_refl) Hrep)). }
  destruct (Nat.eqb_spec 0xfff (object_length o)) as [Heq|Hne].
  { destruct o; cbn [object_length] in Heq; try discriminate Heq. unfold agrees, run_op.
    by rewrite (proj2 (append_limits _ _ _ _ _ (Hg _ eq_refl) Hrep)). }
  destruct kept; [apply call_refines; [done..|lia|done|done]|]. apply (lost_panics o s objs Hg); [lia|done].
Qed.

Lemma ops_refine os s objs kept :
  Forall op_ok os -> (HEADER_LENGTH + CHECK_SUM_LEN <= SIZE)%nat -> rep s objs kept ->
  match spec_ops SIZE n os objs kept with
  | Ret (answers, objs', kept') => exists s', run_ops SIZE os s = Ret (answers, s') /\ rep s' objs' kept'
  | Panic => run_ops SIZE os s = Panic
  | Diverge => False
  end.
Proof.
  intros Hok Hs. revert s objs kept. induction Hok as [|o os Ho Hok IH]; intros s objs kept Hrep; [by exists s|].
  pose proof (op_refines o s objs kept Ho Hs Hrep) as H. unfold agrees in H. cbn [spec_ops run_ops].
  destruct (spec_op SIZE n o objs kept) as [ [ [a objs1] kept1]| |]; [|by cbn; rewrite H|done].
  destruct H as (s1 & E1 & Hrep1). cbn [obind]. rewrite E1. cbn [obind]. specialize (IH s1 objs1 kept1 Hrep1).
  destruct (spec_ops SIZE n os objs1 kept1) as [ [ [l objs2] kept2]| |]; cbn [obind]; [|by rewrite IH|done].
  destruct IH as (s2 & -> & Hrep2). by exists s2.
Qed.
(** C16: a sequence of calls on the key-value store, run by the code on the bytes of
    the flash memory, gives the answers of the calls on lists of objects and leaves
    the memory with the objects they leave, for any calls: found and missing keys,
    keys that are there already, full regions and full flash, buffers that are too
    small, garbage collection and initialisation, the errors after which the store
    has lost its buffer, and the calls that panic.  In particular every loop ends. *)
Theorem tickv_refines_objects os s objs kept :
  Forall op_ok os -> (HEADER_LENGTH + CHECK_SUM_LEN <= SIZE)%nat -> rep s objs kept ->
  match spec_ops SIZE n os objs kept with
  | Ret (answers, objs', kept') => exists s', run_ops SIZE os s = Ret (answers, s') /\ rep s' objs' kept'
  | Panic => run_ops SIZE os s = Panic
  | Diverge => False
  end.
Proof. apply ops_refine. Qed.
End refine.

(** * Flash memory that does not fail

    The regions as lists of bytes; a write clears bits. *)
Notation flash_array := (list (list Z)).
Section flash.
  Context (SIZE : nat).
Definition array_write (addr : nat) (bs : list Z) (f : flash_array) : result unit ErrorCode * flash_array :=
  let '(reg, off) := ((addr / SIZE)%nat, (addr mod SIZE)%nat) in
  match f !! reg with
  | Some d =>
    if (off + length bs <=? length d)%nat then
      (Ok tt, <[reg := take off d ++ zip_with Z.land (drop off d) bs ++ drop (off + length bs) d]> f)
    else (Err WriteFail, f)
  | None => (Err WriteFail, f)
  end.
Definition array_controller : FlashController flash_array := {|
  read_region reg buf f := match f !! reg with Some d => (Ok tt, d, f) | None => (Err ReadFail, buf, f) end;
  write := array_write;
  erase_region reg f :=
    if (reg <? length f)%nat then (Ok tt, <[reg := blank SIZE]> f) else (Err EraseFail, f);
|}.

Definition array_view : FlashView flash_array := fun f => f.
Lemma array_laws : @FlashLaws flash_array SIZE array_controller array_view.
Proof.
  refine (@Build_FlashLaws _ _ array_controller array_view _ _ _); unfold regions, array_view.
  - intros f reg data buf Hd _. exists f. cbn. by rewrite Hd.
  - intros f reg pre old new post Hd Hl Hc Hne. unfold regions, array_view in *. eexists _, (Ok tt). split; [|done]. cbn. unfold array_write.
    assert (Hln : length new = length old) by (symmetry; eapply Forall2_length, Hc).
    assert (Hpos : (0 < length new)%nat) by (destruct new; [done|cbn; lia]).
    rewrite !length_app in Hl.
    rewrite (Nat.mul_comm SIZE), Nat.div_add_l, (Nat.add_comm (reg * SIZE)), Nat.Div0.mod_add by lia.
    rewrite Nat.div_small, Nat.mod_small, Nat.add_0_r, Hd, !length_app by lia.
    rewrite (proj2 (Nat.leb_le _ _)) by lia. rewrite take_app_length, drop_app_length.
    assert (E1 : zip_with Z.land (old ++ post) new = new).
    { clear -Hc. unfold clears in Hc. induction Hc as [|x y old new Hx _ IH]; cbn; [by destruct post|].
      rewrite Hx. f_equal. exact IH. }
    assert (E2 : drop (length pre + length new) (pre ++ old ++ post) = post).
    { rewrite app_assoc, Hln, <- length_app. apply drop_app_length. }
    by rewrite E1, E2.
  - intros f reg Hr. eexists. split; [|done]. cbn [erase_region array_controller]. by rewrite (proj2 (Nat.ltb_lt _ _)).
Defined.
End flash.

(** A store on erased flash holds no objects. *)
Lemma new_rep {F} SIZE n `{!FlashView F} (c : F) buf flash_size :
  SIZE <> 0%nat -> (0 < n)%nat -> (flash_size / SIZE)%nat = n -> length buf = SIZE ->
  regions c = replicate n (blank SIZE) ->
  @rep_in F SIZE n _ NoState (new c buf flash_size) (replicate n []) true.
Proof.
  intros Hs Hn Hf Hb Hc. split; try done.
  - by rewrite length_replicate.
  - apply Forall_replicate. split; [constructor|]. change (used []) with 0%nat. lia.
  - cbn [controller new]. rewrite Hc. unfold region_bytes. symmetry.
    replace (replicate n (blank SIZE)) with (map (fun os : list obj => encode_objs os ++ blank (SIZE - used os)) (replicate n [])); [done|].
    clear. induction n as [|n IH]; [done|]. cbn [replicate map]. rewrite IH. change (used []) with 0%nat. by rewrite Nat.sub_0_r.
  - by exists buf.
Qed.

(** Two erased regions of 64 bytes. *)
Definition demo_store : TicKV flash_array := new (replicate 2 (blank 64)) (replicate 64 0) 128.
#[local] Instance demo_controller : FlashController flash_array := array_controller 64.
#[local] Instance demo_view : FlashView flash_array := array_view.
#[local] Instance demo_laws : FlashLaws flash_array 64 := array_laws 64.
Lemma demo_rep : @rep_in _ 64 2 _ NoState demo_store (replicate 2 []) true.
Proof. apply new_rep; (done || lia). Qed.

Definition demo_ops : list op :=
  [OpInitialise 5; OpAppend 6 [1; 2; 3]; OpGet 6 [0; 0; 0; 0]; OpAppend 6 [9; 9; 9]; OpInvalidate 6; OpGet 6 [0];
   OpCollect; OpGet 0 []].
Lemma tickv_refines_objects_witness :
  run_ops 64 demo_ops demo_store = Panic /\
  exists s' objs', run_ops 64 (take 7 demo_ops) demo_store =
    Ret ([Done (Ok Written); Done (Ok Written); Value (Ok (Complete, 3%nat)) [1; 2; 3; 0]; Done (Err KeyAlreadyExists);
          Done (Ok Written); Value (Err KeyNotFound) [0]; Freed (Ok 64%nat)], s') /\
    @rep_in _ 64 2 _ NoState s' objs' true.
Proof.
  assert (Hok : Forall op_ok demo_ops).
  { repeat first [apply Forall_nil_2|apply Forall_cons_2]; cbn [op_ok]; repeat split;
      repeat first [apply Forall_nil_2|apply Forall_cons_2]; done. }
  assert (Hs : (HEADER_LENGTH + CHECK_SUM_LEN <= 64)%nat) by (apply Nat.leb_le; reflexivity).
  pose proof (tickv_refines_objects 64 2 demo_ops demo_store _ true Hok Hs demo_rep) as H1.
  pose proof (tickv_refines_objects 64 2 (take 7 demo_ops) demo_store _ true (Forall_take _ _ _ Hok) Hs demo_rep) as H2.
  destruct (spec_ops 64 2 demo_ops _ true) as [ [ [? ?] ?]| |] eqn:E1; vm_compute in E1; [discriminate E1| |discriminate E1].
  destruct (spec_ops 64 2 (take 7 demo_ops) _ true) as [ [ [a o] k]| |] eqn:E2; vm_compute in E2; [|discriminate E2..].
  injection E2 as <- <- <-. destruct H2 as (s' & H2). split; [exact H1|]. eexists s', _. exact H2.
Defined.
End TicKVRun.
