(* ===== verification/TicKVMap.v ===== *)
(** The key-value store as a finite map, module [TicKVMap].  As long as a value of a
    key always has the same length, nothing is garbage collected and every region
    keeps room for one more header, the objects on flash are a map from hashes to
    values: appending inserts or finds the key there, reading looks up, deleting
    deletes.  The examples at the end show why those conditions are needed. *)

From stdpp Require Import base numbers list gmap.
From S2P Require Import Prelude Crc32 TicKV TicKVObjects TicKVProbe TicKVSpec TicKVRun.
Local Open Scope Z_scope.

Module TicKVMap.
Import TicKV TicKVObjects TicKVProbe TicKVSpec TicKVRun.

(** * The map *)

Definition value_answer (v buf : list Z) : answer :=
  if (length buf <? length v)%nat then Value (Err (BufferTooSmall (length v))) (take (length buf) v)
  else Value (Ok (Complete, length v)) (v ++ drop (length v) buf).

Inductive map_step : op -> gmap Z (list Z) -> answer -> gmap Z (list Z) -> Prop :=
  | step_append m h v : m !! h = None -> map_step (OpAppend h v) m (Done (Ok Written)) (<[h := v]> m)
  | step_full m h v : m !! h = None -> map_step (OpAppend h v) m (Done (Err FlashFull)) m
  | step_there m h v v' : m !! h = Some v' -> map_step (OpAppend h v) m (Done (Err KeyAlreadyExists)) m
  | step_get m h v buf : m !! h = Some v -> map_step (OpGet h buf) m (value_answer v buf) m
  | step_get_none m h buf : m !! h = None -> map_step (OpGet h buf) m (Value (Err KeyNotFound) buf) m
  | step_invalidate m h v : m !! h = Some v -> map_step (OpInvalidate h) m (Done (Ok Written)) (delete h m)
  | step_invalidate_none m h : m !! h = None -> map_step (OpInvalidate h) m (Done (Err KeyNotFound)) m
  | step_zeroise m h v : m !! h = Some v -> map_step (OpZeroise h) m (Done (Ok Written)) (delete h m)
  | step_zeroise_none m h : m !! h = None -> map_step (OpZeroise h) m (Done (Err KeyNotFound)) m.
Inductive map_run : list op -> gmap Z (list Z) -> list answer -> gmap Z (list Z) -> Prop :=
  | run_nil m : map_run [] m [] m
  | run_cons o os m a m' l m'' : map_step o m a m' -> map_run os m' l m'' -> map_run (o :: os) m (a :: l) m''.

Section map.
  Context (SIZE n : nat) (Hn : (0 < n)%nat).
  (** The length of the values of a key. *)
  Context (size : Z -> nat).
  Notation objects := (list (list obj)).

Definition map_op (o : op) : Prop :=
  op_ok o /\ (object_length o < 0xfff)%nat /\
  match o with
  | OpAppend h v => good_hash h /\ length v = size h
  | OpGet h _ | OpInvalidate h | OpZeroise h => good_hash h
  | OpInitialise _ | OpCollect => False
  end.

(** Object [o] is the [i]-th of region [r]. *)
Definition stored (objs : objects) (r i : nat) (o : obj) : Prop := (r < n)%nat /\ (objs !!! r) !! i = Some o.

(** Every region has room for another header. *)
Definition roomy (objs : objects) : Prop := forall r, (r < n)%nat -> (used (objs !!! r) + HEADER_LENGTH < SIZE)%nat.

Record map_inv (objs : objects) (m : gmap Z (list Z)) : Prop := {
  mi_len : length objs = n;
  mi_ok : Forall (region_ok SIZE) objs;
  mi_uniq : forall h r i o r' i' o', stored objs r i o -> matches h o -> stored objs r' i' o' -> matches h o' ->
    r = r' /\ i = i';
  mi_size : forall r i o, stored objs r i o -> o_valid o = true -> length (o_value o) = size (o_hash o);
  mi_placed : forall r i o l1 l2, stored objs r i o -> o_valid o = true -> path n (o_hash o) = l1 ++ r :: l2 ->
    forall r', r' ∈ l1 -> (SIZE <= used (objs !!! r') + (HEADER_LENGTH + size (o_hash o)))%nat;
  mi_map : forall h v, m !! h = Some v <-> exists r i o, stored objs r i o /\ matches h o /\ o_value o = v;
}.

(** * Searching *)

Lemma path_elem h r : r ∈ path n h <-> (r < n)%nat.
Proof using Hn. apply probe_elem. by apply home_lt. Qed.
Lemma path_NoDup h : NoDup (path n h).
Proof using Hn. apply probe_NoDup. by apply home_lt. Qed.

Lemma locate_None h os : (forall i o, os !! i = Some o -> ~ matches h o) -> locate h os = None.
Proof.
  intros H. apply list_find_None, Forall_forall. intros o Ho. apply list_elem_of_lookup in Ho as [i Hi]. by eapply H.
Qed.

Lemma search_prefix h objs l1 r l2 i o :
  (forall r', r' ∈ l1 -> locate h (objs !!! r') = None /\ passable SIZE (objs !!! r') = true) ->
  locate h (objs !!! r) = Some (i, o) -> search_in SIZE h objs (l1 ++ r :: l2) = Some (r, i, o).
Proof.
  intros H Hl. induction l1 as [|r' l1 IH]; cbn [app search_in]; [by rewrite Hl|].
  destruct (H r') as [-> ->]; [apply list_elem_of_here|]. apply IH. intros r'' Hr. apply H. by right.
Qed.
Lemma place_prefix h p objs l1 r l2 x :
  (forall r', r' ∈ l1 -> locate h (objs !!! r') = None /\ (SIZE <= used (objs !!! r') + p)%nat) ->
  locate h (objs !!! r) = Some x -> place_in SIZE h p objs (l1 ++ r :: l2) = AlreadyThere.
Proof.
  intros H Hl. induction l1 as [|r' l1 IH]; cbn [app place_in]; [by rewrite Hl|].
  destruct (H r') as [-> Hu]; [apply list_elem_of_here|]. rewrite (proj2 (Nat.leb_le _ _) Hu).
  apply IH. intros r'' Hr. apply H. by right.
Qed.
Lemma search_absent h objs rs : (forall r, r ∈ rs -> locate h (objs !!! r) = None) -> search_in SIZE h objs rs = None.
Proof.
  induction rs as [|r rs IH]; intros H; cbn [search_in]; [done|]. rewrite H by apply list_elem_of_here.
  destruct (passable _ _); [|done]. apply IH. intros r' Hr. apply H. by right.
Qed.
Lemma place_absent h p objs rs : (forall r, r ∈ rs -> locate h (objs !!! r) = None) ->
  (place_in SIZE h p objs rs = Full /\ forall r, r ∈ rs -> (SIZE <= used (objs !!! r) + p)%nat) \/
  exists l1 r l2, place_in SIZE h p objs rs = At r /\ rs = l1 ++ r :: l2 /\ (used (objs !!! r) + p < SIZE)%nat /\
    forall r', r' ∈ l1 -> (SIZE <= used (objs !!! r') + p)%nat.
Proof.
  induction rs as [|r rs IH]; intros H; cbn [place_in].
  { left. split; [done|]. intros r Hr. by apply elem_of_nil in Hr. }
  rewrite H by apply list_elem_of_here. destruct (Nat.leb_spec SIZE (used (objs !!! r) + p)) as [Hle|Hlt].
  - destruct IH as [ [E Hall]|(l1 & r' & l2 & E & -> & Hr' & Hall)]; [intros r' Hr; apply H; by right| |].
    + left. split; [done|]. intros r' [->|Hr]%elem_of_cons; [done|by apply Hall].
    + right. exists (r :: l1), r', l2. split_and!; try done. intros r'' [->|Hr]%elem_of_cons; [done|by apply Hall].
  - right. exists [], r, rs. split_and!; try done. intros r' Hr. by apply elem_of_nil in Hr.
Qed.

Section lookup.
  Context (objs : objects) (m : gmap Z (list Z)) (Hinv : map_inv objs m) (Hroom : roomy objs).

Lemma inv_region r : (r < n)%nat -> region_ok SIZE (objs !!! r).
Proof using Hn Hinv.
  intros Hr. rewrite <- (mi_len _ _ Hinv) in Hr. apply lookup_lt_is_Some_2 in Hr as [os Hos].
  rewrite (list_lookup_total_correct _ _ _ Hos). eapply Forall_lookup_1, Hos. apply (mi_ok _ _ Hinv).
Qed.
Lemma inv_obj r i o : stored objs r i o -> obj_ok o /\ (o_len o <= used (objs !!! r))%nat /\ (used (objs !!! r) <= SIZE)%nat.
Proof using Hn Hinv.
  intros [Hr Hi]. destruct (inv_region r Hr) as [Hok Hu]. split_and!; [by eapply Forall_lookup_1, Hi| |done].
  rewrite <- (take_drop_middle _ _ _ Hi), used_app, used_cons. lia.
Qed.

Lemma key_absent h : m !! h = None -> forall r, (r < n)%nat -> locate h (objs !!! r) = None.
Proof using Hn Hinv.
  intros Hm r Hr. apply locate_None. intros i o Hi Ho.
  assert (m !! h = Some (o_value o)) as Hs by (apply (mi_map _ _ Hinv); by exists r, i, o). by rewrite Hm in Hs.
Qed.

Lemma key_missing h : m !! h = None -> search_in SIZE h objs (path n h) = None.
Proof using Hn Hinv. intros Hm. apply search_absent. intros r Hr. by apply key_absent, (path_elem h). Qed.

Lemma key_present h v : m !! h = Some v ->
  exists r i o, stored objs r i o /\ matches h o /\ o_value o = v /\
    search_in SIZE h objs (path n h) = Some (r, i, o) /\
    place_in SIZE h (HEADER_LENGTH + size h) objs (path n h) = AlreadyThere.
Proof using Hn Hinv Hroom.
  intros Hm. apply (mi_map _ _ Hinv) in Hm as (r & i & o & Hst & Hma & Hv). pose proof Hst as [Hr Hi].
  exists r, i, o. pose proof Hma as [Hval <-]. destruct (inv_obj _ _ _ Hst) as (Hok & Hlen & Hsz).
  pose proof (proj2 (path_elem (o_hash o) r) Hr) as Hp. apply list_elem_of_split in Hp as (l1 & l2 & Hp).
  pose proof (mi_placed _ _ Hinv _ _ _ _ _ Hst Hval Hp) as Hplaced.
  assert (Hloc : locate (o_hash o) (objs !!! r) = Some (i, o)).
  { apply list_find_Some. split_and!; [done|done|]. intros j o' Hj Hlt Hm'.
    destruct (mi_uniq _ _ Hinv _ _ _ _ _ _ _ Hst Hma (conj Hr Hj) Hm') as [_ ->]. lia. }
  assert (Hnone : forall r', r' ∈ l1 -> locate (o_hash o) (objs !!! r') = None).
  { intros r' Hr'. apply locate_None. intros j o' Hj Hm'.
    assert (Hin : r' ∈ path n (o_hash o)) by (rewrite Hp; apply elem_of_app; by left).
    apply path_elem in Hin. destruct (mi_uniq _ _ Hinv _ _ _ _ _ _ _ Hst Hma (conj Hin Hj) Hm') as [-> _].
    pose proof (path_NoDup (o_hash o)) as Hnd. rewrite Hp in Hnd. apply NoDup_app in Hnd as (_ & Hnd & _).
    eapply Hnd; [done|]. apply list_elem_of_here. }
  rewrite Hp. split_and!; try done.
  - apply search_prefix; [|done]. intros r' Hr'. split; [by apply Hnone|].
    assert (Hin : r' ∈ path n (o_hash o)) by (rewrite Hp; apply elem_of_app; by left). apply path_elem in Hin.
    specialize (Hplaced r' Hr'). specialize (Hroom r' Hin). unfold passable. rewrite (proj2 (Nat.ltb_lt _ _) Hroom).
    rewrite (obj_len o Hok), (mi_size _ _ Hinv _ _ _ Hst Hval) in Hlen.
    destruct (objs !!! r') as [|x os] eqn:E; [|done].
    change (used []) with 0%nat in Hplaced. unfold HEADER_LENGTH, HASH_OFFSET in *. lia.
  - eapply place_prefix; [|done]. intros r' Hr'. split; [by apply Hnone|by apply Hplaced].
Qed.
End lookup.

(** * Updates *)

Lemma app_inj_NoDup (r : nat) l1 l2 k1 k2 : l1 ++ r :: l2 = k1 ++ r :: k2 -> NoDup (l1 ++ r :: l2) -> l1 = k1.
Proof using Hn.
  revert k1. induction l1 as [|x l1 IH]; intros [|y k1] E Hnd; cbn in E; [done|..]; injection E as -> E.
  - apply NoDup_cons in Hnd as [Hnd _]. destruct Hnd. rewrite E. apply elem_of_app. right. apply list_elem_of_here.
  - apply NoDup_cons in Hnd as [Hnd _]. destruct Hnd. apply elem_of_app. right. apply list_elem_of_here.
  - f_equal. apply IH; [done|]. by apply NoDup_cons in Hnd as [_ Hnd].
Qed.

Lemma stored_update objs r os' r' i o : length objs = n -> (r < n)%nat ->
  stored (<[r := os']> objs) r' i o <-> (r' = r /\ os' !! i = Some o) \/ (r' <> r /\ stored objs r' i o).
Proof using Hn.
  intros Hlen Hr. unfold stored. destruct (decide (r' = r)) as [->|Hne].
  - rewrite list_lookup_total_insert_eq by (by rewrite Hlen). naive_solver.
  - rewrite list_lookup_total_insert_ne by done. naive_solver.
Qed.

Lemma used_update objs r os' r' : length objs = n -> (r < n)%nat -> (used (objs !!! r) <= used os')%nat ->
  (used (objs !!! r') <= used (<[r := os']> objs !!! r'))%nat.
Proof using Hn.
  intros Hlen Hr Hle. destruct (decide (r' = r)) as [->|Hne].
  - by rewrite list_lookup_total_insert_eq by (by rewrite Hlen).
  - by rewrite list_lookup_total_insert_ne by done.
Qed.

Lemma append_preserves objs m h v l1 r l2 : map_inv objs m -> m !! h = None ->
  obj_ok (fresh_obj h v) -> length v = size h -> path n h = l1 ++ r :: l2 ->
  (used (objs !!! r) + o_len (fresh_obj h v) <= SIZE)%nat ->
  (forall r', r' ∈ l1 -> (SIZE <= used (objs !!! r') + (HEADER_LENGTH + size h))%nat) ->
  map_inv (<[r := (objs !!! r) ++ [fresh_obj h v]]> objs) (<[h := v]> m).
Proof using Hn.
  intros Hinv Hm Hok Hsize Hp Hfit Hno.
  assert (Hr : (r < n)%nat) by (apply (path_elem h); rewrite Hp; apply elem_of_app; right; apply list_elem_of_here).
  pose proof (mi_len _ _ Hinv) as Hlen. set (o := fresh_obj h v) in *. set (os := objs !!! r) in *.
  assert (Hst : forall r' i x, stored (<[r := os ++ [o]]> objs) r' i x <->
    stored objs r' i x \/ (r' = r /\ i = length os /\ x = o)).
  { intros r' i x. rewrite stored_update by done. unfold stored. fold os. split.
    - intros [ [-> Hx]|[_ Hx] ]; [|by left]. apply lookup_app_Some in Hx as [Hx|[Hle Hx] ]; [by left|right].
      destruct (i - length os)%nat eqn:E; [|done]. injection Hx as <-. split_and!; [done|lia|done].
    - intros [ [Hx Hi]|(-> & -> & ->)].
      + destruct (decide (r' = r)) as [->|?]; [left|by right]. split; [done|]. by apply lookup_app_l_Some.
      + left. split; [done|]. by rewrite lookup_app_r, Nat.sub_diag by lia. }
  assert (Hnew : forall h' r' i x, stored objs r' i x -> matches h' x -> matches h' o -> False).
  { intros h' r' i x Hx Hmx [_ Ho]. cbn in Ho. subst h'.
    assert (m !! h = Some (o_value x)) as Hs by (apply (mi_map _ _ Hinv); by exists r', i, x). by rewrite Hm in Hs. }
  assert (Hmono : forall r', (used (objs !!! r') <= used (<[r := os ++ [o]]> objs !!! r'))%nat).
  { intros r'. apply used_update; [done|done|]. fold os. rewrite used_app. lia. }
  split.
  - by rewrite length_insert.
  - apply Forall_insert; [apply Hinv|]. destruct (inv_region objs m Hinv r Hr) as [Hos _]. split.
    + apply Forall_app_2; [done|by apply Forall_singleton].
    + by rewrite used_app, used_one.
  - intros h' r1 i1 x1 r2 i2 x2 H1 Hm1 H2 Hm2. apply Hst in H1, H2.
    destruct H1 as [H1|(-> & -> & ->)], H2 as [H2|(-> & -> & ->)];
      [by eapply (mi_uniq _ _ Hinv)|by exfalso; eapply Hnew..|done].
  - intros r' i x Hx Hv. apply Hst in Hx as [Hx|(-> & -> & ->)]; [by apply (mi_size _ _ Hinv _ _ _ Hx)|done].
  - intros r' i x k1 k2 Hx Hv Hpx r'' Hr''. apply Hst in Hx as [Hx|(-> & -> & ->)].
    + etransitivity; [by apply (mi_placed _ _ Hinv _ _ _ _ _ Hx Hv Hpx r'' Hr'')|]. specialize (Hmono r''). lia.
    + cbn [o fresh_obj o_hash] in *. rewrite Hp in Hpx.
      apply app_inj_NoDup in Hpx; [|rewrite <- Hp; apply path_NoDup]. subst k1.
      etransitivity; [by apply Hno|]. specialize (Hmono r''). lia.
  - intros h' v'. rewrite lookup_insert_Some. setoid_rewrite Hst. rewrite (mi_map _ _ Hinv). split.
    + intros [ [<- <-]|[Hne (r' & i & x & Hx)] ].
      * exists r, (length os), o. split_and!; [by right|done|done].
      * exists r', i, x. destruct Hx as (? & ? & ?). split_and!; [by left|done|done].
    + intros (r' & i & x & [Hx|(-> & -> & ->)] & Hmx & Hv).
      * right. split; [|by exists r', i, x]. intros <-. by eapply Hnew.
      * left. destruct Hmx as [_ <-]. done.
Qed.

Lemma delete_preserves objs m h r i o o' : map_inv objs m -> stored objs r i o -> matches h o ->
  o_valid o' = false -> obj_ok o' -> o_len o' = o_len o ->
  map_inv (set_obj r i o' objs) (delete h m).
Proof using Hn.
  intros Hinv Hro Hma Hv' Hok' Hlen'. pose proof Hro as [Hr Hi]. pose proof (mi_len _ _ Hinv) as Hlen.
  destruct (region_replace SIZE (objs !!! r) i o o' Hi Hlen') as [Hused _]. unfold set_obj.
  pose proof (lookup_lt_Some _ _ _ Hi) as Hlt.
  assert (Hst : forall r' j x, o_valid x = true -> stored (<[r := <[i := o']> (objs !!! r)]> objs) r' j x <->
    stored objs r' j x /\ ~ (r' = r /\ j = i)).
  { intros r' j x Hx. rewrite stored_update by done. unfold stored. split.
    - intros [ [-> Hj]|[Hne Hs] ]; [|by split; [done|intros [? _]] ].
      destruct (decide (j = i)) as [->|Hji]; [rewrite list_lookup_insert_eq in Hj by done; congruence|].
      rewrite list_lookup_insert_ne in Hj by done. by split; [|intros [_ ?] ].
    - intros [ [Hr' Hj] Hne]. destruct (decide (r' = r)) as [->|?]; [left|by right]. split; [done|].
      rewrite list_lookup_insert_ne; [done|]. intros <-. by apply Hne. }
  assert (Hmono : forall r', (used (objs !!! r') <= used (<[r := <[i := o']> (objs !!! r)]> objs !!! r'))%nat).
  { intros r'. apply used_update; [done|done|]. by rewrite Hused. }
  split.
  - by rewrite length_insert.
  - apply Forall_insert; [apply Hinv|]. eapply replace_ok; [by eapply inv_region|done|done|done].
  - intros h' r1 i1 x1 r2 i2 x2 H1 Hm1 H2 Hm2. apply Hst in H1 as [H1 _], H2 as [H2 _]; [|apply Hm2|apply Hm1].
    by eapply (mi_uniq _ _ Hinv).
  - intros r' j x Hx Hv. apply Hst in Hx as [Hx _]; [|done]. by apply (mi_size _ _ Hinv _ _ _ Hx).
  - intros r' j x k1 k2 Hx Hv Hpx r'' Hr''. apply Hst in Hx as [Hx _]; [|done].
    etransitivity; [by apply (mi_placed _ _ Hinv _ _ _ _ _ Hx Hv Hpx r'' Hr'')|]. specialize (Hmono r''). lia.
  - intros h' v'. rewrite lookup_delete_Some, (mi_map _ _ Hinv). split.
    + intros [Hne (r' & j & x & Hx & Hmx & Hvx)]. exists r', j, x. split_and!; [|done|done].
      apply Hst; [apply Hmx|]. split; [done|]. intros [-> ->]. destruct Hx as [_ Hx]. rewrite Hi in Hx. injection Hx as <-.
      destruct Hma as [_ <-], Hmx as [_ <-]. done.
    + intros (r' & j & x & Hx & Hmx & Hvx). apply Hst in Hx as [Hx Hne]; [|apply Hmx].
      split; [|by exists r', j, x]. intros <-. apply Hne.
      destruct (mi_uniq _ _ Hinv _ _ _ _ _ _ _ Hro Hma Hx Hmx) as [-> ->]. done.
Qed.

(** * Steps *)

Lemma roomy_before objs objs' : (forall r, (r < n)%nat -> (used (objs !!! r) <= used (objs' !!! r))%nat) ->
  roomy objs' -> roomy objs.
Proof using Hn. intros H Hroom r Hr. specialize (H r Hr). specialize (Hroom r Hr). lia. Qed.

Lemma search_stored h objs r i o : search_in SIZE h objs (path n h) = Some (r, i, o) -> stored objs r i o /\ matches h o.
Proof using Hn.
  assert (H : forall rs, (forall r, r ∈ rs -> (r < n)%nat) -> search_in SIZE h objs rs = Some (r, i, o) ->
    stored objs r i o /\ matches h o).
  { induction rs as [|r' rs IH]; intros Hin; cbn [search_in]; [done|].
    destruct (locate h (objs !!! r')) as [ [i' o']|] eqn:El.
    - intros E. injection E as -> -> ->. destruct (locate_split _ _ _ _ El) as (Hi & Hm & _).
      split; [|done]. split; [apply Hin, list_elem_of_here|done].
    - destruct (passable _ _); [|done]. apply IH. intros r'' Hr. apply Hin. by right. }
  apply H. intros r' Hr'. by apply (path_elem h).
Qed.

Definition objs_ok (objs : objects) : Prop := length objs = n /\ Forall (region_ok SIZE) objs.
Lemma objs_region objs r : objs_ok objs -> (r < n)%nat -> region_ok SIZE (objs !!! r).
Proof using Hn.
  intros [Hl Hok] Hr. rewrite <- Hl in Hr. apply lookup_lt_is_Some_2 in Hr as [os Hos].
  rewrite (list_lookup_total_correct _ _ _ Hos). by eapply Forall_lookup_1, Hos.
Qed.

(** Replacing a region by one with at least as much in it. *)
Lemma update_grows objs r os' : objs_ok objs -> (r < n)%nat -> region_ok SIZE os' -> (used (objs !!! r) <= used os')%nat ->
  objs_ok (<[r := os']> objs) /\ forall r', (used (objs !!! r') <= used (<[r := os']> objs !!! r'))%nat.
Proof using Hn.
  intros [Hl Hok] Hr Hos Hle. split; [split; [by rewrite length_insert|by apply Forall_insert]|].
  intros r'. by apply used_update.
Qed.
Lemma replace_grows objs r i o o' : objs_ok objs -> stored objs r i o -> obj_ok o' -> o_len o' = o_len o ->
  objs_ok (set_obj r i o' objs) /\ forall r', (used (objs !!! r') <= used (set_obj r i o' objs !!! r'))%nat.
Proof using Hn.
  intros Hok [Hr Hi] Ho' Hl. pose proof (objs_region objs r Hok Hr) as Hreg.
  apply update_grows; [done|done|by eapply replace_ok|].
  destruct (region_replace SIZE _ i o o' Hi Hl) as [-> _]. done.
Qed.

Lemma call_grows o objs a objs' kept : map_op o -> objs_ok objs -> spec_call SIZE n o objs = (a, objs', kept) ->
  objs_ok objs' /\ forall r, (used (objs !!! r) <= used (objs' !!! r))%nat.
Proof using Hn.
  intros (Hop & Hlen & Ho) Hok E.
  assert (Hst : forall h r i x, search_in SIZE h objs (path n h) = Some (r, i, x) -> stored objs r i x /\ obj_ok x).
  { intros h r i x Es. apply search_stored in Es as [Hs _]. split; [done|]. destruct Hs as [Hr Hi].
    eapply Forall_lookup_1, Hi. by apply objs_region. }
  destruct o as [h|h v|h buf|h|h|]; cbn [spec_call] in E; try done.
  - unfold spec_append in E. destruct (place_in _ _ _ _ _) as [| |r] eqn:Ep; simplify_eq; try done.
    destruct (Nat.leb_spec (used (objs !!! r) + (HEADER_LENGTH + length v + CHECK_SUM_LEN)) SIZE); simplify_eq; [|done].
    destruct (fresh_obj_ok h v) as [Hf Hfl]; [apply Hop|apply Hop|done|].
    assert (Hr : (r < n)%nat).
    { apply (path_elem h). revert Ep. generalize (path n h). induction l as [|r' l IH]; cbn [place_in]; [done|].
      destruct (locate h (objs !!! r')); [done|]. destruct (_ <=? _)%nat; intros Ep; [right; by apply IH|].
      injection Ep as ->. apply list_elem_of_here. }
    destruct (objs_region objs r Hok Hr) as [Hos Hu].
    apply update_grows; [done|done| |rewrite used_app; lia].
    apply append_bytes; [done|done|]. rewrite Hfl. done.
  - destruct (spec_get SIZE n h buf objs) as [? ?]. by simplify_eq.
  - unfold spec_invalidate in E. destruct (search_in _ _ _ _) as [ [ [r i] x]|] eqn:Es; simplify_eq; [|done].
    destruct (Hst _ _ _ _ Es) as [Hs Hx]. eapply replace_grows; [done|done|apply kill_ok, Hx..].
  - unfold spec_zeroise in E. destruct (search_in _ _ _ _) as [ [ [r i] x]|] eqn:Es; simplify_eq; [|done].
    destruct (Hst _ _ _ _ Es) as [Hs Hx].
    destruct (_ <=? _)%nat; simplify_eq; [|done]. eapply replace_grows; [done|done|apply zeroed_ok, Hx..].
Qed.

Lemma call_step o objs m a objs' : map_inv objs m -> map_op o -> spec_call SIZE n o objs = (a, objs', true) ->
  roomy objs' -> exists m', map_step o m a m' /\ map_inv objs' m'.
Proof using Hn.
  intros Hinv Hop E Hroom'.
  assert (Hobjs : objs_ok objs) by (split; apply Hinv).
  destruct (call_grows _ _ _ _ _ Hop Hobjs E) as [_ Hgrow].
  assert (Hroom : roomy objs) by (eapply roomy_before; [by intros; apply Hgrow|done]).
  destruct Hop as (Hop & Hlen & Ho). destruct o as [h|h v|h buf|h|h|]; cbn [spec_call] in E; try done.
  - destruct Ho as [Hh Hsz]. unfold spec_append in E. rewrite Hsz in E. destruct (m !! h) as [v'|] eqn:Em.
    + destruct (key_present objs m Hinv Hroom h v' Em) as (r & i & o & _ & _ & _ & _ & Ep). rewrite Ep in E.
      simplify_eq. exists m. split; [by econstructor|done].
    + pose proof (key_absent objs m Hinv h Em) as Hno.
      destruct (place_absent h (HEADER_LENGTH + size h) objs (path n h)) as [ [Ep _]|(l1 & r & l2 & Ep & Hp & Hr & Hl)];
        [by intros r Hr; apply Hno, (path_elem h)|..]; rewrite Ep in E.
      * simplify_eq. exists m. split; [by constructor|done].
      * destruct (Nat.leb_spec (used (objs !!! r) + (HEADER_LENGTH + size h + CHECK_SUM_LEN)) SIZE); simplify_eq.
        destruct (fresh_obj_ok h v) as [Hf Hfl]; [apply Hh|apply Hop|done|].
        exists (<[h := v]> m). split; [by constructor|]. eapply append_preserves; try done. by rewrite Hfl, Hsz.
  - unfold spec_get in E. destruct (m !! h) as [v|] eqn:Em.
    + destruct (key_present objs m Hinv Hroom h v Em) as (r & i & o & _ & _ & Hv & Es & _). rewrite Es in E.
      exists m. split; [|destruct (read_result o buf); by simplify_eq].
      replace a with (value_answer v buf); [by constructor|]. subst v. unfold value_answer. unfold read_result in E.
      destruct (_ <? _)%nat; by simplify_eq.
    + rewrite (key_missing objs m Hinv h Em) in E. simplify_eq. exists m. split; [by constructor|done].
  - unfold spec_invalidate in E. destruct (m !! h) as [v|] eqn:Em.
    + destruct (key_present objs m Hinv Hroom h v Em) as (r & i & o & Hst & Hma & Hv & Es & _). rewrite Es in E.
      simplify_eq. destruct (kill_ok o) as [Hk Hkl]; [by eapply inv_obj|].
      exists (delete h m). split; [by econstructor|]. by eapply delete_preserves.
    + rewrite (key_missing objs m Hinv h Em) in E. simplify_eq. exists m. split; [by constructor|done].
  - unfold spec_zeroise in E. destruct (m !! h) as [v|] eqn:Em.
    + destruct (key_present objs m Hinv Hroom h v Em) as (r & i & o & Hst & Hma & Hv & Es & _). rewrite Es in E.
      destruct (_ <=? _)%nat; simplify_eq. destruct (zeroed_ok o) as [Hk Hkl]; [by eapply inv_obj|].
      exists (delete h m). split; [by econstructor|]. by eapply delete_preserves.
    + rewrite (key_missing objs m Hinv h Em) in E. simplify_eq. exists m. split; [by constructor|done].
Qed.

(** * Runs *)

Lemma map_op_spec o objs kept : map_op o ->
  spec_op SIZE n o objs kept = if kept then Ret (spec_call SIZE n o objs) else Panic.
Proof using Hn.
  intros (Hop & Hlen & Ho). unfold spec_op.
  assert (Hg : forall h, good_hash h -> hash_ok h = true).
  { intros h (_ & H0 & Hf). unfold hash_ok. by rewrite (proj2 (Z.eqb_neq _ _) H0), (proj2 (Z.eqb_neq _ _) Hf). }
  replace (match hash_of o with Some h => hash_ok h | None => true end) with true.
  2:{ symmetry. destruct o; cbn in *; try done; apply Hg; naive_solver. }
  cbn [negb]. rewrite (proj2 (Nat.ltb_ge _ _)) by lia.
  destruct (Nat.eqb_spec 0xfff (object_length o)) as [He|_]; [lia|done].
Qed.

(** An object of [len] bytes fits a region but its checksum does not. *)
Definition tight (objs : objects) (len : nat) : Prop := exists r, (r < n)%nat /\
  (used (objs !!! r) + (HEADER_LENGTH + len) < SIZE < used (objs !!! r) + (HEADER_LENGTH + len + CHECK_SUM_LEN))%nat.

(** With room for a header everywhere, only the append of such an object loses the buffer. *)
Lemma call_lost o objs m a objs' : map_inv objs m -> map_op o -> roomy objs ->
  spec_call SIZE n o objs = (a, objs', false) ->
  exists h v, o = OpAppend h v /\ m !! h = None /\ tight objs (length v) /\ a = Done (Err ObjectTooLarge) /\ objs' = objs.
Proof using Hn.
  intros Hinv (Hop & Hlen & Ho) Hroom E. destruct o as [h|h v|h buf|h|h|]; cbn [spec_call] in E; try done.
  - destruct Ho as [Hh Hsz]. unfold spec_append in E. rewrite Hsz in E. destruct (m !! h) as [v'|] eqn:Em.
    + destruct (key_present objs m Hinv Hroom h v' Em) as (r & i & o & _ & _ & _ & _ & Ep). by rewrite Ep in E.
    + pose proof (key_absent objs m Hinv h Em) as Hno.
      destruct (place_absent h (HEADER_LENGTH + size h) objs (path n h)) as [ [Ep _]|(l1 & r & l2 & Ep & Hp & Hr & Hl)];
        [by intros r Hr; apply Hno, (path_elem h)|..]; rewrite Ep in E; [done|].
      destruct (Nat.leb_spec (used (objs !!! r) + (HEADER_LENGTH + size h + CHECK_SUM_LEN)) SIZE); simplify_eq.
      exists h, v. split_and!; try done. rewrite Hsz. exists r. split; [|lia].
      apply (path_elem h). rewrite Hp. apply elem_of_app. right. apply list_elem_of_here.
  - by destruct (spec_get SIZE n h buf objs).
  - unfold spec_invalidate in E. by destruct (search_in _ _ _ _) as [ [ [r i] x]|].
  - unfold spec_zeroise in E. destruct (search_in _ _ _ _) as [ [ [r i] x]|] eqn:Es; [|done].
    apply search_stored in Es as [ [Hr Hi] _]. specialize (Hroom r Hr).
    destruct (Nat.leb_spec (used (take (S i) (objs !!! r)) + HEADER_LENGTH) SIZE) as [|Hlt]; [done|].
    rewrite <- (take_drop (S i) (objs !!! r)), used_app in Hroom. lia.
Qed.

(** The calls answer as the map does, all of them or up to a tight object. *)
Lemma ops_map os : Forall map_op os -> forall objs m, map_inv objs m ->
  (forall k l objs' kept, spec_ops SIZE n (take k os) objs true = Ret (l, objs', kept) -> roomy objs') ->
  (exists l objs' m', spec_ops SIZE n os objs true = Ret (l, objs', true) /\ map_run os m l m' /\ map_inv objs' m') \/
  exists os1 h v os2 l objs1 m1, os = os1 ++ OpAppend h v :: os2 /\
    spec_ops SIZE n os1 objs true = Ret (l, objs1, true) /\ map_run os1 m l m1 /\ map_inv objs1 m1 /\
    m1 !! h = None /\ tight objs1 (length v) /\
    spec_ops SIZE n (os1 ++ [OpAppend h v]) objs true = Ret (l ++ [Done (Err ObjectTooLarge)], objs1, false) /\
    (os2 <> [] -> spec_ops SIZE n os objs true = Panic).
Proof using Hn.
  induction 1 as [|o os Ho Hos IH]; intros objs m Hinv Hroom.
  { left. exists [], objs, m. split_and!; [done|constructor|done]. }
  destruct (spec_call SIZE n o objs) as [ [a objs1] kept1] eqn:E1.
  assert (Hroom0 : roomy objs) by (by apply (Hroom 0%nat [] objs true)).
  assert (Hroom1 : roomy objs1).
  { apply (Hroom 1%nat [a] objs1 kept1). cbn [take spec_ops]. by rewrite map_op_spec, E1 by done. }
  destruct kept1.
  - destruct (call_step _ _ _ _ _ Hinv Ho E1 Hroom1) as (m1 & Hm1 & Hinv1).
    assert (Hcons : forall os' l objs' kept, spec_ops SIZE n os' objs1 true = Ret (l, objs', kept) ->
      spec_ops SIZE n (o :: os') objs true = Ret (a :: l, objs', kept)).
    { intros os' l objs' kept E. cbn [spec_ops]. rewrite map_op_spec, E1 by done. cbn [obind]. by rewrite E. }
    destruct (IH objs1 m1 Hinv1) as [(l & objs' & m' & E & Hrun & Hinv')|
      (os1 & h & v & os2 & l & objs2 & m2 & -> & E & Hrun & Hinv2 & Hno & Ht & E2 & Hp)].
    + intros k l objs' kept E. apply (Hroom (S k) (a :: l) objs' kept). cbn [take]. by apply Hcons.
    + left. exists (a :: l), objs', m'. split_and!; [by apply Hcons|by econstructor|done].
    + right. exists (o :: os1), h, v, os2, (a :: l), objs2, m2.
      split_and!; [done|by apply Hcons|by econstructor|done|done|done|by apply (Hcons (os1 ++ [_]))|].
      intros Hne. cbn [spec_ops]. rewrite map_op_spec, E1 by done. cbn [obind]. by rewrite Hp.
  - destruct (call_lost _ _ _ _ _ Hinv Ho Hroom0 E1) as (h & v & -> & Hno & Ht & -> & ->). right.
    exists [], h, v, os, [], objs, m. split_and!; try done; [constructor|..]; cbn [app spec_ops];
      rewrite map_op_spec, E1 by done; cbn [obind]; [done|].
    intros Hne. destruct Hos as [|o' os' Ho' Hos]; [done|]. cbn [spec_ops]. by rewrite map_op_spec.
Qed.

(** An erased store is the empty map. *)
Lemma empty_inv : (HEADER_LENGTH < SIZE)%nat -> map_inv (replicate n []) ∅ /\ roomy (replicate n []).
Proof using Hn.
  intros Hs. assert (Hno : forall r i o, ~ stored (replicate n []) r i o).
  { intros r i o [Hr Hi]. by rewrite lookup_total_replicate_2 in Hi. }
  split; [split|].
  - by rewrite length_replicate.
  - apply Forall_replicate. split; [constructor|]. change (used []) with 0%nat. lia.
  - intros h r i o r' i' o' H. by apply Hno in H.
  - intros r i o H. by apply Hno in H.
  - intros r i o l1 l2 H. by apply Hno in H.
  - intros h v. split; [by rewrite lookup_empty|]. intros (r & i & o & H & _). by apply Hno in H.
  - intros r Hr. rewrite lookup_total_replicate_2 by done. exact Hs.
Qed.
End map.

(** C17: while the values of a key keep their length, hashes are neither zero nor all
    ones, objects are shorter than 4095 bytes and every region keeps room for another
    header, the key-value store is a map: any sequence of appends, reads, invalidations
    and zeroisations, run by the code on flash memory, answers as a finite map from
    hashes to values does, to its end or up to the append of an object that fits a
    region when its checksum does not.  An append of a key that is there is refused and
    changes nothing, a read returns the value appended last, a deleted key is not found.
    The append of such a tight object of a new key answers [ObjectTooLarge] and changes
    no object, but the store has lost its buffer, and any further call panics. *)
Theorem tickv_is_map {F} SIZE n `{!FlashController F, !FlashView F, !FlashLaws F SIZE} size os (s : TicKV F) objs m :
  (HEADER_LENGTH + CHECK_SUM_LEN <= SIZE)%nat -> @rep_in F SIZE n _ NoState s objs true ->
  map_inv SIZE n size objs m -> Forall (map_op size) os ->
  (forall k l objs' kept, spec_ops SIZE n (take k os) objs true = Ret (l, objs', kept) -> roomy SIZE n objs') ->
  (exists answers s' objs' m', run_ops SIZE os s = Ret (answers, s') /\ @rep_in F SIZE n _ NoState s' objs' true /\
    map_run os m answers m' /\ map_inv SIZE n size objs' m') \/
  (exists os1 h v os2 answers s1 s2 objs1 m1, os = os1 ++ OpAppend h v :: os2 /\
    run_ops SIZE os1 s = Ret (answers, s1) /\ @rep_in F SIZE n _ NoState s1 objs1 true /\
    map_run os1 m answers m1 /\ map_inv SIZE n size objs1 m1 /\
    m1 !! h = None /\ tight SIZE n objs1 (length v) /\
    run_ops SIZE (os1 ++ [OpAppend h v]) s = Ret (answers ++ [Done (Err ObjectTooLarge)], s2) /\
    @rep_in F SIZE n _ NoState s2 objs1 false /\
    (os2 <> [] -> run_ops SIZE os s = Panic)).
Proof.
  intros Hs Hrep Hinv Hos Hroom. pose proof (rep_some _ _ _ _ _ Hrep) as Hn.
  assert (Hok : Forall op_ok os) by (eapply Forall_impl; [exact Hos|by intros o [? _] ]).
  pose proof (fun os Hok => ops_refine SIZE n os s objs true Hok Hs Hrep) as Href.
  destruct (ops_map SIZE n Hn size os Hos objs m Hinv Hroom) as [(l & objs' & m' & E & Hrun & Hinv')|
    (os1 & h & v & os2 & l & objs1 & m1 & -> & E & Hrun & Hinv1 & Hno & Ht & E2 & Hp)].
  - left. specialize (Href os Hok). rewrite E in Href. destruct Href as (s' & Hr & Hrep'). by exists l, s', objs', m'.
  - right. pose proof Hok as Hok'. apply Forall_app in Hok' as [Hok1 Hok2]. apply Forall_cons in Hok2 as [Hoka _].
    pose proof (Href os1 Hok1) as H1. rewrite E in H1. destruct H1 as (s1 & Hr1 & Hrep1).
    pose proof (Href (os1 ++ [OpAppend h v])) as H2. rewrite E2 in H2.
    destruct H2 as (s2 & Hr2 & Hrep2); [apply Forall_app; split; [done|by apply Forall_singleton]|].
    exists os1, h, v, os2, l, s1, s2, objs1, m1. split_and!; try done.
    intros Hne. specialize (Href _ Hok). by rewrite Hp in Href.
Qed.

#[local] Instance demo_controller : FlashController flash_array := array_controller 64.
#[local] Instance demo_view : FlashView flash_array := array_view.
#[local] Instance demo_laws : FlashLaws flash_array 64 := array_laws 64.
Definition map_demo : list op :=
  [OpAppend 6 (replicate 20 1); OpAppend 8 (replicate 20 2); OpGet 8 (replicate 20 0); OpAppend 8 (replicate 20 3);
   OpAppend 10 (replicate 20 4); OpInvalidate 6; OpGet 6 [0]].

(** Before and after each call both regions have room for a header. *)
Definition roomy_prefixes (os : list op) : bool :=
  forallb (fun k => match spec_ops 64 2 (take k os) (replicate 2 []) true with
    | Ret (_, objs, _) => forallb (fun r => used (objs !!! r) + HEADER_LENGTH <? 64)%nat [0; 1]%nat
    | _ => true end) (seq 0 (S (length os))).
Lemma roomy_prefixes_ok os : roomy_prefixes os = true ->
  forall k l objs' kept, spec_ops 64 2 (take k os) (replicate 2 []) true = Ret (l, objs', kept) -> roomy 64 2 objs'.
Proof.
  intros H k l objs' kept E r Hr. unfold roomy_prefixes in H. rewrite forallb_forall in H.
  assert (Hk : exists k', (k' <= length os)%nat /\ take k' os = take k os).
  { destruct (Nat.le_gt_cases k (length os)); [by exists k|]. exists (length os).
    split; [done|]. by rewrite firstn_all, take_ge by lia. }
  destruct Hk as (k' & Hle & Ek). specialize (H k'). rewrite Ek, E in H.
  assert (Hin : In k' (seq 0 (S (length os)))) by (apply in_seq; lia). specialize (H Hin).
  rewrite forallb_forall in H. apply Nat.ltb_lt, H. destruct r as [|[|r] ]; cbn; [tauto..|lia].
Qed.

(** The second object no longer fits the region of its key and goes to the next one;
    the third does not fit anywhere. *)
Lemma tickv_is_map_witness :
  let answers := [Done (Ok Written); Done (Ok Written); Value (Ok (Complete, 20%nat)) (replicate 20 2);
    Done (Err KeyAlreadyExists); Done (Err FlashFull); Done (Ok Written); Value (Err KeyNotFound) [0]] in
  exists s' m', run_ops 64 map_demo demo_store = Ret (answers, s') /\ map_run map_demo ∅ answers m'.
Proof.
  intros answers. assert (Hok : Forall (map_op (fun _ => 20%nat)) map_demo).
  { repeat first [apply Forall_nil_2|apply Forall_cons_2]; split_and!; try done; try (apply Nat.ltb_lt; reflexivity);
      repeat split; try done; by apply Forall_replicate. }
  destruct (empty_inv 64 2 ltac:(lia) (fun _ => 20%nat) ltac:(apply Nat.ltb_lt; reflexivity)) as [Hinv _].
  assert (Hs : (HEADER_LENGTH + CHECK_SUM_LEN <= 64)%nat) by (apply Nat.leb_le; reflexivity).
  assert (Hrun : exists s', run_ops 64 map_demo demo_store = Ret (answers, s')).
  { destruct (run_ops 64 map_demo demo_store) as [ [a s']| |] eqn:E; vm_compute in E; [|discriminate E..].
    exists s'. injection E as <- <-. reflexivity. }
  destruct Hrun as [s1 Hrun].
  destruct (tickv_is_map 64 2 (fun _ => 20%nat) map_demo demo_store (replicate 2 []) ∅)
    as [(l & s' & objs' & m' & Hr & _ & Hm & _)|(os1 & h & v & os2 & l & s' & s2 & objs1 & m1 & Eos & _ & _ & _ & _ & _ & _ & Hr2 & _ & Hp)];
    [exact Hs|exact demo_rep|exact Hinv|exact Hok|apply roomy_prefixes_ok; vm_compute; reflexivity|..].
  - rewrite Hrun in Hr. injection Hr as <- <-. exists s1, m'. split; [exact Hrun|exact Hm].
  - exfalso. destruct os2 as [|o os2].
    + rewrite <- Eos, Hrun in Hr2. injection Hr2 as Hr2 _.
      apply (f_equal last) in Hr2. rewrite last_snoc in Hr2. discriminate Hr2.
    + rewrite Hp in Hrun; [discriminate Hrun|discriminate].
Defined.

(** * Where the map ends *)

Definition demo (os : list op) : outcome (list answer) :=
  let! '(l, _) := run_ops 64 os demo_store in Ret l.

(** One region that is full to within a header hides the keys that went past it: the
    append is acknowledged and the key is not found. *)
Example full_region_hides_key :
  demo [OpAppend 6 (replicate 40 1); OpAppend 8 [2]; OpGet 8 [0]] =
  Ret [Done (Ok Written); Done (Ok Written); Value (Err KeyNotFound) [0]].
Proof. vm_compute. reflexivity. Qed.

(** Erasing a region on the path of a key hides the key. *)
Example collection_hides_key :
  demo [OpAppend 6 (replicate 20 1); OpAppend 8 [2; 2; 2; 2; 2; 2; 2; 2; 2; 2; 2; 2; 2; 2; 2; 2; 2; 2; 2; 2];
        OpGet 8 (replicate 20 0); OpInvalidate 6; OpCollect; OpGet 8 (replicate 20 0)] =
  Ret [Done (Ok Written); Done (Ok Written); Value (Ok (Complete, 20%nat)) (replicate 20 2); Done (Ok Written);
       Freed (Ok 64%nat); Value (Err KeyNotFound) (replicate 20 0)].
Proof. vm_compute. reflexivity. Qed.

(** A shorter value of a key that is there already is appended before it; when the
    newer one is deleted the older one is back. *)
Example shorter_value_shadows :
  demo [OpAppend 8 (replicate 20 1); OpAppend 6 (replicate 20 2); OpAppend 6 [3]; OpGet 6 (replicate 20 0);
        OpInvalidate 6; OpGet 6 (replicate 20 0)] =
  Ret [Done (Ok Written); Done (Ok Written); Done (Ok Written); Value (Ok (Complete, 1%nat)) (3 :: replicate 19 0);
       Done (Ok Written); Value (Ok (Complete, 20%nat)) (replicate 20 2)].
Proof. vm_compute. reflexivity. Qed.

(** An object whose checksum does not fit is refused without giving the buffer back:
    the next call panics.  So does the deletion of an object near the end of its
    region with zeroes. *)
Example tight_object_loses_buffer :
  demo [OpAppend 6 (replicate 50 1)] = Ret [Done (Err ObjectTooLarge)] /\
  demo [OpAppend 6 (replicate 50 1); OpGet 6 []] = Panic /\
  demo [OpAppend 6 (replicate 40 1); OpZeroise 6] = Ret [Done (Ok Written); Done (Err RegionFull)] /\
  demo [OpAppend 6 (replicate 40 1); OpZeroise 6; OpGet 6 []] = Panic.
Proof. vm_compute. split_and!; reflexivity. Qed.

(** The largest length the check lets through is one the header does not accept. *)
Example longest_object_panics : demo [OpAppend 6 (replicate 4080 0)] = Panic.
Proof. vm_compute. reflexivity. Qed.

(** Bytes that are not an object: a valid entry shorter than its header makes the
    read panic, an entry of length zero makes the append loop. *)
Example corrupt_entries :
  let flash (entry : list Z) := new [entry ++ blank (64 - length entry)] (replicate 64 0) 64 in
  run_op 64 (OpGet 6 []) (flash ([1; 0x80; 14] ++ hash_bytes 6)) = Panic /\
  run_op 64 (OpAppend 6 []) (flash [1; 0x80; 0]) = Diverge.
Proof. vm_compute. split_and!; reflexivity. Qed.
End TicKVMap.
