(* ===== verification/AsyncTicKV.v ===== *)
(** The asynchronous key-value store ([libraries/tickv/src/async_ops.rs]), module
    [AsyncTicKV]: the store on flash memory whose controller answers later.  A call
    that has to wait keeps its arguments and is taken up again by
    [continue_operation]. *)

From stdpp Require Import base numbers list.
From S2P Require Import Prelude Crc32 TicKV.
Local Open Scope Z_scope.

Module AsyncTicKV.
Import (notations) TicKV.

Record AsyncTicKV (F : Type) := mkAsync {
  tickv : TicKV.TicKV F;
  key : option Z;
  value : option (list Z);
  value_length : nat;
}.
Arguments mkAsync {F}.
Arguments tickv {F}.
Arguments key {F}.
Arguments value {F}.
Arguments value_length {F}.

Section async.
  Context {F : Type} `{!TicKV.FlashController F}.
  Context (SIZE : nat).
  Notation KV := (TicKV.TicKV F).
  Notation AKV := (AsyncTicKV F).
  Notation ErrorCode := TicKV.ErrorCode.
  Notation SuccessCode := TicKV.SuccessCode.

Definition set_tickv (s : KV) (a : AKV) : AKV := mkAsync s (key a) (value a) (value_length a).
Definition set_key (k : option Z) (a : AKV) : AKV := mkAsync (tickv a) k (value a) (value_length a).
Definition set_value (v : option (list Z)) (a : AKV) : AKV := mkAsync (tickv a) (key a) v (value_length a).
Definition set_value_length (l : nat) (a : AKV) : AKV := mkAsync (tickv a) (key a) (value a) l.

Definition new (controller : F) (read_buffer : list Z) (flash_size : nat) : AKV :=
  mkAsync (TicKV.new controller read_buffer flash_size) None None 0.

(** [ReadNotReady], [EraseNotReady] or [WriteNotReady]: the answer comes later. *)
Definition is_pending (e : ErrorCode) : bool :=
  match e with
  | TicKV.ReadNotReady _ | TicKV.EraseNotReady _ | TicKV.WriteNotReady _ => true
  | _ => false
  end.

Definition initialise (hashed_main_key : Z) (a : AKV) : outcome (result SuccessCode ErrorCode * AKV) :=
  let a := set_key (Some hashed_main_key) a in
  let! '(r, s) := TicKV.initialise SIZE hashed_main_key (tickv a) in Ret (r, set_tickv s a).

Definition append_key (hash : Z) (buf : list Z) (length : nat) (a : AKV)
    : outcome (result SuccessCode (list Z * ErrorCode) * AKV) :=
  let! v := slice buf 0 length in
  let! '(r, s) := TicKV.append_key SIZE hash v (tickv a) in
  let a := set_tickv s a in
  match r with
  | Ok _ => Ret (Err (buf, TicKV.WriteFail), a)
  | Err e =>
    if is_pending e then
      Ret (Ok TicKV.Queued, set_value_length length (set_value (Some buf) (set_key (Some hash) a)))
    else Ret (Err (buf, e), a)
  end.

Definition get_key (hash : Z) (buf : list Z) (a : AKV)
    : outcome (result SuccessCode (list Z * ErrorCode) * AKV) :=
  let! '(r, (s, buf)) := TicKV.get_key SIZE hash (tickv a, buf) in
  let a := set_tickv s a in
  match r with
  | Ok _ => Ret (Err (buf, TicKV.ReadFail), a)
  | Err e =>
    if is_pending e then Ret (Ok TicKV.Queued, set_value (Some buf) (set_key (Some hash) a))
    else Ret (Err (buf, e), a)
  end.

Definition invalidate_key (hash : Z) (a : AKV) : outcome (result SuccessCode ErrorCode * AKV) :=
  let! '(r, s) := TicKV.invalidate_key SIZE hash (tickv a) in
  let a := set_tickv s a in
  match r with
  | Ok _ => Ret (Err TicKV.WriteFail, a)
  | Err _ => Ret (Ok TicKV.Queued, set_key (Some hash) a)
  end.

Definition zeroise_key (hash : Z) (a : AKV) : outcome (result SuccessCode ErrorCode * AKV) :=
  let! '(r, s) := TicKV.zeroise_key SIZE hash (tickv a) in
  let a := set_tickv s a in
  match r with
  | Ok _ => Ret (Err TicKV.WriteFail, a)
  | Err _ => Ret (Ok TicKV.Queued, set_key (Some hash) a)
  end.

Definition garbage_collect (a : AKV) : outcome (result SuccessCode ErrorCode * AKV) :=
  let! '(r, s) := TicKV.garbage_collect SIZE (tickv a) in
  let a := set_tickv s a in
  match r with
  | Ok _ => Ret (Err TicKV.EraseFail, a)
  | Err _ => Ret (Ok TicKV.Queued, a)
  end.

Definition set_read_buffer (read_buffer : list Z) (a : AKV) : outcome AKV :=
  let! buf := of_option (TicKV.read_buffer (tickv a)) in
  if (length buf =? length read_buffer)%nat
  then Ret (set_tickv (TicKV.set_read_buffer_ (Some read_buffer) (tickv a)) a)
  else Panic.

Definition ContinueReturn : Type := result SuccessCode ErrorCode * option (list Z) * nat.

(** The operation of the state, again. *)
Definition resume (a : AKV) : outcome (result SuccessCode ErrorCode * nat * AKV) :=
  match TicKV.state (tickv a) with
  | TicKV.Init _ =>
    let! k := of_option (key a) in
    let! '(r, s) := TicKV.initialise SIZE k (tickv a) in Ret (r, 0%nat, set_tickv s a)
  | TicKV.AppendKey _ =>
    let! buf := of_option (value a) in
    let! k := of_option (key a) in
    let! v := slice buf 0 (value_length a) in
    let! '(r, s) := TicKV.append_key SIZE k v (tickv a) in
    Ret (r, value_length a, set_tickv s a)
  | TicKV.GetKey _ =>
    let! buf := of_option (value a) in
    let! k := of_option (key a) in
    let! '(r, (s, buf)) := TicKV.get_key SIZE k (tickv a, buf) in
    let a := set_value (Some buf) (set_tickv s a) in
    match r with
    | Ok (c, len) => Ret (Ok c, len, a)
    | Err e => Ret (Err e, 0%nat, a)
    end
  | TicKV.InvalidateKey _ =>
    let! k := of_option (key a) in
    let! '(r, s) := TicKV.invalidate_key SIZE k (tickv a) in Ret (r, 0%nat, set_tickv s a)
  | TicKV.ZeroiseKey _ =>
    let! k := of_option (key a) in
    let! '(r, s) := TicKV.zeroise_key SIZE k (tickv a) in Ret (r, 0%nat, set_tickv s a)
  | TicKV.GarbageCollect _ =>
    let! '(r, s) := TicKV.garbage_collect SIZE (tickv a) in
    let a := set_tickv s a in
    match r with
    | Ok bytes_freed => Ret (Ok TicKV.Complete, bytes_freed, a)
    | Err e => Ret (Err e, 0%nat, a)
    end
  | TicKV.NoState => Panic
  end.

(** [self.tickv.state.set(State::None)] *)
Definition reset (a : AKV) : AKV := set_tickv (TicKV.set_state_ TicKV.NoState (tickv a)) a.

Definition continue_operation (a : AKV) : outcome (ContinueReturn * AKV) :=
  let! '(ret, length, a) := resume a in
  match ret with
  | Ok _ => Ret (ret, value a, length, set_value None (reset a))
  | Err (TicKV.ReadNotReady _) | Err (TicKV.EraseNotReady _) => Ret (ret, None, 0%nat, a)
  | Err (TicKV.WriteNotReady _) => Ret (ret, None, 0%nat, reset a)
  | Err _ => Ret (ret, value a, length, set_value None (reset a))
  end.

End async.
End AsyncTicKV.
