(* ===== verification/AsyncTicKVSpec.v ===== *)
(** The asynchronous key-value store does what the synchronous one does, module
    [AsyncTicKVSpec]: a call is queued with its first read, and the callbacks of the
    flash controller take it to the answer the synchronous call gives on the same
    objects. *)

From stdpp Require Import base numbers list.
From S2P Require Import Prelude Crc32 TicKV TicKVObjects TicKVProbe TicKVSpec TicKVRun AsyncTicKV.
Local Open Scope Z_scope.

Module AsyncTicKVSpec.
Import TicKV TicKVObjects TicKVProbe TicKVSpec TicKVRun.
Module A := AsyncTicKV.

(** A controller whose reads and erasures finish later; its writes are as [c] says. *)
Class AsyncFlashLaws (F : Type) (SIZE : nat) (c : SuccessCode) `{!FlashController F, !FlashView F} := {
  aread_law : forall f reg data buf, regions f !! reg = Some data ->
    exists f', read_region reg buf f = (Err (ReadNotReady reg), buf, f') /\ regions f' = regions f;
  async_writes :: FlashWrites F SIZE c;
  aerase_law : forall f reg, (reg < length (regions f))%nat ->
    exists f', erase_region reg f = (Err (EraseNotReady reg), f') /\ regions f' = <[reg := blank SIZE]> (regions f);
}.

(** * The callbacks *)

(** The region that was asked for. *)
Definition awaited (st : State) : option nat :=
  match st with
  | AppendKey (ReadRegion r) | GetKey (ReadRegion r) | InvalidateKey (ReadRegion r) | ZeroiseKey (ReadRegion r)
  | Init (GetKeyReadRegion r) | Init (AppendKeyReadRegion r) | GarbageCollect (RubbishReadRegion r _) => Some r
  | _ => None
  end.

Section drive.
  Context {F : Type} `{!FlashController F, !FlashView F} (SIZE : nat).
  Notation AKV := (A.AsyncTicKV F).

(** One callback: the bytes that were read go to the buffer, and the operation goes
    on. *)
Definition callback (a : AKV) : outcome (A.ContinueReturn * AKV) :=
  let! a :=
    match awaited (state (A.tickv a)) with
    | Some r => A.set_read_buffer (regions (controller (A.tickv a)) !!! r) a
    | None => Ret a
    end in
  A.continue_operation SIZE a.

(** Callbacks until the operation is over. *)
Fixpoint drive (fuel : nat) (a : AKV) : outcome (A.ContinueReturn * AKV) :=
  match fuel with
  | O => Diverge
  | S fuel =>
    let! '(ret, a) := callback a in
    match ret.1.1 with
    | Err (ReadNotReady _) | Err (EraseNotReady _) => drive fuel a
    | _ => Ret (ret, a)
    end
  end.

(** A call, and whether it was queued. *)
Definition start (o : op) (a : AKV) : outcome (bool * AKV) :=
  match o with
  | OpInitialise h =>
    let! '(r, a) := A.initialise SIZE h a in
    Ret (match r with Err e => A.is_pending e | Ok _ => false end, a)
  | OpAppend h value =>
    let! '(r, a) := A.append_key SIZE h value (length value) a in
    Ret (match r with Ok _ => true | Err _ => false end, a)
  | OpGet h buf =>
    let! '(r, a) := A.get_key SIZE h buf a in Ret (match r with Ok _ => true | Err _ => false end, a)
  | OpInvalidate h =>
    let! '(r, a) := A.invalidate_key SIZE h a in Ret (match r with Ok _ => true | Err _ => false end, a)
  | OpZeroise h =>
    let! '(r, a) := A.zeroise_key SIZE h a in Ret (match r with Ok _ => true | Err _ => false end, a)
  | OpCollect =>
    let! '(r, a) := A.garbage_collect SIZE a in Ret (match r with Ok _ => true | Err _ => false end, a)
  end.

(** What the client is told at the end. *)
Definition answer_of (o : op) (ret : A.ContinueReturn) : answer :=
  let '(r, buf, len) := ret in
  match o with
  | OpGet _ _ =>
    Value (match r with Ok code => Ok (code, len) | Err e => Err e end) (match buf with Some b => b | None => [] end)
  | OpCollect => Freed (match r with Ok _ => Ok len | Err e => Err e end)
  | _ => Done r
  end.

(** The call and all its callbacks; [None] when it was not queued. *)
Definition async_op (o : op) (a : AKV) : outcome (option answer * AKV) :=
  let! '(queued, a) := start o a in
  if (queued : bool) then
    let! '(ret, a) := drive (fuel_regions SIZE (A.tickv a)) a in Ret (Some (answer_of o ret), a)
  else Ret (None, a).
End drive.

Section async.
  Context {F : Type} (SIZE n : nat) (c : SuccessCode) `{!FlashController F, !FlashView F, !AsyncFlashLaws F SIZE c}.
  Notation KV := (TicKV F).
  Notation AKV := (A.AsyncTicKV F).
  Notation objects := (list (list obj)).
  Notation rin st := (@rep_in F SIZE n _ st).
  Notation rep := (rin NoState).

(** * Reading a region *)

(** The region is in the buffer. *)
Definition loaded (st : State) (s : KV) (objs : objects) (r : nat) : Prop :=
  rin st s objs true /\ read_buffer s = Some (region_bytes SIZE (objs !!! r)) /\ (r < n)%nat.

Lemma load_pending {st} s objs not_ready r : rin st s objs true -> (r < n)%nat ->
  exists s', load false not_ready r s = Ret (Err (ReadNotReady r), s') /\ rin (not_ready r) s' objs true.
Proof.
  intros Hrep Hr. destruct (rep_region _ _ _ _ _ _ Hrep Hr) as [Hd _].
  destruct (rep_buf _ _ _ _ _ Hrep) as (b & Hb & Hlen).
  destruct (aread_law (controller s) r _ b Hd) as (f' & Hf & Hreg). eexists. split.
  - unfold load, take_buffer, mbind_ at 1. rewrite Hb. cbn [obind].
    unfold mbind_ at 1, read. cbn [controller set_read_buffer_]. rewrite Hf. cbn. done.
  - destruct Hrep. split; cbn; try done; [by rewrite Hreg|]. by exists b.
Qed.

Lemma load_ready st s objs not_ready r : loaded st s objs r ->
  exists s', load true not_ready r s = Ret (Ok (region_bytes SIZE (objs !!! r)), s') /\ rin st s' objs false /\
    rin st (set_read_buffer_ (Some (region_bytes SIZE (objs !!! r))) s') objs true.
Proof.
  intros (Hrep & Hb & Hr). assert (H : rin st (set_read_buffer_ None s) objs false) by (destruct Hrep; by split).
  eexists. split_and!; [|exact H|by eapply replace_rep].
  unfold load, take_buffer, mbind_. rewrite Hb. done.
Qed.

Lemma deliver a objs st r : rin st (A.tickv a) objs true -> (r < n)%nat ->
  exists a', A.set_read_buffer (regions (controller (A.tickv a)) !!! r) a = Ret a' /\ loaded st (A.tickv a') objs r /\
    A.key a' = A.key a /\ A.value a' = A.value a /\ A.value_length a' = A.value_length a.
Proof.
  intros Hrep Hr. destruct (rep_region _ _ _ _ _ _ Hrep Hr) as [Hd Hok].
  rewrite (list_lookup_total_correct _ _ _ Hd). destruct (rep_buf _ _ _ _ _ Hrep) as (b & Hb & Hlen).
  exists (A.set_tickv (set_read_buffer_ (Some (region_bytes SIZE (objs !!! r))) (A.tickv a)) a).
  split; [|split_and!; [split; [by eapply replace_rep|by split]|done..] ].
  unfold A.set_read_buffer. rewrite Hb. cbn [of_option obind].
  rewrite Hlen, (region_bytes_length _ _ Hok), Nat.eqb_refl. done.
Qed.

(** * Turns

    A call that goes on with the region of the [k]-th offset in the buffer: it ends
    there, or asks for the next region. *)

Section turn.
  Context (h : Z) (Hh : good_hash h) (objs : objects) (k m : nat).
  Context (Hin : in_range n (home n h) (unrank k)) (Hm : (2 * n <= k + S m)%nat).
Let r := region_at (home n h) (unrank k).
Let os := objs !!! r.
  (** The region after this one. *)
Let next := region_at (home n h) <$> head (offsets_from n (home n h) (S k) m).

(** After a region without an answer: the end of the path, or the next read. *)
Lemma turn_next {A} st s e (not_ready : nat -> State) (f : Z -> M KV A) :
  rin st s objs true ->
  (forall k' s', in_range n (home n h) (unrank k') -> rep s' objs true ->
     exists s'', f (unrank k') s' = Ret (Err (ReadNotReady (region_at (home n h) (unrank k'))), s'') /\
       rin (not_ready (region_at (home n h) (unrank k'))) s'' objs true) ->
  exists s', match next with
   | None => mbind_ (next_region SIZE (home n h) r e) f s = Ret (Err e, s') /\ rin st s' objs true
   | Some r' => mbind_ (next_region SIZE (home n h) r e) f s = Ret (Err (ReadNotReady r'), s') /\
       rin (not_ready r') s' objs true
   end.
Proof.
  intros Hrep Hf. unfold next.
  destruct (next_region_in SIZE n s objs true h k m e Hrep Hin Hm) as [ [E En]|(k' & m' & E & Hin' & Hm' & En)];
    fold r in En; rewrite E; cbn [head fmap option_fmap option_map].
  - exists s. split; [by apply bind_err|done].
  - destruct (Hf k' _ Hin' (set_state_rep SIZE n _ _ _ NoState Hrep)) as (s' & Ef & Hrep').
    exists s'. split; [|done]. by erewrite bind_ok.
Qed.

Lemma rep_home_lt st s kept : rin st s objs kept -> (home n h < n)%nat.
Proof. intros Hrep. apply home_lt. apply (rep_some _ _ _ _ _ Hrep). Qed.

Lemma append_pending fuel k' value header s : in_range n (home n h) (unrank k') -> rep s objs true ->
  exists s', append_loop SIZE (S fuel) h value header (home n h) (unrank k') s =
      Ret (Err (ReadNotReady (region_at (home n h) (unrank k'))), s') /\
    rin (AppendKey (ReadRegion (region_at (home n h) (unrank k')))) s' objs true.
Proof.
  intros Hin' Hrep. destruct (region_at_ok n h k' (rep_some _ _ _ _ _ Hrep) Hin') as [Hr _].
  destruct (load_pending s objs (fun reg => AppendKey (ReadRegion reg)) _ Hrep Hr) as (s' & E & Hrep'). exists s'.
  split; [|done]. cbn [append_loop]. erewrite bind_ok by done.
  erewrite bind_ok by (unfold lift; rewrite (rep_state _ _ _ _ _ Hrep); cbn; done).
  rewrite (rep_state _ _ _ _ _ Hrep), !bool_decide_eq_false_2 by done. by apply bind_err.
Qed.

Lemma append_turn st value s : st = AppendKey (ReadRegion r) \/ st = Init (AppendKeyReadRegion r) ->
  bytes_ok value -> (HEADER_LENGTH + length value + CHECK_SUM_LEN < 0xfff)%nat ->
  let len := (HEADER_LENGTH + length value + CHECK_SUM_LEN)%nat in
  loaded st s objs r ->
  exists s', match locate h os with
   | Some _ => append_key SIZE h value s = Ret (Err KeyAlreadyExists, s') /\ rin st s' objs true
   | None =>
     if (SIZE <=? used os + (HEADER_LENGTH + length value))%nat then
       match next with
       | None => append_key SIZE h value s = Ret (Err FlashFull, s') /\ rin st s' objs true
       | Some r' => append_key SIZE h value s = Ret (Err (ReadNotReady r'), s') /\ rin (AppendKey (ReadRegion r')) s' objs true
       end
     else if (used os + len <=? SIZE)%nat
     then append_key SIZE h value s = Ret (Ok c, s') /\ rin st s' (<[r := os ++ [fresh_obj h value]]> objs) true
     else append_key SIZE h value s = Ret (Err ObjectTooLarge, s') /\ rin st s' objs false
   end.
Proof.
  intros Hst Hv Hlen len Hld. pose proof Hld as (Hrep & _ & Hr).
  destruct (rep_region _ _ _ _ _ _ Hrep Hr) as [_ Hok].
  assert (Ea : exists fuel, append_key SIZE h value s = append_loop SIZE (S (S fuel)) h value
    (mkHeader VERSION FLAGS_VALID (Z.of_nat len) h) (home n h) 0 s).
  { exists (2 * n)%nat. unfold append_key. erewrite bind_ok by (by eapply get_region_ok).
    rewrite (proj2 (Nat.ltb_ge _ _)) by lia. erewrite bind_ok.
    - unfold fuel_regions. rewrite (rep_num _ _ _ _ _ Hrep). f_equal. lia.
    - unfold lift, header_new. rewrite (proj2 (Z.ltb_lt _ _)) by lia. done. }
  destruct Ea as [fuel Ea]. rewrite Ea. cbn [append_loop].
  destruct (load_ready st s objs (fun reg => AppendKey (ReadRegion reg)) r Hld) as (s1 & E1 & Hrep1 & Hrep2).
  assert (Hb : bool_decide (st = AppendKey (ReadRegion r)) || bool_decide (st = Init (AppendKeyReadRegion r)) = true).
  { destruct Hst as [Hst|Hst]; rewrite (bool_decide_eq_true_2 _ Hst); [done|apply orb_true_r]. }
  erewrite bind_ok by done.
  erewrite bind_ok by (unfold lift; rewrite (rep_state _ _ _ _ _ Hrep); destruct Hst as [-> | ->]; cbn; done).
  rewrite (rep_state _ _ _ _ _ Hrep), Hb.
  erewrite bind_ok by apply E1. fold os. fold os in Hok.
  erewrite bind_ok by (unfold lift; rewrite find_region by (done || apply Hh); done).
  destruct (locate h os) as [ [i o]|] eqn:El.
  { erewrite bind_ok by done. by eexists. }
  pose proof (place_region SIZE (HEADER_LENGTH + length value) _ s1 Hok ltac:(unfold HEADER_LENGTH; lia)) as Hfp.
  destruct (Nat.leb_spec SIZE (used os + (HEADER_LENGTH + length value))) as [Hno|Hroom];
    erewrite bind_ok by apply Hfp.
  - apply (turn_next st _ FlashFull (fun reg => AppendKey (ReadRegion reg))); [exact Hrep2|].
    intros k' s' Hin' Hrep'. by apply append_pending.
  - destruct (write_object_ok SIZE n s1 objs r h value Hrep1 Hr Hh Hv Hlen Hroom) as (s2 & E2 & Hrep3).
    fold os len in E2, Hrep3. exists s2. destruct (_ <=? _)%nat; done.
Qed.

Lemma delete_pending fuel k' in_state delete s : (forall reg, in_state reg <> NoState) ->
  in_range n (home n h) (unrank k') -> rep s objs true ->
  exists s', delete_loop SIZE (S fuel) in_state delete h (home n h) (unrank k') s =
      Ret (Err (ReadNotReady (region_at (home n h) (unrank k'))), s') /\
    rin (in_state (ReadRegion (region_at (home n h) (unrank k')))) s' objs true.
Proof.
  intros Hst Hin' Hrep. destruct (region_at_ok n h k' (rep_some _ _ _ _ _ Hrep) Hin') as [Hr _].
  destruct (load_pending s objs (fun reg => in_state (ReadRegion reg)) _ Hrep Hr) as (s' & E & Hrep'). exists s'.
  split; [|done]. cbn [delete_loop]. erewrite bind_ok by done.
  rewrite (rep_state _ _ _ _ _ Hrep), decide_True by done. erewrite bind_ok by done.
  rewrite !bool_decide_eq_false_2 by (by intros H; symmetry in H; apply Hst in H). by apply bind_err.
Qed.

Lemma delete_turn fuel in_state delete s : in_state = InvalidateKey \/ in_state = ZeroiseKey ->
  let st := in_state (ReadRegion r) in loaded st s objs r ->
  let run := delete_loop SIZE (S (S fuel)) in_state delete h (home n h) 0 s in
  exists s', match locate h os with
   | Some (i, o) => rin st s' objs false /\ run = delete (region_bytes SIZE os) r (used (take i os)) (o_len o) s'
   | None =>
     match (if passable SIZE os then next else None) with
     | None => run = Ret (Err KeyNotFound, s') /\ rin st s' objs true
     | Some r' => run = Ret (Err (ReadNotReady r'), s') /\ rin (in_state (ReadRegion r')) s' objs true
     end
   end.
Proof.
  intros Hst st Hld run. pose proof Hld as (Hrep & _ & Hr).
  assert (Hne : forall reg, in_state reg <> NoState) by (by destruct Hst as [-> | ->]).
  destruct (rep_region _ _ _ _ _ _ Hrep Hr) as [_ Hok]. fold os in Hok. unfold run. cbn [delete_loop].
  destruct (load_ready st s objs (fun reg => in_state (ReadRegion reg)) r Hld) as (s1 & E1 & Hrep1 & Hrep2).
  erewrite bind_ok by done. rewrite (rep_state _ _ _ _ _ Hrep), decide_False by apply Hne.
  erewrite bind_ok by (destruct Hst as [Es|Es]; unfold st; rewrite Es; unfold lift; rewrite decide_True by done; done).
  rewrite bool_decide_eq_true_2 by done. erewrite bind_ok by apply E1. fold os.
  erewrite bind_ok by (unfold lift; rewrite find_region by (done || apply Hh); done).
  destruct (locate h os) as [ [i o]|] eqn:El; [by exists s1|].
  erewrite bind_ok by done. destruct (passable SIZE os); [|by eexists].
  apply (turn_next st _ KeyNotFound (fun reg => in_state (ReadRegion reg))); [exact Hrep2|].
  intros k' s' Hin' Hrep'. by apply delete_pending.
Qed.

Lemma get_pending fuel k' buf s : in_range n (home n h) (unrank k') -> rep s objs true ->
  exists s', get_loop SIZE (S fuel) h (home n h) (unrank k') (s, buf) =
      Ret (Err (ReadNotReady (region_at (home n h) (unrank k'))), (s', buf)) /\
    rin (GetKey (ReadRegion (region_at (home n h) (unrank k')))) s' objs true.
Proof.
  intros Hin' Hrep. destruct (region_at_ok n h k' (rep_some _ _ _ _ _ Hrep) Hin') as [Hr _].
  destruct (load_pending s objs (fun reg => GetKey (ReadRegion reg)) _ Hrep Hr) as (s' & E & Hrep'). exists s'.
  split; [|done]. cbn [get_loop]. erewrite bind_ok by (cbn; done).
  erewrite bind_ok by (cbn; by rewrite (rep_state _ _ _ _ _ Hrep)).
  rewrite (rep_state _ _ _ _ _ Hrep), !bool_decide_eq_false_2 by done. apply bind_err. cbn [on_kv orb]. by rewrite E.
Qed.

Lemma get_turn st buf s : st = GetKey (ReadRegion r) \/ st = Init (GetKeyReadRegion r) -> loaded st s objs r ->
  exists s', match locate h os with
   | Some (i, o) =>
     get_key SIZE h (s, buf) = Ret ((read_result o buf).1, (s', (read_result o buf).2)) /\ rin st s' objs true
   | None =>
     match (if passable SIZE os then next else None) with
     | None => get_key SIZE h (s, buf) = Ret (Err KeyNotFound, (s', buf)) /\ rin st s' objs true
     | Some r' => get_key SIZE h (s, buf) = Ret (Err (ReadNotReady r'), (s', buf)) /\ rin (GetKey (ReadRegion r')) s' objs true
     end
   end.
Proof.
  intros Hst Hld. pose proof Hld as (Hrep & _ & Hr).
  destruct (rep_region _ _ _ _ _ _ Hrep Hr) as [_ Hok]. fold os in Hok.
  unfold get_key. erewrite bind_ok by (cbn [on_kv]; erewrite get_region_ok by done; done).
  unfold fuel_regions. rewrite Nat.add_comm. cbn [Nat.add fst get_loop].
  destruct (load_ready st s objs (fun reg => GetKey (ReadRegion reg)) r Hld) as (s1 & E1 & Hrep1 & Hrep2).
  assert (Hb : bool_decide (st = GetKey (ReadRegion r)) || bool_decide (st = Init (GetKeyReadRegion r)) = true).
  { destruct Hst as [Hst|Hst]; rewrite (bool_decide_eq_true_2 _ Hst); [done|apply orb_true_r]. }
  erewrite bind_ok by (cbn; done).
  erewrite bind_ok by (unfold lift; rewrite (rep_state _ _ _ _ _ Hrep); destruct Hst as [-> | ->]; cbn; done).
  rewrite (rep_state _ _ _ _ _ Hrep), Hb.
  erewrite bind_ok by (cbn [on_kv]; rewrite E1; done). fold os. fold os in Hrep2.
  erewrite bind_ok by (unfold lift; rewrite find_region by (done || apply Hh); done).
  destruct (locate h os) as [ [i o]|] eqn:El.
  { destruct (locate_split _ _ _ _ El) as (Hi & [Hv _] & _).
    rewrite (region_split SIZE _ _ _ Hi), <- take_used, read_value_ok; [|eapply Forall_lookup_1, Hi; apply Hok|done].
    rewrite <- (region_split SIZE _ _ _ Hi). by eexists. }
  erewrite bind_ok by (cbn; done). destruct (passable SIZE os); [|by eexists]. unfold next.
  destruct (next_region_in SIZE n _ objs true h k m KeyNotFound Hrep2 Hin Hm) as [ [E En]|(k' & m' & E & Hin' & Hm' & En)];
    fold r in En; rewrite E; cbn [head fmap option_fmap option_map].
  - eexists. split; [|exact Hrep2]. apply bind_err. cbn [on_kv]. by rewrite En.
  - erewrite bind_ok by (cbn [on_kv]; rewrite En; done).
    destruct (get_pending (2 * (flash_size s / SIZE)) k' buf _ Hin' (set_state_rep SIZE n _ _ _ NoState Hrep2)) as (s' & Eg & Hrep').
    exists s'. split; [|done]. exact Eg.
Qed.
End turn.

(** * Runs of callbacks *)

Definition is_over (ret : A.ContinueReturn) : bool :=
  match ret.1.1 with Err (ReadNotReady _) | Err (EraseNotReady _) => false | _ => true end.

Lemma drive_over fuel a ret a' : callback SIZE a = Ret (ret, a') -> is_over ret = true ->
  drive SIZE (S fuel) a = Ret (ret, a').
Proof.
  intros E Ho. cbn [drive]. rewrite E. cbn [obind]. destruct ret as [ [ [?|e] ?] ?]; [done|]. by destruct e.
Qed.
Lemma drive_next fuel a ret a' : callback SIZE a = Ret (ret, a') -> is_over ret = false ->
  drive SIZE (S fuel) a = drive SIZE fuel a'.
Proof.
  intros E Ho. cbn [drive]. rewrite E. cbn [obind]. destruct ret as [ [ [?|e] ?] ?]; [done|]. by destruct e.
Qed.

Notation post := (A.ContinueReturn -> AKV -> Prop).

(** What the walk over a path ends with: [visit] says where it stops. *)
Fixpoint walk (visit : nat -> option post) (fin : post) (rs : list nat) : post :=
  match rs with
  | [] => fin
  | r :: rs => match visit r with Some P => P | None => walk visit fin rs end
  end.

Lemma drive_path h (waiting : nat -> AKV -> Prop) (visit : nat -> option post) (fin : post) :
  (forall k m a, in_range n (home n h) (unrank k) -> (2 * n <= k + S m)%nat ->
    let r := region_at (home n h) (unrank k) in
    waiting r a ->
    exists ret a', callback SIZE a = Ret (ret, a') /\
      match visit r with
      | Some P => is_over ret = true /\ P ret a'
      | None =>
        match region_at (home n h) <$> head (offsets_from n (home n h) (S k) m) with
        | None => is_over ret = true /\ fin ret a'
        | Some r' => is_over ret = false /\ waiting r' a'
        end
      end) ->
  (0 < n)%nat ->
  forall fuel k m a, in_range n (home n h) (unrank k) -> (2 * n <= k + S m)%nat ->
    waiting (region_at (home n h) (unrank k)) a -> (length (path_from n h k m) <= fuel)%nat ->
    exists ret a', drive SIZE fuel a = Ret (ret, a') /\ walk visit fin (path_from n h k m) ret a'.
Proof.
  intros Hturn Hn. induction fuel as [|fuel IH]; intros k m a Hin Hm Hw Hf; [cbn in Hf; lia|].
  destruct (Hturn k m a Hin Hm Hw) as (ret & a' & E & H). unfold path_from in *. cbn [map walk length] in *.
  destruct (visit _) as [P|].
  { destruct H as [Ho HP]. exists ret, a'. split; [by apply drive_over|done]. }
  destruct (increment_loop_next n (home n h) (home_lt n h Hn) 3 k m ltac:(lia) Hin Hm)
    as (k' & m' & _ & [Hos|(Hos & Hin' & Hm')]); rewrite Hos in *; cbn [head fmap option_fmap option_map] in H.
  { destruct H as [Ho HP]. exists ret, a'. split; [by apply drive_over|done]. }
  destruct H as [Ho Hw']. rewrite (drive_next _ _ _ _ E Ho). apply (IH k' m' a' Hin' Hm' Hw'). cbn [map length] in *. lia.
Qed.

Lemma callback_read a objs st r : rin st (A.tickv a) objs true -> awaited st = Some r -> (r < n)%nat ->
  exists a1, callback SIZE a = A.continue_operation SIZE a1 /\ loaded st (A.tickv a1) objs r /\
    A.key a1 = A.key a /\ A.value a1 = A.value a /\ A.value_length a1 = A.value_length a.
Proof.
  intros Hrep Hst Hr. destruct (deliver a objs st r Hrep Hr) as (a1 & E & Hl & Hk). exists a1. split; [|done].
  unfold callback. rewrite (rep_state _ _ _ _ _ Hrep), Hst, E. done.
Qed.

(** The answer of an operation, with what it gives back, and the store afterwards. *)
Definition final (r : result SuccessCode ErrorCode) (buf : option (list Z)) (len : nat) (objs : objects) (kept : bool) : post :=
  fun ret a => ret = (r, buf, len) /\ rep (A.tickv a) objs kept.

(** [continue_operation] after an answer that is not pending. *)
Lemma continue_final a a2 st r buf len objs kept : A.resume SIZE a = Ret (r, len, a2) -> A.value a2 = buf ->
  (match r with Err e => A.is_pending e = false | Ok _ => True end) -> rin st (A.tickv a2) objs kept ->
  exists ret a', A.continue_operation SIZE a = Ret (ret, a') /\ is_over ret = true /\ final r buf len objs kept ret a'.
Proof.
  intros E <- Hp Hrep. apply (set_state_rep _ _ _ _ _ NoState) in Hrep.
  exists (r, A.value a2, len), (A.set_value None (A.reset a2)). unfold A.continue_operation. rewrite E. cbn [obind].
  destruct r as [?|e]; [done|]. by destruct e.
Qed.
Lemma continue_pending a a2 reg len : A.resume SIZE a = Ret (Err (ReadNotReady reg), len, a2) ->
  A.continue_operation SIZE a = Ret (Err (ReadNotReady reg), None, 0%nat, a2).
Proof. intros E. unfold A.continue_operation. by rewrite E. Qed.

(** ** Appending *)

Definition append_visit (h : Z) (buf : list Z) (len : nat) (objs : objects) (r : nat) : option post :=
  let os := objs !!! r in
  let value := take len buf in
  match locate h os with
  | Some _ => Some (final (Err KeyAlreadyExists) (Some buf) len objs true)
  | None =>
    if (SIZE <=? used os + (HEADER_LENGTH + length value))%nat then None
    else Some (if (used os + (HEADER_LENGTH + length value + CHECK_SUM_LEN) <=? SIZE)%nat
               then final (Ok c) (Some buf) len (<[r := os ++ [fresh_obj h value]]> objs) true
               else final (Err ObjectTooLarge) (Some buf) len objs false)
  end.

Lemma append_drive h buf len objs : good_hash h -> bytes_ok buf -> (len <= length buf)%nat ->
  (HEADER_LENGTH + length (take len buf) + CHECK_SUM_LEN < 0xfff)%nat -> (0 < n)%nat ->
  forall fuel k m a, in_range n (home n h) (unrank k) -> (2 * n <= k + S m)%nat ->
    rin (AppendKey (ReadRegion (region_at (home n h) (unrank k)))) (A.tickv a) objs true ->
    A.key a = Some h -> A.value a = Some buf -> A.value_length a = len ->
    (length (path_from n h k m) <= fuel)%nat ->
    exists ret a', drive SIZE fuel a = Ret (ret, a') /\
      walk (append_visit h buf len objs) (final (Err FlashFull) (Some buf) len objs true) (path_from n h k m) ret a'.
Proof.
  intros Hh Hb Hl Hlen Hn fuel k m a Hin Hm Hrep Hk Hv Hvl Hf.
  refine (drive_path h (fun r a => rin (AppendKey (ReadRegion r)) (A.tickv a) objs true /\
    A.key a = Some h /\ A.value a = Some buf /\ A.value_length a = len) _ _ _ Hn fuel k m a Hin Hm (conj Hrep (conj Hk (conj Hv Hvl))) Hf).
  clear fuel k m a Hin Hm Hrep Hk Hv Hvl Hf. intros k m a Hin Hm r (Hrep & Hk & Hv & Hvl).
  destruct (region_at_ok n h k Hn Hin) as [Hr _]. fold r in Hr.
  destruct (callback_read a objs _ r Hrep eq_refl Hr) as (a1 & -> & Hld & Ek & Ev & Evl).
  destruct (append_turn h Hh objs k m Hin Hm _ (take len buf) (A.tickv a1) (or_introl eq_refl)) as (s' & H);
    [by apply Forall_take|done|exact Hld|].
  fold r in H. pose proof Hld as (Hrep1 & _ & _).
  assert (Hres : forall x, append_key SIZE h (take len buf) (A.tickv a1) = Ret (x, s') ->
    A.resume SIZE a1 = Ret (x, len, A.set_tickv s' a1)).
  { intros x Ex. unfold A.resume. rewrite (rep_state _ _ _ _ _ Hrep1), Ev, Ek, Evl, Hk, Hv, Hvl. cbn [of_option obind].
    unfold slice. rewrite (proj2 (Nat.leb_le 0 len)), (proj2 (Nat.leb_le len (length buf))) by lia. cbn [andb obind].
    rewrite Nat.sub_0_r, drop_0, Ex. done. }
  assert (Hval : A.value (A.set_tickv s' a1) = Some buf) by (cbn; by rewrite Ev, Hv).
  unfold append_visit. destruct (locate h (objs !!! r)) as [ [i o]|].
  { destruct H as [E Hr']. by eapply continue_final; [exact (Hres _ E)|exact Hval|done|exact Hr']. }
  destruct (_ <=? _)%nat.
  - destruct (region_at (home n h) <$> head _) as [r'|]; destruct H as [E Hr'];
      [|by eapply continue_final; [exact (Hres _ E)|exact Hval|done|exact Hr']].
    eexists _, _. split; [apply (continue_pending _ _ _ _ (Hres _ E))|]. split; [done|].
    cbn [A.tickv A.set_tickv A.key A.value A.value_length]. by rewrite Ek, Ev, Evl.
  - destruct (_ <=? _)%nat; destruct H as [E Hr']; by eapply continue_final; [exact (Hres _ E)|exact Hval|done|exact Hr'].
Qed.

(** ** Reading *)

Definition get_final (x : result (SuccessCode * nat) ErrorCode) (buf : list Z) (objs : objects) : post :=
  match x with
  | Ok (code, len) => final (Ok code) (Some buf) len objs true
  | Err e => final (Err e) (Some buf) 0 objs true
  end.
Definition get_visit (h : Z) (buf : list Z) (objs : objects) (r : nat) : option post :=
  match locate h (objs !!! r) with
  | Some (i, o) => Some (get_final (read_result o buf).1 (read_result o buf).2 objs)
  | None => if passable SIZE (objs !!! r) then None else Some (get_final (Err KeyNotFound) buf objs)
  end.

Lemma get_drive h buf objs : good_hash h -> (0 < n)%nat ->
  forall fuel k m a, in_range n (home n h) (unrank k) -> (2 * n <= k + S m)%nat ->
    rin (GetKey (ReadRegion (region_at (home n h) (unrank k)))) (A.tickv a) objs true ->
    A.key a = Some h -> A.value a = Some buf -> (length (path_from n h k m) <= fuel)%nat ->
    exists ret a', drive SIZE fuel a = Ret (ret, a') /\
      walk (get_visit h buf objs) (get_final (Err KeyNotFound) buf objs) (path_from n h k m) ret a'.
Proof.
  intros Hh Hn fuel k m a Hin Hm Hrep Hk Hv Hf.
  refine (drive_path h (fun r a => rin (GetKey (ReadRegion r)) (A.tickv a) objs true /\
    A.key a = Some h /\ A.value a = Some buf) _ _ _ Hn fuel k m a Hin Hm (conj Hrep (conj Hk Hv)) Hf).
  clear fuel k m a Hin Hm Hrep Hk Hv Hf. intros k m a Hin Hm r (Hrep & Hk & Hv).
  destruct (region_at_ok n h k Hn Hin) as [Hr _]. fold r in Hr.
  destruct (callback_read a objs _ r Hrep eq_refl Hr) as (a1 & -> & Hld & Ek & Ev & Evl).
  destruct (get_turn h Hh objs k m Hin Hm _ buf (A.tickv a1) (or_introl eq_refl) Hld) as (s' & H). fold r in H. pose proof Hld as (Hrep1 & _ & _).
  assert (Hres : forall x buf', get_key SIZE h (A.tickv a1, buf) = Ret (x, (s', buf')) ->
    A.resume SIZE a1 = Ret (match x with Ok (code, _) => Ok code | Err e => Err e end,
      match x with Ok (_, len) => len | Err _ => 0%nat end, A.set_value (Some buf') (A.set_tickv s' a1))).
  { intros x buf' Ex. unfold A.resume. rewrite (rep_state _ _ _ _ _ Hrep1), Ev, Ek, Hk, Hv. cbn [of_option obind].
    rewrite Ex. by destruct x as [ [? ?]|?]. }
  assert (Hend : forall x buf', get_key SIZE h (A.tickv a1, buf) = Ret (x, (s', buf')) ->
    (match x with Err e => A.is_pending e = false | Ok _ => True end) -> rin (GetKey (ReadRegion r)) s' objs true ->
    exists ret a', A.continue_operation SIZE a1 = Ret (ret, a') /\ is_over ret = true /\ get_final x buf' objs ret a').
  { intros x buf' Ex Hp Hr'. specialize (Hres _ _ Ex).
    destruct x as [ [? ?]|?]; (eapply continue_final; [exact Hres|done|done|exact Hr']). }
  unfold get_visit. destruct (locate h (objs !!! r)) as [ [i o]|].
  { destruct H as [E Hr']. apply (Hend _ _ E); [|done]. unfold read_result. by destruct (_ <? _)%nat. }
  destruct (passable SIZE (objs !!! r)); [|destruct H as [E Hr']; by apply (Hend _ _ E)].
  destruct (region_at (home n h) <$> head _) as [r'|]; destruct H as [E Hr']; [|by apply (Hend _ _ E)].
  eexists _, _. split; [apply (continue_pending _ _ _ _ (Hres _ _ E))|]. split; [done|].
  cbn [A.tickv A.set_tickv A.set_value A.key A.value A.value_length]. by rewrite Ek.
Qed.

(** ** Deleting *)

Definition delete_visit (P : nat -> nat -> obj -> post) (h : Z) (value : option (list Z)) (objs : objects) (r : nat) : option post :=
  match locate h (objs !!! r) with
  | Some (i, o) => Some (P r i o)
  | None => if passable SIZE (objs !!! r) then None else Some (final (Err KeyNotFound) value 0 objs true)
  end.

Lemma delete_drive in_state delete call h value objs (P : nat -> nat -> obj -> result SuccessCode ErrorCode * objects * bool) :
  in_state = InvalidateKey /\ call = invalidate_key SIZE /\ delete = invalidate_entry SIZE \/
  in_state = ZeroiseKey /\ call = zeroise_key SIZE /\ delete = zeroise_entry SIZE ->
  (forall st s r i o, rin st s objs false -> (r < n)%nat -> locate h (objs !!! r) = Some (i, o) ->
    exists s', delete (region_bytes SIZE (objs !!! r)) r (used (take i (objs !!! r))) (o_len o) s = Ret ((P r i o).1.1, s') /\
      rin st s' (P r i o).1.2 (P r i o).2) ->
  (forall r i o, match (P r i o).1.1 with Err e => A.is_pending e = false | Ok _ => True end) ->
  good_hash h -> (0 < n)%nat ->
  forall fuel k m a, in_range n (home n h) (unrank k) -> (2 * n <= k + S m)%nat ->
    rin (in_state (ReadRegion (region_at (home n h) (unrank k)))) (A.tickv a) objs true ->
    A.key a = Some h -> A.value a = value -> (length (path_from n h k m) <= fuel)%nat ->
    exists ret a', drive SIZE fuel a = Ret (ret, a') /\
      walk (delete_visit (fun r i o => final (P r i o).1.1 value 0 (P r i o).1.2 (P r i o).2) h value objs)
        (final (Err KeyNotFound) value 0 objs true) (path_from n h k m) ret a'.
Proof.
  intros Hkind Hdel Hnp Hh Hn fuel k m a Hin Hm Hrep Hk Hv Hf.
  refine (drive_path h (fun r a => rin (in_state (ReadRegion r)) (A.tickv a) objs true /\
    A.key a = Some h /\ A.value a = value) _ _ _ Hn fuel k m a Hin Hm (conj Hrep (conj Hk Hv)) Hf).
  clear fuel k m a Hin Hm Hrep Hk Hv Hf. intros k m a Hin Hm r (Hrep & Hk & Hv).
  destruct (region_at_ok n h k Hn Hin) as [Hr _]. fold r in Hr.
  assert (Haw : awaited (in_state (ReadRegion r)) = Some r) by (by destruct Hkind as [(-> & _)|(-> & _)]).
  destruct (callback_read a objs _ r Hrep Haw Hr) as (a1 & -> & Hld & Ek & Ev & Evl).
  destruct (delete_turn h Hh objs k m Hin Hm (2 * n) in_state delete (A.tickv a1)) as (s' & H);
    [by destruct Hkind as [(-> & _)|(-> & _)]; [left|right]|exact Hld|]. fold r in H. pose proof Hld as (Hrep1 & _ & _).
  assert (Hcall : call h (A.tickv a1) = delete_loop SIZE (S (S (2 * n))) in_state delete h (home n h) 0 (A.tickv a1)).
  { destruct Hkind as [(-> & -> & ->)|(-> & -> & ->)]; [unfold invalidate_key|unfold zeroise_key];
      erewrite bind_ok by (by eapply get_region_ok); unfold fuel_regions; rewrite (rep_num _ _ _ _ _ Hrep1); f_equal; lia. }
  rewrite <- Hcall in H.
  assert (Hres : forall x s2, call h (A.tickv a1) = Ret (x, s2) -> A.resume SIZE a1 = Ret (x, 0%nat, A.set_tickv s2 a1)).
  { intros x s2 Ex. unfold A.resume. rewrite (rep_state _ _ _ _ _ Hrep1), Ek, Hk.
    destruct Hkind as [(Es & Ec & _)|(Es & Ec & _)]; rewrite Es; cbn [of_option obind]; rewrite <- Ec, Ex; done. }
  assert (Hval : forall s2, A.value (A.set_tickv s2 a1) = value) by (intros s2; cbn; by rewrite Ev, Hv).
  unfold delete_visit. destruct (locate h (objs !!! r)) as [ [i o]|] eqn:El.
  { destruct H as [Hr' E]. destruct (Hdel _ _ _ _ _ Hr' Hr El) as (s2 & E2 & Hr2). rewrite E2 in E.
    eapply continue_final; [exact (Hres _ _ E)|apply Hval|apply Hnp|exact Hr2]. }
  destruct (passable SIZE (objs !!! r));
    [|destruct H as [E Hr']; eapply continue_final; [exact (Hres _ _ E)|apply Hval|done|exact Hr'] ].
  destruct (region_at (home n h) <$> head _) as [r'|]; destruct H as [E Hr'];
    [|eapply continue_final; [exact (Hres _ _ E)|apply Hval|done|exact Hr'] ].
  eexists _, _. split; [apply (continue_pending _ _ _ _ (Hres _ _ E))|]. split; [done|].
  cbn [A.tickv A.set_tickv A.key A.value A.value_length]. by rewrite Ek, Ev.
Qed.

(** ** Garbage collection *)

(** The regions from [r] on are still to be collected. *)
Definition collecting (r : nat) (objs : objects) : objects := take r objs ++ map collect (drop r objs).
Definition freed_from (r : nat) (objs : objects) : nat := SIZE * length (List.filter is_rubbish (drop r objs)).

Lemma collecting_step objs r : (r < length objs)%nat ->
  collecting r objs = collecting (S r) (<[r := collect (objs !!! r)]> objs) /\
  freed_from r objs = ((if is_rubbish (objs !!! r) then SIZE else 0) + freed_from (S r) (<[r := collect (objs !!! r)]> objs))%nat.
Proof.
  intros Hr. pose proof Hr as [os Hos]%lookup_lt_is_Some_2. rewrite (list_lookup_total_correct _ _ _ Hos).
  unfold collecting, freed_from. rewrite (drop_S _ _ _ Hos), drop_insert_lt by lia.
  rewrite (take_S_r _ r (collect os)) by (by apply list_lookup_insert_eq). rewrite take_insert_ge by lia.
  cbn [map List.filter]. split; [by rewrite <- app_assoc|]. destruct (is_rubbish os); cbn [length]; lia.
Qed.

(** The collection goes on at region [r], which is not in the buffer yet. *)
Lemma collect_pending st s objs r ff : rin st s objs true -> (r < n)%nat ->
  st <> GarbageCollect (RubbishReadRegion r ff) ->
  exists s', collect_loop SIZE (seq r (n - r)) ff s = Ret (Err (ReadNotReady r), s') /\
    rin (GarbageCollect (RubbishReadRegion r ff)) s' objs true.
Proof.
  intros Hrep Hr Hst. destruct (load_pending s objs (fun reg => GarbageCollect (RubbishReadRegion reg ff)) r Hrep Hr) as (s' & E & Hrep').
  exists s'. split; [|done]. replace (n - r)%nat with (S (n - S r)) by lia. cbn [seq collect_loop]. apply bind_err.
  unfold garbage_collect_region. erewrite bind_ok by done.
  rewrite (rep_state _ _ _ _ _ Hrep), bool_decide_eq_false_2 by done. by apply bind_err.
Qed.

Lemma erase_pending {st} s objs kept r : rin st s objs kept -> (r < n)%nat ->
  exists s', erase r s = Ret (Ok (Err (EraseNotReady r)), s') /\ rin st s' (<[r := []]> objs) kept.
Proof.
  intros Hrep Hr. destruct (aerase_law (controller s) r) as (f' & Ef & Hf).
  { rewrite (rep_flash _ _ _ _ _ Hrep), length_map, (rep_len _ _ _ _ _ Hrep). done. }
  eexists. split; [unfold erase; rewrite Ef; done|].
  destruct Hrep as [? ? ? ? Hlen Hall Hfl ?]. split; try done.
  - by rewrite length_insert.
  - apply Forall_insert; [done|]. split; [constructor|]. change (used []) with 0%nat. lia.
  - cbn [controller set_controller]. rewrite Hf, Hfl. symmetry. rewrite list_fmap_insert. by rewrite region_bytes_nil.
Qed.

Lemma collect_turn s objs r ff : loaded (GarbageCollect (RubbishReadRegion r ff)) s objs r ->
  exists s', if is_rubbish (objs !!! r)
    then garbage_collect SIZE s = Ret (Err (EraseNotReady r), s') /\
      rin (GarbageCollect (RubbishEraseRegion r (ff + SIZE))) s' (<[r := collect (objs !!! r)]> objs) true
    else (if decide (S r < n)%nat
      then garbage_collect SIZE s = Ret (Err (ReadNotReady (S r)), s') /\
        rin (GarbageCollect (RubbishReadRegion (S r) ff)) s' (<[r := collect (objs !!! r)]> objs) true
      else garbage_collect SIZE s = Ret (Ok ff, s') /\
        rin (GarbageCollect (RubbishReadRegion r ff)) s' (<[r := collect (objs !!! r)]> objs) true).
Proof.
  intros Hld. pose proof Hld as (Hrep & _ & Hr). destruct (rep_region _ _ _ _ _ _ Hrep Hr) as [_ Hok].
  unfold garbage_collect. erewrite bind_ok by (by eapply rep_num_region). erewrite bind_ok by done.
  rewrite (rep_state _ _ _ _ _ Hrep). erewrite bind_ok by done. cbn iota.
  destruct (load_ready _ s objs (fun reg => GarbageCollect (RubbishReadRegion reg ff)) r Hld) as (s1 & E1 & Hrep1 & Hrep2).
  replace (n - r)%nat with (S (n - S r)) by lia. cbn [seq collect_loop].
  assert (Eg : garbage_collect_region SIZE r ff s =
    mbind_ (rubbish_loop SIZE (SIZE + 1) (region_bytes SIZE (objs !!! r)) 0 false) (fun rubbish : bool =>
      if rubbish then mbind_ (erase r) (fun r0 => match r0 with
        | Err e => mbind_ (match e with
            | EraseNotReady reg => set_state (GarbageCollect (RubbishEraseRegion reg (ff + SIZE)))
            | _ => mret tt end) (fun _ => fail e)
        | Ok _ => mret SIZE end)
      else mret 0%nat) s1).
  { unfold garbage_collect_region. erewrite bind_ok by done.
    rewrite (rep_state _ _ _ _ _ Hrep), bool_decide_eq_true_2 by done. by erewrite bind_ok. }
  erewrite bind_ok in Eg by (apply rubbish_region; [done|apply (rep_size _ _ _ _ _ Hrep)]).
  unfold collect. destruct (is_rubbish (objs !!! r)).
  - destruct (erase_pending _ _ _ r Hrep2 Hr) as (s2 & E2 & Hrep3).
    erewrite bind_ok in Eg by exact E2. eexists. split; [apply bind_err; rewrite Eg; done|].
    by apply set_state_rep with (st' := GarbageCollect (RubbishEraseRegion r (ff + SIZE))) in Hrep3.
  - rewrite list_insert_id by (apply list_lookup_lookup_total_lt; by rewrite (rep_len _ _ _ _ _ Hrep)).
    erewrite bind_ok by exact Eg. rewrite Nat.add_0_r. destruct (decide (S r < n)%nat) as [Hlt|Hge].
    + destruct (collect_pending _ _ _ (S r) ff Hrep2 Hlt ltac:(injection 1; lia)) as (s2 & E2 & Hrep3). by exists s2.
    + replace (n - S r)%nat with 0%nat by lia. by eexists.
Qed.

Lemma resume_collect a st x s' : state (A.tickv a) = GarbageCollect st -> garbage_collect SIZE (A.tickv a) = Ret (x, s') ->
  A.resume SIZE a = Ret (match x with Ok _ => Ok Complete | Err e => Err e end, match x with Ok f => f | Err _ => 0%nat end,
    A.set_tickv s' a).
Proof. intros Hst E. unfold A.resume. rewrite Hst, E. by destruct x. Qed.

(** Collection from the region after one that was just erased. *)
Lemma erased_turn s objs r ff : rin (GarbageCollect (RubbishEraseRegion r ff)) s objs true ->
  exists s', if decide (S r < n)%nat
    then garbage_collect SIZE s = Ret (Err (ReadNotReady (S r)), s') /\ rin (GarbageCollect (RubbishReadRegion (S r) ff)) s' objs true
    else garbage_collect SIZE s = Ret (Ok ff, s') /\ rin (GarbageCollect (RubbishEraseRegion r ff)) s' objs true.
Proof.
  intros Hrep. unfold garbage_collect. erewrite bind_ok by (by eapply rep_num_region). erewrite bind_ok by done.
  rewrite (rep_state _ _ _ _ _ Hrep). erewrite bind_ok by done. cbn iota. rewrite Nat.add_1_r.
  destruct (decide (S r < n)%nat) as [Hlt|Hge].
  - destruct (collect_pending _ _ _ (S r) ff Hrep Hlt ltac:(done)) as (s2 & E2 & Hrep3). by exists s2.
  - replace (n - S r)%nat with 0%nat by lia. by exists s.
Qed.

(** One region: at most two callbacks, for the read and for the erasure. *)
Lemma collect_step value fuel r ff objs a : (r < n)%nat ->
  rin (GarbageCollect (RubbishReadRegion r ff)) (A.tickv a) objs true -> A.value a = value ->
  let objs' := <[r := collect (objs !!! r)]> objs in
  let ff' := (ff + if is_rubbish (objs !!! r) then SIZE else 0)%nat in
  if decide (S r < n)%nat
  then exists fuel' a', (fuel <= fuel')%nat /\ drive SIZE (S (S fuel)) a = drive SIZE fuel' a' /\
    rin (GarbageCollect (RubbishReadRegion (S r) ff')) (A.tickv a') objs' true /\ A.value a' = value
  else exists ret a', drive SIZE (S (S fuel)) a = Ret (ret, a') /\ final (Ok Complete) value ff' objs' true ret a'.
Proof.
  intros Hr Hrep Hv objs' ff'.
  destruct (callback_read a objs _ r Hrep eq_refl Hr) as (a1 & Ec & Hld & _ & Ev & _). rewrite Hv in Ev.
  pose proof Hld as (Hrep1 & _ & _). pose proof (rep_state _ _ _ _ _ Hrep1) as Hst.
  destruct (collect_turn (A.tickv a1) objs r ff Hld) as (s' & H). fold objs' in H.
  unfold ff'. destruct (is_rubbish (objs !!! r)); [|rewrite Nat.add_0_r].
  - destruct H as [E Hrep2]. set (a2 := A.set_tickv s' a1).
    assert (E2 : callback SIZE a = Ret (Err (EraseNotReady r), None, 0%nat, a2)).
    { rewrite Ec. unfold A.continue_operation. by rewrite (resume_collect _ _ _ _ Hst E). }
    rewrite (drive_next _ _ _ _ E2 eq_refl).
    assert (E3 : callback SIZE a2 = A.continue_operation SIZE a2).
    { unfold callback. by rewrite (rep_state _ _ _ _ _ Hrep2 : state (A.tickv a2) = _). }
    destruct (erased_turn s' objs' r _ Hrep2) as (s3 & H3). destruct (decide (S r < n)%nat); destruct H3 as [Eg Hrep3];
      pose proof (resume_collect a2 _ _ _ (rep_state _ _ _ _ _ Hrep2) Eg) as Er; cbn iota in Er.
    + exists fuel, (A.set_tickv s3 a2). split_and!; [lia| |done|done].
      eapply drive_next; [rewrite E3; unfold A.continue_operation; by rewrite Er|done].
    + destruct (continue_final _ _ _ _ value _ _ _ Er Ev I Hrep3) as (ret & a' & Ef & Ho & Hfin).
      exists ret, a'. split; [|done]. apply drive_over; [by rewrite E3|done].
  - destruct (decide (S r < n)%nat); destruct H as [Eg Hrep3]; pose proof (resume_collect a1 _ _ _ Hst Eg) as Er; cbn iota in Er.
    + exists (S fuel), (A.set_tickv s' a1). split_and!; [lia| |done|done].
      eapply drive_next; [rewrite Ec; unfold A.continue_operation; by rewrite Er|done].
    + destruct (continue_final _ _ _ _ value _ _ _ Er Ev I Hrep3) as (ret & a' & Ef & Ho & Hfin).
      exists ret, a'. split; [|done]. apply drive_over; [by rewrite Ec|done].
Qed.

Lemma collect_drive value : forall d fuel r ff objs a, (r + S d = n)%nat -> (2 * S d <= fuel)%nat ->
  rin (GarbageCollect (RubbishReadRegion r ff)) (A.tickv a) objs true -> A.value a = value ->
  exists ret a', drive SIZE fuel a = Ret (ret, a') /\
    final (Ok Complete) value (ff + freed_from r objs) (collecting r objs) true ret a'.
Proof.
  induction d as [|d IH]; intros fuel r ff objs a Hd Hf Hrep Hv;
    (destruct fuel as [|[|fuel] ]; [lia..|]); pose proof (rep_len _ _ _ _ _ Hrep) as Hl;
    destruct (collecting_step objs r ltac:(lia)) as [-> ->]; rewrite Nat.add_assoc;
    pose proof (collect_step value fuel r ff objs a ltac:(lia) Hrep Hv) as H; cbv zeta in H.
  - rewrite decide_False in H by lia. unfold freed_from, collecting.
    rewrite drop_ge, take_ge by (rewrite length_insert; lia). cbn [map List.filter length].
    by rewrite Nat.mul_0_r, Nat.add_0_r, app_nil_r.
  - rewrite decide_True in H by lia. destruct H as (fuel' & a' & Hle & -> & Hrep' & Hv').
    apply (IH fuel' (S r) _ _ a'); [lia|lia|done|done].
Qed.

(** ** Initialisation *)

(** The first [r] regions are erased. *)
Definition erased (r : nat) (objs : objects) : objects := replicate r [] ++ drop r objs.
Lemma erased_step objs r : (r < length objs)%nat -> <[r := []]> (erased r objs) = erased (S r) objs.
Proof.
  intros Hr. pose proof Hr as [os Hos]%lookup_lt_is_Some_2. unfold erased. rewrite (drop_S _ _ _ Hos).
  rewrite replicate_S_end, <- app_assoc. pose proof (length_replicate r ([] : list obj)) as Hl.
  pose proof (insert_app_r (replicate r []) (os :: drop (S r) objs) 0 []) as Hi. rewrite Hl, Nat.add_0_r in Hi. exact Hi.
Qed.

(** From a region that was erased, or from the start: the next erasure, or the read
    for the main key. *)
Lemma set_up_pending h st s objs r : good_hash h ->
  (exists reg, st = Init (GetKeyReadRegion reg)) /\ r = 0%nat \/ (exists r', st = Init (EraseRegion r') /\ r = S r') ->
  rin st s (erased r objs) true -> length objs = n ->
  exists s', if decide (r < n)%nat
    then set_up SIZE h s = Ret (Err (EraseNotReady r), s') /\ rin (Init (EraseRegion r)) s' (erased (S r) objs) true
    else set_up SIZE h s = Ret (Err (ReadNotReady (home n h)), s') /\ rin (Init (AppendKeyReadRegion (home n h))) s' (erased r objs) true.
Proof.
  intros Hh Hst Hrep Hlen.
  assert (Hstart : match st with Init (EraseRegion reg) => (reg + 1)%nat | _ => 0%nat end = r).
  { destruct Hst as [ [ [reg ->] ->]|(r' & -> & ->)]; lia. }
  assert (Es : set_up SIZE h s = mbind_ (erase_all SIZE) (fun _ => mbind_ (catch (append_key SIZE h [])) (fun r0 =>
    match r0 with
    | Ok ret => mbind_ (set_state NoState) (fun _ => mret ret)
    | Err (ReadNotReady reg) => mbind_ (set_state (Init (AppendKeyReadRegion reg))) (fun _ => fail (ReadNotReady reg))
    | Err (WriteNotReady _) => mbind_ (set_state NoState) (fun _ => mret Queued)
    | Err e => fail e
    end)) s).
  { unfold set_up. erewrite bind_ok by done. rewrite (rep_state _ _ _ _ _ Hrep).
    by destruct Hst as [ [ [reg ->] ->]|(r' & -> & ->)]. }
  rewrite Es. unfold erase_all at 1 2. destruct (decide (r < n)%nat) as [Hlt|Hge].
  - destruct (erase_pending _ _ _ r Hrep Hlt) as (s1 & E1 & Hrep1). rewrite erased_step in Hrep1 by lia.
    exists (set_state_ (Init (EraseRegion r)) s1). split; [|by apply set_state_rep with (st' := Init (EraseRegion r)) in Hrep1].
    apply bind_err. erewrite bind_ok by (by eapply rep_num_region). erewrite bind_ok by done.
    rewrite (rep_state _ _ _ _ _ Hrep), Hstart. cbv zeta. apply bind_err.
    replace (n - r)%nat with (S (n - S r)) by lia. cbn [seq erase_loop]. erewrite bind_ok by exact E1. done.
  - apply (set_state_rep _ _ _ _ _ (Init EraseComplete)) in Hrep as Hrep1.
    pose proof (rep_some _ _ _ _ _ Hrep) as Hn. pose proof (home_lt n h Hn) as Hh'.
    destruct (load_pending _ _ (fun reg => AppendKey (ReadRegion reg)) (home n h) Hrep1 Hh') as (s2 & E2 & Hrep2).
    exists (set_state_ (Init (AppendKeyReadRegion (home n h))) s2).
    split; [|by apply set_state_rep with (st' := Init (AppendKeyReadRegion (home n h))) in Hrep2].
    erewrite bind_ok.
    2:{ erewrite bind_ok by (by eapply rep_num_region). erewrite bind_ok by done.
        rewrite (rep_state _ _ _ _ _ Hrep), Hstart. cbv zeta. replace (n - r)%nat with 0%nat by lia. done. }
    assert (Ea : append_key SIZE h [] (set_state_ (Init EraseComplete) s) = Ret (Err (ReadNotReady (home n h)), s2)).
    { unfold append_key. erewrite bind_ok by (by eapply get_region_ok). cbn [length].
      rewrite (proj2 (Nat.ltb_ge _ _)) by (unfold HEADER_LENGTH, HASH_OFFSET, CHECK_SUM_LEN; lia).
      erewrite bind_ok by done. unfold fuel_regions. rewrite Nat.add_comm. cbn [Nat.add append_loop].
      erewrite bind_ok by done. rewrite (rep_state _ _ _ _ _ Hrep1). erewrite bind_ok by done.
      unfold region_at. rewrite Z.add_0_r, Nat2Z.id.
      rewrite !bool_decide_eq_false_2 by done. by apply bind_err. }
    unfold catch. unfold mbind_ at 1. rewrite Ea. done.
Qed.

(** The read for the main key has finished. *)
Lemma set_up_turn h s : good_hash h -> (HEADER_LENGTH + CHECK_SUM_LEN <= SIZE)%nat -> (0 < n)%nat ->
  loaded (Init (AppendKeyReadRegion (home n h))) s (replicate n []) (home n h) ->
  exists s', set_up SIZE h s = Ret (Ok c, s') /\ rep s' (<[home n h := [fresh_obj h []]]> (replicate n [])) true.
Proof.
  intros Hh Hs Hn Hld. destruct (path_start n h Hn) as (m & Hm & _ & Hin & _).
  assert (E0 : region_at (home n h) (unrank 0) = home n h) by (unfold region_at; change (unrank 0) with 0; lia).
  pose proof Hld as (Hrep & _ & Hr).
  destruct (append_turn h Hh (replicate n []) 0 m Hin Hm (Init (AppendKeyReadRegion (home n h))) [] s) as (s' & H);
    [right; by rewrite E0|constructor|by apply Nat.ltb_lt|by rewrite E0|].
  rewrite E0, lookup_total_replicate_2 in H by done. cbn [locate list_find length app] in H. change (used []) with 0%nat in H.
  rewrite (proj2 (Nat.leb_gt _ _)), (proj2 (Nat.leb_le _ _)) in H by (unfold HEADER_LENGTH, HASH_OFFSET, CHECK_SUM_LEN in *; lia).
  destruct H as [E Hrep']. apply (set_state_rep _ _ _ _ _ NoState) in Hrep'. eexists. split; [|exact Hrep'].
  unfold set_up. erewrite bind_ok by done. rewrite (rep_state _ _ _ _ _ Hrep). erewrite bind_ok by done.
  unfold catch, mbind_ at 1. rewrite E. done.
Qed.

Lemma resume_init a st h x s' : state (A.tickv a) = Init st -> A.key a = Some h ->
  initialise SIZE h (A.tickv a) = Ret (x, s') -> A.resume SIZE a = Ret (x, 0%nat, A.set_tickv s' a).
Proof. intros Hst Hk E. unfold A.resume. rewrite Hst, Hk. cbn [of_option obind]. by rewrite E. Qed.

Lemma initialise_set_up h s st : state s = Init st -> (forall reg, st <> GetKeyReadRegion reg) ->
  initialise SIZE h s = set_up SIZE h s.
Proof.
  intros Hst Hne. unfold initialise. erewrite bind_ok by done. rewrite Hst.
  destruct st; [by edestruct Hne|..]; by erewrite bind_ok by done.
Qed.

Definition initialised (h : Z) : objects := <[home n h := [fresh_obj h []]]> (replicate n []).

Lemma erase_drive h value objs : good_hash h -> (HEADER_LENGTH + CHECK_SUM_LEN <= SIZE)%nat -> (0 < n)%nat -> length objs = n ->
  forall d fuel r a, (S r + d = n)%nat -> (d + 2 <= fuel)%nat ->
  rin (Init (EraseRegion r)) (A.tickv a) (erased (S r) objs) true -> A.key a = Some h -> A.value a = value ->
  exists ret a', drive SIZE fuel a = Ret (ret, a') /\ final (Ok c) value 0 (initialised h) true ret a'.
Proof.
  intros Hh Hs Hn Hlen. induction d as [|d IH]; intros fuel r a Hd Hf Hrep Hk Hv; (destruct fuel as [|fuel]; [lia|]);
    pose proof (rep_state _ _ _ _ _ Hrep) as Hst;
    pose proof (initialise_set_up h _ _ Hst ltac:(done)) as Ei;
    destruct (set_up_pending h _ _ objs (S r) Hh (or_intror (ex_intro _ r (conj eq_refl eq_refl))) Hrep Hlen) as (s' & H);
    rewrite <- Ei in H;
    assert (Ec : callback SIZE a = A.continue_operation SIZE a) by (unfold callback; by rewrite Hst).
  - rewrite decide_False in H by lia. destruct H as [E Hrep1].
    replace (erased (S r) objs) with (replicate n ([] : list obj)) in Hrep1
      by (unfold erased; rewrite drop_ge, app_nil_r by lia; f_equal; lia).
    set (a1 := A.set_tickv s' a). assert (E1 : callback SIZE a = Ret (Err (ReadNotReady (home n h)), None, 0%nat, a1)).
    { rewrite Ec. apply (continue_pending _ _ _ _ (resume_init _ _ _ _ _ Hst Hk E)). }
    rewrite (drive_next _ _ _ _ E1 eq_refl). destruct fuel as [|fuel]; [lia|].
    destruct (callback_read a1 _ _ (home n h) Hrep1 eq_refl (home_lt n h Hn)) as (a2 & E2 & Hld & Ek & Ev & _).
    destruct (set_up_turn h _ Hh Hs Hn Hld) as (s2 & Es & Hrep2). pose proof Hld as (Hrep3 & _ & _).
    pose proof (rep_state _ _ _ _ _ Hrep3) as Hst3. rewrite <- (initialise_set_up h _ _ Hst3 ltac:(done)) in Es.
    pose proof (resume_init a2 _ _ _ _ Hst3 (eq_trans Ek Hk) Es) as Er.
    destruct (continue_final a2 _ _ _ value _ _ _ Er (eq_trans Ev Hv) I Hrep2) as (ret & a' & Ef & Ho & Hfin).
    exists ret, a'. split; [|done]. apply drive_over; [by rewrite E2|done].
  - rewrite decide_True in H by lia. destruct H as [E Hrep1].
    assert (E1 : callback SIZE a = Ret (Err (EraseNotReady (S r)), None, 0%nat, A.set_tickv s' a)).
    { rewrite Ec. unfold A.continue_operation. by rewrite (resume_init _ _ _ _ _ Hst Hk E). }
    rewrite (drive_next _ _ _ _ E1 eq_refl). apply (IH fuel (S r)); [lia|lia|done|done|done].
Qed.

Definition init_final (h : Z) (value : option (list Z)) (objs : objects) (found : option (nat * nat * obj)) : post :=
  match found with
  | Some (_, _, o) =>
    match o_value o with
    | [] => final (Ok Complete) value 0 objs true
    | _ => final (Ok c) value 0 (initialised h) true
    end
  | None => final (Ok c) value 0 (initialised h) true
  end.

Lemma init_drive h value objs : good_hash h -> (HEADER_LENGTH + CHECK_SUM_LEN <= SIZE)%nat -> (0 < n)%nat ->
  forall todo fuel k m a, in_range n (home n h) (unrank k) -> (2 * n <= k + S m)%nat ->
    (length (path_from n h k m) <= todo)%nat -> (todo + n + 1 <= fuel)%nat ->
    rin (Init (GetKeyReadRegion (region_at (home n h) (unrank k)))) (A.tickv a) objs true ->
    A.key a = Some h -> A.value a = value ->
    exists ret a', drive SIZE fuel a = Ret (ret, a') /\
      init_final h value objs (search_in SIZE h objs (path_from n h k m)) ret a'.
Proof.
  intros Hh Hs Hn. induction todo as [|todo IH]; intros fuel k m a Hin Hm Hlen Hf Hrep Hk Hv; [cbn in Hlen; lia|].
  destruct fuel as [|fuel]; [lia|]. unfold path_from in *. cbn [map length search_in] in *. set (r := region_at _ _) in *.
  destruct (region_at_ok n h k Hn Hin) as [Hr _]. fold r in Hr. pose proof (rep_len _ _ _ _ _ Hrep) as Hlo.
  destruct (callback_read a objs _ r Hrep eq_refl Hr) as (a1 & Ec & Hld & Ek & Ev & _).
  rewrite Hk in Ek. rewrite Hv in Ev. pose proof Hld as (Hrep1 & _ & _). pose proof (rep_state _ _ _ _ _ Hrep1) as Hst.
  destruct (get_turn h Hh objs k m Hin Hm _ [] (A.tickv a1) (or_intror eq_refl) Hld) as (s' & H). fold r in H.
  assert (Hini : forall x buf, get_key SIZE h (A.tickv a1, []) = Ret (x, (s', buf)) ->
    initialise SIZE h (A.tickv a1) = match x with
      | Ok (ret, _) => mret ret s'
      | Err (ReadNotReady reg) => Ret (Err (ReadNotReady reg), set_state_ (Init (GetKeyReadRegion reg)) s')
      | Err e => set_up SIZE h s' end).
  { intros x buf Ex. unfold initialise. erewrite bind_ok by done. rewrite Hst.
    erewrite bind_ok by (unfold catch, get_main_key; rewrite Ex; done). destruct x as [ [? ?]|e0]; [done|by destruct e0]. }
  assert (Herase : initialise SIZE h (A.tickv a1) = set_up SIZE h s' -> rin (Init (GetKeyReadRegion r)) s' objs true ->
    exists ret a', drive SIZE (S fuel) a = Ret (ret, a') /\ final (Ok c) value 0 (initialised h) true ret a').
  { intros Ei Hrep2.
    destruct (set_up_pending h _ s' objs 0 Hh (or_introl (conj (ex_intro _ r eq_refl) eq_refl)) Hrep2 Hlo) as (s2 & H2).
    rewrite decide_True in H2 by done. destruct H2 as [E2 Hrep3]. rewrite <- Ei in E2.
    assert (E1 : callback SIZE a = Ret (Err (EraseNotReady 0), None, 0%nat, A.set_tickv s2 a1)).
    { rewrite Ec. unfold A.continue_operation. by rewrite (resume_init _ _ _ _ _ Hst Ek E2). }
    rewrite (drive_next _ _ _ _ E1 eq_refl).
    apply (erase_drive h value objs Hh Hs Hn Hlo (n - 1) fuel 0); [lia|lia|done|done|done]. }
  destruct (locate h (objs !!! r)) as [ [i o]|]; unfold init_final.
  { destruct H as [E Hrep2]. specialize (Hini _ _ E). unfold read_result in Hini. cbn [length] in Hini.
    destruct (o_value o) as [|b v]; cbn [length Nat.ltb Nat.leb fst snd] in Hini; [|by apply Herase].
    destruct (continue_final a1 _ _ _ value _ _ _ (resume_init _ _ _ _ _ Hst Ek Hini) Ev I Hrep2) as (ret & a' & Ef & Ho & Hfin).
    exists ret, a'. split; [|done]. apply drive_over; [by rewrite Ec|done]. }
  destruct (passable SIZE (objs !!! r)); [|destruct H as [E Hrep2]; apply Herase; [exact (Hini _ _ E)|done] ].
  destruct (increment_loop_next n (home n h) (home_lt n h Hn) 3 k m ltac:(lia) Hin Hm)
    as (k' & m' & _ & [Hos|(Hos & Hin' & Hm')]); rewrite Hos in *; cbn [head fmap option_fmap option_map] in H;
    destruct H as [E Hrep2]; specialize (Hini _ _ E).
  { cbn [map search_in]. by apply Herase. }
  rewrite (drive_next fuel a (Err (ReadNotReady (region_at (home n h) (unrank k'))), None, 0%nat)
    (A.set_tickv (set_state_ (Init (GetKeyReadRegion (region_at (home n h) (unrank k')))) s') a1));
    [|rewrite Ec; by apply (continue_pending _ _ _ _ (resume_init _ _ _ _ _ Hst Ek Hini))|done].
  apply (IH fuel k' m'); [done|done|cbn [map length] in *; lia|lia| |done|done].
  by apply set_state_rep with (st' := Init (GetKeyReadRegion (region_at (home n h) (unrank k')))) in Hrep2.
Qed.

(** * The whole operation *)

(** The walks are the searches of the specification. *)
Lemma walk_get h buf objs rs ret a : walk (get_visit h buf objs) (get_final (Err KeyNotFound) buf objs) rs ret a ->
  match search_in SIZE h objs rs with
  | Some (_, _, o) => get_final (read_result o buf).1 (read_result o buf).2 objs ret a
  | None => get_final (Err KeyNotFound) buf objs ret a
  end.
Proof.
  induction rs as [|r rs IH]; cbn [walk search_in]; [done|]. unfold get_visit at 1.
  destruct (locate h (objs !!! r)) as [ [i o]|]; [done|]. by destruct (passable SIZE (objs !!! r)).
Qed.
Lemma walk_delete P h value objs rs ret a :
  walk (delete_visit P h value objs) (final (Err KeyNotFound) value 0 objs true) rs ret a ->
  match search_in SIZE h objs rs with
  | Some (r, i, o) => P r i o ret a
  | None => final (Err KeyNotFound) value 0 objs true ret a
  end.
Proof.
  induction rs as [|r rs IH]; cbn [walk search_in]; [done|]. unfold delete_visit at 1.
  destruct (locate h (objs !!! r)) as [ [i o]|]; [done|]. by destruct (passable SIZE (objs !!! r)).
Qed.
Lemma walk_append h buf len objs rs ret a :
  walk (append_visit h buf len objs) (final (Err FlashFull) (Some buf) len objs true) rs ret a ->
  match place_in SIZE h (HEADER_LENGTH + length (take len buf)) objs rs with
  | AlreadyThere => final (Err KeyAlreadyExists) (Some buf) len objs true ret a
  | Full => final (Err FlashFull) (Some buf) len objs true ret a
  | At r =>
    if (used (objs !!! r) + (HEADER_LENGTH + length (take len buf) + CHECK_SUM_LEN) <=? SIZE)%nat
    then final (Ok c) (Some buf) len (<[r := (objs !!! r) ++ [fresh_obj h (take len buf)]]> objs) true ret a
    else final (Err ObjectTooLarge) (Some buf) len objs false ret a
  end.
Proof.
  induction rs as [|r rs IH]; cbn [walk place_in]; [done|]. unfold append_visit at 1.
  destruct (locate h (objs !!! r)) as [ [i o]|]; [done|]. destruct (SIZE <=? _)%nat; [done|]. by destruct (_ <=? SIZE)%nat.
Qed.

(** An asynchronous write is reported as queued. *)
Definition relabel (x : answer) : answer := match x with Done (Ok Written) => Done (Ok c) | _ => x end.

Definition async_agrees (o : op) (a : AKV) (r : answer * objects * bool) : Prop :=
  let '(x, objs', kept) := r in
  exists a', async_op SIZE o a = Ret (Some (relabel x), a') /\ rep (A.tickv a') objs' kept.

Lemma first_offset h st s objs kept : rin st s objs kept ->
  exists m, (2 * n <= 0 + S m)%nat /\ path n h = path_from n h 0 m /\ in_range n (home n h) (unrank 0) /\
  (length (path_from n h 0 m) + n + 1 <= fuel_regions SIZE s)%nat.
Proof.
  intros Hrep. destruct (path_start n h (rep_some _ _ _ _ _ Hrep)) as (m & Hm & Ep & Hin & Hl).
  exists m. rewrite <- Ep, Hl. unfold fuel_regions.
  rewrite (rep_num _ _ _ _ _ Hrep). split_and!; try done. lia.
Qed.

Lemma async_append h value objs a : good_hash h -> bytes_ok value ->
  (HEADER_LENGTH + length value + CHECK_SUM_LEN < 0xfff)%nat -> rep (A.tickv a) objs true ->
  async_agrees (OpAppend h value) a (spec_call SIZE n (OpAppend h value) objs).
Proof.
  intros Hh Hv Hlen Hrep. pose proof (rep_some _ _ _ _ _ Hrep) as Hn.
  destruct (append_pending h objs (2 * n + 1) 0 value (mkHeader VERSION FLAGS_VALID
    (Z.of_nat (HEADER_LENGTH + length value + CHECK_SUM_LEN)) h) (A.tickv a)) as (s1 & E1 & Hrep1);
    [by destruct (first_offset h _ _ _ _ Hrep) as (m & _ & _ & Hin & _)|done|].
  destruct (first_offset h _ _ _ _ Hrep1) as (m & Hm & Ep & Hin & Hf).
  set (a1 := A.set_value_length (length value) (A.set_value (Some value) (A.set_key (Some h) (A.set_tickv s1 a)))).
  assert (Es : start SIZE (OpAppend h value) a = Ret (true, a1)).
  { unfold start, A.append_key, slice. rewrite Nat.leb_refl. cbn [Nat.leb andb obind].
    rewrite Nat.sub_0_r, drop_0, firstn_all.
    assert (Ea : append_key SIZE h value (A.tickv a) = Ret (Err (ReadNotReady (region_at (home n h) (unrank 0))), s1)).
    { unfold append_key. erewrite bind_ok by (by eapply get_region_ok). rewrite (proj2 (Nat.ltb_ge _ _)) by lia.
      erewrite bind_ok by (unfold lift, header_new; rewrite (proj2 (Z.ltb_lt _ _)) by lia; done).
      rewrite <- E1. unfold fuel_regions. rewrite (rep_num _ _ _ _ _ Hrep). f_equal. lia. }
    rewrite Ea. done. }
  unfold async_agrees, async_op. rewrite Es. cbn [obind].
  destruct (append_drive h value (length value) objs Hh Hv (Nat.le_refl _) ltac:(by rewrite firstn_all) Hn
    (fuel_regions SIZE (A.tickv a1)) 0 m a1 Hin Hm Hrep1 eq_refl eq_refl eq_refl ltac:(unfold a1; cbn [A.tickv A.set_value_length A.set_value A.set_key A.set_tickv]; lia))
    as (ret & a' & Ed & Hw).
  apply walk_append in Hw. rewrite firstn_all, <- Ep in Hw. cbn [spec_call]. unfold spec_append.
  destruct (place_in _ _ _ _ _) as [| |r]; [| |destruct (_ <=? _)%nat]; destruct Hw as [-> Hr]; exists a'; by rewrite Ed.
Qed.

Lemma async_get h buf objs a : good_hash h -> rep (A.tickv a) objs true ->
  async_agrees (OpGet h buf) a (spec_call SIZE n (OpGet h buf) objs).
Proof.
  intros Hh Hrep. pose proof (rep_some _ _ _ _ _ Hrep) as Hn.
  destruct (get_pending h objs (2 * n + 1) 0 buf (A.tickv a)) as (s1 & E1 & Hrep1);
    [by destruct (first_offset h _ _ _ _ Hrep) as (m & _ & _ & Hin & _)|done|].
  destruct (first_offset h _ _ _ _ Hrep1) as (m & Hm & Ep & Hin & Hf).
  set (a1 := A.set_value (Some buf) (A.set_key (Some h) (A.set_tickv s1 a))).
  assert (Es : start SIZE (OpGet h buf) a = Ret (true, a1)).
  { unfold start, A.get_key.
    assert (Eg : get_key SIZE h (A.tickv a, buf) = Ret (Err (ReadNotReady (region_at (home n h) (unrank 0))), (s1, buf))).
    { unfold get_key. erewrite bind_ok by (cbn [on_kv]; erewrite get_region_ok by done; done).
      rewrite <- E1. cbn [fst]. unfold fuel_regions. rewrite (rep_num _ _ _ _ _ Hrep). f_equal. lia. }
    rewrite Eg. done. }
  unfold async_agrees, async_op. rewrite Es. cbn [obind].
  destruct (get_drive h buf objs Hh Hn (fuel_regions SIZE (A.tickv a1)) 0 m a1 Hin Hm Hrep1 eq_refl eq_refl
    ltac:(unfold a1; cbn [A.tickv A.set_value A.set_key A.set_tickv]; lia)) as (ret & a' & Ed & Hw).
  apply walk_get in Hw. rewrite <- Ep in Hw. cbn [spec_call]. unfold spec_get. rewrite Ed.
  destruct (search_in _ _ _ _) as [ [ [r i] o]|]; [unfold read_result in *; destruct (_ <? _)%nat|];
    destruct Hw as [-> Hr]; by exists a'.
Qed.

Lemma async_delete o h objs a in_state delete (P : nat -> nat -> obj -> result SuccessCode ErrorCode * objects * bool) :
  o = OpInvalidate h /\ in_state = InvalidateKey /\ delete = invalidate_entry SIZE \/
  o = OpZeroise h /\ in_state = ZeroiseKey /\ delete = zeroise_entry SIZE ->
  (forall st s r i o, rin st s objs false -> (r < n)%nat -> locate h (objs !!! r) = Some (i, o) ->
    exists s', delete (region_bytes SIZE (objs !!! r)) r (used (take i (objs !!! r))) (o_len o) s = Ret ((P r i o).1.1, s') /\
      rin st s' (P r i o).1.2 (P r i o).2) ->
  (forall r i o, match (P r i o).1.1 with Err e => A.is_pending e = false | Ok _ => True end) ->
  good_hash h -> rep (A.tickv a) objs true ->
  exists a', match search_in SIZE h objs (path n h) with
   | Some (r, i, x) => async_op SIZE o a = Ret (Some (Done (P r i x).1.1), a') /\ rep (A.tickv a') (P r i x).1.2 (P r i x).2
   | None => async_op SIZE o a = Ret (Some (Done (Err KeyNotFound)), a') /\ rep (A.tickv a') objs true
   end.
Proof.
  intros Hkind Hdel Hnp Hh Hrep. pose proof (rep_some _ _ _ _ _ Hrep) as Hn.
  assert (Hne : forall reg, in_state reg <> NoState) by (by destruct Hkind as [(_ & -> & _)|(_ & -> & _)]).
  destruct (delete_pending h objs (2 * n + 1) 0 in_state delete (A.tickv a) Hne) as (s1 & E1 & Hrep1);
    [by destruct (first_offset h _ _ _ _ Hrep) as (m & _ & _ & Hin & _)|done|].
  destruct (first_offset h _ _ _ _ Hrep1) as (m & Hm & Ep & Hin & Hf).
  set (a1 := A.set_key (Some h) (A.set_tickv s1 a)).
  set (call := match o with OpInvalidate _ => invalidate_key SIZE | _ => zeroise_key SIZE end).
  assert (Ecall : call h (A.tickv a) = Ret (Err (ReadNotReady (region_at (home n h) (unrank 0))), s1)).
  { rewrite <- E1. destruct Hkind as [(-> & -> & ->)|(-> & -> & ->)]; [unfold call, invalidate_key|unfold call, zeroise_key];
      erewrite bind_ok by (by eapply get_region_ok); unfold fuel_regions; rewrite (rep_num _ _ _ _ _ Hrep); f_equal; lia. }
  assert (Es : start SIZE o a = Ret (true, a1)).
  { destruct Hkind as [(-> & _)|(-> & _)]; [unfold start, A.invalidate_key|unfold start, A.zeroise_key];
      cbn [call] in Ecall; unfold call in Ecall; rewrite Ecall; done. }
  unfold async_op. rewrite Es. cbn [obind].
  destruct (delete_drive in_state delete call h (A.value a) objs P
    ltac:(by destruct Hkind as [(-> & -> & ->)|(-> & -> & ->)]; [left|right]) Hdel Hnp Hh Hn
    (fuel_regions SIZE (A.tickv a1)) 0 m a1 Hin Hm Hrep1 eq_refl eq_refl ltac:(unfold a1; cbn [A.tickv A.set_key A.set_tickv]; lia))
    as (ret & a' & Ed & Hw).
  apply walk_delete in Hw. rewrite <- Ep in Hw. rewrite Ed. exists a'.
  destruct (search_in _ _ _ _) as [ [ [r i] x]|]; destruct Hw as [-> Hr]; (split; [|done]);
    by destruct Hkind as [(-> & _)|(-> & _)].
Qed.

Lemma async_invalidate h objs a : good_hash h -> rep (A.tickv a) objs true ->
  async_agrees (OpInvalidate h) a (spec_call SIZE n (OpInvalidate h) objs).
Proof.
  intros Hh Hrep.
  destruct (async_delete (OpInvalidate h) h objs a InvalidateKey (invalidate_entry SIZE)
    (fun r i o => (Ok c, set_obj r i (kill o) objs, true))) as (a' & H); [by left| |done|done|done|].
  { intros st s r i o Hr0 Hr Hl. exact (invalidate_stored SIZE n s objs h r i o Hr0 Hr Hl). }
  cbn [spec_call]. unfold spec_invalidate.
  destruct (search_in _ _ _ _) as [ [ [r i] o]|]; destruct H as [E Hr]; by exists a'.
Qed.

Lemma async_zeroise h objs a : good_hash h -> rep (A.tickv a) objs true ->
  async_agrees (OpZeroise h) a (spec_call SIZE n (OpZeroise h) objs).
Proof.
  intros Hh Hrep.
  destruct (async_delete (OpZeroise h) h objs a ZeroiseKey (zeroise_entry SIZE)
    (fun r i o => if (used (take (S i) (objs !!! r)) + HEADER_LENGTH <=? SIZE)%nat
                  then (Ok c, set_obj r i (zeroed o) objs, true) else (Err RegionFull, objs, false))) as (a' & H);
    [by right| |intros r i o; by destruct (_ <=? _)%nat|done|done|].
  { intros st s r i o Hr0 Hr Hl. destruct (zeroise_stored SIZE n s objs h r i o Hr0 Hr Hl) as (s' & E & Hrep').
    exists s'. by destruct (_ <=? _)%nat. }
  cbn [spec_call]. unfold spec_zeroise.
  destruct (search_in _ _ _ _) as [ [ [r i] o]|]; [destruct (_ <=? _)%nat|]; destruct H as [E Hr]; by exists a'.
Qed.

Lemma async_collect objs a : rep (A.tickv a) objs true -> async_agrees OpCollect a (spec_call SIZE n OpCollect objs).
Proof.
  intros Hrep. pose proof (rep_some _ _ _ _ _ Hrep) as Hn.
  destruct (collect_pending _ _ _ 0 0 Hrep Hn ltac:(done)) as (s1 & E1 & Hrep1).
  assert (Eg : garbage_collect SIZE (A.tickv a) = Ret (Err (ReadNotReady 0), s1)).
  { unfold garbage_collect. erewrite bind_ok by (by eapply rep_num_region). erewrite bind_ok by done.
    rewrite (rep_state _ _ _ _ _ Hrep). erewrite bind_ok by done. exact E1. }
  assert (Es : start SIZE OpCollect a = Ret (true, A.set_tickv s1 a)).
  { unfold start, A.garbage_collect. by rewrite Eg. }
  destruct (collect_drive (A.value a) (n - 1) (fuel_regions SIZE s1) 0 0 objs (A.set_tickv s1 a)) as (ret & a' & Ed & -> & Hr);
    [lia|unfold fuel_regions; rewrite (rep_num _ _ _ _ _ Hrep1); lia|done|done|].
  exists a'. split; [|exact Hr]. unfold async_op. rewrite Es. cbn [obind A.tickv A.set_tickv]. rewrite Ed. done.
Qed.

Lemma async_initialise h objs a : good_hash h -> (HEADER_LENGTH + CHECK_SUM_LEN <= SIZE)%nat -> rep (A.tickv a) objs true ->
  async_agrees (OpInitialise h) a (spec_call SIZE n (OpInitialise h) objs).
Proof.
  intros Hh Hs Hrep. pose proof (rep_some _ _ _ _ _ Hrep) as Hn.
  destruct (get_pending h objs (2 * n + 1) 0 [] (A.tickv a)) as (s1 & E1 & Hrep1);
    [by destruct (first_offset h _ _ _ _ Hrep) as (m & _ & _ & Hin & _)|done|].
  set (r := region_at (home n h) (unrank 0)) in *.
  apply (set_state_rep _ _ _ _ _ (Init (GetKeyReadRegion r))) in Hrep1.
  destruct (first_offset h _ _ _ _ Hrep1) as (m & Hm & Ep & Hin & Hf).
  set (a1 := A.set_tickv (set_state_ (Init (GetKeyReadRegion r)) s1) (A.set_key (Some h) a)).
  assert (Es : start SIZE (OpInitialise h) a = Ret (true, a1)).
  { unfold start, A.initialise. cbn [A.tickv A.set_key].
    assert (Eg : get_key SIZE h (A.tickv a, []) = Ret (Err (ReadNotReady r), (s1, []))).
    { unfold get_key. erewrite bind_ok by (cbn [on_kv]; erewrite get_region_ok by done; done).
      rewrite <- E1. cbn [fst]. unfold fuel_regions. rewrite (rep_num _ _ _ _ _ Hrep). f_equal. lia. }
    assert (Ei : initialise SIZE h (A.tickv a) = Ret (Err (ReadNotReady r), set_state_ (Init (GetKeyReadRegion r)) s1)).
    { unfold initialise. erewrite bind_ok by done. rewrite (rep_state _ _ _ _ _ Hrep).
      erewrite bind_ok by (unfold catch, get_main_key; rewrite Eg; done). done. }
    rewrite Ei. done. }
  destruct (init_drive h (A.value a) objs Hh Hs Hn (length (path_from n h 0 m)) (fuel_regions SIZE (A.tickv a1)) 0 m a1 Hin Hm
    (Nat.le_refl _) Hf Hrep1 eq_refl eq_refl) as (ret & a' & Ed & Hw).
  unfold async_agrees, async_op. rewrite Es. cbn [obind spec_call]. rewrite Ed. unfold init_final in Hw. rewrite <- Ep in Hw.
  unfold spec_initialise. destruct (search_in _ _ _ _) as [ [ [r' i] o]|]; [destruct (o_value o)|];
    destruct Hw as [-> Hr]; by exists a'.
Qed.

Lemma async_refines o objs a : op_ok o -> (forall h, hash_of o = Some h -> hash_ok h = true) ->
  (object_length o < 0xfff)%nat -> (HEADER_LENGTH + CHECK_SUM_LEN <= SIZE)%nat -> rep (A.tickv a) objs true ->
  async_agrees o a (spec_call SIZE n o objs).
Proof.
  intros Hop Hh Hlen Hs Hrep.
  assert (Hg : forall h, hash_of o = Some h -> good_hash h).
  { intros h E. apply good_hash_of; [|by apply Hh]. destruct o; cbn in E, Hop; simplify_eq; naive_solver. }
  destruct o as [h|h value|h buf|h|h|]; cbn [hash_of] in Hg.
  - apply async_initialise; [by apply Hg|done|done].
  - apply async_append; [by apply Hg|apply Hop|done|done].
  - apply async_get; [by apply Hg|done].
  - apply async_invalidate; [by apply Hg|done].
  - apply async_zeroise; [by apply Hg|done].
  - by apply async_collect.
Qed.
End async.

(** C18: on the same objects, the asynchronous store with a controller that answers
    later does what the synchronous store with a controller that answers at once
    does.  Every call (initialise, append, get, invalidate, zeroise, collect) is queued;
    its callbacks, at most two per region and two more, end with the answer of the
    synchronous call, a queued write being reported as queued; both memories hold the
    same objects afterwards and the asynchronous store is ready for the next call. *)
Theorem async_equals_sync {Fs Fa} SIZE n c
    `{!FlashController Fs, !FlashView Fs, !FlashLaws Fs SIZE}
    `{!FlashController Fa, !FlashView Fa, !AsyncFlashLaws Fa SIZE c}
    o objs (s : TicKV Fs) (a : A.AsyncTicKV Fa) :
  op_ok o -> (forall h, hash_of o = Some h -> hash_ok h = true) -> (object_length o < 0xfff)%nat ->
  (HEADER_LENGTH + CHECK_SUM_LEN <= SIZE)%nat ->
  @rep_in Fs SIZE n _ NoState s objs true -> @rep_in Fa SIZE n _ NoState (A.tickv a) objs true ->
  exists x s' a' objs' kept,
    run_op SIZE o s = Ret (x, s') /\ async_op SIZE o a = Ret (Some (relabel c x), a') /\
    @rep_in Fs SIZE n _ NoState s' objs' kept /\ @rep_in Fa SIZE n _ NoState (A.tickv a') objs' kept.
Proof.
  intros Hop Hh Hlen Hs Hrs Hra. pose proof (call_refines SIZE n o s objs Hop Hh Hlen Hs Hrs) as Hsync.
  pose proof (async_refines SIZE n c o objs a Hop Hh Hlen Hs Hra) as Hasync.
  unfold agrees in Hsync. unfold async_agrees in Hasync.
  destruct (spec_call SIZE n o objs) as [ [x objs'] kept]. destruct Hsync as (s' & Es & Hs'), Hasync as (a' & Ea & Ha').
  by exists x, s', a', objs', kept.
Qed.

(** Flash memory whose operations are reported later. *)
Section flash.
  Context (SIZE : nat).
Definition async_controller : FlashController flash_array := {|
  read_region reg buf f := (Err (ReadNotReady reg), buf, f);
  write addr bs f :=
    match array_write SIZE addr bs f with
    | (Ok _, f) => (Err (WriteNotReady (addr / SIZE)), f)
    | (Err e, f) => (Err e, f)
    end;
  erase_region reg f :=
    if (reg <? length f)%nat then (Err (EraseNotReady reg), <[reg := blank SIZE]> f) else (Err EraseFail, f);
|}.

Lemma async_laws : @AsyncFlashLaws flash_array SIZE Queued async_controller array_view.
Proof.
  refine (@Build_AsyncFlashLaws _ _ _ async_controller array_view _ _ _).
  - intros f reg data buf Hd. by exists f.
  - intros f reg pre old new post Hd Hl Hc Hne.
    destruct (@write_law _ _ _ (array_controller SIZE) array_view (@flash_writes _ _ _ _ (array_laws SIZE))
      f reg pre old new post Hd Hl Hc Hne) as (f' & r & E & Hr & Hf). cbn [write array_controller] in E. cbn in Hr. subst r.
    exists f', (Err (WriteNotReady ((SIZE * reg + length pre) / SIZE))). split_and!; [|by eexists|done].
    cbn [write async_controller]. by rewrite E.
  - intros f reg Hr. eexists. split; [|done]. cbn [erase_region async_controller]. unfold regions, array_view in Hr.
    by rewrite (proj2 (Nat.ltb_lt _ _)).
Defined.
End flash.

Definition demo_async : A.AsyncTicKV flash_array := A.new (replicate 2 (blank 64)) (replicate 64 0) 128.

Lemma async_equals_sync_witness :
  exists a', @async_op flash_array (async_controller 64) array_view 64 (OpAppend 6 [1; 2; 3]) demo_async =
    Ret (Some (Done (Ok Queued)), a').
Proof.
  destruct (@async_equals_sync flash_array flash_array 64 2 Queued (array_controller 64) array_view (array_laws 64)
    (async_controller 64) array_view (async_laws 64) (OpAppend 6 [1; 2; 3]) (replicate 2 []) demo_store demo_async)
    as (x & s' & a' & objs' & kept & Es & Ea & _).
  - split; [done|]. repeat first [apply Forall_nil_2|apply Forall_cons_2]; done.
  - intros h E. by injection E as <-.
  - apply Nat.ltb_lt. reflexivity.
  - apply Nat.leb_le. reflexivity.
  - exact demo_rep.
  - apply new_rep; (done || lia).
  - exists a'. vm_compute in Es. injection Es as <- _. exact Ea.
Defined.
End AsyncTicKVSpec.
