(* ===== verification/DeferredCall.v ===== *)
(** Deferred calls ([kernel/src/deferred_call.rs]) and the kernel work of the
    default scheduler methods ([kernel/src/scheduler.rs]), module [DeferredCall]:
    the three global statics as a record, the operations on them, the setup check,
    and the loop that serves pending calls.  Handlers are a parameter: code of the
    clients, which may schedule further calls. *)

From stdpp Require Import base numbers list relations sorting.
From S2P Require Import Prelude Ticks.
Import Ticks.
Local Open Scope Z_scope.

Module DeferredCall.

(** [DEFCALLS.len()] *)
Definition SLOTS : nat := 32.

Section model.
  (** The clients ([DynDefCallRef]) and the state outside of this component. *)
  Context {C E : Type}.

Record statics := mkStatics {
  CTR : Z;
  BITMASK : Z;
  DEFCALLS : list (option C);
  env : E;
}.
Implicit Type s : statics.

Definition initial (e : E) : statics := mkStatics 0 0 (replicate SLOTS None) e.
Definition set_CTR (v : Z) s : statics := mkStatics v (BITMASK s) (DEFCALLS s) (env s).
Definition set_BITMASK (v : Z) s : statics := mkStatics (CTR s) v (DEFCALLS s) (env s).
Definition set_DEFCALLS (v : list (option C)) s : statics := mkStatics (CTR s) (BITMASK s) v (env s).
Definition set_env (v : E) s : statics := mkStatics (CTR s) (BITMASK s) (DEFCALLS s) v.

(** [DeferredCall::new]: the value is its field [idx]. *)
Definition new s : outcome (Z * statics) :=
  let! idx := add32 (CTR s) 1 in
  Ret (idx, set_CTR idx s).

Definition register (idx : Z) (client : C) s : outcome statics :=
  if Z.of_nat (length (DEFCALLS s)) <=? idx then Ret s
  else
    let! defcalls := set_index (DEFCALLS s) (Z.to_nat idx) (Some client) in
    Ret (set_DEFCALLS defcalls s).

Definition set (idx : Z) s : outcome statics :=
  let! bit := shl32 1 idx in
  Ret (set_BITMASK (Z.lor (BITMASK s) bit) s).

Definition is_pending (idx : Z) s : outcome bool :=
  let! bit := shl32 1 idx in
  Ret (Z.land (BITMASK s) bit =? 1).

(** [u32::trailing_zeros] *)
Fixpoint trailing_zeros_from (i : Z) (fuel : nat) (v : Z) : Z :=
  match fuel with
  | O => i
  | S fuel => if Z.testbit v i then i else trailing_zeros_from (i + 1) fuel v
  end.
Definition trailing_zeros (v : Z) : Z := trailing_zeros_from 0 32 v.

(** [!v] on 32 bits *)
Definition not32 (v : Z) : Z := U32 - 1 - v.

Section serve.
  Context (handle_deferred_call : C -> statics -> outcome statics).

Definition service_next_pending s : outcome (option Z * statics) :=
  let val := BITMASK s in
  if val =? 0 then Ret (None, s)
  else
    let bit := trailing_zeros val in
    let! mask := shl32 1 bit in
    let new_val := Z.land val (not32 mask) in
    let s := set_BITMASK new_val s in
    let! slot := index (DEFCALLS s) (Z.to_nat bit) in
    match slot with
    | None => Ret (None, s)
    | Some dc =>
      let! s := handle_deferred_call dc s in
      Ret (Some bit, s)
    end.

Definition has_tasks s : bool := negb (BITMASK s =? 0).

Definition num_registered_calls s : Z :=
  Z.of_nat (length (filter (fun opt => is_Some opt) (DEFCALLS s))).

Definition verify_setup s : outcome unit :=
  let num_deferred_calls := CTR s in
  if (Z.of_nat (length (DEFCALLS s)) <=? num_deferred_calls)
     || negb (num_registered_calls s =? num_deferred_calls)
  then Panic else Ret tt.

(** The chip: whether an interrupt waits, and the handlers of waiting interrupts. *)
  Context (has_pending_interrupts : E -> bool).
  Context (service_pending_interrupts : statics -> outcome statics).

(** The loop of [Scheduler::execute_kernel_work]. *)
Fixpoint service_loop (fuel : nat) s : outcome statics :=
  if has_tasks s && negb (has_pending_interrupts (env s)) then
    match fuel with
    | O => Diverge
    | S fuel => let! '(_, s) := service_next_pending s in service_loop fuel s
    end
  else Ret s.

Definition execute_kernel_work (fuel : nat) s : outcome statics :=
  let! s := service_pending_interrupts s in
  service_loop fuel s.

Definition do_kernel_work_now s : bool := has_pending_interrupts (env s) || has_tasks s.
Definition continue_process s : bool := negb (has_pending_interrupts (env s) || has_tasks s).

End serve.
End model.
Arguments statics : clear implicits.

(** * Bits of the mask *)

Lemma trailing_zeros_from_spec v fuel : forall i, 0 <= i -> let r := trailing_zeros_from i fuel v in
  i <= r <= i + Z.of_nat fuel /\ (forall j, i <= j < r -> Z.testbit v j = false) /\
  (r < i + Z.of_nat fuel -> Z.testbit v r = true).
Proof.
  induction fuel as [|fuel IH]; intros i Hi; cbn [trailing_zeros_from]; cbv zeta.
  - split; [lia|]. split; intros; lia.
  - destruct (Z.testbit v i) eqn:Hb.
    + split; [lia|]. split; [intros; lia|done].
    + destruct (IH (i + 1)) as (H1 & H2 & H3); [lia|]. split; [lia|]. split; [|intros; apply H3; lia].
      intros j Hj. destruct (decide (j = i)) as [->|]; [done|apply H2; lia].
Qed.

Lemma u32_bits_high v j : u32_range v -> 32 <= j -> Z.testbit v j = false.
Proof. intros Hv Hj. apply (Z.testbit_false v j); [lia|]. unfold u32_range, U32 in Hv.
  rewrite Z.div_small; [done|]. assert (2 ^ 32 <= 2 ^ j) by (apply Z.pow_le_mono_r; lia). lia.
Qed.

(** The bits of a mask, in order. *)
Definition pending (v : Z) : list Z := filter (fun i => Z.testbit v i = true) (map Z.of_nat (seq 0 SLOTS)).

Lemma elem_of_pending v i : i ∈ pending v <-> 0 <= i < 32 /\ Z.testbit v i = true.
Proof.
  unfold pending. rewrite list_elem_of_filter, list_elem_of_fmap. split.
  - intros [Hb (k & -> & Hk%elem_of_seq)]. unfold SLOTS in Hk. split; [lia|done].
  - intros [Hi Hb]. split; [done|]. exists (Z.to_nat i). split; [lia|]. apply elem_of_seq. unfold SLOTS. lia.
Qed.

Lemma mask_zero v : u32_range v -> (forall i, 0 <= i < 32 -> Z.testbit v i = false) -> v = 0.
Proof.
  intros Hv Hb. apply Z.bits_inj'. intros j Hj. rewrite Z.bits_0.
  destruct (decide (j < 32)); [apply Hb; lia|apply u32_bits_high; [done|lia] ].
Qed.

Lemma lowest_bit_spec v : u32_range v -> v <> 0 ->
  0 <= trailing_zeros v < 32 /\ Z.testbit v (trailing_zeros v) = true /\
  (forall j, 0 <= j < trailing_zeros v -> Z.testbit v j = false).
Proof.
  intros Hv Hn. destruct (trailing_zeros_from_spec v 32 0) as (H1 & H2 & H3); [done|].
  fold (trailing_zeros v) in *. destruct (decide (trailing_zeros v = 32)) as [E|E].
  - destruct Hn. apply mask_zero; [done|]. intros i Hi. apply H2. lia.
  - split; [lia|]. split; [apply H3; lia|done].
Qed.

Lemma shl32_bit i : 0 <= i < 32 -> shl32 1 i = Ret (2 ^ i).
Proof.
  intros Hi. unfold shl32. destruct (Z.ltb_spec i 32); [|lia]. rewrite Z.shiftl_1_l.
  unfold wrap32, U32. rewrite Z.mod_small; [done|]. split; [apply Z.pow_nonneg; lia|].
  apply Z.pow_lt_mono_r; lia.
Qed.

Definition clear (i v : Z) : Z := Z.land v (not32 (2 ^ i)).

Lemma clear_ldiff i v : 0 <= i < 32 -> u32_range v -> clear i v = Z.ldiff v (2 ^ i).
Proof.
  intros Hi Hv. unfold clear, not32. change (U32 - 1) with (Z.ones 32).
  rewrite Z.sub_nocarry_ldiff.
  - apply Z.bits_inj'. intros j Hj. rewrite Z.land_spec, !Z.ldiff_spec, Z.testbit_ones_nonneg by lia.
    destruct (Z.ltb_spec j 32); [done|]. by rewrite (u32_bits_high v j) by done.
  - apply Z.bits_inj'. intros j Hj. rewrite Z.ldiff_spec, Z.bits_0, Z.pow2_bits_eqb, Z.testbit_ones_nonneg by lia.
    destruct (Z.eqb_spec i j), (Z.ltb_spec j 32); try done. lia.
Qed.

Lemma clear_bits i v j : 0 <= i < 32 -> u32_range v -> 0 <= j ->
  Z.testbit (clear i v) j = Z.testbit v j && negb (i =? j).
Proof. intros Hi Hv Hj. by rewrite clear_ldiff, Z.ldiff_spec, Z.pow2_bits_eqb by (done || lia). Qed.

Lemma word_of_bits v : 0 <= v -> (forall j, 32 <= j -> Z.testbit v j = false) -> u32_range v.
Proof.
  intros H0 Hb. split; [done|]. destruct (decide (v = 0)) as [->|Hn]; [done|].
  unfold U32. apply Z.log2_lt_pow2; [lia|]. apply Z.nle_gt. intros Hl.
  specialize (Hb (Z.log2 v) Hl). rewrite Z.bit_log2 in Hb by lia. done.
Qed.

Lemma clear_range i v : 0 <= i < 32 -> u32_range v -> u32_range (clear i v).
Proof.
  intros Hi Hv. apply word_of_bits.
  - unfold clear. apply Z.land_nonneg. left. apply Hv.
  - intros j Hj. rewrite clear_bits by (done || lia). by rewrite (u32_bits_high v j).
Qed.

Lemma lor_range v i : 0 <= i < 32 -> u32_range v -> u32_range (Z.lor v (2 ^ i)).
Proof.
  intros Hi Hv. apply word_of_bits.
  - apply Z.lor_nonneg. split; [apply Hv|]. apply Z.pow_nonneg. lia.
  - intros j Hj. rewrite Z.lor_spec, (u32_bits_high v j), Z.pow2_bits_eqb by (done || lia).
    destruct (Z.eqb_spec i j); [lia|done].
Qed.

Lemma pending_sorted v : StronglySorted Z.lt (pending v).
Proof.
  unfold pending. generalize SLOTS 0%nat. intros n. induction n as [|n IH]; intros k; [constructor|].
  cbn [seq map]. rewrite filter_cons. case_decide; [|apply IH]. constructor; [apply IH|].
  apply Forall_forall. intros x [_ (m & -> & Hm%elem_of_seq)%list_elem_of_fmap]%list_elem_of_filter. lia.
Qed.

Lemma filter_agree {A} (P Q : A -> Prop) `{!forall x, Decision (P x), !forall x, Decision (Q x)} (l : list A) :
  (forall x, x ∈ l -> P x <-> Q x) -> filter P l = filter Q l.
Proof.
  induction l as [|x l IH]; intros Hl; [done|]. rewrite !filter_cons, IH by (intros y Hy; apply Hl; by right).
  pose proof (Hl x (list_elem_of_here _ _)). repeat case_decide; naive_solver.
Qed.

Lemma filter_all {A} (P : A -> Prop) `{!forall x, Decision (P x)} (l : list A) :
  (forall x, x ∈ l -> P x) -> filter P l = l.
Proof.
  induction l as [|x l IH]; intros Hl; [done|]. rewrite filter_cons, decide_True by (apply Hl; by left).
  f_equal. apply IH. intros y Hy. apply Hl. by right.
Qed.

(** Serving the first of the pending calls leaves the others. *)
Lemma pending_clear v i l : u32_range v -> pending v = i :: l ->
  trailing_zeros v = i /\ pending (clear i v) = l.
Proof.
  intros Hv Hp. assert (Hi : i ∈ pending v) by (rewrite Hp; by left).
  apply elem_of_pending in Hi as [Hi Hb].
  assert (Hn : v <> 0) by (intros ->; rewrite Z.bits_0 in Hb; done).
  destruct (lowest_bit_spec v Hv Hn) as (H1 & H2 & H3).
  pose proof (pending_sorted v) as Hs. rewrite Hp in Hs. apply StronglySorted_inv in Hs as [_ Hlt].
  rewrite Forall_forall in Hlt. split.
  - assert (Htz : trailing_zeros v ∈ pending v) by (by apply elem_of_pending).
    rewrite Hp in Htz. apply elem_of_cons in Htz as [->|Htz]; [done|].
    apply Hlt in Htz. rewrite H3 in Hb by lia. done.
  - assert (Hf : pending (clear i v) = filter (fun j => j <> i) (pending v)).
    { unfold pending. rewrite list_filter_filter. apply filter_agree. intros j Hj.
      apply list_elem_of_fmap in Hj as (k & -> & Hk%elem_of_seq). unfold SLOTS in Hk.
      rewrite clear_bits by (done || lia). rewrite andb_true_iff, negb_true_iff, Z.eqb_neq. naive_solver. }
    rewrite Hf, Hp, filter_cons, decide_False by naive_solver.
    apply filter_all. intros j Hj%Hlt. lia.
Qed.

Lemma pending_nil v : u32_range v -> pending v = [] <-> v = 0.
Proof.
  intros Hv. split; [|by intros ->]. intros Hp. apply mask_zero; [done|]. intros i Hi.
  apply not_true_is_false. intros Hb. assert (i ∈ pending v) as H by (by apply elem_of_pending).
  rewrite Hp in H. by apply elem_of_nil in H.
Qed.

(** * Clients *)

Section spec.
  Context {C E : Type}.
  Implicit Type s : statics C E.

(** What the owner of a created call, or code elsewhere, may do. *)
Inductive work_step s : statics C E -> Prop :=
  | work_register i c s' : 1 <= i <= CTR s -> register i c s = Ret s' -> work_step s s'
  | work_set i s' : 1 <= i <= CTR s -> set i s = Ret s' -> work_step s s'
  | work_env e : work_step s (set_env e s).

(** While the board is set up, calls are created too. *)
Inductive setup_step s : statics C E -> Prop :=
  | setup_work s' : work_step s s' -> setup_step s s'
  | setup_new i s' : new s = Ret (i, s') -> setup_step s s'.

Record inv s : Prop := mkInv {
  inv_ctr : 0 <= CTR s < U32;
  inv_mask : u32_range (BITMASK s);
  inv_slots : length (DEFCALLS s) = SLOTS;
  inv_registered i c : DEFCALLS s !! i = Some (Some c) -> 1 <= Z.of_nat i <= CTR s;
  inv_pending i : Z.testbit (BITMASK s) i = true -> 1 <= i <= CTR s;
}.

Lemma statics_inv_initial e : inv (initial e).
Proof.
  split; cbn -[SLOTS replicate]; try done; unfold U32, u32_range; try lia.
  - intros i c [Hi _]%lookup_replicate. discriminate Hi.
  - intros i. by rewrite Z.bits_0.
Qed.

Lemma set_inversion i s s' : 1 <= i -> set i s = Ret s' ->
  i < 32 /\ s' = set_BITMASK (Z.lor (BITMASK s) (2 ^ i)) s.
Proof.
  intros Hi. unfold set. destruct (decide (i < 32)).
  - rewrite shl32_bit by lia. cbn [obind]. by intros [= <-].
  - unfold shl32. destruct (Z.ltb_spec i 32); [lia|done].
Qed.

Lemma register_inversion i c s s' : 1 <= i -> length (DEFCALLS s) = SLOTS -> register i c s = Ret s' ->
  s' = set_DEFCALLS (<[Z.to_nat i := Some c]> (DEFCALLS s)) s.
Proof.
  intros Hi Hl. unfold register. rewrite Hl. change (Z.of_nat SLOTS) with 32.
  destruct (Z.leb_spec 32 i).
  - intros [= <-]. rewrite list_insert_ge by (rewrite Hl; unfold SLOTS; lia). by destruct s.
  - unfold set_index. rewrite Hl. destruct (decide (Z.to_nat i < SLOTS)%nat) as [?|?].
    + destruct (Nat.ltb_spec (Z.to_nat i) SLOTS); [|lia].
      cbn [obind]. by intros [= <-].
    + unfold SLOTS in *. lia.
Qed.

Lemma inv_work s s' : inv s -> work_step s s' -> inv s' /\ CTR s' = CTR s.
Proof.
  intros [H1 H2 H3 H4 H5] [i c s1 Hi Hr|i s1 Hi Hs|e].
  - apply register_inversion in Hr as ->; [|lia|done]. split; [|done]. split; cbn; try done.
    + by rewrite length_insert.
    + intros j c' [ (<- & _ & _)|[_ Hj]]%list_lookup_insert_Some; [lia|by apply (H4 j c')].
  - apply set_inversion in Hs as [Hlt ->]; [|lia]. split; [|done]. split; cbn; try done.
    + apply lor_range; [lia|done].
    + intros j. destruct (decide (j < 0)); [by rewrite Z.testbit_neg_r|].
      rewrite Z.lor_spec, Z.pow2_bits_eqb by lia. intros [Hj|Hj]%orb_true_iff; [by apply H5|lia].
  - done.
Qed.

Lemma inv_setup s s' : inv s -> setup_step s s' -> inv s'.
Proof.
  intros Hinv [s1 Hw|i s1 Hn]; [by destruct (inv_work s s1)|].
  unfold new in Hn. destruct Hinv as [H1 H2 H3 H4 H5].
  inv_ret. split; cbn; try done.
  - intros j c Hj%H4. lia.
  - intros j Hj%H5. lia.
Qed.

(** * The setup check *)

(** Every created call has a slot and a client. *)
Definition complete s : Prop :=
  CTR s < 32 /\ forall i, 1 <= i <= CTR s -> exists c, DEFCALLS s !! Z.to_nat i = Some (Some c).

Lemma count_positions {A} (l : list (option A)) : forall k,
  length (filter is_Some l) =
  length (filter (fun i => is_Some (mjoin (l !! (i - k)%nat))) (seq k (length l))).
Proof.
  induction l as [|x l IH]; intros k; [done|]. cbn [length seq]. rewrite !filter_cons.
  assert (Hfil : filter (fun i => is_Some (mjoin ((x :: l) !! (i - k)%nat))) (seq (S k) (length l))
            = filter (fun i => is_Some (mjoin (l !! (i - S k)%nat))) (seq (S k) (length l))).
  { apply filter_agree. intros i Hi%elem_of_seq. by replace (i - k)%nat with (S (i - S k)) by lia. }
  rewrite Hfil. specialize (IH (S k)).
  destruct (decide (is_Some x)) as [Hx|Hx]; case_decide as Hy; rewrite Nat.sub_diag in Hy; cbn in Hy |- *;
    [by f_equal|done..].
Qed.

(** As many registered as created calls means that each created call is registered,
    since the slots of other indices are empty. *)
Lemma verify_setup_complete s : inv s -> verify_setup s = Ret tt <-> complete s.
Proof.
  intros [H1 H2 H3 H4 H5]. unfold verify_setup, complete. rewrite H3. change (Z.of_nat SLOTS) with 32.
  set (regs := filter (fun i => is_Some (mjoin (DEFCALLS s !! (i - 0)%nat))) (seq 0 (length (DEFCALLS s)))).
  assert (Hnum : num_registered_calls s = Z.of_nat (length regs)).
  { unfold num_registered_calls. f_equal. apply count_positions. }
  assert (Hregs : forall i, i ∈ regs <-> exists c, DEFCALLS s !! i = Some (Some c)).
  { intros i. unfold regs. rewrite list_elem_of_filter, elem_of_seq, Nat.sub_0_r. split.
    - intros [ [c Hc] _]. exists c. by destruct (DEFCALLS s !! i) as [ [c'|]|]; simplify_eq/=.
    - intros [c Hc]. rewrite Hc. split; [by exists c|]. apply lookup_lt_Some in Hc. lia. }
  assert (Hnd : NoDup regs) by (apply NoDup_filter, NoDup_seq).
  assert (Hsub : regs ⊆+ seq 1 (Z.to_nat (CTR s))).
  { apply NoDup_submseteq; [done|]. intros i [c Hc%H4]%Hregs. apply elem_of_seq. lia. }
  assert (Hall : (32 > CTR s /\ num_registered_calls s = CTR s) <->
    (CTR s < 32 /\ forall i, 1 <= i <= CTR s -> exists c, DEFCALLS s !! Z.to_nat i = Some (Some c))).
  { rewrite Hnum. split; intros [Hc Hr]; (split; [lia|]).
    - assert (Hp : regs ≡ₚ seq 1 (Z.to_nat (CTR s)))
        by (apply submseteq_length_Permutation; [done|rewrite length_seq; lia]).
      intros i Hi. apply Hregs. rewrite Hp. apply elem_of_seq. lia.
    - apply submseteq_length in Hsub as Hle. rewrite length_seq in Hle.
      assert (Hsub2 : seq 1 (Z.to_nat (CTR s)) ⊆+ regs).
      { apply NoDup_submseteq; [apply NoDup_seq|]. intros i Hi%elem_of_seq. apply Hregs.
        destruct (Hr (Z.of_nat i)) as [c Hc']; [lia|]. rewrite Nat2Z.id in Hc'. by exists c. }
      apply submseteq_length in Hsub2. rewrite length_seq in Hsub2. lia. }
  rewrite <- Hall. destruct (Z.leb_spec 32 (CTR s)), (Z.eqb_spec (num_registered_calls s) (CTR s));
    cbn; split; try done; lia.
Qed.

Lemma complete_work s s' : inv s -> complete s -> work_step s s' -> complete s'.
Proof.
  intros Hinv [Hc Hr] Hw. destruct (inv_work s s' Hinv Hw) as [_ Ectr]. unfold complete. rewrite Ectr.
  split; [done|]. intros i Hi. destruct (Hr i Hi) as [c Hcl].
  destruct Hw as [j c' s1 Hj Hreg|j s1 Hj Hset|e].
  - apply register_inversion in Hreg as ->; [|lia|apply Hinv]. cbn.
    destruct (decide (Z.to_nat j = Z.to_nat i)) as [->|Hne].
    + exists c'. apply list_lookup_insert_eq. by apply lookup_lt_Some in Hcl.
    + exists c. by rewrite list_lookup_insert_ne.
  - apply set_inversion in Hset as [_ ->]; [|lia]. by exists c.
  - by exists c.
Qed.

(** Using a call of a complete setup never panics. *)
Lemma set_returns i s : complete s -> 1 <= i <= CTR s ->
  set i s = Ret (set_BITMASK (Z.lor (BITMASK s) (2 ^ i)) s).
Proof. intros [Hc _] Hi. unfold set. by rewrite shl32_bit by lia. Qed.

(** * Serving *)

Section serve.
  Context (handle : C -> statics C E -> outcome (statics C E)).

(** The first of the pending calls is served, after its bit is cleared. *)
Lemma service_first s i l : inv s -> complete s -> pending (BITMASK s) = i :: l ->
  exists c, DEFCALLS s !! Z.to_nat i = Some (Some c) /\
    pending (clear i (BITMASK s)) = l /\
    service_next_pending handle s =
      (let! s := handle c (set_BITMASK (clear i (BITMASK s)) s) in Ret (Some i, s)).
Proof using.
  intros Hinv [Hc Hr] Hp. destruct (pending_clear _ _ _ (inv_mask s Hinv) Hp) as [Htz Hl].
  assert (Hi : i ∈ pending (BITMASK s)) by (rewrite Hp; by left). apply elem_of_pending in Hi as [Hi Hb].
  destruct (Hr i) as [c Hcl]; [by apply inv_pending|]. exists c. split; [done|]. split; [done|].
  unfold service_next_pending. destruct (Z.eqb_spec (BITMASK s) 0) as [E0|_].
  - rewrite E0 in Hp. discriminate Hp.
  - rewrite Htz, shl32_bit by done. cbn [obind]. fold (clear i (BITMASK s)). cbn [DEFCALLS set_BITMASK].
    unfold index. by rewrite Hcl.
Qed.

Lemma inv_cleared i s : 0 <= i < 32 -> inv s -> inv (set_BITMASK (clear i (BITMASK s)) s).
Proof using.
  intros Hi [H1 H2 H3 H4 H5]. split; cbn; try done; [by apply clear_range|].
  intros j Hj. apply H5. destruct (decide (j < 0)); [by rewrite Z.testbit_neg_r in Hj|].
  rewrite clear_bits in Hj by (done || lia). by apply andb_true_iff in Hj as [? _].
Qed.

(** What happens once the board runs: calls are used and served. *)
Inductive run_step s : statics C E -> Prop :=
  | run_work s' : work_step s s' -> run_step s s'
  | run_serve o s' : service_next_pending handle s = Ret (o, s') -> run_step s s'.

(** Handlers use calls through their owners. *)
Definition handlers_ok : Prop := forall c s s', handle c s = Ret s' -> rtc work_step s s'.

Definition ready s : Prop := inv s /\ complete s.

Lemma ready_works s s' : ready s -> rtc work_step s s' -> ready s'.
Proof using.
  intros Hs Hw. induction Hw as [|s s1 s2 H1 _ IH]; [done|]. apply IH. destruct Hs as [Hi Hc].
  split; [by eapply inv_work|by eapply complete_work].
Qed.

Lemma ready_step s s' : handlers_ok -> ready s -> run_step s s' -> ready s'.
Proof using.
  intros Hok Hs [s1 Hw|o s1 Hserve]; [by apply (ready_works s); [|apply rtc_once]|].
  pose proof Hs as [Hi Hc]. destruct (pending (BITMASK s)) as [|i l] eqn:Hp.
  - apply pending_nil in Hp; [|apply Hi]. unfold service_next_pending in Hserve.
    rewrite Hp in Hserve. by injection Hserve as _ <-.
  - destruct (service_first s i l Hi Hc Hp) as (c & _ & _ & E1). rewrite E1 in Hserve. inv_ret.
    apply Hok in Hret. apply (ready_works (set_BITMASK (clear i (BITMASK s)) s)); [|done].
    split; [|done]. apply inv_cleared; [|done].
    assert (Hin : i ∈ pending (BITMASK s)) by (rewrite Hp; by left). by apply elem_of_pending in Hin as [? _].
Qed.

Lemma setup_inv e s : rtc setup_step (initial e) s -> inv s.
Proof using.
  intros Hs. pose proof (statics_inv_initial e) as Hi.
  induction Hs as [|s s1 s2 H1 _ IH]; [done|]. by apply IH, (inv_setup s).
Qed.

Lemma run_ready s0 s : handlers_ok -> ready s0 -> rtc run_step s0 s -> ready s.
Proof using.
  intros Hok H0 Hs. induction Hs as [|s s1 s2 H1 _ IH]; [done|]. by apply IH, (ready_step s).
Qed.

End serve.
End spec.

(** C35: deferred calls are delivered.  On a board whose setup passed
    [verify_setup], whatever created calls are used and served afterwards,
    scheduling a created call never panics, and [service_next_pending] reports no
    work exactly when no call is pending; otherwise it serves the pending call of the
    smallest index: it removes this call and no other from the pending ones, then
    runs the handler of the client that the call is registered with (so a handler
    can schedule its own call again). *)
Theorem deferred_calls_delivered {C E} (handle : C -> statics C E -> outcome (statics C E)) e s0 s :
  handlers_ok handle -> rtc setup_step (initial e) s0 -> verify_setup s0 = Ret tt ->
  rtc (run_step handle) s0 s ->
  (forall i, 1 <= i <= CTR s -> set i s = Ret (set_BITMASK (Z.lor (BITMASK s) (2 ^ i)) s)) /\
  match pending (BITMASK s) with
  | [] => has_tasks s = false /\ service_next_pending handle s = Ret (None, s)
  | i :: l => has_tasks s = true /\ Forall (fun j => i < j) l /\
    exists c, DEFCALLS s !! Z.to_nat i = Some (Some c) /\
      pending (clear i (BITMASK s)) = l /\
      service_next_pending handle s =
        (let! s := handle c (set_BITMASK (clear i (BITMASK s)) s) in Ret (Some i, s))
  end.
Proof.
  intros Hok Hsetup Hv Hrun. pose proof (setup_inv e s0 Hsetup) as H0.
  apply verify_setup_complete in Hv; [|done].
  destruct (run_ready handle s0 s Hok (conj H0 Hv) Hrun) as [Hi Hc].
  split; [intros i; by apply set_returns|].
  destruct (pending (BITMASK s)) as [|i l] eqn:Hp.
  - apply pending_nil in Hp; [|apply Hi]. unfold has_tasks, service_next_pending. by rewrite Hp.
  - destruct (service_first handle s i l Hi Hc Hp) as (c & Hcl & Hl & E1). split.
    { unfold has_tasks. destruct (Z.eqb_spec (BITMASK s) 0) as [E0|]; [|done]. by rewrite E0 in Hp. }
    pose proof (pending_sorted (BITMASK s)) as Hs. rewrite Hp in Hs.
    apply StronglySorted_inv in Hs as [_ Hlt]. split; [done|]. by exists c.
Qed.

(** * The loop *)

Section quiet.
  Context {C E : Type} (f : C -> E -> E) (interrupts : E -> bool).
  Implicit Type s : statics C E.

(** Handlers that schedule nothing. *)
Definition quiet (c : C) s : outcome (statics C E) := Ret (set_env (f c (env s)) s).

Definition serve_slot (defcalls : list (option C)) (e : E) (i : Z) : E :=
  match defcalls !! Z.to_nat i with Some (Some c) => f c e | _ => e end.

Lemma idle_same s : BITMASK s = 0 -> set_BITMASK 0 (set_env (env s) s) = s.
Proof using. destruct s as [ctr mask calls e]. cbn. by intros ->. Qed.

Lemma no_tasks s : BITMASK s = 0 -> has_tasks s = false.
Proof using. intros Hm. unfold has_tasks. by rewrite Hm. Qed.

Lemma service_loop_quiet fuel : forall s, ready s -> (length (pending (BITMASK s)) <= fuel)%nat ->
  (forall e, interrupts e = false) ->
  service_loop quiet interrupts fuel s =
    Ret (set_BITMASK 0 (set_env (foldl (serve_slot (DEFCALLS s)) (env s) (pending (BITMASK s))) s)).
Proof using.
  induction fuel as [|fuel IH]; intros s [Hi Hc] Hf Hint; cbn [service_loop]; rewrite Hint, andb_true_r.
  - destruct (pending (BITMASK s)) as [|i l] eqn:Hp; cbn in Hf; [|lia].
    apply pending_nil in Hp; [|apply Hi]. cbn [foldl]. by rewrite (idle_same s Hp), (no_tasks s Hp).
  - destruct (pending (BITMASK s)) as [|i l] eqn:Hp.
    + apply pending_nil in Hp; [|apply Hi]. cbn [foldl]. by rewrite (idle_same s Hp), (no_tasks s Hp).
    + destruct (service_first quiet s i l Hi Hc Hp) as (c & Hcl & Hl & ->).
      assert (Hin : i ∈ pending (BITMASK s)) by (rewrite Hp; by left).
      unfold has_tasks. destruct (Z.eqb_spec (BITMASK s) 0) as [E0|]; [by rewrite E0 in Hp|]. cbn [negb].
      unfold quiet at 1. cbn [obind length] in *. rewrite IH; cbn [BITMASK set_BITMASK set_env]; rewrite ?Hl;
        [|split; [|done]|lia|done].
      * cbn [foldl env set_env set_BITMASK DEFCALLS CTR]. unfold serve_slot at 3. by rewrite Hcl.
      * pose proof (inv_cleared i s) as [H1 H2 H3 H4 H5]; [|done|by split].
        by apply elem_of_pending in Hin as [? _].
Qed.

End quiet.

(** C36: the kernel work of the default scheduler terminates and serves everything.
    When interrupt handlers have used calls (and left no interrupt pending) and the
    handlers of deferred calls schedule nothing further,
    [execute_kernel_work] returns once its loop may run as often as calls are
    pending: no call is pending any more, the handlers of exactly the pending calls
    ran, each once and in the order of their indices, and then neither
    [do_kernel_work_now] nor an interruption of processes is asked for. *)
Theorem kernel_work_serves_all {C E} (f : C -> E -> E) (interrupts : E -> bool)
    (service_interrupts : statics C E -> outcome (statics C E)) s s1 fuel :
  ready s -> service_interrupts s = Ret s1 -> rtc work_step s s1 -> (forall e, interrupts e = false) ->
  (length (pending (BITMASK s1)) <= fuel)%nat ->
  exists s', execute_kernel_work (quiet f) interrupts service_interrupts fuel s = Ret s' /\
    env s' = foldl (serve_slot f (DEFCALLS s1)) (env s1) (pending (BITMASK s1)) /\
    Forall (fun i => exists c, DEFCALLS s1 !! Z.to_nat i = Some (Some c)) (pending (BITMASK s1)) /\
    pending (BITMASK s') = [] /\ DEFCALLS s' = DEFCALLS s1 /\ CTR s' = CTR s1 /\
    do_kernel_work_now interrupts s' = false /\ continue_process interrupts s' = true.
Proof.
  intros Hs Hint Hw Hno Hf. pose proof (ready_works s s1 Hs Hw) as Hr1. pose proof Hr1 as [Hi1 [_ Hc1] ].
  unfold execute_kernel_work. rewrite Hint. cbn [obind].
  rewrite service_loop_quiet by done. eexists. split; [reflexivity|].
  split; [reflexivity|]. split.
  { apply Forall_forall. intros i [_ Hb]%elem_of_pending. by apply Hc1, inv_pending. }
  split; [reflexivity|]. split; [reflexivity|]. split; [reflexivity|].
  unfold do_kernel_work_now, continue_process. by rewrite Hno.
Qed.

(** * Remarks on the documentation *)

(** [is_pending] compares the selected bit with 1, so it denies that any created
    call is pending. *)
Lemma is_pending_denies {C E} i (s : statics C E) : 1 <= i < 32 -> is_pending i s = Ret false.
Proof.
  intros Hi. unfold is_pending. rewrite shl32_bit by lia. cbn [obind]. f_equal. apply Z.eqb_neq. intros H1.
  assert (Hb : Z.testbit (Z.land (BITMASK s) (2 ^ i)) 0 = true) by (by rewrite H1).
  rewrite Z.land_spec, Z.pow2_bits_eqb in Hb by lia. apply andb_true_iff in Hb as [_ Hb]. lia.
Qed.

(** The check refuses a board with 32 calls: index 0 is never handed out. *)
Lemma thirty_two_refused {C E} (s : statics C E) : inv s -> CTR s = 32 -> verify_setup s = Panic.
Proof.
  intros [_ _ Hl _ _] Hc. unfold verify_setup. by rewrite Hl, Hc.
Qed.

(** * Witnesses *)

(** Two calls; the handler of the second one schedules the first one. *)
Definition demo_handle (c : Z) (s : statics Z (list Z)) : outcome (statics Z (list Z)) :=
  let s := set_env (c :: env s) s in
  if (c =? 20) && (1 <=? CTR s) && (CTR s <? 32) then set 1 s else Ret s.
Definition demo_setup : outcome (statics Z (list Z)) :=
  let! '(a, s) := new (initial []) in
  let! s := register a 10 s in
  let! '(b, s) := new s in
  let! s := set b s in
  register b 20 s.
Definition demo_board : statics Z (list Z) :=
  mkStatics 2 4 (None :: Some 10 :: Some 20 :: replicate 29 None) [].
(** The board after the second call was served. *)
Definition demo_served : statics Z (list Z) :=
  mkStatics 2 2 (None :: Some 10 :: Some 20 :: replicate 29 None) [20].

Lemma demo_handlers_ok : handlers_ok demo_handle.
Proof.
  intros c s s' Hrun. unfold demo_handle in Hrun.
  apply rtc_l with (set_env (c :: env s) s); [constructor|].
  destruct (_ && _ && _) eqn:Hc in Hrun; [|injection Hrun as <-; apply rtc_refl].
  apply rtc_once, (work_set _ 1); [cbn in Hc |- *; lia|done].
Qed.

Lemma demo_reached : rtc setup_step (initial []) demo_board.
Proof.
  apply rtc_l with (set_CTR 1 (initial [])); [by apply (setup_new _ 1)|].
  eapply rtc_l; [apply setup_work; by apply (work_register _ 1 10)|].
  eapply rtc_l; [by apply (setup_new _ 2)|].
  eapply rtc_l; [apply setup_work; by apply (work_set _ 2)|].
  apply rtc_once, setup_work. by apply (work_register _ 2 20).
Qed.

Lemma deferred_calls_delivered_witness :
  demo_setup = Ret demo_board /\ pending (BITMASK demo_served) = [1] /\
  service_next_pending demo_handle demo_served =
    Ret (Some 1, set_env [10; 20] (set_BITMASK 0 demo_served)).
Proof.
  split; [reflexivity|].
  destruct (deferred_calls_delivered demo_handle [] demo_board demo_served demo_handlers_ok demo_reached)
    as [_ Hserve]; [reflexivity|apply rtc_once; by apply (run_serve _ _ (Some 2))|].
  change (pending (BITMASK demo_served)) with [1] in Hserve.
  destruct Hserve as (_ & _ & c & Hc & _ & ->). injection Hc as <-. split; reflexivity.
Defined.

Lemma kernel_work_serves_all_witness :
  exists s', execute_kernel_work (quiet (fun c e => c :: e)) (fun _ => false) (set 1) 2 demo_board = Ret s' /\
    env s' = [20; 10] /\ pending (BITMASK s') = [].
Proof.
  assert (Hr : ready demo_board).
  { split; [apply (setup_inv []), demo_reached|].
    apply verify_setup_complete; [apply (setup_inv []), demo_reached|reflexivity]. }
  destruct (kernel_work_serves_all (fun c e => c :: e) (fun _ => false) (set 1) demo_board
    (set_BITMASK 6 demo_board) 2 Hr) as (s' & Hs' & Henv & _ & Hp & Hd & Hc & _);
    [reflexivity|apply rtc_once; by apply (work_set _ 1)|done|vm_compute; lia|].
  exists s'. split; [exact Hs'|]. split; [exact Henv|exact Hp].
Defined.

End DeferredCall.
