(* ===== verification/ProcessTable.v ===== *)
(** The array of all processes ([kernel/src/kernel.rs]), module [ProcessTable]: how
    the kernel finds a process and how a driver enters its grant in one
    ([Grant::enter] of [kernel/src/grant.rs]). *)

From stdpp Require Import base numbers list gmap.
From S2P Require Import Prelude Mpu Syscall Process Grant.
Import Mpu Syscall Proc Grant.
Local Open Scope Z_scope.

Module ProcessTable.

Section table.
  Context {D hw config stored : Type} {mpu : MPU hw config}.
  Notation proc := (process stored config).

(** The processes, each with its memory, which holds its grants (the memory of
    processes is disjoint), the kernel, and the device of the driver at hand. *)
Record system := mkSystem {
  processes : list (option (proc * memory));
  kernel : Kernel;
  device : D;
}.
Implicit Type s : system.
Definition set_processes v s : system := mkSystem v (kernel s) (device s).
Definition set_kernel v s : system := mkSystem (processes s) v (device s).
Definition set_device v s : system := mkSystem (processes s) (kernel s) v.
Definition put (i : nat) (pm : proc * memory) s : system :=
  set_processes (<[i := Some pm]> (processes s)) s.

(** [Kernel::get_process]; two [ProcessId] are equal when their identifiers are. *)
Definition get_process (pid : ProcessId) s : option (proc * memory) :=
  match processes s !! Z.to_nat (pindex pid) with
  | Some (Some (p, m)) => if identifier (process_id p) =? identifier pid then Some (p, m) else None
  | _ => None
  end.

(** [ProcessId::index] *)
Definition processid_is_valid (pid : ProcessId) s : bool :=
  match processes s !! Z.to_nat (pindex pid) with
  | Some (Some (p, _)) => identifier (process_id p) =? identifier pid
  | _ => false
  end.
Definition processid_index (pid : ProcessId) s : option Z :=
  if processid_is_valid pid s then Some (pindex pid) else None.

(** [Kernel::process_until] *)
Fixpoint until_loop {R} (closure : proc -> option R) (l : list (option (proc * memory))) : option R :=
  match l with
  | [] => None
  | Some (p, _) :: l => match closure p with Some r => Some r | None => until_loop closure l end
  | None :: l => until_loop closure l
  end.
Definition process_until {R} (closure : proc -> option R) s : option R := until_loop closure (processes s).

(** A closure on the data of an entered grant. *)
Definition closure (R : Type) : Type :=
  list Z -> list SavedUpcall -> list SavedAllow -> list SavedAllow -> proc -> outcome (R * list Z * proc).

(** [Grant::enter] *)
Definition app_enter {R} (g : GrantType) (pid : ProcessId) (fun_ : closure R) s
    : outcome (result R Error * system) :=
  match get_process pid s with
  | None => Ret (Err NoSuchApp, s)
  | Some (p, m) =>
    let! '(r, p, k, m) := grant_enter g fun_ p (kernel s) m in
    Ret (r, put (Z.to_nat (pindex pid)) (p, m) (set_kernel k s))
  end.

End table.
Arguments system : clear implicits.

End ProcessTable.
