(* ===== verification/MainLoop.v ===== *)
(** The main loop of the kernel ([kernel/src/kernel.rs]: [kernel_loop_operation] and
    [kernel_loop]), module [MainLoop]: kernel work (interrupts and deferred calls), the
    choice of the scheduler, the process loop for the chosen process, and sleep, over the
    array of all processes.  The chip, the watchdog, the scheduler and the handlers of
    deferred calls are a record [Platform]; schedulers use the default methods of
    [Scheduler] for kernel work ([DeferredCall]). *)

From stdpp Require Import base numbers list gmap.
From S2P Require Import Prelude Mpu Syscall Process Grant ProcessTable Kernel Scheduler DeferredCall.
Import Mpu Syscall Proc Grant ProcessTable Kern Sched.
Local Open Scope Z_scope.

Module MainLoop.

Section main.
  (** [C]: the clients of deferred calls; [D]: the state of drivers, chip, timer,
      watchdog and scheduler. *)
  Context {C D hw config stored : Type} {mpu : MPU hw config} {ukb : UKB stored}.
  Context (CALLBACKS_OFFSET PROCESS_STRUCT_OFFSET : Z).
  Context (fault_action : process stored config -> FaultAction).
  Notation proc := (process stored config).
  Notation statics := (DeferredCall.statics C).
  Notation slots := (list (option (proc * memory))).

(** Everything but the statics of deferred calls. *)
Record whole := mkWhole {
  w_system : system D config stored;
  w_hw : hw;
  (** Ghost: each switch to userspace, the latest first: the process, the MPU registers
      and the other processes. *)
  w_runs : list (proc * hw * slots);
  (** Ghost: the devices and the mask of pending deferred calls at each [sleep]. *)
  w_slept : list (D * Z);
}.
Notation machine := (statics whole).

(** What the process loop hands to the board with a process: the other processes and
    the devices. *)
Notation rest := (slots * D)%type.

Definition map_env {A B} (f : A -> B) (s : statics A) : statics B :=
  DeferredCall.mkStatics (DeferredCall.CTR s) (DeferredCall.BITMASK s) (DeferredCall.DEFCALLS s)
    (f (DeferredCall.env s)).

Definition table (s : machine) : slots := processes (w_system (DeferredCall.env s)).
Definition devices (s : machine) : D := device (w_system (DeferredCall.env s)).
Definition with_system (f : system D config stored -> system D config stored) (w : whole) : whole :=
  mkWhole (f (w_system w)) (w_hw w) (w_runs w) (w_slept w).
Definition on_devices (f : D -> D) (s : machine) : machine :=
  map_env (with_system (fun y => set_device (f (device y)) y)) s.

Record Platform := mkPlatform {
  board : @Board hw config stored (statics rest);
  (** [WatchDog] *)
  watchdog_setup : D -> D;
  watchdog_tickle : D -> D;
  watchdog_suspend : D -> D;
  watchdog_resume : D -> D;
  (** [Chip] *)
  has_pending_interrupts : D -> bool;
  service_pending_interrupts : machine -> outcome machine;
  chip_sleep : D -> D;
  handle_deferred_call : C -> machine -> outcome machine;
  (** [Scheduler] *)
  scheduler_next : list (option proc) -> D -> outcome (SchedulingDecision * D);
  scheduler_result : StoppedExecutingReason -> option Z -> D -> outcome D;
}.
Context (pl : Platform).

(** The process in slot [i] is served with everything else beside it, and put back. *)
Definition focus (i : nat) (p : proc) (m : memory) (s : machine) : @sys hw config stored (statics rest) :=
  let w := DeferredCall.env s in
  mkSys p (w_hw w) (kernel (w_system w)) m
    (map_env (fun w => (<[i := None]> (processes (w_system w)), device (w_system w))) s) [].
Definition unfocus (i : nat) (t : @sys hw config stored (statics rest)) (s : machine) : machine :=
  map_env (fun '(others, d) =>
    mkWhole (mkSystem (<[i := Some (s_proc t, s_mem t)]> others) (s_kern t) d) (s_hw t)
      (map (fun '(p, h) => (p, h, others)) (s_runs t) ++ w_runs (DeferredCall.env s))
      (w_slept (DeferredCall.env s))) (s_env t).

Definition interrupted (w : whole) : bool := has_pending_interrupts pl (device (w_system w)).

(** [scheduler.next()] *)
Definition next (s : machine) : outcome (SchedulingDecision * machine) :=
  let! '(d, e) := scheduler_next pl (map (fmap fst) (table s)) (devices s) in
  Ret (d, on_devices (fun _ => e) s).

(** The arm of [RunProcess]. *)
Definition run_process (fuel : nat) (processid : ProcessId) (timeslice_us : option Z) (s : machine)
    : outcome machine :=
  match get_process processid (w_system (DeferredCall.env s)) with
  | None => Ret s
  | Some (p, m) =>
    let i := Z.to_nat (pindex processid) in
    let! '(reason, time_executed, t) :=
      do_process CALLBACKS_OFFSET PROCESS_STRUCT_OFFSET fault_action (board pl) fuel timeslice_us
        (focus i p m s) in
    let s := unfocus i t s in
    let! e := scheduler_result pl reason time_executed (devices s) in
    Ret (on_devices (fun _ => e) s)
  end.

(** The arm of [TrySleep]. *)
Definition try_sleep (no_sleep : bool) (s : machine) : machine :=
  if no_sleep then s
  else if negb (has_pending_interrupts pl (devices s)) && negb (DeferredCall.has_tasks s) then
    let s := map_env (fun w => mkWhole (w_system w) (w_hw w) (w_runs w)
                        ((devices s, DeferredCall.BITMASK s) :: w_slept w)) s in
    let s := on_devices (watchdog_suspend pl) s in
    let s := on_devices (chip_sleep pl) s in
    on_devices (watchdog_resume pl) s
  else s.

Definition kernel_loop_operation (fuel : nat) (no_sleep : bool) (s : machine) : outcome machine :=
  let s := on_devices (watchdog_tickle pl) s in
  if DeferredCall.do_kernel_work_now interrupted s then
    DeferredCall.execute_kernel_work (handle_deferred_call pl) interrupted (service_pending_interrupts pl)
      fuel s
  else
    let! '(decision, s) := next s in
    match decision with
    | RunProcess processid timeslice_us => run_process fuel processid timeslice_us s
    | TrySleep => Ret (try_sleep no_sleep s)
    end.

(** The first [n] rounds of the loop. *)
Fixpoint loop (n fuel : nat) (s : machine) : outcome machine :=
  match n with
  | O => Ret s
  | S n => let! s := kernel_loop_operation fuel false s in loop n fuel s
  end.
Definition kernel_loop (n fuel : nat) (s : machine) : outcome machine :=
  let s := on_devices (watchdog_setup pl) s in
  let! _ := DeferredCall.verify_setup s in
  loop n fuel s.

End main.
Arguments whole : clear implicits.
Arguments Platform : clear implicits.

End MainLoop.
