(* ===== verification/MainLoopSpec.v ===== *)
(** What the main loop promises, module [MainLoopSpec]: over any number of rounds, with
    any scheduler, interrupts and deferred calls that keep to the interfaces, every
    process runs isolated from the kernel and from every other process, and the chip
    only sleeps when there is nothing to do. *)

From stdpp Require Import base numbers list gmap relations.
From S2P Require Import Prelude Mpu CortexMpu Syscall Process ProcessInv ProcessSpec Confine Enforce Grant.
From S2P Require Import ProcessTable Kernel KernelSpec Scheduler DeferredCall MainLoop.
Import Mpu Syscall Proc ProcInv ProcSpec Confine Enforce Grant ProcessTable Kern KernSpec Sched MainLoop.
Local Open Scope Z_scope.

Module MainLoopSpec.

Section spec.
  Context {C D hw config stored : Type} {mpu : MPU hw config} {iso : MpuIsolation hw config}.
  Context {con : MpuConfines hw config} {enf : MpuEnforces hw config} {ukb : UKB stored}.
  Context (CB PS : Z) (fault_action : process stored config -> FaultAction).
  Context (Happ : 0 <= initial_process_app_brk_size) (Hcb : 0 <= CB) (Hps : 0 < PS).
  Context (g : Z).
  Notation proc := (process stored config).
  Notation slots := (list (option (proc * memory))).
  Notation pstep := (pstep (hw := hw) CB PS fault_action g).
  Notation machine := (DeferredCall.statics C (whole D hw config stored)).
  Notation rest := (slots * D)%type.
  Implicit Types (p q : proc) (l : slots) (s : machine).

(** * Processes of the array *)

(** A process that has just been created. *)
Record born p : Prop := mkBorn {
  born_sane : sane CB PS g p;
  born_start : 0 < memory_start p;
  born_confined : forall a, reaches p a -> own p a;
}.
(** A process, since it was created. *)
Definition lived p : Prop := exists p0, born p0 /\ rtc pstep p0 p.

Definition in_block q (a : Z) : Prop := memory_start q <= a < memory_start q + memory_len q.
Definition at_slot l (i : nat) p : Prop := exists m, l !! i = Some (Some (p, m)).

(** The memory of each process is apart from what belongs to the others. *)
Definition separate l : Prop :=
  forall i j p q a, i <> j -> at_slot l i p -> at_slot l j q -> own p a -> ~ in_block q a.

(** The processes have configurations of their own, in step with the hardware. *)
Definition all_synced l (h : hw) : Prop := forall i p, at_slot l i p -> synced p h.
Definition own_configs l : Prop :=
  forall i j p q c, i <> j -> at_slot l i p -> at_slot l j q -> mpu_config q = Some c -> other p c.

(** An operation that does not write the registers of the MPU. *)
Definition qstep p p' : Prop := pstep p p' /\ follows p p'.

(** Each process of [l] has gone on, and no other has come. *)
Definition slot_moved (r : relation proc) (o o' : option (proc * memory)) : Prop :=
  match o, o' with
  | None, None => True
  | Some (p, _), Some (p', _) => rtc r p p'
  | _, _ => False
  end.
Definition moved (r : relation proc) : relation slots := Forall2 (slot_moved r).

#[local] Instance slot_moved_pre r : PreOrder (slot_moved r).
Proof using.
  split.
  - intros [ [p m]|]; cbn; [apply rtc_refl|done].
  - intros [ [p m]|] [ [p' m']|] [ [p'' m'']|]; cbn; try done. by etrans.
Qed.
#[local] Instance moved_pre r : PreOrder (moved r).
Proof using. unfold moved. apply _. Qed.

Lemma qsteps_psteps p p' : rtc qstep p p' -> rtc pstep p p'.
Proof using. apply rtc_subrel. by intros ? ? [? _]. Qed.
Lemma qsteps_follow p p' : rtc qstep p p' -> follows p p'.
Proof using.
  intros H. induction H as [|p1 p2 p3 [_ H12] _ IH]; [apply follows_refl|by eapply follows_trans].
Qed.
Lemma moved_quietly l l' : moved qstep l l' -> moved pstep l l'.
Proof using.
  intros H. eapply Forall2_impl; [exact H|]. intros [ [p m]|] [ [p' m']|]; cbn; try done. apply qsteps_psteps.
Qed.

(** The same of everything that is handed to the board with a process: the board does
    not write the registers for another process. *)
Definition others_moved : relation (DeferredCall.statics C rest) :=
  fun e e' => moved qstep (fst (DeferredCall.env e)) (fst (DeferredCall.env e')).
#[local] Instance others_moved_pre : PreOrder others_moved.
Proof using.
  split; unfold others_moved; [intros e; reflexivity|intros e1 e2 e3 H1 H2; by etrans].
Qed.

Lemma moved_slot r l l' i p' : moved r l l' -> at_slot l' i p' ->
  exists p, at_slot l i p /\ rtc r p p'.
Proof using.
  intros Hm [m Hi]. destruct (Forall2_lookup_r _ _ _ _ _ Hm Hi) as (o & Ho & Hs).
  destruct o as [ [p m0]|]; [|done]. exists p. split; [by exists m0|done].
Qed.

Lemma lived_step p q : lived p -> rtc pstep p q -> lived q.
Proof using. intros (p0 & Hb & Hs) Hq. exists p0. split; [done|by etrans]. Qed.

Lemma lived_facts p : lived p -> sane CB PS g p /\ 0 < memory_start p.
Proof using Happ.
  intros (p0 & [Hs H0 _] & Hst). destruct (psteps_sane _ _ _ Happ g p0 p Hs Hst) as (? & E & _). by rewrite E.
Qed.

Lemma lived_confined p : lived p -> exists p0, born p0 /\ rtc pstep p0 p /\
  (forall a, own p a <-> own p0 a) /\
  forall a, reaches p a -> own p a \/ exists u n, was_added (hw := hw) CB PS fault_action g p0 p u n /\ u <= a < u + n.
Proof using con Happ Hcb Hps.
  intros (p0 & Hb & Hst). exists p0. split; [done|]. split; [done|]. pose proof Hb as [Hs H0 Hc].
  destruct (psteps_confined _ _ _ Happ Hcb Hps g p0 p Hs Hst) as [Hown Hre]. split; [done|].
  intros a [?%Hc|[?|?] ]%Hre; [left; by apply Hown..|by right].
Qed.

(** What a process owns does not change. *)
Lemma own_step p q a : lived p -> rtc pstep p q -> (own q a <-> own p a) /\ (in_block q a <-> in_block p a).
Proof using con Happ Hcb Hps.
  intros Hl Hst. destruct (lived_facts p Hl) as [Hs _].
  destruct (psteps_confined _ _ _ Happ Hcb Hps g p q Hs Hst) as [Hown _]. split; [apply Hown|].
  destruct (psteps_sane _ _ _ Happ g p q Hs Hst) as (_ & E1 & E2). unfold in_block. by rewrite E1, E2.
Qed.

(** * The invariant *)

(** A switch to userspace: isolated from the kernel's memory, and with registers that
    permit not a byte of the memory of any other process that was not added for it. *)
Definition run_ok (r : proc * hw * slots) : Prop :=
  let '(p, h, others) := r in
  isolated_run (p, h) /\
  exists p0, born p0 /\ rtc pstep p0 p /\
    forall j q a, at_slot others j q -> in_block q a -> permits h a ->
      exists u n, was_added (hw := hw) CB PS fault_action g p0 p u n /\ u <= a < u + n.

Record healthy (pending : D -> bool) s : Prop := mkHealthy {
  he_lived : forall i p, at_slot (table s) i p -> lived p;
  he_separate : separate (table s);
  he_synced : all_synced (table s) (w_hw (DeferredCall.env s));
  he_configs : own_configs (table s);
  he_grants : grant_counter (kernel (w_system (DeferredCall.env s))) = g;
  he_runs : Forall run_ok (w_runs (DeferredCall.env s));
  he_slept : Forall (fun '(d, mask) => pending d = false /\ mask = 0) (w_slept (DeferredCall.env s));
}.

(** What handlers of interrupts and deferred calls may do: change processes by the
    kernel's operations, and devices in any way; they do not touch the MPU, do not switch
    to userspace, do not put the chip to sleep and declare no grants. *)
Record handled s s' : Prop := mkHandled {
  ha_moved : moved qstep (table s) (table s');
  ha_hw : w_hw (DeferredCall.env s') = w_hw (DeferredCall.env s);
  ha_grants : grant_counter (kernel (w_system (DeferredCall.env s'))) = grant_counter (kernel (w_system (DeferredCall.env s)));
  ha_runs : w_runs (DeferredCall.env s') = w_runs (DeferredCall.env s);
  ha_slept : w_slept (DeferredCall.env s') = w_slept (DeferredCall.env s);
}.

(** What the parts of a platform promise. *)
Record platform_laws (pl : Platform C D hw config stored) : Prop := mkPlatformLaws {
  law_board : board_laws CB PS fault_action others_moved (board pl);
  law_interrupts : forall s s', service_pending_interrupts pl s = Ret s' -> handled s s';
  law_deferred : forall c s s', handle_deferred_call pl c s = Ret s' -> handled s s';
}.

Context (pl : Platform C D hw config stored) (Hpl : platform_laws pl).
Notation fine := (healthy (has_pending_interrupts pl)).

Lemma fine_devices f s : fine s -> fine (on_devices f s).
Proof using. by intros [H1 H2 H3 H4 H5 H6 H7]. Qed.

(** Processes that have gone on. *)
Lemma moved_lived l l' : moved pstep l l' -> (forall i p, at_slot l i p -> lived p) -> separate l ->
  (forall i p, at_slot l' i p -> lived p) /\ separate l'.
Proof using con Happ Hcb Hps.
  intros Hm Hl Hsep. split.
  - intros i p Hi. destruct (moved_slot _ _ _ _ _ Hm Hi) as (p0 & Hp0 & Hst).
    by apply (lived_step p0); [apply (Hl i)|].
  - intros i j p q a Hne Hi Hj Ho Hb.
    destruct (moved_slot _ _ _ _ _ Hm Hi) as (p0 & Hp0 & Hst), (moved_slot _ _ _ _ _ Hm Hj) as (q0 & Hq0 & Hst').
    apply (own_step p0 p a (Hl i p0 Hp0) Hst) in Ho. apply (own_step q0 q a (Hl j q0 Hq0) Hst') in Hb.
    by apply (Hsep i j p0 q0 a).
Qed.

(** Processes that have gone on, with the hardware kept in step. *)
Lemma own_configs_moved l l' :
  (forall i p', at_slot l' i p' -> exists p, at_slot l i p /\
    forall c', mpu_config p' = Some c' -> exists c, mpu_config p = Some c /\ config_id c' = config_id c) ->
  own_configs l -> own_configs l'.
Proof using.
  intros Hm Ho i j p' q' d' Hne (p & Hi & Hp)%Hm (q & Hj & Hq)%Hm (d & Hd & Ed)%Hq c' (c & Hc & Ec)%Hp.
  rewrite Ed, Ec. by apply (Ho i j p q d).
Qed.

Lemma handled_fine s s' : handled s s' -> fine s -> fine s'.
Proof using con Happ Hcb Hps.
  intros [Hm Eh Eg Er Es] [H1 H2 H3 H4 H5 H6 H7]. destruct (moved_lived _ _ (moved_quietly _ _ Hm) H1 H2) as [? ?].
  split; [done|done| | |by rewrite Eg|by rewrite Er|by rewrite Es].
  - rewrite Eh. intros i p Hi. destruct (moved_slot _ _ _ _ _ Hm Hi) as (p0 & Hp0 & Hst).
    apply (follows_synced p0); [by apply qsteps_follow|by apply (H3 i)].
  - eapply own_configs_moved; [|exact H4]. intros i p Hi.
    destruct (moved_slot _ _ _ _ _ Hm Hi) as (p0 & Hp0 & Hst%qsteps_follow). exists p0. split; [done|].
    intros c' (c & Hc & E & _)%Hst. by exists c.
Qed.

Section served.
  Context (s : machine) (i : nat) (p : proc) (m : memory) (t : @sys hw config stored (DeferredCall.statics C rest)).
  Context (Hs : fine s) (Hi : table s !! i = Some (Some (p, m))).
  Context (Hadv : advances CB PS fault_action others_moved (focus i p m s) t).
  Notation others := (fst (DeferredCall.env (s_env t))).

Lemma served_lived : lived p.
Proof using Hs Hi. apply (he_lived _ _ Hs i). by exists m. Qed.

Lemma focus_fit : fit CB PS (focus i p m s).
Proof using Happ Hs Hi.
  destruct (lived_facts p served_lived) as [ [Hwf Hroom] H0].
  split; [|split; [done|] ].
  - split; [done|]. apply (room_count CB PS (mkKernel 0 g true)); [|done]. apply (he_grants _ _ Hs).
  - apply (he_synced _ _ Hs i). by exists m.
Qed.

(** The operations on the process, among those of its life. *)
Lemma served_psteps p' h k : rtc (step CB PS fault_action) (world_of (focus i p m s)) (mkWorld p' h k) ->
  rtc pstep p p' /\ grant_counter k = g.
Proof using Happ Hs Hi.
  intros Hst. apply (steps_psteps CB PS fault_action Happ) in Hst as [Hst Hg]; [|apply focus_fit].
  cbn in Hst, Hg. rewrite (he_grants _ _ Hs) in Hst, Hg. done.
Qed.

Lemma served_moved : moved pstep (table s) (<[i := Some (s_proc t, s_mem t)]> others).
Proof using Happ Hs Hi Hadv.
  destruct Hadv as (Hst & Hm%moved_quietly & _). destruct t as [p' h' k' m' e' rs]. cbn in *.
  apply served_psteps in Hst as [Hst _].
  rewrite <- (list_insert_id (table s) i (Some (p, m))) by done.
  rewrite <- (list_insert_insert_eq (table s) i (Some (p, m)) None). by apply Forall2_insert.
Qed.

(** A process beside the one that is served. *)
Lemma other_slot j o : at_slot others j o ->
  exists o0, j <> i /\ at_slot (table s) j o0 /\ rtc qstep o0 o.
Proof using Hadv.
  destruct Hadv as (_ & Hm & _). intros Ho. destruct (moved_slot _ _ _ _ _ Hm Ho) as (o0 & [m0 Hj] & Hsto).
  cbn in Hj. apply list_lookup_insert_Some in Hj as [(_ & ? & _)|[Hne Hj] ]; [done|].
  exists o0. split; [done|]. split; [by exists m0|done].
Qed.

Lemma served_tracks : tracks p (w_hw (DeferredCall.env s)) (s_proc t) (s_hw t).
Proof using Happ Hs Hi Hadv.
  destruct Hadv as (Hst & _). apply (steps_fit CB PS fault_action Happ) in Hst as (_ & _ & Ht); [done|apply focus_fit].
Qed.

Lemma served_slot j o : at_slot (<[i := Some (s_proc t, s_mem t)]> others) j o ->
  j = i /\ o = s_proc t \/ j <> i /\ exists o0, at_slot (table s) j o0 /\ follows o0 o.
Proof using Hadv Hi.
  intros [m0 Hj]. apply list_lookup_insert_Some in Hj as [(-> & [= -> _] & _)|[Hne Hj] ]; [by left|right].
  split; [done|]. destruct (other_slot j o) as (o0 & _ & Ho0 & Hst); [by exists m0|].
  exists o0. split; [done|by apply qsteps_follow].
Qed.

Lemma served_synced : all_synced (<[i := Some (s_proc t, s_mem t)]> others) (s_hw t) /\
  own_configs (<[i := Some (s_proc t, s_mem t)]> others).
Proof using Happ Hs Hi Hadv.
  destruct served_tracks as (Hid & Hsy & Hoth). assert (Hp : at_slot (table s) i p) by (by exists m). split.
  - intros j o [ [-> ->]|(Hne & o0 & Ho0 & Hf)]%served_slot; [by apply Hsy, (he_synced _ _ Hs i)|].
    apply (follows_synced o0); [done|]. intros c Hc. apply Hoth.
    + destruct (lived_facts o0 (he_lived _ _ Hs j o0 Ho0)) as [ [Hwf _] _]. by apply (wf_valid o0 Hwf).
    + by apply (he_configs _ _ Hs i j p o0 c).
    + by apply (he_synced _ _ Hs j o0).
  - eapply own_configs_moved; [|exact (he_configs _ _ Hs)].
    intros j o [ [-> ->]|(Hne & o0 & Ho0 & Hf)]%served_slot; [by exists p|]. exists o0. split; [done|].
    intros c' (c & Hc & E & _)%Hf. by exists c.
Qed.

Lemma served_runs : Forall run_ok (map (fun '(p, h) => (p, h, others)) (s_runs t)).
Proof using con Happ Hcb Hps Hs Hi Hadv.
  destruct Hadv as (_ & Hm & runs & Hrs & Hall). cbn in Hrs. rewrite app_nil_r in Hrs. rewrite Hrs.
  apply Forall_fmap. eapply Forall_impl; [exact Hall|]. intros [q h] (Hrun & h1 & k1 & Hst). cbn.
  apply served_psteps in Hst as [Hst _]. cbn in Hst.
  pose proof (lived_step _ _ served_lived Hst) as Hq. split; [done|].
  destruct (lived_confined q Hq) as (p0 & Hb & Hst0 & _ & Hre). exists p0. split; [done|]. split; [done|].
  intros j o a Ho Hin Ha. destruct (other_slot j o Ho) as (o0 & Hne & Ho0 & Hsto%qsteps_psteps).
  apply (own_step o0 o a (he_lived _ _ Hs j o0 Ho0) Hsto) in Hin.
  destruct Hrun as (_ & _ & _ & Hperm & _). apply Hperm in Ha as [Ha _].
  2: { destruct (lived_facts o0 (he_lived _ _ Hs j o0 Ho0)) as [ [Hwf _] _].
       pose proof (wf_start _ Hwf). pose proof (wf_end _ Hwf). unfold in_block in Hin. unfold u32_range. lia. }
  destruct (Hre a Ha) as [Hown|?]; [exfalso|done].
  apply (own_step p q a served_lived Hst) in Hown.
  apply (he_separate _ _ Hs i j p o0 a); [done|by exists m|done..].
Qed.

Lemma unfocus_fine : fine (unfocus i t s).
Proof using con Happ Hcb Hps Hs Hi Hadv.
  pose proof served_moved as Hmv. pose proof served_runs as Hrs. destruct served_synced as [Hsy Hcf].
  destruct Hadv as (Hst & _). destruct t as [p' h' k' m' e' rs]. cbn in Hmv, Hrs, Hst, Hsy, Hcf. apply served_psteps in Hst as [_ Hg].
  destruct (moved_lived _ _ Hmv) as [H1 H2]; [apply (he_lived _ _ Hs)|apply (he_separate _ _ Hs)|].
  unfold unfocus, map_env. cbn. destruct (DeferredCall.env e') as [oth d]. cbn in *.
  split; cbn; [done..|apply Forall_app; split; [done|apply Hs]|apply Hs].
Qed.

End served.

(** * The operations *)

Lemma run_process_fine fuel pid ts s s' : fine s ->
  run_process CB PS fault_action pl fuel pid ts s = Ret s' -> fine s'.
Proof using con Happ Hcb Hps Hpl.
  intros Hs. unfold run_process. destruct (get_process pid _) as [ [p m]|] eqn:Hget; [|by intros [= <-]].
  assert (Hi : table s !! Z.to_nat (pindex pid) = Some (Some (p, m))).
  { unfold get_process in Hget. unfold table. destruct (_ !! _) as [ [ [q mq]|]|]; [|done..].
    destruct (_ =? _); by simplify_eq. }
  intros H. apply obind_Ret in H as ([ [reason time] t] & Hdo & H).
  apply obind_Ret in H as (e & _ & H). injection H as <-. apply fine_devices.
  apply (unfocus_fine s _ p m t Hs Hi).
  apply (do_process_advances _ _ _ _ Happ (board pl) (law_board _ Hpl)) in Hdo; [done|].
  by apply focus_fit.
Qed.

Lemma try_sleep_fine no_sleep s : fine s -> fine (try_sleep pl no_sleep s).
Proof using.
  intros Hs. unfold try_sleep. destruct no_sleep; [done|].
  destruct (has_pending_interrupts pl (devices s)) eqn:Hp; [done|]. cbn [negb andb].
  destruct (DeferredCall.has_tasks s) eqn:Ht; [done|]. cbn [negb]. do 3 apply fine_devices.
  destruct Hs as [H1 H2 H3 H4 H5 H6 H7]. split; [done..|]. cbn. constructor; [|done]. split; [done|].
  unfold DeferredCall.has_tasks in Ht. apply negb_false_iff in Ht. by apply Z.eqb_eq.
Qed.

Lemma fine_statics s s' : DeferredCall.env s' = DeferredCall.env s -> fine s -> fine s'.
Proof using.
  intros E [H1 H2 H3 H4 H5 H6 H7]. unfold table in *. split; unfold table; rewrite E; done.
Qed.

Lemma service_loop_fine fuel s s' : fine s ->
  DeferredCall.service_loop (handle_deferred_call pl) (interrupted pl) fuel s = Ret s' -> fine s'.
Proof using Hpl con Hps Hcb Happ.
  revert s. induction fuel as [|fuel IH]; intros s Hs H; cbn in H; destruct (_ && _); [done|by injection H as <-| |by injection H as <-].
  apply obind_Ret in H as ([o s1] & H1 & H). apply (IH s1); [|done].
  unfold DeferredCall.service_next_pending in H1. destruct (_ =? 0); [by injection H1 as <- <-|].
  apply obind_Ret in H1 as (mask & _ & H1). apply obind_Ret in H1 as (slot & _ & H1).
  set (s2 := DeferredCall.set_BITMASK _ s) in H1. assert (Hs2 : fine s2) by (by apply (fine_statics s)).
  destruct slot as [dc|]; [|by injection H1 as <- <-].
  apply obind_Ret in H1 as (s3 & H3 & H1). injection H1 as <- <-. by apply (handled_fine s2); [apply (law_deferred _ Hpl dc)|].
Qed.

Lemma operation_fine fuel no_sleep s s' : fine s ->
  kernel_loop_operation CB PS fault_action pl fuel no_sleep s = Ret s' -> fine s'.
Proof using con Happ Hcb Hps Hpl.
  intros Hs H. unfold kernel_loop_operation in H. pose proof (fine_devices (watchdog_tickle pl) s Hs) as Hs0.
  destruct (DeferredCall.do_kernel_work_now _ _).
  - unfold DeferredCall.execute_kernel_work in H. apply obind_Ret in H as (s1 & H1 & H).
    apply (law_interrupts _ Hpl), handled_fine in H1; [|done]. by apply (service_loop_fine fuel s1).
  - apply obind_Ret in H as ([d s1] & Hn & H).
    assert (Hs1 : fine s1).
    { unfold next in Hn. apply obind_Ret in Hn as ([d0 e] & _ & Hn). injection Hn as <- <-. by apply fine_devices. }
    destruct d as [pid ts|]; [by apply (run_process_fine fuel pid ts s1)|injection H as <-; by apply try_sleep_fine].
Qed.

Lemma loop_fine n fuel s s' : fine s -> loop CB PS fault_action pl n fuel s = Ret s' -> fine s'.
Proof using con Happ Hcb Hps Hpl.
  revert s. induction n as [|n IH]; intros s Hs H; cbn in H; [by injection H as <-|].
  apply obind_Ret in H as (s1 & H1 & H). apply (IH s1); [|done]. by apply (operation_fine fuel false s).
Qed.

End spec.

(** Processes are born by [create]. *)
Lemma created_born {hw config stored} {mpu : MPU hw config} {iso : MpuIsolation hw config}
    {con : MpuConfines hw config} {ukb : UKB stored} CB PS uninit pb ptr len idx k0 h0
    (p : process stored config) rest k (h : hw) :
  create_inputs CB PS uninit pb ptr len -> 0 < PS -> has_room CB PS k0 p -> 0 < ptr ->
  create CB PS uninit pb (ptr, len) idx k0 h0 = Ret (Ok (p, rest), k, h) ->
  born (hw := hw) CB PS (grant_counter k) p.
Proof.
  intros [H1 H2 H3 H4 H5 H6 H7 H8 H9 H10] Hps Hroom Hptr Hcr.
  destruct (create_spec CB PS H1 H2 H3 _ _ _ _ _ _ _ _ _ _ _ H4 H5 H6 H7 H8 H9 H10 Hroom Hcr) as (Hwf & Hrm & Hc).
  split.
  - split; [done|]. by apply (room_count CB PS k).
  - pose proof (cr_start _ _ _ _ _ _ _ _ Hc). lia.
  - intros a. by apply (create_confined CB PS H1 H2 Hps uninit pb ptr len idx k0 h0 p rest k h).
Qed.

(** C1: the main loop keeps every process to itself.  The array holds processes that
    were just created, their memory apart, each with a configuration of its own in step
    with the MPU, as creation makes them; each has room in its block for its initial
    memory as the driver rounds it, which creation does not ensure on Cortex-M.
    Whatever the scheduler decides and whatever drivers, interrupts and deferred calls do
    within their interfaces, after any number of rounds of the main loop every switch to
    userspace has happened in isolation from the kernel ([isolated_run]: the MPU is on
    and its registers permit exactly what the configuration of the process exposes, less
    what the hardware withholds, which is the app memory of the process and nothing that
    the kernel owns), and the registers permitted not a byte of the block of any other
    process, unless it had been added for the process that ran; so each switch between
    processes did reach the hardware, though the driver skips the writing of a
    configuration that is loaded already.  The chip only ever slept with no interrupt and
    no deferred call pending; and the processes of the array are all well formed. *)
Theorem main_loop_isolates {C D hw config stored} {mpu : MPU hw config} {iso : MpuIsolation hw config}
    {con : MpuConfines hw config} {enf : MpuEnforces hw config} {ukb : UKB stored} CB PS
    (fault_action : process stored config -> FaultAction) g (pl : Platform C D hw config stored) n fuel s s' :
  0 <= initial_process_app_brk_size -> 0 <= CB -> 0 < PS -> platform_laws CB PS fault_action g pl ->
  (forall i p, at_slot (table s) i p -> born (hw := hw) CB PS g p) -> separate (table s) ->
  all_synced (table s) (w_hw (DeferredCall.env s)) -> own_configs (table s) ->
  grant_counter (kernel (w_system (DeferredCall.env s))) = g ->
  w_runs (DeferredCall.env s) = [] -> w_slept (DeferredCall.env s) = [] ->
  kernel_loop CB PS fault_action pl n fuel s = Ret s' ->
  (forall p h others, (p, h, others) ∈ w_runs (DeferredCall.env s') ->
     isolated_run (p, h) /\
     exists p0, born (hw := hw) CB PS g p0 /\ rtc (pstep (hw := hw) CB PS fault_action g) p0 p /\
       forall j q a, at_slot others j q -> in_block q a -> permits h a ->
         exists u n, was_added (hw := hw) CB PS fault_action g p0 p u n /\ u <= a < u + n) /\
  (forall d mask, (d, mask) ∈ w_slept (DeferredCall.env s') -> has_pending_interrupts pl d = false /\ mask = 0) /\
  (forall i p, at_slot (table s') i p -> wf p).
Proof.
  intros Happ Hcb Hps Hpl Hb Hsep Hsy Hcf Hg Hr0 Hs0 H. unfold kernel_loop in H.
  apply obind_Ret in H as (u & _ & H).
  assert (Hh : healthy CB PS fault_action g (has_pending_interrupts pl) s).
  { split; [|done|done|done|done|by rewrite Hr0|by rewrite Hs0].
    intros i p Hi. exists p. split; [by apply (Hb i)|apply rtc_refl]. }
  apply (loop_fine CB PS fault_action Happ Hcb Hps g pl Hpl) in H as [H1 _ _ _ _ H4 H5];
    [|by apply fine_devices].
  rewrite Forall_forall in H4. rewrite Forall_forall in H5. split_and!.
  - intros p h others Hin. exact (H4 _ Hin).
  - intros d mask Hin. exact (H5 _ Hin).
  - intros i p Hi. by destruct (lived_facts CB PS fault_action Happ g p (H1 i p Hi)) as [ [? _] _].
Qed.

(** * Two processes under round robin

    The state of the devices is the scheduler and a timer that counts down each time
    it is read. *)
Notation demo_devices := (RoundRobinSched * Z)%type.
Notation demo_slots := (list (option (process unit CortexM.CortexMConfig * memory))).
Notation demo_env := (DeferredCall.statics unit (demo_slots * demo_devices)).

Definition on_timer (f : Z -> Z) (e : demo_env) : demo_env :=
  map_env (fun '(l, (sch, us)) => (l, (sch, f us))) e.
Definition timer_left (e : demo_env) : Z := snd (snd (DeferredCall.env e)).
Definition loop_board : @Board CortexM.Mpu CortexM.CortexMConfig unit demo_env :=
  mkBoard (fun _ => None) (fun _ _ => Ok tt) (fun s => Ret (Err tt, s)) (fun _ e => e)
    (fun _ e => (true, e)) None (on_timer (fun _ => 0)) (fun us => on_timer (fun _ => us)) (fun e => e) (fun e => e)
    (fun e => (if timer_left e <=? 0 then None else Some (timer_left e), on_timer (fun us => us - 3000) e))
    demo_writes.
Definition loop_platform : Platform unit demo_devices CortexM.Mpu CortexM.CortexMConfig unit :=
  mkPlatform loop_board (fun d => d) (fun d => d) (fun d => d) (fun d => d)
    (fun _ => false) (fun s => Ret s) (fun d => d) (fun _ s => Ret s)
    (fun procs '(sch, us) => let! '(d, sch) := rr_next procs 10 sch in Ret (d, (sch, us)))
    (fun reason time '(sch, us) => let! sch := rr_result reason time sch in Ret (sch, us)).

Lemma loop_platform_laws g : platform_laws 280 400 demo_fault g loop_platform.
Proof.
  assert (Ht : forall f e, others_moved (hw := CortexM.Mpu) 280 400 demo_fault g e (on_timer f e)).
  { intros f [c b d [l [sch us] ] ]. apply (moved_pre (qstep (hw := CortexM.Mpu) 280 400 demo_fault g)). }
  assert (Hid : forall e, others_moved (hw := CortexM.Mpu) 280 400 demo_fault g (C := unit) (D := demo_devices) e e).
  { intros e. apply (moved_pre (qstep (hw := CortexM.Mpu) 280 400 demo_fault g)). }
  split; [split|..].
  - intros num d H. discriminate H.
  - intros s x s' _ H. injection H as <- <-. split; [apply rtc_refl|]. split; [reflexivity|apply Hid].
  - intros f other ty s s' H. discriminate H.
  - intros p e. apply Hid.
  - intros id e c e' H. injection H as _ <-. apply Hid.
  - intros e. split; [apply Ht|]. split; [apply Hid|]. split; [apply Hid|]. intros us. apply Ht.
  - intros e r e' H. injection H as _ <-. apply Ht.
  - intros start brk st sc sp st' H. discriminate H.
  - intros s s' H. injection H as <-. split; [apply (moved_pre (qstep (hw := CortexM.Mpu) 280 400 demo_fault g))|reflexivity..].
  - intros c s s' H. injection H as <-. split; [apply (moved_pre (qstep (hw := CortexM.Mpu) 280 400 demo_fault g))|reflexivity..].
Qed.

Definition demo_second (k : Kernel) (h : CortexM.Mpu) :=
  create 280 400 (replicate 10 demo_task) demo_pb (536952832, 65536) 1 k h.
Definition two_processes (p q : process unit CortexM.CortexMConfig) (k : Kernel) (h : CortexM.Mpu)
    : DeferredCall.statics unit (whole demo_devices CortexM.Mpu CortexM.CortexMConfig unit) :=
  DeferredCall.initial
    (mkWhole (mkSystem [Some (p, ∅); Some (q, ∅)] k (mkRoundRobin 10000 10000 [0%nat; 1%nat] false, 0)) h [] []).

(** What evaluation shows: where the processes are, and that both run in two rounds. *)
Definition two_checks : bool :=
  match demo_create with
  | Ret (Ok (p, _), k, h1) =>
    match demo_second k h1 with
    | Ret (Ok (q, _), k2, h) =>
      (grant_counter k =? 5) && (grant_counter k2 =? 5) && (memory_len q =? 8192)
      && (flash_ptr p =? 262144) && (flash_len p =? 16384) && (flash_ptr q =? 262144) && (flash_len q =? 16384)
      && (memory_start p =? 536887296) && (memory_len p =? 8192) && (memory_start q =? 536952832)
      && match kernel_loop 280 400 demo_fault loop_platform 2 20 (two_processes p q k2 h) with
         | Ret s' => forallb (fun i => existsb (fun '(r, _, _) => pindex (process_id r) =? i)
                       (w_runs (DeferredCall.env s'))) [0; 1]
         | _ => false
         end
    | _ => false
    end
  | _ => false
  end.

Lemma two_checks_ok : two_checks = true.
Proof. vm_compute. reflexivity. Qed.

#[local] Strategy 1000 [demo_create demo_second create kernel_loop].

Lemma second_born k h1 q rest k2 h : grant_counter k = 5 -> grant_counter k2 = 5 -> memory_len q = 8192 ->
  demo_second k h1 = Ret (Ok (q, rest), k2, h) -> born (hw := CortexM.Mpu) 280 400 5 q.
Proof.
  intros Hk Hk2 Hl E. rewrite <- Hk2. unfold demo_second in E.
  apply (created_born 280 400 (replicate 10 demo_task) demo_pb 536952832 65536 1 k h1 q rest k2 h);
    [|reflexivity| |reflexivity|exact E].
  - destruct demo_inputs as [H1 H2 H3 H4 _ H6 _ H8 H9 H10].
    split; [exact H1|exact H2|exact H3|exact H4|discriminate|exact H6|reflexivity|exact H8|exact H9|exact H10].
  - intros n Hn. rewrite Hl. unfold create_kernel_memory_size in Hn. rewrite Hk in Hn.
    vm_compute in Hn. injection Hn as <-.
    change (CortexM.enabled_bytes 32 8192 <= 8192 - 724). vm_compute. discriminate.
Qed.

Lemma first_born p rest k h : grant_counter k = 5 -> demo_create = Ret (Ok (p, rest), k, h) ->
  born (hw := CortexM.Mpu) 280 400 5 p.
Proof.
  intros Hk E. pose proof (demo_room p rest k h E) as Hroom. unfold demo_create in E. rewrite <- Hk.
  apply (created_born 280 400 (replicate 10 demo_task) demo_pb 536887296 65536 0 demo_kernel demo_hw p rest k h);
    [exact demo_inputs|reflexivity|exact Hroom|reflexivity|exact E].
Qed.

(** Each has a configuration of its own. *)
Lemma both_synced p q rest rest2 k k2 h h2 :
  demo_create = Ret (Ok (p, rest), k, h) -> demo_second k h = Ret (Ok (q, rest2), k2, h2) ->
  synced p h2 /\ synced q h2 /\ (forall c, mpu_config q = Some c -> other p c) /\
  (forall c, mpu_config p = Some c -> other q c).
Proof.
  unfold demo_create, demo_second. intros E1 E2. destruct demo_inputs as [_ _ _ _ _ _ _ _ H9 _].
  apply create_synced in E1 as (Hsp & (c & Hc & Ic) & Hlt & Hh & _); [|reflexivity|exact H9].
  apply create_synced in E2 as (Hsq & (d & Hd & Id) & _ & _ & Hkeep); [|exact Hh|exact H9].
  split; [intros c' Hc'; apply Hkeep, Hsp, Hc'|]. split; [exact Hsq|]. unfold other.
  split; intros c1 H1 c2 H2; rewrite Hc, Hd in *; injection H1 as <-; injection H2 as <-; lia.
Qed.

(** The two processes, born apart, and what two rounds of the loop do. *)
Lemma two_ready : exists p q k h s',
  kernel_loop 280 400 demo_fault loop_platform 2 20 (two_processes p q k h) = Ret s' /\
  (forall i r, at_slot (table (two_processes p q k h)) i r -> born (hw := CortexM.Mpu) 280 400 5 r) /\
  separate (table (two_processes p q k h)) /\ grant_counter k = 5 /\
  all_synced (table (two_processes p q k h)) h /\ own_configs (hw := CortexM.Mpu) (table (two_processes p q k h)) /\
  forall i, i ∈ [0; 1] -> exists r, r ∈ w_runs (DeferredCall.env s') /\ pindex (process_id (fst (fst r))) = i.
Proof.
  pose proof two_checks_ok as Hck. unfold two_checks in Hck.
  destruct demo_created as (p & rest & k & h & E & _). rewrite E in Hck.
  destruct (demo_second k h) as [ [ [ [ [q rest2]|e] k2] h2]| |] eqn:E2; try discriminate Hck.
  rewrite !andb_true_iff, !Z.eqb_eq in Hck.
  destruct Hck as [ [ [ [ [ [ [ [ [ [Hk Hk2] Hlq] Hfp] Hflp] Hfq] Hflq] Hsp] Hlp] Hsq] Hrun].
  pose proof (first_born p rest k h Hk E) as Hp. pose proof (second_born k h q rest2 k2 h2 Hk Hk2 Hlq E2) as Hq.
  destruct (both_synced p q rest rest2 k k2 h h2 E E2) as (Hsyp & Hsyq & Hpq & Hqp).
  clear E E2. exists p, q, k2, h2.
  destruct (kernel_loop 280 400 demo_fault loop_platform 2 20 (two_processes p q k2 h2)) as [s'| |];
    try discriminate Hrun. exists s'. split; [reflexivity|].
  assert (Hslot : forall i r, at_slot (table (two_processes p q k2 h2)) i r ->
    i = 0%nat /\ r = p \/ i = 1%nat /\ r = q).
  { intros [|[|i] ] r [m Hi]; cbn in Hi; [injection Hi as -> _; left; split; reflexivity|injection Hi as -> _; right; split; reflexivity|discriminate Hi]. }
  split; [|split; [|split; [exact Hk2|split; [|split] ] ] ].
  - intros i r Hi. destruct (Hslot i r Hi) as [ [_ ->]|[_ ->] ]; [exact Hp|exact Hq].
  - intros i j r r' a Hne Hi Hj Ho Hb. unfold own, in_words, in_block in *.
    destruct (Hslot i r Hi) as [ [-> ->]|[-> ->] ], (Hslot j r' Hj) as [ [-> ->]|[-> ->] ]; try (destruct Hne; reflexivity);
      rewrite ?Hfp, ?Hflp, ?Hfq, ?Hflq, ?Hsp, ?Hlp, ?Hsq, ?Hlq in *; destruct Ho as [ [Ho1 Ho2]|Ho]; try lia;
      pose proof (Z.mul_succ_div_gt a 4); lia.
  - intros i r Hi. destruct (Hslot i r Hi) as [ [_ ->]|[_ ->] ]; [exact Hsyp|exact Hsyq].
  - intros i j r r' c Hne Hi Hj Hc.
    destruct (Hslot i r Hi) as [ [-> ->]|[-> ->] ], (Hslot j r' Hj) as [ [-> ->]|[-> ->] ]; try (destruct Hne; reflexivity);
      [exact (Hpq c Hc)|exact (Hqp c Hc)].
  - intros i Hi. rewrite forallb_forall in Hrun. specialize (Hrun i). rewrite existsb_exists in Hrun.
    destruct Hrun as ([ [r h0] others] & Hin & Hr); [apply list_elem_of_In; exact Hi|].
    exists (r, h0, others). split; [apply list_elem_of_In; exact Hin|apply Z.eqb_eq; exact Hr].
Qed.

(** In two rounds each of the two processes runs, and each run is isolated. *)
Lemma main_loop_isolates_witness : exists p q k h s',
  kernel_loop 280 400 demo_fault loop_platform 2 20 (two_processes p q k h) = Ret s' /\
  (forall i, i ∈ [0; 1] -> exists r, r ∈ w_runs (DeferredCall.env s') /\ pindex (process_id (fst (fst r))) = i) /\
  (forall p h others, (p, h, others) ∈ w_runs (DeferredCall.env s') ->
     isolated_run (p, h) /\
     exists p0, born (hw := CortexM.Mpu) 280 400 5 p0 /\ rtc (pstep (hw := CortexM.Mpu) 280 400 demo_fault 5) p0 p /\
       forall j q a, at_slot others j q -> in_block q a -> permits h a ->
         exists u n, was_added (hw := CortexM.Mpu) 280 400 demo_fault 5 p0 p u n /\ u <= a < u + n) /\
  (forall i p, at_slot (table s') i p -> wf p).
Proof.
  destruct two_ready as (p & q & k & h & s' & Hloop & Hborn & Hsep & Hk & Hsy & Hcf & Hruns).
  exists p, q, k, h, s'. split; [exact Hloop|]. split; [exact Hruns|].
  destruct (main_loop_isolates 280 400 demo_fault 5 loop_platform 2 20 (two_processes p q k h) s')
    as (H1 & _ & H3); [discriminate|discriminate|reflexivity|apply loop_platform_laws|exact Hborn|exact Hsep|exact Hsy|exact Hcf|exact Hk|reflexivity|reflexivity|exact Hloop|].
  split; [intros r h0 others Hin; apply (H1 r h0 others Hin)|exact H3].
Defined.

End MainLoopSpec.
