(* ===== verification/AlarmDriver.v ===== *)
(** The system-call driver for alarms ([capsules/core/src/alarm.rs]), module
    [AlarmDriver].

    The driver keeps its state, one expiration per process, in the grants of the
    processes: every access goes through the raw memory of [Grant].  How Rust lays
    out an [AlarmData] in bytes is not specified, so it is a parameter ([Codec]). *)

From stdpp Require Import base numbers list gmap.
From S2P Require Import Prelude Mpu Syscall Process Grant ProcessTable Ticks.
Import Mpu Syscall Proc Grant ProcessTable Ticks.
Local Open Scope Z_scope.

Module AlarmDriver.

(** * Data *)

Record Expiration (T : Type) := mkExpiration { reference : T; dt : T }.
Arguments mkExpiration {T}.
Arguments reference {T}.
Arguments dt {T}.

(** [AlarmData]: a struct with the one field [expiration]. *)
Record AlarmData (T : Type) := mkAlarmData { expiration : option (Expiration T) }.
Arguments mkAlarmData {T}.
Arguments expiration {T}.
Definition alarm_default {T} : AlarmData T := mkAlarmData None.

Definition ALARM_CALLBACK_NUM : Z := 0.
Definition NUM_UPCALLS : Z := 1.
Definition DRIVER_NUM : Z := 0.

(** A layout of a type in memory. *)
Class Codec (A : Type) := {
  size_of : nat;
  encode : A -> list Z;
  decode : list Z -> A;
}.

(** [Grant<AlarmData<A::Ticks>, UpcallCount<1>, AllowRoCount<0>, AllowRwCount<0>>],
    with the grant number that the kernel gave it and the alignment of the data. *)
Definition alarm_grant (T : Type) `{!Codec (AlarmData T)} (grant_num : nat) (align : Z) : GrantType :=
  mkGrantType grant_num DRIVER_NUM NUM_UPCALLS 0 0 align (encode (alarm_default (T := T))).

(** * Expirations *)

Section earliest.
  Context {T : Type} `{!Ticks T}.
  Implicit Type exp : Expiration T.

(** When an expiration is due. *)
Definition exp_end exp : T := wrapping_add (reference exp) (dt exp).
Definition expired (now : T) exp : bool := negb (within_range now (reference exp) (exp_end exp)).

(** The [match] on [earliest] in the loop. *)
Definition earlier {UD} (now : T) (earliest : option (Expiration T * UD)) exp (ud : UD)
    : option (Expiration T * UD) :=
  match earliest with
  | None => Some (exp, ud)
  | Some (e, _) =>
    let exp_remain := wrapping_sub (exp_end exp) now in
    let earliest_remain := wrapping_sub (exp_end e) now in
    if lt_ticks exp_remain earliest_remain then Some (exp, ud) else earliest
  end.

(** [expirations] is an iterator over a slice with a filter: a list of steps, each
    of which reads the state [S] and gives an item or nothing.  Handlers change the
    state. *)
Fixpoint earliest_loop {S UD R} (now : T) (handler : Expiration T -> UD -> S -> outcome (option R * S))
    (expirations : list (S -> outcome (option (Expiration T * UD) * S)))
    (earliest : option (Expiration T * UD)) (s : S)
    : outcome (result (option (Expiration T * UD)) (Expiration T * UD * R) * S) :=
  match expirations with
  | [] => Ret (Ok earliest, s)
  | next :: expirations =>
    let! '(item, s) := next s in
    match item with
    | None => earliest_loop now handler expirations earliest s
    | Some (exp, ud) =>
      let! '(stop, s) :=
        (if expired now exp then handler exp ud s else Ret (None, s)) in
      match stop with
      | Some retval => Ret (Err (exp, ud, retval), s)
      | None => earliest_loop now handler expirations (earlier now earliest exp ud) s
      end
    end
  end.
Definition earliest_alarm {S UD R} (now : T) (handler : Expiration T -> UD -> S -> outcome (option R * S))
    (expirations : list (S -> outcome (option (Expiration T * UD) * S))) (s : S)
    : outcome (result (option (Expiration T * UD)) (Expiration T * UD * R) * S) :=
  earliest_loop now handler expirations None s.

(** The new expiration and the time that is reported. *)
Definition rearm_u32_left_justified_expiration (now : T) (reference_u32 : option Z) (dt_u32 : Z)
    : outcome (Expiration T * Z) :=
  let reference_unshifted := (fun ref_u32 => Z.shiftr ref_u32 u32_padding) <$> reference_u32 in
  let! one := shl32 1 u32_padding in
  let! mask := sub32 one 1 in
  let! dt_unshifted :=
    (if negb (Z.land dt_u32 mask =? 0) then add32 (Z.shiftr dt_u32 u32_padding) 1
     else Ret (Z.shiftr dt_u32 u32_padding)) in
  let new_exp :=
    match reference_unshifted with
    | Some userspace_reference_unshifted =>
      if 32 <? width then
        if into_u32 now <? userspace_reference_unshifted then
          let bit33 := wrapping_add (from_u32 0xffffffff) (from_u32 0x1) in
          let sub_1_upper := wrapping_sub now bit33 in
          let sub_lower := wrapping_sub sub_1_upper (from_u32 (into_u32 sub_1_upper)) in
          let rebased_reference := wrapping_add sub_lower (from_u32 userspace_reference_unshifted) in
          mkExpiration rebased_reference (from_u32 dt_unshifted)
        else
          let sub_lower := wrapping_sub now (from_u32 (into_u32 now)) in
          let rebased_reference := wrapping_add sub_lower (from_u32 userspace_reference_unshifted) in
          mkExpiration rebased_reference (from_u32 dt_unshifted)
      else mkExpiration (from_u32 userspace_reference_unshifted) (from_u32 dt_unshifted)
    | None => mkExpiration now (from_u32 dt_unshifted)
    end in
  let! t := into_u32_left_justified (exp_end new_exp) in
  Ret (new_exp, t).

End earliest.

(** * The driver *)

Section driver.
  Context {T H hw config stored : Type} `{!Ticks T} `{!Alarm H T} {mpu : MPU hw config}
    `{!Codec (AlarmData T)}.
  (** [A::Frequency::frequency()] *)
  Context (frequency : Z).
  Context (grant_num : nat) (align : Z).
  Notation g := (alarm_grant T grant_num align).
  (** The alarm is the device of the system. *)
  Notation system := (system H config stored).
  Notation alarm := device.
  Notation set_alarm_hw := set_device.
  Implicit Type s : system.

(** One step of [Grant::iter] followed by the [filter_map] of the driver: the slot
    [i] of the array, if it has a process ([get_process_iter]) whose grant is
    allocated ([new_if_allocated]), is entered. *)
Definition next_expiration (i : nat) s : outcome (option (Expiration T * ProcessId) * system) :=
  match processes s !! i with
  | Some (Some (p, m)) =>
    match grant_is_allocated grant_num p with
    | Some true =>
      let process_id := process_id p in
      let! '(o, p, m) :=
        access_grant g (fun data _ _ _ p => Ret (expiration (decode data), data, p)) true p m in
      let! e := of_option o in
      Ret ((fun exp => (exp, process_id)) <$> e, put i (p, m) s)
    | _ => Ret (None, s)
    end
  | _ => Ret (None, s)
  end.
Definition iter s : list (system -> outcome (option (Expiration T * ProcessId) * system)) :=
  map next_expiration (seq 0 (length (processes s))).

Definition expired_handler (now : T) (exp : Expiration T) (pid : ProcessId) s
    : outcome (option unit * system) :=
  let! '(_, s) :=
    app_enter g pid (fun _ upcalls _ _ p =>
      let! justified := into_u32_left_justified now in
      let! '(_, p) := schedule_upcall g upcalls ALARM_CALLBACK_NUM justified
                        (into_usize (exp_end exp)) 0 p in
      Ret (tt, encode (mkAlarmData (T := T) None), p)) s in
  Ret (None, s).

Definition process_rearm_or_callback s : outcome system :=
  let '(now, h) := now (alarm s) in
  let s := set_alarm_hw h s in
  let! '(res, s) := earliest_alarm now (expired_handler now) (iter s) s in
  match res with
  | Ok None => Ret (set_alarm_hw (hw_disarm (alarm s)).2 s)
  | Ok (Some (e, _)) => Ret (set_alarm_hw (hw_set_alarm (reference e) (dt e) (alarm s)) s)
  | Err _ => Panic
  end.

(** The closure of [command]: the reply, whether to re-arm, and the new data. *)
Definition command_closure (now : T) (cmd_type data data2 : Z) (td : AlarmData T)
    : outcome (SyscallReturn * bool * AlarmData T) :=
  match cmd_type with
  | 0 => Ret (command_success, false, td)
  | 1 =>
    let! scaled_freq := u32_left_justified_scale_freq (T := T) frequency in
    Ret (SuccessU32 scaled_freq, false, td)
  | 2 => let! t := into_u32_left_justified now in Ret (SuccessU32 t, false, td)
  | 3 =>
    match expiration td with
    | None => Ret (command_failure ALREADY, false, td)
    | Some _ => Ret (command_success, true, mkAlarmData None)
    end
  | 4 => Ret (command_failure NOSUPPORT, false, td)
  | 5 =>
    let! '(new_exp, t) := rearm_u32_left_justified_expiration now None data in
    Ret (SuccessU32 t, true, mkAlarmData (Some new_exp))
  | 6 =>
    let! '(new_exp, t) := rearm_u32_left_justified_expiration now (Some data) data2 in
    Ret (SuccessU32 t, true, mkAlarmData (Some new_exp))
  | _ => Ret (command_failure NOSUPPORT, false, td)
  end.

(** The clock is read in the closure, so only when the grant could be entered. *)
Definition command (cmd_type data data2 : Z) (caller_id : ProcessId) s
    : outcome (SyscallReturn * system) :=
  let '(now, h) := now (alarm s) in
  let! '(r, s) :=
    app_enter g caller_id (fun bytes _ _ _ p =>
      let! '(retval, rearm_timer, td) := command_closure now cmd_type data data2 (decode bytes) in
      Ret ((retval, rearm_timer), encode td, p)) s in
  match r with
  | Err err => Ret (command_failure (errorcode_of_error err), s)
  | Ok (retval, rearm_timer) =>
    let s := set_alarm_hw h s in
    let! s := (if rearm_timer : bool then process_rearm_or_callback s else Ret s) in
    Ret (retval, s)
  end.

Definition allocate_grant (processid : ProcessId) s : outcome (result unit Error * system) :=
  app_enter g processid (fun bytes _ _ _ p => Ret (tt, bytes, p)) s.

(** [AlarmClient::alarm] *)
Definition alarm_fired s : outcome system := process_rearm_or_callback s.

End driver.

End AlarmDriver.
