(* ===== verification/AlarmDriverSpec.v ===== *)
(** What the alarm driver promises, module [AlarmDriverSpec]: how it rounds the
    requests of processes, and that serving alarms, through the raw memory of the
    grants of all processes, gives every expired alarm its upcall, leaves the others
    alone and arms the hardware soon enough for them. *)

From stdpp Require Import base numbers list gmap.
From S2P Require Import Prelude RingBuffer Mpu Syscall Process ProcessInv ProcessSpec.
From S2P Require Import Grant GrantSpec ProcessTable Ticks VirtualAlarm VirtualAlarmSpec AlarmDriver.
Import Ring Mpu Syscall Proc ProcInv ProcSpec Grant ProcessTable Ticks VirtualAlarmSpec AlarmDriver.
Local Open Scope Z_scope.

Module AlarmDriverSpec.

Notation alarm := device.
Notation set_alarm_hw := set_device.

(** * Requests *)

Section requests.
  Context {T : Type} `{L : TicksLaws T}.
  Implicit Type x : T.

Notation unit_ := (2 ^ u32_padding).

Lemma unit_pos : 0 < unit_.
Proof using L. destruct u32_padding_spec as (Hp & _). apply Z.pow_pos_nonneg; lia. Qed.

(** A 32-bit value without its unrepresentable low bits fits the counter. *)
Lemma shifted_fits r : u32_range r -> 0 <= r / unit_ < 2 ^ width /\ u32_range (r / unit_).
Proof using L.
  intros Hr. pose proof unit_pos as Hu. unfold u32_range, U32 in *.
  assert (Hle : r / unit_ <= r) by (apply Z.div_le_upper_bound; nia).
  assert (H0 : 0 <= r / unit_) by (apply Z.div_pos; lia). split; [|lia]. split; [done|].
  destruct u32_padding_spec as (Hp & Hs & _). pose proof width_pos. destruct (Z.le_gt_cases width 32) as [Hw|Hw].
  - rewrite Hs by done. apply Z.div_lt_upper_bound; [apply Z.pow_pos_nonneg; lia|].
    rewrite <- Z.pow_add_r by lia. replace (32 - width + width) with 32 by lia. lia.
  - assert (2 ^ 32 < 2 ^ width) by (apply Z.pow_lt_mono_r; lia). lia.
Qed.

(** Rounding [dt] up. *)
Lemma round_up d : u32_range d ->
  exists q, (let! one := shl32 1 u32_padding in let! mask := sub32 one 1 in
     if negb (Z.land d mask =? 0) then add32 (Z.shiftr d u32_padding) 1
     else Ret (Z.shiftr d u32_padding)) = Ret q /\
    d <= q * unit_ < d + unit_ /\ 0 <= q.
Proof using L.
  intros Hd. pose proof unit_pos as Hu. destruct u32_padding_spec as (Hp & _ & _).
  unfold shl32, wrap32. rewrite (proj2 (Z.ltb_lt _ _)) by lia. cbn [obind].
  rewrite Z.shiftl_1_l, (Z.mod_small unit_) by (split; [lia|apply Z.pow_lt_mono_r; lia]).
  assert (Hlt : unit_ < U32) by (apply Z.pow_lt_mono_r; lia).
  ck. rewrite land_mask, Z.shiftr_div_pow2 by lia.
  assert (Hu0 : unit_ <> 0) by lia. pose proof (Z.div_mod d unit_ Hu0). pose proof (Z.mod_pos_bound d unit_ Hu).
  destruct (shifted_fits d Hd) as [_ Hq]. destruct (Z.eqb_spec (d mod unit_) 0) as [E|E]; cbn [negb].
  - eexists. split; [done|]. unfold u32_range in Hq. nia.
  - assert (Hne : unit_ <> 1) by (intros E1; rewrite E1, Z.mod_1_r in E; done).
    unfold u32_range, U32 in Hd, Hq. assert (d / unit_ < 2 ^ 31).
    { apply Z.div_lt_upper_bound; [lia|]. nia. }
    ck. eexists. split; [done|]. nia.
Qed.

(** Rebasing: the latest time before [n] whose low 32 bits are [r]. *)
Lemma rebase_low (n r : Z) : 32 <= width -> u32_range r ->
  let v := (n - n mod 2 ^ 32 + r) mod 2 ^ width in
  v mod 2 ^ 32 = r /\ (n - v) mod 2 ^ width = (n mod 2 ^ 32 - r) mod 2 ^ width.
Proof using.
  intros Hw Hr v. unfold v. split.
  - rewrite mod_mod_divide by lia. rewrite <- Z.add_mod_idemp_l, Zminus_mod_idemp_r, Z.sub_diag by done.
    by apply Z.mod_small.
  - rewrite Zminus_mod_idemp_r. f_equal. lia.
Qed.

Lemma low_of_previous n : 32 <= width -> (n - 2 ^ 32) mod 2 ^ 32 = n mod 2 ^ 32.
Proof using. intros _. by rewrite <- Zminus_mod_idemp_r, Z.mod_same, Z.sub_0_r by done. Qed.

(** [x - from(x.into_u32()) + from(r)] *)
Definition rebase x (r : Z) : T := wrapping_add (wrapping_sub x (from_u32 (into_u32 x))) (from_u32 r).

Lemma val_rebase x r : 32 < width -> in_range x -> u32_range r ->
  val (rebase x r) = (val x - val x mod 2 ^ 32 + r) mod 2 ^ width.
Proof using L.
  intros Hw Hx Hr. assert (Hm : 2 ^ 32 < 2 ^ width) by (apply Z.pow_lt_mono_r; lia).
  assert (Hlow : u32_range (val x mod 2 ^ 32)) by (by apply Z.mod_pos_bound).
  unfold rebase. rewrite val_add, val_sub, into_u32_spec, !val_from_u32
    by (done || unfold u32_range, wrap32, U32 in *; lia).
  by rewrite Z.add_mod_idemp_l by lia.
Qed.

(** The reference a request is stored with. *)
Definition reference_of (now : T) (r : Z) : T :=
  if 32 <? width then
    if into_u32 now <? r then
      rebase (wrapping_sub now (wrapping_add (from_u32 0xffffffff) (from_u32 0x1))) r
    else rebase now r
  else from_u32 r.

Lemma reference_of_spec (now : T) (r : Z) : in_range now -> u32_range r -> r < 2 ^ width ->
  in_range (reference_of now r) /\ wrap32 (val (reference_of now r)) = r /\
  (val now - val (reference_of now r)) mod 2 ^ width < 2 ^ 32.
Proof using L.
  intros Hn Hr Hrw. pose proof width_modulus as HM. pose proof width_pos. unfold reference_of.
  destruct (Z.ltb_spec 32 width) as [Hw|Hw].
  - assert (Hm : 2 ^ 33 <= 2 ^ width) by (apply Z.pow_le_mono_r; lia).
    assert (Hlow : u32_range (val now mod 2 ^ 32)) by (by apply Z.mod_pos_bound).
    unfold in_range, u32_range, U32 in *.
    rewrite into_u32_spec by done. unfold wrap32, U32.
    destruct (Z.ltb_spec (val now mod 2 ^ 32) r) as [Hlt|Hge].
    + set (b := wrapping_add _ _).
      assert (Hb : val b = 2 ^ 32).
      { unfold b. rewrite val_add, !val_from_u32 by (unfold u32_range, U32; lia). apply Z.mod_small. lia. }
      assert (Hs : in_range (wrapping_sub now b)) by apply sub_in_range.
      rewrite val_rebase by (done || lia). rewrite val_sub, Hb.
      set (n := (val now - 2 ^ 32) mod 2 ^ width).
      destruct (rebase_low n r) as [H1 H2]; [lia|done|]. split; [by apply Z.mod_pos_bound|].
      split; [done|]. assert (Hnl : n mod 2 ^ 32 = val now mod 2 ^ 32).
      { unfold n. rewrite mod_mod_divide by lia. apply low_of_previous. lia. }
      rewrite Hnl. unfold n. rewrite Zminus_mod_idemp_r.
      replace (val now - ((val now - 2 ^ 32) mod 2 ^ width - val now mod 2 ^ 32 + r))
        with (val now - (val now - 2 ^ 32) mod 2 ^ width + (val now mod 2 ^ 32 - r)) by lia.
      rewrite <- Z.add_mod_idemp_l, Zminus_mod_idemp_r, Z.add_mod_idemp_l by lia.
      rewrite Z.mod_small; lia.
    + rewrite val_rebase by done. destruct (rebase_low (val now) r) as [H1 H2]; [lia|done|].
      split; [by apply Z.mod_pos_bound|]. split; [done|]. rewrite H2, Z.mod_small by lia. lia.
  - rewrite val_from_u32 by done. unfold in_range, u32_range in *. split; [rewrite val_from_u32 by done; lia|].
    split; [by apply Z.mod_small|]. assert (2 ^ width <= 2 ^ 32) by (apply Z.pow_le_mono_r; lia).
    pose proof (Z.mod_pos_bound (val now - r) (2 ^ width) HM). lia.
Qed.

Lemma rearm_shape (now : T) (ref : option Z) (d : Z) :
  rearm_u32_left_justified_expiration now ref d =
  (let! q := (let! one := shl32 1 u32_padding in let! mask := sub32 one 1 in
     if negb (Z.land d mask =? 0) then add32 (Z.shiftr d u32_padding) 1
     else Ret (Z.shiftr d u32_padding)) in
   let e := mkExpiration (match ref with
       | Some r => reference_of now (Z.shiftr r u32_padding)
       | None => now
       end) (from_u32 q) in
   let! t := into_u32_left_justified (exp_end e) in Ret (e, t)).
Proof using.
  unfold rearm_u32_left_justified_expiration, reference_of, rebase. rewrite !obind_assoc.
  destruct (shl32 1 u32_padding) as [one| |]; [|done..]. cbn [obind]. rewrite !obind_assoc.
  destruct (sub32 one 1) as [mask| |]; [|done..]. cbn [obind].
  destruct (if negb _ then _ else _) as [q| |]; [|done..]. cbn [obind].
  destruct ref; cbn [fmap option_fmap option_map]; [|done]. repeat case_match; done.
Qed.

Lemma rearm_spec (now : T) (ref : option Z) (d : Z) :
  in_range now -> (forall r, ref = Some r -> u32_range r) ->
  u32_range d -> d <= (2 ^ width - 1) * unit_ ->
  exists e t, rearm_u32_left_justified_expiration now ref d = Ret (e, t) /\
    in_range (reference e) /\ in_range (dt e) /\
    (ref = None -> reference e = now) /\
    (forall r, ref = Some r -> justified (reference e) = r - r mod unit_ /\
       (val now - val (reference e)) mod 2 ^ width < 2 ^ 32) /\
    d <= val (dt e) * unit_ < d + unit_ /\
    t = wrap32 (justified (reference e) + val (dt e) * unit_).
Proof using L.
  intros Hn Hr Hd Hmax. pose proof unit_pos as Hu. assert (Hu0 : unit_ <> 0) by lia.
  destruct u32_padding_spec as (Hp & Hps & Hpl).
  rewrite rearm_shape. destruct (round_up d Hd) as (q & -> & Hq & Hq0). cbn [obind].
  assert (Hqw : q < 2 ^ width) by nia.
  assert (Hq32 : u32_range q) by (unfold u32_range, U32 in *; destruct (decide (unit_ = 1)); nia).
  set (rf := match ref with Some _ => _ | None => _ end). set (e := mkExpiration rf (from_u32 q)).
  assert (Hv : val (dt e) = q) by (by apply val_from_u32).
  assert (Hrf : in_range rf /\ (ref = None -> rf = now) /\
    (forall r, ref = Some r -> justified rf = r - r mod unit_ /\ (val now - val rf) mod 2 ^ width < 2 ^ 32)).
  { unfold rf. destruct ref as [r|]; [|split; [done|split; [done|intros r Hr'; discriminate Hr'] ] ].
    specialize (Hr r eq_refl). rewrite Z.shiftr_div_pow2 by lia.
    destruct (shifted_fits r Hr) as [Hf Hf32].
    destruct (reference_of_spec now (r / unit_)) as (H1 & H2 & H3); [done|done|lia|].
    split; [done|]. split; [done|]. intros r' [= <-]. split; [|done].
    unfold justified, wrap32. rewrite <- Z.mul_mod_idemp_l by done. fold (wrap32 (val (reference_of now (r / unit_)))).
    rewrite H2. pose proof (Z.div_mod r unit_ Hu0). pose proof (Z.mod_pos_bound r unit_ Hu).
    unfold u32_range, U32 in *. rewrite Z.mod_small; nia. }
  destruct Hrf as (H1 & H2 & H3).
  exists e, (wrap32 (justified rf + q * unit_)). rewrite into_u32_left_justified_ok by apply add_in_range.
  cbn [obind]. split.
  { f_equal. f_equal. unfold exp_end. rewrite justified_add. unfold wrapping_add32, wrap32. cbn [reference e].
    unfold justified at 2. rewrite Hv. unfold wrap32. by rewrite Z.add_mod_idemp_r by done. }
  split; [done|]. split; [unfold in_range; rewrite Hv; lia|]. split; [done|]. split; [done|].
  rewrite Hv. done.
Qed.

(** * The earliest expiration *)

(** Ticks until an expiration is due, as the driver counts them. *)
Definition remain (now : T) (e : Expiration T) : Z := (val (exp_end e) - val now) mod 2 ^ width.

Definition pick {UD} (now : T) (acc : option (Expiration T * UD)) (l : list (Expiration T * UD)) :=
  foldl (fun acc '(e, ud) => earlier now acc e ud) acc l.

Lemma earlier_spec {UD} (now : T) (acc : option (Expiration T * UD)) e ud :
  exists x : Expiration T * UD, earlier now acc e ud = Some x /\ (x = (e, ud) \/ acc = Some x) /\
    remain now x.1 <= remain now e /\ (forall y, acc = Some y -> remain now x.1 <= remain now y.1).
Proof using L.
  unfold earlier. destruct acc as [ [e0 ud0]|].
  - rewrite lt_spec, !val_sub. fold (remain now e) (remain now e0).
    destruct (Z.ltb_spec (remain now e) (remain now e0)).
    + exists (e, ud). split; [done|]. split; [by left|]. split; [done|]. intros y [= <-]. cbn. lia.
    + exists (e0, ud0). split; [done|]. split; [by right|]. split; [done|]. by intros y [= <-].
  - exists (e, ud). split; [done|]. split; [by left|]. split; [done|]. intros y Hy. discriminate Hy.
Qed.

Lemma pick_spec {UD} (now : T) (l : list (Expiration T * UD)) : forall acc,
  match pick now acc l with
  | None => acc = None /\ l = []
  | Some x => (acc = Some x \/ x ∈ l) /\ (forall y, y ∈ l \/ acc = Some y -> remain now x.1 <= remain now y.1)
  end.
Proof using L.
  induction l as [|[e ud] l IH]; intros acc; cbn [pick foldl].
  - destruct acc as [x|]; [|done]. split; [by left|]. intros y [Hy|[= <-] ]; [by apply elem_of_nil in Hy|done].
  - destruct (earlier_spec now acc e ud) as (x & -> & Hx & H1 & H2). specialize (IH (Some x)).
    unfold pick in *. destruct (foldl _ _ l) as [z|]; [|by destruct IH].
    destruct IH as [Hz Hall]. assert (Hzx : remain now z.1 <= remain now x.1) by (apply Hall; by right).
    split.
    + destruct Hz as [ [= <-]|Hz]; [|right; by right]. destruct Hx as [->|]; [right; by left|by left].
    + intros y [ [->|Hy]%elem_of_cons|Hy]; [cbn; lia|apply Hall; by left|]. specialize (H2 y Hy). lia.
Qed.

End requests.

(** * Serving the processes *)

(** What is assumed of the layout of the driver's data: it has a fixed size, and
    what is stored can be read back. *)
Definition wf_data {T} `{L : TicksLaws T} (td : AlarmData T) : Prop :=
  forall e, expiration td = Some e -> in_range (reference e) /\ in_range (dt e).
Class AlarmCodec (T : Type) `{L : TicksLaws T} `{!Codec (AlarmData T)} := {
  length_encode (td : AlarmData T) : length (encode td) = size_of;
  bytes_encode (td : AlarmData T) : bytes_ok (encode td);
  decode_encode (td : AlarmData T) : wf_data td -> decode (encode td) = td;
}.

Section serve.
  Context {T H hw config stored : Type} `{L : TicksLaws T} `{!Alarm H T} {mpu : MPU hw config}
    {iso : MpuIsolation hw config} `{!Codec (AlarmData T)} `{AC : !AlarmCodec T}.
  Context (grant_num : nat) (align : Z) (decl : gmap Z GrantType).
  Notation proc := (process stored config).
  Notation g := (alarm_grant T grant_num align).
  Notation sys := (system H config stored).
  Implicit Types (s : sys) (p : proc).

Context (Hdecl : GrantSpec.declared decl) (Halarm : decl !! DRIVER_NUM = Some g).

(** The expiration in the grants of a process, and the grants without it. *)
Definition exp_of (tb : GrantSpec.tables) : option (Expiration T) :=
  match tb !! DRIVER_NUM with
  | Some (_, t) => expiration (decode (GrantSpec.t_data t) : AlarmData T)
  | None => None
  end.
Definition clear_exp (tb : GrantSpec.tables) : GrantSpec.tables :=
  match tb !! DRIVER_NUM with
  | Some (g', t) =>
    <[DRIVER_NUM := (g', GrantSpec.set_data (encode (mkAlarmData (T := T) None)) t)]> tb
  | None => tb
  end.

(** A slot of the array of processes, with the grants of a live process. *)
Notation slot := (option (proc * memory))%type.
Notation app := (slot * option GrantSpec.tables)%type.

Inductive app_ok (i : nat) : app -> Prop :=
  | app_none : app_ok i (None, None)
  | app_stopped p m : is_running p = false -> app_ok i (Some (p, m), None)
  | app_live p m tb : GrantSpec.represents decl p m tb -> GrantSpec.steady p -> dropped_room p ->
      pindex (process_id p) = Z.of_nat i -> app_ok i (Some (p, m), Some tb).

(** What serving does with a slot. *)
Inductive served (now : T) : app -> app -> Prop :=
  | served_skip sl : served now (sl, None) (sl, None)
  | served_keep p m m' tb : (forall e, exp_of tb = Some e -> expired now e = false) ->
      GrantSpec.represents decl p m' tb -> served now (Some (p, m), Some tb) (Some (p, m'), Some tb)
  | served_fire p m p' m' tb e t r : exp_of tb = Some e -> expired now e = true ->
      tb !! DRIVER_NUM = Some (g, t) ->
      schedule_upcall g (GrantSpec.t_upcalls t) ALARM_CALLBACK_NUM (justified now)
        (into_usize (exp_end e)) 0 p = Ret (r, p') ->
      GrantSpec.steady p' -> process_id p' = process_id p ->
      GrantSpec.represents decl p' m' (clear_exp tb) ->
      served now (Some (p, m), Some tb) (Some (p', m'), Some (clear_exp tb)).

(** The expirations that the iterator yields. *)
Definition item (a : app) : option (Expiration T * ProcessId) :=
  match a with
  | (Some (p, _), Some tb) => (fun e => (e, process_id p)) <$> exp_of tb
  | _ => None
  end.

Lemma table_grant p m tb g' t : GrantSpec.represents decl p m tb -> tb !! DRIVER_NUM = Some (g', t) -> g' = g.
Proof using Halarm.
  intros Hrep HT. destruct (GrantSpec.rep_holds _ _ _ _ Hrep _ _ _ HT) as [base Hh].
  pose proof (GrantSpec.h_decl _ _ _ _ _ _ _ Hh). congruence.
Qed.

Lemma allocated p m tb : GrantSpec.represents decl p m tb ->
  match tb !! DRIVER_NUM with
  | Some _ => grant_is_allocated grant_num p = Some true
  | None => grant_is_allocated grant_num p <> Some true
  end.
Proof using Hdecl Halarm.
  intros Hrep. destruct (tb !! DRIVER_NUM) as [ [g' t]|] eqn:HT.
  - pose proof (table_grant p m tb g' t Hrep HT) as ->.
    destruct (GrantSpec.rep_holds _ _ _ _ Hrep _ _ _ HT) as [base Hh].
    by destruct (GrantSpec.enter_managed decl Hdecl p m tb _ g t base Hrep HT Hh) as (_ & _ & _ & _ & ? & _).
  - intros Hal. destruct (GrantSpec.allocated_table decl Hdecl g p m tb Hrep Halarm Hal) as [t Ht].
    cbn in Ht. congruence.
Qed.

(** Reading a slot rewrites its data at most. *)
Inductive touched : app -> app -> Prop :=
  | touched_same a : touched a a
  | touched_live p m m' tb : GrantSpec.represents decl p m' tb ->
      touched (Some (p, m), Some tb) (Some (p, m'), Some tb).

Lemma same_slot i s (sl : slot) : processes s !! i = Some sl -> set_processes (<[i := sl]> (processes s)) s = s.
Proof using. intros Hi. rewrite list_insert_id by done. by destruct s. Qed.

Lemma set_same_data (tb : GrantSpec.tables) d g' t : tb !! d = Some (g', t) ->
  <[d := (g', GrantSpec.set_data (GrantSpec.t_data t) t)]> tb = tb.
Proof using. intros Ht. apply insert_id. rewrite Ht. by destruct t. Qed.

Lemma data_length p m tb g' t : GrantSpec.represents decl p m tb -> tb !! DRIVER_NUM = Some (g', t) ->
  length (GrantSpec.t_data t) = size_of.
Proof using Halarm AC.
  intros Hrep HT. pose proof (table_grant p m tb g' t Hrep HT) as ->.
  destruct (GrantSpec.rep_holds _ _ _ _ Hrep _ _ _ HT) as [base Hh].
  rewrite <- (GrantSpec.gi_data _ _ _ _ (GrantSpec.h_in _ _ _ _ _ _ _ Hh)).
  unfold read_bytes. rewrite length_map, length_seq. cbn. apply length_encode.
Qed.

Lemma next_expiration_spec i s a : processes s !! i = Some a.1 -> app_ok i a ->
  exists a1, next_expiration grant_num align i s = Ret (item a, set_processes (<[i := a1.1]> (processes s)) s) /\
    touched a a1.
Proof using AC Hdecl Halarm.
  intros Hi Hok. assert (Hskip : next_expiration grant_num align i s = Ret (item a, s) ->
    exists a1, next_expiration grant_num align i s
      = Ret (item a, set_processes (<[i := a1.1]> (processes s)) s) /\ touched a a1).
  { intros ->. exists a. split; [by rewrite same_slot|constructor]. }
  unfold next_expiration in *. rewrite Hi in *. destruct Hok as [|p m Hst|p m tb Hrep Hsteady Hroom Hidx]; cbn [fst] in *.
  - by apply Hskip.
  - apply Hskip. unfold grant_is_allocated. by rewrite Hst.
  - pose proof (allocated p m tb Hrep) as Hal. destruct (tb !! DRIVER_NUM) as [ [g' t]|] eqn:HT.
    + clear Hskip. rewrite Hal. pose proof (table_grant p m tb g' t Hrep HT) as ->.
      destruct (GrantSpec.access_grant_effect decl Hdecl
        (fun data _ _ _ p => Ret (expiration (decode data : AlarmData T), data, p)) g p m tb t true
        (expiration (decode (GrantSpec.t_data t) : AlarmData T)) (GrantSpec.t_data t) p Hrep HT)
        as (m' & -> & Hrep'); [done|rewrite (data_length p m tb g t Hrep HT); symmetry; apply length_encode|done|].
      rewrite set_same_data in Hrep' by done. cbn [obind of_option].
      exists (Some (p, m'), Some tb). split; [|by constructor].
      unfold item, exp_of. by rewrite HT.
    + apply Hskip. unfold item, exp_of. rewrite HT.
      destruct (grant_is_allocated grant_num p) as [ []|]; done.
Qed.

Lemma expired_handler_spec (now : T) i s p m tb e : in_range now ->
  processes s !! i = Some (Some (p, m)) -> app_ok i (Some (p, m), Some tb) -> exp_of tb = Some e ->
  expired now e = true ->
  exists a', expired_handler grant_num align now e (process_id p) s
      = Ret (None, set_processes (<[i := a'.1]> (processes s)) s) /\
    served now (Some (p, m), Some tb) a'.
Proof using AC Hdecl Halarm L iso.
  intros Hn Hi Hok He Hx. inversion Hok as [| |? ? ? Hrep Hst Hroom Hidx]; subst.
  unfold exp_of in He. destruct (tb !! DRIVER_NUM) as [ [g' t]|] eqn:HT; [|done].
  pose proof (table_grant p m tb g' t Hrep HT) as ->.
  pose proof (allocated p m tb Hrep) as Hal. rewrite HT in Hal.
  destruct (GrantSpec.schedule_upcall_effect g (GrantSpec.t_upcalls t) ALARM_CALLBACK_NUM p (justified now)
    (into_usize (exp_end e)) 0) as (r & p' & Hsch & Hwf' & Hsm & Hps & Hgs); [apply Hst|done|].
  pose proof (GrantSpec.same_memory_steady p p' Hst Hwf' Hsm) as Hst'.
  pose proof (GrantSpec.same_memory_grants p p' Hsm Hps) as Hsame.
  assert (Hid : process_id p' = process_id p) by apply Hsm.
  unfold expired_handler, app_enter, get_process. rewrite Hidx, Nat2Z.id, Hi, Z.eqb_refl.
  unfold grant_enter, process_grant_new. change (g_grant_num g) with grant_num. rewrite Hal. cbn [obind].
  destruct (GrantSpec.access_grant_effect decl Hdecl (fun _ upcalls _ _ p =>
      let! justified := into_u32_left_justified now in
      let! '(_, p) := schedule_upcall g upcalls ALARM_CALLBACK_NUM justified (into_usize (exp_end e)) 0 p in
      Ret (tt, encode (mkAlarmData (T := T) None), p)) g p m tb t true tt
      (encode (mkAlarmData (T := T) None)) p' Hrep HT) as (m' & -> & Hrep').
  - intros gs. rewrite into_u32_left_justified_ok by done. cbn [obind]. by rewrite Hgs.
  - cbn. by rewrite !length_encode.
  - done.
  - cbn [obind of_option]. exists (Some (p', m'), Some (clear_exp tb)). split; [by destruct s|].
    apply (served_fire now p m p' m' tb e t r); try done.
    + unfold exp_of. by rewrite HT.
    + unfold clear_exp. by rewrite HT.
Qed.

Lemma touched_ok i a a1 : app_ok i a -> touched a a1 -> app_ok i a1.
Proof using. intros Hok Ht. destruct Ht as [ |p m m' tb Hrep]; [done|]. inversion Hok; subst. by constructor. Qed.

Lemma touched_served (now : T) i a a1 : app_ok i a -> touched a a1 ->
  (forall e ud, item a = Some (e, ud) -> expired now e = false) -> served now a a1.
Proof using.
  intros Hok Ht He. assert (He' : forall p m tb, a = (Some (p, m), Some tb) ->
    forall e, exp_of tb = Some e -> expired now e = false).
  { intros p m tb -> e Hx. apply (He e (process_id p)). unfold item. by rewrite Hx. }
  destruct Ht as [a|p m m' tb Hrep].
  - destruct Hok; try constructor; by eauto.
  - constructor; [|done]. by apply (He' p m).
Qed.

Lemma touched_fire (now : T) a a1 a' : touched a a1 -> served now a1 a' -> served now a a'.
Proof using.
  intros Ht Hs. destruct Ht as [ |p m m' tb Hrep]; [done|]. inversion Hs; subst; econstructor; eassumption.
Qed.

Notation loop now := (earliest_loop now (expired_handler grant_num align now)).

(** One round of the loop. *)
Lemma round_spec (now : T) i s a thunks acc : in_range now -> processes s !! i = Some a.1 -> app_ok i a ->
  exists a', served now a a' /\
    loop now (next_expiration grant_num align i :: thunks) acc s =
    loop now thunks (pick now acc (option_list (item a))) (set_processes (<[i := a'.1]> (processes s)) s).
Proof using AC Hdecl Halarm L iso.
  intros Hn Hi Hok. cbn [earliest_loop].
  destruct (next_expiration_spec i s a Hi Hok) as (a1 & -> & Ht). cbn [obind].
  set (s1 := set_processes _ s). destruct (item a) as [ [e pid]|] eqn:Hit; [destruct (expired now e) eqn:Hx|].
  - destruct a as [ [ [p m]|] [tb|] ]; try done. cbn [item] in Hit.
    destruct (exp_of tb) as [e'|] eqn:He; [|done]. injection Hit as -> <-.
    assert (Ha1 : exists m1, a1 = (Some (p, m1), Some tb)) by (inversion Ht; subst; by eexists).
    destruct Ha1 as [m1 ->]. pose proof (touched_ok _ _ _ Hok Ht) as Hok1.
    destruct (expired_handler_spec now i s1 p m1 tb e Hn) as (a' & -> & Hserved); try done.
    { apply list_lookup_insert_eq. by apply lookup_lt_Some in Hi. }
    exists a'. split; [by apply (touched_fire now _ _ _ Ht)|]. cbn [obind]. f_equal.
    unfold s1. cbn. by rewrite list_insert_insert_eq.
  - exists a1. split; [|done]. apply (touched_served now i); try done.
    intros e' ud Hit'. rewrite Hit in Hit'. by injection Hit' as <- <-.
  - exists a1. split; [|done]. apply (touched_served now i); try done.
    intros e' ud Hit'. rewrite Hit in Hit'. discriminate Hit'.
Qed.

Lemma pick_app {UD} (now : T) (l1 l2 : list (Expiration T * UD)) acc : pick now acc (l1 ++ l2) = pick now (pick now acc l1) l2.
Proof using. apply foldl_app. Qed.

Lemma omap_item_cons a rest : omap item (a :: rest) = option_list (item a) ++ omap item rest.
Proof using. cbn. by destruct (item a). Qed.

Lemma earliest_loop_spec (now : T) : in_range now ->
  forall (rest : list app) (dn : list slot) acc s, processes s = dn ++ rest.*1 ->
  (forall j a, rest !! j = Some a -> app_ok (length dn + j) a) ->
  exists rest', loop now (map (next_expiration grant_num align) (seq (length dn) (length rest))) acc s
    = Ret (Ok (pick now acc (omap item rest)), set_processes (dn ++ rest'.*1) s) /\
    Forall2 (served now) rest rest'.
Proof using AC Hdecl Halarm L iso.
  intros Hn. induction rest as [|a rest IH]; intros dn acc s Hs Hok.
  - exists []. split; [|constructor]. cbn in *. rewrite <- Hs. by destruct s.
  - assert (Hok0 : app_ok (length dn) a) by (rewrite <- (Nat.add_0_r (length dn)); by apply Hok).
    assert (Hi : processes s !! length dn = Some a.1) by (rewrite Hs; by apply list_lookup_middle).
    cbn [length seq map].
    destruct (round_spec now (length dn) s a
      (map (next_expiration grant_num align) (seq (S (length dn)) (length rest))) acc Hn Hi Hok0)
      as (a' & Hserved & ->).
    set (s1 := set_processes _ s).
    assert (Hs1 : processes s1 = dn ++ a'.1 :: rest.*1).
    { unfold s1. cbn. rewrite Hs. by rewrite insert_app_r_alt, Nat.sub_diag by done. }
    rewrite omap_item_cons, pick_app.
    destruct (IH (dn ++ [a'.1]) (pick now acc (option_list (item a))) s1) as (rest' & E & Hall).
    + by rewrite Hs1, <- app_assoc.
    + intros j c Hj. rewrite length_app. cbn. rewrite <- Nat.add_assoc. by apply Hok.
    + rewrite length_app, Nat.add_1_r in E. exists (a' :: rest'). split; [|by constructor].
      rewrite E. f_equal. f_equal. rewrite <- app_assoc. by destruct s.
Qed.

(** The alarm after serving. *)
Definition rearmed (h : H) (x : option (Expiration T * ProcessId)) : H :=
  match x with
  | None => (hw_disarm h).2
  | Some (e, _) => hw_set_alarm (reference e) (dt e) h
  end.

Lemma process_rearm_spec s (apps : list app) x h : now (alarm s) = (x, h) -> in_range x ->
  processes s = apps.*1 -> (forall i a, apps !! i = Some a -> app_ok i a) ->
  exists apps', process_rearm_or_callback grant_num align s
    = Ret (mkSystem apps'.*1 (kernel s) (rearmed h (pick x None (omap item apps)))) /\
    Forall2 (served x) apps apps'.
Proof using AC Hdecl Halarm L iso.
  intros Hnow Hx Hs Hok. unfold process_rearm_or_callback, earliest_alarm, iter. rewrite Hnow.
  cbn [processes set_alarm_hw]. rewrite Hs, length_fmap.
  destruct (earliest_loop_spec x Hx apps [] None (set_alarm_hw h s)) as (apps' & E & Hall); [done|done|].
  cbn [length] in E. rewrite E. exists apps'. split; [|done]. cbn [obind].
  unfold rearmed. destruct (pick x None (omap item apps)) as [ [e pid]|]; by destruct s.
Qed.

(** An alarm that is left pending was pending before. *)
Lemma served_pending (now : T) apps apps' i p m tb e : Forall2 (served now) apps apps' ->
  apps' !! i = Some (Some (p, m), Some tb) -> exp_of tb = Some e ->
  (e, process_id p) ∈ omap item apps /\ expired now e = false.
Proof using AC.
  intros Hall Hi He. apply Forall2_lookup_r with (i := i) (y := (Some (p, m), Some tb)) in Hall as (a & Ha & Hs); [|done].
  inversion Hs as [|p0 m0 m' tb0 Hun Hrep|p0 m0 p' m' tb0 e0 t r He0 Hx0 HT]; subst.
  - split; [|by apply Hun]. apply list_elem_of_omap. exists (Some (p, m0), Some tb).
    split; [by apply list_elem_of_lookup_2 in Ha|]. cbn. by rewrite He.
  - unfold exp_of, clear_exp in He. rewrite HT, lookup_insert_eq in He. cbn in He. by rewrite decode_encode in He.
Qed.

(** * Time *)

Section time.
  Context {AL : AlarmLaws H T}.

(** The time a request stands for, when its reference lies in the past. *)
Definition deadline (t : Z) (e : Expiration T) : Z :=
  t - (t - val (reference e)) mod 2 ^ width + val (dt e).

Definition age (t : Z) (e : Expiration T) : Z := (t - val (reference e)) mod 2 ^ width.

Lemma remain_age (x : T) t e : val x = t mod 2 ^ width ->
  remain x e = (val (dt e) - age t e) mod 2 ^ width.
Proof using L.
  intros Hx. unfold remain, age, exp_end. rewrite val_add, Hx, Zminus_mod_idemp_l, !Zminus_mod_idemp_r.
  f_equal. lia.
Qed.

Lemma expired_age (x : T) t e : val x = t mod 2 ^ width -> in_range (dt e) ->
  expired x e = (val (dt e) <=? age t e).
Proof using L.
  intros Hx Hd. unfold expired, age, exp_end. rewrite within_spec, val_add, Hx, !Zminus_mod_idemp_l.
  replace (val (reference e) + val (dt e) - val (reference e)) with (val (dt e)) by lia.
  rewrite (Z.mod_small (val (dt e))) by done. by rewrite Z.leb_antisym.
Qed.

(** The alarm that is set for the earliest expiration [e] comes in time for any
    unexpired [f] that is due no earlier. *)
Lemma earliest_in_time (x : T) t0 t1 e f : val x = t0 mod 2 ^ width -> t0 <= t1 ->
  in_range (dt e) -> in_range (dt f) -> val (dt e) + (t1 - t0) < 2 ^ width ->
  expired x f = false -> remain x e <= remain x f ->
  t0 < deadline t0 f /\ deadline t1 e <= deadline t0 f.
Proof using L.
  intros Hx Ht He Hf Hroom Hun Hle. pose proof width_modulus as HM. set (M := 2 ^ width) in *.
  rewrite (expired_age x t0) in Hun by done. rewrite !(remain_age x t0) in Hle by done.
  unfold deadline, in_range in *. fold (age t0 f) (age t1 e). fold M in Hle, He, Hf.
  assert (Hae : 0 <= age t0 e < M) by (by apply Z.mod_pos_bound).
  assert (Haf : 0 <= age t0 f < M) by (by apply Z.mod_pos_bound).
  rewrite (Z.mod_small (val (dt f) - age t0 f)) in Hle by lia. split; [lia|].
  assert (Ha1 : age t1 e = (age t0 e + (t1 - t0)) mod M).
  { unfold age. rewrite Z.add_mod_idemp_l by lia. f_equal. lia. }
  destruct (Z.lt_ge_cases (age t0 e + (t1 - t0)) M) as [Hw|Hw].
  - rewrite Ha1, Z.mod_small by lia. destruct (Z.lt_ge_cases (age t0 e) (val (dt e))).
    + rewrite Z.mod_small in Hle by lia. lia.
    + lia.
  - assert (Ew : age t1 e = age t0 e + (t1 - t0) - M).
    { rewrite Ha1. symmetry. apply (Z.mod_unique _ _ 1); lia. }
    assert (Er : (val (dt e) - age t0 e) mod M = val (dt e) - age t0 e + M).
    { symmetry. apply (Z.mod_unique _ _ (-1)); lia. }
    lia.
Qed.

(** The hardware is armed soon enough for every alarm that stays pending. *)
Lemma rearmed_in_time (x : T) h apps apps' i p m tb e :
  val x = time h mod 2 ^ width -> Forall2 (served x) apps apps' ->
  let h' := rearmed h (pick x None (omap item apps)) in
  (forall f pid, (f, pid) ∈ omap item apps ->
     in_range (dt f) /\ val (dt f) + (time h' - time h) < 2 ^ width) ->
  apps' !! i = Some (Some (p, m), Some tb) -> exp_of tb = Some e ->
  time h < deadline (time h) e /\
  exists w, expiry h' = Some w /\ w <= Z.max (deadline (time h) e) (time h' + val (minimum_dt h)).
Proof using AC L.
  intros Hx Hall h' Hdt Hi He. destruct (served_pending x apps apps' i p m tb e Hall Hi He) as [Hin Hun].
  pose proof (pick_spec x (omap item apps) None) as Hpick. unfold h' in *.
  destruct (pick x None (omap item apps)) as [ [f pid]|]; [|destruct Hpick as [_ E0]; rewrite E0 in Hin; by apply elem_of_nil in Hin].
  destruct Hpick as [ [Hf|Hf] Hmin]; [done|]. cbn [rearmed] in *.
  destruct (Hdt f pid Hf) as [Hfd Hroom]. destruct (Hdt e _ Hin) as [Hed _].
  destruct (earliest_in_time x (time h) (time (hw_set_alarm (reference f) (dt f) h)) f e) as [H1 H2];
    try done; [apply set_time|apply (Hmin (e, process_id p)); by left|].
  split; [done|]. destruct (set_expiry (reference f) (dt f) h) as (w & Hw & Hle).
  exists w. split; [done|]. unfold deadline at 1 in H2. lia.
Qed.

End time.
(** * Commands *)

(** What a process has stored with the driver. *)
Definition data_of (tb : GrantSpec.tables) : AlarmData T :=
  match tb !! DRIVER_NUM with
  | Some (_, t) => decode (GrantSpec.t_data t)
  | None => alarm_default
  end.

Lemma exp_of_data tb : exp_of tb = expiration (data_of tb).
Proof using. unfold exp_of, data_of. by destruct (tb !! DRIVER_NUM) as [ [??]|]. Qed.

(** Entering the grant of a live process, which may have to be allocated first. *)
Lemma app_enter_live {R} (fun_ : closure R) (F : AlarmData T -> R * AlarmData T) i s p m tb :
  processes s !! i = Some (Some (p, m)) -> app_ok i (Some (p, m), Some tb) ->
  (forall data ups ros rws q, fun_ data ups ros rws q
     = Ret ((F (decode data)).1, encode (F (decode data)).2, q)) ->
  wf_data (F (data_of tb)).2 ->
  exists r p1 k1 m1 tb1, app_enter g (process_id p) fun_ s
      = Ret (r, put i (p1, m1) (set_kernel k1 s)) /\
    app_ok i (Some (p1, m1), Some tb1) /\ process_id p1 = process_id p /\ tasks p1 = tasks p /\
    match r with
    | Ok x => x = (F (data_of tb)).1 /\ data_of tb1 = (F (data_of tb)).2 /\
        forall d, d <> DRIVER_NUM -> tb1 !! d = tb !! d
    | Err _ => tb !! DRIVER_NUM = None /\ tb1 = tb
    end.
Proof using AC Hdecl Halarm iso.
  intros Hi Hok HF Hwf. inversion Hok as [| |? ? ? Hrep Hst Hroom Hidx]; subst.
  unfold app_enter, get_process. rewrite Hidx, Nat2Z.id, Hi, Z.eqb_refl. unfold grant_enter.
  destruct (GrantSpec.process_grant_new_refines decl Hdecl g p (kernel s) m tb Hrep Hst Halarm)
    as (r & p1 & k1 & m1 & Hnew & Hst1 & Hid1 & Htk1 & Hres).
  assert (Hroom1 : dropped_room p1).
  { unfold dropped_room. by rewrite (GrantSpec.process_grant_new_debug _ _ _ _ _ _ _ _ Hnew). }
  rewrite Hnew. cbn [obind]. destruct r as [ []|er].
  - destruct Hres as (t & Hrep1 & Hsrc). change (g_driver_num g) with DRIVER_NUM in *.
    assert (Hdata : decode (GrantSpec.t_data t) = data_of tb).
    { unfold data_of. destruct Hsrc as [->|(-> & -> & _)]; [done|]. by apply decode_encode. }
    destruct (GrantSpec.access_grant_effect decl Hdecl fun_ g p1 m1 _ t true (F (data_of tb)).1
      (encode (F (data_of tb)).2) p1 Hrep1) as (m2 & -> & Hrep2).
    + by rewrite lookup_insert_eq.
    + intros gs. by rewrite HF, Hdata.
    + cbn. by rewrite !length_encode.
    + done.
    + rewrite insert_insert_eq in Hrep2. cbn [obind of_option]. eexists _, p1, k1, m2, _. split; [done|].
      split; [constructor; try done; by rewrite Hid1|]. split; [done|]. split; [done|]. split; [done|]. split.
      * unfold data_of at 1. rewrite lookup_insert_eq. by apply decode_encode.
      * intros d Hd. by rewrite lookup_insert_ne.
  - destruct Hres as [HT Hrep1]. eexists _, p1, k1, m1, tb. split; [done|].
    split; [constructor; try done; by rewrite Hid1|]. done.
Qed.

(** * The contract *)

Section contract.
  Context {AL : AlarmLaws H T}.

(** Between [s] and [s'] the alarms of all processes were served. *)
Definition serves s (apps : list app) s' (apps' : list app) : Prop :=
  exists x h, now (alarm s) = (x, h) /\ processes s' = apps'.*1 /\ kernel s' = kernel s /\
    Forall2 (served x) apps apps' /\
    match omap item apps with
    | [] => alarm s' = (hw_disarm h).2
    | items => exists f pid, (f, pid) ∈ items /\ alarm s' = hw_set_alarm (reference f) (dt f) h /\
        forall e pid', (e, pid') ∈ items -> remain x f <= remain x e
    end /\
    forall i p m tb e, apps' !! i = Some (Some (p, m), Some tb) -> exp_of tb = Some e ->
      (forall f pid, (f, pid) ∈ omap item apps ->
         in_range (dt f) /\ val (dt f) + (time (alarm s') - time h) < 2 ^ width) ->
      time h < deadline (time h) e /\
      exists w, expiry (alarm s') = Some w /\
        w <= Z.max (deadline (time h) e) (time (alarm s') + val (minimum_dt h)).

Definition apps_ok s (apps : list app) : Prop :=
  processes s = apps.*1 /\ forall i a, apps !! i = Some a -> app_ok i a.

Lemma now_in_range (h h' : H) (x : T) : now h = (x, h') -> in_range x /\ val x = time h' mod 2 ^ width.
Proof using L.
  intros (_ & Hx & _)%now_spec. split; [|done]. unfold in_range. rewrite Hx.
  apply Z.mod_pos_bound, width_modulus.
Qed.

(** The alarm is armed for one of the stored expirations, if there is any. *)
Lemma rearmed_for (x : T) h (items : list (Expiration T * ProcessId)) :
  match items with
  | [] => rearmed h (pick x None items) = (hw_disarm h).2
  | _ => exists f pid, (f, pid) ∈ items /\ rearmed h (pick x None items) = hw_set_alarm (reference f) (dt f) h /\
      forall e pid', (e, pid') ∈ items -> remain x f <= remain x e
  end.
Proof using L.
  pose proof (pick_spec x items None) as Hpick. destruct items as [|it items]; [done|].
  destruct (pick x None (it :: items)) as [ [f pid]|]; [|by destruct Hpick as [_ ?] ].
  destruct Hpick as [ [?|Hf] Hmin]; [done|]. exists f, pid. split; [done|]. split; [done|].
  intros e pid' He. by apply (Hmin (e, pid')); left.
Qed.

Lemma process_rearm_serves s apps : apps_ok s apps ->
  exists s' apps', process_rearm_or_callback grant_num align s = Ret s' /\ serves s apps s' apps'.
Proof using AC Hdecl Halarm L iso.
  intros [Hs Hok]. destruct (now (alarm s)) as [x h] eqn:Hnow. destruct (now_in_range _ _ _ Hnow) as [Hx Hv].
  destruct (process_rearm_spec s apps x h Hnow Hx Hs Hok) as (apps' & E & Hall).
  eexists _, apps'. split; [exact E|]. exists x, h. split; [done|]. split; [done|]. split; [done|].
  split; [done|]. split; [pose proof (rearmed_for x h (omap item apps)) as Hr; by destruct (omap item apps)|]. intros i p m tb e Hi He Hdt. cbn [alarm] in *.
  by apply (rearmed_in_time x h apps apps' i p m tb e).
Qed.

Lemma apps_ok_insert s apps i p1 m1 tb1 h k : apps_ok s apps -> (i < length apps)%nat ->
  app_ok i (Some (p1, m1), Some tb1) ->
  apps_ok (set_alarm_hw h (put i (p1, m1) (set_kernel k s))) (<[i := (Some (p1, m1), Some tb1)]> apps).
Proof using.
  intros [Hs Hok] Hlt Hnew. split.
  - cbn. by rewrite Hs, list_fmap_insert.
  - intros j a [ (<- & <- & _)|[_ Ha]]%list_lookup_insert_Some; [done|by apply Hok].
Qed.

(** The requests of commands 5 and 6. *)
Definition request (cmd data data2 : Z) : option (option Z * Z) :=
  match cmd with
  | 5 => Some (None, data)
  | 6 => Some (Some data, data2)
  | _ => None
  end.

Lemma request_closure frequency (x : T) cmd data data2 ref d e t td : request cmd data data2 = Some (ref, d) ->
  rearm_u32_left_justified_expiration x ref d = Ret (e, t) ->
  command_closure frequency x cmd data data2 td = Ret (SuccessU32 t, true, mkAlarmData (Some e)).
Proof using.
  intros Hreq Hre. unfold request in Hreq.
  destruct cmd as [|cmd|]; try done. do 3 (destruct cmd as [cmd|cmd|]; try done);
    injection Hreq as <- <-; cbn; by rewrite Hre.
Qed.

Lemma command_serves frequency s apps i p m tb cmd data data2 ref d :
  apps_ok s apps -> apps !! i = Some (Some (p, m), Some tb) ->
  request cmd data data2 = Some (ref, d) ->
  (forall r, ref = Some r -> u32_range r) -> u32_range d -> d <= (2 ^ width - 1) * 2 ^ u32_padding ->
  exists ret s', command frequency grant_num align cmd data data2 (process_id p) s = Ret (ret, s') /\
    ((exists er, ret = command_failure er /\ tb !! DRIVER_NUM = None /\ alarm s' = alarm s) \/
     exists x h e t p1 m1 k1 tb1 apps',
       now (alarm s) = (x, h) /\ rearm_u32_left_justified_expiration x ref d = Ret (e, t) /\
       ret = SuccessU32 t /\ process_id p1 = process_id p /\ tasks p1 = tasks p /\ exp_of tb1 = Some e /\
       (forall d, d <> DRIVER_NUM -> tb1 !! d = tb !! d) /\
       serves (set_alarm_hw h (put i (p1, m1) (set_kernel k1 s)))
         (<[i := (Some (p1, m1), Some tb1)]> apps) s' apps').
Proof using AC Hdecl Halarm L iso.
  intros Happs Hi Hreq Hr Hd Hmax. pose proof Happs as [Hs Hok].
  destruct (now (alarm s)) as [x h] eqn:Hnow. destruct (now_in_range _ _ _ Hnow) as [Hx Hv].
  destruct (rearm_spec x ref d Hx Hr Hd Hmax) as (e & t & Hre & Hre1 & Hre2 & _).
  unfold command. rewrite Hnow.
  edestruct (app_enter_live (R := SyscallReturn * bool)) with
    (F := fun _ : AlarmData T => ((SuccessU32 t, true), mkAlarmData (Some e)))
    as (r & p1 & k1 & m1 & tb1 & E & Hok1 & Hid & Htk & Hres);
    [by rewrite Hs, list_lookup_fmap, Hi|by apply Hok| |by intros e' [= <-]|rewrite E; cbn [obind] ].
  { intros. cbv beta. by rewrite (request_closure _ _ _ _ _ ref d e t). }
  destruct r as [ [ret rearm]|er].
  - destruct Hres as ([= -> ->] & Hdata & Hother).
    set (s1 := set_alarm_hw h (put i (p1, m1) (set_kernel k1 s))).
    destruct (process_rearm_serves s1 (<[i := (Some (p1, m1), Some tb1)]> apps)) as (s' & apps' & E' & Hsv).
    { apply apps_ok_insert; [done|by apply lookup_lt_Some in Hi|done]. }
    rewrite E'. cbn [obind]. eexists _, s'. split; [done|]. right.
    exists x, h, e, t, p1, m1, k1, tb1, apps'. do 5 (split; [done|]). split; [|done].
    by rewrite exp_of_data, Hdata.
  - eexists _, _. split; [done|]. left. exists (errorcode_of_error er). by destruct Hres.
Qed.

End contract.
End serve.
(** C37: how requests are rounded.  For a counter of any width, any time and any
    32-bit request whose (left-justified) distance fits the counter,
    [rearm_u32_left_justified_expiration] returns; the distance is rounded up by less
    than one tick; without a reference the request starts now, and a reference is
    rounded down to a tick and stands for the latest time at or before now with these
    low bits, also when the counter is wider than 32 bits and its low half has wrapped
    since; the reported time is the sum of the two as a wrapping 32-bit value.  So the
    expiration is within one tick of the requested time, on either side: it never comes
    before it when there is no reference or the reference is a whole tick, and can come
    up to a tick early, against the comment in the code, when the reference is not
    ([uneven_reference_fires_early]). *)
Theorem alarm_request_rounded {T} `{L : TicksLaws T} (now : T) (ref : option Z) (d : Z) :
  in_range now -> (forall r, ref = Some r -> u32_range r) ->
  u32_range d -> d <= (2 ^ width - 1) * 2 ^ u32_padding ->
  exists e t, rearm_u32_left_justified_expiration now ref d = Ret (e, t) /\
    in_range (reference e) /\ in_range (dt e) /\
    (ref = None -> reference e = now) /\
    (forall r, ref = Some r -> justified (reference e) = r - r mod 2 ^ u32_padding /\
       (val now - val (reference e)) mod 2 ^ width < 2 ^ 32) /\
    d <= val (dt e) * 2 ^ u32_padding < d + 2 ^ u32_padding /\
    let due := justified (reference e) + val (dt e) * 2 ^ u32_padding in
    t = wrap32 due /\
    (forall r, ref = Some r -> r + d - 2 ^ u32_padding < due < r + d + 2 ^ u32_padding /\
       (r mod 2 ^ u32_padding = 0 -> r + d <= due)).
Proof.
  intros Hn Hr Hd Hmax. destruct (rearm_spec now ref d Hn Hr Hd Hmax) as (e & t & H1 & H2 & H3 & H4 & H5 & H6 & H7).
  exists e, t. do 6 (split; [done|]). split; [done|]. intros r Er. destruct (H5 r Er) as [-> _].
  pose proof (Z.mod_pos_bound r (2 ^ u32_padding) unit_pos). lia.
Qed.

(** C11: the alarm driver serves all processes.  The expirations live in the raw
    memory of the grants of the processes.  When the alarm fires, whatever the
    processes hold, the driver returns; every process whose expiration has passed at
    the time the clock was read gets its expiration cleared and its upcall scheduled
    (on the process as it was, with the current time and the time that was due); the
    grants of all other drivers, and processes that are not due, are unchanged;
    stopped processes are skipped.  If no process had stored an expiration when the
    driver started, the alarm is disarmed.  Otherwise it is armed for the expiration,
    among those stored at the start, with the least wrapping distance from now to its
    end; this can be one that has just been served, so that when all stored ones have
    passed the alarm is armed again, for a time that has passed, and not disarmed
    ([expired_can_be_earliest]).  For every expiration that is still pending the
    hardware is armed to fire by its deadline (or as soon as it can), provided that each
    stored distance, together with the time that passes while the driver runs, stays
    below the range of the counter. *)
Theorem alarm_driver_serves {T H hw config stored} `{L : TicksLaws T} `{!Alarm H T} {AL : AlarmLaws H T}
    {mpu : MPU hw config} {iso : MpuIsolation hw config} `{!Codec (AlarmData T)} `{AC : !AlarmCodec T}
    grant_num align decl (s : system H config stored) apps :
  GrantSpec.declared decl -> decl !! DRIVER_NUM = Some (alarm_grant T grant_num align) ->
  apps_ok decl s apps ->
  exists s' apps', alarm_fired grant_num align s = Ret s' /\ serves grant_num align decl s apps s' apps'.
Proof. intros Hdecl Halarm. by apply process_rearm_serves. Qed.

(** C12: setting an alarm takes effect.  When a live process asks for an alarm with
    command 5 or 6, and its distance fits the counter, the command returns.  It
    fails only for a process that has no grant of the driver yet and gets none, and
    then the alarm is untouched.  Otherwise it reports the time at which the
    request expires; the new expiration replaces the one in the grant of
    the process, no grant of another driver and no queue of upcalls changes, and then
    the alarms of all processes are served: the new one, too, either is due already
    and gets its upcall or the hardware is armed for it in time. *)
Theorem alarm_command_serves {T H hw config stored} `{L : TicksLaws T} `{!Alarm H T} {AL : AlarmLaws H T}
    {mpu : MPU hw config} {iso : MpuIsolation hw config} `{!Codec (AlarmData T)} `{AC : !AlarmCodec T}
    frequency grant_num align decl (s : system H config stored) apps i p m tb cmd data data2 ref d :
  GrantSpec.declared decl -> decl !! DRIVER_NUM = Some (alarm_grant T grant_num align) ->
  apps_ok decl s apps -> apps !! i = Some (Some (p, m), Some tb) ->
  request cmd data data2 = Some (ref, d) ->
  (forall r, ref = Some r -> u32_range r) -> u32_range d -> d <= (2 ^ width - 1) * 2 ^ u32_padding ->
  exists ret s', command frequency grant_num align cmd data data2 (process_id p) s = Ret (ret, s') /\
    ((exists er, ret = command_failure er /\ tb !! DRIVER_NUM = None /\ alarm s' = alarm s) \/
     exists x h e t p1 m1 k1 tb1 apps',
       now (alarm s) = (x, h) /\ rearm_u32_left_justified_expiration x ref d = Ret (e, t) /\
       ret = SuccessU32 t /\ process_id p1 = process_id p /\ tasks p1 = tasks p /\ exp_of tb1 = Some e /\
       (forall d, d <> DRIVER_NUM -> tb1 !! d = tb !! d) /\
       serves grant_num align decl (set_alarm_hw h (put i (p1, m1) (set_kernel k1 s)))
         (<[i := (Some (p1, m1), Some tb1)]> apps) s' apps').
Proof. intros Hdecl Halarm. by apply command_serves. Qed.

(** * Remarks on the documentation *)

(** A distance in the last tick of a 24-bit counter is rounded up to [2^24], which
    the conversion to ticks turns into 0: the alarm is due at once. *)
Lemma longest_request_fires_at_once :
  exists e t, rearm_u32_left_justified_expiration (mkTicks24 1337) None 0xffffff01 = Ret (e, t) /\
    t24 (dt e) = 0 /\ expired (mkTicks24 1337) e = true.
Proof. eexists _, _. by split. Qed.

(** A reference between two ticks is rounded down, by more than [dt] is rounded up:
    the alarm for [0x1ff + 0x100] is set for [0x200]. *)
Lemma uneven_reference_fires_early :
  exists e, rearm_u32_left_justified_expiration (mkTicks24 1) (Some 0x1ff) 0x100 = Ret (e, 0x200) /\
    0x200 < 0x1ff + 0x100.
Proof. eexists. by split. Qed.

(** An expiration that has passed can be the earliest one. *)
Lemma expired_can_be_earliest :
  let e := mkExpiration (mkTicks32 41) (mkTicks32 1) in
  expired (mkTicks32 42) e = true /\
  earliest_alarm (R := unit) (mkTicks32 42) (fun _ _ s => Ret (None, s)) [fun s : unit => Ret (Some (e, tt), s)] tt
    = Ret (Ok (Some (e, tt)), tt).
Proof. by split. Qed.

(** * Witnesses *)

(** A layout with a tag. *)
Definition le32 (v : Z) : list Z := [v mod U8; (v / 2 ^ 8) mod U8; (v / 2 ^ 16) mod U8; (v / 2 ^ 24) mod U8].
#[export] Instance codec32 : Codec (AlarmData Ticks32) := {|
  size_of := 12;
  encode td :=
    match expiration td with
    | None => replicate 12 0
    | Some e => [1; 0; 0; 0] ++ le32 (t32 (reference e)) ++ le32 (t32 (dt e))
    end;
  decode bs :=
    mkAlarmData (if bool_decide (bs !! 0%nat = Some 1) then
      Some (mkExpiration (mkTicks32 (from_le_bytes (take 4 (drop 4 bs))))
                         (mkTicks32 (from_le_bytes (drop 8 bs))))
    else None);
|}.

Lemma from_le32 v : u32_range v -> from_le_bytes (le32 v) = v.
Proof.
  unfold u32_range, U32, le32, from_le_bytes, U8. cbn [foldr]. intros Hv.
  change (2 ^ 8) with 256. change (2 ^ 16) with 65536. change (2 ^ 24) with 16777216. change (2 ^ 32) with 4294967296 in Hv.
  Z.to_euclidean_division_equations. lia.
Qed.

#[export] Instance alarm_codec32 : AlarmCodec Ticks32.
Proof.
  split.
  - intros [ [e|] ]; reflexivity.
  - intros [ [e|] ]; unfold bytes_ok; repeat constructor; unfold u8_range, U8; try lia; apply Z.mod_pos_bound; done.
  - intros [ [ [r d]|] ] Hwf; [|reflexivity]. destruct (Hwf _ eq_refl) as [Hr Hd].
    transitivity (mkAlarmData (Some (mkExpiration (mkTicks32 (from_le_bytes (le32 (t32 r))))
      (mkTicks32 (from_le_bytes (le32 (t32 d))))))); [reflexivity|].
    rewrite !from_le32 by done. by destruct r, d.
Qed.

Definition alarm_decl : gmap Z GrantType := {[ DRIVER_NUM := alarm_grant Ticks32 0 4 ]}.

Lemma alarm_declared : GrantSpec.declared alarm_decl.
Proof.
  unfold GrantSpec.declared, alarm_decl. split.
  - intros d g [<- <-]%lookup_singleton_Some. split; [reflexivity|].
    split; [done..|by exists 2|vm_compute; discriminate].
  - intros d d' g g' [<- _]%lookup_singleton_Some [<- _]%lookup_singleton_Some _. reflexivity.
Qed.

(** A process without grants and an empty slot, and a counter. *)
Definition demo_apps {stored config} (p : process stored config) : list (option (process stored config * memory) * option GrantSpec.tables) :=
  [(Some (p, ∅), Some ∅); (None, None)].
Definition demo_system {stored config} (p : process stored config) (k : Kernel) : system Counter config stored :=
  mkSystem (demo_apps p).*1 k demo_h.

Lemma demo_apps_ok p rest k h : demo_create = Ret (Ok (p, rest), k, h) ->
  apps_ok alarm_decl (demo_system p k) (demo_apps p).
Proof.
  intros E. destruct demo_created as (q & rest' & k' & h' & E' & Hwf & _ & Hr & _ & Htop & _).
  rewrite E in E'. injection E' as <- <- <- <-.
  destruct (demo_fresh p rest k h E) as (Hab & gs & Hg & Hz).
  assert (Hm : match demo_create with
      | Ret (Ok (q, _), _, _) => (pindex (process_id q) =? 0) &&
          match debug q with None => true | Some d => dropped_upcall_count d =? 0 end
      | _ => true end = true) by (vm_compute; reflexivity).
  rewrite E in Hm. apply andb_true_iff in Hm as [Hidx%Z.eqb_eq Hdbg]. clear E.
  split; [done|]. intros [|[|i] ] a Ha; simplify_eq/=; [|constructor].
  apply app_live; [by apply (GrantSpec.represents_empty _ _ _ gs)|done| |done].
  unfold dropped_room. destruct (debug p) as [d|]; [|done]. apply Z.eqb_eq in Hdbg. unfold U32. lia.
Qed.

Lemma alarm_request_rounded_witness :
  exists e t, rearm_u32_left_justified_expiration (mkTicks64 0xDEADBEEFCAFE) (Some 0xCAFEB0BA) 0x1BADB002 = Ret (e, t) /\
    t64 (dt e) = 0x1BADB002 /\ justified (reference e) = 0xCAFEB0BA.
Proof.
  destruct (alarm_request_rounded (mkTicks64 0xDEADBEEFCAFE) (Some 0xCAFEB0BA) 0x1BADB002)
    as (e & t & E & _ & _ & _ & Href & Hdt & _);
    [by split|by intros r [= <-]|by split|by vm_compute|].
  exists e, t. split; [exact E|]. destruct (Href _ eq_refl) as [Hj _]. cbn in Hdt. split; [|exact Hj].
  change (2 ^ u32_padding) with 1 in Hdt. cbn in Hdt. lia.
Defined.

Lemma alarm_driver_serves_witness :
  exists p rest k h, demo_create = Ret (Ok (p, rest), k, h) /\
  exists s' apps', alarm_fired (T := Ticks32) 0 4 (demo_system p k) = Ret s' /\
    serves (T := Ticks32) 0 4 alarm_decl (demo_system p k) (demo_apps p) s' apps'.
Proof.
  destruct demo_created as (p & rest & k & h & E & _). exists p, rest, k, h. split; [exact E|].
  apply (alarm_driver_serves (T := Ticks32) 0 4 alarm_decl (demo_system p k) (demo_apps p));
    [exact alarm_declared|reflexivity|exact (demo_apps_ok p rest k h E)].
Defined.

Lemma alarm_command_serves_witness :
  exists p rest k h, demo_create = Ret (Ok (p, rest), k, h) /\
  exists ret s', command (T := Ticks32) 32768 0 4 5 1000 0 (process_id p) (demo_system p k) = Ret (ret, s').
Proof.
  destruct demo_created as (p & rest & k & h & E & _). exists p, rest, k, h. split; [exact E|].
  destruct (alarm_command_serves (T := Ticks32) 32768 0 4 alarm_decl (demo_system p k) (demo_apps p) 0 p ∅ ∅
    5 1000 0 None 1000) as (ret & s' & Hrun & _);
    [exact alarm_declared|reflexivity|exact (demo_apps_ok p rest k h E)|reflexivity|reflexivity
    |discriminate|by split|by vm_compute|].
  exists ret, s'. exact Hrun.
Defined.

End AlarmDriverSpec.
