(* ===== verification/Ipc.v ===== *)
(** Inter-process communication ([kernel/src/ipc.rs]), module [Ipc]: a process shares
    a buffer with another one (read-write allow), notifies it (a task in the queue of
    the other process), and when that task is run the buffer is exposed to the
    notified process and its upcall is scheduled. *)

From stdpp Require Import base numbers list gmap.
From S2P Require Import Prelude Mpu Tbf Syscall Process Grant ProcessTable.
Import Mpu Syscall Proc Grant ProcessTable.
Local Open Scope Z_scope.

Module Ipc.

Definition DRIVER_NUM : Z := 0x10000.
(** [mod ro_allow] *)
Definition SEARCH : Z := 0.
Definition COUNT : Z := 1.

(** [Grant<IPCData, UpcallCount<NUM_PROCS>, AllowRoCount<COUNT>, AllowRwCount<NUM_PROCS>>];
    [IPCData] is a struct without fields. *)
Definition ipc_grant (grant_num : nat) (NUM_PROCS : Z) : GrantType :=
  mkGrantType grant_num DRIVER_NUM NUM_PROCS COUNT NUM_PROCS 1 [].

Section ipc.
  Context {D hw config stored : Type} {mpu : MPU hw config}.
  Context (grant_num : nat) (NUM_PROCS : Z).
  Notation proc := (process stored config).
  Notation g := (ipc_grant grant_num NUM_PROCS).
  Notation system := (system D config stored).
  Implicit Types (s : system) (p : proc).

(** [ptr] of a process buffer *)
Definition buffer_ptr (b : ProcessBuffer) : Z := if buf_len b =? 0 then 0 else buf_ptr b.

(** The innermost closure of [schedule_upcall]: [called_rw] are the buffers that the
    caller shares, [p] is the process that is called, whose upcalls are [upcalls]. *)
Definition deliver (schedule_on_id called_from_id : Z) (cb_type : IPCUpcallType)
    (called_rw : list SavedAllow) (called_from : proc) (upcalls : list SavedUpcall) p : outcome proc :=
  let! '(len, ptr, p) :=
    (match get_processbuffer called_rw schedule_on_id called_from with
     | Ok slice =>
       let! '(_, p) := add_mpu_region (buffer_ptr slice) (buf_len slice) (buf_len slice) p in
       Ret (buf_len slice, buffer_ptr slice, p)
     | Err _ => Ret (0, 0, p)
     end) in
  let to_schedule :=
    match cb_type with
    | IPCService => schedule_on_id
    | IPCClient => called_from_id
    end in
  let! '(_, p) := schedule_upcall g upcalls to_schedule called_from_id len ptr p in
  Ret p.

(** [schedule_upcall].  The grant of [schedule_on] is entered, and inside it that of
    [called_from]; while it is entered, the process that is called is [p]. *)
Definition ipc_schedule_upcall (schedule_on called_from : ProcessId) (cb_type : IPCUpcallType) s
    : outcome (result unit Error * system) :=
  match processid_index schedule_on s with
  | None => Ret (Err NoSuchApp, s)
  | Some schedule_on_id =>
    match processid_index called_from s with
    | None => Ret (Err NoSuchApp, s)
    | Some called_from_id =>
      if schedule_on_id =? called_from_id then Ret (Err AlreadyInUse, s)
      else match get_process schedule_on s with
      | None => Ret (Err NoSuchApp, s)
      | Some (p, m) =>
        let i := Z.to_nat (pindex schedule_on) in
        let! '(r, p, k, m) := process_grant_new g p (kernel s) m in
        let s := set_kernel k s in
        match r with
        | Err e => Ret (Err e, put i (p, m) s)
        | Ok _ =>
          let! '(o, p, m) :=
            access_grant g (fun data upcalls _ _ p =>
              let! '(r, s) :=
                app_enter g called_from (fun called_data _ _ called_rw q =>
                  let! p := deliver schedule_on_id called_from_id cb_type called_rw q upcalls p in
                  Ret (p, called_data, q)) s in
              match r with
              | Ok p => Ret ((Ok tt, s), data, p)
              | Err e => Ret ((Err e, s), data, p)
              end) true p m in
          let! '(r, s) := of_option o in
          Ret (r, put i (p, m) s)
        end
      end
    end
  end.

(** [enqueue_task] on the process at an index. *)
Definition notify (processid : ProcessId) (cb_type : IPCUpcallType) (target_id : Z) s
    : outcome (SyscallReturn * system) :=
  let other_process :=
    process_until (fun p =>
      match processid_index (process_id p) s with
      | Some i => if i =? target_id then Some (process_id p) else None
      | None => None
      end) s in
  match other_process with
  | None => Ret (command_failure INVAL, s)
  | Some otherapp =>
    match get_process otherapp s with
    | None => Ret (command_failure INVAL, s)
    | Some (target, m) =>
      let! '(ret, target) := enqueue_task (TIPC processid cb_type) target in
      let s := put (Z.to_nat (pindex otherapp)) (target, m) s in
      match ret with
      | Ok _ => Ret (command_success, s)
      | Err e => Ret (command_failure e, s)
      end
    end
  end.

Definition get_process_name p : list Z := default [] (Tbf.get_package_name (header p)).

(** The search of command 1 for the bytes [slice]. *)
Definition find_name (slice : list Z) s : SyscallReturn :=
  default (command_failure NODEVICE)
    (process_until (fun p =>
      if bool_decide (get_process_name p = slice) then
        (fun i => SuccessU32 i) <$> processid_index (process_id p) s
      else None) s).

(** The buffer with the name lies in the memory of the caller ([mem] while its grant
    is entered, which the search does not change). *)
Definition discover (processid : ProcessId) s : outcome (SyscallReturn * system) :=
  match get_process processid s with
  | None => Ret (command_failure NOMEM, s)
  | Some (_, mem) =>
    let! '(r, s') :=
      app_enter g processid (fun data _ ros _ q =>
        let reply :=
          match get_processbuffer ros SEARCH q with
          | Err _ => command_failure INVAL
          | Ok search => find_name (read_bytes mem (buf_ptr search) (Z.to_nat (buf_len search))) s
          end in
        Ret (reply, data, q)) s in
    match r with
    | Ok reply => Ret (reply, s')
    | Err _ => Ret (command_failure NOMEM, s')
    end
  end.

Definition command (command_number target_id : Z) (processid : ProcessId) s
    : outcome (SyscallReturn * system) :=
  match command_number with
  | 0 => Ret (command_success, s)
  | 1 => discover processid s
  | 2 => notify processid IPCService target_id s
  | 3 => notify processid IPCClient target_id s
  | _ => Ret (command_failure NOSUPPORT, s)
  end.

Definition allocate_grant (processid : ProcessId) s : outcome (result unit Error * system) :=
  app_enter g processid (fun data _ _ _ q => Ret (tt, data, q)) s.

End ipc.

End Ipc.
