(* ===== verification/IpcSpec.v ===== *)
(** What inter-process communication promises, module [IpcSpec]: a notification is
    one task in the queue of the notified process, and delivering it exposes to that
    process the buffer that the other one shares with it, and nothing else. *)

From stdpp Require Import base numbers list gmap relations.
From S2P Require Import Prelude RingBuffer Mpu CortexMpu Syscall Process ProcessInv ProcessSpec.
From S2P Require Import Confine Grant GrantSpec ProcessTable Ipc.
Import Ring Mpu Syscall Proc ProcInv ProcSpec Confine Grant ProcessTable.
Local Open Scope Z_scope.

Module IpcSpec.

Section spec.
  Context {D hw config stored : Type} {mpu : MPU hw config} {iso : MpuIsolation hw config}.
  Context (grant_num : nat) (NUM_PROCS : Z) (decl : gmap Z GrantType).
  Notation proc := (process stored config).
  Notation g := (Ipc.ipc_grant grant_num NUM_PROCS).
  Notation system := (system D config stored).
  Implicit Types (s : system) (p q : proc).

Context (Hdecl : GrantSpec.declared decl) (Hipc : decl !! Ipc.DRIVER_NUM = Some g).

(** * Finding processes *)

(** Every process sits at its index. *)
Definition placed s : Prop :=
  forall i p m, processes s !! i = Some (Some (p, m)) -> pindex (process_id p) = Z.of_nat i.

Lemma get_placed i p m s : placed s -> processes s !! i = Some (Some (p, m)) ->
  get_process (process_id p) s = Some (p, m).
Proof using.
  intros Hpl Hi. unfold get_process. by rewrite (Hpl i p m Hi), Nat2Z.id, Hi, Z.eqb_refl.
Qed.

Lemma index_placed i p m s : placed s -> processes s !! i = Some (Some (p, m)) ->
  processid_index (process_id p) s = Some (Z.of_nat i).
Proof using.
  intros Hpl Hi. unfold processid_index, processid_is_valid.
  by rewrite (Hpl i p m Hi), Nat2Z.id, Hi, Z.eqb_refl.
Qed.

(** A search for what only the process at one index has. *)
Lemma until_one {R} (f : proc -> option R) (l : list (option (proc * memory))) i :
  (forall j p m, l !! j = Some (Some (p, m)) -> j <> i -> f p = None) ->
  until_loop f l = match l !! i with Some (Some (p, _)) => f p | _ => None end.
Proof using.
  revert i. induction l as [|x l IH]; intros i Hf; [done|].
  destruct i as [|i].
  - assert (Hno : until_loop f l = None).
    { rewrite (IH (length l)) by (intros j p m Hj _; by apply (Hf (S j) p m)).
      by rewrite lookup_ge_None_2. }
    cbn. destruct x as [ [p m]|]; rewrite Hno; [by destruct (f p)|done].
  - assert (Hx : forall p m, x = Some (p, m) -> f p = None) by (intros p m ->; by apply (Hf 0%nat p m)).
    cbn [until_loop]. rewrite (IH i) by (intros j p m Hj Hne; apply (Hf (S j) p m); [done|congruence]).
    destruct x as [ [p m]|]; [|done]. by rewrite (Hx p m).
Qed.

(** * Notifications *)

Lemma notify_spec pid ty target s : placed s -> 0 <= target ->
  Ipc.notify pid ty target s =
  match processes s !! Z.to_nat target with
  | Some (Some (p, m)) =>
    let! '(r, p) := enqueue_task (TIPC pid ty) p in
    Ret (match r with Ok _ => command_success | Err e => command_failure e end,
         put (Z.to_nat target) (p, m) s)
  | _ => Ret (command_failure INVAL, s)
  end.
Proof using.
  intros Hpl Ht. unfold Ipc.notify, process_until. rewrite (until_one _ _ (Z.to_nat target)).
  - destruct (processes s !! Z.to_nat target) as [ [ [p m]|]|] eqn:Hi; [|done..].
    rewrite (index_placed _ _ _ _ Hpl Hi), Z2Nat.id, Z.eqb_refl by done.
    rewrite (get_placed _ _ _ _ Hpl Hi), (Hpl _ _ _ Hi), Nat2Z.id.
    destruct (enqueue_task _ p) as [ [ [ []|e] p']| |]; done.
  - intros j p m Hj Hne. rewrite (index_placed _ _ _ _ Hpl Hj).
    destruct (Z.eqb_spec (Z.of_nat j) target); [lia|done].
Qed.

(** * Delivery *)

Lemma ipc_allocated p m tb t : GrantSpec.represents decl p m tb -> tb !! Ipc.DRIVER_NUM = Some (g, t) ->
  grant_is_allocated grant_num p = Some true.
Proof using Hdecl.
  intros Hrep HT. destruct (GrantSpec.rep_holds _ _ _ _ Hrep _ _ _ HT) as [base Hh].
  by destruct (GrantSpec.enter_managed decl Hdecl p m tb _ g t base Hrep HT Hh) as (_ & _ & _ & _ & ? & _).
Qed.

Lemma set_same_table (tb : GrantSpec.tables) d g' t : tb !! d = Some (g', t) ->
  <[d := (g', GrantSpec.set_data (GrantSpec.t_data t) t)]> tb = tb.
Proof using. intros Ht. apply insert_id. rewrite Ht. by destruct t. Qed.

(** What comes within reach of a process lies in the given buffer. *)
Definition exposes_only p p' (ptr len : Z) : Prop :=
  forall a, reaches p' a -> reaches p a \/ ptr <= a < ptr + len.

Lemma add_mpu_region_set_grants u n k p gs :
  add_mpu_region u n k (set_grant_pointers gs p) =
  (let! '(r, p) := add_mpu_region u n k p in Ret (r, set_grant_pointers gs p)).
Proof using.
  unfold add_mpu_region. cbn [mpu_config set_grant_pointers]. destruct (mpu_config p) as [c|]; [|done].
  destruct (allocate_region _ _ _ _ c) as [ [ [reg|] c']| |]; cbn [obind]; [|done..].
  cbn [mpu_regions set_mpu_config set_grant_pointers]. by destruct (fill_slot reg (mpu_regions p)).
Qed.

(** The steps of the kernel on a process. *)
Lemma schedule_upcall_steps {ukb : UKB stored} CB PS fa upcalls n r0 r1 r2 p r p' (h : hw) k :
  schedule_upcall g upcalls n r0 r1 r2 p = Ret (r, p') ->
  rtc (step CB PS fa) (mkWorld p h k) (mkWorld p' h k).
Proof using.
  unfold schedule_upcall. destruct (upcalls !! Z.to_nat n); [|by intros [= <- <-]].
  unfold schedule. intros Hrun. apply obind_Ret in Hrun as ([er q] & He & [= <- <-]).
  apply rtc_once. destruct (fn_ptr _); by eapply step_enqueue.
Qed.

(** The buffer that is passed on. *)
Definition shared_ptr (saved : SavedAllow) : Z := if sa_len saved =? 0 then 0 else sa_ptr saved.
Definition to_schedule (ty : IPCUpcallType) (i j : nat) : Z :=
  match ty with IPCService => Z.of_nat i | IPCClient => Z.of_nat j end.

(** What delivery does to the notified process [p], at index [i], for the one at [j]. *)
Record delivered (ty : IPCUpcallType) (i j : nat) (saved : SavedAllow) (upcalls : list SavedUpcall) p p' : Prop :=
  mkDelivered {
  del_ops : exists r p1 r', add_mpu_region (shared_ptr saved) (sa_len saved) (sa_len saved) p = Ret (r, p1) /\
    schedule_upcall g upcalls (to_schedule ty i j) (Z.of_nat j) (sa_len saved) (shared_ptr saved) p1 = Ret (r', p');
  del_steady : GrantSpec.steady p';
  del_grants : GrantSpec.same_grants p p';
  del_id : process_id p' = process_id p;
  del_exposes : exposes_only p p' (shared_ptr saved) (sa_len saved);
}.

Lemma deliver_spec ty i j (saved : SavedAllow) rws q upcalls p :
  GrantSpec.steady p -> dropped_room p -> rws !! i = Some saved ->
  u32_range (sa_ptr saved) -> u32_range (sa_len saved) ->
  shared_ptr saved + sa_len saved <= memory_start p \/ memory_start p + memory_len p <= shared_ptr saved ->
  (forall c, mpu_config p = Some c ->
     returns (allocate_region (shared_ptr saved) (sa_len saved) (sa_len saved) ReadWriteOnly c)) ->
  exists p', delivered ty i j saved upcalls p p' /\
    forall gs gq, Ipc.deliver grant_num NUM_PROCS (Z.of_nat i) (Z.of_nat j) ty rws (set_grant_pointers gq q) upcalls
      (set_grant_pointers gs p) = Ret (set_grant_pointers gs p').
Proof using.
  intros Hst Hroom Hrw Hptr Hlen Hout Hret. pose proof Hst as (Hwf & Hmem & Hbrk).
  assert (Hu : u32_range (shared_ptr saved)) by (unfold shared_ptr; destruct (_ =? 0); done).
  assert (Hadd : exists r p1, add_mpu_region (shared_ptr saved) (sa_len saved) (sa_len saved) p = Ret (r, p1)).
  { unfold add_mpu_region. destruct (mpu_config p) as [c|]; [|by eexists _, _].
    destruct (Hret c eq_refl) as [ [ [reg|] c'] ->]; cbn [obind]; [|by eexists _, _].
    destruct (fill_slot _ _); by eexists _, _. }
  destruct Hadd as (r & p1 & Hadd).
  destruct (add_mpu_region_wf _ _ _ _ _ _ Hwf Hu Hlen Hout Hadd) as (Hwf1 & c & l & Ep1).
  assert (Hex : exposes_only p p1 (shared_ptr saved) (sa_len saved))
    by (intros a; by apply (add_region_reaches _ _ _ _ _ _ a Hwf Hu Hlen Hadd)).
  destruct (GrantSpec.schedule_upcall_effect g upcalls (to_schedule ty i j) p1 (Z.of_nat j) (sa_len saved)
    (shared_ptr saved)) as (r' & p' & Hsch & Hwf' & Hsm & Hps & Hgs); [done|by rewrite Ep1|].
  exists p'. split.
  - assert (Hst1 : GrantSpec.steady p1) by (split; [done|by rewrite Ep1]).
    pose proof (GrantSpec.same_memory_grants p1 p' Hsm Hps) as [G1 G2 G3 G4 G5].
    split; [by exists r, p1, r'|by apply (GrantSpec.same_memory_steady p1)| | |].
    + rewrite Ep1 in G1, G2, G3, G4, G5. by split.
    + destruct Hsm as (_ & _ & _ & _ & _ & _ & _ & _ & _ & -> & _). by rewrite Ep1.
    + intros a (c' & Hc' & Ha). apply Hex. exists c'. split; [|done].
      destruct Hsm as (_ & _ & _ & _ & _ & _ & _ & Hcfg & _). congruence.
  - intros gs gq. unfold Ipc.deliver, get_processbuffer, to_schedule in *. rewrite Nat2Z.id, Hrw.
    unfold Ipc.buffer_ptr. cbn [buf_len buf_ptr]. fold (shared_ptr saved).
    rewrite add_mpu_region_set_grants, Hadd. cbn [obind]. destruct ty; by rewrite Hgs.
Qed.

(** A process whose grant of the driver holds [t]. *)
Record peer s (i : nat) p (m : memory) (tb : GrantSpec.tables) (t : GrantSpec.table) : Prop := mkPeer {
  peer_slot : processes s !! i = Some (Some (p, m));
  peer_tables : GrantSpec.represents decl p m tb;
  peer_grant : tb !! Ipc.DRIVER_NUM = Some (g, t);
}.

Lemma peer_data s i p m tb t : peer s i p m tb t -> length (GrantSpec.t_data t) = 0%nat.
Proof using.
  intros [_ Hrep HT]. destruct (GrantSpec.rep_holds _ _ _ _ Hrep _ _ _ HT) as [base Hh].
  rewrite <- (GrantSpec.gi_data _ _ _ _ (GrantSpec.h_in _ _ _ _ _ _ _ Hh)). done.
Qed.

(** Entering the grant of a process that is not changed. *)
Lemma enter_peer s i p m tb t : placed s -> peer s i p m tb t ->
  exists m', GrantSpec.represents decl p m' tb /\
    forall R (fun_ : closure R) res,
      (forall gs, fun_ (GrantSpec.t_data t) (GrantSpec.t_upcalls t) (GrantSpec.t_ros t) (GrantSpec.t_rws t)
         (set_grant_pointers gs p) = Ret (res, GrantSpec.t_data t, set_grant_pointers gs p)) ->
      app_enter g (process_id p) fun_ s = Ret (Ok res, put i (p, m') s).
Proof using Hdecl.
  intros Hpl Hpeer. pose proof Hpeer as [Hi Hrep HT].
  destruct (GrantSpec.access_grant_at decl Hdecl g p m tb t Hrep HT) as [a Ha].
  exists (write_bytes a (GrantSpec.t_data t) m). split.
  - destruct (Ha unit (fun data _ _ _ q => Ret (tt, data, q)) true tt (GrantSpec.t_data t) p) as [_ Hrep'];
      [done|apply (peer_data s i p m tb t Hpeer)|done|]. by rewrite set_same_table in Hrep'.
  - intros R fun_ res Hf. unfold app_enter.
    rewrite (get_placed i p m s Hpl Hi), (Hpl i p m Hi), Nat2Z.id.
    unfold grant_enter, process_grant_new. change (g_grant_num g) with grant_num.
    rewrite (ipc_allocated p m tb t Hrep HT). cbn [obind].
    destruct (Ha R fun_ true res (GrantSpec.t_data t) p) as [-> _];
      [done|apply (peer_data s i p m tb t Hpeer)|done|]. cbn [obind of_option]. by destruct s.
Qed.

Lemma schedule_upcall_delivers ty s i j p m tb t q mq tbq tq saved :
  placed s -> i <> j -> peer s i p m tb t -> peer s j q mq tbq tq ->
  GrantSpec.steady p -> dropped_room p -> GrantSpec.t_rws tq !! i = Some saved ->
  u32_range (sa_ptr saved) -> u32_range (sa_len saved) ->
  shared_ptr saved + sa_len saved <= memory_start p \/ memory_start p + memory_len p <= shared_ptr saved ->
  (forall c, mpu_config p = Some c ->
     returns (allocate_region (shared_ptr saved) (sa_len saved) (sa_len saved) ReadWriteOnly c)) ->
  exists p' m' mq', Ipc.ipc_schedule_upcall grant_num NUM_PROCS (process_id p) (process_id q) ty s
      = Ret (Ok tt, put i (p', m') (put j (q, mq') s)) /\
    delivered ty i j saved (GrantSpec.t_upcalls t) p p' /\
    GrantSpec.represents decl p' m' tb /\ GrantSpec.represents decl q mq' tbq.
Proof using Hdecl.
  intros Hpl Hne Hp Hq Hst Hroom Hrw Hptr Hlen Hout Hret. pose proof Hp as [Hi Hrep HT]. pose proof Hq as [Hj _ _].
  destruct (deliver_spec ty i j saved (GrantSpec.t_rws tq) q (GrantSpec.t_upcalls t) p)
    as (p' & Hdel & Hrun); try done.
  destruct (enter_peer s j q mq tbq tq Hpl Hq) as (mq' & Hrepq & Henter).
  destruct (GrantSpec.access_grant_effect decl Hdecl (fun data upcalls _ _ p =>
      let! '(r, s) :=
        app_enter g (process_id q) (fun called_data _ _ called_rw q =>
          let! p := Ipc.deliver grant_num NUM_PROCS (Z.of_nat i) (Z.of_nat j) ty called_rw q upcalls p in
          Ret (p, called_data, q)) s in
      match r with
      | Ok p => Ret ((Ok tt, s), data, p)
      | Err e => Ret ((Err e, s), data, p)
      end) g p m tb t true (Ok tt, put j (q, mq') s) (GrantSpec.t_data t) p' Hrep HT) as (m' & Hacc & Hrep').
  { intros gs. rewrite (Henter _ _ (set_grant_pointers gs p')); [done|]. intros gq. by rewrite Hrun. }
  { apply (peer_data s i p m tb t Hp). }
  { apply Hdel. }
  rewrite set_same_table in Hrep' by done. exists p', m', mq'. split; [|done].
  unfold Ipc.ipc_schedule_upcall. rewrite (index_placed i p m s), (index_placed j q mq s) by done.
  destruct (Z.eqb_spec (Z.of_nat i) (Z.of_nat j)); [lia|].
  rewrite (get_placed i p m s Hpl Hi), (Hpl i p m Hi), Nat2Z.id. unfold process_grant_new.
  change (g_grant_num g) with grant_num. rewrite (ipc_allocated p m tb t Hrep HT). cbn [obind].
  assert (Hk : set_kernel (kernel s) s = s) by (by destruct s).
  rewrite Hk, Hacc. done.
Qed.

Lemma delivered_steps {ukb : UKB stored} CB PS fa ty i j saved upcalls p p' (h : hw) k :
  u32_range (sa_ptr saved) -> u32_range (sa_len saved) ->
  shared_ptr saved + sa_len saved <= memory_start p \/ memory_start p + memory_len p <= shared_ptr saved ->
  delivered ty i j saved upcalls p p' -> rtc (step CB PS fa) (mkWorld p h k) (mkWorld p' h k).
Proof using.
  intros Hptr Hlen Hout Hdel. destruct (del_ops _ _ _ _ _ _ _ Hdel) as (r & p1 & r' & Hadd & Hsch).
  eapply rtc_l; [eapply step_add_region; [| |exact Hout|exact Hadd]; [unfold shared_ptr; by destruct (_ =? 0)|done]|].
  by eapply schedule_upcall_steps.
Qed.

End spec.

(** C13: delivering a notification shares the buffer and nothing else.  The process
    [q] has shared a buffer of its memory with the process [p] and notified it.  If
    the MPU driver does not panic on the buffer, [schedule_upcall] returns; the MPU
    configuration of [p] then exposes what it did before and, besides that, only bytes
    of the shared buffer, which lie in the app memory of [q]; the upcall that [p] has
    registered for [q] (or for its service) is scheduled on [p] with the index of [q],
    the length and the address of the buffer; nothing else of [p] changes, nothing of
    [q], and no grant of any driver.  All of it is a sequence of the operations
    that the isolation of processes is proved for. *)
Theorem ipc_shares_buffer {D hw config stored} {mpu : MPU hw config} {iso : MpuIsolation hw config}
    {ukb : UKB stored} CB PS fa grant_num NUM_PROCS decl ty (s : system D config stored)
    i j p m tb t q mq tbq tq saved :
  GrantSpec.declared decl -> decl !! Ipc.DRIVER_NUM = Some (Ipc.ipc_grant grant_num NUM_PROCS) ->
  placed s -> i <> j -> peer grant_num NUM_PROCS decl s i p m tb t -> peer grant_num NUM_PROCS decl s j q mq tbq tq ->
  GrantSpec.steady p -> dropped_room p ->
  GrantSpec.t_rws tq !! i = Some saved -> u32_range (sa_ptr saved) -> u32_range (sa_len saved) ->
  (0 < sa_len saved -> memory_start q <= sa_ptr saved /\ sa_ptr saved + sa_len saved <= app_break q <= memory_start q + memory_len q) ->
  memory_start q + memory_len q <= memory_start p \/ memory_start p + memory_len p <= memory_start q ->
  (forall c, mpu_config p = Some c ->
     returns (allocate_region (shared_ptr saved) (sa_len saved) (sa_len saved) ReadWriteOnly c)) ->
  exists p' m' mq', Ipc.ipc_schedule_upcall grant_num NUM_PROCS (process_id p) (process_id q) ty s
      = Ret (Ok tt, put i (p', m') (put j (q, mq') s)) /\
    delivered grant_num NUM_PROCS ty i j saved (GrantSpec.t_upcalls t) p p' /\
    GrantSpec.represents decl p' m' tb /\ GrantSpec.represents decl q mq' tbq /\
    (forall a, reaches p' a -> reaches p a \/ memory_start q <= a < app_break q) /\
    (forall (h : hw) k, rtc (step CB PS fa) (mkWorld p h k) (mkWorld p' h k)).
Proof.
  intros Hdecl Hipc Hpl Hne Hp Hq Hst Hroom Hrw Hptr Hlen Hbuf Hdis Hret.
  pose proof Hst as (Hwf & _). pose proof (wf_start p Hwf) as H0. pose proof (wf_len p Hwf) as Hl0.
  assert (Hout : shared_ptr saved + sa_len saved <= memory_start p \/
    memory_start p + memory_len p <= shared_ptr saved).
  { unfold shared_ptr. destruct (Z.eqb_spec (sa_len saved) 0) as [->|Hn]; [lia|].
    destruct Hlen as [Hlen0 _]. destruct Hbuf; lia. }
  destruct (schedule_upcall_delivers grant_num NUM_PROCS decl Hdecl ty s i j p m tb t q mq tbq tq saved)
    as (p' & m' & mq' & E & Hdel & Hrep & Hrepq); try done.
  exists p', m', mq'. split; [exact E|]. split; [done|]. split; [done|]. split; [done|]. split.
  - intros a [?|Ha]%(del_exposes _ _ _ _ _ _ _ _ _ Hdel); [by left|right]. unfold shared_ptr in Ha.
    destruct (Z.eqb_spec (sa_len saved) 0) as [E0|Hn]; [lia|]. destruct Hlen as [Hlen0 _]. destruct Hbuf; lia.
  - intros h k. by apply (delivered_steps grant_num NUM_PROCS CB PS fa ty i j saved (GrantSpec.t_upcalls t)).
Qed.

(** C34: a notification is one task.  On a table in which every process sits at its
    index, commands 2 and 3 with the index of a process append exactly one task, with
    the caller and the kind of the notification, to the queue of that process, behind
    everything pending there; when the queue is full or the process is not active they
    report the error and the queue is unchanged.  Nothing else of that process and no other
    process changes.  An index without a process is refused with [INVAL]. *)
Theorem ipc_notify_queues {D hw config stored} {mpu : MPU hw config} {iso : MpuIsolation hw config}
    grant_num NUM_PROCS cmd ty target pid (s : system D config stored) :
  placed s -> 0 <= target -> (cmd = 2 /\ ty = IPCService) \/ (cmd = 3 /\ ty = IPCClient) ->
  (forall p m, processes s !! Z.to_nat target = Some (Some (p, m)) -> wf p /\ dropped_room p) ->
  match processes s !! Z.to_nat target with
  | Some (Some (p, m)) =>
    exists (r : result unit ErrorCode) p' ts ts', Ipc.command grant_num NUM_PROCS cmd target pid s
        = Ret (match r with Ok _ => command_success | Err e => command_failure e end,
               put (Z.to_nat target) (p', m) s) /\
      wf p' /\ same_memory p p' /\ state p' = state p /\ tasks p = Some ts /\ tasks p' = Some ts' /\
      match r with
      | Ok _ => is_running p = true /\ contents ts' = contents ts ++ [TIPC pid ty]
      | Err NODEVICE => is_running p = false /\ p' = p
      | Err e => e = NOMEM /\ contents ts' = contents ts /\ S (length (contents ts)) = length (ring ts)
      end
  | _ => Ipc.command grant_num NUM_PROCS cmd target pid s = Ret (command_failure INVAL, s)
  end.
Proof.
  intros Hpl Ht Hcmd Hwf.
  assert (E : Ipc.command grant_num NUM_PROCS cmd target pid s = Ipc.notify pid ty target s)
    by (by destruct Hcmd as [ [-> ->]|[-> ->] ]).
  rewrite E, notify_spec by done. destruct (processes s !! Z.to_nat target) as [ [ [p m]|]|]; [|done..].
  destruct (Hwf p m eq_refl) as [Hwfp Hroom].
  destruct (enqueue_task_returns (TIPC pid ty) p Hwfp Hroom) as [ [r p'] Hrun]. rewrite Hrun. cbn [obind].
  apply enqueue_task_spec in Hrun as (Hwf' & Hsm & Hst & ts & ts' & Ht0 & Ht1 & _ & Hr); [|done].
  exists r, p', ts, ts'. do 6 (split; [done|]). done.
Qed.

(** * Witnesses *)

(** Two processes, in blocks of their own, with an IPC grant each. *)
Notation demo_g := (Ipc.ipc_grant 0 2).
Definition ipc_decl : gmap Z GrantType := {[ Ipc.DRIVER_NUM := demo_g ]}.
Definition ipc_create (ptr idx : Z) :=
  create 280 400 (replicate 10 demo_task) demo_pb (ptr, 65536) idx demo_kernel demo_hw.

#[local] Strategy 1000 [ipc_create].

Lemma ipc_declared : GrantSpec.declared ipc_decl.
Proof.
  unfold GrantSpec.declared, ipc_decl. split.
  - intros d g [<- <-]%lookup_singleton_Some. split; [reflexivity|].
    split; [done..|by exists 0|vm_compute; discriminate].
  - intros d d' g g' [<- _]%lookup_singleton_Some [<- _]%lookup_singleton_Some _. reflexivity.
Qed.

(** What creating a process gives, and the grant allocated in it. *)
Definition created := outcome (result (process unit CortexM.CortexMConfig * (Z * Z)) (ProcessLoadError * (Z * Z))
  * Kernel * CortexM.Mpu).
Definition with_grant (c : created) : option (process unit CortexM.CortexMConfig * memory) :=
  match c with
  | Ret (Ok (p, _), k, _) =>
    match process_grant_new demo_g p k ∅ with
    | Ret (Ok _, p1, _, m1) => Some (p1, m1)
    | _ => None
    end
  | _ => None
  end.
Notation ipc_made ptr idx := (with_grant (ipc_create ptr idx)).

(** What evaluation shows of a created process. *)
Definition sound (c : created) : bool :=
  match c with
  | Ret (Ok (p, _), _, _) => is_running p && (memory_len p =? 8192)
      && (memory_start p + memory_len p <=? 2 ^ 31) && (memory_start p <? app_break p)
      && match grant_pointers p with Some gs => forallb (fun e => grant_ptr e =? 0) gs | None => false end
      && match debug p with None => true | Some d => dropped_upcall_count d =? 0 end
  | _ => false
  end.
Notation ipc_checks ptr idx := (sound (ipc_create ptr idx)).

Lemma with_grant_peer (c : created) p1 m1 : sound c = true -> with_grant c = Some (p1, m1) ->
  (forall p r k h, c = Ret (Ok (p, r), k, h) -> memory_len p = 8192 -> wf p) ->
  GrantSpec.represents ipc_decl p1 m1 {[ Ipc.DRIVER_NUM := (demo_g, GrantSpec.fresh_table demo_g) ]} /\
  GrantSpec.steady p1 /\ dropped_room p1.
Proof.
  intros Hck Hmade Hwf0. unfold sound, with_grant in *.
  destruct c as [ [ [ [ [p rest]|e] k] h]| |]; try discriminate Hck.
  rewrite !andb_true_iff, Z.leb_le, Z.ltb_lt, Z.eqb_eq in Hck. destruct Hck as [ [ [ [ [Hr Hl] Htop] Hab] Hgs] Hdbg].
  destruct (grant_pointers p) as [gs|] eqn:Hg; [|discriminate Hgs].
  assert (Hz : Forall (fun e => grant_ptr e = 0) gs).
  { apply Forall_forall. intros e He. rewrite forallb_forall in Hgs. apply Z.eqb_eq, Hgs. by apply list_elem_of_In. }
  destruct (GrantSpec.process_grant_new_refines ipc_decl ipc_declared demo_g p k ∅ ∅)
    as (r & p2 & k2 & m2 & Hnew & Hst & _ & _ & Hres).
  { exact (GrantSpec.represents_empty _ _ _ gs Hr Hg Hz). }
  { split; [exact (Hwf0 _ _ _ _ eq_refl Hl)|]. split; [exact Htop|exact Hab]. }
  { reflexivity. }
  rewrite Hnew in Hmade. destruct r as [ []|]; [|discriminate Hmade]. injection Hmade as -> ->.
  destruct Hres as (t & Hrep & [HT|(_ & -> & _)]); [by rewrite lookup_empty in HT|].
  split; [exact Hrep|]. split; [exact Hst|]. unfold dropped_room.
  rewrite (GrantSpec.process_grant_new_debug _ _ _ _ _ _ _ _ Hnew).
  destruct (debug p) as [d|]; [|done]. apply Z.eqb_eq in Hdbg. unfold U32. lia.
Qed.

Lemma created_wf ptr idx p r k h : 0 <= ptr -> ptr + 65536 < U32 ->
  ipc_create ptr idx = Ret (Ok (p, r), k, h) -> memory_len p = 8192 -> wf p.
Proof.
  intros Hptr Hend E Hl. destruct demo_inputs as [H1 H2 H3 H4 _ _ _ H8 H9 H10]. unfold ipc_create in E.
  assert (H65 : 0 <= 65536) by lia.
  assert (Hroom : has_room 280 400 demo_kernel p).
  { intros n Hn. rewrite Hl. vm_compute in Hn. injection Hn as <-.
    change (CortexM.enabled_bytes 32 8192 <= 8192 - 724). vm_compute. discriminate. }
  by destruct (create_spec 280 400 H1 H2 H3 _ _ _ _ _ _ _ _ _ _ _ H4 Hptr H65 Hend H8 H9 H10 Hroom E) as [? _].
Qed.

Lemma ipc_made_peer ptr idx p1 m1 : 0 <= ptr -> ptr + 65536 < U32 -> ipc_checks ptr idx = true ->
  ipc_made ptr idx = Some (p1, m1) ->
  GrantSpec.represents ipc_decl p1 m1 {[ Ipc.DRIVER_NUM := (demo_g, GrantSpec.fresh_table demo_g) ]} /\
  GrantSpec.steady p1 /\ dropped_room p1.
Proof.
  intros Hptr Hend Hck Hmade. apply (with_grant_peer (ipc_create ptr idx)); [exact Hck|exact Hmade|].
  intros p r k h E Hl. exact (created_wf ptr idx p r k h Hptr Hend E Hl).
Qed.

Definition block_p : Z := 536887296.
Definition block_q : Z := 536952832.

(** Where the two processes are, and that the buffer at the start of [q] can be
    exposed to [p]. *)
Definition ipc_pair_checks : bool :=
  match ipc_made block_p 0, ipc_made block_q 1 with
  | Some (p, _), Some (q, _) =>
    (pindex (process_id p) =? 0) && (pindex (process_id q) =? 1)
    && (memory_start p + memory_len p <=? memory_start q) && (memory_start q =? block_q)
    && (block_q + 32 <=? app_break q) && (app_break q <=? memory_start q + memory_len q)
    && match mpu_config p with
       | Some c => match allocate_region block_q 32 32 ReadWriteOnly c with Ret (Some _, _) => true | _ => false end
       | None => false
       end
  | _, _ => false
  end.

Lemma ipc_pair_ok : ipc_checks block_p 0 = true /\ ipc_checks block_q 1 = true /\ ipc_pair_checks = true.
Proof. split; [|split]; vm_compute; reflexivity. Qed.

Definition demo_table : GrantSpec.table :=
  GrantSpec.set_rw 0 (mkSavedAllow block_q 32) (GrantSpec.fresh_table demo_g).

(** The two processes; [q] shares 32 bytes with [p]. *)
Lemma ipc_pair : exists p m q mq,
  let s : system unit _ unit := mkSystem [Some (p, m); Some (q, mq)] demo_kernel tt in
  placed s /\
  peer 0 2 ipc_decl s 0 p m {[ Ipc.DRIVER_NUM := (demo_g, GrantSpec.fresh_table demo_g) ]} (GrantSpec.fresh_table demo_g) /\
  peer 0 2 ipc_decl s 1 q mq {[ Ipc.DRIVER_NUM := (demo_g, demo_table) ]} demo_table /\
  GrantSpec.steady p /\ dropped_room p /\
  memory_start p + memory_len p <= memory_start q /\ memory_start q = block_q /\
  block_q + 32 <= app_break q <= memory_start q + memory_len q /\
  forall c, mpu_config p = Some c -> returns (allocate_region block_q 32 32 ReadWriteOnly c).
Proof.
  destruct ipc_pair_ok as (Hp & Hq & Hpq). unfold ipc_pair_checks in Hpq.
  destruct (ipc_made block_p 0) as [ [p m]|] eqn:Ep; [|discriminate Hpq].
  destruct (ipc_made block_q 1) as [ [q mq]|] eqn:Eq; [|discriminate Hpq].
  rewrite !andb_true_iff, !Z.leb_le, !Z.eqb_eq in Hpq.
  destruct Hpq as [ [ [ [ [ [Hip Hiq] Hdis] Hst] Hbuf] Hbrk] Hal].
  destruct (ipc_made_peer block_p 0 p m) as (Hrp & Hsp & Hdp); [discriminate|reflexivity|exact Hp|exact Ep|].
  destruct (ipc_made_peer block_q 1 q mq) as (Hrq & _ & _); [discriminate|reflexivity|exact Hq|exact Eq|].
  clear Ep Eq Hp Hq.
  pose proof (GrantSpec.allow_rw_refines ipc_decl ipc_declared q mq _ Ipc.DRIVER_NUM 0
    (mkProcessBuffer block_q 32 (process_id q)) Hrq) as Hallow.
  destruct (GrantSpec.spec_swap _ _ _ _ _ _) as [r T] eqn:Hsw. destruct Hallow as (mq' & Hrq' & _);
    [discriminate|split; split; discriminate || reflexivity|].
  unfold GrantSpec.spec_swap in Hsw. rewrite lookup_singleton_eq in Hsw.
  change (GrantSpec.t_rws (GrantSpec.fresh_table demo_g) !! Z.to_nat 0) with (Some (mkSavedAllow 0 0)) in Hsw.
  injection Hsw as _ <-. rewrite insert_singleton_eq in Hrq'.
  exists p, m, q, mq'. split; [|split; [|split; [|split; [exact Hsp|split; [exact Hdp|split; [exact Hdis|split; [exact Hst|split; [split; [exact Hbuf|exact Hbrk]|] ] ] ] ] ] ] ].
  - intros [|[|i] ] p0 m0 Hi; cbn in Hi; [injection Hi as -> ->; exact Hip|injection Hi as -> ->; exact Hiq|discriminate Hi].
  - split; [reflexivity|exact Hrp|apply lookup_singleton_eq].
  - split; [reflexivity|exact Hrq'|apply lookup_singleton_eq].
  - intros c Hc. rewrite Hc in Hal.
    destruct (allocate_region block_q 32 32 ReadWriteOnly c) as [x| |]; [by exists x|discriminate Hal..].
Qed.

Lemma ipc_shares_buffer_witness : exists p m q mq,
  let s : system unit _ unit := mkSystem [Some (p, m); Some (q, mq)] demo_kernel tt in
  exists p' m' mq', Ipc.ipc_schedule_upcall 0 2 (process_id p) (process_id q) IPCService s
      = Ret (Ok tt, put 0 (p', m') (put 1 (q, mq') s)) /\
    delivered 0 2 IPCService 0 1 (mkSavedAllow block_q 32) (replicate 2 (mkSavedUpcall 0 None)) p p'.
Proof.
  destruct ipc_pair as (p & m & q & mq & Hpl & Hp & Hq & Hst & Hroom & Hdis & Hstart & Hbrk & Hret).
  exists p, m, q, mq. cbv zeta.
  destruct (ipc_shares_buffer 280 400 demo_fault 0 2 ipc_decl IPCService
    (mkSystem [Some (p, m); Some (q, mq)] demo_kernel tt) 0 1 p m _ _ q mq _ _ (mkSavedAllow block_q 32)
    ipc_declared eq_refl Hpl ltac:(discriminate) Hp Hq Hst Hroom) as (p' & m' & mq' & E & Hdel & _).
  - reflexivity.
  - by split.
  - by split.
  - intros _. cbn [sa_ptr sa_len]. rewrite Hstart. unfold block_q in *. lia.
  - right. exact Hdis.
  - exact Hret.
  - exists p', m', mq'. split; [exact E|exact Hdel].
Defined.

Lemma ipc_notify_queues_witness : exists p m q mq,
  let s : system unit _ unit := mkSystem [Some (p, m); Some (q, mq)] demo_kernel tt in
  Ipc.command 0 2 3 7 (process_id q) s = Ret (command_failure INVAL, s) /\
  exists (r : result unit ErrorCode) p', Ipc.command 0 2 3 0 (process_id q) s
    = Ret (match r with Ok _ => command_success | Err e => command_failure e end, put 0 (p', m) s).
Proof.
  destruct ipc_pair as (p & m & q & mq & Hpl & _ & _ & [Hwf _] & Hroom & _).
  exists p, m, q, mq. cbv zeta. split.
  - apply (ipc_notify_queues 0 2 3 IPCClient 7 (process_id q)
      (mkSystem [Some (p, m); Some (q, mq)] demo_kernel tt) Hpl); [discriminate|by right|intros; discriminate].
  - destruct (ipc_notify_queues 0 2 3 IPCClient 0 (process_id q)
      (mkSystem [Some (p, m); Some (q, mq)] demo_kernel tt) Hpl) as (r & p' & _ & _ & E & _);
      [discriminate|by right| |exists r, p'; exact E].
    intros p0 m0 H0. cbn in H0. injection H0 as <- <-. split; [exact Hwf|exact Hroom].
Defined.

End IpcSpec.
