(* ===== verification/Leasable.v ===== *)
(** Leasable buffers ([kernel/src/utilities/leasable_buffer.rs]), module [Leasable]: a
    buffer of which a window is accessible.  Layers narrow the window before they pass
    the buffer on, and the owner resets it. *)

From stdpp Require Import base numbers list.
From S2P Require Import Prelude.
Local Open Scope Z_scope.

Module Leasable.

(** [core::ops::Bound] *)
Inductive Bound := Included (n : Z) | Excluded (n : Z) | Unbounded.

Section model.
  Context {T : Type}.

(** [SubSliceMut] and [SubSlice], which differ in what the borrow of [internal] permits. *)
Record SubSlice := mkSubSlice {
  internal : list T;
  active_start : Z;
  active_end : Z;
}.
Implicit Type s : SubSlice.

(** [&l[start..end]] *)
Definition slice_range (l : list T) (start end_ : Z) : outcome (list T) :=
  if (start <=? end_) && (end_ <=? Z.of_nat (length l)) then
    Ret (take (Z.to_nat (end_ - start)) (drop (Z.to_nat start) l))
  else Panic.

Definition new (buffer : list T) : SubSlice := mkSubSlice buffer 0 (Z.of_nat (length buffer)).
Definition active_slice s : outcome (list T) := slice_range (internal s) (active_start s) (active_end s).
Definition take_ s : list T := internal s.
Definition reset s : SubSlice := mkSubSlice (internal s) 0 (Z.of_nat (length (internal s))).
Definition len s : outcome Z := let! a := active_slice s in Ret (Z.of_nat (length a)).
(** [base]: the address of the buffer, [size]: the size of an element. *)
Definition as_ptr (base size : Z) s : outcome Z :=
  let! _ := active_slice s in Ret (base + size * active_start s).
Definition as_slice s : outcome (list T) := active_slice s.
Definition is_sliced s : outcome bool :=
  let! n := len s in Ret (negb (Z.of_nat (length (internal s)) =? n)).

Definition slice (start_bound end_bound : Bound) s : outcome SubSlice :=
  let! start := match start_bound with
                | Included n => Ret n
                | Excluded n => add32 n 1
                | Unbounded => Ret 0
                end in
  let! end_ := match end_bound with
               | Included n => add32 n 1
               | Excluded n => Ret n
               | Unbounded => sub32 (active_end s) (active_start s)
               end in
  let! new_start := add32 (active_start s) start in
  let! d := sub32 end_ start in
  let! new_end := add32 new_start d in
  Ret (mkSubSlice (internal s) new_start new_end).

(** [Index] and [IndexMut], with an index that is a number. *)
Definition index_at (idx : Z) s : outcome T :=
  let! a := active_slice s in index a (Z.to_nat idx).
Definition write_at (idx : Z) (v : T) s : outcome SubSlice :=
  let! a := active_slice s in
  let! _ := set_index a (Z.to_nat idx) v in
  Ret (mkSubSlice (<[Z.to_nat (active_start s + idx) := v]> (internal s)) (active_start s) (active_end s)).

Inductive SubSliceMutImmut := Immutable (buf : SubSlice) | Mutable (buf : SubSlice).
Definition either_reset (e : SubSliceMutImmut) : SubSliceMutImmut :=
  match e with Immutable buf => Immutable (reset buf) | Mutable buf => Mutable (reset buf) end.
Definition either_len (e : SubSliceMutImmut) : outcome Z :=
  match e with Immutable buf | Mutable buf => len buf end.
Definition either_slice (sb eb : Bound) (e : SubSliceMutImmut) : outcome SubSliceMutImmut :=
  match e with
  | Immutable buf => let! buf := slice sb eb buf in Ret (Immutable buf)
  | Mutable buf => let! buf := slice sb eb buf in Ret (Mutable buf)
  end.
Definition either_index (idx : Z) (e : SubSliceMutImmut) : outcome T :=
  match e with Immutable buf | Mutable buf => index_at idx buf end.

(** * Windows *)

(** The buffer is [before ++ act ++ after], and [act] is accessible. *)
Record lease s (before act after : list T) : Prop := mkLease {
  le_internal : internal s = before ++ act ++ after;
  le_start : active_start s = Z.of_nat (length before);
  le_end : active_end s = Z.of_nat (length before + length act);
  le_small : Z.of_nat (length (internal s)) < U32;
}.

Lemma lease_new buffer : Z.of_nat (length buffer) < U32 -> lease (new buffer) [] buffer [].
Proof using. intros Hl. split; cbn; rewrite ?app_nil_r; done. Qed.

Lemma lease_active s b a c : lease s b a c -> active_slice s = Ret a.
Proof using.
  intros [Hi Hs He Hl]. unfold active_slice, slice_range. rewrite Hs, He, Hi.
  rewrite !length_app. destruct (Z.leb_spec (Z.of_nat (length b)) (Z.of_nat (length b + length a))); [|lia].
  destruct (Z.leb_spec (Z.of_nat (length b + length a)) (Z.of_nat (length b + (length a + length c)))); [|lia].
  cbn [andb]. rewrite Nat2Z.id, drop_app_length. do 2 f_equal.
  replace (Z.to_nat _) with (length a) by lia. apply take_app_length.
Qed.

Lemma lease_length s b a c : lease s b a c -> Z.of_nat (length b + length a + length c) < U32.
Proof using. intros [Hi _ _ Hl]. rewrite Hi, !length_app in Hl. lia. Qed.

(** What a pair of bounds means for [n] elements. *)
Definition resolve (sb eb : Bound) (n : Z) : Z * Z :=
  (match sb with Included x => x | Excluded x => x + 1 | Unbounded => 0 end,
   match eb with Included x => x + 1 | Excluded x => x | Unbounded => n end).
Definition in_range (sb eb : Bound) (n : Z) : Prop :=
  let '(x, y) := resolve sb eb n in 0 <= x <= y /\ y <= n.

(** The same bounds on any part of the buffer from the window's start on. *)
Lemma slice_lease s b a c sb eb x y : lease s b a c -> resolve sb eb (Z.of_nat (length a)) = (x, y) ->
  0 <= x <= y -> y <= Z.of_nat (length a + length c) ->
  exists s', slice sb eb s = Ret s' /\
    lease s' (b ++ take (Z.to_nat x) (a ++ c)) (take (Z.to_nat (y - x)) (drop (Z.to_nat x) (a ++ c)))
      (drop (Z.to_nat y) (a ++ c)).
Proof using.
  intros Hle Hr Hx Hy. pose proof (lease_length _ _ _ _ Hle) as Hlen. destruct Hle as [Hi Hs He Hl].
  unfold resolve in Hr. injection Hr as Hrx Hry. unfold slice.
  assert (E1 : match sb with Included n => Ret n | Excluded n => add32 n 1 | Unbounded => Ret 0 end = Ret x).
  { destruct sb; [by rewrite Hrx| |by rewrite Hrx]. unfold add32. rewrite checked32_ok by (unfold u32_range; lia). by rewrite Hrx. }
  assert (E2 : match eb with Included n => add32 n 1 | Excluded n => Ret n
      | Unbounded => sub32 (active_end s) (active_start s) end = Ret y).
  { destruct eb; [|by rewrite Hry|]; unfold add32, sub32; rewrite ?Hs, ?He; rewrite checked32_ok by (unfold u32_range; lia);
      f_equal; lia. }
  rewrite E1, E2, Hs. cbn [obind]. unfold add32, sub32.
  do 3 (rewrite checked32_ok by (unfold u32_range; lia); cbn [obind]).
  eexists. split; [reflexivity|].
  assert (Hac : length (a ++ c) = (length a + length c)%nat) by apply length_app.
  split; cbn [internal active_start active_end].
  - rewrite Hi, <- app_assoc. f_equal. rewrite <- (take_drop (Z.to_nat x) (a ++ c)) at 1. f_equal.
    rewrite <- (take_drop (Z.to_nat (y - x)) (drop _ (a ++ c))) at 1. f_equal. rewrite drop_drop. f_equal. lia.
  - rewrite length_app, length_take, Hac. lia.
  - rewrite !length_app, !length_take, length_drop, Hac. lia.
  - by rewrite Hi in Hl |- *.
Qed.

Lemma slice_narrows s b a c sb eb : lease s b a c -> in_range sb eb (Z.of_nat (length a)) ->
  exists s' b' a' c', slice sb eb s = Ret s' /\ lease s' (b ++ b') a' (c' ++ c) /\ a = b' ++ a' ++ c' /\
    (Z.of_nat (length b'), Z.of_nat (length b' + length a')) = resolve sb eb (Z.of_nat (length a)).
Proof using.
  intros Hle Hin. unfold in_range in Hin. destruct (resolve sb eb _) as [x y] eqn:Hr. destruct Hin as [Hx Hy].
  destruct (slice_lease s b a c sb eb x y Hle Hr Hx) as (s' & Hs & Hle'); [lia|].
  exists s', (take (Z.to_nat x) a), (take (Z.to_nat (y - x)) (drop (Z.to_nat x) a)), (drop (Z.to_nat y) a).
  split; [done|]. rewrite take_app_le, drop_app_le, drop_app_le, take_app_le in Hle' by (rewrite ?length_drop; lia).
  split; [done|]. split.
  - rewrite <- (take_drop (Z.to_nat x) a) at 1. f_equal.
    rewrite <- (take_drop (Z.to_nat (y - x)) (drop _ a)) at 1. f_equal. rewrite drop_drop. f_equal. lia.
  - rewrite !length_take, length_drop. f_equal; lia.
Qed.

Lemma write_lease s b a c i v : lease s b a c -> 0 <= i < Z.of_nat (length a) ->
  exists s', write_at i v s = Ret s' /\ lease s' b (<[Z.to_nat i := v]> a) c.
Proof using.
  intros Hle Hi. unfold write_at. rewrite (lease_active _ _ _ _ Hle). cbn [obind].
  rewrite set_index_ok by lia. cbn [obind]. eexists. split; [reflexivity|].
  destruct Hle as [Hin Hs He Hl]. split; cbn [internal active_start active_end].
  - rewrite Hin, Hs. replace (Z.to_nat _) with (length b + Z.to_nat i)%nat by lia.
    rewrite insert_app_r, insert_app_l by lia. done.
  - done.
  - by rewrite length_insert.
  - by rewrite length_insert.
Qed.

Lemma write_panics s b a c i v : lease s b a c -> Z.of_nat (length a) <= i -> write_at i v s = Panic.
Proof using.
  intros Hle Hi. unfold write_at. rewrite (lease_active _ _ _ _ Hle). cbn [obind]. unfold set_index.
  destruct (Nat.ltb_spec (Z.to_nat i) (length a)); [lia|done].
Qed.

(** * What layers do with a lease *)

Inductive use := Slice (sb eb : Bound) | Write (i : Z) (v : T).
Definition run_use (u : use) s : outcome SubSlice :=
  match u with Slice sb eb => slice sb eb s | Write i v => write_at i v s end.
Fixpoint run_uses (us : list use) s : outcome SubSlice :=
  match us with [] => Ret s | u :: us => let! s := run_use u s in run_uses us s end.

(** Each range and index within the window of [n] elements that is left. *)
Fixpoint allowed (n : Z) (us : list use) : Prop :=
  match us with
  | [] => True
  | Slice sb eb :: us => in_range sb eb n /\ let '(x, y) := resolve sb eb n in allowed (y - x) us
  | Write i _ :: us => 0 <= i < n /\ allowed n us
  end.

Lemma run_uses_lease us : forall s b a c, lease s b a c -> allowed (Z.of_nat (length a)) us ->
  exists s' b' a' c', run_uses us s = Ret s' /\ lease s' (b ++ b') a' (c' ++ c) /\
    length (b' ++ a' ++ c') = length a.
Proof using.
  induction us as [|[sb eb|i v] us IH]; intros s b a c Hle Hal; cbn [run_uses run_use allowed] in *.
  - exists s, [], a, []. split; [done|]. rewrite !app_nil_r. done.
  - destruct Hal as [Hin Hal].
    destruct (slice_narrows s b a c sb eb Hle Hin) as (s1 & b1 & a1 & c1 & -> & Hle1 & Ha & Hr).
    rewrite <- Hr in Hal. cbn [obind].
    destruct (IH s1 (b ++ b1) a1 (c1 ++ c) Hle1) as (s' & b' & a' & c' & Hrun & Hle' & Hl).
    { replace (Z.of_nat (length a1)) with (Z.of_nat (length b1 + length a1) - Z.of_nat (length b1)) by lia. done. }
    exists s', (b1 ++ b'), a', (c' ++ c1). rewrite <- !app_assoc in *. split; [done|]. split; [done|].
    rewrite Ha. rewrite !length_app in *. lia.
  - destruct Hal as [Hi Hal]. destruct (write_lease s b a c i v Hle Hi) as (s1 & -> & Hle1). cbn [obind].
    destruct (IH s1 b _ c Hle1) as (s' & b' & a' & c' & Hrun & Hle' & Hl); [by rewrite length_insert|].
    exists s', b', a', c'. rewrite length_insert in Hl. done.
Qed.

Lemma reset_lease s b a c : lease s b a c -> lease (reset s) [] (b ++ a ++ c) [].
Proof using.
  intros [Hi Hs He Hl]. split; cbn [reset internal active_start active_end]; rewrite ?app_nil_r; try done.
  by rewrite Hi.
Qed.

End model.
Arguments SubSlice : clear implicits.
Arguments use : clear implicits.

(** C33: a lease is paid back.  The window [act] of a buffer is passed on, between
    [before] and [after].  Layers may narrow it further, any number of times and in any
    form of range, and write to what is left of it: as long as ranges and indices are
    within what is left, nothing panics, what is accessible stays inside [act], and when
    the owner resets the buffer, the whole of it is accessible again, with its length, and
    with [before] and [after] as they were. *)
Theorem lease_paid_back {T} (us : list (use T)) s before act after :
  lease s before act after -> allowed (Z.of_nat (length act)) us ->
  exists s' b' a' c', run_uses us s = Ret s' /\ active_slice s' = Ret a' /\
    as_slice (reset s') = Ret (before ++ (b' ++ a' ++ c') ++ after) /\
    take_ s' = before ++ (b' ++ a' ++ c') ++ after /\ length (b' ++ a' ++ c') = length act.
Proof.
  intros Hle Hal. destruct (run_uses_lease us s before act after Hle Hal) as (s' & b' & a' & c' & Hrun & Hle' & Hl).
  exists s', b', a', c'. split; [done|]. split; [by eapply lease_active|].
  pose proof (lease_active _ _ _ _ (reset_lease _ _ _ _ Hle')) as Hr.
  assert (E : (before ++ b') ++ a' ++ c' ++ after = before ++ (b' ++ a' ++ c') ++ after) by (by rewrite <- !app_assoc).
  rewrite E in Hr. split; [exact Hr|]. split; [|done]. unfold take_. by rewrite (le_internal _ _ _ _ Hle'), E.
Qed.

(** Of [1 .. 6], the window [2; 3; 4; 5] is narrowed to [4; 5], of which one is written. *)
Lemma lease_paid_back_witness :
  exists s s' b' a' c', slice (Included 1) (Included 4) (new [1; 2; 3; 4; 5; 6]) = Ret s /\
    run_uses [Slice (Excluded 1) Unbounded; Write 1 9] s = Ret s' /\ active_slice s' = Ret a' /\
    as_slice (reset s') = Ret ([1] ++ (b' ++ a' ++ c') ++ [6]) /\
    take_ s' = [1] ++ (b' ++ a' ++ c') ++ [6] /\ length (b' ++ a' ++ c') = 4%nat.
Proof.
  eexists.
  assert (Hle : lease (mkSubSlice [1; 2; 3; 4; 5; 6] 1 5) [1] [2; 3; 4; 5] [6]) by (split; reflexivity).
  destruct (lease_paid_back [Slice (Excluded 1) Unbounded; Write 1 9] _ _ _ _ Hle) as (s' & b' & a' & c' & H).
  { cbn. unfold in_range. cbn. lia. }
  exists s', b', a', c'. split; [reflexivity|exact H].
Defined.

(** [slice] does not check its end against the window: a layer that was given the first
    elements of a buffer gets at those behind them, although the documentation says
    that [slice] reduces what is accessible. *)
Lemma slice_widens {T} (s : SubSlice T) before act after n : lease s before act after ->
  Z.of_nat (length act) < n <= Z.of_nat (length act + length after) ->
  exists s', slice (Included 0) (Excluded n) s = Ret s' /\
    active_slice s' = Ret (act ++ take (Z.to_nat n - length act) after).
Proof.
  intros Hle Hn. destruct (slice_lease s before act after (Included 0) (Excluded n) 0 n) as (s' & Hs & Hle');
    [done|done|lia|lia|]. exists s'. split; [done|]. rewrite (lease_active _ _ _ _ Hle'). f_equal.
  rewrite drop_0, Z.sub_0_r, take_app. rewrite take_ge by lia. done.
Qed.

End Leasable.
