(* ===== verification/ProcessBuffers.v ===== *)
(** Process buffers ([kernel/src/processbuffer.rs]), module [ProcessBuffers]: how drivers
    reach the memory that processes share with them.  A buffer is checked to be alive
    each time it is entered; the closure of the driver then works on a slice, a window
    on the cells of process memory. *)

From stdpp Require Import base numbers list gmap relations.
From S2P Require Import Prelude Mpu CortexMpu Syscall Process ProcessInv ProcessSpec Grant GrantSpec ProcessTable.
Import Mpu Syscall Proc ProcInv ProcSpec Grant GrantSpec ProcessTable.
Local Open Scope Z_scope.

Module ProcessBuffers.

(** * Slices

    [ReadableProcessSlice] and [WriteableProcessSlice]: a run of cells of the memory of
    a process, by the address of the first and their number.  The memory is an argument
    of the operations that read or write it, so slices alias as references do. *)
Record ProcessSlice := mkProcessSlice { base : Z; size : Z }.
Implicit Types (sl : ProcessSlice) (m : memory).

(** [NonNull::<u8>::dangling()] *)
Definition dangling : Z := 1.
Definition raw_processbuf_to_processslice (ptr len : Z) : ProcessSlice :=
  if len =? 0 then mkProcessSlice dangling 0 else mkProcessSlice ptr len.

Definition slice_len sl : Z := size sl.
(** [iter]: the addresses of the cells. *)
Definition iter sl : list Z := map (fun i => base sl + Z.of_nat i) (seq 0 (Z.to_nat (size sl))).

(** [get], [get_from], [get_to] *)
Definition get (start end_ : Z) sl : option ProcessSlice :=
  if (start <=? end_) && (end_ <=? size sl) then Some (mkProcessSlice (base sl + start) (end_ - start))
  else None.
Definition get_from (start : Z) sl : option ProcessSlice :=
  if start <=? size sl then Some (mkProcessSlice (base sl + start) (size sl - start)) else None.
Definition get_to (end_ : Z) sl : option ProcessSlice :=
  if end_ <=? size sl then Some (mkProcessSlice (base sl) end_) else None.

(** [Index] with a range, and with a number: the address of a cell. *)
Definition index_range (start end_ : Z) sl : outcome ProcessSlice := of_option (get start end_ sl).
Definition index_to (end_ : Z) sl : outcome ProcessSlice := index_range 0 end_ sl.
Definition index_from (start : Z) sl : outcome ProcessSlice := index_range start (slice_len sl) sl.
Definition index_cell (idx : Z) sl : outcome Z := if idx <? size sl then Ret (base sl + idx) else Panic.

(** [chunks]: the slices the iterator gives, in order. *)
Fixpoint chunks_loop (fuel : nat) (chunk_size : Z) sl : list ProcessSlice :=
  match fuel with
  | O => []
  | S fuel =>
    if size sl =? 0 then []
    else
      let n := Z.min chunk_size (size sl) in
      mkProcessSlice (base sl) n :: chunks_loop fuel chunk_size (mkProcessSlice (base sl + n) (size sl - n))
  end.
Definition chunks (chunk_size : Z) sl : outcome (list ProcessSlice) :=
  if chunk_size =? 0 then Panic else Ret (chunks_loop (Z.to_nat (size sl)) chunk_size sl).

(** [Cell::get] and [Cell::set] of the cell at an address. *)
Definition cell_get (a : Z) m : Z := load8 m a.
Definition cell_set (a v : Z) m : memory := <[a := v]> m.

(** ** Copies *)

(** [for (i, b) in self.slice.iter().enumerate() { dest[i] = b.get(); }] *)
Fixpoint enumerate_loop (i : nat) (cells : list Z) m (dest : list Z) : outcome (list Z) :=
  match cells with
  | [] => Ret dest
  | b :: cells => let! dest := set_index dest i (cell_get b m) in enumerate_loop (S i) cells m dest
  end.
Definition ro_copy_to_slice_or_err sl m (dest : list Z) : outcome (result unit ErrorCode * list Z) :=
  if negb (slice_len sl =? Z.of_nat (length dest)) then Ret (Err SIZE, dest)
  else let! dest := enumerate_loop 0 (iter sl) m dest in Ret (Ok tt, dest).
Definition ro_copy_to_slice sl m (dest : list Z) : outcome (list Z) :=
  let! '(r, dest) := ro_copy_to_slice_or_err sl m dest in
  match r with Ok _ => Ret dest | Err _ => Panic end.

(** [self.slice.iter().zip(dest.iter_mut()).for_each(|(src, dst)| *dst = src.get())] *)
Fixpoint zip_to (cells : list Z) m (dest : list Z) : list Z :=
  match cells, dest with
  | src :: cells, _ :: dest => cell_get src m :: zip_to cells m dest
  | _, dest => dest
  end.
Definition rw_copy_to_slice_or_err sl m (dest : list Z) : result unit ErrorCode * list Z :=
  if negb (slice_len sl =? Z.of_nat (length dest)) then (Err SIZE, dest)
  else (Ok tt, zip_to (iter sl) m dest).
Definition rw_copy_to_slice sl m (dest : list Z) : outcome (list Z) :=
  match rw_copy_to_slice_or_err sl m dest with (Ok _, dest) => Ret dest | (Err _, _) => Panic end.

(** [src.iter().zip(self.slice.iter()).for_each(...)], which sets each cell. *)
Fixpoint zip_from (src cells : list Z) m : memory :=
  match src, cells with
  | v :: src, dst :: cells => zip_from src cells (cell_set dst v m)
  | _, _ => m
  end.
Definition copy_from_slice_or_err (src : list Z) sl m : result unit ErrorCode * memory :=
  if negb (slice_len sl =? Z.of_nat (length src)) then (Err SIZE, m)
  else (Ok tt, zip_from src (iter sl) m).
Definition copy_from_slice (src : list Z) sl m : outcome memory :=
  match copy_from_slice_or_err src sl m with (Ok _, m) => Ret m | (Err _, _) => Panic end.

(** * Buffers

    [ReadOnlyProcessBuffer] and [ReadWriteProcessBuffer]: the same fields and the same
    bodies; only the latter has [mut_enter]. *)
Record Buffer := mkBuffer { ptr_ : Z; len_ : Z; process_id_ : option ProcessId }.

Definition new (ptr len : Z) (pid : ProcessId) : Buffer := mkBuffer ptr len (Some pid).
Definition new_external (ptr len : Z) (pid : ProcessId) : Buffer := new ptr len pid.
Definition consume (b : Buffer) : Z * Z := (ptr_ b, len_ b).
Definition const_default : Buffer := mkBuffer 0 0 None.
Definition ptr (b : Buffer) : Z := if len_ b =? 0 then 0 else ptr_ b.

Section buffers.
  Context {D hw config stored : Type} {mpu : MPU hw config}.
  Notation sys := (system D config stored).
  Implicit Types (s : sys) (b : Buffer).

(** [Kernel::process_map_or], with a closure that may change the memory of the process. *)
Definition process_map_or {R} (default : R) (pid : ProcessId) s
    (closure : memory -> outcome (R * memory)) : outcome (R * sys) :=
  match get_process pid s with
  | Some (p, m) => let! '(r, m) := closure m in Ret (r, put (Z.to_nat (pindex pid)) (p, m) s)
  | None => Ret (default, s)
  end.

Definition len b s : Z :=
  match process_id_ b with
  | None => 0
  | Some pid => match get_process pid s with Some _ => len_ b | None => 0 end
  end.

Definition enter {R} (fun_ : ProcessSlice -> memory -> outcome R) b s : outcome (result R Error * sys) :=
  match process_id_ b with
  | None => Ret (Err NoSuchApp, s)
  | Some pid => process_map_or (Err NoSuchApp) pid s (fun m =>
      let! r := fun_ (raw_processbuf_to_processslice (ptr_ b) (len_ b)) m in Ret (Ok r, m))
  end.

Definition mut_enter {R} (fun_ : ProcessSlice -> memory -> outcome (R * memory)) b s
    : outcome (result R Error * sys) :=
  match process_id_ b with
  | None => Ret (Err NoSuchApp, s)
  | Some pid => process_map_or (Err NoSuchApp) pid s (fun m =>
      let! '(r, m) := fun_ (raw_processbuf_to_processslice (ptr_ b) (len_ b)) m in Ret (Ok r, m))
  end.

End buffers.
(** * What drivers can do with a slice *)

(** The slices that can be had from a slice. *)
Inductive derived : relation ProcessSlice :=
  | derived_get start end_ sl sl' : 0 <= start -> get start end_ sl = Some sl' -> derived sl sl'
  | derived_get_from start sl sl' : 0 <= start -> get_from start sl = Some sl' -> derived sl sl'
  | derived_get_to end_ sl sl' : 0 <= end_ -> get_to end_ sl = Some sl' -> derived sl sl'
  | derived_range start end_ sl sl' : 0 <= start -> index_range start end_ sl = Ret sl' -> derived sl sl'
  | derived_to end_ sl sl' : 0 <= end_ -> index_to end_ sl = Ret sl' -> derived sl sl'
  | derived_from start sl sl' : 0 <= start -> index_from start sl = Ret sl' -> derived sl sl'
  | derived_chunk n cs sl sl' : 0 <= n -> chunks n sl = Ret cs -> sl' ∈ cs -> derived sl sl'.

(** The ways to write. *)
Inductive write sl : relation memory :=
  | write_cell idx a v m : 0 <= idx -> index_cell idx sl = Ret a -> write sl m (cell_set a v m)
  | write_copy_or_err src r m m' : copy_from_slice_or_err src sl m = (r, m') -> write sl m m'
  | write_copy src m m' : copy_from_slice src sl m = Ret m' -> write sl m m'.

(** Any sequence of writes to slices had from [sl]. *)
Definition accesses sl : relation memory := rtc (fun m m' => exists sl', rtc derived sl sl' /\ write sl' m m').

(** A closure of a driver: it writes through the slice it is given. *)
Definition by_interface {R} (fun_ : ProcessSlice -> memory -> outcome (R * memory)) : Prop :=
  forall sl m r m', fun_ sl m = Ret (r, m') -> accesses sl m m'.

(** * Windows *)

Definition within sl sl' : Prop :=
  base sl <= base sl' /\ 0 <= size sl' /\ base sl' + size sl' <= base sl + size sl.

Lemma within_trans sl1 sl2 sl3 : within sl1 sl2 -> within sl2 sl3 -> within sl1 sl3.
Proof. unfold within. lia. Qed.

Lemma get_within start end_ sl sl' : 0 <= start -> get start end_ sl = Some sl' -> within sl sl'.
Proof.
  unfold get. intros H0 H. destruct (Z.leb_spec start end_), (Z.leb_spec end_ (size sl)); simplify_eq/=.
  unfold within. cbn. lia.
Qed.

Lemma chunks_loop_within fuel n : 0 < n -> forall sl sl', 0 <= size sl ->
  sl' ∈ chunks_loop fuel n sl -> within sl sl'.
Proof.
  intros Hn. induction fuel as [|fuel IH]; intros sl sl' Hs; cbn [chunks_loop]; [by intros ?%elem_of_nil|].
  destruct (Z.eqb_spec (size sl) 0); [by intros ?%elem_of_nil|].
  intros [->|Hin]%elem_of_cons; [unfold within; cbn; lia|].
  apply IH in Hin; [|cbn; lia]. unfold within in *. cbn in Hin. lia.
Qed.

Lemma derived_within sl sl' : 0 <= size sl -> derived sl sl' -> within sl sl'.
Proof.
  intros Hs. destruct 1 as [st e sl sl' H0 H|st sl sl' H0 H|e sl sl' H0 H|st e sl sl' H0 H|e sl sl' H0 H
    |st sl sl' H0 H|n cs sl sl' H0 H Hin].
  - by apply (get_within st e).
  - unfold get_from in H. destruct (Z.leb_spec st (size sl)); simplify_eq. unfold within. cbn. lia.
  - unfold get_to in H. destruct (Z.leb_spec e (size sl)); simplify_eq. unfold within. cbn. lia.
  - unfold index_range in H. destruct (get st e sl) eqn:Hg; simplify_eq/=. by apply (get_within st e).
  - unfold index_to, index_range in H. destruct (get 0 e sl) eqn:Hg; simplify_eq/=. by apply (get_within 0 e).
  - unfold index_from, index_range in H. destruct (get st _ sl) eqn:Hg; simplify_eq/=. by apply (get_within st (slice_len sl)).
  - unfold chunks in H. destruct (Z.eqb_spec n 0); simplify_eq. apply (chunks_loop_within _ n) in Hin; [done|lia|done].
Qed.

Lemma rtc_derived_within sl sl' : 0 <= size sl -> rtc derived sl sl' -> within sl sl'.
Proof.
  intros Hs Hd. induction Hd as [sl|sl1 sl2 sl3 H12 _ IH]; [unfold within; lia|].
  apply derived_within in H12; [|done]. apply (within_trans _ sl2); [done|]. apply IH. by destruct H12 as (_ & ? & _).
Qed.

(** * Copies *)

Lemma iter_cons b n : 0 < n -> iter (mkProcessSlice b n) = b :: iter (mkProcessSlice (b + 1) (n - 1)).
Proof.
  intros Hn. unfold iter. cbn [base size]. replace (Z.to_nat n) with (S (Z.to_nat (n - 1))) by lia.
  cbn [seq map]. f_equal; [lia|]. rewrite <- seq_shift, map_map. apply map_ext. lia.
Qed.

Lemma cell_set_write_bytes b v src a m : b < a ->
  write_bytes a src (cell_set b v m) = cell_set b v (write_bytes a src m).
Proof.
  revert a. induction src as [|x src IH]; intros a Hb; [done|]. cbn [write_bytes]. rewrite IH by lia.
  unfold cell_set. apply insert_insert_ne. lia.
Qed.

Lemma zip_from_bytes src : forall b m,
  zip_from src (iter (mkProcessSlice b (Z.of_nat (length src)))) m = write_bytes b src m.
Proof.
  induction src as [|v src IH]; intros b m; [done|]. rewrite iter_cons by (cbn; lia).
  cbn [zip_from write_bytes length]. replace (Z.of_nat (S (length src)) - 1) with (Z.of_nat (length src)) by lia.
  rewrite IH, cell_set_write_bytes by lia. done.
Qed.

Lemma copy_from_slice_or_err_spec src sl m : 0 <= size sl ->
  copy_from_slice_or_err src sl m =
    if decide (size sl = Z.of_nat (length src)) then (Ok tt, write_bytes (base sl) src m) else (Err SIZE, m).
Proof.
  intros Hs. unfold copy_from_slice_or_err, slice_len. case_decide as E.
  - rewrite E, Z.eqb_refl. cbn [negb]. f_equal. destruct sl as [b n]. cbn in *. subst n. apply zip_from_bytes.
  - by rewrite (proj2 (Z.eqb_neq _ _)) by done.
Qed.

Lemma lookup_write_bytes src c : forall a m, ~ (a <= c < a + Z.of_nat (length src)) ->
  write_bytes a src m !! c = m !! c.
Proof.
  induction src as [|x src IH]; intros a m Hc; [done|]. cbn [write_bytes length] in *.
  rewrite lookup_insert_ne by lia. apply IH. lia.
Qed.

(** A write changes no cell outside the slice. *)
Lemma write_frame sl m m' c : 0 <= size sl -> write sl m m' -> ~ (base sl <= c < base sl + size sl) ->
  m' !! c = m !! c.
Proof.
  intros Hs Hw Hc.
  assert (Hcopy : forall src r m1 m2, copy_from_slice_or_err src sl m1 = (r, m2) -> m2 !! c = m1 !! c).
  { intros src r m1 m2. rewrite copy_from_slice_or_err_spec by done. case_decide; intros ?; simplify_eq; [|done].
    apply lookup_write_bytes. lia. }
  destruct Hw as [idx a v m Hi Ha|src r m m' H|src m m' H]; [|by apply (Hcopy src r)|].
  - unfold index_cell in Ha. destruct (Z.ltb_spec idx (size sl)); simplify_eq. apply lookup_insert_ne. lia.
  - unfold copy_from_slice in H. destruct (copy_from_slice_or_err src sl m) as [ [u|e] m1] eqn:E; simplify_eq.
    by apply (Hcopy src (Ok u)).
Qed.

Lemma accesses_frame sl m m' c : 0 <= size sl -> accesses sl m m' -> ~ (base sl <= c < base sl + size sl) ->
  m' !! c = m !! c.
Proof.
  intros Hs Ha Hc. induction Ha as [m|m1 m2 m3 (sl' & Hd & Hw) _ IH]; [done|]. rewrite IH.
  apply rtc_derived_within in Hd as (H1 & H2 & H3); [|done]. apply (write_frame sl'); [done|done|lia].
Qed.

(** ** Reading *)

Definition read sl m : list Z := map (fun a => cell_get a m) (iter sl).

Lemma length_read sl m : length (read sl m) = Z.to_nat (size sl).
Proof. unfold read, iter. by rewrite !length_map, length_seq. Qed.

Lemma zip_to_all cells m : forall dest, length dest = length cells ->
  zip_to cells m dest = map (fun a => cell_get a m) cells.
Proof. induction cells as [|c cells IH]; intros [|d dest] H; simplify_eq/=; [done|]. by rewrite IH. Qed.

Lemma enumerate_loop_all cells m : forall ahead dest, length dest = length cells ->
  enumerate_loop (length ahead) cells m (ahead ++ dest) = Ret (ahead ++ map (fun a => cell_get a m) cells).
Proof.
  induction cells as [|c cells IH]; intros ahead [|d dest] H; simplify_eq/=; [done|].
  rewrite set_index_ok by (rewrite length_app; cbn; lia). cbn [obind].
  rewrite insert_app_r_alt, Nat.sub_diag by lia. cbn [list_insert insert].
  change (cell_get c m :: dest) with ([cell_get c m] ++ dest). rewrite app_assoc.
  replace (S (length ahead)) with (length (ahead ++ [cell_get c m])) by (rewrite length_app; cbn; lia).
  rewrite IH by done. by rewrite <- app_assoc.
Qed.

(** Both loops read the whole slice, or refuse. *)
Lemma copies_agree sl m dest : 0 <= size sl ->
  let answer := if decide (size sl = Z.of_nat (length dest)) then (Ok tt, read sl m) else (Err SIZE, dest) in
  ro_copy_to_slice_or_err sl m dest = Ret answer /\ rw_copy_to_slice_or_err sl m dest = answer.
Proof.
  intros Hs. cbn zeta. unfold ro_copy_to_slice_or_err, rw_copy_to_slice_or_err, slice_len. case_decide as E.
  - rewrite E, Z.eqb_refl. cbn [negb].
    assert (Hl : length dest = length (iter sl)) by (unfold iter; rewrite length_map, length_seq; lia).
    split; [|by rewrite zip_to_all].
    pose proof (enumerate_loop_all (iter sl) m [] dest Hl) as Hloop. cbn [length app] in Hloop. by rewrite Hloop.
  - by rewrite (proj2 (Z.eqb_neq _ _)) by done.
Qed.

Lemma iter_split b k n : 0 <= k -> k <= n ->
  iter (mkProcessSlice b n) = iter (mkProcessSlice b k) ++ iter (mkProcessSlice (b + k) (n - k)).
Proof.
  intros Hk Hn. unfold iter. cbn [base size].
  replace (Z.to_nat n) with (Z.to_nat k + Z.to_nat (n - k))%nat by lia. rewrite seq_app, map_app. f_equal.
  rewrite Nat.add_0_l, <- (Nat.add_0_r (Z.to_nat k)) at 1. rewrite <- fmap_add_seq. cbn. rewrite <- list_fmap_compose.
  apply map_ext. intros i. cbn. lia.
Qed.

(** The chunks are the slice, cut up. *)
Lemma chunks_loop_cover n : 0 < n -> forall fuel sl, 0 <= size sl -> (Z.to_nat (size sl) <= fuel)%nat ->
  concat (map iter (chunks_loop fuel n sl)) = iter sl /\
  Forall (fun c => 0 < size c <= n) (chunks_loop fuel n sl).
Proof.
  intros Hn. induction fuel as [|fuel IH]; intros sl Hs Hf; cbn [chunks_loop].
  { replace sl with (mkProcessSlice (base sl) 0) by (destruct sl; f_equal; cbn in *; lia). by split. }
  destruct (Z.eqb_spec (size sl) 0) as [E|E].
  { unfold iter. rewrite E. by split. }
  destruct (IH (mkProcessSlice (base sl + Z.min n (size sl)) (size sl - Z.min n (size sl)))) as [H1 H2]; [cbn; lia..|].
  split; [|constructor; [cbn; lia|done] ]. cbn [map concat]. rewrite H1.
  destruct sl as [b l]. cbn [base size] in *. by rewrite <- iter_split by lia.
Qed.

(** What is copied into a slice of matching length is read back, at once or chunk by
    chunk; with another length nothing is copied.  Only a chunk size of zero panics. *)
Theorem slice_roundtrip src sl m chunk_size :
  0 <= size sl -> 0 <= chunk_size ->
  (size sl <> Z.of_nat (length src) ->
     copy_from_slice_or_err src sl m = (Err SIZE, m) /\ copy_from_slice src sl m = Panic) /\
  (size sl = Z.of_nat (length src) -> exists m',
     copy_from_slice_or_err src sl m = (Ok tt, m') /\ copy_from_slice src sl m = Ret m' /\
     (forall dest, length dest = length src ->
        ro_copy_to_slice sl m' dest = Ret src /\ rw_copy_to_slice sl m' dest = Ret src) /\
     (chunk_size = 0 -> chunks chunk_size sl = Panic) /\
     (chunk_size <> 0 -> exists cs, chunks chunk_size sl = Ret cs /\
        concat (map (fun c => read c m') cs) = src /\ Forall (fun c => 0 < size c <= chunk_size) cs)).
Proof.
  intros Hs Hc. split; intros E.
  { unfold copy_from_slice. rewrite copy_from_slice_or_err_spec by done. by rewrite decide_False. }
  exists (write_bytes (base sl) src m). unfold copy_from_slice. rewrite copy_from_slice_or_err_spec, decide_True by done.
  assert (Hread : read sl (write_bytes (base sl) src m) = src).
  { rewrite <- (read_write_bytes (base sl) src m) at 2. unfold read, iter, read_bytes, cell_get.
    rewrite map_map, E. by rewrite Nat2Z.id. }
  split_and!; [done..| | |].
  - intros dest Hd. destruct (copies_agree sl (write_bytes (base sl) src m) dest Hs) as [H1 H2].
    rewrite decide_True in H1, H2 by lia. rewrite Hread in H1, H2.
    unfold ro_copy_to_slice, rw_copy_to_slice. by rewrite H1, H2.
  - by intros ->.
  - intros Hn. unfold chunks. rewrite (proj2 (Z.eqb_neq _ _)) by done.
    destruct (chunks_loop_cover chunk_size ltac:(lia) (Z.to_nat (size sl)) sl Hs) as [H1 H2]; [done|].
    eexists. split; [done|]. split; [|done]. etrans; [|exact Hread]. unfold read. by rewrite <- H1, concat_map, map_map.
Qed.

(** * Buffers stay with their process *)

(** The slice of a buffer, and when it can be entered. *)
Lemma raw_slice_inside a n c : 0 <= n ->
  let sl := raw_processbuf_to_processslice a n in
  0 <= size sl /\ (base sl <= c < base sl + size sl -> n <> 0 /\ a <= c < a + n).
Proof. intros Hn. unfold raw_processbuf_to_processslice. destruct (Z.eqb_spec n 0); cbn; lia. Qed.

Lemma mut_enter_cases {D hw config stored R} {mpu : MPU hw config} a n pid
    (fun_ : ProcessSlice -> memory -> outcome (R * memory)) (s s' : system D config stored) r p m :
  0 <= n -> by_interface fun_ -> processes s !! Z.to_nat (pindex pid) = Some (Some (p, m)) ->
  mut_enter fun_ (new a n pid) s = Ret (r, s') ->
  if decide (identifier (process_id p) = identifier pid) then
    exists x m', r = Ok x /\ s' = put (Z.to_nat (pindex pid)) (p, m') s /\
      forall c, m' !! c <> m !! c -> n <> 0 /\ a <= c < a + n
  else r = Err NoSuchApp /\ s' = s.
Proof.
  intros Hn Hby Hs H. unfold mut_enter, new, process_map_or, get_process in H. cbn [process_id_ ptr_ len_] in H.
  rewrite Hs in H. case_decide as E; [rewrite E, Z.eqb_refl in H|by rewrite (proj2 (Z.eqb_neq _ _)) in H by done; simplify_eq].
  apply obind_Ret in H as ([x m1] & H & Hr). simplify_eq.
  apply obind_Ret in H as ([y m2] & H & Hr). simplify_eq.
  exists y, m1. split; [done|]. split; [done|]. intros c Hc.
  destruct (raw_slice_inside a n c Hn) as [H0 Hin]. apply Hin.
  destruct (decide (base (raw_processbuf_to_processslice a n) <= c
    < base (raw_processbuf_to_processslice a n) + size (raw_processbuf_to_processslice a n))) as [|Hout]; [done|].
  destruct Hc. apply (accesses_frame (raw_processbuf_to_processslice a n)); [done|by apply (Hby _ _ y)|done].
Qed.

(** C26: a driver that enters a buffer a process has shared with it, whatever the kernel
    has done to the process in between and however the driver slices, chunks and writes:
    a process that has been restarted since then is not touched, and otherwise only bytes
    of the shared range change, which lie in the block of the process, and while the
    process is active in its app memory below every grant. *)
Theorem buffer_writes_confined {D hw config stored R} {mpu : MPU hw config}
    {iso : MpuIsolation hw config} {ukb : UKB stored} CB PS
    (fault_action : process stored config -> FaultAction) a n p p1 b h k w m
    (fun_ : ProcessSlice -> memory -> outcome (R * memory)) (s s' : system D config stored) r :
  0 <= initial_process_app_brk_size -> wf p -> room CB PS k p ->
  identifier (process_id p) < process_identifier_max k -> u32_range a -> u32_range n ->
  build_readwrite_process_buffer a n p = (Ok b, p1) ->
  rtc (step CB PS fault_action) (mkWorld p1 h k) w ->
  processes s !! Z.to_nat (pindex (process_id p)) = Some (Some (proc w, m)) ->
  by_interface fun_ ->
  mut_enter fun_ (new (buf_ptr b) (buf_len b) (buf_process b)) s = Ret (r, s') ->
  if decide (identifier (process_id (proc w)) = identifier (process_id p)) then
    exists x m', r = Ok x /\ s' = put (Z.to_nat (pindex (process_id p))) (proc w, m') s /\
      forall c, m' !! c <> m !! c ->
        a <= c < a + n /\ memory_start (proc w) <= c < memory_start (proc w) + memory_len (proc w) /\
        (is_running (proc w) = true -> c < app_break (proc w) <= kernel_memory_break (proc w))
  else r = Err NoSuchApp /\ s' = s.
Proof.
  intros Happ Hwf Hroom Hid Ha Hn Hb Hs Hslot Hby Hrun.
  destruct (build_readwrite_spec a n p (Ok b) p1 Hwf Ha Hn Hb) as (Hwf1 & Hsm & Hst & _ & -> & Hact & Hbuf).
  destruct Hsm as (E1 & E2 & _ & _ & _ & _ & _ & _ & _ & Ep & _).
  apply (mut_enter_cases a n (process_id p) fun_ s s' r (proc w) m) in Hrun; [|by destruct Hn|done|done].
  case_decide as E; [|done]. destruct Hrun as (x & m' & -> & -> & Hch). exists x, m'. split; [done|]. split; [done|].
  destruct (run_evolves CB PS fault_action Happ (mkWorld p1 h k) w) as ([Hwfw _] & _ & Hev); [|done|].
  { split; [done|]. destruct Hroom as (kern & Hk & Hl). exists kern. cbn. by rewrite E2. }
  destruct Hev as [(_ & F1 & F2 & F3)|Hfresh]; [|cbn in Hfresh; lia]. cbn in *.
  intros c [Hn0 Hc]%Hch. split; [done|]. destruct Hbuf as [Hz|[Hb1 Hb2] ]; [done|]. cbn in Hb1, Hb2.
  rewrite <- (is_running_state p p1 Hst) in Hact. destruct (wf_active _ Hwf1 Hact) as ((Hi1 & Hi2) & _).
  split; [lia|]. intros Hr. destruct (F3 Hr) as (_ & Hle & _).
  destruct (wf_active _ Hwfw Hr) as ((Ho1 & Ho2) & _). lia.
Qed.

(** A driver that skips a header and fills the rest of the buffer. *)
Definition fill_after (header : Z) (v : Z) sl m : outcome (unit * memory) :=
  let! rest := index_from header sl in
  let! m := copy_from_slice (replicate (Z.to_nat (slice_len rest)) v) rest m in
  Ret (tt, m).

Lemma fill_after_interface v : by_interface (fill_after 2 v).
Proof.
  intros sl m r m' H. unfold fill_after in H. apply obind_Ret in H as (rest & Hi & H).
  apply obind_Ret in H as (m1 & Hc & H). simplify_eq. apply rtc_once. exists rest. split.
  - apply rtc_once. by apply (derived_from 2).
  - by eapply write_copy.
Qed.

Lemma fill_after_runs a n m v : 2 <= n -> exists m', fill_after 2 v (mkProcessSlice a n) m = Ret (tt, m').
Proof.
  intros Hn. unfold fill_after, index_from, index_range, get, slice_len. cbn [size base].
  rewrite (proj2 (Z.leb_le 2 n)), Z.leb_refl by done. cbn [andb of_option obind size].
  unfold copy_from_slice. rewrite copy_from_slice_or_err_spec by (cbn; lia). cbn [size].
  rewrite decide_True by (rewrite length_replicate; lia). cbn [obind]. by eexists.
Qed.

Lemma demo_sharing : exists p rest k h p1,
  demo_create = Ret (Ok (p, rest), k, h) /\ wf p /\ room 280 400 k p /\
  identifier (process_id p) < process_identifier_max k /\ pindex (process_id p) = 0 /\ state p1 = Yielded /\
  process_id p1 = process_id p /\ u32_range (memory_start p + 4) /\
  build_readwrite_process_buffer (memory_start p + 4) 16 p
    = (Ok (mkProcessBuffer (memory_start p + 4) 16 (process_id p)), p1).
Proof.
  destruct demo_created as (p & rest & k & h & E & Hwf & Hroom & Hr & Hst & Htop & Hl & _ & Hid).
  assert (Hb : match demo_create with
     | Ret (Ok (q, _), _, _) => in_app_owned_memory (memory_start q + 4) 16 q && (pindex (process_id q) =? 0)
     | _ => true end = true) by (vm_compute; reflexivity).
  rewrite E in Hb. apply andb_true_iff in Hb as [Hb Hi%Z.eqb_eq].
  pose proof (wf_start p Hwf).
  destruct (build_readwrite_process_buffer (memory_start p + 4) 16 p) as [r p1] eqn:Hbld.
  unfold build_readwrite_process_buffer in Hbld. rewrite Hr, Hb in Hbld. cbn [negb Z.eqb] in Hbld. injection Hbld as <- <-.
  eexists p, rest, k, h, _. split; [exact E|]. clear E.
  split; [exact Hwf|]. split; [exact Hroom|]. split; [exact Hid|]. split; [exact Hi|].
  split; [|split; [|split] ]; cycle 3.
  - unfold build_readwrite_process_buffer. rewrite Hr, Hb. reflexivity.
  - exact Hst.
  - reflexivity.
  - unfold u32_range, U32. lia.
Qed.

Lemma buffer_writes_confined_witness : exists p rest k h (p1 : process unit CortexM.CortexMConfig),
  demo_create = Ret (Ok (p, rest), k, h) /\
  let s := mkSystem [Some (stop p1, ∅)] k tt in
  exists r m', mut_enter (fill_after 2 7) (new (memory_start p + 4) 16 (process_id p)) s
      = Ret (r, put 0 (stop p1, m') s) /\ r = Ok tt /\
    forall c, m' !! c <> (∅ : memory) !! c -> memory_start p + 4 <= c < memory_start p + 4 + 16.
Proof.
  destruct demo_sharing as (p & rest & k & h & p1 & E & Hwf & Hroom & Hid & Hi & Hst & Hpid & Ha & Hb).
  exists p, rest, k, h, p1. split; [exact E|]. clear E. cbn zeta.
  assert (Hsp : process_id (stop p1) = process_id p) by (unfold stop; rewrite Hst; exact Hpid).
  assert (Happ : 0 <= initial_process_app_brk_size (stored := unit)) by discriminate.
  set (s := mkSystem [Some (stop p1, ∅)] k tt).
  destruct (fill_after_runs (memory_start p + 4) 16 ∅ 7) as [m' Hm]; [lia|].
  assert (Hrun : mut_enter (fill_after 2 7) (new (memory_start p + 4) 16 (process_id p)) s
      = Ret (Ok tt, put 0 (stop p1, m') s)).
  { unfold mut_enter, new, process_map_or, get_process. cbn [process_id_ ptr_ len_]. rewrite Hi.
    change (processes s !! Z.to_nat 0) with (Some (Some (stop p1, ∅ : memory))). cbv iota.
    rewrite Hsp, Z.eqb_refl. unfold raw_processbuf_to_processslice. cbn [Z.eqb]. rewrite Hm. reflexivity. }
  exists (Ok tt), m'. split; [exact Hrun|]. split; [reflexivity|].
  pose proof (buffer_writes_confined 280 400 demo_fault (memory_start p + 4) 16 p p1 _ h k
    (mkWorld (stop p1) h k) ∅ (fill_after 2 7) s _ _ Happ Hwf Hroom Hid Ha
    ltac:(split; [lia|reflexivity]) Hb ltac:(apply rtc_once, step_stop)
    ltac:(rewrite Hi; reflexivity) (fill_after_interface 7) Hrun) as H.
  cbn [proc] in H. rewrite Hsp in H. rewrite decide_True in H by reflexivity.
  destruct H as (x & m2 & _ & Hput & Hch). rewrite Hi in Hput. injection Hput as Hm2. subst m2.
  intros c Hc. apply (Hch c Hc).
Defined.

End ProcessBuffers.
