(* ===== verification/VirtualFlash.v ===== *)
(** Virtual flash ([capsules/core/src/virtualizers/virtual_flash.rs], with the traits of
    [kernel/src/hil/flash.rs]), module [VirtualFlash]: many users of one flash.

    A user is a node of the mux's list, named by its place in [nodes]; the list itself
    ([users]) behaves as the functional list of its nodes, new ones at the head.  What
    clients do when an operation completes is the parameter [callback]: it may issue new
    operations.  The state also records requests and completions ([trace], newest
    first), which the theorems are about; nothing reads it. *)

From stdpp Require Import base numbers list relations.
From S2P Require Import Prelude Syscall.
Import Syscall.
Local Open Scope Z_scope.

Module VirtualFlash.

(** [hil::flash::Error] *)
Inductive Error := FlashError | FlashMemoryProtectionError.

(** The trait [Flash], for a device in a state [H] with pages in buffers of type [P]. *)
Class Flash (H P : Type) := {
  hw_read_page : Z -> P -> H -> result unit (ErrorCode * P) * H;
  hw_write_page : Z -> P -> H -> result unit (ErrorCode * P) * H;
  hw_erase_page : Z -> H -> result unit ErrorCode * H;
}.

(** The calls of the trait [Client]. *)
Inductive Completion (P : Type) :=
  | ReadComplete (pagebuffer : P) (result : result unit Error)
  | WriteComplete (pagebuffer : P) (result : result unit Error)
  | EraseComplete (result : result unit Error).
Arguments ReadComplete {P}.
Arguments WriteComplete {P}.
Arguments EraseComplete {P}.

Inductive Op := Idle | Write (page_number : Z) | Read (page_number : Z) | Erase (page_number : Z).
#[export] Instance Op_eq_dec : EqDecision Op.
Proof. solve_decision. Defined.

Record FlashUser (P C : Type) := mkUser {
  buffer : option P;
  operation : Op;
  client : option C;
}.
Arguments mkUser {P C}.
Arguments buffer {P C}.
Arguments operation {P C}.
Arguments client {P C}.

Inductive Event (P : Type) := Requested (i : nat) (op : Op) (buf : option P) | Completed (i : nat) (c : Completion P).
Arguments Requested {P}.
Arguments Completed {P}.

Record MuxFlash (H P C E : Type) := mkMux {
  flash : H;
  users : list nat;
  inflight : option nat;
  nodes : list (FlashUser P C);
  (** the state of the clients *)
  env : E;
  trace : list (Event P);
}.
Arguments mkMux {H P C E}.
Arguments flash {H P C E}.
Arguments users {H P C E}.
Arguments inflight {H P C E}.
Arguments nodes {H P C E}.
Arguments env {H P C E}.
Arguments trace {H P C E}.

Section mux.
  Context {H P C E : Type} `{!Flash H P}.
  Notation Mux := (MuxFlash H P C E).
  Implicit Types (s : Mux) (v : FlashUser P C) (i : nat).

Definition set_flash h s : Mux := mkMux h (users s) (inflight s) (nodes s) (env s) (trace s).
Definition set_users l s : Mux := mkMux (flash s) l (inflight s) (nodes s) (env s) (trace s).
Definition set_inflight o s : Mux := mkMux (flash s) (users s) o (nodes s) (env s) (trace s).
Definition set_node i v s : Mux := mkMux (flash s) (users s) (inflight s) (<[i := v]> (nodes s)) (env s) (trace s).
Definition set_env e s : Mux := mkMux (flash s) (users s) (inflight s) (nodes s) e (trace s).
Definition record_event ev s : Mux := mkMux (flash s) (users s) (inflight s) (nodes s) (env s) (ev :: trace s).
Definition set_buffer b v : FlashUser P C := mkUser b (operation v) (client v).
Definition set_operation op v : FlashUser P C := mkUser (buffer v) op (client v).

(** ** Construction *)

Definition mux_new (h : H) (e : E) : Mux := mkMux h [] None [] e [].
Definition user_new : FlashUser P C := mkUser None Idle None.
Definition set_client i (c : C) s : outcome Mux :=
  let s := set_users (i :: users s) s in
  let! v := index (nodes s) i in
  Ret (set_node i (mkUser (buffer v) (operation v) (Some c)) s).

(** ** The mux *)

(** [users.iter().find(|node| node.operation.get() != Op::Idle)] *)
Fixpoint find_pending (l : list nat) s : outcome (option nat) :=
  match l with
  | [] => Ret None
  | i :: l =>
    let! v := index (nodes s) i in
    if bool_decide (operation v <> Idle) then Ret (Some i) else find_pending l s
  end.

(** The match on the operation, without and with a buffer: what is left in the node's
    cell, and the flash. *)
Definition start_without (op : Op) (h : H) : H :=
  match op with
  | Erase page_number => (hw_erase_page page_number h).2
  | _ => h
  end.
Definition start_with (op : Op) (buf : P) (h : H) : option P * H :=
  match op with
  | Write page_number =>
    match hw_write_page page_number buf h with (Err (_, buf), h) => (Some buf, h) | (Ok _, h) => (None, h) end
  | Read page_number =>
    match hw_read_page page_number buf h with (Err (_, buf), h) => (Some buf, h) | (Ok _, h) => (None, h) end
  | Erase page_number => (None, (hw_erase_page page_number h).2)
  | Idle => (None, h)
  end.

Definition do_next_op s : outcome Mux :=
  match inflight s with
  | Some _ => Ret s
  | None =>
    let! mnode := find_pending (users s) s in
    match mnode with
    | None => Ret s
    | Some i =>
      let! v := index (nodes s) i in
      let '(b, h) := match buffer v with
                     | None => (None, start_without (operation v) (flash s))
                     | Some buf => start_with (operation v) buf (flash s)
                     end in
      Ret (set_inflight (Some i) (set_node i (mkUser b Idle (client v)) (set_flash h s)))
    end
  end.

(** ** A user *)

Definition read_page i (page_number : Z) (buf : P) s : outcome Mux :=
  let s := record_event (Requested i (Read page_number) (Some buf)) s in
  let! v := index (nodes s) i in
  do_next_op (set_node i (mkUser (Some buf) (Read page_number) (client v)) s).
Definition write_page i (page_number : Z) (buf : P) s : outcome Mux :=
  let s := record_event (Requested i (Write page_number) (Some buf)) s in
  let! v := index (nodes s) i in
  do_next_op (set_node i (mkUser (Some buf) (Write page_number) (client v)) s).
Definition erase_page i (page_number : Z) s : outcome Mux :=
  let s := record_event (Requested i (Erase page_number) None) s in
  let! v := index (nodes s) i in
  do_next_op (set_node i (mkUser (buffer v) (Erase page_number) (client v)) s).

(** ** The flash completes an operation *)

  (** What the client of a user does. *)
  Context (callback : C -> Completion P -> Mux -> outcome Mux).

(** [read_complete], [write_complete] and [erase_complete] of a user. *)
Definition user_complete i (c : Completion P) s : outcome Mux :=
  let s := record_event (Completed i c) s in
  let! v := index (nodes s) i in
  match client v with
  | Some cl => callback cl c s
  | None => Ret s
  end.

(** The same of the mux. *)
Definition mux_complete (c : Completion P) s : outcome Mux :=
  let! s := match inflight s with
            | Some user => user_complete user c (set_inflight None s)
            | None => Ret s
            end in
  do_next_op s.

End mux.

(** * Requests and their answers *)

(** What was asked for; a buffer is told by its identity, which reading into it keeps. *)
Inductive Request := RRead (page_number id : Z) | RWrite (page_number id : Z) | RErase (page_number : Z).

Definition answers {P} (buffer_id : P -> Z) (r : Request) (c : Completion P) : Prop :=
  match r, c with
  | RRead _ id, ReadComplete p _ | RWrite _ id, WriteComplete p _ => buffer_id p = id
  | RErase _, EraseComplete _ => True
  | _, _ => False
  end.


(** The buffers of a flash, and its laws: when it is not busy it takes a request or
    refuses it, giving the buffer back, and it answers what it took once. *)
Class FlashLaws (H P : Type) `{!Flash H P} := {
  buffer_id : P -> Z;
  busy : H -> option Request;
  completes : H -> Completion P -> H -> Prop;
  law_read n p h r h' : busy h = None -> hw_read_page n p h = (r, h') ->
    match r with
    | Ok _ => busy h' = Some (RRead n (buffer_id p))
    | Err (_, p') => busy h' = None /\ buffer_id p' = buffer_id p
    end;
  law_write n p h r h' : busy h = None -> hw_write_page n p h = (r, h') ->
    match r with
    | Ok _ => busy h' = Some (RWrite n (buffer_id p))
    | Err (_, p') => busy h' = None /\ buffer_id p' = buffer_id p
    end;
  law_erase n h r h' : busy h = None -> hw_erase_page n h = (r, h') ->
    match r with
    | Ok _ => busy h' = Some (RErase n)
    | Err _ => busy h' = None
    end;
  law_completes h c h' : completes h c h' -> exists r, busy h = Some r /\ busy h' = None /\ answers buffer_id r c;
}.

Section answers.
  Context {H P C E : Type} `{laws : FlashLaws H P}.
  Notation Mux := (MuxFlash H P C E).
  Implicit Types (s : Mux) (v : FlashUser P C) (i : nat) (tr : list (Event P)).

Definition request_of (op : Op) (b : option P) : option Request :=
  match op, b with
  | Read n, Some p => Some (RRead n (buffer_id p))
  | Write n, Some p => Some (RWrite n (buffer_id p))
  | Erase n, None => Some (RErase n)
  | _, _ => None
  end.

(** The request of user [i] that has no answer yet. *)
Fixpoint outstanding i tr : option Request :=
  match tr with
  | [] => None
  | Requested j op b :: tr => if decide (i = j) then request_of op b else outstanding i tr
  | Completed j _ :: tr => if decide (i = j) then None else outstanding i tr
  end.


(** * Invariant *)








(** * Steps *)

(** A user with nothing going on. *)
Definition free i s : Prop :=
  i ∈ users s /\ inflight s <> Some i /\ exists v, nodes s !! i = Some v /\ operation v = Idle.

(** What clients do: they issue operations of users that have nothing going on. *)
Inductive client_step : relation Mux :=
  | client_read i n buf s s' : free i s -> read_page i n buf s = Ret s' -> client_step s s'
  | client_write i n buf s s' : free i s -> write_page i n buf s = Ret s' -> client_step s s'
  | client_erase i n s s' : free i s -> erase_page i n s = Ret s' -> client_step s s'
  | client_env e s : client_step s (set_env e s).

Context (callback : C -> Completion P -> Mux -> outcome Mux).






Context (clients : forall cl c s s', callback cl c s = Ret s' -> rtc client_step s s').





End answers.

(** * A flash that refuses

    The mux takes a refused operation off its user all the same and waits for its
    completion: from then on nothing reaches the flash any more, while every operation
    still reports success. *)
Lemma stuck {H P C E} `{Flash H P} i (s s' : MuxFlash H P C E) :
  inflight s = Some i -> rtc client_step s s' -> inflight s' = Some i /\ flash s' = flash s.
Proof.
  intros Hin Hs. induction Hs as [s|s1 s2 s3 H12 _ IH]; [done|].
  assert (E2 : inflight s2 = inflight s1 /\ flash s2 = flash s1).
  { destruct H12 as [j n buf t t' _ Ht|j n buf t t' _ Ht|j n t t' _ Ht|e t]; [..|done];
      apply obind_Ret in Ht as (v & _ & Ht); unfold do_next_op in Ht; cbn [inflight set_node record_event] in Ht;
      rewrite Hin in Ht; injection Ht as <-; done. }
  destruct E2 as [E2 E3]. rewrite <- E3. apply IH. congruence.
Qed.




Theorem refused_operation_blocks {H P C E} `{Flash H P} i n buf e h (s : MuxFlash H P C E) v :
  users s = [i] -> inflight s = None -> nodes s !! i = Some v -> hw_read_page n buf (flash s) = (Err (e, buf), h) ->
  exists s', read_page i n buf s = Ret s' /\
    forall s'', rtc client_step s' s'' -> inflight s'' = Some i /\ flash s'' = h.
Proof.
  intros Hu Hin Hv Hhw. unfold read_page. cbn [nodes record_event]. rewrite (index_ok _ _ _ Hv). cbn [obind].
  unfold do_next_op. cbn [inflight set_node record_event users nodes flash]. rewrite Hin, Hu. cbn [find_pending nodes].
  assert (Hi : index (<[i := mkUser (Some buf) (Read n) (client v)]> (nodes s)) i
    = Ret (mkUser (Some buf) (Read n) (client v))).
  { apply index_ok. apply list_lookup_insert_eq. by eapply lookup_lt_Some. }
  cbn [set_node record_event nodes]. rewrite Hi. cbn [obind operation]. rewrite bool_decide_true by done.
  cbn [obind]. rewrite Hi. cbn [obind buffer operation start_with]. rewrite Hhw.
  eexists. split; [reflexivity|]. intros s'' Hs. by apply (stuck i) in Hs.
Qed.

(** * Two users

    A flash of eight pages that keeps the request it works on, buffers that are their own
    identity, and clients that read again as soon as they can. *)
Definition take_request (n : Z) (r : Request) (h : option Request) : result unit ErrorCode * option Request :=
  match h with
  | None => if n <? 8 then (Ok tt, Some r) else (Err INVAL, None)
  | Some _ => (Err BUSY, h)
  end.
Definition take_buffer (n : Z) (r : Request) (p : Z) (h : option Request) : result unit (ErrorCode * Z) * option Request :=
  match take_request n r h with (Ok _, h) => (Ok tt, h) | (Err e, h) => (Err (e, p), h) end.
#[export] Instance demo_flash : Flash (option Request) Z := {|
  hw_read_page n p := take_buffer n (RRead n p) p;
  hw_write_page n p := take_buffer n (RWrite n p) p;
  hw_erase_page n := take_request n (RErase n);
|}.
#[export] Instance demo_laws : FlashLaws (option Request) Z.
Proof.
  refine {| buffer_id := fun p => p; busy := fun h => h;
            completes := fun h c h' => exists r, h = Some r /\ h' = None /\ answers (fun p => p) r c |}.
  - intros n p h r h' -> Hr. cbn in Hr. unfold take_buffer, take_request in Hr. destruct (n <? 8); by simplify_eq.
  - intros n p h r h' -> Hr. cbn in Hr. unfold take_buffer, take_request in Hr. destruct (n <? 8); by simplify_eq.
  - intros n h r h' -> Hr. cbn in Hr. unfold take_request in Hr. destruct (n <? 8); by simplify_eq.
  - intros h c h' Hc. exact Hc.
Defined.

Notation demo_mux := (MuxFlash (option Request) Z nat unit).
Definition is_free (i : nat) (s : demo_mux) : bool :=
  match nodes s !! i with
  | Some v => bool_decide (i ∈ users s) && bool_decide (inflight s <> Some i) && bool_decide (operation v = Idle)
  | None => false
  end.
Definition read_again (i : nat) (c : Completion Z) (s : demo_mux) : outcome demo_mux :=
  if is_free i s then read_page i 3 (Z.of_nat i) s else Ret s.



Definition two_users : demo_mux :=
  mkMux None [0%nat; 1%nat] None [mkUser None Idle (Some 0%nat); mkUser None Idle None] tt [].
Definition contended : outcome demo_mux :=
  let! s := read_page 0 3 0 two_users in erase_page 1 5 s.



(** The first user in the list with a request is served: one that reads again in its
    callback keeps the others waiting for ever. *)
Definition complete_reads (n : nat) : outcome demo_mux :=
  Nat.iter n (fun o => let! s := o in mux_complete read_again (ReadComplete 0 (Ok tt)) (set_flash None s)) contended.

Theorem head_user_starves n : exists s, complete_reads n = Ret s /\
  busy (flash s) = Some (RRead 3 0) /\ inflight s = Some 0%nat /\ outstanding 1 (trace s) = Some (RErase 5).
Proof.
  enough (exists tr, complete_reads n = Ret (mkMux (Some (RRead 3 0)) [0%nat; 1%nat] (Some 0%nat)
      [mkUser None Idle (Some 0%nat); mkUser None (Erase 5) None] tt tr) /\ outstanding 1 tr = Some (RErase 5))
    as (tr & -> & Htr) by (by eexists).
  induction n as [|n (tr & IH & Htr)]; [by eexists|].
  change (complete_reads (S n)) with (let! s := complete_reads n in
    mux_complete read_again (ReadComplete 0 (Ok tt)) (set_flash None s)). rewrite IH.
  eexists. split; [reflexivity|exact Htr].
Qed.

End VirtualFlash.
